(* ===== verification/_CoqProject ===== *)
-Q . S2P
Prelude.v
Result.v
Digest.v
JsSet.v
JsMap.v
JsString.v
Merkle.v
Collections.v
Bloom.v
Resilience.v
GF256.v
Lagrange.v
Threshold.v
RateLimit.v
Governance.v
Consensus.v
Gossip.v
JsSort.v
Policy.v
Registry.v
Queue.v
Regex.v
Net.v
Paths.v
Schemas.v
ExecPolicy.v
Executor.v
Kv.v
Session.v
ApiKeys.v
Mmdb.v
MmdbTheory.v
MmdbCodec.v
Canonical.v
Timeline.v
AuditChain.v
AuditService.v
AuditTheory.v
AuditLedger.v
AuditExamples.v
EventBus.v
Cidr.v
Base64.v
Mesh.v
MeshSync.v
Routes.v
WebAuth.v
MeshWeb.v
WebExamples.v
Pki.v
Effects.v
Response.v
Firewall.v
Playbook.v
SidecarIpc.v
Launch.v
Supervisor.v
Causal.v
ProcessTree.v
Behavior.v
WsHub.v
Correlation.v
Canary.v
EventSchema.v
Mediator.v
Notify.v
Autopilot.v
Health.v
Baseline.v
Kernel.v
Honeypot.v
Intel.v
Tpm.v
GeoIp.v
Config.v
Boot.v
Anonymizer.v
Provisioning.v
Sockets.v
Attempts.v
