(* ===== verification/Prelude.v ===== *)
(** * Counter-Terrorist orchestrator: verification library

    The program under [src/src/orchestrator] is the orchestrator of a host
    defence system, written in TypeScript for Deno.  It keeps a tamper-evident
    audit ledger, authenticates operators and peers, runs vetted operating
    system commands, exchanges threat information with the other nodes of a
    mesh, and responds to threats.  This library models its core logic as
    functions and step relations and proves what makes it correct.

    ** The parts and how they interact

    Every service extends [BaseService] and is started and stopped in order by
    the [ServiceRegistry].  Events reach the services over the [EventBus].  The
    [AuditService] chains events by hash over the canonical serialisation of
    their content, commits batches with a [MerkleTree], stores them in a
    timeline in the KV store and synchronises them with peers.  Operators enter
    through the web middleware, which asks the rate limiter, the session
    service and the API key service; these persist through [KvRepository].
    Requests for action pass the zod schemas, the path and address validators
    and the execution policies before [SystemExecutor] spawns anything.  The
    [MeshManager] admits peers after a handshake, and hands messages to the
    gossip manager (Bloom filter, circuit breakers, retries) and the consensus
    manager (quorums), over which [GovernanceService] decides proposals;
    [MeshAuthService] and [RotationService] keep its certificates and secrets.
    The [AutonomousResponseEngine] scores threats, asks the [PolicyEngine] and
    executes a [ThreatResponseSaga]; playbooks and auto-block react to single
    events.  [SovereignApp] loads the configuration, checks it and the hardware,
    and starts the services.  The [EventMediator] validates what the agents report, feeds the
    analyzers with it and publishes it on the bus, where the autopilot, the
    correlation and the notifications listen.  All of them act through the [FirewallManager], which reaches the
    kernel through the sentinel agent or a vetted command.  The agents are
    processes that the [SidecarManager] finds, verifies, starts, restarts and
    talks to.

    ** Files

    Foundations of the language: [Prelude] (tactics, hints, lists),
    [Result] (core/result.ts), [JsMap] (insertion-ordered maps), [JsString]
    (UTF-16 strings), [JsSort] (stable sorting), [Regex] (anchored regular
    expressions by derivatives), [Base64] (btoa, atob), [Digest] (the interface
    of SHA-256).

    Core utilities: [Merkle] (core/merkle.ts), [Collections]
    (core/utils/collections.ts: the pointer-linked LRU cache and its
    specification [LruSpec]), [Bloom] (core/cache.ts), [Resilience]
    (core/utils/resilience.ts), [GF256], [Lagrange] and [Threshold]
    (core/utils/threshold.ts), [Queue] (core/utils/persistent_queue.ts),
    [Registry] (core/base_service.ts, core/registry.ts), [Canonical]
    (core/crypto_utils.ts).

    Validation and execution (infrastructure/system): [Net], [Paths] and
    [Schemas] (validation.ts), [ExecPolicy] (execution_policy.ts), [Executor]
    (system_executor.ts), [Mmdb], [MmdbTheory], [MmdbCodec]
    (geoip/mmdb_reader.ts).

    Identity (domain/identity): [RateLimit], [Session], [ApiKeys], over [Kv]
    (the KV repository behind a [Repository] class), and [Pki] (mesh_auth.ts,
    rotation_service.ts).

    The ledger: [Timeline] (timeline_repository.ts), [AuditChain] (sanitising,
    hashing, verification), [AuditService] (the service as interleaved steps),
    [AuditTheory], [AuditLedger], [AuditExamples].

    Orchestration (domain/orchestration): [Governance], [Consensus], [Gossip],
    [Policy], [Cidr], [Mesh], [MeshSync] (mesh.ts), [Response]
    (autonomous_response.ts, sagas/threat_response_saga.ts), and [EventBus]
    (domain/analysis/events.ts).

    Agents and enforcement (infrastructure): [Effects] (operations over ports
    that answer, fail or throw), [JsSet], [Firewall] (firewall.ts and the
    Ubuntu provider over the sentinel and ufw), [Playbook]
    (playbook_service.ts, auto_block_service.ts), [Launch] (the registry, the
    manifest, the integrity check and the spawner), [Supervisor] (life cycle,
    restarts and shutdown of the agents), [SidecarIpc] (framing, routing,
    queueing and timeouts of their messages), [Canary]
    (protection/canary_service.ts over a file system of names and inodes),
    [Kernel] (protection/kernel_service.ts over the executor's policies),
    [Honeypot] (protection/honeypot_service.ts), [Tpm]
    (protection/tpm/tpm_manager.ts).

    Analysis (domain/analysis): [Causal] (causal_graph_service.ts),
    [ProcessTree] (process_tracker.ts), [Behavior] (behavioral_analyzer.ts),
    [Correlation] (correlation_service.ts), [Baseline] (baseline.ts), [Health]
    (health_service.ts), [EventSchema] (core/event_schema.ts), [Mediator]
    (event_mediator.ts and its integrations, over the analyzer, the process
    tree and the canaries), [Notify] (notifications.ts), [GeoIp]
    (geoip_service.ts), [Intel] (curated_intel_service.ts), [Autopilot]
    (orchestration/autopilot_service.ts, playbook_engine.ts), [Sockets]
    (active_socket_service.ts), [Attempts] (behavioral_service.ts).

    Start-up and the rest of the life cycle: [Config] (core/config_schema.ts,
    the provider, the validator and the hardening checks), [Boot]
    (system_lifecycle_service.ts, lifecycle_service.ts, app/lifecycle_manager.ts,
    app/application_manager.ts, app/sovereign_app.ts), [Anonymizer]
    (protection/anonymization_service.ts and the VPN providers), [Provisioning]
    (orchestration/provisioning_service.ts, analysis/integrity_service.ts).

    Web interface (interface/web): [Routes] (routes/registry.ts), [WebAuth]
    (middleware/security.ts, the login handlers), [MeshWeb] (the mesh
    endpoints and their gate), [WsHub] (ws_handler.ts and the gate of its
    upgrade), [WebExamples].

    ** How the code is modelled

    A class is a [Record] of its fields, a method a function that returns the
    new state with its result and the effects it performs in order.  An async
    method is cut at its awaits: each piece is a constructor of an [input], and
    a theorem about [run] quantifies over every interleaving of the pieces.
    A rejected promise or a thrown exception is a value ([settled], [Result],
    [option]).  JavaScript's [Map] keeps insertion order, a string is its code
    units, a bitwise operation acts on signed 32-bit integers, other numbers
    are integers in the range the code uses or rationals.  What a property
    hears from outside (the runtime's store, WebCrypto, zod's text
    conversions, the clock, random values, answers of peers) is a parameter or
    an input; what the code relies on there is a class or a named hypothesis
    ([Digest], [DenoKv], [TimelineKv], the path functions), each with a
    concrete instance on which the examples run.

    ** What the theorems show

    Merkle trees: incremental building equals the batch construction, proofs
    are complete and, up to collisions, sound.  Secret sharing: reconstruction
    inverts splitting, fewer shares fit every secret, the table product is the
    product of the field.  Ledger: no accepted event is lost, duplicated or
    reordered in any interleaving, and what is not committed is known to have
    been dropped; what a node stores verifies as long as nothing is synchronised
    into it, removed for its age or logged as a checkpoint; two ledgers with
    one head agree; peers can only add vetted events.  Gate: [auth] admits
    exactly the requests with one of the listed credentials; the API limit
    holds whatever headers a client sends; login and logout are a round trip.
    Execution: whatever is spawned is whitelisted and vetted, and the files that
    mkdir, cp, mv, chmod, ls and sha256sum name are inside their jails, as far
    as their directories exist.  Certificates: asking for the root CA ends while
    one secret can be read or a seal is heard, and not otherwise.  Caches, sessions and keys refine their
    specifications.  Mesh: peers are admissible and verified only by a
    handshake; quorums are sound and approvals are not lost under contention;
    split-brain repair follows the majority.  Response: in shadow
    mode only the measures of the tier SHADOW are taken, which may still end in
    a deny rule; the tables of the engine stay well formed.  Enforcement: the
    firewall spares protected processes and handles valid addresses only,
    and a restart blocks again what was blocked and not lifted.  Agents: in production only a verified image
    is started; an agent has one process as long as the pipes of an
    ended one close in time; crash
    loops back off and trip a breaker that holds; one command at a time is in
    flight, answered by its own reply, and none is stuck for good while the agent
    takes what is written to it; lines and nesting are recognised exactly.  Analysis: the indexed attack graph has the edges of the
    pairwise comparison, but for a file and a process that have no path; the process tree stays a tree in any interleaving; an
    intent is only reported when its calls were made; windows and scores are
    bounded; a kill chain is a breach exactly when both of its stages were
    reached; drift is the difference to the stored baseline.  Event stream: a
    stranger is never sent a sensitive event; telemetry is published once and in
    order in any interleaving; a notification is addressed to what was checked
    for it in that step, and then follows redirects.  Start-up: in production a node starts
    exactly with a safe configuration, a ledger that verifies and attested
    hardware; the last known good copy restores what it copied; a verdict on the
    rhythm of contacts is the one of its last ten.  Deception: bait never touches a file that is not bait;
    a rotation of ports never loses a decoy.  Intelligence: what is stored is
    scored, keyed and never on the allowlist; a location is an estimate marked
    as such or what a database holds.  Hardware trust: attestation compares the
    registers with the sealed ones, and the mock values never reach production.
    Kernel: every hardening parameter is set in order, and a profile reaches its
    file unchanged.
    Several theorems of kind error state what the code does where it does not do what it means to
    (shadow mode that blocks, the inverted gate of TPM mode, critical addresses cut off by auto-block,
    agents that production cannot start, file alerts that validation makes
    invisible, legitimate files deleted with the bait, snapshots and profiles
    whose commands the execution policy refuses, and others); the manifest lists these as findings.

    ** Fuel and bounds

    Fuel is used where recursion is not structural, and each use comes with
    a proof that it suffices: [isPrivateIp] recurses once through a mapped
    address; [getRootCA] re-enters itself once or twice under the conditions of
    [getRootCA_terminates], and [split_secrets_never_return] is the case where
    no fuel suffices; a redirect is followed at most twenty times, as fetch
    does; the
    decoder of the GeoIP database stops at its own depth limit; the write loop
    of the KV repository makes the number of attempts the source makes.

    ** Not modelled

    Page rendering, styles and islands; socket plumbing; the Rust agents, which
    are another language (one function of the trust root is modelled where the
    peers' gate depends on it); build and deployment tools; adapters that only
    start an operating-system command, whose arguments the modelled policies
    constrain; most parsers of external tools' output; the shared-memory rings and the native library
    behind them; log lines. *)

From stdpp Require Export base tactics list gmap strings fin_maps sorting.
From Stdlib Require Export ZArith Lia Bool.

#[export] Set Default Goal Selector "!".

Declare Scope cts_scope.
Delimit Scope cts_scope with cts.

Open Scope Z_scope.

Create HintDb cts.

(** ** Case analysis on the boolean tests that the source's conditions become *)

Ltac case_bool_step :=
  match goal with
  | |- context [if ?b then _ else _] => destruct b eqn:?
  | H : context [if ?b then _ else _] |- _ => destruct b eqn:?
  end.

(** Turns the boolean comparisons in the context into propositions. *)
Ltac reflect_bools :=
  repeat match goal with
  | H : (_ && _)%bool = true |- _ => apply andb_true_iff in H as [? ?]
  | H : (_ && _)%bool = false |- _ => apply andb_false_iff in H
  | H : (_ || _)%bool = false |- _ => apply orb_false_iff in H as [? ?]
  | H : (_ || _)%bool = true |- _ => apply orb_true_iff in H
  | H : negb _ = true |- _ => apply negb_true_iff in H
  | H : negb _ = false |- _ => apply negb_false_iff in H
  | H : (_ <? _) = true |- _ => apply Z.ltb_lt in H
  | H : (_ <? _) = false |- _ => apply Z.ltb_ge in H
  | H : (_ <=? _) = true |- _ => apply Z.leb_le in H
  | H : (_ <=? _) = false |- _ => apply Z.leb_gt in H
  | H : (_ =? _) = true |- _ => apply Z.eqb_eq in H
  | H : (_ =? _) = false |- _ => apply Z.eqb_neq in H
  | H : bool_decide _ = true |- _ => apply bool_decide_eq_true in H
  | H : bool_decide _ = false |- _ => apply bool_decide_eq_false in H
  end.

(** Splits every conditional, reflects the tests, closes the arithmetic. *)
Ltac crush_if := repeat case_bool_step; reflect_bools; try lia; try done.

(** ** Lists as JavaScript arrays *)

Section lists.
Context {A : Type}.

(** [js_set d l i x] is [l[i] = x]: an assignment at or past the end of a
    JavaScript array grows it, the skipped slots reading as [d]
    ([undefined]). *)
Definition js_set (d : A) (l : list A) (i : nat) (x : A) : list A :=
  if (i <? length l)%nat then <[i := x]> l
  else l ++ replicate (i - length l) d ++ [x].

Lemma js_set_in_range d l i x :
  (i < length l)%nat -> js_set d l i x = <[i := x]> l.
Proof. intros H. unfold js_set. by rewrite (proj2 (Nat.ltb_lt _ _) H). Qed.

Lemma js_set_at_end d l x : js_set d l (length l) x = l ++ [x].
Proof.
  unfold js_set. rewrite Nat.ltb_irrefl, Nat.sub_diag. done.
Qed.
End lists.

(** ** Injectivity on a finite list, decided by evaluation *)

Definition inj_onb `{EqDecision B} {A} `{EqDecision A} (f : A -> B) (l : list A) : bool :=
  forallb (fun a => forallb (fun b =>
    implb (bool_decide (f a = f b)) (bool_decide (a = b))) l) l.

Lemma inj_on_list `{EqDecision B} {A} `{EqDecision A} (f : A -> B) (l : list A) :
  inj_onb f l = true -> forall a b, a ∈ l -> b ∈ l -> f a = f b -> a = b.
Proof.
  unfold inj_onb. intros H a b Ha Hb Heq.
  rewrite forallb_forall in H. specialize (H a (proj1 (list_elem_of_In _ _) Ha)).
  rewrite forallb_forall in H. specialize (H b (proj1 (list_elem_of_In _ _) Hb)).
  rewrite bool_decide_eq_true_2 in H by done. by apply bool_decide_eq_true in H.
Qed.

(** ** Counting *)

Section counting.
Context {A : Type}.

Definition count (f : A -> bool) (l : list A) : nat := length (List.filter f l).

Lemma count_cons f x l : count f (x :: l) = ((if f x then 1 else 0) + count f l)%nat.
Proof. unfold count. simpl. by destruct (f x). Qed.

Lemma count_app f l k : count f (l ++ k) = (count f l + count f k)%nat.
Proof. unfold count. by rewrite List.filter_app, length_app. Qed.

Lemma count_insert f l i x y :
  l !! i = Some x ->
  (count f (<[i := y]> l) + (if f x then 1 else 0) = count f l + (if f y then 1 else 0))%nat.
Proof.
  revert i. induction l as [|z l IH]; intros [|i] H; simplify_eq/=; rewrite !count_cons.
  - lia.
  - specialize (IH i H). lia.
Qed.

Lemma count_le f g l : (forall x, x ∈ l -> f x = true -> g x = true) -> (count f l <= count g l)%nat.
Proof.
  induction l as [|x l IH]; intros H; [done|]. rewrite !count_cons.
  assert (count f l <= count g l)%nat by (apply IH; set_solver).
  specialize (H x ltac:(set_solver)). destruct (f x), (g x); lia.
Qed.

(** Strictly fewer when some element satisfies only the second test. *)
Lemma count_lt f g l x :
  (forall x, x ∈ l -> f x = true -> g x = true) ->
  x ∈ l -> f x = false -> g x = true -> (count f l < count g l)%nat.
Proof.
  induction l as [|y l IH]; intros H Hx Hf Hg; [set_solver|]. rewrite !count_cons.
  assert (count f l <= count g l)%nat by (apply count_le; set_solver).
  apply elem_of_cons in Hx as [->|Hx]; [rewrite Hf, Hg; lia|].
  assert (count f l < count g l)%nat by (apply IH; set_solver).
  specialize (H y ltac:(set_solver)). destruct (f y), (g y); lia.
Qed.
End counting.

(** The first element of a grown list. *)
Lemma find_snoc {A} (f : A -> bool) l x :
  List.find f (l ++ [x]) = match List.find f l with Some y => Some y | None => if f x then Some x else None end.
Proof. induction l as [|y l IH]; cbn; [done|]. by destruct (f y). Qed.

(** A conditional update of one element keeps a property of all elements. *)
Lemma Forall_insert_list {A} (P : A -> Prop) (l : list A) i y :
  Forall P l -> P y -> Forall P (<[i := y]> l).
Proof.
  intros Hl Hy. revert i. induction Hl as [|x l Hx Hl IH]; intros [|i]; simpl; constructor; auto.
Qed.

(** ** [new Set(...)]: first occurrences, in order *)

Fixpoint uniq_go `{EqDecision A} (seen l : list A) : list A :=
  match l with
  | [] => []
  | x :: l => if bool_decide (x ∈ seen) then uniq_go seen l else x :: uniq_go (x :: seen) l
  end.

Definition uniq `{EqDecision A} (l : list A) : list A := uniq_go [] l.

Section uniq.
Context {A : Type} `{EqDecision A}.

Lemma uniq_go_elem l : forall seen (x : A), x ∈ uniq_go seen l <-> x ∈ l /\ x ∉ seen.
Proof.
  induction l as [|y l IH]; intros seen x; simpl; [set_solver|].
  case_bool_decide; rewrite ?elem_of_cons, IH; [set_solver|].
  rewrite elem_of_cons. destruct (decide (x = y)); set_solver.
Qed.

Lemma uniq_go_NoDup l : forall seen : list A, NoDup (uniq_go seen l).
Proof.
  induction l as [|y l IH]; intros seen; simpl; [constructor|].
  case_bool_decide; [apply IH|]. apply NoDup_cons. split; [|apply IH].
  rewrite uniq_go_elem. set_solver.
Qed.

Lemma uniq_elem l (x : A) : x ∈ uniq l <-> x ∈ l.
Proof. unfold uniq. rewrite uniq_go_elem. set_solver. Qed.

Lemma uniq_NoDup (l : list A) : NoDup (uniq l).
Proof. apply uniq_go_NoDup. Qed.

Lemma uniq_go_id l : forall seen : list A,
  NoDup l -> (forall x, x ∈ l -> x ∉ seen) -> uniq_go seen l = l.
Proof.
  induction l as [|y l IH]; intros seen Hnd Hs; simpl; [done|].
  apply NoDup_cons in Hnd as [Hy Hnd].
  rewrite bool_decide_eq_false_2 by set_solver. rewrite IH; [done|done|]. set_solver.
Qed.

Lemma uniq_id (l : list A) : NoDup l -> uniq l = l.
Proof. intros H. apply uniq_go_id; [done|]. set_solver. Qed.
End uniq.

(** ** Bits *)

(** Or-ing a value below [2^k] into a multiple of [2^k] adds it. *)
Lemma lor_disjoint x lo k : 0 <= k -> 0 <= lo < 2 ^ k -> (2 ^ k | x) -> Z.lor x lo = x + lo.
Proof.
  intros Hk Hlo [q ->]. destruct (decide (lo = 0)) as [->|Hne]; [by rewrite Z.lor_0_r, Z.add_0_r|].
  assert (Z.land (q * 2 ^ k) lo = 0) as E.
  { apply Z.bits_inj'. intros i Hi. rewrite Z.land_spec, Z.bits_0. destruct (Z.lt_ge_cases i k).
    - by rewrite Z.mul_pow2_bits_low.
    - rewrite (Z.bits_above_log2 lo i); [by rewrite andb_false_r|lia|]. apply Z.log2_lt_pow2; [lia|].
      eapply Z.lt_le_trans; [apply Hlo|]. by apply Z.pow_le_mono_r. }
  rewrite <-Z.lxor_lor by done. symmetry. by apply Z.add_nocarry_lxor.
Qed.
