(* ===== verification/Result.v ===== *)
(** * Result values and the error hierarchy

    Models [src/orchestrator/core/result.ts] ([Result], [ok], [err],
    [wrapResult]). *)

From S2P Require Import Prelude.

(** How an awaited promise settles: it resolves with a value or rejects. *)
Inductive settled (A E : Type) :=
| Resolved (a : A)
| Rejected (e : E).
Arguments Resolved {A E} _.
Arguments Rejected {A E} _.

(** [Result<T, E>]: the tagged union every service method returns. *)
Inductive Result (A E : Type) :=
| ok (data : A)
| err (error : E).
Arguments ok {A E} _.
Arguments err {A E} _.

Definition success {A E} (r : Result A E) : bool :=
  match r with ok _ => true | err _ => false end.

(** [wrapResult]: a rejection becomes an error value. *)
Definition wrapResult {A E} (p : settled A E) : Result A E :=
  match p with Resolved a => ok a | Rejected e => err e end.
