(* ===== verification/Digest.v ===== *)
(** * The digest interface

    The orchestrator hashes with [crypto.subtle.digest("SHA-256", ...)] and
    prints the 32 bytes as lower-case hexadecimal.  The digest is code of the
    runtime, so it is an interface here: any function from strings to strings
    of 64 characters.  [toy_sha256] is a concrete instance, on which the
    witnesses evaluate. *)

From S2P Require Import Prelude.
From Stdlib Require Import Ascii.

Class Sha256 := {
  (** hex(SHA-256(utf8(s))) *)
  sha256_hex : string -> string;
  (** 32 bytes, two hexadecimal digits each *)
  sha256_hex_length : forall s, String.length (sha256_hex s) = 64%nat;
}.

Definition hex_digit (n : Z) : ascii :=
  if n <? 10 then ascii_of_N (Z.to_N (48 + n)) else ascii_of_N (Z.to_N (87 + n)).

(** The [k] low hexadecimal digits of [n], least significant first. *)
Fixpoint hex_low (k : nat) (n : Z) : string :=
  match k with
  | O => EmptyString
  | S k => String (hex_digit (n mod 16)) (hex_low k (n / 16))
  end.

Fixpoint poly_sum (acc : Z) (s : string) : Z :=
  match s with
  | EmptyString => acc
  | String c s => poly_sum ((acc * 257 + Z.of_N (N_of_ascii c) + 1) mod 2 ^ 256) s
  end.

Lemma hex_low_length k n : String.length (hex_low k n) = k.
Proof. revert n. induction k as [|k IH]; intros n; simpl; [done|]. by rewrite IH. Qed.

(** A polynomial checksum printed on 64 digits: not a cryptographic digest,
    but an executable inhabitant of the interface. *)
#[export] Instance toy_sha256 : Sha256 :=
  {| sha256_hex := fun s => hex_low 64 (poly_sum 0 s);
     sha256_hex_length := fun s => hex_low_length 64 (poly_sum 0 s) |}.

(** ** String facts the hash arguments need *)

Lemma string_app_inj (a b a' b' : string) :
  String.length a = String.length a' ->
  (a +:+ b)%string = (a' +:+ b')%string -> a = a' /\ b = b'.
Proof.
  revert a'. induction a as [|c a IH]; intros [|c' a'] Hl Heq; simpl in *;
    simplify_eq; [done|].
  destruct (IH a') as [-> ->]; [lia|done|done].
Qed.

Lemma sha256_hex_nonempty `{Sha256} s : sha256_hex s <> EmptyString.
Proof. intros E. pose proof (sha256_hex_length s) as L. by rewrite E in L. Qed.

#[export] Hint Resolve sha256_hex_nonempty : cts.
