(* ===== verification/JsSet.v ===== *)
(** * JavaScript sets

    [Set.add] and [Set.delete] on a set kept as the list of its elements in the
    order of insertion. *)

From S2P Require Import Prelude.

Section jsset.
Context {A : Type} `{EqDecision A}.

Definition set_add (x : A) (l : list A) : list A := if bool_decide (x ∈ l) then l else l ++ [x].
Definition set_delete (x : A) (l : list A) : list A := List.filter (fun y => negb (bool_decide (y = x))) l.

Lemma set_add_elem x l y : y ∈ set_add x l <-> y = x \/ y ∈ l.
Proof. unfold set_add. case_bool_decide; set_solver. Qed.

Lemma set_add_nodup x l : NoDup l -> NoDup (set_add x l).
Proof. unfold set_add. case_bool_decide; [done|]. intros Hl. apply NoDup_app. split_and!; [done|set_solver|apply NoDup_singleton]. Qed.

Lemma set_delete_elem x l y : y ∈ set_delete x l <-> y <> x /\ y ∈ l.
Proof. unfold set_delete. rewrite !list_elem_of_In, filter_In, negb_true_iff, bool_decide_eq_false. tauto. Qed.

Lemma set_delete_nodup x l : NoDup l -> NoDup (set_delete x l).
Proof. rewrite !NoDup_ListNoDup. apply List.NoDup_filter. Qed.
End jsset.
