(* ===== verification/JsMap.v ===== *)
(** * The JavaScript [Map]

    A [Map] iterates in insertion order: [set] on a present key keeps the
    key's position, [delete] closes the gap, a new key goes last.  Several
    services iterate their maps, so the order is part of the model: a map is
    an association list with distinct keys. *)

From S2P Require Import Prelude.

Module JsMap.
Section jsmap.
Context {K V : Type} `{EqDecision K}.
Implicit Types (m : list (K * V)) (k : K) (v : V).

Definition keys m : list K := m.*1.

#[global] Instance keys_proper : Proper ((≡ₚ) ==> (≡ₚ)) keys.
Proof. intros m m' H. unfold keys. by rewrite H. Qed.

Fixpoint get m k : option V :=
  match m with
  | [] => None
  | (k', v) :: m => if decide (k' = k) then Some v else get m k
  end.

Definition has m k : bool := match get m k with Some _ => true | None => false end.

Fixpoint set m k v : list (K * V) :=
  match m with
  | [] => [(k, v)]
  | (k', v') :: m => if decide (k' = k) then (k, v) :: m else (k', v') :: set m k v
  end.

Fixpoint delete m k : list (K * V) :=
  match m with
  | [] => []
  | (k', v') :: m => if decide (k' = k) then delete m k else (k', v') :: delete m k
  end.

(** Distinct keys: the invariant of a [Map]. *)
Definition wf m : Prop := NoDup (keys m).

Lemma get_None m k : get m k = None <-> k ∉ keys m.
Proof.
  induction m as [|[k' v'] m IH]; simpl; [set_solver|].
  case_decide; subst; [set_solver|]. rewrite IH. set_solver.
Qed.

Lemma get_Some_elem m k v : get m k = Some v -> (k, v) ∈ m.
Proof.
  induction m as [|[k' v'] m IH]; simpl; [done|].
  case_decide; intros; simplify_eq; set_solver.
Qed.

Lemma elem_get m k v : wf m -> (k, v) ∈ m -> get m k = Some v.
Proof.
  unfold wf. induction m as [|[k' v'] m IH]; simpl; [set_solver|].
  intros Hnd Hin. apply NoDup_cons in Hnd as [Hk Hnd].
  apply elem_of_cons in Hin as [Heq|Hin].
  - simplify_eq. by rewrite decide_True.
  - rewrite decide_False; [by apply IH|]. intros ->.
    apply Hk. apply list_elem_of_fmap. by exists (k, v).
Qed.

Lemma get_set_eq m k v : get (set m k v) k = Some v.
Proof.
  induction m as [|[k' v'] m IH]; simpl; [by rewrite decide_True|].
  case_decide; simpl; by case_decide.
Qed.

Lemma get_set_ne m k k' v : k <> k' -> get (set m k v) k' = get m k'.
Proof.
  intros Hne. induction m as [|[k2 v2] m IH]; simpl; [by rewrite decide_False|].
  case_decide; subst; simpl; [by rewrite !decide_False by done|]. by rewrite IH.
Qed.

Lemma set_fresh m k v : get m k = None -> set m k v = m ++ [(k, v)].
Proof.
  induction m as [|[k' v'] m IH]; simpl; [done|].
  case_decide; [done|]. intros. by rewrite IH.
Qed.

Lemma keys_set m k v :
  keys (set m k v) = if has m k then keys m else keys m ++ [k].
Proof.
  unfold has. induction m as [|[k' v'] m IH]; simpl; [done|].
  case_decide; subst; simpl; [done|]. rewrite IH. by destruct (get m k).
Qed.

Lemma wf_set m k v : wf m -> wf (set m k v).
Proof.
  unfold wf. rewrite keys_set. unfold has. destruct (get m k) eqn:E; [done|].
  intros Hnd. apply NoDup_app; split_and!; [done| |apply NoDup_singleton].
  apply get_None in E. set_solver.
Qed.

Lemma delete_notin m k : k ∉ keys m -> delete m k = m.
Proof.
  induction m as [|[k' v'] m IH]; simpl; [done|]. intros Hk.
  rewrite decide_False by set_solver. rewrite IH; set_solver.
Qed.

Lemma delete_app m1 m2 k : delete (m1 ++ m2) k = delete m1 k ++ delete m2 k.
Proof.
  induction m1 as [|[k' v'] m1 IH]; simpl; [done|]. case_decide; [done|]. by rewrite IH.
Qed.

Lemma keys_delete m k : keys (delete m k) = base.filter (fun x => ¬ x = k) (keys m).
Proof.
  induction m as [|[k' v'] m IH]; simpl; [done|].
  rewrite filter_cons. case_decide; subst; simpl.
  - by rewrite decide_False by naive_solver.
  - by rewrite decide_True, IH by done.
Qed.

Lemma wf_delete m k : wf m -> wf (delete m k).
Proof. unfold wf. rewrite keys_delete. apply NoDup_filter. Qed.

Lemma get_delete_eq m k : get (delete m k) k = None.
Proof. apply get_None. rewrite keys_delete, list_elem_of_filter. naive_solver. Qed.

Lemma get_delete_ne m k k' : k <> k' -> get (delete m k) k' = get m k'.
Proof.
  intros Hne. induction m as [|[k2 v2] m IH]; simpl; [done|].
  case_decide; subst; simpl; [by rewrite decide_False|]. by rewrite IH.
Qed.

Lemma elem_of_delete m k e : e ∈ delete m k <-> e ∈ m /\ e.1 <> k.
Proof.
  induction m as [|[k' v'] m IH]; simpl; [set_solver|].
  case_decide; subst; [|]; rewrite ?elem_of_cons, IH; naive_solver.
Qed.

Lemma length_delete m k : (length (delete m k) <= length m)%nat.
Proof. induction m as [|[k' v'] m IH]; simpl; [lia|]. case_decide; simpl; lia. Qed.

Lemma length_delete_present m k : k ∈ keys m -> (length (delete m k) < length m)%nat.
Proof.
  induction m as [|[k' v'] m IH]; simpl; [set_solver|]. intros Hk.
  case_decide; subst; simpl; [pose proof (length_delete m k); lia|].
  apply elem_of_cons in Hk as [->|Hk]; [done|]. specialize (IH Hk). lia.
Qed.

(** A present key splits the map around its entry. *)
Lemma get_split m k v :
  wf m -> get m k = Some v ->
  exists m1 m2, m = m1 ++ (k, v) :: m2 /\ k ∉ keys m1 /\ k ∉ keys m2 /\
                delete m k = m1 ++ m2.
Proof.
  unfold wf. induction m as [|[k' v'] m IH]; simpl; [done|].
  intros Hnd Hget. apply NoDup_cons in Hnd as [Hk Hnd]. case_decide; simplify_eq.
  - exists [], m. rewrite delete_notin by done. split_and!; set_solver.
  - destruct (IH Hnd Hget) as (m1 & m2 & -> & H1 & H2 & H3).
    exists ((k', v') :: m1), m2. rewrite H3. split_and!; set_solver.
Qed.
End jsmap.
End JsMap.

#[export] Hint Resolve JsMap.wf_set JsMap.wf_delete : cts.
