(* ===== verification/JsString.v ===== *)
(** * JavaScript strings

    A string is its sequence of UTF-16 code units, each a number in
    [0, 65536).  [js] embeds the ASCII literals of the source.  The functions
    below are the [String.prototype] methods the modelled code calls. *)

From S2P Require Import Prelude.
From Stdlib Require Import Ascii.

Abbreviation jsstr := (list Z).

Fixpoint js (s : string) : jsstr :=
  match s with
  | EmptyString => []
  | String c s => Z.of_N (N_of_ascii c) :: js s
  end.

Definition code_unit (c : Z) : Prop := 0 <= c < 65536.

Module JsString.

Fixpoint startsWith (s p : jsstr) {struct p} : bool :=
  match p, s with
  | [], _ => true
  | c :: p, d :: s => (c =? d) && startsWith s p
  | _ :: _, [] => false
  end.

Definition endsWith (s p : jsstr) : bool := startsWith (rev s) (rev p).

Fixpoint includes (s p : jsstr) : bool :=
  startsWith s p ||
  match s with [] => false | _ :: s => includes s p end.

(** [s.split(sep)] for a non-empty separator: [skip] counts the units of a
    separator still to be passed over, [acc] is the current piece, reversed. *)
Fixpoint split_go (sep : jsstr) (skip : nat) (acc s : jsstr) : list jsstr :=
  match s with
  | [] => [rev acc]
  | c :: s' =>
      match skip with
      | S skip => split_go sep skip acc s'
      | O => if startsWith s sep then rev acc :: split_go sep (length sep - 1) [] s'
             else split_go sep 0 (c :: acc) s'
      end
  end.

Definition split (s sep : jsstr) : list jsstr := split_go sep 0 [] s.

(** [toLowerCase] on the ASCII letters; every other unit is left alone. *)
Definition lower (c : Z) : Z := if (65 <=? c) && (c <=? 90) then c + 32 else c.
Definition toLowerCase (s : jsstr) : jsstr := map lower s.

Definition is_digit (c : Z) : bool := (48 <=? c) && (c <=? 57).
Definition is_hex (c : Z) : bool :=
  is_digit c || ((97 <=? c) && (c <=? 102)) || ((65 <=? c) && (c <=? 70)).
Definition is_lower_hex (c : Z) : bool := is_digit c || ((97 <=? c) && (c <=? 102)).

Definition digit_val (c : Z) : Z :=
  if is_digit c then c - 48 else if (97 <=? c) && (c <=? 102) then c - 87 else c - 55.

(** [Number(s)] / [parseInt(s, 10)] and [parseInt(s, 16)] on strings of digits. *)
Definition parse_base (b : Z) (s : jsstr) : Z :=
  fold_left (fun n c => n * b + digit_val c) s 0.

(** The decimal spelling of a non-negative integer, as in a template literal. *)
Fixpoint dec_go (fuel : nat) (n : Z) (acc : jsstr) : jsstr :=
  match fuel with
  | O => acc
  | S fuel => let acc := (48 + n mod 10) :: acc in
              if n <? 10 then acc else dec_go fuel (n / 10) acc
  end.
Definition decimal (n : Z) : jsstr := dec_go (S (Z.to_nat (Z.log2 (Z.max n 1)))) n [].

Fixpoint hex_go (fuel : nat) (n : Z) (acc : jsstr) : jsstr :=
  match fuel with
  | O => acc
  | S fuel => let d := n mod 16 in
              let acc := (if d <? 10 then 48 + d else 87 + d) :: acc in
              if n <? 16 then acc else hex_go fuel (n / 16) acc
  end.
(** [n.toString(16)] *)
Definition hexadecimal (n : Z) : jsstr := hex_go (S (Z.to_nat (Z.log2 (Z.max n 1)))) n [].

(** ** Facts *)

Lemma startsWith_spec s p : startsWith s p = true <-> exists r, s = p ++ r.
Proof.
  revert s. induction p as [|c p IH]; intros s; simpl.
  - split; [|done]. intros _. by exists s.
  - destruct s as [|d s]; [by split; [|intros [r Hr]]|].
    rewrite andb_true_iff, Z.eqb_eq, IH. split.
    + intros [-> [r ->]]. by exists r.
    + intros [r Hr]. simplify_eq/=. eauto.
Qed.

Lemma startsWith_refl s : startsWith s s = true.
Proof. apply startsWith_spec. exists []. by rewrite app_nil_r. Qed.

Lemma startsWith_app p r : startsWith (p ++ r) p = true.
Proof. apply startsWith_spec. eauto. Qed.

Lemma includes_spec s p : includes s p = true <-> exists l r, s = l ++ p ++ r.
Proof.
  revert p. induction s as [|c s IH]; intros p; simpl.
  - rewrite orb_false_r, startsWith_spec. split.
    + intros [r Hr]. by exists [], r.
    + intros (l & r & Hr). destruct l; simplify_eq/=. eauto.
  - rewrite orb_true_iff, startsWith_spec, IH. split.
    + intros [[r Hr]|(l & r & ->)]; [by exists [], r|]. by exists (c :: l), r.
    + intros ([|x l] & r & Hr); simplify_eq/=; [eauto|]. right. eauto.
Qed.

Lemma parse_base_app b s t :
  parse_base b (s ++ t) = fold_left (fun n c => n * b + digit_val c) t (parse_base b s).
Proof. unfold parse_base. by rewrite fold_left_app. Qed.

(** Joining the pieces with the separator gives the string back. *)
Fixpoint join (sep : jsstr) (ps : list jsstr) : jsstr :=
  match ps with
  | [] => []
  | [p] => p
  | p :: ps => p ++ sep ++ join sep ps
  end.

Lemma split_go_nonempty sep k acc s : split_go sep k acc s <> [].
Proof.
  revert k acc. induction s as [|c s IH]; intros [|k] acc; simpl; try done.
  by destruct (startsWith _ _).
Qed.

Lemma join_cons sep p ps : ps <> [] -> join sep (p :: ps) = p ++ sep ++ join sep ps.
Proof. by destruct ps. Qed.

Lemma split_go_join sep s : sep <> [] -> forall k acc,
  (k <= length s)%nat ->
  join sep (split_go sep k acc s) = rev acc ++ drop k s.
Proof.
  intros Hsep. induction s as [|c s IH]; intros [|k] acc Hk; simpl in *.
  - by rewrite app_nil_r.
  - lia.
  - destruct (startsWith (c :: s) sep) eqn:E.
    + apply startsWith_spec in E as [r Hr].
      rewrite join_cons by apply split_go_nonempty.
      destruct sep as [|d sep]; [done|]. simpl in Hr. simplify_eq. simpl.
      rewrite Nat.sub_0_r, IH by (rewrite length_app; lia).
      by rewrite drop_app_length.
    + rewrite IH by lia. simpl. by rewrite <- app_assoc.
  - rewrite IH by lia. done.
Qed.

Lemma split_join s sep : sep <> [] -> join sep (split s sep) = s.
Proof. intros H. unfold split. rewrite split_go_join by (done || lia). done. Qed.

(** *** Splitting at a single unit *)

Lemma startsWith_char c d s : startsWith (d :: s) [c] = (c =? d).
Proof. simpl. by rewrite andb_true_r. Qed.

Lemma split_go_piece c p : c ∉ p -> forall acc s,
  split_go [c] 0 acc (p ++ c :: s) = (rev acc ++ p) :: split_go [c] 0 [] s.
Proof.
  induction p as [|x p IH]; intros Hc acc s.
  - simpl. rewrite Z.eqb_refl, app_nil_r. done.
  - change ((x :: p) ++ c :: s) with (x :: (p ++ c :: s)). cbn [split_go].
    rewrite startsWith_char, (proj2 (Z.eqb_neq c x)) by set_solver.
    rewrite IH by set_solver. simpl. by rewrite <- app_assoc.
Qed.

(** No occurrence: one piece. *)
Lemma split_go_none sep s : forall acc,
  includes s sep = false -> split_go sep 0 acc s = [rev acc ++ s].
Proof.
  induction s as [|c s IH]; intros acc Hi; simpl; [by rewrite app_nil_r|].
  simpl in Hi. apply orb_false_iff in Hi as [H1 H2]. rewrite H1, IH by done. simpl.
  by rewrite <- app_assoc.
Qed.

Lemma split_none s sep : includes s sep = false -> split s sep = [s].
Proof. apply split_go_none. Qed.

Lemma includes_char s c : includes s [c] = true <-> c ∈ s.
Proof.
  rewrite includes_spec. split.
  - intros (l & r & ->). set_solver.
  - intros Hc. apply list_elem_of_split in Hc as (l & r & ->). by exists l, r.
Qed.

Lemma includes_char_false s c : c ∉ s -> includes s [c] = false.
Proof. intros H. apply not_true_iff_false. by rewrite includes_char. Qed.

Lemma split_join_char c ps :
  ps <> [] -> Forall (fun p => c ∉ p) ps -> split (join [c] ps) [c] = ps.
Proof.
  unfold split. intros Hne Hps. induction Hps as [|p ps Hp Hps IH]; [done|].
  destruct ps as [|q ps].
  - simpl. by rewrite split_go_none by (by apply includes_char_false).
  - change (join [c] (p :: q :: ps)) with (p ++ c :: join [c] (q :: ps)).
    rewrite split_go_piece by done. by rewrite IH.
Qed.

Lemma join_elem c ps x : x ∈ join [c] ps -> x = c \/ exists p, p ∈ ps /\ x ∈ p.
Proof.
  induction ps as [|p ps IH]; [by inversion 1|]. destruct ps as [|q ps].
  - simpl. intros Hx. right. exists p. set_solver.
  - change (join [c] (p :: q :: ps)) with (p ++ c :: join [c] (q :: ps)).
    rewrite elem_of_app, elem_of_cons. intros [Hx|[->|Hx]]; [|by left|].
    + right. exists p. set_solver.
    + destruct (IH Hx) as [->|(p' & Hp' & Hx')]; [by left|]. right. exists p'. set_solver.
Qed.

Lemma map_join f c ps : map f (join [c] ps) = join [f c] (map (map f) ps).
Proof.
  induction ps as [|p ps IH]; [done|]. destruct ps as [|q ps]; [done|].
  change (join [c] (p :: q :: ps)) with (p ++ c :: join [c] (q :: ps)).
  rewrite map_app. change (map f (c :: ?l)) with (f c :: map f l). rewrite IH. done.
Qed.

(** *** Numerals *)

Lemma fold_base_bound b s : 0 < b -> Forall (fun c => 0 <= digit_val c < b) s -> forall n,
  0 <= n -> n * b ^ Z.of_nat (length s) <= fold_left (fun n c => n * b + digit_val c) s n
            < (n + 1) * b ^ Z.of_nat (length s).
Proof.
  intros Hb. induction 1 as [|c s Hc Hs IH]; intros n Hn.
  - simpl. lia.
  - cbn [fold_left length]. rewrite Nat2Z.inj_succ, Z.pow_succ_r by lia.
    specialize (IH (n * b + digit_val c) ltac:(nia)).
    assert (0 < b ^ Z.of_nat (length s)) by (apply Z.pow_pos_nonneg; lia). nia.
Qed.

Lemma parse_base_bound b s : 0 < b -> Forall (fun c => 0 <= digit_val c < b) s ->
  0 <= parse_base b s < b ^ Z.of_nat (length s).
Proof. intros Hb Hs. pose proof (fold_base_bound b s Hb Hs 0 ltac:(lia)). unfold parse_base. lia. Qed.
End JsString.
