(* ===== verification/Merkle.v ===== *)
(** * Merkle tree

    Models [src/orchestrator/core/merkle.ts], class [MerkleTree]: the bottom-up
    construction [buildTree], the incremental [addLeaf], [getRoot], inclusion
    proofs ([getProof]) and their static verification ([verify]).  The arrays
    [leaves] and [tree] are lists; a read past the end of a level is the
    JavaScript [undefined], which the string concatenation of [hashPair] turns
    into the text "undefined". *)

From S2P Require Import Prelude Digest.

Module Merkle.
Section merkle.
Context `{Sha256}.

Record MerkleTree := { leaves : list string; tree : list (list string) }.

Definition undefined_text : string := "undefined".

Definition rd (level : list string) (i : nat) : string :=
  default undefined_text (level !! i).

(** [hashPair(a, b)]: the digest of the concatenation, no separator. *)
Definition hashPair (a b : string) : string := sha256_hex (a +:+ b)%string.

(** The inner [for] of [buildTree]: one level up, an odd last node is paired
    with itself. *)
Fixpoint nextLevel (currentLevel : list string) : list string :=
  match currentLevel with
  | lft :: rgt :: rest => hashPair lft rgt :: nextLevel rest
  | [lft] => [hashPair lft lft]
  | [] => []
  end.

(** The [while (currentLevel.length > 1)] loop: the levels it pushes. *)
Fixpoint buildLevels (fuel : nat) (currentLevel : list string) : list (list string) :=
  currentLevel ::
  match fuel with
  | O => []
  | S fuel =>
      if (1 <? length currentLevel)%nat
      then buildLevels fuel (nextLevel currentLevel)
      else []
  end.

Definition buildTree (ls : list string) : list (list string) :=
  match ls with
  | [] => [["EMPTY"%string]]
  | _ => buildLevels (length ls) ls
  end.

(** [new MerkleTree(leaves)], once [initPromise] has settled. *)
Definition new (ls : list string) : MerkleTree :=
  {| leaves := ls; tree := buildTree ls |}.

(** [this.tree[this.tree.length - 1][0] || "EMPTY"] *)
Definition getRoot (t : MerkleTree) : string :=
  match last (tree t) with
  | Some (r :: _) => if decide (r = EmptyString) then "EMPTY" else r
  | _ => "EMPTY"
  end.

(** The [for (let i = 0; i < this.tree.length - 1; i++)] loop of [addLeaf]. *)
Fixpoint addLeaf_loop (fuel : nat) (tr : list (list string)) (i : nat)
    (currentIndex : nat) (currentHash : string) : list (list string) :=
  match fuel with
  | O => tr
  | S fuel =>
      if (i <? length tr - 1)%nat then
        let level := default [] (tr !! i) in
        let isRight := Nat.odd currentIndex in
        let lft := if isRight then rd level (currentIndex - 1) else currentHash in
        let rgt := if isRight then currentHash else lft in
        let currentHash := hashPair lft rgt in
        let currentIndex := (currentIndex / 2)%nat in
        let tr :=
          match tr !! S i with
          | Some up => <[S i := js_set undefined_text up currentIndex currentHash]> tr
          | None => tr ++ [[currentHash]]
          end in
        addLeaf_loop fuel tr (S i) currentIndex currentHash
      else tr
  end.

(** [addLeaf(leaf)]: the new state and the returned root. *)
Definition addLeaf (t : MerkleTree) (leaf : string) : MerkleTree * string :=
  let ls := leaves t ++ [leaf] in
  if bool_decide (tree t = []) ||
     bool_decide (head (default [] (head (tree t))) = Some "EMPTY"%string)
  then ({| leaves := ls; tree := [[leaf]] |}, leaf)
  else
    let tr := <[0%nat := ls]> (tree t) in
    let tr := addLeaf_loop (length tr) tr 0 (length ls - 1) leaf in
    let lastLevel := default [] (last tr) in
    let tr := if (1 <? length lastLevel)%nat
              then tr ++ [[hashPair (rd lastLevel 0) (rd lastLevel 1)]] else tr in
    let t' := {| leaves := ls; tree := tr |} in
    (t', getRoot t').

(** The loop of [getProof] over every level but the last. *)
Fixpoint getProof_loop (tr : list (list string)) (currentIndex : nat) : list string :=
  match tr with
  | [] | [_] => []
  | level :: rest =>
      let isRight := Nat.odd currentIndex in
      let siblingIndex := if isRight then (currentIndex - 1)%nat else S currentIndex in
      (if (siblingIndex <? length level)%nat then rd level siblingIndex
       else rd level currentIndex) :: getProof_loop rest (currentIndex / 2)%nat
  end.

Definition getProof (t : MerkleTree) (index : nat) : list string :=
  getProof_loop (tree t) index.

(** The hash that [verify] climbs to. *)
Fixpoint climb (currentHash : string) (currentIndex : nat) (proof : list string) : string :=
  match proof with
  | [] => currentHash
  | siblingHash :: proof =>
      climb (if Nat.odd currentIndex then hashPair siblingHash currentHash
             else hashPair currentHash siblingHash) (currentIndex / 2)%nat proof
  end.

(** [MerkleTree.verify(root, leaf, index, proof)] *)
Definition verify (root leaf : string) (index : nat) (proof : list string) : bool :=
  String.eqb (climb leaf index proof) root.

(** ** The levels of the tree *)

Lemma two_step_ind (P : list string -> Prop) :
  P [] -> (forall a, P [a]) -> (forall a b l, P l -> P (a :: b :: l)) -> forall l, P l.
Proof.
  intros H0 H1 H2 l.
  enough (P l /\ forall a, P (a :: l)) by tauto.
  induction l as [|a l [IH IH']]; split; auto.
Qed.

Lemma nextLevel_length l : length (nextLevel l) = ((length l + 1) / 2)%nat.
Proof.
  induction l as [|a|a b l IH] using two_step_ind; [done..|].
  cbn [nextLevel length]. rewrite IH.
  replace (S (S (length l)) + 1)%nat with (length l + 1 + 1 * 2)%nat by lia.
  rewrite Nat.div_add by lia. lia.
Qed.

Lemma nextLevel_shrinks l : (1 < length l)%nat -> (length (nextLevel l) < length l)%nat.
Proof. rewrite nextLevel_length. intros. apply Nat.Div0.div_lt_upper_bound; lia. Qed.

Lemma nextLevel_pos l : (0 < length l)%nat -> (0 < length (nextLevel l))%nat.
Proof. rewrite nextLevel_length. intros. apply Nat.div_str_pos; lia. Qed.

(** Enough fuel is enough: any two sufficient amounts build the same levels. *)
Lemma buildLevels_fuel f g l :
  (length l <= f)%nat -> (length l <= g)%nat -> buildLevels f l = buildLevels g l.
Proof.
  revert g l. induction f as [|f IH]; intros [|g] l Hf Hg; simpl.
  - done.
  - assert ((1 <? length l)%nat = false) as -> by (apply Nat.ltb_ge; lia). done.
  - assert ((1 <? length l)%nat = false) as -> by (apply Nat.ltb_ge; lia). done.
  - destruct (1 <? length l)%nat eqn:E; [|done].
    apply Nat.ltb_lt in E. pose proof (nextLevel_shrinks l E).
    f_equal. apply IH; lia.
Qed.

Definition levels (l : list string) : list (list string) := buildLevels (length l) l.

Lemma levels_one l : (length l <= 1)%nat -> levels l = [l].
Proof.
  intros Hl. unfold levels. destruct l as [|a [|b l]]; simpl in *; [done|done|lia].
Qed.

Lemma levels_more l :
  (1 < length l)%nat -> levels l = l :: levels (nextLevel l).
Proof.
  intros Hl. unfold levels.
  destruct (length l) as [|n] eqn:E; [lia|].
  cbn [buildLevels]. rewrite E, (proj2 (Nat.ltb_lt _ _) Hl).
  f_equal. apply buildLevels_fuel; [|lia].
  pose proof (nextLevel_shrinks l). lia.
Qed.

Lemma levels_ind (P : list string -> Prop) :
  (forall l, (length l <= 1)%nat -> P l) ->
  (forall l, (1 < length l)%nat -> P (nextLevel l) -> P l) -> forall l, P l.
Proof.
  intros H1 H2 l. remember (length l) as n eqn:Hn. revert l Hn.
  induction n as [n IH] using lt_wf_ind; intros l ->.
  destruct (decide (length l <= 1)%nat); [auto|].
  apply H2; [lia|]. eapply IH; [|done]. apply nextLevel_shrinks. lia.
Qed.

(** ** Incremental insertion *)

(** What [addLeaf_loop] does to the levels above the level [lv]. *)
Fixpoint ups (lv : list string) (rest : list (list string)) (k : nat) (h : string)
    : list (list string) :=
  match rest with
  | [] => []
  | up :: rest =>
      let h' := if Nat.odd k then hashPair (rd lv (k - 1)) h else hashPair h h in
      let up' := js_set undefined_text up (k / 2)%nat h' in
      up' :: ups up' rest (k / 2)%nat h'
  end.

Lemma addLeaf_loop_ups fuel pre lv rest k h :
  (length rest < fuel)%nat ->
  addLeaf_loop fuel (pre ++ lv :: rest) (length pre) k h
  = pre ++ lv :: ups lv rest k h.
Proof.
  revert pre lv rest k h.
  induction fuel as [|fuel IH]; intros pre lv rest k h Hf; [lia|].
  destruct rest as [|up rest].
  - simpl. rewrite length_app. simpl.
    assert ((length pre <? length pre + 1 - 1)%nat = false) as ->
      by (apply Nat.ltb_ge; lia). done.
  - simpl in Hf |- *. rewrite length_app. simpl.
    assert ((length pre <? length pre + S (S (length rest)) - 1)%nat = true) as ->
      by (apply Nat.ltb_lt; lia).
    rewrite (list_lookup_middle pre (up :: rest) lv (length pre) eq_refl). simpl.
    replace (pre ++ lv :: up :: rest) with ((pre ++ [lv]) ++ up :: rest)
      by (by rewrite <- app_assoc).
    replace (S (length pre)) with (length (pre ++ [lv]))
      by (rewrite length_app; simpl; lia).
    rewrite (list_lookup_middle (pre ++ [lv]) rest up _ eq_refl).
    rewrite insert_app_r_alt by lia. rewrite Nat.sub_diag. simpl.
    rewrite IH by lia. rewrite <- app_assoc. simpl.
    by destruct (Nat.odd k).
Qed.

Lemma odd_succ_succ n : Nat.odd (S (S n)) = Nat.odd n.
Proof. done. Qed.

Lemma div2_succ_succ n : (S (S n) / 2 = S (n / 2))%nat.
Proof. replace (S (S n)) with (n + 1 * 2)%nat by lia. rewrite Nat.div_add by lia. lia. Qed.

(** Rewriting the last node of a level rewrites the last node above it. *)
Lemma nextLevel_snoc o k h :
  (k <= length o)%nat ->
  nextLevel (take k o ++ [h]) =
  take (k / 2)%nat (nextLevel o) ++
    [if Nat.odd k then hashPair (rd o (k - 1)) h else hashPair h h].
Proof.
  revert k. induction o as [|a|a b o IH] using two_step_ind; intros k Hk.
  - simpl in Hk. destruct k; [done|lia].
  - simpl in Hk. destruct k as [|[|k]]; [done|done|lia].
  - destruct k as [|[|k]]; [done|done|].
    rewrite div2_succ_succ, odd_succ_succ. cbn [take nextLevel app].
    rewrite IH by (simpl in Hk; lia). do 3 f_equal.
    destruct (Nat.odd k) eqn:E; [|done].
    destruct k as [|k]; [done|]. simpl. by rewrite Nat.sub_0_r.
Qed.

(** [k] is the last position of the new level: appended or overwritten. *)
Lemma js_set_last d (o : list string) k h :
  (k <= length o <= S k)%nat -> js_set d o k h = take k o ++ [h].
Proof.
  intros Hk. destruct (decide (k = length o)) as [->|Hne].
  - rewrite js_set_at_end, take_ge by lia. done.
  - rewrite js_set_in_range by lia.
    rewrite insert_take_drop by lia. rewrite (drop_ge o (S k)) by lia. done.
Qed.

Lemma rd_take o k h : (k <= length o)%nat ->
  Nat.odd k = true -> rd (take k o ++ [h]) (k - 1) = rd o (k - 1).
Proof.
  intros Hk Hodd. destruct k as [|k]; [done|].
  unfold rd. rewrite lookup_app_l by (rewrite length_take; lia).
  rewrite lookup_take_lt by lia. done.
Qed.

Lemma half_bounds k n :
  (k <= n <= S k)%nat -> (k / 2 <= (n + 1) / 2 <= S (k / 2))%nat.
Proof.
  intros Hk. split.
  - apply Nat.Div0.div_le_mono. lia.
  - replace (S (k / 2)) with ((k + 1 * 2) / 2)%nat
      by (rewrite Nat.div_add by lia; lia).
    apply Nat.Div0.div_le_mono. lia.
Qed.

(** The closing step of [addLeaf]: a new root when the top level has two nodes. *)
Definition close_top (tr : list (list string)) : list (list string) :=
  let lastLevel := default [] (last tr) in
  if (1 <? length lastLevel)%nat
  then tr ++ [[hashPair (rd lastLevel 0) (rd lastLevel 1)]] else tr.

Lemma close_top_cons l up tr : close_top (l :: up :: tr) = l :: close_top (up :: tr).
Proof.
  unfold close_top. rewrite last_cons_cons.
  by destruct (1 <? length (default [] (last (up :: tr))))%nat.
Qed.

Lemma levels_cons l : exists tl, levels l = l :: tl.
Proof. unfold levels. destruct (length l); simpl; eauto. Qed.

Lemma take_snoc_length (o : list string) k h :
  (k <= length o)%nat -> length (take k o ++ [h]) = S k.
Proof. intros. rewrite length_app, length_take. simpl. lia. Qed.

(** Updating every level of the old tree yields the new tree. *)
Lemma ups_levels o : forall k h,
  (0 < length o)%nat -> (k <= length o <= S k)%nat ->
  close_top ((take k o ++ [h]) :: ups (take k o ++ [h]) (tail (levels o)) k h)
  = levels (take k o ++ [h]).
Proof.
  induction o as [o Hlen|o Hlen IH] using levels_ind; intros k h Hpos Hk.
  - rewrite levels_one by done. simpl. destruct o as [|a [|b o]]; simpl in *; [lia| |lia].
    destruct k as [|[|k]]; [done| |lia].
    rewrite levels_more by (simpl; lia). done.
  - rewrite (levels_more o) by done. cbn [tail].
    destruct (levels_cons (nextLevel o)) as [tl Htl]. rewrite Htl. cbn [ups].
    rewrite js_set_last
      by (rewrite nextLevel_length; by apply half_bounds).
    rewrite (levels_more (take k o ++ [h])) by (rewrite take_snoc_length; lia).
    rewrite nextLevel_snoc by lia. rewrite close_top_cons. f_equal.
    assert ((if Nat.odd k then hashPair (rd (take k o ++ [h]) (k - 1)) h else hashPair h h)
            = (if Nat.odd k then hashPair (rd o (k - 1)) h else hashPair h h)) as ->.
    { destruct (Nat.odd k) eqn:E; [|done]. by rewrite rd_take by (lia || done). }
    rewrite <- IH.
    + by rewrite Htl.
    + apply nextLevel_pos. lia.
    + rewrite nextLevel_length. by apply half_bounds.
Qed.

Lemma buildTree_levels ls : ls <> [] -> buildTree ls = levels ls.
Proof. by destruct ls. Qed.

Lemma addLeaf_new ls leaf :
  head ls <> Some "EMPTY"%string ->
  (addLeaf (new ls) leaf).1 = new (ls ++ [leaf]).
Proof.
  intros Hhd. destruct (decide (ls = [])) as [->|Hne]; [done|].
  unfold addLeaf, new. cbn [leaves tree]. rewrite buildTree_levels by done.
  destruct (levels_cons ls) as [tl Htl]. rewrite Htl. cbn [head default].
  rewrite bool_decide_eq_false_2 by done. rewrite bool_decide_eq_false_2 by done.
  cbn [orb]. cbn [insert list_insert].
  pose proof (addLeaf_loop_ups (length ((ls ++ [leaf]) :: tl)) [] (ls ++ [leaf]) tl
    (length (ls ++ [leaf]) - 1) leaf) as Hloop. cbn [app length] in Hloop.
  cbn [length]. rewrite Hloop by lia. clear Hloop. cbn [fst]. f_equal.
  rewrite buildTree_levels by (by destruct ls).
  transitivity (levels (take (length ls) ls ++ [leaf])); [|by rewrite firstn_all].
  rewrite <- (ups_levels ls (length ls) leaf).
  - rewrite firstn_all, Htl, length_app. cbn [tail length].
    replace (length ls + 1 - 1)%nat with (length ls) by lia. done.
  - destruct ls; [done|]; simpl; lia.
  - lia.
Qed.

Lemma addLeaf_root ls leaf :
  ls <> [] -> head ls <> Some "EMPTY"%string ->
  (addLeaf (new ls) leaf).2 = getRoot (addLeaf (new ls) leaf).1.
Proof.
  intros Hne Hhd. unfold addLeaf, new. cbn [tree leaves].
  rewrite buildTree_levels by done. destruct (levels_cons ls) as [tl Htl]. rewrite Htl.
  cbn [head default]. by rewrite !bool_decide_eq_false_2 by done.
Qed.

(** Inserting leaves one by one from the empty tree. *)
Definition addLeaves (t : MerkleTree) (xs : list string) : MerkleTree :=
  fold_left (fun t x => (addLeaf t x).1) xs t.

Lemma addLeaves_new ls xs :
  head (ls ++ xs) <> Some "EMPTY"%string -> addLeaves (new ls) xs = new (ls ++ xs).
Proof.
  revert ls. induction xs as [|x xs IH]; intros ls Hhd; simpl.
  - by rewrite app_nil_r.
  - rewrite addLeaf_new by (by destruct ls). rewrite IH.
    + by rewrite <- app_assoc.
    + by rewrite <- app_assoc.
Qed.

(** ** Roots and proofs *)

Lemma levels_last_single l : (0 < length l)%nat -> exists r, last (levels l) = Some [r].
Proof.
  induction l as [l Hl|l Hl IH] using levels_ind; intros Hpos.
  - rewrite levels_one by done. destruct l as [|a [|b l]]; simpl in *; [lia|eauto|lia].
  - rewrite levels_more by done.
    destruct IH as [r Hr]; [apply nextLevel_pos; lia|]. exists r.
    destruct (levels_cons (nextLevel l)) as [tl Htl].
    rewrite Htl in *. by rewrite last_cons_cons.
Qed.

(** The node above position [i] combines [i] with the sibling of [getProof]. *)
Lemma nextLevel_lookup l i x :
  l !! i = Some x ->
  nextLevel l !! (i / 2)%nat =
  Some (if Nat.odd i then hashPair (rd l (i - 1)) x
        else hashPair x (if (S i <? length l)%nat then rd l (S i) else rd l i)).
Proof.
  revert i. induction l as [|a|a b l IH] using two_step_ind; intros i Hi; [done| |].
  - destruct i as [|i]; [|done]. simpl in *. by simplify_eq.
  - destruct i as [|[|i]]; simpl in Hi; [by simplify_eq|by simplify_eq|].
    rewrite div2_succ_succ, odd_succ_succ. cbn [nextLevel lookup list_lookup].
    rewrite IH by done. destruct (Nat.odd i) eqn:E.
    + destruct i as [|i]; [done|]. unfold rd. simpl. by rewrite Nat.sub_0_r.
    + done.
Qed.

Lemma getProof_loop_levels l l' i :
  getProof_loop (l :: levels l') i =
  (if ((if Nat.odd i then (i - 1) else S i) <? length l)%nat
   then rd l (if Nat.odd i then (i - 1)%nat else S i) else rd l i)
  :: getProof_loop (levels l') (i / 2)%nat.
Proof. destruct (levels_cons l') as [tl ->]. done. Qed.

Lemma climb_getProof l : forall i x r,
  l !! i = Some x -> last (levels l) = Some [r] ->
  climb x i (getProof_loop (levels l) i) = r.
Proof.
  induction l as [l Hl|l Hl IH] using levels_ind; intros i x r Hi Hr.
  - rewrite levels_one in * by done. simpl in *. simplify_eq.
    destruct i as [|i]; simpl in *; by simplify_eq.
  - rewrite levels_more in * by done.
    destruct (levels_cons (nextLevel l)) as [tl Htl].
    rewrite Htl, last_cons_cons, <- Htl in Hr.
    rewrite getProof_loop_levels. cbn [climb]. apply IH; [|done].
    rewrite (nextLevel_lookup _ _ _ Hi). f_equal.
    destruct (Nat.odd i) eqn:E; [|done].
    assert ((i - 1 <? length l)%nat = true) as ->; [|done].
    apply Nat.ltb_lt. apply lookup_lt_Some in Hi. lia.
Qed.

(** The strings [verify] hashes on its way up. *)
Fixpoint preimages (h : string) (i : nat) (proof : list string) : list string :=
  match proof with
  | [] => []
  | s :: proof =>
      let p := if Nat.odd i then (s +:+ h)%string else (h +:+ s)%string in
      p :: preimages (sha256_hex p) (i / 2)%nat proof
  end.

Definition is_hex64 (s : string) : Prop := String.length s = 64%nat.

Lemma climb_binding p p' : forall h h' i,
  length p = length p' -> is_hex64 h -> is_hex64 h' ->
  Forall is_hex64 p -> Forall is_hex64 p' ->
  (forall a b, a ∈ preimages h i p -> b ∈ preimages h' i p' ->
               sha256_hex a = sha256_hex b -> a = b) ->
  climb h i p = climb h' i p' -> h = h' /\ p = p'.
Proof.
  revert p'. induction p as [|s p IH]; intros [|s' p'] h h' i Hlen Hh Hh' Hp Hp' Hcr Heq;
    simpl in *; try done.
  apply Forall_cons in Hp as [Hs Hp]. apply Forall_cons in Hp' as [Hs' Hp'].
  assert (forall b x y : string,
    (if Nat.odd i then hashPair x y else hashPair y x)
    = sha256_hex (if Nat.odd i then x +:+ y else y +:+ x)%string) as Hfold
    by (intros; by destruct (Nat.odd i)).
  rewrite !(Hfold EmptyString) in Heq.
  apply IH in Heq as [Heq ->]; try done.
  - apply Hcr in Heq; [|apply elem_of_cons; by left..].
    unfold is_hex64 in *.
    destruct (Nat.odd i); apply string_app_inj in Heq as [-> ->]; done || congruence.
  - by injection Hlen.
  - apply sha256_hex_length.
  - apply sha256_hex_length.
  - intros a b Ha Hb. apply Hcr; apply elem_of_cons; by right.
Qed.

Lemma getRoot_new ls :
  ls <> [] -> Forall (fun l => l <> EmptyString) ls ->
  last (levels ls) = Some [getRoot (new ls)].
Proof.
  intros Hne Hall. unfold getRoot, new. cbn [tree].
  rewrite buildTree_levels by done.
  destruct (levels_last_single ls) as [r Hr]; [destruct ls; simpl; lia || done|].
  rewrite Hr. case_decide as Hempty; [|done]. exfalso. subst r.
  clear Hne. induction ls as [ls Hl|ls Hl IH] using levels_ind.
  - rewrite levels_one in Hr by done. simpl in Hr. simplify_eq.
    by apply Forall_cons in Hall as [Hx _].
  - rewrite levels_more in Hr by done.
    destruct (levels_cons (nextLevel ls)) as [tl Htl]. rewrite Htl, last_cons_cons in Hr.
    rewrite <- Htl in Hr. apply IH in Hr; [done|].
    clear. induction ls as [|a|a b l IH] using two_step_ind; simpl;
      repeat constructor; eauto with cts; apply sha256_hex_nonempty.
Qed.

Lemma nextLevel_hex64 l : Forall is_hex64 (nextLevel l).
Proof.
  induction l as [|a|a b l IH] using two_step_ind; simpl;
    repeat constructor; auto; apply sha256_hex_length.
Qed.

Lemma getProof_hex64 l : forall i,
  (i < length l)%nat -> Forall is_hex64 l -> Forall is_hex64 (getProof_loop (levels l) i).
Proof.
  induction l as [l Hl|l Hl IH] using levels_ind; intros i Hi Hall.
  - rewrite levels_one by done. constructor.
  - rewrite levels_more, getProof_loop_levels by done.
    assert (forall j, (j < length l)%nat -> is_hex64 (rd l j)) as Hrd.
    { intros j Hj. unfold rd. destruct (lookup_lt_is_Some_2 l j Hj) as [x Hx].
      rewrite Hx. simpl. eapply Forall_lookup_1; eauto. }
    constructor.
    + destruct (Nat.odd i), (_ <? _)%nat eqn:E; apply Hrd;
        try apply Nat.ltb_lt in E; done.
    + apply IH; [|apply nextLevel_hex64]. rewrite nextLevel_length.
      pose proof (half_bounds i (length l)).
      destruct (decide (length l <= S i)%nat).
      * assert (length l = S i) as -> by lia. rewrite Nat.add_1_r, div2_succ_succ. lia.
      * apply Nat.Div0.div_lt_upper_bound.
        assert (length l + 1 = 2 * ((length l + 1) / 2) + (length l + 1) mod 2)%nat
          by (apply Nat.div_mod; lia).
        pose proof (Nat.mod_upper_bound (length l + 1) 2). lia.
Qed.

Lemma getProof_new ls i :
  ls <> [] -> getProof (new ls) i = getProof_loop (levels ls) i.
Proof. intros Hne. unfold getProof, new. cbn [tree]. by rewrite buildTree_levels. Qed.

Lemma getProof_length ls i :
  ls <> [] -> length (getProof (new ls) i) = (length (tree (new ls)) - 1)%nat.
Proof.
  intros Hne. unfold getProof, new. cbn [tree]. rewrite buildTree_levels by done.
  generalize (levels ls). intros tr. revert i.
  induction tr as [|l [|l' tr] IH]; intros i; [done..|].
  transitivity (S (length (getProof_loop (l' :: tr) (i / 2)%nat))); [done|].
  rewrite IH. simpl. lia.
Qed.

(** ** Properties *)

(** C1: [addLeaf] maintains exactly the tree that [buildTree] computes from
    scratch: inserting the leaves [xs] one at a time into the tree of [ls]
    gives the tree of [ls ++ xs], on every level, and each insertion into a
    non-empty tree returns the root of the rebuilt tree.  The one exclusion
    is a tree whose first leaf is the literal text "EMPTY", which the code
    uses as the marker of the empty tree. *)
Theorem incremental_equals_batch ls xs :
  head (ls ++ xs) <> Some "EMPTY"%string ->
  addLeaves (new ls) xs = new (ls ++ xs) /\
  (forall x, ls ++ xs <> [] ->
     addLeaf (addLeaves (new ls) xs) x =
     (new (ls ++ xs ++ [x]), getRoot (new (ls ++ xs ++ [x])))).
Proof.
  intros Hhd. split; [by apply addLeaves_new|]. intros x Hne.
  rewrite addLeaves_new by done.
  pose proof (addLeaf_new (ls ++ xs) x Hhd) as Hnew.
  rewrite <- app_assoc in Hnew. rewrite <- Hnew.
  rewrite <- addLeaf_root by done. apply surjective_pairing.
Qed.

(** C2: completeness of inclusion proofs: for every leaf of the tree, the
    proof [getProof] produces is accepted by [verify] against the tree's
    root, whatever the number of leaves (odd levels included). *)
Theorem proof_complete ls i leaf :
  ls !! i = Some leaf -> Forall (fun l => l <> EmptyString) ls ->
  verify (getRoot (new ls)) leaf i (getProof (new ls) i) = true.
Proof.
  intros Hi Hall. assert (ls <> []) as Hne by (by intros ->).
  unfold verify. apply String.eqb_eq.
  rewrite getProof_new by done.
  apply climb_getProof; [done|]. by apply getRoot_new.
Qed.

(** C3: soundness of inclusion proofs: a proof of the tree's height that
    [verify] accepts for position [i] can only be a proof of the leaf that
    is at position [i], provided SHA-256 does not collide on the strings the
    two verifications hash. *)
Theorem proof_sound ls i leaf proof :
  (i < length ls)%nat -> Forall is_hex64 ls -> is_hex64 leaf -> Forall is_hex64 proof ->
  length proof = (length (tree (new ls)) - 1)%nat ->
  (forall a b, a ∈ preimages leaf i proof ->
     b ∈ preimages (rd ls i) i (getProof (new ls) i) ->
     sha256_hex a = sha256_hex b -> a = b) ->
  verify (getRoot (new ls)) leaf i proof = true ->
  ls !! i = Some leaf /\ proof = getProof (new ls) i.
Proof.
  intros Hi Hls Hleaf Hproof Hlen Hcr Hv.
  assert (ls <> []) as Hne by (intros ->; simpl in Hi; lia).
  assert (Forall (fun l => l <> EmptyString) ls) as Hnon.
  { eapply Forall_impl; [exact Hls|]. intros x Hx ->. discriminate Hx. }
  destruct (lookup_lt_is_Some_2 ls i Hi) as [x Hx].
  assert (rd ls i = x) as Hrd by (unfold rd; by rewrite Hx). rewrite Hrd in Hcr.
  apply String.eqb_eq in Hv.
  pose proof (climb_getProof ls i x _ Hx (getRoot_new ls Hne Hnon)) as Hclimb.
  edestruct (climb_binding proof (getProof (new ls) i) leaf x i) as [-> ->]; try done.
  - by rewrite getProof_length.
  - eapply (Forall_lookup_1 _ _ _ _ Hls Hx).
  - rewrite getProof_new by done. by apply getProof_hex64.
  - rewrite getProof_new by done. congruence.
Qed.
End merkle.

(** ** Witnesses, on the executable digest *)

Definition wleaf (n : Z) : string := hex_low 64 n.

Lemma incremental_equals_batch_witness :
  addLeaves (new [wleaf 1; wleaf 2; wleaf 3]) [wleaf 4; wleaf 5]
  = new [wleaf 1; wleaf 2; wleaf 3; wleaf 4; wleaf 5].
Proof.
  refine (proj1 (incremental_equals_batch [wleaf 1; wleaf 2; wleaf 3] [wleaf 4; wleaf 5] _)).
  by vm_compute.
Defined.

Lemma proof_complete_witness :
  let ls := [wleaf 1; wleaf 2; wleaf 3] in
  verify (getRoot (new ls)) (wleaf 3) 2 (getProof (new ls) 2) = true.
Proof.
  apply proof_complete; [reflexivity|].
  repeat constructor; by vm_compute.
Defined.

Lemma proof_sound_witness :
  let ls := [wleaf 1; wleaf 2; wleaf 3] in
  ls !! 1%nat = Some (wleaf 2) /\ getProof (new ls) 1 = getProof (new ls) 1.
Proof.
  apply proof_sound.
  - simpl; lia.
  - repeat constructor; apply hex_low_length.
  - apply hex_low_length.
  - repeat constructor; by vm_compute.
  - vm_compute. reflexivity.
  - intros a b Ha Hb Heq. cbv zeta in *.
    assert (preimages (rd [wleaf 1; wleaf 2; wleaf 3] 1) 1
              (getProof (new [wleaf 1; wleaf 2; wleaf 3]) 1)
            = preimages (wleaf 2) 1 (getProof (new [wleaf 1; wleaf 2; wleaf 3]) 1)) as E
      by reflexivity.
    rewrite E in Hb. clear E.
    revert a b Ha Hb Heq. apply inj_on_list. vm_compute. reflexivity.
  - vm_compute. reflexivity.
Defined.
End Merkle.
