(* ===== verification/Collections.v ===== *)
(** * BoundedMap: the LRU cache

    Models [src/orchestrator/core/utils/collections.ts].  The class keeps a
    JavaScript [Map] from keys to nodes and threads the nodes on a doubly
    linked list through mutable [prev]/[next] pointers.  [Lru] is that code,
    on an explicit heap of nodes; [LruSpec] is what it promises: a list of
    entries, most recently used first, next to the [Map]'s insertion order. *)

From S2P Require Import Prelude JsMap.

(** ** The contract *)

Module LruSpec.
Section spec.
Context {K V : Type} `{EqDecision K}.

Record t := { entries : list (K * V); order : list K; cap : Z }.

Definition touch (k : K) (v : V) (s : t) : t :=
  {| entries := (k, v) :: JsMap.delete (entries s) k; order := order s; cap := cap s |}.

(** Drops the least recently used entry. *)
Definition evict (s : t) : t :=
  match last (entries s) with
  | Some (k, _) =>
      {| entries := JsMap.delete (entries s) k;
         order := base.filter (fun x => ¬ x = k) (order s); cap := cap s |}
  | None => s
  end.

Definition set (k : K) (v : V) (s : t) : t :=
  match JsMap.get (entries s) k with
  | Some _ => touch k v s
  | None =>
      let s := if cap s <=? Z.of_nat (length (entries s)) then evict s else s in
      {| entries := (k, v) :: entries s; order := order s ++ [k]; cap := cap s |}
  end.

Definition get (k : K) (s : t) : t * option V :=
  match JsMap.get (entries s) k with
  | Some v => (touch k v s, Some v)
  | None => (s, None)
  end.

Definition del (k : K) (s : t) : t * bool :=
  match JsMap.get (entries s) k with
  | Some _ =>
      ({| entries := JsMap.delete (entries s) k;
          order := base.filter (fun x => ¬ x = k) (order s); cap := cap s |}, true)
  | None => (s, false)
  end.
End spec.
Arguments t : clear implicits.
End LruSpec.

(** ** The implementation *)

Module Lru.
Section lru.
Context {K V : Type} `{EqDecision K}.

Definition loc := nat.

(** [class ListNode]: [null] pointers are [None]. *)
Record ListNode := mkNode { key : K; value : V; prev : option loc; next : option loc }.

(** The fields of [BoundedMap], with the heap its nodes live in; [cache] is the
    [Map], in insertion order. *)
Record BoundedMap := mkMap {
  heap : gmap loc ListNode;
  fresh : loc;
  cache : list (K * loc);
  hd : option loc;
  tl : option loc;
  maxCapacity : Z;
}.

Definition new (maxCapacity : Z) : BoundedMap := mkMap ∅ 0%nat [] None None maxCapacity.

(** *** Pointer assignments *)

Definition set_prev (p : option loc) (n : ListNode) : ListNode :=
  mkNode (key n) (value n) p (next n).
Definition set_next (p : option loc) (n : ListNode) : ListNode :=
  mkNode (key n) (value n) (prev n) p.
Definition set_value (v : V) (n : ListNode) : ListNode :=
  mkNode (key n) v (prev n) (next n).

Definition with_heap (f : gmap loc ListNode -> gmap loc ListNode) (m : BoundedMap) : BoundedMap :=
  mkMap (f (heap m)) (fresh m) (cache m) (hd m) (tl m) (maxCapacity m).
Definition with_hd (p : option loc) (m : BoundedMap) : BoundedMap :=
  mkMap (heap m) (fresh m) (cache m) p (tl m) (maxCapacity m).
Definition with_tl (p : option loc) (m : BoundedMap) : BoundedMap :=
  mkMap (heap m) (fresh m) (cache m) (hd m) p (maxCapacity m).
Definition with_cache (c : list (K * loc)) (m : BoundedMap) : BoundedMap :=
  mkMap (heap m) (fresh m) c (hd m) (tl m) (maxCapacity m).

Definition node_prev (m : BoundedMap) (l : loc) : option loc := heap m !! l ≫= prev.
Definition node_next (m : BoundedMap) (l : loc) : option loc := heap m !! l ≫= next.

Definition addToHead (l : loc) (m : BoundedMap) : BoundedMap :=
  let m := with_heap (alter (set_next (hd m)) l) m in
  let m := with_heap (alter (set_prev None) l) m in
  let m := match hd m with
           | Some h => with_heap (alter (set_prev (Some l)) h) m
           | None => m
           end in
  let m := with_hd (Some l) m in
  match tl m with Some _ => m | None => with_tl (Some l) m end.

Definition removeNode (l : loc) (m : BoundedMap) : BoundedMap :=
  let m := match node_prev m l with
           | Some p => with_heap (alter (set_next (node_next m l)) p) m
           | None => with_hd (node_next m l) m
           end in
  match node_next m l with
  | Some n => with_heap (alter (set_prev (node_prev m l)) n) m
  | None => with_tl (node_prev m l) m
  end.

Definition moveToHead (l : loc) (m : BoundedMap) : BoundedMap :=
  addToHead l (removeNode l m).

Definition evict (m : BoundedMap) : BoundedMap :=
  match tl m with
  | Some l =>
      let m := match heap m !! l with
               | Some n => with_cache (JsMap.delete (cache m) (key n)) m
               | None => m
               end in
      removeNode l m
  | None => m
  end.

Definition set (k : K) (v : V) (m : BoundedMap) : BoundedMap :=
  match JsMap.get (cache m) k with
  | Some l => moveToHead l (with_heap (alter (set_value v) l) m)
  | None =>
      let m := if maxCapacity m <=? Z.of_nat (length (cache m)) then evict m else m in
      let l := fresh m in
      let m := mkMap (<[l := mkNode k v None None]> (heap m)) (S l)
                 (JsMap.set (cache m) k l) (hd m) (tl m) (maxCapacity m) in
      addToHead l m
  end.

Definition get (k : K) (m : BoundedMap) : BoundedMap * option V :=
  match JsMap.get (cache m) k with
  | Some l => let m := moveToHead l m in (m, value <$> heap m !! l)
  | None => (m, None)
  end.

Definition has (k : K) (m : BoundedMap) : bool :=
  match JsMap.get (cache m) k with Some _ => true | None => false end.

Definition delete (k : K) (m : BoundedMap) : BoundedMap * bool :=
  match JsMap.get (cache m) k with
  | Some l =>
      let m := removeNode l m in
      (with_cache (JsMap.delete (cache m) k) m, true)
  | None => (m, false)
  end.

Definition size (m : BoundedMap) : nat := length (cache m).

Definition clear (m : BoundedMap) : BoundedMap :=
  with_tl None (with_hd None (with_cache [] m)).

(** The generator [entries()]: the first [next()] snapshots the keys, each
    further one skips the keys deleted meanwhile.  [None] is the finished
    generator. *)
Inductive iter := NotStarted | Running (keys : list K).

Fixpoint iter_next (m : BoundedMap) (keys : list K) : option ((K * V) * iter) :=
  match keys with
  | [] => None
  | k :: keys =>
      match JsMap.get (cache m) k ≫= (fun l => heap m !! l) with
      | Some n => Some ((k, value n), Running keys)
      | None => iter_next m keys
      end
  end.

Definition entries_next (m : BoundedMap) (it : iter) : option ((K * V) * iter) :=
  iter_next m (match it with NotStarted => fst <$> cache m | Running ks => ks end).

(** Draining the generator with no change to the map in between. *)
Fixpoint drain (fuel : nat) (m : BoundedMap) (it : iter) : list (K * V) :=
  match fuel with
  | O => []
  | S fuel => match entries_next m it with
              | Some (e, it) => e :: drain fuel m it
              | None => []
              end
  end.

Definition entries (m : BoundedMap) : list (K * V) :=
  drain (S (length (cache m))) m NotStarted.

(** ** The doubly linked list *)

Definition hd_or (q : option loc) (ls : list loc) : option loc :=
  match ls with [] => q | l :: _ => Some l end.

Fixpoint last_or (p : option loc) (ls : list loc) : option loc :=
  match ls with [] => p | l :: ls => last_or (Some l) ls end.

(** The nodes [ls] are linked in this order, from predecessor [p] to successor [q]. *)
Fixpoint seg (h : gmap loc (ListNode)) (p : option loc) (ls : list loc) (q : option loc) : Prop :=
  match ls with
  | [] => True
  | l :: ls => exists n, h !! l = Some n /\ prev n = p /\ next n = hd_or q ls /\
                         seg h (Some l) ls q
  end.

Lemma hd_or_app q a b : hd_or q (a ++ b) = hd_or (hd_or q b) a.
Proof. by destruct a. Qed.

Lemma last_or_app p a b : last_or p (a ++ b) = last_or (last_or p a) b.
Proof. revert p. induction a; intros p; simpl; auto. Qed.

Lemma seg_app h p a b q :
  seg h p (a ++ b) q <-> seg h p a (hd_or q b) /\ seg h (last_or p a) b q.
Proof.
  revert p. induction a as [|l a IH]; intros p; simpl; [tauto|].
  setoid_rewrite hd_or_app. setoid_rewrite IH. naive_solver.
Qed.

Lemma seg_alter_notin h p ls q f x :
  x ∉ ls -> seg h p ls q -> seg (alter f x h) p ls q.
Proof.
  revert p. induction ls as [|l ls IH]; intros p Hx; simpl; [done|].
  intros (n & Hn & ? & ? & Hseg). exists n.
  rewrite lookup_alter_ne by set_solver. split_and!; auto. apply IH; set_solver.
Qed.

Lemma seg_insert_notin h p ls q n x :
  x ∉ ls -> seg h p ls q -> seg (<[x := n]> h) p ls q.
Proof.
  revert p. induction ls as [|l ls IH]; intros p Hx; simpl; [done|].
  intros (n' & Hn & ? & ? & Hseg). exists n'.
  rewrite lookup_insert_ne by set_solver. split_and!; auto. apply IH; set_solver.
Qed.

Lemma seg_set_value h p ls q v x : seg h p ls q -> seg (alter (set_value v) x h) p ls q.
Proof.
  revert p. induction ls as [|l ls IH]; intros p; simpl; [done|].
  intros (n & Hn & ? & ? & Hseg).
  destruct (decide (x = l)) as [->|].
  - exists (set_value v n). rewrite lookup_alter_eq, Hn. naive_solver.
  - exists n. rewrite lookup_alter_ne by done. naive_solver.
Qed.

(** Re-pointing the ends of a segment. *)
Lemma seg_set_next h p a x q q' :
  x ∉ a -> seg h p (a ++ [x]) q -> seg (alter (set_next q') x h) p (a ++ [x]) q'.
Proof.
  rewrite !seg_app. intros Hx [Ha (n & Hn & Hp & _ & _)]. split.
  - by apply seg_alter_notin.
  - simpl. exists (set_next q' n). by rewrite lookup_alter_eq, Hn.
Qed.

Lemma seg_set_prev h p b x q p' :
  x ∉ b -> seg h p (x :: b) q -> seg (alter (set_prev p') x h) p' (x :: b) q.
Proof.
  intros Hx (n & Hn & _ & Hnext & Hb). exists (set_prev p' n).
  rewrite lookup_alter_eq, Hn. split_and!; [done..|]. by apply seg_alter_notin.
Qed.

(** The list part of the representation invariant. *)
Definition dll (m : BoundedMap) (ls : list loc) : Prop :=
  seg (heap m) None ls None /\ NoDup ls /\ hd m = hd_or None ls /\ tl m = last_or None ls.

Lemma dll_node m a l b :
  dll m (a ++ l :: b) ->
  exists n, heap m !! l = Some n /\ prev n = last_or None a /\ next n = hd_or None b.
Proof. intros (Hs & _). apply seg_app in Hs as [_ (n & ? & ? & ? & _)]. eauto. Qed.

Lemma last_or_snoc p a x : last_or p (a ++ [x]) = Some x.
Proof. by rewrite last_or_app. Qed.

Lemma last_or_cons_any p q x b : last_or p (x :: b) = last_or q (x :: b).
Proof. done. Qed.

Lemma removeNode_dll m a l b : dll m (a ++ l :: b) -> dll (removeNode l m) (a ++ b).
Proof.
  intros Hd. destruct (dll_node _ _ _ _ Hd) as (n & Hn & Hprev & Hnext).
  destruct Hd as (Hs & Hnd & Hhd & Htl).
  apply seg_app in Hs as [Ha (n' & _ & _ & _ & Hb)]. simpl in Ha.
  apply NoDup_app in Hnd as (Hnda & Hab & Hlb). apply NoDup_cons in Hlb as [Hlb Hndb].
  assert (NoDup (a ++ b)) as Hnd' by (apply NoDup_app; set_solver).
  unfold removeNode, node_prev, node_next. rewrite Hn. simpl. rewrite Hprev.
  destruct a as [|x a _] using rev_ind.
  - simpl. rewrite Hn. simpl. rewrite Hnext, Hprev. destruct b as [|y b]; simpl.
    + unfold dll; simpl. split_and!; auto.
    + unfold dll; simpl in *. split_and!; auto.
      apply seg_set_prev with (p := Some l); [|done]. by apply NoDup_cons in Hndb as [? _].
  - rewrite last_or_snoc in *. simpl.
    assert (x <> l) as Hxl by set_solver.
    assert (x ∉ a) as Hxa by (apply NoDup_app in Hnda; set_solver).
    rewrite lookup_alter_ne, Hn by done. simpl. rewrite Hnext, Hprev.
    apply (seg_set_next _ _ _ _ _ (hd_or None b)) in Ha; [|done].
    apply (seg_alter_notin _ _ _ _ (set_next (hd_or None b)) x) in Hb; [|set_solver].
    destruct b as [|y b]; simpl in *.
    + unfold dll; simpl. rewrite app_nil_r, last_or_snoc. split_and!;
        [done|done|rewrite Hhd; by destruct a|done].
    + unfold dll; simpl. split_and!; auto.
      * apply seg_app. split.
        -- apply seg_alter_notin; [set_solver|done].
        -- rewrite last_or_snoc. apply seg_set_prev with (p := Some l); [|done].
           by apply NoDup_cons in Hndb as [? _].
      * rewrite Hhd. by destruct a.
      * by rewrite Htl, !last_or_app.
Qed.

Lemma addToHead_dll m l ls :
  dll m ls -> l ∉ ls -> is_Some (heap m !! l) -> dll (addToHead l m) (l :: ls).
Proof.
  intros (Hs & Hnd & Hhd & Htl) Hl [n Hn].
  assert (NoDup (l :: ls)) as Hnd' by (by apply NoDup_cons).
  apply (seg_alter_notin _ _ _ _ (set_next (hd_or None ls)) l) in Hs; [|done].
  apply (seg_alter_notin _ _ _ _ (set_prev None) l) in Hs; [|done].
  unfold addToHead. simpl. rewrite Hhd. destruct ls as [|y ls]; simpl in *.
  - rewrite Htl. unfold dll; simpl. split_and!; [|done..].
    eexists. rewrite !lookup_alter_eq, Hn. by split_and!.
  - destruct (last_or (Some y) ls) as [z|] eqn:E.
    2:{ exfalso. clear -E. revert y E. induction ls; simpl; eauto. done. }
    rewrite Htl. assert (l <> y) as Hly by set_solver.
    unfold dll; simpl in *. rewrite E. split_and!; [|done..].
    exists (set_prev None (set_next (Some y) n)).
    split_and!; [|done..|].
    { rewrite lookup_alter_ne by done. by rewrite !lookup_alter_eq, Hn. }
    apply (seg_set_prev _ None); [|done]. by apply NoDup_cons in Hnd as [? _].
Qed.

(** ** The entries the nodes hold *)

Definition kv (h : gmap loc ListNode) (l : loc) : option (K * V) :=
  (fun n => (key n, value n)) <$> h !! l.

Definition content (h : gmap loc ListNode) (ls : list loc) : list (K * V) := omap (kv h) ls.

Lemma kv_alter_ptr f h x l :
  (forall n, key (f n) = key n /\ value (f n) = value n) -> kv (alter f x h) l = kv h l.
Proof.
  intros Hf. unfold kv. destruct (decide (x = l)) as [->|].
  - rewrite lookup_alter_eq. destruct (h !! l) as [n|]; [|done]. simpl.
    by destruct (Hf n) as [-> ->].
  - by rewrite lookup_alter_ne.
Qed.

Lemma kv_set_next p h x l : kv (alter (set_next p) x h) l = kv h l.
Proof. by apply kv_alter_ptr. Qed.

Lemma kv_set_prev p h x l : kv (alter (set_prev p) x h) l = kv h l.
Proof. by apply kv_alter_ptr. Qed.

Lemma removeNode_frame l m :
  cache (removeNode l m) = cache m /\ fresh (removeNode l m) = fresh m /\
  maxCapacity (removeNode l m) = maxCapacity m /\
  forall x, kv (heap (removeNode l m)) x = kv (heap m) x.
Proof.
  unfold removeNode. repeat case_match; simpl; split_and!; intros;
    rewrite ?kv_set_prev, ?kv_set_next; done.
Qed.

Lemma addToHead_frame l m :
  cache (addToHead l m) = cache m /\ fresh (addToHead l m) = fresh m /\
  maxCapacity (addToHead l m) = maxCapacity m /\
  forall x, kv (heap (addToHead l m)) x = kv (heap m) x.
Proof.
  unfold addToHead. repeat case_match; simpl; split_and!; intros;
    rewrite ?kv_set_prev, ?kv_set_next; done.
Qed.

Lemma removeNode_with_cache c l m :
  removeNode l (with_cache c m) = with_cache c (removeNode l m).
Proof.
  unfold removeNode, node_prev, node_next, with_heap, with_cache, with_hd, with_tl.
  destruct m; simpl. repeat (case_match; simpl in *; simplify_eq); done.
Qed.

Lemma content_ext h h' ls :
  (forall l, l ∈ ls -> kv h' l = kv h l) -> content h' ls = content h ls.
Proof.
  unfold content. induction ls as [|l ls IH]; intros Hkv; simpl; [done|].
  rewrite Hkv by set_solver.
  destruct (kv h l); [f_equal|]; apply IH; intros; apply Hkv; set_solver.
Qed.

Lemma content_app h a b : content h (a ++ b) = content h a ++ content h b.
Proof. apply omap_app. Qed.

Lemma content_cons h l ls e : kv h l = Some e -> content h (l :: ls) = e :: content h ls.
Proof. intros E. unfold content. simpl. by rewrite E. Qed.

(** ** The representation invariant and the refinement relation *)

Record rep (m : BoundedMap) (ls : list loc) : Prop := {
  rep_dll : dll m ls;
  rep_wf : JsMap.wf (cache m);
  rep_perm : (cache m).*2 ≡ₚ ls;
  rep_keys : Forall (fun e => fst <$> kv (heap m) e.2 = Some e.1) (cache m);
  rep_fresh : Forall (fun l => l < fresh m)%nat ls;
}.

Definition refines (m : BoundedMap) (s : LruSpec.t K V) : Prop :=
  exists ls, rep m ls /\ LruSpec.entries s = content (heap m) ls /\
             LruSpec.order s = JsMap.keys (cache m) /\ LruSpec.cap s = maxCapacity m.

Lemma content_keys m ls :
  rep m ls -> JsMap.keys (content (heap m) ls) ≡ₚ JsMap.keys (cache m).
Proof.
  intros [_ _ Hperm Hkeys _]. unfold content. rewrite <- Hperm. clear Hperm.
  unfold JsMap.keys. induction (cache m) as [|[k l] c IH]; simpl; [done|].
  apply Forall_cons in Hkeys as [Hk Hkeys]. simpl in Hk.
  destruct (kv (heap m) l) as [[k' v]|]; simpl in *; simplify_eq. by rewrite IH.
Qed.

Lemma content_wf m ls : rep m ls -> JsMap.wf (content (heap m) ls).
Proof.
  intros Hr. unfold JsMap.wf. rewrite (content_keys m ls Hr). by apply rep_wf in Hr.
Qed.

Lemma content_length m ls : rep m ls -> length (content (heap m) ls) = length (cache m).
Proof.
  intros Hr. pose proof (content_keys m ls Hr) as Hp. apply Permutation_length in Hp.
  unfold JsMap.keys in Hp. by rewrite !length_fmap in Hp.
Qed.

Lemma rep_get_None m ls k :
  rep m ls -> JsMap.get (cache m) k = None -> JsMap.get (content (heap m) ls) k = None.
Proof.
  intros Hr. rewrite !JsMap.get_None. by rewrite (content_keys m ls Hr).
Qed.

(** A cached key is a node of the list; its entry splits the contents. *)
Lemma rep_get_Some m ls k l :
  rep m ls -> JsMap.get (cache m) k = Some l ->
  exists a b v, ls = a ++ l :: b /\ kv (heap m) l = Some (k, v) /\
    content (heap m) ls = content (heap m) a ++ (k, v) :: content (heap m) b /\
    JsMap.get (content (heap m) ls) k = Some v /\
    JsMap.delete (content (heap m) ls) k = content (heap m) (a ++ b).
Proof.
  intros Hr Hget. pose proof (JsMap.get_Some_elem _ _ _ Hget) as Hin.
  assert (l ∈ ls) as Hl.
  { rewrite <- (rep_perm _ _ Hr). apply list_elem_of_fmap. by exists (k, l). }
  apply list_elem_of_split in Hl as (a & b & ->).
  pose proof (proj1 (Forall_forall _ _) (rep_keys _ _ Hr) _ Hin) as Hk. simpl in Hk.
  destruct (kv (heap m) l) as [[k' v]|] eqn:Hkv; simpl in Hk; simplify_eq.
  assert (content (heap m) (a ++ l :: b) =
          content (heap m) a ++ (k, v) :: content (heap m) b) as Hc.
  { by rewrite content_app, (content_cons _ _ _ _ Hkv). }
  pose proof (content_wf _ _ Hr) as Hwf.
  exists a, b, v. split_and!; [done..| |].
  - apply JsMap.elem_get; [done|]. rewrite Hc. set_solver.
  - unfold JsMap.wf, JsMap.keys in Hwf. rewrite Hc in *. rewrite fmap_app in Hwf. simpl in Hwf.
    apply NoDup_app in Hwf as (_ & Hab & Hb). apply NoDup_cons in Hb as [Hb _].
    rewrite JsMap.delete_app. simpl. rewrite decide_True by done.
    rewrite !JsMap.delete_notin, content_app; [done|done|].
    intros Ha. eapply Hab; [exact Ha|]. by left.
Qed.

(** ** Each operation preserves the representation *)

Lemma dll_mid_notin m a l b : dll m (a ++ l :: b) -> l ∉ a ++ b.
Proof.
  intros (_ & Hnd & _). apply NoDup_app in Hnd as (_ & Hab & Hb).
  apply NoDup_cons in Hb as [Hb _]. set_solver.
Qed.

Lemma keys_frame h h' (c : list (K * loc)) :
  (forall x, kv h' x = kv h x) ->
  Forall (fun e => fst <$> kv h e.2 = Some e.1) c ->
  Forall (fun e => fst <$> kv h' e.2 = Some e.1) c.
Proof. intros Hkv Hk. eapply Forall_impl; [exact Hk|]. intros e. by rewrite Hkv. Qed.

Lemma rep_moveToHead m a l b :
  rep m (a ++ l :: b) ->
  rep (moveToHead l m) (l :: a ++ b) /\
  content (heap (moveToHead l m)) (l :: a ++ b) = content (heap m) (l :: a ++ b) /\
  cache (moveToHead l m) = cache m /\ maxCapacity (moveToHead l m) = maxCapacity m.
Proof.
  intros [Hd Hwf Hp Hk Hf].
  destruct (removeNode_frame l m) as (Ec & Ef & Em & Ekv).
  destruct (addToHead_frame l (removeNode l m)) as (Ec' & Ef' & Em' & Ekv').
  unfold moveToHead.
  assert (forall x, kv (heap (addToHead l (removeNode l m))) x = kv (heap m) x) as Hkv
    by (intros; by rewrite Ekv', Ekv).
  split_and!; [|by apply content_ext|congruence..].
  split.
  - apply addToHead_dll; [by apply removeNode_dll| |].
    + by eapply dll_mid_notin.
    + destruct (dll_node _ _ _ _ Hd) as (n & Hn & _).
      specialize (Ekv l). unfold kv in Ekv. rewrite Hn in Ekv.
      destruct (heap (removeNode l m) !! l); [eauto|done].
  - by rewrite Ec', Ec.
  - rewrite Ec', Ec, Hp. by rewrite Permutation_middle.
  - rewrite Ec', Ec. by eapply keys_frame.
  - rewrite Ef', Ef. by rewrite <- Permutation_middle in Hf.
Qed.

Lemma rep_remove m a l b k v :
  rep m (a ++ l :: b) -> kv (heap m) l = Some (k, v) ->
  rep (with_cache (JsMap.delete (cache m) k) (removeNode l m)) (a ++ b) /\
  content (heap (removeNode l m)) (a ++ b) = content (heap m) (a ++ b).
Proof.
  intros Hr Hkvl. destruct (Hr) as [Hd Hwf Hp Hk Hf].
  destruct (removeNode_frame l m) as (Ec & Ef & Em & Ekv).
  split; [|by apply content_ext]. split; simpl.
  - apply removeNode_dll in Hd. exact Hd.
  - by apply JsMap.wf_delete.
  - assert (exists k', (k', l) ∈ cache m) as [k' Hin].
    { assert (l ∈ (cache m).*2) as Hl by (rewrite Hp; set_solver).
      apply list_elem_of_fmap in Hl as ([k' l'] & -> & ?). eauto. }
    pose proof (proj1 (Forall_forall _ _) Hk _ Hin) as Hk'. simpl in Hk'.
    rewrite Hkvl in Hk'. simpl in Hk'. assert (k' = k) as -> by congruence.
    destruct (JsMap.get_split (cache m) k l Hwf) as (c1 & c2 & Hc & _ & _ & Hdel).
    { by apply JsMap.elem_get. }
    rewrite Hdel. rewrite Hc, fmap_app in Hp. simpl in Hp. rewrite fmap_app.
    by eapply Permutation_app_inv.
  - apply Forall_forall. intros e He. apply JsMap.elem_of_delete in He as [He _].
    rewrite Ekv. exact (proj1 (Forall_forall _ _) Hk _ He).
  - rewrite Ef. apply Forall_app in Hf as [? Hf]. apply Forall_cons in Hf as [_ ?].
    by apply Forall_app.
Qed.

Lemma rep_set_value m a l b k v v' :
  rep m (a ++ l :: b) -> kv (heap m) l = Some (k, v) ->
  rep (with_heap (alter (set_value v') l) m) (a ++ l :: b) /\
  content (alter (set_value v') l (heap m)) (l :: a ++ b)
  = (k, v') :: content (heap m) (a ++ b).
Proof.
  intros Hr Hkvl. destruct (Hr) as [Hd Hwf Hp Hk Hf].
  assert (kv (alter (set_value v') l (heap m)) l = Some (k, v')) as Hl'.
  { unfold kv in *. rewrite lookup_alter_eq.
    destruct (heap m !! l); simpl in *; by simplify_eq. }
  assert (forall x, x <> l -> kv (alter (set_value v') l (heap m)) x = kv (heap m) x) as Hne.
  { intros x Hx. unfold kv. by rewrite lookup_alter_ne. }
  split.
  - split; simpl; auto.
    + destruct Hd as (? & ? & ? & ?). split_and!; try done. by apply seg_set_value.
    + eapply Forall_impl; [exact Hk|]. intros [k0 l0]. simpl.
      destruct (decide (l0 = l)) as [->|]; [by rewrite Hl', Hkvl|by rewrite Hne].
  - rewrite (content_cons _ _ _ _ Hl'). f_equal. apply content_ext.
    intros x Hx. apply Hne. intros ->. by apply (dll_mid_notin m a l b Hd).
Qed.

Lemma rep_insert m ls k v :
  rep m ls -> JsMap.get (cache m) k = None ->
  let l := fresh m in
  let m' := addToHead l (mkMap (<[l := mkNode k v None None]> (heap m)) (S l)
              (JsMap.set (cache m) k l) (hd m) (tl m) (maxCapacity m)) in
  rep m' (l :: ls) /\ content (heap m') (l :: ls) = (k, v) :: content (heap m) ls /\
  cache m' = cache m ++ [(k, l)] /\ maxCapacity m' = maxCapacity m.
Proof.
  intros [Hd Hwf Hp Hk Hf] Hget l m'. subst m'.
  match goal with |- context [addToHead l ?x] => set (m1 := x) end.
  destruct (addToHead_frame l m1) as (Ec & Ef & Em & Ekv).
  assert (l ∉ ls) as Hl.
  { intros Hl. pose proof (proj1 (Forall_forall _ _) Hf _ Hl) as Hlt. simpl in Hlt.
    subst l. lia. }
  assert (kv (heap m1) l = Some (k, v)) as Hkv1
    by (unfold kv; simpl; by rewrite lookup_insert_eq).
  assert (forall x, x <> l -> kv (heap m1) x = kv (heap m) x) as Hkv2
    by (intros x Hx; unfold kv; simpl; by rewrite lookup_insert_ne).
  assert (cache m1 = cache m ++ [(k, l)]) as Hc by (by apply JsMap.set_fresh).
  rewrite Ec, Hc, Em. split_and!; [|..|done|done].
  - split; rewrite ?Ec, ?Ef.
    + apply addToHead_dll; [|done|].
      * destruct Hd as (Hs & ? & ? & ?). split_and!; try done. by apply seg_insert_notin.
      * simpl. rewrite lookup_insert_eq. eauto.
    + simpl. by apply JsMap.wf_set.
    + rewrite Hc, fmap_app, Hp. simpl. by rewrite Permutation_app_comm.
    + rewrite Hc. apply Forall_app. split.
      * apply Forall_forall. intros [k0 l0] He. rewrite Ekv. simpl.
        pose proof (proj1 (Forall_forall _ _) Hk _ He) as Hk0. simpl in Hk0.
        rewrite Hkv2; [done|]. intros ->. apply Hl. rewrite <- Hp.
        apply list_elem_of_fmap. by exists (k0, l).
      * constructor; [|constructor]. simpl. by rewrite Ekv, Hkv1.
    + simpl. constructor; [lia|]. eapply Forall_impl; [exact Hf|]. simpl. intros; lia.
  - rewrite (content_cons _ _ _ (k, v)) by (by rewrite Ekv). f_equal.
    apply content_ext. intros x Hx. rewrite Ekv. apply Hkv2. by intros ->.
Qed.

(** ** Simulation, operation by operation *)

Lemma rep_empty m : hd m = None -> tl m = None -> cache m = [] -> rep m [].
Proof.
  intros Hh Ht Hc. split.
  - unfold dll. split_and!; [done|constructor|done..].
  - rewrite Hc. apply NoDup_nil_2.
  - by rewrite Hc.
  - rewrite Hc. constructor.
  - constructor.
Qed.

Lemma refines_new c :
  refines (new c) {| LruSpec.entries := []; LruSpec.order := []; LruSpec.cap := c |}.
Proof. exists []. split_and!; [by apply rep_empty|done..]. Qed.

Lemma refines_touch m s k l v v' :
  refines m s -> JsMap.get (cache m) k = Some l -> JsMap.get (LruSpec.entries s) k = Some v ->
  refines (moveToHead l (with_heap (alter (set_value v') l) m)) (LruSpec.touch k v' s).
Proof.
  intros (ls & Hr & He & Ho & Hc) Hget Hv.
  destruct (rep_get_Some m ls k l Hr Hget) as (a & b & v0 & -> & Hkv & _ & _ & Hdel).
  destruct (rep_set_value m a l b k v0 v' Hr Hkv) as [Hr' Hcont].
  destruct (rep_moveToHead _ a l b Hr') as (Hr'' & Hcont' & Ec & Em).
  exists (l :: a ++ b).
  split_and!; [done| | |]; cbn [LruSpec.touch LruSpec.entries LruSpec.order LruSpec.cap].
  - rewrite Hcont'. cbn [with_heap heap]. by rewrite Hcont, He, Hdel.
  - by rewrite Ec.
  - by rewrite Em.
Qed.

Lemma set_value_id (h : gmap loc ListNode) l k v :
  kv h l = Some (k, v) -> alter (set_value v) l h = h.
Proof.
  intros Hkv. unfold kv in Hkv. apply map_eq. intros x.
  destruct (decide (x = l)) as [->|]; [|by rewrite lookup_alter_ne].
  rewrite lookup_alter_eq. destruct (h !! l) as [n|]; simpl in *; [|done].
  destruct n; simpl in *; by simplify_eq.
Qed.

Lemma refines_lookup m s k l :
  refines m s -> JsMap.get (cache m) k = Some l ->
  exists v, kv (heap m) l = Some (k, v) /\ JsMap.get (LruSpec.entries s) k = Some v.
Proof.
  intros (ls & Hr & He & _) Hget.
  destruct (rep_get_Some m ls k l Hr Hget) as (a & b & v & -> & Hkv & _ & Hg & _).
  exists v. by rewrite He.
Qed.

Lemma refines_absent m s k :
  refines m s -> JsMap.get (cache m) k = None -> JsMap.get (LruSpec.entries s) k = None.
Proof. intros (ls & Hr & He & _) Hget. rewrite He. by apply rep_get_None. Qed.

Lemma refines_size m s : refines m s -> length (cache m) = length (LruSpec.entries s).
Proof. intros (ls & Hr & -> & _). by rewrite content_length. Qed.

Lemma refines_remove m s k l :
  refines m s -> JsMap.get (cache m) k = Some l ->
  refines (with_cache (JsMap.delete (cache m) k) (removeNode l m)) (LruSpec.del k s).1.
Proof.
  intros Href Hget. destruct (refines_lookup _ _ _ _ Href Hget) as (v & _ & Hv).
  unfold LruSpec.del. rewrite Hv. simpl.
  destruct Href as (ls & Hr & He & Ho & Hc).
  destruct (rep_get_Some m ls k l Hr Hget) as (a & b & v0 & -> & Hkv & _ & _ & Hdel).
  destruct (rep_remove m a l b k v0 Hr Hkv) as [Hr' Hcont].
  exists (a ++ b). split_and!; [done| | |]; simpl.
  - by rewrite He, Hdel, Hcont.
  - by rewrite Ho, JsMap.keys_delete.
  - destruct (removeNode_frame l m) as (_ & _ & -> & _). done.
Qed.

Lemma last_entry_key m s l :
  refines m s -> tl m = Some l ->
  exists k v, kv (heap m) l = Some (k, v) /\ JsMap.get (cache m) k = Some l /\
              last (LruSpec.entries s) = Some (k, v).
Proof.
  intros (ls & Hr & He & _) Htl.
  destruct (rep_dll _ _ Hr) as (_ & _ & _ & Htl').
  destruct ls as [|x a _] using rev_ind; [by rewrite Htl' in Htl|].
  rewrite Htl', last_or_snoc in Htl. simplify_eq.
  assert (l ∈ (cache m).*2) as Hl by (rewrite (rep_perm _ _ Hr); set_solver).
  apply list_elem_of_fmap in Hl as ([k l'] & -> & Hin).
  pose proof (proj1 (Forall_forall _ _) (rep_keys _ _ Hr) _ Hin) as Hk. simpl in *.
  destruct (kv (heap m) l') as [[k' v]|] eqn:Hkv; simpl in Hk; simplify_eq.
  exists k, v. split_and!; [done| |].
  - apply JsMap.elem_get; [by apply rep_wf in Hr|done].
  - rewrite He, content_app, (content_cons _ _ _ _ Hkv). exact (last_snoc _ _).
Qed.

Lemma refines_evict m s : refines m s -> refines (evict m) (LruSpec.evict s).
Proof.
  intros Href. unfold evict. destruct (tl m) as [l|] eqn:Htl.
  - destruct (last_entry_key m s l Href Htl) as (k & v & Hkv & Hget & Hlast).
    unfold LruSpec.evict. rewrite Hlast.
    unfold kv in Hkv. destruct (heap m !! l) as [n|]; simpl in Hkv; simplify_eq.
    rewrite removeNode_with_cache.
    pose proof (refines_remove m s (key n) l Href Hget) as Hrm.
    destruct (refines_lookup _ _ _ _ Href Hget) as (v' & _ & Hv').
    unfold LruSpec.del in Hrm. by rewrite Hv' in Hrm.
  - destruct (Href) as (ls & Hr & He & _).
    destruct (rep_dll _ _ Hr) as (_ & _ & _ & Htl').
    destruct ls as [|x a _] using rev_ind; [|by rewrite Htl', last_or_snoc in Htl].
    unfold LruSpec.evict. by rewrite He.
Qed.

Lemma evict_absent (s : LruSpec.t K V) k :
  JsMap.get (LruSpec.entries s) k = None ->
  JsMap.get (LruSpec.entries (LruSpec.evict s)) k = None.
Proof.
  unfold LruSpec.evict. destruct (last (LruSpec.entries s)) as [[k' v']|]; [|done].
  simpl. rewrite !JsMap.get_None, JsMap.keys_delete, list_elem_of_filter. tauto.
Qed.

Lemma refines_set m s k v : refines m s -> refines (set k v m) (LruSpec.set k v s).
Proof.
  intros Href. unfold set, LruSpec.set.
  destruct (JsMap.get (cache m) k) as [l|] eqn:Hget.
  - destruct (refines_lookup _ _ _ _ Href Hget) as (v0 & _ & Hv0). rewrite Hv0.
    by eapply refines_touch.
  - pose proof (refines_absent _ _ _ Href Hget) as Hnone. rewrite Hnone.
    rewrite <- (refines_size m s Href).
    assert (LruSpec.cap s = maxCapacity m) as Hcap by (by destruct Href as (? & ? & ? & ? & ?)).
    rewrite Hcap.
    set (m1 := if maxCapacity m <=? Z.of_nat (length (cache m)) then evict m else m).
    set (s1 := if maxCapacity m <=? Z.of_nat (length (cache m)) then LruSpec.evict s else s).
    assert (refines m1 s1 /\ JsMap.get (LruSpec.entries s1) k = None) as [Href1 Hnone1].
    { subst m1 s1. case_match; [|done]. split; [by apply refines_evict|by apply evict_absent]. }
    clearbody m1 s1. destruct (Href1) as (ls & Hr & He & Ho & Hc).
    assert (JsMap.get (cache m1) k = None) as Hget1.
    { rewrite JsMap.get_None, <- (content_keys m1 ls Hr), <- He. by apply JsMap.get_None. }
    destruct (rep_insert m1 ls k v Hr Hget1) as (Hr' & Hcont & Hcache & Hmax).
    exists (fresh m1 :: ls).
    split_and!; [done| | |]; cbn [LruSpec.entries LruSpec.order LruSpec.cap].
    + by rewrite Hcont, He.
    + rewrite Hcache, Ho. unfold JsMap.keys. by rewrite fmap_app.
    + by rewrite Hmax.
Qed.

Lemma refines_get m s k :
  refines m s -> refines (get k m).1 (LruSpec.get k s).1 /\ (get k m).2 = (LruSpec.get k s).2.
Proof.
  intros Href. unfold get, LruSpec.get.
  destruct (JsMap.get (cache m) k) as [l|] eqn:Hget.
  - destruct (refines_lookup _ _ _ _ Href Hget) as (v & Hkv & Hv). rewrite Hv. simpl.
    pose proof (refines_touch m s k l v v Href Hget Hv) as Ht.
    assert (with_heap (alter (set_value v) l) m = m) as Hid.
    { unfold with_heap. rewrite (set_value_id _ _ _ _ Hkv). by destruct m. }
    rewrite Hid in Ht. split; [done|].
    destruct (removeNode_frame l m) as (_ & _ & _ & E1).
    destruct (addToHead_frame l (removeNode l m)) as (_ & _ & _ & E2).
    assert (kv (heap (moveToHead l m)) l = Some (k, v)) as E
      by (unfold moveToHead; by rewrite E2, E1).
    unfold kv in E. destruct (heap (moveToHead l m) !! l); simpl in *; by simplify_eq.
  - by rewrite (refines_absent _ _ _ Href Hget).
Qed.

(** ** Traces of calls *)

Inductive op := OSet (k : K) (v : V) | OGet (k : K) | OHas (k : K) | ODelete (k : K)
  | OSize | OClear | OEntries.

Inductive out := RUnit | RValue (v : option V) | RBool (b : bool) | RSize (n : nat)
  | REntries (es : list (K * V)).

Definition step (m : BoundedMap) (o : op) : BoundedMap * out :=
  match o with
  | OSet k v => (set k v m, RUnit)
  | OGet k => let '(m, r) := get k m in (m, RValue r)
  | OHas k => (m, RBool (has k m))
  | ODelete k => let '(m, b) := delete k m in (m, RBool b)
  | OSize => (m, RSize (size m))
  | OClear => (clear m, RUnit)
  | OEntries => (m, REntries (entries m))
  end.

Definition spec_step (s : LruSpec.t K V) (o : op) : LruSpec.t K V * out :=
  match o with
  | OSet k v => (LruSpec.set k v s, RUnit)
  | OGet k => let '(s, r) := LruSpec.get k s in (s, RValue r)
  | OHas k => (s, RBool (JsMap.has (LruSpec.entries s) k))
  | ODelete k => let '(s, b) := LruSpec.del k s in (s, RBool b)
  | OSize => (s, RSize (length (LruSpec.entries s)))
  | OClear => ({| LruSpec.entries := []; LruSpec.order := []; LruSpec.cap := LruSpec.cap s |}, RUnit)
  | OEntries => (s, REntries (omap (fun k => pair k <$> JsMap.get (LruSpec.entries s) k)
                               (LruSpec.order s)))
  end.

Fixpoint run {S : Type} (f : S -> op -> S * out) (s : S) (ops : list op) : S * list out :=
  match ops with
  | [] => (s, [])
  | o :: ops => let '(s, r) := f s o in let '(s, rs) := run f s ops in (s, r :: rs)
  end.

Lemma drain_running m ks : forall fuel, (length ks < fuel)%nat ->
  drain fuel m (Running ks) =
  omap (fun k => (fun n => (k, value n)) <$> (JsMap.get (cache m) k ≫= (fun l => heap m !! l))) ks.
Proof.
  induction ks as [|k ks IH]; intros [|fuel] Hf; simpl in Hf; try lia; [done|].
  simpl. unfold entries_next. simpl.
  destruct (JsMap.get (cache m) k ≫= (fun l => heap m !! l)) as [n|]; simpl.
  - rewrite IH by lia. done.
  - specialize (IH (S fuel) ltac:(lia)). simpl in IH. exact IH.
Qed.

Lemma refines_entries m s :
  refines m s ->
  entries m = omap (fun k => pair k <$> JsMap.get (LruSpec.entries s) k) (LruSpec.order s).
Proof.
  intros Href. destruct (Href) as (ls & _ & _ & Ho & _). rewrite Ho.
  transitivity (drain (S (length (cache m))) m (Running (JsMap.keys (cache m)))); [done|].
  rewrite drain_running by (unfold JsMap.keys; rewrite length_fmap; lia).
  apply list_omap_ext, Forall_Forall2_diag, Forall_forall. intros k _.
  destruct (JsMap.get (cache m) k) as [l|] eqn:Hget; simpl.
  - destruct (refines_lookup _ _ _ _ Href Hget) as (v & Hkv & Hv). rewrite Hv.
    unfold kv in Hkv. destruct (heap m !! l); simpl in *; by simplify_eq.
  - by rewrite (refines_absent _ _ _ Href Hget).
Qed.

Lemma refines_step m s o :
  refines m s ->
  refines (step m o).1 (spec_step s o).1 /\ (step m o).2 = (spec_step s o).2.
Proof.
  intros Href. destruct o as [k v|k|k|k| | |]; cbn [step spec_step].
  - split; [by apply refines_set|done].
  - pose proof (refines_get m s k Href) as [H1 H2].
    destruct (get k m), (LruSpec.get k s); simpl in *. by subst.
  - split; [done|]. simpl. unfold has, JsMap.has.
    destruct (JsMap.get (cache m) k) as [l|] eqn:E.
    + by destruct (refines_lookup _ _ _ _ Href E) as (v & _ & ->).
    + by rewrite (refines_absent _ _ _ Href E).
  - unfold delete. destruct (JsMap.get (cache m) k) as [l|] eqn:E.
    + pose proof (refines_remove m s k l Href E) as Hrm.
      destruct (refines_lookup _ _ _ _ Href E) as (v & _ & Hv).
      destruct (removeNode_frame l m) as (-> & _).
      unfold LruSpec.del in *. by rewrite Hv in *.
    + unfold LruSpec.del. by rewrite (refines_absent _ _ _ Href E).
  - split; [done|]. simpl. by rewrite <- (refines_size m s Href).
  - split; [|done]. destruct Href as (ls & Hr & He & Ho & Hc). exists [].
    split_and!; [by apply rep_empty|done..].
  - split; [done|]. simpl. by rewrite (refines_entries m s Href).
Qed.

Lemma refines_run ops : forall m s, refines m s ->
  refines (run step m ops).1 (run spec_step s ops).1 /\
  (run step m ops).2 = (run spec_step s ops).2.
Proof.
  induction ops as [|o ops IH]; intros m s Href; simpl; [done|].
  destruct (refines_step m s o Href) as [H1 H2].
  destruct (step m o) as [m' r], (spec_step s o) as [s' r']; simpl in *. subst r'.
  destruct (IH m' s' H1) as [H3 H4].
  destruct (run step m' ops), (run spec_step s' ops); simpl in *. by subst.
Qed.

(** The number of entries the contract allows. *)
Definition bounded (s : LruSpec.t K V) : Prop :=
  Z.of_nat (length (LruSpec.entries s)) <= Z.max 1 (LruSpec.cap s).

Lemma length_evict (s : LruSpec.t K V) :
  LruSpec.cap (LruSpec.evict s) = LruSpec.cap s /\
  (length (LruSpec.entries (LruSpec.evict s)) <= length (LruSpec.entries s) - 1)%nat.
Proof.
  unfold LruSpec.evict. destruct (last (LruSpec.entries s)) as [[k v]|] eqn:E; simpl.
  - split; [done|]. apply last_Some_elem_of in E.
    enough (k ∈ JsMap.keys (LruSpec.entries s)) as Hk.
    { apply JsMap.length_delete_present in Hk. lia. }
    apply list_elem_of_fmap. by exists (k, v).
  - apply last_None in E. by rewrite E.
Qed.

Lemma bounded_touch k v v' (s : LruSpec.t K V) :
  JsMap.get (LruSpec.entries s) k = Some v -> bounded s -> bounded (LruSpec.touch k v' s).
Proof.
  unfold bounded. intros Hg Hb. simpl.
  enough (k ∈ JsMap.keys (LruSpec.entries s)) as Hk.
  { apply JsMap.length_delete_present in Hk. lia. }
  apply list_elem_of_fmap. exists (k, v). split; [done|]. by apply JsMap.get_Some_elem.
Qed.

Lemma bounded_step s o :
  bounded s -> bounded (spec_step s o).1 /\ LruSpec.cap (spec_step s o).1 = LruSpec.cap s.
Proof.
  intros Hb. destruct o as [k v|k|k|k| | |]; simpl.
  - unfold LruSpec.set. destruct (JsMap.get (LruSpec.entries s) k) eqn:E.
    { split; [|done]. by eapply bounded_touch. }
    destruct (length_evict s) as [Hc Hl].
    case_bool_step; reflect_bools; unfold bounded in *; simpl; [|lia]. rewrite Hc. lia.
  - unfold LruSpec.get. destruct (JsMap.get (LruSpec.entries s) k) eqn:E; simpl; [|done].
    split; [|done]. by eapply bounded_touch.
  - done.
  - unfold LruSpec.del. destruct (JsMap.get (LruSpec.entries s) k) eqn:E; simpl; [|done].
    split; [|done]. unfold bounded in *. simpl.
    pose proof (JsMap.length_delete (LruSpec.entries s) k). lia.
  - done.
  - split; [|done]. unfold bounded. simpl. lia.
  - done.
Qed.

Lemma bounded_run ops : forall s, bounded s ->
  bounded (run spec_step s ops).1 /\ LruSpec.cap (run spec_step s ops).1 = LruSpec.cap s.
Proof.
  induction ops as [|o ops IH]; intros s Hb; simpl; [done|].
  destruct (bounded_step s o Hb) as [H1 H2].
  destruct (spec_step s o) as [s' r]; simpl in *.
  destruct (IH s' H1) as [H3 H4]. destruct (run spec_step s' ops); simpl in *.
  split; [done|congruence].
Qed.

(** ** Properties *)

(** C32: [BoundedMap] implements its contract: for every sequence of calls to
    [set], [get], [has], [delete], [size], [clear] and [entries], starting from
    an empty map of any capacity, the pointer-based implementation returns
    exactly what the least-recently-used list specification returns, and ends
    in a state that represents the specification's. *)
Theorem lru_refinement (c : Z) (ops : list op) :
  let spec0 := {| LruSpec.entries := []; LruSpec.order := []; LruSpec.cap := c |} in
  (run step (new c) ops).2 = (run spec_step spec0 ops).2 /\
  refines (run step (new c) ops).1 (run spec_step spec0 ops).1.
Proof. intros spec0. destruct (refines_run ops _ _ (refines_new c)). done. Qed.

(** The capacity bound: after any sequence of calls the map holds at most
    [maxCapacity] entries when the capacity is at least one.  (With a capacity
    of zero or less, [evict] finds no tail on an empty map and the insertion
    still happens, so one entry is held.) *)
Theorem lru_bounded (c : Z) (ops : list op) :
  Z.of_nat (size (run step (new c) ops).1) <= Z.max 1 c.
Proof.
  destruct (refines_run ops _ _ (refines_new c)) as [Href _].
  unfold size. rewrite (refines_size _ _ Href).
  destruct (bounded_run ops {| LruSpec.entries := []; LruSpec.order := []; LruSpec.cap := c |})
    as [Hb Hc]; [unfold bounded; simpl; lia|].
  unfold bounded in Hb. rewrite Hc in Hb. exact Hb.
Qed.

End lru.
Arguments ListNode : clear implicits.
Arguments BoundedMap : clear implicits.

(** A map of capacity two: [a] is touched, so [b] is the entry dropped for [c]. *)
Example lru_example :
  (run step (new 2) [OSet "a"%string 1; OSet "b"%string 2; OGet "a"%string;
     OSet "c"%string 3; OEntries; OHas "b"%string]).2
  = [RUnit; RUnit; RValue (Some 1); RUnit;
     REntries [("a"%string, 1); ("c"%string, 3)]; RBool false].
Proof. vm_compute. reflexivity. Qed.
End Lru.
