(* ===== verification/Bloom.v ===== *)
(** * Bloom filter

    Models [src/orchestrator/core/cache.ts], class [BloomFilter]: the two
    rolling 32-bit hashes, the derived bit positions, [add], [has] and
    [clear].  The bit array is a [Uint8Array]: a list of bytes on which an
    out-of-range read is [undefined] (zero under a bitwise operator) and an
    out-of-range write is ignored. *)

From S2P Require Import Prelude JsString.

Module Bloom.

Record BloomFilter := { bits : list Z; size : Z; hashCount : nat }.

(** [new BloomFilter(size, hashCount)]: [Math.ceil(size / 8)] zero bytes. *)
Definition new (size : Z) (hashCount : nat) : BloomFilter :=
  {| bits := replicate (Z.to_nat ((size + 7) / 8)) 0; size := size; hashCount := hashCount |}.

(** [h = (h * m + c) >>> 0] over the code units of the value. *)
Definition rolling (m : Z) (val : jsstr) : Z :=
  fold_left (fun h c => (h * m + c) mod 2 ^ 32) val 0.

Definition getHashes (f : BloomFilter) (val : jsstr) : list Z :=
  let h1 := rolling 31 val in
  let h2 := rolling 37 val in
  map (fun i => (h1 + Z.of_nat i * h2) mod size f) (seq 0 (hashCount f)).

Definition byteIdx (h : Z) : nat := Z.to_nat (h / 8).
Definition bitIdx (h : Z) : Z := h mod 8.

Definition get_byte (bs : list Z) (i : nat) : Z := default 0 (bs !! i).

(** [this.bits[byteIdx] |= (1 << bitIdx)]: the byte array keeps eight bits. *)
Definition set_bit (bs : list Z) (h : Z) : list Z :=
  <[byteIdx h := Z.lor (get_byte bs (byteIdx h)) (Z.shiftl 1 (bitIdx h)) mod 256]> bs.

(** [this.bits[byteIdx] & (1 << bitIdx)] is non-zero *)
Definition test_bit (bs : list Z) (h : Z) : bool :=
  negb (Z.land (get_byte bs (byteIdx h)) (Z.shiftl 1 (bitIdx h)) =? 0).

Definition add (f : BloomFilter) (val : jsstr) : BloomFilter :=
  {| bits := fold_left set_bit (getHashes f val) (bits f);
     size := size f; hashCount := hashCount f |}.

Definition has (f : BloomFilter) (val : jsstr) : bool :=
  forallb (test_bit (bits f)) (getHashes f val).

Definition clear (f : BloomFilter) : BloomFilter :=
  {| bits := map (fun _ => 0) (bits f); size := size f; hashCount := hashCount f |}.

Definition add_all (f : BloomFilter) (vals : list jsstr) : BloomFilter := fold_left add vals f.

(** ** Bits *)

(** The type invariant: a byte array of the right length. *)
Definition wf (f : BloomFilter) : Prop :=
  0 < size f /\ length (bits f) = Z.to_nat ((size f + 7) / 8) /\
  Forall (fun b => 0 <= b < 256) (bits f).

Lemma new_wf n k : 0 < n -> wf (new n k).
Proof.
  intros Hn. unfold wf, new; simpl. split_and!; [done|by rewrite length_replicate|].
  apply Forall_replicate. lia.
Qed.

Lemma bitIdx_range h : 0 <= bitIdx h < 8.
Proof. apply Z.mod_pos_bound. lia. Qed.

Lemma mask_testbit j i : 0 <= j -> Z.testbit (Z.shiftl 1 j) i = (i =? j).
Proof.
  intros Hj. rewrite Z.shiftl_1_l. destruct (Z.eqb_spec i j) as [->|Hne].
  - by apply Z.pow2_bits_true.
  - apply Z.pow2_bits_false. lia.
Qed.

Lemma land_mask x j : 0 <= j -> negb (Z.land x (Z.shiftl 1 j) =? 0) = Z.testbit x j.
Proof.
  intros Hj. destruct (Z.testbit x j) eqn:E.
  - apply negb_true_iff, Z.eqb_neq. intros H0.
    assert (Z.testbit (Z.land x (Z.shiftl 1 j)) j = true) as Ht.
    { rewrite Z.land_spec, mask_testbit, E, Z.eqb_refl by done. done. }
    by rewrite H0, Z.bits_0 in Ht.
  - apply negb_false_iff, Z.eqb_eq. apply Z.bits_inj. intros i.
    rewrite Z.land_spec, mask_testbit, Z.bits_0 by done.
    destruct (Z.eqb_spec i j) as [->|]; [by rewrite E|by rewrite andb_false_r].
Qed.

Lemma byte_or_small x j : 0 <= x < 256 -> 0 <= j < 8 ->
  0 <= Z.lor x (Z.shiftl 1 j) < 256.
Proof.
  intros Hx Hj. split; [apply Z.lor_nonneg; split; [lia|apply Z.shiftl_nonneg; lia]|].
  assert (0 < 2 ^ j) by (apply Z.pow_pos_nonneg; lia).
  rewrite Z.shiftl_1_l.
  destruct (Z.eq_dec (Z.lor x (2 ^ j)) 0) as [->|Hne]; [lia|].
  apply (Z.log2_lt_cancel _ (2 ^ 8)). rewrite Z.log2_pow2 by lia.
  rewrite Z.log2_lor, Z.log2_pow2 by lia.
  apply Z.max_lub_lt; [|lia].
  destruct (Z.eq_dec x 0) as [->|]; [simpl; lia|].
  apply Z.log2_lt_pow2; lia.
Qed.

Lemma get_byte_range bs i : Forall (fun b => 0 <= b < 256) bs -> 0 <= get_byte bs i < 256.
Proof.
  intros Hall. unfold get_byte. destruct (bs !! i) eqn:E; simpl; [|lia].
  by apply (Forall_lookup_1 _ _ _ _ Hall E).
Qed.

Lemma set_bit_range bs h :
  Forall (fun b => 0 <= b < 256) bs -> Forall (fun b => 0 <= b < 256) (set_bit bs h).
Proof.
  intros Hall. apply Forall_insert; [done|]. simpl. apply Z.mod_pos_bound. lia.
Qed.

(** Setting a bit sets it and clears none. *)
Lemma test_set_bit bs h h' :
  Forall (fun b => 0 <= b < 256) bs -> (byteIdx h < length bs)%nat -> 0 <= h -> 0 <= h' ->
  test_bit (set_bit bs h) h' = (h =? h') || test_bit bs h'.
Proof.
  intros Hall Hlen Hh Hh'. unfold test_bit.
  pose proof (bitIdx_range h) as Hb. pose proof (bitIdx_range h') as Hb'.
  rewrite !land_mask by lia.
  assert (h = h' <-> byteIdx h = byteIdx h' /\ bitIdx h = bitIdx h') as Hiff.
  { unfold byteIdx, bitIdx. split; [by intros ->|]. intros [H1 H2].
    rewrite (Z.div_mod h 8), (Z.div_mod h' 8) by lia. rewrite H2.
    assert (h / 8 = h' / 8); [|congruence].
    apply Z2Nat.inj; [apply Z.div_pos; lia..|done]. }
  unfold set_bit. rewrite Z.mod_small
    by (apply byte_or_small; [by apply get_byte_range|lia]).
  destruct (decide (byteIdx h = byteIdx h')) as [He|Hne].
  - unfold get_byte at 1. rewrite He, list_lookup_insert_eq by congruence. simpl.
    rewrite Z.lor_spec, mask_testbit by lia. rewrite orb_comm. f_equal.
    destruct (Z.eqb_spec h h') as [->|]; [apply Z.eqb_refl|].
    apply Z.eqb_neq. naive_solver.
  - unfold get_byte at 1. rewrite list_lookup_insert_ne by done.
    destruct (Z.eqb_spec h h') as [->|]; [done|done].
Qed.

Lemma getHashes_range f val h :
  0 < size f -> In h (getHashes f val) -> 0 <= h < size f.
Proof.
  intros Hs. unfold getHashes. rewrite in_map_iff. intros (i & <- & _).
  by apply Z.mod_pos_bound.
Qed.

Lemma byteIdx_in_range f h :
  wf f -> 0 <= h < size f -> (byteIdx h < length (bits f))%nat.
Proof.
  intros (Hs & -> & _) Hh. unfold byteIdx. apply Z2Nat.inj_lt.
  - apply Z.div_pos; lia.
  - apply Z.div_pos; lia.
  - apply Z.div_lt_upper_bound; [lia|].
    pose proof (Z.div_mod (size f + 7) 8). pose proof (Z.mod_pos_bound (size f + 7) 8). lia.
Qed.

(** Setting the bits of a list of positions: exactly those are added. *)
Lemma test_set_bits hs : forall bs h',
  Forall (fun b => 0 <= b < 256) bs ->
  Forall (fun h => 0 <= h /\ (byteIdx h < length bs)%nat) hs -> 0 <= h' ->
  test_bit (fold_left set_bit hs bs) h' = existsb (fun h => h =? h') hs || test_bit bs h'.
Proof.
  induction hs as [|h hs IH]; intros bs h' Hall Hin Hh'; simpl; [done|].
  apply Forall_cons in Hin as [[Hh Hb] Hin].
  rewrite IH, test_set_bit; try done.
  - destruct (h =? h'), (existsb _ hs); done.
  - by apply set_bit_range.
  - unfold set_bit. by setoid_rewrite length_insert.
Qed.

Lemma getHashes_valid f val :
  wf f -> Forall (fun h => 0 <= h /\ (byteIdx h < length (bits f))%nat) (getHashes f val).
Proof.
  intros Hwf. apply Forall_forall. intros h Hh. apply list_elem_of_In in Hh.
  destruct Hwf as [Hs ?]. pose proof (getHashes_range f val h Hs Hh).
  split; [lia|]. by apply byteIdx_in_range.
Qed.

Lemma fold_set_bit_wf hs bs :
  Forall (fun b => 0 <= b < 256) bs ->
  length (fold_left set_bit hs bs) = length bs /\
  Forall (fun b => 0 <= b < 256) (fold_left set_bit hs bs).
Proof.
  revert bs. induction hs as [|h hs IH]; intros bs Hall; simpl; [done|].
  destruct (IH (set_bit bs h)) as [H1 H2]; [by apply set_bit_range|].
  split; [|done]. rewrite H1. unfold set_bit. by rewrite length_insert.
Qed.

Lemma add_wf f val : wf f -> wf (add f val).
Proof.
  intros (Hs & Hl & Hb). destruct (fold_set_bit_wf (getHashes f val) (bits f) Hb) as [H1 H2].
  unfold wf, add; simpl. split_and!; [done|congruence|done].
Qed.

Lemma add_test f val h :
  wf f -> 0 <= h ->
  test_bit (bits (add f val)) h = existsb (fun x => x =? h) (getHashes f val) || test_bit (bits f) h.
Proof.
  intros Hwf Hh. simpl. apply test_set_bits; [by destruct Hwf as (_ & _ & ?)| |done].
  by apply getHashes_valid.
Qed.

Lemma add_has_same f val : wf f -> has (add f val) val = true.
Proof.
  intros Hwf. unfold has. apply forallb_forall. intros h Hh.
  assert (getHashes (add f val) val = getHashes f val) as E by done. rewrite E in Hh.
  pose proof (getHashes_range f val h ltac:(by destruct Hwf) Hh) as Hr.
  rewrite add_test by (done || lia). apply orb_true_iff. left.
  apply existsb_exists. exists h. by rewrite Z.eqb_refl.
Qed.

Lemma add_has_mono f val val' : wf f -> has f val' = true -> has (add f val) val' = true.
Proof.
  intros Hwf Hhas. unfold has in *. rewrite forallb_forall in *. intros h Hh.
  assert (getHashes (add f val) val' = getHashes f val') as E by done. rewrite E in Hh.
  pose proof (getHashes_range f val' h ltac:(by destruct Hwf) Hh) as Hr.
  rewrite add_test by (done || lia). rewrite Hhas by done. apply orb_true_r.
Qed.

Lemma add_all_wf vals : forall f, wf f -> wf (add_all f vals).
Proof. induction vals; intros f Hf; simpl; [done|]. apply IHvals. by apply add_wf. Qed.

Lemma add_all_has_mono vals : forall f val,
  wf f -> has f val = true -> has (add_all f vals) val = true.
Proof.
  induction vals as [|v vals IH]; intros f val Hf Hh; simpl; [done|].
  apply IH; [by apply add_wf|by apply add_has_mono].
Qed.

Lemma add_all_has vals : forall f val, wf f -> In val vals -> has (add_all f vals) val = true.
Proof.
  induction vals as [|v vals IH]; intros f val Hf Hin; [done|]. simpl.
  destruct Hin as [->|Hin].
  - apply add_all_has_mono; [by apply add_wf|by apply add_has_same].
  - apply IH; [by apply add_wf|done].
Qed.

(** ** Properties *)

(** The filter has no false negatives: whatever values are added to a
    filter of positive size, in whatever order and number, and whatever was in
    it before, every added value is reported present and every value reported
    present before still is. *)
Theorem no_false_negatives f vals val :
  wf f -> In val vals \/ has f val = true -> has (add_all f vals) val = true.
Proof. intros Hwf [Hin|Hh]; [by apply add_all_has|by apply add_all_has_mono]. Qed.

Lemma no_false_negatives_witness :
  has (add_all (new 1024 3) [js "1.1.1.1"; js "8.8.8.8"]) (js "8.8.8.8") = true.
Proof.
  apply no_false_negatives; [apply new_wf; lia|]. left. right. by left.
Defined.
End Bloom.
