(* ===== verification/Resilience.v ===== *)
(** * Retries and circuit breakers

    Models [src/orchestrator/core/utils/resilience.ts] ([retry],
    [CircuitBreaker]) and [secureRandomInt] / [secureRandomBool] of
    [src/orchestrator/core/crypto_utils.ts].  An awaited call is the way it
    settles; the delays and the [onRetry] callbacks are a trace of events. *)

From S2P Require Import Prelude Result.

(** [secureRandomInt(min, max)] on the 32-bit value [r] that
    [crypto.getRandomValues] stored. *)
Definition secureRandomInt (r min max : Z) : Z :=
  let range := max - min + 1 in min + r mod range.

(** [secureRandomBool()] on the random byte [r]. *)
Definition secureRandomBool (r : Z) : bool := 127 <? r.

Lemma secureRandomInt_range r min max :
  min <= max -> min <= secureRandomInt r min max <= max.
Proof.
  intros H. unfold secureRandomInt.
  pose proof (Z.mod_pos_bound r (max - min + 1)). lia.
Qed.

(** ** [retry] *)

Module Retry.

Record RetryOptions := {
  maxAttempts : Z;
  baseDelayMs : Z;
  maxDelayMs : option Z;
  factor : option Z;
}.

Inductive event (E : Type) :=
| Call (attempt : Z)               (** [await action()] *)
| OnRetry (e : E) (attempt : Z)    (** [options.onRetry?.(lastError, attempt)] *)
| Sleep (ms : Z).                  (** [setTimeout(r, delay + jitter)] *)
Arguments Call {E} _.
Arguments OnRetry {E} _ _.
Arguments Sleep {E} _.

Section retry.
Context {A E : Type}.
(** The outcome of the n-th call of [action], the random words drawn for the
    jitter, and [new Error("Retry failed after max attempts")]. *)
Context (action : Z -> settled A E) (random : Z -> Z) (exhausted : E).

Definition delay_of (o : RetryOptions) (attempt : Z) : Z :=
  let factor := default 2 (factor o) in
  let maxDelay := default 30000 (maxDelayMs o) in
  Z.min maxDelay (baseDelayMs o * factor ^ (attempt - 1)).

(** [delay + secureRandomInt(0, Math.floor(delay * 0.1))] *)
Definition sleep_of (o : RetryOptions) (attempt : Z) : Z :=
  let delay := delay_of o attempt in
  delay + secureRandomInt (random attempt) 0 (delay / 10).

(** The [for] loop from [attempt] on, with [n] iterations left. *)
Fixpoint retry_loop (o : RetryOptions) (n : nat) (attempt : Z) (lastError : option E)
    : Result A E * list (event E) :=
  match n with
  | O => (err (default exhausted lastError), [])
  | S n =>
      match action attempt with
      | Resolved d => (ok d, [Call attempt])
      | Rejected e =>
          let '(r, tr) := retry_loop o n (attempt + 1) (Some e) in
          (r, Call attempt ::
              (if attempt <? maxAttempts o
               then [OnRetry e attempt; Sleep (sleep_of o attempt)] else []) ++ tr)
      end
  end.

Definition retry (o : RetryOptions) : Result A E * list (event E) :=
  retry_loop o (Z.to_nat (maxAttempts o)) 1 None.

(** ** What [retry] promises *)

(** The first successful call among attempts [attempt, attempt + n). *)
Fixpoint first_success (n : nat) (attempt : Z) : option (Z * A) :=
  match n with
  | O => None
  | S n => match action attempt with
           | Resolved d => Some (attempt, d)
           | Rejected _ => first_success n (attempt + 1)
           end
  end.

Fixpoint last_error (n : nat) (attempt : Z) (e : option E) : option E :=
  match n with
  | O => e
  | S n => last_error n (attempt + 1)
             (match action attempt with Rejected e => Some e | Resolved _ => e end)
  end.

Fixpoint calls (tr : list (event E)) : list Z :=
  match tr with
  | [] => []
  | Call a :: tr => a :: calls tr
  | _ :: tr => calls tr
  end.
Fixpoint sleeps (tr : list (event E)) : list Z :=
  match tr with
  | [] => []
  | Sleep ms :: tr => ms :: sleeps tr
  | _ :: tr => sleeps tr
  end.

Lemma retry_loop_spec o n : forall attempt e,
  let '(r, tr) := retry_loop o n attempt e in
  match first_success n attempt with
  | Some (k, d) =>
      r = ok d /\ attempt <= k < attempt + Z.of_nat n /\
      calls tr = map (fun i => attempt + Z.of_nat i) (seq 0 (Z.to_nat (k - attempt + 1)))
  | None =>
      r = err (default exhausted (last_error n attempt e)) /\
      calls tr = map (fun i => attempt + Z.of_nat i) (seq 0 n)
  end.
Proof.
  induction n as [|n IH]; intros attempt e; simpl; [done|].
  destruct (action attempt) as [d|e'] eqn:Ha.
  - split_and!; [done|lia|lia|].
    replace (attempt - attempt + 1) with 1 by lia. simpl. by rewrite Z.add_0_r.
  - specialize (IH (attempt + 1) (Some e')).
    destruct (retry_loop o n (attempt + 1) (Some e')) as [r tr].
    assert (forall m, map (fun i => attempt + 1 + Z.of_nat i) (seq 0 m)
                      = map (fun i => attempt + Z.of_nat i) (seq 1 m)) as Hshift.
    { intros m. rewrite <- seq_shift, map_map. apply map_ext. intros; lia. }
    assert (calls (Call attempt :: (if attempt <? maxAttempts o
      then [OnRetry e' attempt; Sleep (sleep_of o attempt)] else []) ++ tr)
      = attempt :: calls tr) as Hcalls by (by destruct (attempt <? maxAttempts o)).
    rewrite Hcalls. destruct (first_success n (attempt + 1)) as [[k d]|].
    + destruct IH as (-> & Hk & ->). split_and!; [done|lia|lia|].
      replace (Z.to_nat (k - attempt + 1)) with (S (Z.to_nat (k - (attempt + 1) + 1))) by lia.
      rewrite Hshift. simpl. by rewrite Z.add_0_r.
    + destruct IH as (-> & ->). split; [done|]. rewrite Hshift. simpl. by rewrite Z.add_0_r.
Qed.

Lemma sleep_of_bounds o attempt :
  0 <= delay_of o attempt ->
  delay_of o attempt <= sleep_of o attempt <= delay_of o attempt + delay_of o attempt / 10.
Proof.
  intros H. unfold sleep_of.
  pose proof (secureRandomInt_range (random attempt) 0 (delay_of o attempt / 10)).
  assert (0 <= delay_of o attempt / 10) by (apply Z.div_pos; lia). lia.
Qed.

Lemma calls_nonempty o n attempt e :
  (0 < length (calls (retry_loop o (S n) attempt e).2))%nat.
Proof.
  simpl. destruct (action attempt); simpl; [lia|].
  destruct (retry_loop o n (attempt + 1) _) as [r tr]. simpl. lia.
Qed.

(** One pause between two consecutive calls, none after the last. *)
Lemma retry_loop_sleeps o n : forall attempt e,
  (attempt + Z.of_nat n - 1 = maxAttempts o) ->
  sleeps (retry_loop o n attempt e).2
  = map (fun i => sleep_of o (attempt + Z.of_nat i))
      (seq 0 (length (calls (retry_loop o n attempt e).2) - 1)).
Proof.
  induction n as [|n IH]; intros attempt e Hmax; [done|].
  simpl. destruct (action attempt) as [d|e'] eqn:Ha; [done|].
  specialize (IH (attempt + 1) (Some e') ltac:(lia)).
  pose proof (calls_nonempty o (pred n) (attempt + 1) (Some e')) as Hne.
  destruct (Z.ltb_spec attempt (maxAttempts o)) as [Hlt|Hge].
  - destruct n as [|n]; [lia|]. simpl pred in Hne.
    destruct (retry_loop o (S n) (attempt + 1) (Some e')) as [r tr].
    simpl in *. rewrite IH.
    destruct (length (calls tr)) as [|c]; [lia|]. simpl.
    rewrite Z.add_0_r, Nat.sub_0_r. f_equal.
    rewrite <- seq_shift, map_map. apply map_ext. intros. f_equal. lia.
  - assert (n = 0%nat) as -> by lia. done.
Qed.

(** ** Properties *)

(** [retry] is total and never rejects: it calls the action for attempts
    1, 2, ... up to the first success or [maxAttempts], returns that success,
    or else an error value carrying the last rejection; and it pauses exactly
    once between two consecutive calls, for at least the capped exponential
    delay and at most ten percent more. *)
Theorem retry_correct o :
  0 <= maxAttempts o -> (forall a, 0 <= delay_of o a) ->
  let '(r, tr) := retry o in
  match first_success (Z.to_nat (maxAttempts o)) 1 with
  | Some (k, d) => r = ok d /\ 1 <= k <= maxAttempts o /\
      calls tr = map (fun i => 1 + Z.of_nat i) (seq 0 (Z.to_nat k))
  | None => r = err (default exhausted (last_error (Z.to_nat (maxAttempts o)) 1 None)) /\
      calls tr = map (fun i => 1 + Z.of_nat i) (seq 0 (Z.to_nat (maxAttempts o)))
  end /\
  Forall2 (fun i ms => let d := delay_of o (1 + Z.of_nat i) in d <= ms <= d + d / 10)
    (seq 0 (length (calls tr) - 1)) (sleeps tr).
Proof.
  intros Hmax Hd. unfold retry.
  pose proof (retry_loop_spec o (Z.to_nat (maxAttempts o)) 1 None) as Hspec.
  pose proof (retry_loop_sleeps o (Z.to_nat (maxAttempts o)) 1 None ltac:(lia)) as Hsl.
  destruct (retry_loop _ _ _ _) as [r tr]. simpl in Hsl. split.
  - destruct (first_success _ _) as [[k d]|]; [|done].
    destruct Hspec as (-> & Hk & ->). split_and!; [done|lia|lia|].
    by replace (k - 1 + 1) with k by lia.
  - rewrite Hsl. apply Forall2_fmap_r, Forall_Forall2_diag, Forall_forall.
    intros i _. by apply sleep_of_bounds.
Qed.

End retry.

Lemma retry_correct_witness :
  let action := fun a : Z => if a <? 3 then Rejected a else Resolved (a * 10) in
  let o := {| maxAttempts := 5; baseDelayMs := 20; maxDelayMs := None; factor := None |} in
  let '(r, tr) := retry action (fun _ => 7) (-1) o in
  (r = ok 30 /\ 1 <= 3 <= 5 /\ calls tr = [1; 2; 3]) /\
  Forall2 (fun i ms => let d := delay_of o (1 + Z.of_nat i) in d <= ms <= d + d / 10)
    (seq 0 2) (sleeps tr).
Proof.
  apply (retry_correct (fun a : Z => if a <? 3 then Rejected a else Resolved (a * 10))
           (fun _ => 7) (-1)
           {| maxAttempts := 5; baseDelayMs := 20; maxDelayMs := None; factor := None |}).
  - simpl. lia.
  - intros a. unfold delay_of. simpl. apply Z.min_glb; [lia|].
    apply Z.mul_nonneg_nonneg; [lia|]. apply Z.pow_nonneg. lia.
Defined.
End Retry.

(** ** [CircuitBreaker] *)

Module Breaker.

Inductive CircuitState := CLOSED | OPEN | HALF_OPEN.

#[export] Instance CircuitState_eq_dec : EqDecision CircuitState.
Proof. solve_decision. Defined.

Record CircuitBreakerOptions := { failureThreshold : Z; resetTimeoutMs : Z }.

Record CircuitBreaker := {
  state : CircuitState;
  failureCount : Z;
  lastFailureTime : option Z;
}.

Definition new : CircuitBreaker :=
  {| state := CLOSED; failureCount := 0; lastFailureTime := None |}.

(** The guard at the head of [execute]: [None] when the request is rejected. *)
Definition admit_request (o : CircuitBreakerOptions) (b : CircuitBreaker) (now : Z)
    : option CircuitBreaker :=
  match state b with
  | OPEN =>
      if resetTimeoutMs o <? now - default 0 (lastFailureTime b)
      then Some {| state := HALF_OPEN; failureCount := failureCount b;
                   lastFailureTime := lastFailureTime b |}
      else None
  | _ => Some b
  end.

Definition onSuccess (b : CircuitBreaker) : CircuitBreaker :=
  {| state := CLOSED; failureCount := 0; lastFailureTime := lastFailureTime b |}.

Definition onFailure (o : CircuitBreakerOptions) (b : CircuitBreaker) (now : Z) : CircuitBreaker :=
  {| state := if failureThreshold o <=? failureCount b + 1 then OPEN else state b;
     failureCount := failureCount b + 1;
     lastFailureTime := Some now |}.

Inductive failure (E : Type) := CircuitOpen | ActionFailed (e : E).
Arguments CircuitOpen {E}.
Arguments ActionFailed {E} _.

(** [execute(action)] when nothing interleaves: [now] is the clock at the
    guard, [now'] the clock when a failed action is recorded.  The last
    component tells whether the action was called. *)
Definition execute {A E} (o : CircuitBreakerOptions) (b : CircuitBreaker) (now now' : Z)
    (action : settled A E) : CircuitBreaker * Result A (failure E) * bool :=
  match admit_request o b now with
  | None => (b, err CircuitOpen, false)
  | Some b =>
      match action with
      | Resolved a => (onSuccess b, ok a, true)
      | Rejected e => (onFailure o b now', err (ActionFailed e), true)
      end
  end.

Definition getState (b : CircuitBreaker) : CircuitState := state b.

(** *** Interleaved requests: requests are admitted and settle in any order *)

Inductive event := Begin (now : Z) | Succeed | Fail (now : Z).

Definition event_step (o : CircuitBreakerOptions) (b : CircuitBreaker) (e : event) : CircuitBreaker :=
  match e with
  | Begin now => default b (admit_request o b now)
  | Succeed => onSuccess b
  | Fail now => onFailure o b now
  end.

Inductive reachable (o : CircuitBreakerOptions) : CircuitBreaker -> Prop :=
| reach_new : reachable o new
| reach_step b e : reachable o b -> reachable o (event_step o b e).

Lemma reachable_inv o b :
  1 <= failureThreshold o -> reachable o b ->
  0 <= failureCount b /\
  (state b = CLOSED <-> failureCount b < failureThreshold o) /\
  (state b <> CLOSED -> lastFailureTime b <> None).
Proof.
  intros Ht. induction 1 as [|b e Hr (Hc & Hs & Hl)]; [simpl; split_and!; [lia|split; [lia|done]|done]|].
  destruct e as [now| |now]; simpl.
  - unfold admit_request. destruct (state b) eqn:E; simpl; [rewrite ?E; naive_solver| |rewrite ?E; naive_solver].
    assert (~ failureCount b < failureThreshold o) by naive_solver.
    case_bool_step; simpl; [|rewrite E; naive_solver].
    split_and!; [done|split; [done|lia]|naive_solver].
  - split_and!; [lia|split; [lia|done]|done].
  - case_bool_step; reflect_bools; split_and!; try lia; try done.
    + split; [done|lia].
    + split; [lia|]. intros. apply Hs. lia.
Qed.

(** The breaker's states are determined by its failure count whatever the
    interleaving of concurrent requests: in every reachable state the breaker
    is CLOSED exactly when fewer than [failureThreshold] failures have been
    recorded since the last success, and when it is not CLOSED the time of the
    last failure is known. *)
Theorem breaker_invariant o b :
  1 <= failureThreshold o -> reachable o b ->
  0 <= failureCount b /\
  (state b = CLOSED <-> failureCount b < failureThreshold o) /\
  (state b <> CLOSED -> lastFailureTime b <> None).
Proof. apply reachable_inv. Qed.

Lemma breaker_invariant_witness :
  let o := {| failureThreshold := 2; resetTimeoutMs := 100 |} in
  let b := event_step o (event_step o new (Fail 5)) (Fail 9) in
  state b = OPEN /\
  (0 <= failureCount b /\
   (state b = CLOSED <-> failureCount b < failureThreshold o) /\
   (state b <> CLOSED -> lastFailureTime b <> None)).
Proof.
  split; [reflexivity|]. apply breaker_invariant; [simpl; lia|].
  apply reach_step, reach_step, reach_new.
Defined.

(** Fail fast and recover: in a reachable state with [failureThreshold]
    or more recorded failures, a request within [resetTimeoutMs] of the last
    failure is rejected without calling the action when the breaker is OPEN;
    after that delay the request is tried, a success closes the breaker and
    clears the count, and a failure opens it again at once. *)
Lemma breaker_open_behaviour {A E} o b (now now' : Z) (action : settled A E) :
  1 <= failureThreshold o -> reachable o b -> state b = OPEN ->
  let '(b', r, called) := execute o b now now' action in
  (now - default 0 (lastFailureTime b) <= resetTimeoutMs o ->
     b' = b /\ r = err CircuitOpen /\ called = false) /\
  (resetTimeoutMs o < now - default 0 (lastFailureTime b) ->
     called = true /\
     match action with
     | Resolved a => state b' = CLOSED /\ failureCount b' = 0 /\ r = ok a
     | Rejected e => state b' = OPEN /\ lastFailureTime b' = Some now' /\ r = err (ActionFailed e)
     end).
Proof.
  intros Ht Hr Hopen. destruct (reachable_inv o b Ht Hr) as (_ & Hs & _).
  assert (~ failureCount b < failureThreshold o) as Hge.
  { intros H. apply Hs in H. congruence. }
  unfold execute, admit_request. rewrite Hopen.
  destruct (Z.ltb_spec (resetTimeoutMs o) (now - default 0 (lastFailureTime b))) as [Hlt|Hge'].
  - destruct action; simpl; (split; [lia|]); intros _; [done|].
    rewrite (proj2 (Z.leb_le _ _)) by lia. done.
  - split; [done|lia].
Qed.

Lemma breaker_open_behaviour_witness :
  let o := {| failureThreshold := 1; resetTimeoutMs := 100 |} in
  let b := event_step o new (Fail 5) in
  state b = OPEN /\
  let '(b', r, called) := execute o b 50 60 (Resolved tt : settled unit unit) in
  (50 - default 0 (lastFailureTime b) <= resetTimeoutMs o ->
     b' = b /\ r = err CircuitOpen /\ called = false) /\
  (resetTimeoutMs o < 50 - default 0 (lastFailureTime b) ->
     called = true /\ (state b' = CLOSED /\ failureCount b' = 0 /\ r = ok tt)).
Proof.
  split; [reflexivity|].
  apply (breaker_open_behaviour {| failureThreshold := 1; resetTimeoutMs := 100 |}
           (event_step {| failureThreshold := 1; resetTimeoutMs := 100 |} new (Fail 5))
           50 60 (Resolved tt : settled unit unit)).
  - simpl. lia.
  - apply reach_step, reach_new.
  - reflexivity.
Defined.
End Breaker.
