(* ===== verification/GF256.v ===== *)
(** * The field GF(2^8) of the secret-sharing code

    Models the first half of [src/orchestrator/core/utils/threshold.ts]: the
    [EXP] and [LOG] tables built by [init], [multiply] and [divide].  The
    table-driven product is shown to be a field multiplication over the bytes
    with exclusive or as addition, and to be multiplication of polynomials
    modulo 0x11d. *)

From S2P Require Import Prelude.
From Stdlib Require Import Ring Field.

Module GF256.

Definition rd (t : list Z) (i : Z) : Z := default 0 (t !! Z.to_nat i).
Definition wr (t : list Z) (i v : Z) : list Z := <[Z.to_nat i := v]> t.

(** [x <<= 1; if (x & 0x100) x ^= 0x11d;] *)
Definition xtime (x : Z) : Z :=
  let x := Z.shiftl x 1 in
  if negb (Z.land x 256 =? 0) then Z.lxor x 285 else x.

(** The first loop of [init], [n] iterations from index [i] and value [x]. *)
Fixpoint init_loop (n : nat) (i x : Z) (t : list Z * list Z) : list Z * list Z :=
  match n with
  | O => t
  | S n => init_loop n (i + 1) (xtime x) (wr t.1 i x, wr t.2 x i)
  end.

(** The second loop: [EXP[i] = EXP[i - 255]]. *)
Fixpoint extend_loop (n : nat) (i : Z) (ex : list Z) : list Z :=
  match n with
  | O => ex
  | S n => extend_loop n (i + 1) (wr ex i (rd ex (i - 255)))
  end.

Definition init : list Z * list Z :=
  let t := init_loop 255 0 1 (replicate 512 0, replicate 256 0) in
  (extend_loop 257 255 t.1, t.2).

Definition EXP : list Z := Eval vm_compute in init.1.
Definition LOG : list Z := Eval vm_compute in init.2.

Definition multiply (a b : Z) : Z :=
  if (a =? 0) || (b =? 0) then 0 else rd EXP (rd LOG a + rd LOG b).

(** [divide(a, b)]; [None] is the thrown [Error("Div0")]. *)
Definition divide (a b : Z) : option Z :=
  if b =? 0 then None
  else Some (if a =? 0 then 0 else rd EXP (rd LOG a + 255 - rd LOG b)).

(** ** Bytes *)

Definition byte (z : Z) : Prop := 0 <= z < 256.

Definition byteb (z : Z) : bool := (0 <=? z) && (z <? 256).

Lemma byteb_spec z : byteb z = true <-> byte z.
Proof. unfold byteb, byte. rewrite andb_true_iff, Z.leb_le, Z.ltb_lt. lia. Qed.

Definition bytes : list Z := map Z.of_nat (seq 0 256).

Lemma byte_in z : byte z <-> In z bytes.
Proof.
  unfold byte, bytes. rewrite in_map_iff. split.
  - intros H. exists (Z.to_nat z). rewrite in_seq. lia.
  - intros (n & <- & H). apply in_seq in H. lia.
Qed.

(** Facts about all bytes, decided by evaluation. *)
Lemma bytes_forall (P : Z -> bool) :
  forallb P bytes = true -> forall z, byte z -> P z = true.
Proof. intros H z Hz. rewrite forallb_forall in H. apply H. by apply byte_in. Qed.

Lemma bytes_forall2 (P : Z -> Z -> bool) :
  forallb (fun a => forallb (P a) bytes) bytes = true ->
  forall a b, byte a -> byte b -> P a b = true.
Proof. intros H a b Ha Hb. apply (bytes_forall (P a)); [|done]. by apply (bytes_forall _ H). Qed.

Lemma lxor_byte a b : byte a -> byte b -> byte (Z.lxor a b).
Proof.
  intros Ha Hb. apply byteb_spec. revert a b Ha Hb. apply bytes_forall2.
  vm_compute. reflexivity.
Qed.

Lemma multiply_byte a b : byte a -> byte b -> byte (multiply a b).
Proof.
  intros Ha Hb. apply byteb_spec. revert a b Ha Hb. apply bytes_forall2.
  vm_compute. reflexivity.
Qed.

(** ** The tables are inverse bijections *)

Lemma LOG_range a : byte a -> a <> 0 -> 0 <= rd LOG a < 255.
Proof.
  intros Ha Hne.
  assert ((a =? 0) || ((0 <=? rd LOG a) && (rd LOG a <? 255)) = true) as H.
  { revert a Ha Hne. enough (forall a, byte a ->
      (a =? 0) || ((0 <=? rd LOG a) && (rd LOG a <? 255)) = true) by auto.
    apply bytes_forall. vm_compute. reflexivity. }
  apply orb_true_iff in H as [H|H]; reflect_bools; lia.
Qed.

Lemma EXP_LOG a : byte a -> a <> 0 -> rd EXP (rd LOG a) = a.
Proof.
  intros Ha Hne. enough ((a =? 0) || (rd EXP (rd LOG a) =? a) = true) as H.
  { apply orb_true_iff in H as [H|H]; reflect_bools; lia. }
  revert a Ha Hne. enough (forall a, byte a -> (a =? 0) || (rd EXP (rd LOG a) =? a) = true) by auto.
  apply bytes_forall. vm_compute. reflexivity.
Qed.

Lemma LOG_EXP i : 0 <= i < 255 -> rd LOG (rd EXP i) = i.
Proof.
  intros Hi. enough ((i =? 255) || (rd LOG (rd EXP i) =? i) = true) as H.
  { apply orb_true_iff in H as [H|H]; reflect_bools; lia. }
  apply (bytes_forall (fun i => (i =? 255) || (rd LOG (rd EXP i) =? i)));
    [vm_compute; reflexivity|unfold byte; lia].
Qed.

Lemma EXP_range i : 0 <= i < 512 -> byte (rd EXP i) /\ rd EXP i <> 0.
Proof.
  intros Hi. set (P := fun i => byteb (rd EXP i) && negb (rd EXP i =? 0)).
  assert (P i = true) as H.
  { assert (forallb P (map Z.of_nat (seq 0 512)) = true) as HP by (vm_compute; reflexivity).
    rewrite forallb_forall in HP. apply HP. rewrite in_map_iff.
    exists (Z.to_nat i). rewrite in_seq. lia. }
  unfold P in H. apply andb_true_iff in H as [H1 H2]. apply byteb_spec in H1.
  reflect_bools. done.
Qed.

Lemma EXP_period i : 0 <= i < 257 -> rd EXP (i + 255) = rd EXP i.
Proof.
  intros Hi. set (P := fun i => rd EXP (i + 255) =? rd EXP i).
  assert (P i = true) as H; [|by apply Z.eqb_eq in H].
  assert (forallb P (map Z.of_nat (seq 0 257)) = true) as HP by (vm_compute; reflexivity).
  rewrite forallb_forall in HP. apply HP. rewrite in_map_iff.
  exists (Z.to_nat i). rewrite in_seq. lia.
Qed.

Lemma EXP_mod i : 0 <= i < 510 -> rd EXP i = rd EXP (i mod 255).
Proof.
  intros Hi. destruct (Z.lt_ge_cases i 255).
  - by rewrite Z.mod_small by lia.
  - replace i with ((i - 255) + 1 * 255) at 2 by lia. rewrite Z.mod_add by lia.
    rewrite Z.mod_small by lia. rewrite <- (EXP_period (i - 255)) by lia. f_equal. lia.
Qed.

(** The product of non-zero bytes adds logarithms modulo 255. *)
Lemma multiply_log a b :
  byte a -> byte b -> a <> 0 -> b <> 0 ->
  multiply a b = rd EXP ((rd LOG a + rd LOG b) mod 255).
Proof.
  intros Ha Hb Ha0 Hb0. unfold multiply.
  rewrite (proj2 (Z.eqb_neq a 0) Ha0), (proj2 (Z.eqb_neq b 0) Hb0). simpl.
  pose proof (LOG_range a Ha Ha0). pose proof (LOG_range b Hb Hb0).
  apply EXP_mod. lia.
Qed.

Lemma multiply_0_l a : multiply 0 a = 0.
Proof. done. Qed.

Lemma multiply_0_r a : multiply a 0 = 0.
Proof. unfold multiply. by rewrite orb_true_r. Qed.

Lemma multiply_nonzero a b :
  byte a -> byte b -> a <> 0 -> b <> 0 -> multiply a b <> 0.
Proof.
  intros. rewrite multiply_log by done. apply EXP_range.
  pose proof (Z.mod_pos_bound (rd LOG a + rd LOG b) 255). lia.
Qed.

Lemma LOG_multiply a b :
  byte a -> byte b -> a <> 0 -> b <> 0 ->
  rd LOG (multiply a b) = (rd LOG a + rd LOG b) mod 255.
Proof.
  intros. rewrite multiply_log by done. apply LOG_EXP. apply Z.mod_pos_bound. lia.
Qed.

Lemma multiply_comm a b : byte a -> byte b -> multiply a b = multiply b a.
Proof. intros Ha Hb. unfold multiply. by rewrite orb_comm, Z.add_comm. Qed.

Lemma multiply_1_l a : byte a -> multiply 1 a = a.
Proof.
  intros Ha. apply Z.eqb_eq. revert a Ha. apply bytes_forall. vm_compute. reflexivity.
Qed.

Lemma multiply_assoc a b c : byte a -> byte b -> byte c ->
  multiply a (multiply b c) = multiply (multiply a b) c.
Proof.
  intros Ha Hb Hc.
  destruct (Z.eq_dec a 0) as [->|Ha0]; [done|].
  destruct (Z.eq_dec b 0) as [->|Hb0]; [by rewrite multiply_0_l, !multiply_0_r|].
  destruct (Z.eq_dec c 0) as [->|Hc0]; [by rewrite !multiply_0_r|].
  rewrite (multiply_log a), (multiply_log (multiply a b)), !LOG_multiply;
    auto using multiply_byte, multiply_nonzero.
  by rewrite Z.add_mod_idemp_r, Z.add_mod_idemp_l, Z.add_assoc by lia.
Qed.

(** ** Distributivity: multiplication by a power of two is linear *)

Lemma xtime_xor a b : byte a -> byte b -> xtime (Z.lxor a b) = Z.lxor (xtime a) (xtime b).
Proof.
  intros Ha Hb. apply Z.eqb_eq. revert a b Ha Hb. apply bytes_forall2.
  vm_compute. reflexivity.
Qed.

Lemma multiply_2 a : byte a -> multiply a 2 = xtime a.
Proof. intros Ha. apply Z.eqb_eq. revert a Ha. apply bytes_forall. vm_compute. reflexivity. Qed.

Lemma EXP_succ i : 0 <= i < 254 -> rd EXP (i + 1) = multiply (rd EXP i) 2.
Proof.
  intros Hi. destruct (EXP_range i) as [Hb Hn]; [lia|].
  rewrite multiply_log by (done || (unfold byte; lia) || lia).
  rewrite LOG_EXP by lia. assert (rd LOG 2 = 1) as -> by (vm_compute; reflexivity).
  by rewrite Z.mod_small by lia.
Qed.

Lemma multiply_EXP_xor n : (n < 255)%nat -> forall a b, byte a -> byte b ->
  multiply (Z.lxor a b) (rd EXP (Z.of_nat n)) =
  Z.lxor (multiply a (rd EXP (Z.of_nat n))) (multiply b (rd EXP (Z.of_nat n))).
Proof.
  induction n as [|n IH]; intros Hn a b Ha Hb.
  - assert (rd EXP (Z.of_nat 0) = 1) as -> by (vm_compute; reflexivity).
    rewrite !(multiply_comm _ 1), !multiply_1_l;
      auto using lxor_byte; unfold byte; lia.
  - rewrite Nat2Z.inj_succ, <- Z.add_1_r, EXP_succ by lia.
    destruct (EXP_range (Z.of_nat n)) as [He _]; [lia|].
    assert (byte 2) as H2 by (unfold byte; lia).
    rewrite !multiply_assoc by auto using lxor_byte.
    rewrite IH by (done || lia). rewrite !multiply_2 by auto using lxor_byte, multiply_byte.
    apply xtime_xor; by apply multiply_byte.
Qed.

Lemma multiply_xor_l a b c : byte a -> byte b -> byte c ->
  multiply (Z.lxor a b) c = Z.lxor (multiply a c) (multiply b c).
Proof.
  intros Ha Hb Hc. destruct (Z.eq_dec c 0) as [->|Hc0]; [by rewrite !multiply_0_r|].
  pose proof (LOG_range c Hc Hc0).
  rewrite <- (EXP_LOG c) by done.
  rewrite <- (Z2Nat.id (rd LOG c)) by lia.
  apply multiply_EXP_xor; [lia|done..].
Qed.

Lemma divide_multiply a b q : byte a -> byte b -> divide a b = Some q ->
  byte q /\ multiply q b = a /\ b <> 0.
Proof.
  intros Ha Hb Hd. unfold divide in Hd. destruct (Z.eqb_spec b 0) as [|Hb0]; [done|].
  simplify_eq. destruct (Z.eqb_spec a 0) as [->|Ha0].
  { split_and!; [unfold byte; lia|apply multiply_0_l|done]. }
  pose proof (LOG_range a Ha Ha0). pose proof (LOG_range b Hb Hb0).
  destruct (EXP_range (rd LOG a + 255 - rd LOG b)) as [Hq Hq0]; [lia|].
  split_and!; [done| |done].
  rewrite multiply_log by done.
  rewrite (EXP_mod (rd LOG a + 255 - rd LOG b)) by lia. rewrite LOG_EXP by (apply Z.mod_pos_bound; lia).
  rewrite Z.add_mod_idemp_l by lia.
  replace (rd LOG a + 255 - rd LOG b + rd LOG b) with (rd LOG a + 1 * 255) by lia.
  rewrite Z.mod_add, Z.mod_small by lia. by apply EXP_LOG.
Qed.

(** ** The reference product *)

(** Schoolbook multiplication of polynomials over GF(2), reduced by
    x^8 + x^4 + x^3 + x^2 + 1 (0x11d): Horner's rule over the bits of [b]. *)
Definition poly_mul (a b : Z) : Z :=
  fold_left (fun acc i => Z.lxor (xtime acc) (if Z.testbit b i then a else 0))
    [7; 6; 5; 4; 3; 2; 1; 0] 0.

Lemma multiply_poly_mul a b : byte a -> byte b -> multiply a b = poly_mul a b.
Proof.
  intros Ha Hb. apply Z.eqb_eq. revert a b Ha Hb. apply bytes_forall2.
  vm_compute. reflexivity.
Qed.

(** ** The bytes as a field *)

Record gf := mk_gf { val : Z; val_ok : byteb val = true }.

Lemma gf_eq (a b : gf) : val a = val b -> a = b.
Proof.
  destruct a as [a Ha], b as [b Hb]. simpl. intros ->. f_equal. apply proof_irrel.
Qed.

Lemma val_byte (a : gf) : byte (val a).
Proof. apply byteb_spec, val_ok. Qed.

Definition of_Z (z : Z) : gf :=
  match Bool.bool_dec (byteb z) true with
  | left H => mk_gf z H
  | right _ => mk_gf 0 eq_refl
  end.

Lemma val_of_Z z : byte z -> val (of_Z z) = z.
Proof.
  intros Hz. unfold of_Z. destruct (Bool.bool_dec (byteb z) true) as [|n]; [done|].
  by apply byteb_spec in Hz.
Qed.

Lemma of_val a : of_Z (val a) = a.
Proof. apply gf_eq, val_of_Z, val_byte. Qed.

Definition g0 : gf := of_Z 0.
Definition g1 : gf := of_Z 1.
Definition gadd (a b : gf) : gf := of_Z (Z.lxor (val a) (val b)).
Definition gmul (a b : gf) : gf := of_Z (multiply (val a) (val b)).
Definition gopp (a : gf) : gf := a.
Definition gsub (a b : gf) : gf := gadd a (gopp b).
Definition gdiv (a b : gf) : gf := of_Z (default 0 (divide (val a) (val b))).
Definition ginv (a : gf) : gf := gdiv g1 a.

#[export] Instance gf_eq_dec : EqDecision gf.
Proof.
  intros a b. destruct (decide (val a = val b)) as [H|H].
  - left. by apply gf_eq.
  - right. intros ->. done.
Defined.

Lemma val_g0 : val g0 = 0. Proof. reflexivity. Qed.
Lemma val_g1 : val g1 = 1. Proof. reflexivity. Qed.
Lemma val_add a b : val (gadd a b) = Z.lxor (val a) (val b).
Proof. apply val_of_Z, lxor_byte; apply val_byte. Qed.
Lemma val_mul a b : val (gmul a b) = multiply (val a) (val b).
Proof. apply val_of_Z, multiply_byte; apply val_byte. Qed.
Lemma val_div a b : val b <> 0 -> divide (val a) (val b) = Some (val (gdiv a b)).
Proof.
  intros Hb. unfold gdiv. destruct (divide (val a) (val b)) as [q|] eqn:E.
  - destruct (divide_multiply (val a) (val b) q) as [Hq _]; [apply val_byte..|done|].
    simpl. by rewrite val_of_Z.
  - unfold divide in E. by destruct (Z.eqb_spec (val b) 0).
Qed.

Lemma gf_ring : ring_theory g0 g1 gadd gmul gsub gopp eq.
Proof.
  split; intros; apply gf_eq; unfold gsub, gopp; rewrite ?val_add, ?val_mul, ?val_add, ?val_g0, ?val_g1.
  - apply Z.lxor_0_l.
  - apply Z.lxor_comm.
  - by rewrite Z.lxor_assoc.
  - apply multiply_1_l, val_byte.
  - apply multiply_comm; apply val_byte.
  - apply multiply_assoc; apply val_byte.
  - rewrite multiply_xor_l; auto using val_byte.
  - done.
  - apply Z.lxor_nilpotent.
Qed.

Lemma gf_field : field_theory g0 g1 gadd gmul gsub gopp gdiv ginv eq.
Proof.
  assert (forall a b : gf, b <> g0 -> gmul (gdiv a b) b = a) as Hdiv.
  { intros a b Hb. assert (val b <> 0) as Hb0.
    { intros E. apply Hb, gf_eq. by rewrite E, val_g0. }
    destruct (divide_multiply (val a) (val b) _ (val_byte a) (val_byte b)
      (val_div a b Hb0)) as (_ & Hm & _).
    apply gf_eq. by rewrite val_mul. }
  split.
  - exact gf_ring.
  - intros E. by apply (f_equal val) in E.
  - intros a b. unfold ginv. apply gf_eq.
    destruct (Z.eq_dec (val b) 0) as [Hb|Hb].
    { rewrite val_mul. unfold gdiv, divide. rewrite Hb. simpl. by rewrite multiply_0_r. }
    assert (b <> g0) as Hb0 by (intros ->; by rewrite val_g0 in Hb).
    enough (gdiv a b = gmul a (gdiv g1 b)) as -> by done.
    pose proof (Hdiv a b Hb0) as H1. pose proof (Hdiv g1 b Hb0) as H2.
    pose proof gf_ring as R.
    transitivity (gmul (gdiv a b) (gmul (gdiv g1 b) b)).
    { rewrite H2. rewrite (Rmul_comm R). symmetry. apply (Rmul_1_l R). }
    rewrite (Rmul_comm R (gdiv g1 b)), (Rmul_assoc R), H1. done.
  - intros a Ha. by apply Hdiv.
Qed.

(** ** Property *)

(** C21: the table-driven [multiply] is multiplication in GF(2^8) with the
    primitive polynomial 0x11d: it agrees with the schoolbook polynomial
    product on all pairs of bytes, the bytes form a field under it with
    exclusive or as addition, and [divide] is division in that field. *)
Theorem multiply_is_field_product :
  (forall a b, byte a -> byte b -> multiply a b = poly_mul a b) /\
  field_theory g0 g1 gadd gmul gsub gopp gdiv ginv eq /\
  (forall a b : gf, val (gmul a b) = multiply (val a) (val b)) /\
  (forall a b : gf, val b <> 0 -> divide (val a) (val b) = Some (val (gdiv a b))).
Proof.
  split_and!; [apply multiply_poly_mul|apply gf_field|apply val_mul|apply val_div].
Qed.
End GF256.
