(* ===== verification/Lagrange.v ===== *)
(** * Lagrange interpolation over a field

    The algebra behind secret reconstruction: a polynomial with at most as
    many coefficients as there are distinct points is the combination of its
    values at these points by the Lagrange basis. *)

From S2P Require Import Prelude.
From Stdlib Require Import Ring Field.

Section lagrange.
Context {F : Type} `{EqDecision F}.
Context (f0 f1 : F) (fadd fmul fsub : F -> F -> F) (fopp : F -> F)
        (fdiv : F -> F -> F) (finv : F -> F).
Context (Fth : field_theory f0 f1 fadd fmul fsub fopp fdiv finv eq).

Add Field lagrange_field : Fth.

Local Notation "0" := f0.
Local Notation "1" := f1.
Local Infix "+" := fadd.
Local Infix "*" := fmul.
Local Infix "-" := fsub.
Local Infix "/" := fdiv.

Definition suml (l : list F) : F := foldr fadd 0 l.
Definition prodl (l : list F) : F := foldr fmul 1 l.

(** Horner evaluation, constant coefficient first. *)
Definition peval (p : list F) (x : F) : F := foldr (fun c y => y * x + c) 0 p.

Fixpoint fpow (x : F) (n : nat) : F := match n with O => 1 | S n => x * fpow x n end.

(** The basis polynomial of the point [x], at [z]. *)
Definition basis (xs : list F) (x z : F) : F :=
  prodl (map (fun y => (z - y) / (x - y)) (base.filter (fun y => y <> x) xs)).

(** The interpolation of the values [f] at the points [xs], at [z]. *)
Definition lag (xs : list F) (f : F -> F) (z : F) : F :=
  suml (map (fun x => f x * basis xs x z) xs).

Lemma sub_nonzero (a b : F) : a <> b -> a - b <> 0.
Proof. intros Hne H0. apply Hne. transitivity (a - b + b); [ring|]. rewrite H0. ring. Qed.

Lemma suml_ext_in (g h : F -> F) xs :
  (forall x, x ∈ xs -> g x = h x) -> suml (map g xs) = suml (map h xs).
Proof.
  induction xs as [|x xs IH]; intros Hgh; simpl; [done|].
  rewrite Hgh by set_solver. f_equal. apply IH. intros; apply Hgh; set_solver.
Qed.

Lemma suml_scale (c : F) (g : F -> F) xs :
  suml (map (fun x => c * g x) xs) = c * suml (map g xs).
Proof. induction xs as [|x xs IH]; simpl; [ring|]. rewrite IH. ring. Qed.

Lemma suml_add (g h : F -> F) xs :
  suml (map (fun x => g x + h x) xs) = suml (map g xs) + suml (map h xs).
Proof. induction xs as [|x xs IH]; simpl; [ring|]. rewrite IH. ring. Qed.

Lemma suml_perm l l' : l ≡ₚ l' -> suml l = suml l'.
Proof.
  unfold suml. induction 1 as [|x l l' _ IH|x y l|l1 l2 l3 _ IH1 _ IH2]; simpl;
    [done|by rewrite IH|ring|congruence].
Qed.

Lemma prodl_perm l l' : l ≡ₚ l' -> prodl l = prodl l'.
Proof.
  unfold prodl. induction 1 as [|x l l' _ IH|x y l|l1 l2 l3 _ IH1 _ IH2]; simpl;
    [done|by rewrite IH|ring|congruence].
Qed.

Lemma basis_perm xs ys x z : xs ≡ₚ ys -> basis xs x z = basis ys x z.
Proof. intros Hp. unfold basis. apply prodl_perm, Permutation_map. by rewrite Hp. Qed.

Lemma lag_perm xs ys f z : xs ≡ₚ ys -> lag xs f z = lag ys f z.
Proof.
  intros Hp. unfold lag. transitivity (suml (map (fun x => f x * basis xs x z) ys)).
  - by apply suml_perm, Permutation_map.
  - apply suml_ext_in. intros x _. by rewrite (basis_perm xs ys).
Qed.

Lemma lag_ext xs f g z : (forall x, x ∈ xs -> f x = g x) -> lag xs f z = lag xs g z.
Proof. intros H. apply suml_ext_in. intros x Hx. by rewrite H. Qed.

Lemma lag_scale xs c f z : lag xs (fun x => c * f x) z = c * lag xs f z.
Proof. unfold lag. rewrite <- suml_scale. apply suml_ext_in. intros; ring. Qed.

Lemma lag_add xs f g z : lag xs (fun x => f x + g x) z = lag xs f z + lag xs g z.
Proof. unfold lag. rewrite <- suml_add. apply suml_ext_in. intros; ring. Qed.

(** Factoring out a root removes its point. *)
Lemma lag_factor x0 xs f z :
  x0 ∉ xs -> lag (x0 :: xs) (fun x => (x - x0) * f x) z = (z - x0) * lag xs f z.
Proof.
  intros Hx0. unfold lag. simpl.
  transitivity (0 + suml (map (fun x => (z - x0) * (f x * basis xs x z)) xs)).
  - f_equal; [ring|]. apply suml_ext_in. intros x Hx.
    assert (x0 <> x) as Hne by (intros ->; done).
    unfold basis at 1. rewrite filter_cons_True by done. simpl.
    fold (basis xs x z). field. apply sub_nonzero. congruence.
  - rewrite suml_scale. ring.
Qed.

(** The basis polynomials sum to one. *)
Lemma lag_one n : forall xs z, length xs = S n -> NoDup xs -> lag xs (fun _ => 1) z = 1.
Proof.
  induction n as [|n IH]; intros [|a [|b xs]] z Hlen Hnd; simpl in Hlen; try lia.
  - unfold lag, basis. simpl. rewrite filter_cons_False by tauto. simpl. ring.
  - apply NoDup_cons in Hnd as [Ha Hnd]. apply NoDup_cons in Hnd as [Hb Hnd].
    assert (a <> b) as Hab by set_solver.
    assert (lag (a :: b :: xs) (fun x => (x - a) * 1) z = z - a) as H1.
    { rewrite lag_factor by done. rewrite IH; [ring|simpl; lia|]. by apply NoDup_cons. }
    assert (lag (a :: b :: xs) (fun x => (x - b) * 1) z = z - b) as H2.
    { rewrite (lag_perm _ (b :: a :: xs)) by apply perm_swap.
      rewrite lag_factor by set_solver. rewrite IH; [ring|simpl; lia|].
      apply NoDup_cons. set_solver. }
    assert ((a - b) * lag (a :: b :: xs) (fun _ => 1) z = a - b) as H3.
    { rewrite <- lag_scale.
      rewrite (lag_ext _ _ (fun x => (x - b) * 1 + (fopp 1) * ((x - a) * 1)))
        by (intros; ring).
      rewrite lag_add, lag_scale, H1, H2. ring. }
    pose proof (sub_nonzero a b Hab) as Hne.
    transitivity ((a - b) * lag (a :: b :: xs) (fun _ => 1) z / (a - b)); [by field|].
    rewrite H3. by field.
Qed.

Lemma lag_pow d : forall xs z,
  (d < length xs)%nat -> NoDup xs -> lag xs (fun x => fpow x d) z = fpow z d.
Proof.
  induction d as [|d IH]; intros xs z Hlen Hnd.
  - destruct (length xs) as [|n] eqn:E; [lia|]. by apply (lag_one n).
  - destruct xs as [|x0 xs]; [simpl in Hlen; lia|]. simpl in Hlen.
    pose proof Hnd as Hnd0. apply NoDup_cons in Hnd0 as [Hx0 Hnd'].
    rewrite (lag_ext _ _ (fun x => (x - x0) * fpow x d + x0 * fpow x d))
      by (intros; simpl; ring).
    rewrite lag_add, lag_factor, lag_scale by done.
    rewrite !IH by (done || simpl; lia). simpl. ring.
Qed.

Lemma lag_shifted p : forall d xs z,
  (d + length p <= length xs)%nat -> NoDup xs ->
  lag xs (fun x => fpow x d * peval p x) z = fpow z d * peval p z.
Proof.
  induction p as [|c p IH]; intros d xs z Hlen Hnd.
  - rewrite (lag_ext _ _ (fun x => 0 * f1)) by (intros; simpl; ring).
    rewrite lag_scale. simpl. ring.
  - simpl in Hlen.
    rewrite (lag_ext _ _ (fun x => c * fpow x d + fpow x (S d) * peval p x))
      by (intros; simpl; ring).
    rewrite lag_add, lag_scale, lag_pow, IH by (done || lia). simpl. ring.
Qed.

(** Interpolation is exact on polynomials with no more coefficients than points. *)
Lemma lagrange_exact p xs z :
  (length p <= length xs)%nat -> NoDup xs -> lag xs (peval p) z = peval p z.
Proof.
  intros Hlen Hnd. rewrite (lag_ext _ _ (fun x => fpow x 0 * peval p x))
    by (intros; simpl; ring).
  rewrite lag_shifted by done. simpl. ring.
Qed.

(** ** Existence of an interpolating polynomial *)

Definition pscale (c : F) (p : list F) : list F := map (fmul c) p.

Fixpoint padd (p q : list F) : list F :=
  match p, q with
  | [], q => q
  | p, [] => p
  | a :: p, b :: q => (a + b) :: padd p q
  end.

(** The product with the linear factor [x - a]. *)
Definition pmul_root (a : F) (p : list F) : list F := padd (pscale (fopp a) p) (0 :: p).

Definition vanishing (xs : list F) : list F := foldr pmul_root [1] xs.

Lemma peval_scale c p x : peval (pscale c p) x = c * peval p x.
Proof. induction p as [|a p IH]; simpl; [ring|]. rewrite IH. ring. Qed.

Lemma peval_add p q x : peval (padd p q) x = peval p x + peval q x.
Proof.
  revert q. induction p as [|a p IH]; intros [|b q]; simpl; try ring. rewrite IH. ring.
Qed.

Lemma length_padd p q : length (padd p q) = max (length p) (length q).
Proof. revert q. induction p as [|a p IH]; intros [|b q]; simpl; auto. Qed.

Lemma peval_root a p x : peval (pmul_root a p) x = (x - a) * peval p x.
Proof. unfold pmul_root. rewrite peval_add, peval_scale. simpl. ring. Qed.

Lemma vanishing_length xs : length (vanishing xs) = S (length xs).
Proof.
  induction xs as [|x xs IH]; simpl; [done|]. unfold pmul_root, pscale.
  rewrite length_padd, length_map. simpl. lia.
Qed.

Lemma mul_nonzero (a b : F) : a <> 0 -> b <> 0 -> a * b <> 0.
Proof.
  intros Ha Hb H0. apply Ha. transitivity (a * b / b); [by field|]. rewrite H0. by field.
Qed.

Lemma vanishing_zero xs x : x ∈ xs -> peval (vanishing xs) x = 0.
Proof.
  induction xs as [|y xs IH]; [set_solver|]. intros Hx. simpl. rewrite peval_root.
  apply elem_of_cons in Hx as [->|Hx]; [ring|]. rewrite IH by done. ring.
Qed.

Lemma vanishing_nonzero xs x : x ∉ xs -> peval (vanishing xs) x <> 0.
Proof.
  induction xs as [|y xs IH]; intros Hx; simpl.
  - intros H. apply (F_1_neq_0 Fth). rewrite <- H. ring.
  - rewrite peval_root. apply mul_nonzero; [apply sub_nonzero; set_solver|apply IH; set_solver].
Qed.

(** Any values at distinct points are those of a polynomial with one
    coefficient per point. *)
Lemma interpolation_exists (f : F -> F) xs :
  NoDup xs -> exists p, length p = length xs /\ forall x, x ∈ xs -> peval p x = f x.
Proof.
  induction xs as [|x0 xs IH]; intros Hnd; [exists []; split; [done|set_solver]|].
  apply NoDup_cons in Hnd as [Hx0 Hnd]. destruct (IH Hnd) as (p & Hlen & Hp).
  pose proof (vanishing_nonzero xs x0 Hx0) as Hw.
  exists (padd p (pscale ((f x0 - peval p x0) / peval (vanishing xs) x0) (vanishing xs))).
  split.
  - rewrite length_padd. unfold pscale. rewrite length_map, vanishing_length. simpl. lia.
  - intros x Hx. rewrite peval_add, peval_scale.
    apply elem_of_cons in Hx as [->|Hx]; [by field|].
    rewrite (Hp x), (vanishing_zero xs x) by done. by field.
Qed.
End lagrange.
