(* ===== verification/Threshold.v ===== *)
(** * Shamir's secret sharing

    Models the second half of [src/orchestrator/core/utils/threshold.ts]:
    [splitSecret] and [reconstructSecret].  Random coefficients are an input;
    a thrown exception is [None].  The inner loop of [reconstructSecret] has
    the condition [j < shares.length], which never changes inside it, and ends
    by its [break]s: it is modelled with fuel, and shown to end. *)

From S2P Require Import Prelude GF256 Lagrange.
From Stdlib Require Import Ring Field.

Module Threshold.
Import GF256.

Record SecretShare := mkShare { index : Z; data : list Z }.

(** [poly]: [k] bytes, the secret byte then the random ones. *)
Definition poly (k : nat) (secret : Z) (random : list Z) : list Z := take k (secret :: random).

(** [for (exp = k - 1; exp >= 0; exp--) y = multiply(y, x) ^ poly[exp]] *)
Definition evalPoly (poly : list Z) (x : Z) : Z :=
  foldr (fun c y => Z.lxor (multiply y x) c) 0 poly.

(** [splitSecret(secret, n, k)]; [random i] are the coefficients drawn for byte [i]. *)
Definition splitSecret (secret : list Z) (n k : nat) (random : nat -> list Z) : list SecretShare :=
  map (fun j =>
         let x := Z.of_nat j + 1 in
         mkShare x (imap (fun i s => evalPoly (poly k s (random i)) x) secret))
    (seq 0 n).

(** [shares[m].index] *)
Definition index_at (shares : list SecretShare) (m : nat) : Z :=
  default 0 (index <$> shares !! m).

(** The inner [for] over [m], for the share [j]. *)
Fixpoint basis_loop (fuel : nat) (shares : list SecretShare) (j m : nat) (basis : Z) : option Z :=
  match fuel with
  | O => None
  | S fuel =>
      if decide (j = m) then
        if decide (m = length shares - 1)%nat then Some basis
        else basis_loop fuel shares j (S m) basis
      else
        let num := index_at shares m in
        let den := Z.lxor (index_at shares j) (index_at shares m) in
        match divide num den with
        | None => None
        | Some q =>
            let basis := multiply basis q in
            if decide (m = length shares - 1)%nat then Some basis
            else basis_loop fuel shares j (S m) basis
        end
  end.

(** [shares[j].data[i]]: past the end it is [undefined], and the term vanishes. *)
Definition data_at (s : SecretShare) (i : nat) : Z := default 0 (data s !! i).

(** The [for] over [j]: from share [j] on, [rest] being the shares left. *)
Fixpoint byte_loop (shares rest : list SecretShare) (i j : nat) (result : Z) : option Z :=
  match rest with
  | [] => Some result
  | s :: rest =>
      match basis_loop (length shares) shares j 0 1 with
      | None => None
      | Some basis =>
          byte_loop shares rest i (S j) (Z.lxor result (multiply (data_at s i) basis))
      end
  end.

Definition reconstructByte (shares : list SecretShare) (i : nat) : option Z :=
  byte_loop shares shares i 0 0.

Definition reconstructSecret (shares : list SecretShare) : option (list Z) :=
  match shares with
  | [] => None
  | s :: _ => mapM (reconstructByte shares) (seq 0 (length (data s)))
  end.

(** ** From bytes to the field *)

Add Field gf256_field : gf_field.

Local Notation peval := (peval g0 gadd gmul).
Local Notation lag := (lag g0 g1 gadd gmul gsub gdiv).
Local Notation prodl := (prodl g1 gmul).

Lemma g_sub_0 y : gsub g0 y = y.
Proof. apply gf_eq. unfold gsub, gopp. rewrite val_add, val_g0. apply Z.lxor_0_l. Qed.

Lemma evalPoly_peval (p : list gf) (x : gf) :
  evalPoly (map val p) (val x) = val (peval p x).
Proof.
  induction p as [|c p IH]; [done|].
  change (Z.lxor (multiply (evalPoly (map val p) (val x)) (val x)) (val c)
          = val (gadd (gmul (peval p x) x) c)).
  by rewrite val_add, val_mul, IH.
Qed.

Lemma map_val_of_Z l : Forall byte l -> map val (map of_Z l) = l.
Proof.
  induction 1 as [|z l Hz _ IH]; simpl; [done|]. by rewrite val_of_Z, IH.
Qed.

(** The shares of the points [xs]. *)
Definition xs_of (shares : list SecretShare) : list gf := map (fun s => of_Z (index s)) shares.

Definition valid_indices (shares : list SecretShare) : Prop :=
  Forall (fun s => byte (index s)) shares /\ NoDup (map index shares).

Lemma index_at_val shares m x :
  Forall (fun s => byte (index s)) shares ->
  xs_of shares !! m = Some x -> index_at shares m = val x.
Proof.
  intros Hb Hm. unfold xs_of in Hm. rewrite list_lookup_fmap in Hm.
  unfold index_at. destruct (shares !! m) as [s|] eqn:E; simpl in *; [|done].
  simplify_eq. rewrite val_of_Z; [done|]. by apply (Forall_lookup_1 _ _ _ _ Hb E).
Qed.

Lemma xs_NoDup shares : valid_indices shares -> NoDup (xs_of shares).
Proof.
  intros [Hb Hnd]. unfold xs_of. rewrite <- (map_map index of_Z).
  assert (Forall byte (map index shares)) as Hb' by (by apply Forall_fmap).
  revert Hb' Hnd. generalize (map index shares). intros l Hl Hnd.
  apply NoDup_fmap_2_strong; [|done]. intros x y Hx Hy Heq.
  rewrite Forall_forall in Hl. apply (f_equal val) in Heq.
  by rewrite !val_of_Z in Heq by auto.
Qed.

(** The loop over [m] computes the Lagrange basis at zero. *)
Lemma basis_loop_spec shares j xj : valid_indices shares ->
  xs_of shares !! j = Some xj ->
  forall fuel m acc, (m < length shares)%nat -> (length shares - m <= fuel)%nat ->
  basis_loop fuel shares j m (val acc) =
  Some (val (gmul acc (prodl (map (fun y => gdiv (gsub g0 y) (gsub xj y))
                               (base.filter (fun y => y <> xj) (drop m (xs_of shares))))))).
Proof.
  intros Hval Hj. pose proof (xs_NoDup shares Hval) as Hnd. destruct Hval as [Hb _].
  assert (length (xs_of shares) = length shares) as Hlen by apply length_map.
  induction fuel as [|fuel IH]; intros m acc Hm Hf; [lia|]. simpl.
  destruct (lookup_lt_is_Some_2 (xs_of shares) m ltac:(lia)) as [xm Hxm].
  rewrite (drop_S _ _ _ Hxm).
  assert (m = length shares - 1 -> drop (S m) (xs_of shares) = [])%nat as Hlast
    by (intros; apply drop_ge; lia).
  case_decide as Hjm.
  - subst m. assert (xm = xj) as -> by congruence.
    rewrite filter_cons_False by tauto.
    case_decide as Hend; [rewrite Hlast by done; simpl; do 2 f_equal; ring|].
    apply IH; lia.
  - assert (xm <> xj) as Hne.
    { intros ->. apply Hjm. by eapply (NoDup_lookup (xs_of shares)). }
    rewrite filter_cons_True by done. cbn [map foldr prodl].
    rewrite (index_at_val _ _ _ Hb Hj), (index_at_val _ _ _ Hb Hxm).
    assert (Z.lxor (val xj) (val xm) = val (gsub xj xm)) as ->
      by (unfold gsub, gopp; by rewrite val_add).
    assert (val (gsub xj xm) <> 0) as Hden.
    { unfold gsub, gopp. rewrite val_add. intros E. apply Hne, gf_eq. symmetry.
      by apply Z.lxor_eq. }
    rewrite val_div by done. rewrite g_sub_0, <- val_mul. unfold Lagrange.prodl. simpl.
    fold (Lagrange.prodl g1 gmul).
    case_decide as Hend.
    + rewrite Hlast by done. simpl. do 2 f_equal. ring.
    + rewrite IH by lia. do 2 f_equal. unfold Lagrange.prodl. ring.
Qed.

Local Notation suml := (suml g0 gadd).
Local Notation basis := (basis g1 gmul gsub gdiv).

Lemma basis_loop_basis shares j s :
  valid_indices shares -> shares !! j = Some s ->
  basis_loop (length shares) shares j 0 1
  = Some (val (basis (xs_of shares) (of_Z (index s)) g0)).
Proof.
  intros Hval Hj. pose proof (lookup_lt_Some _ _ _ Hj).
  assert (xs_of shares !! j = Some (of_Z (index s))) as Hxj
    by (unfold xs_of; by rewrite list_lookup_fmap, Hj).
  change (basis_loop (length shares) shares j 0 1)
    with (basis_loop (length shares) shares j 0 (val g1)).
  rewrite (basis_loop_spec shares j _ Hval Hxj) by lia.
  do 2 f_equal. rewrite drop_0. unfold Lagrange.basis. ring.
Qed.

(** The loop over [j] computes the interpolation at zero. *)
Lemma byte_loop_spec shares i : valid_indices shares -> forall rest j acc,
  drop j shares = rest -> Forall (fun s => byte (data_at s i)) rest ->
  byte_loop shares rest i j (val acc) =
  Some (val (gadd acc (suml (map (fun s => gmul (of_Z (data_at s i))
                                   (basis (xs_of shares) (of_Z (index s)) g0)) rest)))).
Proof.
  intros Hval. induction rest as [|s rest IH]; intros j acc Hdrop Hdata; simpl.
  { do 2 f_equal. ring. }
  apply Forall_cons in Hdata as [Hs Hdata].
  assert (shares !! j = Some s) as Hj.
  { rewrite <- (Nat.add_0_r j), <- lookup_drop, Hdrop. done. }
  rewrite (basis_loop_basis shares j s Hval Hj).
  rewrite <- (val_of_Z (data_at s i)) by done. rewrite <- val_mul, <- val_add, of_val.
  rewrite IH; [|by rewrite <- Nat.add_1_r, <- drop_drop, Hdrop|done].
  do 2 f_equal. ring.
Qed.

Lemma reconstructByte_spec shares i (p : list gf) :
  valid_indices shares -> (length p <= length shares)%nat ->
  Forall (fun s => data_at s i = val (peval p (of_Z (index s)))) shares ->
  reconstructByte shares i = Some (val (peval p g0)).
Proof.
  intros Hval Hlen Hdata. unfold reconstructByte.
  change (byte_loop shares shares i 0 0) with (byte_loop shares shares i 0 (val g0)).
  rewrite (byte_loop_spec shares i Hval shares 0 g0); [|done|].
  2:{ eapply Forall_impl; [exact Hdata|]. simpl. intros s ->. apply val_byte. }
  do 2 f_equal.
  rewrite <- (lagrange_exact _ _ _ _ _ _ _ _ gf_field p (xs_of shares));
    [|unfold xs_of; by rewrite length_map|by apply xs_NoDup].
  unfold Lagrange.lag, xs_of. rewrite map_map.
  transitivity (suml (map (fun s => gmul (of_Z (data_at s i))
    (basis (map (fun s0 => of_Z (index s0)) shares) (of_Z (index s)) g0)) shares)); [ring|].
  f_equal. apply map_ext_in. intros s Hs. apply list_elem_of_In in Hs.
  rewrite Forall_forall in Hdata. by rewrite (Hdata s Hs), of_val.
Qed.

Lemma peval_zero c (p : list gf) : peval (c :: p) g0 = c.
Proof. simpl. ring. Qed.

Lemma mapM_Some {A B} (f : A -> option B) l l' :
  Forall2 (fun a b => f a = Some b) l l' -> mapM f l = Some l'.
Proof. intros H. by apply mapM_Some_2. Qed.

(** A share made by [splitSecret]. *)
Lemma split_elem secret n k random s :
  s ∈ splitSecret secret n k random ->
  exists j, (j < n)%nat /\ index s = Z.of_nat j + 1 /\
    data s = imap (fun i b => evalPoly (poly k b (random i)) (index s)) secret.
Proof.
  unfold splitSecret. intros Hs. apply list_elem_of_fmap in Hs as (j & -> & Hj).
  apply elem_of_seq in Hj. exists j. simpl. split_and!; [lia|done..].
Qed.

Lemma poly_bytes k b r : byte b -> Forall byte r -> Forall byte (poly k b r).
Proof. intros Hb Hr. unfold poly. apply Forall_take. by constructor. Qed.

(** ** Properties *)

(** C8: the round trip of secret sharing: any [k] or more distinct shares out
    of the [n] that [splitSecret] produces, in any order, reconstruct the
    secret exactly, whatever random coefficients were drawn.  In particular
    [reconstructSecret] terminates and does not divide by zero on them. *)
Theorem reconstruct_split secret n k random shares :
  (1 <= k)%nat -> (n <= 255)%nat ->
  Forall byte secret -> (forall i, Forall byte (random i)) ->
  (forall s, s ∈ shares -> s ∈ splitSecret secret n k random) ->
  NoDup (map index shares) -> (k <= length shares)%nat ->
  reconstructSecret shares = Some secret.
Proof.
  intros Hk Hn Hsec Hrnd Hin Hnd Hlen.
  assert (valid_indices shares) as Hval.
  { split; [|done]. apply Forall_forall. intros s Hs.
    destruct (split_elem _ _ _ _ _ (Hin s Hs)) as (j & Hj & -> & _). unfold byte. lia. }
  destruct shares as [|s0 rest] eqn:Hsh; [simpl in Hlen; lia|]. rewrite <- Hsh in *.
  unfold reconstructSecret. rewrite Hsh at 1.
  assert (length (data s0) = length secret) as ->.
  { destruct (split_elem _ _ _ _ s0 (Hin s0 ltac:(set_solver))) as (j & _ & _ & ->).
    by rewrite length_imap. }
  apply mapM_Some. apply Forall2_same_length_lookup. split; [by rewrite length_seq|].
  intros idx i b Hi Hb. apply lookup_seq in Hi as [-> Hi]. rewrite Nat.add_0_l.
  pose proof (Forall_lookup_1 _ _ _ _ Hsec Hb) as Hbb.
  pose proof (poly_bytes k b (random idx) Hbb (Hrnd idx)) as Hpb.
  rewrite (reconstructByte_spec shares idx (map of_Z (poly k b (random idx)))).
  - unfold poly. destruct k as [|k]; [lia|]. cbn [take map].
    by rewrite peval_zero, val_of_Z.
  - done.
  - rewrite length_map. unfold poly. rewrite length_take. lia.
  - apply Forall_forall. intros s Hs.
    destruct (split_elem _ _ _ _ _ (Hin s Hs)) as (j & Hj & Hidx & Hdata).
    unfold data_at. rewrite Hdata, list_lookup_imap, Hb. simpl.
    rewrite <- evalPoly_peval, map_val_of_Z by done.
    rewrite val_of_Z; [done|]. unfold byte. rewrite Hidx. lia.
Qed.

Lemma reconstruct_split_witness :
  let shares := splitSecret [42; 0; 255] 5 3 (fun i => [7 + Z.of_nat i; 200]) in
  reconstructSecret [mkShare 5 (data (nth 4 shares (mkShare 0 [])));
                     mkShare 1 (data (nth 0 shares (mkShare 0 [])));
                     mkShare 3 (data (nth 2 shares (mkShare 0 [])))] = Some [42; 0; 255].
Proof.
  cbv zeta.
  apply (reconstruct_split [42; 0; 255] 5 3 (fun i => match i with
    | 0%nat => [7; 200] | 1%nat => [8; 200] | 2%nat => [9; 200] | _ => [] end)); try lia.
  - repeat constructor; unfold byte; lia.
  - intros [|[|[|i]]]; repeat constructor; unfold byte; lia.
  - intros s Hs. apply list_elem_of_In. apply list_elem_of_In in Hs.
    vm_compute in Hs. vm_compute. tauto.
  - apply NoDup_ListNoDup. vm_compute. repeat constructor; simpl; lia.
  - simpl. lia.
Defined.

(** C11: secrecy below the threshold: fewer than [k] shares are consistent
    with every possible secret byte.  For the shares of a byte [b] at [k - 1]
    distinct non-zero indices and any other byte [b'], there are random
    coefficients with which [b'] has exactly the same shares. *)
Theorem shares_hide_secret k b b' (random : list Z) (xs : list Z) :
  (1 <= k)%nat -> byte b -> byte b' -> Forall byte random ->
  Forall (fun x => byte x /\ x <> 0) xs -> NoDup xs -> length xs = (k - 1)%nat ->
  exists random', length random' = (k - 1)%nat /\ Forall byte random' /\
    forall x, x ∈ xs -> evalPoly (poly k b' random') x = evalPoly (poly k b random) x.
Proof.
  intros Hk Hb Hb' Hrnd Hxs Hnd Hlen.
  set (f := fun x : gf => if decide (x = g0) then of_Z b'
                          else of_Z (evalPoly (poly k b random) (val x))).
  assert (forall x y, byte x -> byte y -> of_Z x = of_Z y -> x = y) as Hinj.
  { intros x y Hx Hy E. apply (f_equal val) in E. by rewrite !val_of_Z in E. }
  rewrite Forall_forall in Hxs.
  destruct (interpolation_exists _ _ _ _ _ _ _ _ gf_field f (g0 :: map of_Z xs))
    as (p & Hplen & Hp).
  { apply NoDup_cons. split.
    - intros Hin. apply list_elem_of_fmap in Hin as (x & Hx & Hin).
      destruct (Hxs x Hin) as [Hbx Hx0]. apply Hx0. symmetry.
      apply Hinj; [unfold byte; lia|done|done].
    - apply NoDup_fmap_2_strong; [|done]. intros x y Hx Hy. apply Hinj; by apply Hxs. }
  simpl in Hplen. rewrite length_map in Hplen.
  destruct p as [|c p]; [done|]. exists (map val p).
  assert (val c = b') as Hc.
  { specialize (Hp g0 ltac:(set_solver)). rewrite peval_zero in Hp.
    unfold f in Hp. rewrite decide_True in Hp by done. rewrite Hp. by apply val_of_Z. }
  simpl in Hplen. split_and!.
  - rewrite length_map. lia.
  - apply Forall_fmap, Forall_forall. intros y _. apply val_byte.
  - intros x Hx. destruct (Hxs x Hx) as [Hbx Hx0].
    assert (poly k b' (map val p) = map val (c :: p)) as ->.
    { unfold poly. simpl. rewrite Hc. apply take_ge. simpl. rewrite length_map. lia. }
    rewrite <- (val_of_Z x) at 1 by done. rewrite evalPoly_peval, Hp.
    + unfold f. rewrite decide_False; [rewrite val_of_Z|].
      * by rewrite val_of_Z.
      * rewrite val_of_Z by done. rewrite <- (map_val_of_Z (poly k b random)).
        -- rewrite <- (val_of_Z x) by done. rewrite evalPoly_peval. apply val_byte.
        -- by apply poly_bytes.
      * intros E. apply (f_equal val) in E. by rewrite val_of_Z, val_g0 in E.
    + apply elem_of_cons. right. apply list_elem_of_fmap. by exists x.
Qed.

Lemma shares_hide_secret_witness :
  exists random', length random' = 2%nat /\ Forall byte random' /\
    forall x, x ∈ [1; 2] -> evalPoly (poly 3 99 random') x = evalPoly (poly 3 42 [7; 200]) x.
Proof.
  apply (shares_hide_secret 3 42 99 [7; 200] [1; 2]); try (unfold byte; lia).
  - repeat constructor; unfold byte; lia.
  - repeat constructor; unfold byte; lia.
  - apply NoDup_ListNoDup. repeat constructor; simpl; lia.
  - reflexivity.
Defined.
End Threshold.
