(* ===== verification/RateLimit.v ===== *)
(** * Rate limiting

    Models [src/orchestrator/domain/identity/rate_limit.ts], class
    [RateLimitService]: the in-memory tier, the threshold-triggered write of
    the unsynced delta to the KV store, the periodic flush and the settling of
    the writes in flight.  The per-key state objects are shared between the
    [Map], the pending writes and the flush closures, so they live in a heap;
    the asynchronous parts are separate events that interleave freely. *)

From S2P Require Import Prelude Result JsMap Resilience.

Module RateLimit.

Record RateLimitState := mkState {
  count : Z;
  resetAt : Z;
  synced : Z;
  inflight : option nat;  (** the write in flight, if any *)
}.

Record RateLimitStatus := {
  allowed : bool;
  st_count : Z;
  st_resetAt : Z;
  retryAfterMs : Z;
}.

(** A pending [syncToKv] promise with the variables its handlers close over. *)
Record Write := { w_key : string; w_state : nat; w_delta : Z; w_resetAt : Z }.

Record Service := mkService {
  objs : gmap nat RateLimitState;        (** the state objects *)
  fresh_obj : nat;
  memoryTier : list (string * nat);
  writes : gmap nat Write;
  fresh_write : nat;
  flushes : list (string * nat);         (** flush closures not yet run *)
  kv : gmap string (Z * Z);              (** persisted [{count, resetAt}] *)
}.

Definition new : Service := mkService ∅ 0 [] ∅ 0 [] ∅.

Definition with_obj (i : nat) (o : RateLimitState) (s : Service) : Service :=
  mkService (<[i := o]> (objs s)) (fresh_obj s) (memoryTier s) (writes s) (fresh_write s)
    (flushes s) (kv s).

(** [syncKey(key, state)] up to the first [await]. *)
Definition syncKey (key : string) (i : nat) (s : Service) : Service :=
  match objs s !! i with
  | None => s
  | Some o =>
      match inflight o with
      | Some _ => s
      | None =>
          let delta := count o - synced o in
          if delta <=? 0 then s
          else
            let w := fresh_write s in
            mkService (<[i := mkState (count o) (resetAt o) (count o) (Some w)]> (objs s))
              (fresh_obj s) (memoryTier s)
              (<[w := {| w_key := key; w_state := i; w_delta := delta; w_resetAt := resetAt o |}]>
                 (writes s))
              (S w) (flushes s) (kv s)
      end
  end.

(** [checkLimit(key, limit, windowMs)] at clock [now]. *)
Definition checkLimit (key : string) (limit windowMs now : Z) (s : Service)
    : Service * RateLimitStatus :=
  let '(i, o, s) :=
    match JsMap.get (memoryTier s) key ≫= (fun i => pair i <$> objs s !! i) with
    | Some (i, o) =>
        if resetAt o <? now
        then (fresh_obj s, mkState 0 (now + windowMs) 0 None, s)
        else (i, o, s)
    | None => (fresh_obj s, mkState 0 (now + windowMs) 0 None, s)
    end in
  let o := mkState (count o + 1) (resetAt o) (synced o) (inflight o) in
  let s := mkService (<[i := o]> (objs s)) (S (Nat.max i (fresh_obj s)))
             (JsMap.set (memoryTier s) key i) (writes s) (fresh_write s) (flushes s) (kv s) in
  let allowed := count o <=? limit in
  let retryAfterMs := Z.max 0 (resetAt o - now) in
  let s := if negb allowed || (limit <=? 2 * count o) then syncKey key i s else s in
  (s, {| allowed := allowed; st_count := count o; st_resetAt := resetAt o;
         retryAfterMs := retryAfterMs |}).

(** [flushMemoryTier] at clock [now]: expired windows are dropped, the others
    get a closure that syncs them later. *)
Definition flushMemoryTier (now : Z) (s : Service) : Service :=
  let live := List.filter (fun e => match objs s !! e.2 with
                                    | Some o => negb (resetAt o <? now)
                                    | None => true end) (memoryTier s) in
  mkService (objs s) (fresh_obj s) live (writes s) (fresh_write s) (flushes s ++ live) (kv s).

(** The body of one flush closure after its [await]. *)
Definition runFlush (n : nat) (s : Service) : Service :=
  match flushes s !! n with
  | None => s
  | Some (key, i) =>
      syncKey key i
        (mkService (objs s) (fresh_obj s) (memoryTier s) (writes s) (fresh_write s)
           (take n (flushes s) ++ drop (S n) (flushes s)) (kv s))
  end.

(** The record one attempt of [syncToKv] commits, read at clock [now], and the
    lifetime it asks for. *)
Definition newState (entry : option (Z * Z)) (delta resetAt now : Z) : Z * Z :=
  match entry with
  | Some (c, r) => if r <? now then (delta, resetAt) else (c + delta, Z.max r resetAt)
  | None => (delta, resetAt)
  end.

Definition expireIn (st : Z * Z) (now : Z) : Z := Z.max 1000 (st.2 - now).

Inductive kv_error := Contention | RetryExhausted.

(** What the store answers at each attempt: the clock and whether the
    optimistic check passed. *)
Definition kv_env := Z -> Z * bool.

Definition syncOptions : Retry.RetryOptions :=
  {| Retry.maxAttempts := 3; Retry.baseDelayMs := 20;
     Retry.maxDelayMs := None; Retry.factor := None |}.

Definition attempt_write (env : kv_env) (entry : option (Z * Z)) (delta resetAt : Z) (a : Z)
    : settled (Z * Z) kv_error :=
  let '(now, okc) := env a in
  if okc then Resolved (newState entry delta resetAt now) else Rejected Contention.

(** [syncToKv(key, delta, resetAt)]: an [async] function whose body returns
    what [retry] returns.  [retry] reports failure as a value, so the promise
    always resolves. *)
Definition syncToKv (env : kv_env) (entry : option (Z * Z)) (delta resetAt : Z)
    : settled (Result (Z * Z) kv_error) kv_error :=
  if delta =? 0 then Resolved (ok (0, 0))
  else Resolved (Retry.retry (attempt_write env entry delta resetAt) (fun _ => 0)
                   RetryExhausted syncOptions).1.

(** The [.then/.catch/.finally] chain of [syncKey] when write [w] settles. *)
Definition settleWrite (w : nat) (env : kv_env) (s : Service) : Service :=
  match writes s !! w with
  | None => s
  | Some wr =>
      let outcome := syncToKv env (kv s !! w_key wr) (w_delta wr) (w_resetAt wr) in
      let kv' := match outcome with
                 | Resolved (ok st) => <[w_key wr := st]> (kv s)
                 | _ => kv s
                 end in
      let rollback o :=
        match outcome with
        | Resolved _ => o
        | Rejected _ =>
            if bool_decide (JsMap.get (memoryTier s) (w_key wr) = Some (w_state wr))
            then mkState (count o) (resetAt o) (Z.max 0 (synced o - w_delta wr)) (inflight o)
            else o
        end in
      let release o :=
        if bool_decide (inflight o = Some w)
        then mkState (count o) (resetAt o) (synced o) None else o in
      mkService (alter (fun o => release (rollback o)) (w_state wr) (objs s)) (fresh_obj s)
        (memoryTier s) (delete w (writes s)) (fresh_write s) (flushes s) kv'
  end.

(** ** Runs *)

Inductive event :=
| Check (key : string) (limit windowMs now : Z)
| Flush (now : Z)
| RunFlush (n : nat)
| Settle (w : nat) (env : kv_env).

Definition clock_of (e : event) : option Z :=
  match e with Check _ _ _ now => Some now | Flush now => Some now | _ => None end.

Definition step (s : Service) (e : event) : Service * list (string * RateLimitStatus) :=
  match e with
  | Check key limit windowMs now =>
      let '(s, r) := checkLimit key limit windowMs now s in (s, [(key, r)])
  | Flush now => (flushMemoryTier now s, [])
  | RunFlush n => (runFlush n s, [])
  | Settle w env => (settleWrite w env s, [])
  end.

Fixpoint run (s : Service) (es : list event) : Service * list (string * RateLimitStatus) :=
  match es with
  | [] => (s, [])
  | e :: es => let '(s, r) := step s e in let '(s, rs) := run s es in (s, r ++ rs)
  end.

(** The clock never goes back, windows have a non-negative length and all
    requests of a key use the same limit. *)
Fixpoint well_timed (now : Z) (key : string) (limit : Z) (es : list event) : Prop :=
  match es with
  | [] => True
  | e :: es =>
      match clock_of e with Some t => now <= t | None => True end /\
      match e with
      | Check k l w _ => 0 <= w /\ (k = key -> l = limit)
      | _ => True
      end /\
      well_timed (default now (clock_of e)) key limit es
  end.

(** ** The current window of a key *)

Definition core (o : option RateLimitState) : option (Z * Z) :=
  (fun o => (count o, resetAt o)) <$> o.

Definition cur (s : Service) (key : string) : option (Z * Z) :=
  core (JsMap.get (memoryTier s) key ≫= (fun i => objs s !! i)).

(** The keys of the tier own distinct state objects. *)
Record inv (s : Service) : Prop := {
  inv_wf : JsMap.wf (memoryTier s);
  inv_ids : NoDup (memoryTier s).*2;
  inv_lt : Forall (fun e => e.2 < fresh_obj s)%nat (memoryTier s);
  inv_dom : Forall (fun e => is_Some (objs s !! e.2)) (memoryTier s);
}.

Lemma cur_frame s s' key :
  memoryTier s' = memoryTier s -> (forall i, core (objs s' !! i) = core (objs s !! i)) ->
  cur s' key = cur s key.
Proof.
  intros Ht Ho. unfold cur. rewrite Ht.
  destruct (JsMap.get (memoryTier s) key) as [i|]; [apply Ho|done].
Qed.

Lemma inv_frame s s' :
  memoryTier s' = memoryTier s -> fresh_obj s' = fresh_obj s ->
  (forall i, core (objs s' !! i) = core (objs s !! i)) -> inv s -> inv s'.
Proof.
  intros Ht Hf Ho [? ? Hlt Hdom]. split; rewrite ?Ht, ?Hf; try done.
  eapply Forall_impl; [exact Hdom|]. simpl. intros e [o He]. specialize (Ho e.2).
  rewrite He in Ho. destruct (objs s' !! e.2); [eauto|done].
Qed.

Lemma syncKey_frame key i s :
  memoryTier (syncKey key i s) = memoryTier s /\ fresh_obj (syncKey key i s) = fresh_obj s /\
  forall j, core (objs (syncKey key i s) !! j) = core (objs s !! j).
Proof.
  unfold syncKey. destruct (objs s !! i) as [o|] eqn:E; [|done].
  destruct (inflight o); [done|]. case_bool_step; [done|]. simpl. split_and!; [done..|].
  intros j. destruct (decide (i = j)) as [->|].
  - by rewrite lookup_insert_eq, E.
  - by rewrite lookup_insert_ne.
Qed.

Lemma settleWrite_frame w env s :
  memoryTier (settleWrite w env s) = memoryTier s /\
  fresh_obj (settleWrite w env s) = fresh_obj s /\
  forall j, core (objs (settleWrite w env s) !! j) = core (objs s !! j).
Proof.
  unfold settleWrite. destruct (writes s !! w) as [wr|]; [|done]. simpl.
  split_and!; [done..|]. intros j. destruct (decide (w_state wr = j)) as [->|].
  - rewrite lookup_alter_eq. destruct (objs s !! j) as [o|]; [|done]. simpl.
    unfold core. simpl. do 2 case_match; repeat case_bool_step; done.
  - by rewrite lookup_alter_ne.
Qed.

Lemma runFlush_frame n s :
  memoryTier (runFlush n s) = memoryTier s /\ fresh_obj (runFlush n s) = fresh_obj s /\
  forall j, core (objs (runFlush n s) !! j) = core (objs s !! j).
Proof.
  unfold runFlush. destruct (flushes s !! n) as [[key i]|]; [|done].
  match goal with |- context [syncKey key i ?x] => apply (syncKey_frame key i x) end.
Qed.

(** *** The flush *)

Lemma filter_get {V} (P : string * V -> bool) (m : list (string * V)) k :
  JsMap.wf m ->
  JsMap.get (List.filter P m) k =
  match JsMap.get m k with Some v => if P (k, v) then Some v else None | None => None end.
Proof.
  unfold JsMap.wf. induction m as [|[k' v] m IH]; intros Hnd; simpl; [done|].
  apply NoDup_cons in Hnd as [Hk Hnd].
  case_decide; subst.
  - destruct (P (k, v)); simpl; [by rewrite decide_True|]. rewrite IH by done.
    by rewrite (proj2 (JsMap.get_None m k) Hk).
  - destruct (P (k', v)); simpl; rewrite ?decide_False by done; by apply IH.
Qed.

Lemma filter_sublist {A} (P : A -> bool) (l : list A) : List.filter P l `sublist_of` l.
Proof. induction l as [|x l IH]; simpl; [done|]. destruct (P x); by constructor. Qed.

Lemma flush_inv now s : inv s -> inv (flushMemoryTier now s).
Proof.
  intros [Hwf Hids Hlt Hdom]. unfold flushMemoryTier. split; simpl.
  - unfold JsMap.wf, JsMap.keys in *. eapply sublist_NoDup; [exact Hwf|].
    apply fmap_sublist, filter_sublist.
  - eapply sublist_NoDup; [exact Hids|]. apply fmap_sublist, filter_sublist.
  - apply Forall_forall. intros e He. apply list_elem_of_In, filter_In in He as [He _].
    rewrite Forall_forall in Hlt. apply Hlt. by apply list_elem_of_In.
  - apply Forall_forall. intros e He. apply list_elem_of_In, filter_In in He as [He _].
    rewrite Forall_forall in Hdom. apply Hdom. by apply list_elem_of_In.
Qed.

Lemma flush_cur now s key :
  inv s ->
  cur (flushMemoryTier now s) key =
  match cur s key with Some (c, r) => if r <? now then None else Some (c, r) | None => None end.
Proof.
  intros [Hwf _ _ _]. unfold cur, flushMemoryTier. simpl. rewrite filter_get by done.
  destruct (JsMap.get (memoryTier s) key) as [i|]; [|done]. simpl.
  destruct (objs s !! i) as [o|] eqn:E; simpl; [|by rewrite E].
  destruct (resetAt o <? now); simpl; [done|by rewrite E].
Qed.

(** *** A request *)

Lemma set_ids (m : list (string * nat)) k i :
  NoDup m.*2 -> i ∉ m.*2 \/ JsMap.get m k = Some i -> NoDup (JsMap.set m k i).*2.
Proof.
  induction m as [|[k' j] m IH]; intros Hnd Hi; simpl in *.
  { constructor; [set_solver|constructor]. }
  apply NoDup_cons in Hnd as [Hj Hnd]. case_decide; subst; simpl.
  - apply NoDup_cons. split; [|done]. destruct Hi as [Hi|Hi]; [set_solver|by simplify_eq].
  - assert (forall x, x ∈ (JsMap.set m k i).*2 -> x ∈ m.*2 \/ x = i) as Hsub.
    { clear. induction m as [|[k' j] m IH]; simpl; [set_solver|].
      case_decide; set_solver. }
    apply NoDup_cons. split.
    + intros Hin. apply Hsub in Hin as [Hin| ->]; [done|].
      destruct Hi as [Hi|Hi]; [set_solver|].
      apply JsMap.get_Some_elem in Hi. apply Hj. apply list_elem_of_fmap. by exists (k, i).
    + apply IH; [done|]. destruct Hi as [Hi|Hi]; [left; set_solver|by right].
Qed.

Lemma set_elem (m : list (string * nat)) k i e : e ∈ JsMap.set m k i -> e ∈ m \/ e = (k, i).
Proof.
  induction m as [|[k' j] m IH]; simpl; [set_solver|]. case_decide; set_solver.
Qed.

Lemma checkLimit_spec key limit w now s :
  inv s ->
  let '(s', r) := checkLimit key limit w now s in
  inv s' /\
  (forall k, k <> key -> cur s' k = cur s k) /\
  cur s' key = Some (st_count r, st_resetAt r) /\
  allowed r = (st_count r <=? limit) /\
  match cur s key with
  | Some (c, R) => if R <? now then st_count r = 1 /\ st_resetAt r = now + w
                   else st_count r = c + 1 /\ st_resetAt r = R
  | None => st_count r = 1 /\ st_resetAt r = now + w
  end.
Proof.
  intros Hinv. destruct (Hinv) as [Hwf Hids Hlt Hdom]. unfold checkLimit.
  set (sel := match JsMap.get (memoryTier s) key ≫= (fun i => pair i <$> objs s !! i) with
              | Some (i, o) => if resetAt o <? now
                  then (fresh_obj s, mkState 0 (now + w) 0 None, s) else (i, o, s)
              | None => (fresh_obj s, mkState 0 (now + w) 0 None, s) end).
  assert (exists i o, sel = (i, o, s) /\
    (i = fresh_obj s \/ JsMap.get (memoryTier s) key = Some i) /\
    match cur s key with
    | Some (c, R) => if R <? now then count o + 1 = 1 /\ resetAt o = now + w
                     else count o + 1 = c + 1 /\ resetAt o = R
    | None => count o + 1 = 1 /\ resetAt o = now + w
    end) as (i & o & -> & Hi & Hval).
  { subst sel. unfold cur, core.
    destruct (JsMap.get (memoryTier s) key) as [i|]; simpl; [|by eauto 10].
    destruct (objs s !! i) as [o|]; simpl; [|by eauto 10].
    destruct (resetAt o <? now); eauto 10. }
  set (o' := mkState (count o + 1) (resetAt o) (synced o) (inflight o)).
  set (s1 := mkService (<[i := o']> (objs s)) (S (Nat.max i (fresh_obj s)))
     (JsMap.set (memoryTier s) key i) (writes s) (fresh_write s) (flushes s) (kv s)).
  assert (i ∉ (memoryTier s).*2 \/ JsMap.get (memoryTier s) key = Some i) as Hi'.
  { destruct Hi as [->|]; [left|by right]. intros Hin.
    apply list_elem_of_fmap in Hin as (e & He & Hin).
    rewrite Forall_forall in Hlt. specialize (Hlt e Hin). simpl in Hlt. lia. }
  assert (inv s1) as Hinv1.
  { split; simpl.
    - by apply JsMap.wf_set.
    - by apply set_ids.
    - apply Forall_forall. intros e He. apply set_elem in He as [He| ->]; simpl; [|lia].
      rewrite Forall_forall in Hlt. specialize (Hlt e He). simpl in Hlt. lia.
    - apply Forall_forall. intros e He. destruct (decide (e.2 = i)) as [->|Hne].
      + rewrite lookup_insert_eq. eauto.
      + rewrite lookup_insert_ne by done. apply set_elem in He as [He| ->]; [|done].
        rewrite Forall_forall in Hdom. by apply Hdom. }
  assert (forall k, k <> key -> cur s1 k = cur s k) as Hother.
  { intros k Hk. unfold cur. simpl. rewrite JsMap.get_set_ne by done.
    destruct (JsMap.get (memoryTier s) k) as [j|] eqn:Ej; [|done]. simpl.
    rewrite lookup_insert_ne; [done|]. intros <-.
    apply JsMap.get_Some_elem in Ej. destruct Hi' as [Hi'|Hi'].
    - apply Hi'. apply list_elem_of_fmap. by exists (k, i).
    - apply JsMap.get_Some_elem in Hi'. apply Hk.
      apply list_elem_of_lookup in Ej as [a Ha]. apply list_elem_of_lookup in Hi' as [b Hb].
      assert (a = b) as ->; [|congruence].
      eapply (NoDup_lookup _ a b i Hids); rewrite list_lookup_fmap; by rewrite ?Ha, ?Hb. }
  assert (cur s1 key = Some (count o', resetAt o')) as Hkey.
  { unfold cur. simpl. rewrite JsMap.get_set_eq. simpl. by rewrite lookup_insert_eq. }
  set (b := negb (count o' <=? limit) || (limit <=? 2 * count o')). simpl.
  destruct (syncKey_frame key i s1) as (Ht & Hf & Ho).
  destruct b.
  - split_and!.
    + by eapply inv_frame.
    + intros k Hk. rewrite <- Hother by done. by apply cur_frame.
    + transitivity (cur s1 key); [by apply cur_frame|exact Hkey].
    + done.
    + exact Hval.
  - split_and!; [done|done|exact Hkey|done|exact Hval].
Qed.

(** ** Counting requests per window *)

Definition in_window (key : string) (R : Z) (e : string * RateLimitStatus) : bool :=
  bool_decide (e.1 = key) && (st_resetAt e.2 =? R).

Definition requests (key : string) (R : Z) (rs : list (string * RateLimitStatus)) : Z :=
  Z.of_nat (length (List.filter (in_window key R) rs)).

Definition admitted (key : string) (R : Z) (rs : list (string * RateLimitStatus)) : Z :=
  Z.of_nat (length (List.filter (fun e => in_window key R e && allowed e.2) rs)).

Lemma requests_app key R rs rs' :
  requests key R (rs ++ rs') = requests key R rs + requests key R rs'.
Proof. unfold requests. rewrite List.filter_app, length_app. lia. Qed.

Lemma admitted_app key R rs rs' :
  admitted key R (rs ++ rs') = admitted key R rs + admitted key R rs'.
Proof. unfold admitted. rewrite List.filter_app, length_app. lia. Qed.

(** What holds of the answers given so far, for one key and limit. *)
Record window_inv (key : string) (limit now : Z) (s : Service)
    (rs : list (string * RateLimitStatus)) : Prop := {
  win_inv : inv s;
  win_cur : forall c R, cur s key = Some (c, R) -> requests key R rs = c;
  win_old : forall R, 0 < requests key R rs ->
    (exists c, cur s key = Some (c, R)) \/ R < now;
  win_adm : forall R, admitted key R rs = Z.min (requests key R rs) (Z.max 0 limit);
}.

Lemma window_later key limit now now' s rs :
  now <= now' -> window_inv key limit now s rs -> window_inv key limit now' s rs.
Proof.
  intros Hle [? ? Ho ?]. split; auto. intros R HR.
  destruct (Ho R HR) as [?|?]; [by left|right; lia].
Qed.

Lemma window_frame key limit now s s' rs :
  memoryTier s' = memoryTier s /\ fresh_obj s' = fresh_obj s /\
  (forall i, core (objs s' !! i) = core (objs s !! i)) ->
  window_inv key limit now s rs -> window_inv key limit now s' rs.
Proof.
  intros (Ht & Hf & Ho) [Hi Hc Hold Ha].
  assert (cur s' key = cur s key) as E by (by apply cur_frame).
  split; rewrite ?E; auto. by eapply inv_frame.
Qed.

Lemma window_flush key limit now s rs :
  window_inv key limit now s rs -> window_inv key limit now (flushMemoryTier now s) rs.
Proof.
  intros [Hi Hc Hold Ha]. pose proof (flush_cur now s key Hi) as E.
  split; [by apply flush_inv|..|done].
  - intros c R. rewrite E. destruct (cur s key) as [[c' R']|]; [|done].
    case_bool_step; [done|]. intros; simplify_eq. by apply Hc.
  - intros R HR. rewrite E. destruct (Hold R HR) as [[c Hcur]|?]; [|by right].
    rewrite Hcur. case_bool_step; reflect_bools; [by right|by left; exists c].
Qed.

Lemma requests_one key R k r :
  requests key R [(k, r)] = if in_window key R (k, r) then 1 else 0.
Proof. unfold requests. simpl. by destruct (in_window key R (k, r)). Qed.

Lemma admitted_one key R k r :
  admitted key R [(k, r)] = if in_window key R (k, r) && allowed r then 1 else 0.
Proof. unfold admitted. simpl. by destruct (in_window key R (k, r) && allowed r). Qed.

Lemma requests_nonneg key R rs : 0 <= requests key R rs.
Proof. unfold requests. lia. Qed.

(** No request has been answered yet in the window a request at [now] opens. *)
Lemma window_fresh key limit now s rs w :
  0 <= w -> window_inv key limit now s rs ->
  match cur s key with Some (_, R) => R < now | None => True end ->
  requests key (now + w) rs = 0.
Proof.
  intros Hw [_ _ Hold _] Hexp. pose proof (requests_nonneg key (now + w) rs).
  destruct (Z.eq_dec (requests key (now + w) rs) 0) as [|Hne]; [done|].
  destruct (Hold (now + w)) as [[c Hc]|Hlt]; [lia| |lia].
  rewrite Hc in Hexp. lia.
Qed.

Lemma window_check key limit now s rs k l w :
  0 <= w -> (k = key -> l = limit) -> window_inv key limit now s rs ->
  let '(s', r) := checkLimit k l w now s in window_inv key limit now s' (rs ++ [(k, r)]).
Proof.
  intros Hw Hl Hwin. pose proof (checkLimit_spec k l w now s (win_inv _ _ _ _ _ Hwin)) as Hspec.
  destruct (checkLimit k l w now s) as [s' r].
  destruct Hspec as (Hinv' & Hother & Hkey & Hall & Hval).
  assert (forall R, requests key R (rs ++ [(k, r)]) =
    requests key R rs + if in_window key R (k, r) then 1 else 0) as Hreq
    by (intros; by rewrite requests_app, requests_one).
  destruct (decide (k = key)) as [->|Hne].
  2:{ assert (forall R, in_window key R (k, r) = false) as Hout
        by (intros; unfold in_window; simpl; by rewrite bool_decide_eq_false_2).
      destruct Hwin as [_ Hc Hold Ha]. rewrite <- (Hother key) in Hc, Hold by done.
      split; [done|..]; intros; rewrite ?Hreq, ?admitted_app, ?admitted_one, ?Hout, ?Z.add_0_r in *;
        simpl; rewrite ?Z.add_0_r; auto. }
  specialize (Hl eq_refl) as ->.
  assert (forall R, in_window key R (key, r) = (st_resetAt r =? R)) as Hwd
    by (intros; unfold in_window; simpl; by rewrite bool_decide_eq_true_2).
  assert (requests key (st_resetAt r) rs + 1 = st_count r) as Hcount.
  { pose proof (window_fresh key limit now s rs w Hw Hwin) as Hfresh.
    destruct Hwin as [_ Hc _ _].
    destruct (cur s key) as [[c R]|] eqn:Ecur.
    - case_bool_step; reflect_bools; destruct Hval as [-> ->]; [by rewrite Hfresh|].
      by rewrite (Hc c R).
    - destruct Hval as [-> ->]. by rewrite Hfresh. }
  destruct (Hwin) as [_ Hc Hold Ha]. split; [done|..].
  - intros c R E. rewrite Hkey in E. simplify_eq. rewrite Hreq, Hwd, Z.eqb_refl. lia.
  - intros R HR. rewrite Hkey. rewrite Hreq, Hwd in HR.
    destruct (Z.eqb_spec (st_resetAt r) R) as [HeqR|HneR]; [rewrite HeqR; eauto|]. right.
    destruct (Hold R) as [[c Hcur]|?]; [lia| |done].
    rewrite Hcur in Hval. case_bool_step; reflect_bools; [done|]. destruct Hval; congruence.
  - intros R. rewrite Hreq, admitted_app, admitted_one, Hwd, Ha, Hall.
    destruct (Z.eqb_spec (st_resetAt r) R) as [<-|]; simpl; [|lia].
    rewrite <- Hcount. pose proof (requests_nonneg key (st_resetAt r) rs).
    case_bool_step; reflect_bools; lia.
Qed.

Lemma window_run key limit es : forall now s rs,
  well_timed now key limit es -> window_inv key limit now s rs ->
  exists now', window_inv key limit now' (run s es).1 (rs ++ (run s es).2).
Proof.
  induction es as [|e es IH]; intros now s rs Hwt Hwin; simpl.
  { exists now. by rewrite app_nil_r. }
  destruct Hwt as (Ht & He & Hwt).
  assert (window_inv key limit (default now (clock_of e)) (step s e).1 (rs ++ (step s e).2)) as Hw'.
  { destruct e as [k l w t|t|n|w env]; simpl in *.
    - apply (window_later _ _ _ t) in Hwin; [|done]. destruct He as [Hw Hl].
      pose proof (window_check key limit t s rs k l w Hw Hl Hwin) as H.
      by destruct (checkLimit k l w t s).
    - rewrite app_nil_r. apply window_flush. by eapply window_later.
    - rewrite app_nil_r. eapply window_frame; [apply runFlush_frame|done].
    - rewrite app_nil_r. eapply window_frame; [apply settleWrite_frame|done]. }
  destruct (step s e) as [s' r]. simpl in Hw'.
  destruct (IH _ _ _ Hwt Hw') as [now' H]. exists now'.
  destruct (run s' es). simpl in *. by rewrite app_assoc.
Qed.

Lemma window_new key limit now : window_inv key limit now new [].
Proof.
  split; try done.
  - split; simpl; constructor.
  - intros R. unfold admitted, requests. simpl. lia.
Qed.

(** ** Properties *)

(** The limit holds: in every run of requests, flushes and settling
    writes, in any interleaving, with a clock that does not go back, at most
    [limit] requests of a key are allowed in any one window, and as long as
    the limit has not been reached every request is allowed. *)
Theorem limit_enforced key limit now es R :
  well_timed now key limit es ->
  let rs := (run new es).2 in
  admitted key R rs = Z.min (requests key R rs) (Z.max 0 limit).
Proof.
  intros Hwt. destruct (window_run key limit es now new [] Hwt (window_new key limit now))
    as [now' Hw]. apply (win_adm _ _ _ _ _ Hw).
Qed.

Lemma limit_enforced_witness :
  let es := [Check "a" 2 100 0; Check "a" 2 100 10; Check "b" 5 100 20; Settle 0 (fun _ => (25, true));
             Check "a" 2 100 30; Flush 50] in
  admitted "a" 100 (run new es).2 = Z.min (requests "a" 100 (run new es).2) (Z.max 0 2).
Proof.
  apply (limit_enforced "a" 2 0). simpl.
  repeat split; lia || (intros; discriminate || reflexivity) || done.
Defined.

(** A failed write loses counts: when every attempt of [syncToKv] meets
    contention, the persisted counter is unchanged and the delta stays marked
    as synced, so no later flush will send it.  The rollback in the [.catch]
    handler is never reached, because [retry] reports failure as a resolved
    value. *)
Theorem failed_sync_loses_delta w wr o env s :
  writes s !! w = Some wr -> objs s !! w_state wr = Some o ->
  (forall a, (env a).2 = false) ->
  w_delta wr <> 0 -> synced o = count o -> inflight o = Some w ->
  let s' := settleWrite w env s in
  kv s' = kv s /\
  objs s' !! w_state wr = Some (mkState (count o) (resetAt o) (count o) None) /\
  forall key, kv (syncKey key (w_state wr) s') = kv s /\
              writes (syncKey key (w_state wr) s') = writes s'.
Proof.
  intros Hw Ho Hfail Hd Hs Hin s'.
  assert (objs s' !! w_state wr = Some (mkState (count o) (resetAt o) (count o) None)) as Ho'.
  { subst s'. unfold settleWrite. rewrite Hw. simpl.
    rewrite lookup_alter_eq, Ho. simpl. unfold syncToKv.
    destruct (w_delta wr =? 0); simpl; rewrite Hin, Hs, bool_decide_eq_true_2 by done; done. }
  assert (kv s' = kv s) as Hkv.
  { subst s'. unfold settleWrite. rewrite Hw. simpl. unfold syncToKv.
    rewrite (proj2 (Z.eqb_neq _ _) Hd). unfold Retry.retry, syncOptions. simpl.
    unfold attempt_write.
    pose proof (Hfail 1) as H1. pose proof (Hfail (1 + 1)) as H2. pose proof (Hfail (1 + 1 + 1)) as H3.
    destruct (env 1) as [? []]; [done|]. destruct (env (1 + 1)) as [? []]; [done|].
    by destruct (env (1 + 1 + 1)) as [? []]. }
  split_and!; [done..|]. intros key. unfold syncKey. rewrite Ho'. simpl.
  rewrite Z.sub_diag. simpl. done.
Qed.

Definition contended : kv_env := fun _ => (0, false).

Lemma failed_sync_loses_delta_witness :
  let s := (run new [Check "a" 1 100 0]).1 in
  kv (settleWrite 0 contended s) = kv s /\
  objs (settleWrite 0 contended s) !! 0%nat = Some (mkState 1 100 1 None).
Proof.
  intros s.
  destruct (failed_sync_loses_delta 0 {| w_key := "a"; w_state := 0; w_delta := 1; w_resetAt := 100 |}
    (mkState 1 100 1 (Some 0%nat)) contended s) as (H1 & H2 & _);
    [reflexivity..|done|reflexivity|reflexivity|].
  split; [exact H1|exact H2].
Defined.
End RateLimit.
