(* ===== verification/Governance.v ===== *)
(** * Mesh governance: proposals, votes, execution

    Models [src/orchestrator/domain/orchestration/governance_service.ts],
    class [GovernanceService].  Each handler is a function on the service
    state that also returns the effects it performs, in order; the clock, the
    generated identifiers and the mesh's view (own id, known nodes, number of
    active peers) are inputs.  Log lines are left out. *)

From S2P Require Import Prelude JsMap.

Module Governance.
Section governance.
(** The [payload] record of a proposal is carried along and never inspected. *)
Context {P : Type}.

Record Vote := mkVote { voter : string; approved : bool; v_timestamp : Z }.

Inductive ProposalType := LOCKDOWN | IDENTITY_ROTATE | ACTIVE_SABOTAGE.

#[global] Instance ProposalType_eq_dec : EqDecision ProposalType.
Proof. solve_decision. Defined.

Record Proposal := mkProposal {
  id : string;
  proposer : string;
  ptype : ProposalType;
  target : string;
  payload : P;
  votes : list Vote;
  timestamp : Z;
  executed : bool;
}.

Record Service := mkService {
  proposals : list (string * Proposal);
  executionLocks : list string;
}.

Definition new : Service := mkService [] [].

(** The mesh as the service sees it at a given moment. *)
Record MeshNode := { n_id : string; lastSeen : Z }.
Record Mesh := { nodeId : string; nodes : list MeshNode; activeNodeCount : Z }.

(** What the service does to the outside. *)
Inductive effect :=
| EmitProposal (p : Proposal)                       (** UI_BROADCAST GOV_PROPOSAL *)
| EmitVote (pid : string) (by_node : string) (ok : bool)  (** UI_BROADCAST GOV_VOTE *)
| FirewallLockdown                                  (** protection.firewall.lockdown() *)
| EmitAudit                                         (** UI_BROADCAST AUDIT_EVENT *)
| RotateIdentity                                    (** mesh.rotateIdentity() *)
| BlockIp (ip : string)                             (** protection.firewall.blockIp() *)
| Executed (pid : string).                          (** the QUORUM REACHED audit line *)

Definition MAX_AGE : Z := 24 * 3600 * 1000.

(** [cleanupProposals()] *)
Definition cleanupProposals (now : Z) (s : Service) : Service :=
  mkService (List.filter (fun e => negb (MAX_AGE <? now - timestamp e.2)) (proposals s))
    (executionLocks s).

Definition set_votes (vs : list Vote) (p : Proposal) : Proposal :=
  mkProposal (id p) (proposer p) (ptype p) (target p) (payload p) vs (timestamp p) (executed p).
Definition set_executed (p : Proposal) : Proposal :=
  mkProposal (id p) (proposer p) (ptype p) (target p) (payload p) (votes p) (timestamp p) true.

(** The [try] block of [executeProposal]; [fail] tells whether the awaited
    action rejects ([lockdown()] has its own [.catch]). *)
Definition perform (p : Proposal) (fail : bool) : list effect :=
  match ptype p with
  | LOCKDOWN => [FirewallLockdown; EmitAudit]
  | IDENTITY_ROTATE => [RotateIdentity]
  | ACTIVE_SABOTAGE => BlockIp (target p) :: if fail then [] else [EmitAudit]
  end.

(** [executeProposal(proposal)] up to the end of its [try] block: the flag and
    the lock are set before anything is awaited. *)
Definition executeProposal (p : Proposal) (fail : bool) (s : Service) : Service * list effect :=
  if executed p || bool_decide (id p ∈ executionLocks s) then (s, [])
  else
    (mkService (JsMap.set (proposals s) (id p) (set_executed p)) (id p :: executionLocks s),
     Executed (id p) :: perform p fail).

(** The [finally] block, once the awaited actions have settled. *)
Definition releaseLock (pid : string) (s : Service) : Service :=
  mkService (proposals s) (List.filter (fun i => negb (bool_decide (i = pid))) (executionLocks s)).

(** [proposal.votes.findIndex(v => v.voter === payload.voter)] and the update. *)
Fixpoint recordVote (v : Vote) (vs : list Vote) : list Vote :=
  match vs with
  | [] => [v]
  | v' :: vs => if bool_decide (voter v' = voter v) then v :: vs else v' :: recordVote v vs
  end.

Definition approveCount (vs : list Vote) : Z :=
  Z.of_nat (length (List.filter approved vs)).

(** [handleVote({id, voter, approved})] *)
Definition handleVote (m : Mesh) (now : Z) (fail : bool) (pid by_voter : string) (ok : bool)
    (s : Service) : Service * list effect :=
  match JsMap.get (proposals s) pid with
  | None => (s, [])
  | Some p =>
      if executed p then (s, [])
      else
        let p := set_votes (recordVote (mkVote by_voter ok now) (votes p)) p in
        let s := mkService (JsMap.set (proposals s) pid p) (executionLocks s) in
        let activeNodes := activeNodeCount m + 1 in
        if activeNodes =? 1 then executeProposal p fail s
        else
          let quorumSize := activeNodes / 2 + 1 in
          if quorumSize <=? approveCount (votes p) then executeProposal p fail s
          else (s, [])
  end.

(** [propose(type, target, payload)] up to and including its broadcast; [uuid]
    is the fresh identifier. *)
Definition proposeStart (m : Mesh) (now : Z) (uuid : string) (ty : ProposalType) (tgt : string)
    (pl : P) (s : Service) : Service * list effect :=
  let p := mkProposal uuid (nodeId m) ty tgt pl [mkVote (nodeId m) true now] now false in
  (mkService (JsMap.set (proposals s) uuid p) (executionLocks s), [EmitProposal p]).

(** The single-node override at the end of [propose]. *)
Definition proposeFinish (m : Mesh) (now : Z) (fail : bool) (uuid : string) (s : Service)
    : Service * list effect :=
  if activeNodeCount m =? 0 then handleVote m now fail uuid (nodeId m) true s else (s, []).

(** [verifyPolicy(proposal)] *)
Definition verifyPolicy (m : Mesh) (now : Z) (p : Proposal) : bool :=
  match find (fun n => bool_decide (n_id n = proposer p)) (nodes m) with
  | None => false
  | Some n =>
      if bool_decide (ptype p = LOCKDOWN) then
        let uptime := now - lastSeen n in negb (uptime <? 60000)
      else true
  end.

(** [handleProposal(payload)] *)
Definition handleProposal (m : Mesh) (now : Z) (pid by_node : string) (ty : ProposalType)
    (tgt : string) (pl : P) (s : Service) : Service * list effect :=
  if JsMap.has (proposals s) pid then (s, [])
  else
    let p := mkProposal pid by_node ty tgt pl [] now false in
    (mkService (JsMap.set (proposals s) pid p) (executionLocks s),
     [EmitVote pid (nodeId m) (verifyPolicy m now p)]).

(** ** Runs: handlers in any order *)

Inductive event :=
| Propose (m : Mesh) (now : Z) (uuid : string) (ty : ProposalType) (tgt : string) (pl : P)
| ProposeEnd (m : Mesh) (now : Z) (fail : bool) (uuid : string)
| ReceiveProposal (m : Mesh) (now : Z) (pid by_node : string) (ty : ProposalType) (tgt : string) (pl : P)
| ReceiveVote (m : Mesh) (now : Z) (fail : bool) (pid by_voter : string) (ok : bool)
| ExecutionDone (pid : string)
| Cleanup (now : Z).

Definition step (s : Service) (e : event) : Service * list effect :=
  match e with
  | Propose m now uuid ty tgt pl => proposeStart m now uuid ty tgt pl s
  | ProposeEnd m now fail uuid => proposeFinish m now fail uuid s
  | ReceiveProposal m now pid b ty tgt pl => handleProposal m now pid b ty tgt pl s
  | ReceiveVote m now fail pid b ok => handleVote m now fail pid b ok s
  | ExecutionDone pid => (releaseLock pid s, [])
  | Cleanup now => (cleanupProposals now s, [])
  end.

Fixpoint run (s : Service) (es : list event) : Service * list effect :=
  match es with
  | [] => (s, [])
  | e :: es => let '(s, fx) := step s e in let '(s, fxs) := run s es in (s, fx ++ fxs)
  end.

Definition executions (pid : string) (fx : list effect) : nat :=
  length (List.filter (fun f => match f with Executed i => bool_decide (i = pid) | _ => false end) fx).

(** How often the identifier is entered into the table. *)
Definition is_creation (pid : string) (s : Service) (e : event) : bool :=
  match e with
  | Propose _ _ uuid _ _ _ => bool_decide (uuid = pid)
  | ReceiveProposal _ _ i _ _ _ _ => bool_decide (i = pid) && negb (JsMap.has (proposals s) i)
  | _ => false
  end.

Fixpoint creations (pid : string) (s : Service) (es : list event) : nat :=
  match es with
  | [] => 0
  | e :: es => (if is_creation pid s e then 1 else 0) + creations pid (step s e).1 es
  end.

(** ** The table's invariant *)

Definition voters (p : Proposal) : list string := map voter (votes p).

Record inv (s : Service) : Prop := {
  inv_wf : JsMap.wf (proposals s);
  inv_id : Forall (fun e => id e.2 = e.1) (proposals s);
  inv_votes : Forall (fun e => NoDup (voters e.2)) (proposals s);
}.

Lemma set_Forall (Q : string * Proposal -> Prop) m k p :
  Forall Q m -> Q (k, p) -> Forall Q (JsMap.set m k p).
Proof.
  intros Hm Hp. induction m as [|[k' p'] m IH]; simpl; [by repeat constructor|].
  apply Forall_cons in Hm as [H1 H2]. case_decide; constructor; auto.
Qed.

Lemma recordVote_voters v vs x :
  x ∈ map voter (recordVote v vs) <-> x = voter v \/ x ∈ map voter vs.
Proof.
  induction vs as [|v' vs IH]; simpl; [set_solver|].
  case_bool_decide as E; simpl; rewrite ?elem_of_cons, ?IH, ?E; set_solver.
Qed.

Lemma recordVote_NoDup v vs : NoDup (map voter vs) -> NoDup (map voter (recordVote v vs)).
Proof.
  induction vs as [|v' vs IH]; simpl; intros Hnd; [constructor; [set_solver|constructor]|].
  apply NoDup_cons in Hnd as [Hv Hnd]. case_bool_decide as E; simpl.
  - apply NoDup_cons. by rewrite <- E.
  - apply NoDup_cons. split; [|by apply IH]. rewrite recordVote_voters. naive_solver.
Qed.

Lemma inv_set s pid p locks :
  inv s -> id p = pid -> NoDup (voters p) ->
  inv (mkService (JsMap.set (proposals s) pid p) locks).
Proof.
  intros [Hwf Hid Hv] Hp Hnd. split; simpl; auto using JsMap.wf_set.
  - by apply set_Forall.
  - by apply set_Forall.
Qed.

Lemma inv_get s pid p :
  inv s -> JsMap.get (proposals s) pid = Some p -> id p = pid /\ NoDup (voters p).
Proof.
  intros [_ Hid Hv] Hg. apply JsMap.get_Some_elem in Hg.
  rewrite Forall_forall in Hid, Hv. split; [exact (Hid _ Hg)|exact (Hv _ Hg)].
Qed.

Lemma executeProposal_inv p fail s :
  inv s -> NoDup (voters p) -> inv (executeProposal p fail s).1.
Proof. intros Hi Hnd. unfold executeProposal. case_bool_step; [done|]. by apply inv_set. Qed.

Lemma handleVote_inv m now fail pid b ok s : inv s -> inv (handleVote m now fail pid b ok s).1.
Proof.
  intros Hi. unfold handleVote. destruct (JsMap.get (proposals s) pid) as [p|] eqn:E; [|done].
  destruct (inv_get s pid p Hi E) as [Hid Hnd]. destruct (executed p); [done|].
  set (p' := set_votes _ p).
  assert (NoDup (voters p')) as Hnd' by (by apply recordVote_NoDup).
  assert (inv (mkService (JsMap.set (proposals s) pid p') (executionLocks s))) as Hi'
    by (by apply inv_set).
  repeat case_bool_step; try (by apply executeProposal_inv); done.
Qed.

Lemma filter_Forall {A} (Q : A -> Prop) (f : A -> bool) l : Forall Q l -> Forall Q (List.filter f l).
Proof.
  intros H. apply Forall_forall. intros x Hx. apply list_elem_of_In, filter_In in Hx as [Hx _].
  rewrite Forall_forall in H. apply H. by apply list_elem_of_In.
Qed.

Lemma filter_keys {V} (f : string * V -> bool) l :
  JsMap.keys (List.filter f l) `sublist_of` JsMap.keys l.
Proof.
  unfold JsMap.keys. induction l as [|x l IH]; simpl; [done|].
  destruct (f x); simpl; by constructor.
Qed.

Lemma governance_step_inv s e : inv s -> inv (step s e).1.
Proof.
  intros Hi. destruct e; simpl.
  - apply inv_set; [done..|]. unfold voters. simpl. repeat constructor. set_solver.
  - unfold proposeFinish. case_bool_step; [by apply handleVote_inv|done].
  - unfold handleProposal. case_bool_step; [done|]. apply inv_set; [done..|]. constructor.
  - by apply handleVote_inv.
  - by destruct Hi; split.
  - destruct Hi. split; simpl; auto using filter_Forall.
    unfold JsMap.wf. eapply sublist_NoDup; [done|apply filter_keys].
Qed.

(** ** At most one execution per creation *)

(** One when the identifier can still be executed. *)
Definition pending (pid : string) (s : Service) : nat :=
  match JsMap.get (proposals s) pid with
  | Some p => if executed p then 0 else 1
  | None => 0
  end.

Lemma perform_executions pid p fail : executions pid (perform p fail) = 0%nat.
Proof. unfold perform. by destruct (ptype p), fail. Qed.

Lemma executions_cons pid i fx :
  executions pid (Executed i :: fx) = ((if bool_decide (i = pid) then 1 else 0) + executions pid fx)%nat.
Proof. unfold executions. simpl. by case_bool_decide. Qed.

Lemma executeProposal_cost pid p fail s :
  JsMap.get (proposals s) (id p) = Some p ->
  (executions pid (executeProposal p fail s).2 + pending pid (executeProposal p fail s).1
   <= pending pid s)%nat.
Proof.
  intros Hg. unfold executeProposal. case_bool_step; simpl; [lia|].
  apply orb_false_iff in Heqb as [Hex _].
  rewrite executions_cons, perform_executions.
  unfold pending. simpl. case_bool_decide as E; simpl.
  - subst pid. rewrite JsMap.get_set_eq, Hg, Hex. done.
  - by rewrite JsMap.get_set_ne.
Qed.

Lemma handleVote_cost pid m now fail i b ok s :
  inv s ->
  (executions pid (handleVote m now fail i b ok s).2 + pending pid (handleVote m now fail i b ok s).1
   <= pending pid s)%nat.
Proof.
  intros Hi. unfold handleVote. destruct (JsMap.get (proposals s) i) as [p|] eqn:E; [|simpl; lia].
  destruct (inv_get s i p Hi E) as [Hid _].
  destruct (executed p) eqn:Hex; [simpl; lia|].
  set (p' := set_votes _ p). set (s' := mkService _ _).
  assert (JsMap.get (proposals s') (id p') = Some p') as Hg'.
  { simpl. rewrite Hid. apply JsMap.get_set_eq. }
  assert (pending pid s' = pending pid s) as Hp.
  { unfold pending. simpl. destruct (decide (i = pid)) as [->|].
    - rewrite JsMap.get_set_eq, E. simpl. by rewrite Hex.
    - by rewrite JsMap.get_set_ne. }
  rewrite <- Hp. repeat case_bool_step; try (by apply executeProposal_cost). simpl. lia.
Qed.

Lemma pending_le pid s : (pending pid s <= 1)%nat.
Proof. unfold pending. repeat case_match; lia. Qed.

Lemma filter_get_sub {V} (f : string * V -> bool) (l : list (string * V)) k v :
  JsMap.wf l -> JsMap.get (List.filter f l) k = Some v -> JsMap.get l k = Some v.
Proof.
  intros Hwf Hg. apply JsMap.elem_get; [done|]. apply JsMap.get_Some_elem in Hg.
  apply list_elem_of_In, filter_In in Hg as [Hg _]. by apply list_elem_of_In.
Qed.

Lemma step_cost pid s e :
  inv s ->
  (executions pid (step s e).2 + pending pid (step s e).1
   <= pending pid s + (if is_creation pid s e then 1 else 0))%nat.
Proof.
  intros Hi. destruct e as [m now uuid ty tgt pl|m now fail uuid|m now i b ty tgt pl
    |m now fail i b ok|i|now]; simpl.
  - unfold pending at 1. simpl. destruct (decide (uuid = pid)) as [->|].
    + rewrite JsMap.get_set_eq, bool_decide_eq_true_2 by done. simpl. lia.
    + rewrite JsMap.get_set_ne by done. fold (pending pid s). lia.
  - unfold proposeFinish. case_bool_step; [|simpl; lia].
    pose proof (handleVote_cost pid m now fail uuid (nodeId m) true s Hi). lia.
  - unfold handleProposal. destruct (JsMap.has (proposals s) i) eqn:E; simpl; [lia|].
    unfold pending at 1. simpl. destruct (decide (i = pid)) as [->|].
    + rewrite JsMap.get_set_eq, bool_decide_eq_true_2 by done. simpl. lia.
    + rewrite JsMap.get_set_ne by done. fold (pending pid s). lia.
  - pose proof (handleVote_cost pid m now fail i b ok s Hi). lia.
  - unfold pending. simpl. lia.
  - unfold pending. simpl.
    destruct (JsMap.get (List.filter _ (proposals s)) pid) as [p|] eqn:E; [|lia].
    apply filter_get_sub in E; [|by destruct Hi]. rewrite E. lia.
Qed.

Lemma executions_app pid a b : executions pid (a ++ b) = (executions pid a + executions pid b)%nat.
Proof. unfold executions. by rewrite List.filter_app, length_app. Qed.

Lemma run_cost pid es : forall s, inv s ->
  (executions pid (run s es).2 + pending pid (run s es).1 <= pending pid s + creations pid s es)%nat.
Proof.
  induction es as [|e es IH]; intros s Hi; simpl; [lia|].
  pose proof (step_cost pid s e Hi) as Hc. pose proof (governance_step_inv s e Hi) as Hi'.
  destruct (step s e) as [s' fx]. simpl in *. specialize (IH s' Hi').
  destruct (run s' es) as [s'' fxs]. simpl in *. rewrite executions_app. lia.
Qed.

Lemma governance_new_inv : inv new.
Proof. split; simpl; constructor. Qed.

Lemma governance_run_inv es : forall s, inv s -> inv (run s es).1.
Proof.
  induction es as [|e es IH]; intros s Hi; simpl; [done|].
  pose proof (governance_step_inv s e Hi) as Hi'. destruct (step s e) as [s' fx]. simpl in Hi'.
  specialize (IH s' Hi'). by destruct (run s' es).
Qed.

(** ** Properties *)

(** A high-impact action is executed at most once per proposal: in every
    run of proposals, votes, lock releases and cleanups, in any order, the
    number of times proposal [pid] is executed is at most the number of times
    it was entered into the table; with a fresh identifier that is once, until
    the 24-hour cleanup forgets it. *)
Theorem executed_at_most_once pid es :
  (executions pid (run new es).2 <= creations pid new es)%nat.
Proof.
  pose proof (run_cost pid es new governance_new_inv) as H. unfold pending in H at 2. simpl in H. lia.
Qed.

(** Every execution has its quorum: in every reachable state, a vote on a
    pending proposal whose lock is free executes it exactly when the node is
    alone or a strict majority of the active nodes (this one included) has an
    approving vote after this one is counted, one vote per voter. *)
Theorem vote_executes_iff_quorum es m now fail pid b ok p :
  let s := (run new es).1 in
  JsMap.get (proposals s) pid = Some p -> executed p = false ->
  pid ∉ executionLocks s -> 0 <= activeNodeCount m ->
  let vs := recordVote (mkVote b ok now) (votes p) in
  NoDup (map voter vs) /\
  (In (Executed pid) (handleVote m now fail pid b ok s).2 <->
   activeNodeCount m = 0 \/ activeNodeCount m + 1 < 2 * approveCount vs).
Proof.
  intros s Hg Hex Hlock Hact vs. pose proof (governance_run_inv es new governance_new_inv) as Hi. fold s in Hi.
  destruct (inv_get s pid p Hi Hg) as [Hid Hnd].
  split; [by apply recordVote_NoDup|].
  unfold handleVote. rewrite Hg, Hex. fold vs.
  set (p' := set_votes vs p). set (s' := mkService _ _).
  assert (In (Executed pid) (executeProposal p' fail s').2) as Hin.
  { unfold executeProposal. simpl. rewrite Hex, Hid.
    rewrite bool_decide_eq_false_2 by done. simpl. by left. }
  pose proof (Z.div_mod (activeNodeCount m + 1) 2 ltac:(lia)).
  pose proof (Z.mod_pos_bound (activeNodeCount m + 1) 2 ltac:(lia)).
  change (votes p') with vs.
  destruct (Z.eqb_spec (activeNodeCount m + 1) 1) as [E|E].
  { split; [|done]. intros _. left. lia. }
  destruct (Z.leb_spec ((activeNodeCount m + 1) / 2 + 1) (approveCount vs)) as [Hq|Hq].
  - split; [|done]. intros _. right. lia.
  - split; [done|]. lia.
Qed.

(** A proposal is endorsed only when the proposer is a known node and,
    for LOCKDOWN, only when that node has *not* been seen for at least 60
    seconds: the "uptime" the policy tests is the time since the last contact,
    so a live node's LOCKDOWN is refused and a silent node's is endorsed. *)
Lemma lockdown_policy m now p n :
  ptype p = LOCKDOWN ->
  find (fun n => bool_decide (n_id n = proposer p)) (nodes m) = Some n ->
  (verifyPolicy m now p = true <-> 60000 <= now - lastSeen n).
Proof.
  intros Ht Hn. unfold verifyPolicy. rewrite Hn, Ht, bool_decide_eq_true_2 by done. simpl.
  rewrite negb_true_iff, Z.ltb_ge. done.
Qed.

(** With no active peer, any first vote on a pending proposal executes it,
    a rejecting vote included. *)
Lemma lone_node_executes_on_any_vote m now fail pid b ok s p :
  activeNodeCount m = 0 -> JsMap.get (proposals s) pid = Some p -> id p = pid ->
  executed p = false -> pid ∉ executionLocks s ->
  In (Executed pid) (handleVote m now fail pid b ok s).2.
Proof.
  intros Hact Hg Hid Hex Hlock. unfold handleVote. rewrite Hg, Hex, Hact. simpl.
  unfold executeProposal. simpl. rewrite Hex, Hid, bool_decide_eq_false_2 by done. by left.
Qed.
End governance.

(** ** Witnesses *)

Definition mesh0 : Mesh := {| nodeId := "a"; nodes := [{| n_id := "b"; lastSeen := 1000 |}];
                              activeNodeCount := 2 |}.
Definition run0 : list (event (P := unit)) :=
  [Propose mesh0 0 "p1" LOCKDOWN "*" tt; ReceiveVote mesh0 5 false "p1" "b" false].

Lemma vote_executes_iff_quorum_witness :
  let vs := recordVote (mkVote "b" true 9) [mkVote "a" true 0; mkVote "b" false 5] in
  NoDup (map voter vs) /\
  (In (Executed "p1") (handleVote mesh0 9 false "p1" "b" true (run new run0).1).2 <->
   activeNodeCount mesh0 = 0 \/ activeNodeCount mesh0 + 1 < 2 * approveCount vs).
Proof.
  apply (vote_executes_iff_quorum run0 mesh0 9 false "p1" "b" true
    (mkProposal "p1" "a" LOCKDOWN "*" tt [mkVote "a" true 0; mkVote "b" false 5] 0 false)).
  - reflexivity.
  - reflexivity.
  - simpl. set_solver.
  - simpl. lia.
Defined.

Lemma lockdown_policy_witness :
  verifyPolicy mesh0 2000 (mkProposal "p" "b" LOCKDOWN "*" tt [] 0 false) = true
  <-> 60000 <= 2000 - 1000.
Proof.
  apply (lockdown_policy mesh0 2000 (mkProposal "p" "b" LOCKDOWN "*" tt [] 0 false)
    {| n_id := "b"; lastSeen := 1000 |}); reflexivity.
Defined.

Lemma lone_node_executes_on_any_vote_witness :
  In (Executed "p")
    (handleVote {| nodeId := "a"; nodes := []; activeNodeCount := 0 |} 1 false "p" "z" false
       (mkService [("p", mkProposal "p" "b" ACTIVE_SABOTAGE "203.0.113.9" tt [] 0 false)] [])).2.
Proof.
  apply (lone_node_executes_on_any_vote _ _ _ _ _ _ _
    (mkProposal "p" "b" ACTIVE_SABOTAGE "203.0.113.9" tt [] 0 false));
    [reflexivity..|]. set_solver.
Defined.
End Governance.
