(* ===== verification/Consensus.v ===== *)
(** * Mesh consensus: quorum requests

    Models [src/orchestrator/domain/orchestration/mesh/consensus_manager.ts],
    class [MeshConsensusManager].  A request either is decided at once (alone
    or [SINGLE_NODE]), counts replies in memory (no KV store), or runs a saga:
    a KV record that the replies of the peers update with optimistic
    transactions, up to five attempts each, interleaved in any order.  What a
    peer answers and whether its signature verifies are inputs. *)

From S2P Require Import Prelude.

Module Consensus.
Section consensus.
(** The answers' payload, and [mesh.verifySignature(payload, signature, id)]. *)
Context {P : Type} (verifySignature : P -> string -> string -> bool).

Record MeshNode := { n_id : string; verified : bool; lastSeen : Z }.

Inductive Status := PENDING | APPROVED | DENIED.

Record ConsensusSaga := mkSaga {
  action : string;
  approvals : list string;
  sg_threshold : Z;
  total : Z;
  status : Status;
  createdAt : Z;
}.

(** [nodes.filter(n => n.verified && (now - n.lastSeen) < 600000)] *)
Definition verifiedNodes (now : Z) (nodes : list MeshNode) : list MeshNode :=
  List.filter (fun n => verified n && (now - lastSeen n <? 600000)) nodes.

Definition threshold_for (allowSmallQuorum : bool) (N : Z) : Z :=
  if (N =? 2) && allowSmallQuorum then 1
  else if 4 <=? N then (2 * N) / 3 + 1
  else N / 2 + 1.

(** What [sendSync] gives back: a rejection, or [approved], [signature] (when
    it is a string) and [payload]. *)
Inductive Reply :=
| SendFailed
| Replied (approved : bool) (signature : option string) (payload : P).

Definition isValid (node : string) (r : Reply) : bool :=
  match r with
  | Replied true (Some sig) payload => verifySignature payload sig node
  | _ => false
  end.

(** Where one peer's closure stands. *)
Inductive Outcome :=
| Ignored      (** no valid approval *)
| Committed    (** the transaction succeeded *)
| Closed       (** the saga was no longer PENDING *)
| Exhausted.   (** five attempts failed *)

Inductive Activity :=
| Asked
| Looping (attempts : nat)
| Fetched (attempts : nat) (entry : ConsensusSaga) (version : nat)
| Finished (o : Outcome).

Record Peer := mkPeer { p_id : string; p_reply : Reply; p_act : Activity }.

(** The KV record with its versionstamp, and the peers' closures. *)
Record State := mkState { saga : ConsensusSaga; version : nat; peers : list Peer }.

(** The transaction's new value. *)
Definition approve (threshold : Z) (id : string) (e : ConsensusSaga) : ConsensusSaga :=
  let newApprovals := uniq (approvals e ++ [id]) in
  mkSaga (action e) newApprovals (sg_threshold e) (total e)
    (if threshold <=? Z.of_nat (length newApprovals) then APPROVED else PENDING) (createdAt e).

Definition is_pending (s : Status) : bool := match s with PENDING => true | _ => false end.

Definition set_act (i : nat) (p : Peer) (a : Activity) (s : State) : State :=
  mkState (saga s) (version s) (<[i := mkPeer (p_id p) (p_reply p) a]> (peers s)).

(** One asynchronous step of peer [i]'s closure: the reply arrives, the record
    is read, or the transaction commits or fails. *)
Definition step (threshold : Z) (s : State) (i : nat) : State :=
  match peers s !! i with
  | None => s
  | Some p =>
      match p_act p with
      | Asked =>
          set_act i p (if isValid (p_id p) (p_reply p) then Looping 0 else Finished Ignored) s
      | Looping a =>
          if (a <? 5)%nat then
            if is_pending (status (saga s)) then set_act i p (Fetched a (saga s) (version s)) s
            else set_act i p (Finished Closed) s
          else set_act i p (Finished Exhausted) s
      | Fetched a e v =>
          if (v =? version s)%nat then
            mkState (approve threshold (p_id p) e) (S (version s))
              (<[i := mkPeer (p_id p) (p_reply p) (Finished Committed)]> (peers s))
          else set_act i p (Looping (S a)) s
      | Finished _ => s
      end
  end.

Definition run (threshold : Z) (s : State) (sched : list nat) : State :=
  fold_left (step threshold) sched s.

(** The record and the closures right after the requests are sent. *)
Definition init (nodeId act : string) (now : Z) (threshold N : Z)
    (targets : list (MeshNode * Reply)) : State :=
  mkState (mkSaga act [nodeId] threshold N PENDING now) 0
    (map (fun t => mkPeer (n_id t.1) t.2 Asked) targets).

(** What the watcher resolves the request with when it sees this record;
    [None] while it waits. *)
Definition watch (s : State) : option bool :=
  match status (saga s) with APPROVED => Some true | DENIED => Some false | PENDING => None end.

(** The value of the request when the timeout fires in this state, or earlier. *)
Definition resolved (s : State) : bool := default false (watch s).

Inductive Request :=
| AutoApproved
| Counted (granted : bool)             (** without a KV store *)
| SagaStarted (threshold : Z) (s : State).

(** [requestQuorumCommand(action, data, nodes)] *)
Definition requestQuorumCommand (singleNode allowSmallQuorum hasKv : bool) (nodeId act : string)
    (now : Z) (answer : MeshNode -> Reply) (nodes : list MeshNode) : Request :=
  let vs := verifiedNodes now nodes in
  let N := Z.of_nat (length vs) + 1 in
  if singleNode || (N =? 1) then AutoApproved
  else
    let threshold := threshold_for allowSmallQuorum N in
    let targets := map (fun n => (n, answer n)) vs in
    if hasKv then SagaStarted threshold (init nodeId act now threshold N targets)
    else Counted (threshold <=? 1 + Z.of_nat (count (fun n => isValid (n_id n) (answer n)) vs)).

(** ** Invariant of a running saga *)

Definition committed (p : Peer) : bool :=
  match p_act p with Finished Committed => true | _ => false end.

Definition valid_peer (p : Peer) : bool := isValid (p_id p) (p_reply p).

(** What the state of a closure says about the record. *)
Definition peer_ok (s : State) (p : Peer) : Prop :=
  match p_act p with
  | Asked => True
  | Finished Ignored => valid_peer p = false
  | Looping a => valid_peer p = true /\ (a <= version s)%nat
  | Fetched a e v => valid_peer p = true /\ (a <= v <= version s)%nat /\
                     status e = PENDING /\ (v = version s -> e = saga s)
  | Finished Committed => valid_peer p = true /\ p_id p ∈ approvals (saga s)
  | Finished Closed => valid_peer p = true /\ status (saga s) <> PENDING
  | Finished Exhausted => valid_peer p = true /\ (5 <= version s)%nat
  end.

Record inv (nodeId : string) (threshold : Z) (s : State) : Prop := {
  inv_peers : Forall (peer_ok s) (peers s);
  inv_nodup : NoDup (approvals (saga s));
  inv_self : nodeId ∈ approvals (saga s);
  inv_source : forall x, x ∈ approvals (saga s) ->
    x = nodeId \/ exists p, p ∈ peers s /\ p_id p = x /\ committed p = true;
  inv_version : version s = count committed (peers s);
  inv_status : match status (saga s) with
               | PENDING => version s = 0%nat \/ Z.of_nat (length (approvals (saga s))) < threshold
               | APPROVED => threshold <= Z.of_nat (length (approvals (saga s))) /\ (0 < version s)%nat
               | DENIED => False
               end;
}.

Lemma init_inv nodeId act now threshold N targets :
  inv nodeId threshold (init nodeId act now threshold N targets).
Proof.
  split; simpl.
  - apply Forall_map, Forall_forall. done.
  - apply NoDup_singleton.
  - set_solver.
  - set_solver.
  - induction targets as [|t ts IH]; [done|]. simpl. by rewrite count_cons, <- IH.
  - by left.
Qed.

(** Changing the activity of one closure, record untouched. *)
Lemma set_act_inv nodeId threshold s i p a :
  inv nodeId threshold s -> peers s !! i = Some p ->
  peer_ok s (mkPeer (p_id p) (p_reply p) a) ->
  committed p = false -> committed (mkPeer (p_id p) (p_reply p) a) = false ->
  inv nodeId threshold (set_act i p a s).
Proof.
  intros [Hp Hnd Hself Hsrc Hv Hst] Hi Hok Hc Hc'. split; simpl; auto.
  - by apply Forall_insert_list.
  - intros x Hx. destruct (Hsrc x Hx) as [|(q & Hq & Hid & Hcq)]; [by left|]. right.
    exists q. split_and!; [|done..]. apply list_elem_of_lookup in Hq as [j Hj].
    apply list_elem_of_lookup. exists j. rewrite list_lookup_insert_ne; [done|].
    intros ->. congruence.
  - pose proof (count_insert committed (peers s) i p (mkPeer (p_id p) (p_reply p) a) Hi) as E.
    rewrite Hc, Hc' in E. lia.
Qed.

Lemma approve_elem threshold id e x :
  x ∈ approvals (approve threshold id e) <-> x ∈ approvals e \/ x = id.
Proof. simpl. rewrite uniq_elem. set_solver. Qed.

(** A commit keeps what the other closures rely on. *)
Lemma peer_ok_commit threshold s id ps q :
  status (saga s) = PENDING -> peer_ok s q ->
  peer_ok (mkState (approve threshold id (saga s)) (S (version s)) ps) q.
Proof.
  intros Hs Hq. unfold peer_ok in *. destruct (p_act q) as [|a|a e v|[]]; simpl; try done.
  - destruct Hq as [? ?]. split; [done|lia].
  - destruct Hq as (? & ? & ? & ?). split_and!; [done|lia|lia|done|lia].
  - destruct Hq as [? ?]. split; [done|]. change (p_id q ∈ approvals (approve threshold id (saga s))).
    rewrite approve_elem. by left.
  - by destruct Hq.
  - destruct Hq as [? ?]. split; [done|lia].
Qed.

Lemma commit_inv nodeId threshold s i p a :
  inv nodeId threshold s -> peers s !! i = Some p ->
  p_act p = Fetched a (saga s) (version s) ->
  inv nodeId threshold
    (mkState (approve threshold (p_id p) (saga s)) (S (version s))
       (<[i := mkPeer (p_id p) (p_reply p) (Finished Committed)]> (peers s))).
Proof.
  intros [Hp Hnd Hself Hsrc Hv Hst] Hi Ha.
  assert (peer_ok s p) as Hok by (eapply Forall_lookup_1; eauto).
  unfold peer_ok in Hok. rewrite Ha in Hok. destruct Hok as (Hval & _ & Hpend & _).
  assert (committed p = false) as Hc by (unfold committed; by rewrite Ha).
  split; simpl.
  - apply Forall_insert_list.
    + eapply Forall_impl; [exact Hp|]. intros q. by apply peer_ok_commit.
    + split; [done|]. simpl. rewrite uniq_elem. set_solver.
  - apply uniq_NoDup.
  - rewrite uniq_elem. set_solver.
  - intros x Hx. rewrite uniq_elem, elem_of_app, list_elem_of_singleton in Hx.
    destruct Hx as [Hx| ->].
    + destruct (Hsrc x Hx) as [|(q & Hq & Hid & Hcq)]; [by left|]. right. exists q.
      split_and!; [|done..]. apply list_elem_of_lookup in Hq as [j Hj].
      apply list_elem_of_lookup. exists j. rewrite list_lookup_insert_ne; [done|]. congruence.
    + right. exists (mkPeer (p_id p) (p_reply p) (Finished Committed)). split_and!; [|reflexivity|reflexivity].
      apply list_elem_of_lookup. exists i. by rewrite list_lookup_insert_eq by (by eapply lookup_lt_Some).
  - pose proof (count_insert committed (peers s) i p
      (mkPeer (p_id p) (p_reply p) (Finished Committed)) Hi) as E.
    rewrite Hc in E. simpl in E. lia.
  - destruct (Z.leb_spec threshold (Z.of_nat (length (uniq (approvals (saga s) ++ [p_id p])))));
      [split; [done|lia]|by right].
Qed.

Lemma consensus_step_inv nodeId threshold s i :
  inv nodeId threshold s -> inv nodeId threshold (step threshold s i).
Proof.
  intros Hi. unfold step. destruct (peers s !! i) as [p|] eqn:Ep; [|done].
  assert (peer_ok s p) as Hok by (destruct Hi; eapply Forall_lookup_1; eauto).
  destruct (p_act p) as [|a|a e v|o] eqn:Ea; [..|done];
    assert (committed p = false) as Hc by (unfold committed; by rewrite Ea);
    unfold peer_ok in Hok; rewrite Ea in Hok.
  - change (isValid (p_id p) (p_reply p)) with (valid_peer p).
    destruct (valid_peer p) eqn:Ev; apply set_act_inv; try done.
    split; [done|]. simpl. lia.
  - destruct Hok as [Hv Ha]. destruct (Nat.ltb_spec a 5).
    + destruct (status (saga s)) eqn:Es; simpl; apply set_act_inv; try done; unfold peer_ok; simpl.
      * rewrite Es. done.
      * rewrite Es. done.
    + apply set_act_inv; try done. split; [done|lia].
  - destruct Hok as (Hv & Ha & Hpend & He). destruct (Nat.eqb_spec v (version s)) as [E|E].
    + rewrite (He E) in *. subst v. by eapply commit_inv.
    + apply set_act_inv; try done. split; [done|lia].
Qed.

Lemma consensus_run_inv nodeId threshold sched : forall s,
  inv nodeId threshold s -> inv nodeId threshold (run threshold s sched).
Proof. induction sched as [|i sched IH]; intros s Hi; simpl; [done|]. by apply IH, consensus_step_inv. Qed.

(** The closures keep their peer and its reply. *)
Definition ident (p : Peer) : string * Reply := (p_id p, p_reply p).

Lemma step_ident threshold s i : map ident (peers (step threshold s i)) = map ident (peers s).
Proof.
  assert (forall p a, peers s !! i = Some p ->
    map ident (<[i := mkPeer (p_id p) (p_reply p) a]> (peers s)) = map ident (peers s)) as H.
  { intros p a Hp. rewrite list_fmap_insert. apply list_insert_id.
    rewrite list_lookup_fmap, Hp. done. }
  unfold step. destruct (peers s !! i) as [p|] eqn:E; [|done].
  destruct (p_act p); repeat case_bool_step; simpl; auto.
Qed.

Lemma run_ident threshold sched : forall s,
  map ident (peers (run threshold s sched)) = map ident (peers s).
Proof.
  induction sched as [|i sched IH]; intros s; simpl; [done|].
  change (fold_left (step threshold) sched ?x) with (run threshold x sched).
  by rewrite IH, step_ident.
Qed.

(** ** Soundness of an approved saga *)

Definition approvers_ok (self : string) (now : Z) (answer : MeshNode -> Reply)
    (nodes : list MeshNode) (a : list string) : Prop :=
  forall x, x ∈ a -> x = self \/
    exists n, n ∈ nodes /\ n_id n = x /\ verified n = true /\ now - lastSeen n < 600000 /\
              isValid x (answer n) = true.

Lemma started_shape single small kv self act now answer nodes t s0 :
  requestQuorumCommand single small kv self act now answer nodes = SagaStarted t s0 ->
  t = threshold_for small (Z.of_nat (length (verifiedNodes now nodes)) + 1) /\
  s0 = init self act now t (Z.of_nat (length (verifiedNodes now nodes)) + 1)
         (map (fun n => (n, answer n)) (verifiedNodes now nodes)) /\
  (0 < length (verifiedNodes now nodes))%nat.
Proof.
  unfold requestQuorumCommand. case_bool_step; [done|]. apply orb_false_iff in Heqb as [_ HN].
  apply Z.eqb_neq in HN. case_bool_step; [|done]. intros [= <- <-]. split_and!; [done..|lia].
Qed.

Lemma peer_of_node self act now t N answer vs sched p :
  p ∈ peers (run t (init self act now t N (map (fun n => (n, answer n)) vs)) sched) ->
  exists n, n ∈ vs /\ n_id n = p_id p /\ answer n = p_reply p.
Proof.
  intros Hp. apply (list_elem_of_fmap_2 ident) in Hp.
  rewrite run_ident in Hp. simpl in Hp. rewrite !map_map in Hp.
  apply list_elem_of_fmap in Hp as (n & Hn & Hin). unfold ident in Hn. simplify_eq/=. eauto.
Qed.

Lemma approvers_sound single small self act now answer nodes t s0 sched :
  requestQuorumCommand single small true self act now answer nodes = SagaStarted t s0 ->
  let a := approvals (saga (run t s0 sched)) in
  NoDup a /\ approvers_ok self now answer nodes a.
Proof.
  intros Hs. destruct (started_shape _ _ _ _ _ _ _ _ _ _ Hs) as (_ & -> & _). simpl.
  set (vs := verifiedNodes now nodes). set (s := run t _ sched).
  assert (inv self t s) as Hi by apply consensus_run_inv, init_inv.
  split; [by destruct Hi|]. intros x Hx.
  destruct (inv_source _ _ _ Hi x Hx) as [->|(p & Hp & Hid & Hc)]; [by left|right].
  destruct (peer_of_node _ _ _ _ _ _ _ _ _ Hp) as (n & Hn & Hnid & Hans).
  exists n. apply list_elem_of_In in Hn. apply filter_In in Hn as [Hn Hv].
  apply andb_true_iff in Hv as [Hv1 Hv2]. apply Z.ltb_lt in Hv2. apply list_elem_of_In in Hn.
  split_and!; [done|congruence|done|done|].
  assert (peer_ok s p) as Hok by (destruct Hi as [Hf _ _ _ _ _]; rewrite Forall_forall in Hf; auto).
  unfold peer_ok, committed in *. rewrite Hans, <- Hid.
  destruct (p_act p) as [| | |[]]; try done. by destruct Hok.
Qed.

Lemma resolved_approved self t s : inv self t s -> resolved s = true ->
  t <= Z.of_nat (length (approvals (saga s))).
Proof.
  intros Hi. unfold resolved, watch. pose proof (inv_status _ _ _ Hi) as H.
  destruct (status (saga s)); [done|by destruct H|done].
Qed.

(** Two sub-multisets of [m] overlap by what they exceed it. *)
Lemma overlap (m a b : list string) :
  NoDup a -> NoDup b -> (forall x, x ∈ a -> x ∈ m) -> (forall x, x ∈ b -> x ∈ m) ->
  (length a + length b <= length m + count (fun x => bool_decide (x ∈ b)) a)%nat.
Proof.
  intros Ha Hb Ham Hbm.
  set (out := base.filter (fun x => x ∉ b) a).
  assert (length a = count (fun x => bool_decide (x ∈ b)) a + length out)%nat as E.
  { subst out. clear. induction a as [|x a IH]; [done|]. rewrite count_cons, filter_cons.
    case_bool_decide; case_decide; simpl; try done; lia. }
  assert (length (out ++ b) <= length m)%nat as L.
  { apply submseteq_length, NoDup_submseteq.
    - apply NoDup_app. split_and!; [by apply NoDup_filter| |done].
      intros x Hx. by apply list_elem_of_filter in Hx as [? _].
    - intros x Hx. apply elem_of_app in Hx as [Hx|Hx]; [|auto].
      apply list_elem_of_filter in Hx as [_ ?]. auto. }
  rewrite length_app in L. lia.
Qed.

Lemma count_pos {A} (f : A -> bool) l : (0 < count f l)%nat -> exists x, x ∈ l /\ f x = true.
Proof.
  unfold count. destruct (List.filter f l) as [|x k] eqn:E; simpl; [lia|]. intros _.
  assert (In x (List.filter f l)) as H by (rewrite E; by left).
  apply filter_In in H as [H1 H2]. exists x. by rewrite list_elem_of_In.
Qed.

Lemma threshold_majority small N :
  2 <= N -> (small = false \/ N <> 2) ->
  N < 2 * threshold_for small N /\ (4 <= N -> 2 * N < 3 * threshold_for small N).
Proof.
  intros HN Hs. unfold threshold_for.
  pose proof (Z.div_mod N 2 ltac:(lia)). pose proof (Z.mod_pos_bound N 2 ltac:(lia)).
  pose proof (Z.div_mod (2 * N) 3 ltac:(lia)). pose proof (Z.mod_pos_bound (2 * N) 3 ltac:(lia)).
  destruct (Z.eqb_spec N 2) as [->|]; simpl.
  - destruct Hs as [->|]; [|done]. simpl in *. lia.
  - destruct (Z.leb_spec 4 N); lia.
Qed.

(** ** Properties *)

(** An approved saga has its quorum: for every schedule of replies, reads
    and transactions, when the request resolves to true the recorded
    approvals are pairwise distinct, at least [threshold] of them, and each is
    the requester or a verified node seen in the last ten minutes whose
    approval carries a signature that verifies under that node's id. *)
Theorem quorum_sound single small self act now answer nodes t s0 sched :
  requestQuorumCommand single small true self act now answer nodes = SagaStarted t s0 ->
  resolved (run t s0 sched) = true ->
  let a := approvals (saga (run t s0 sched)) in
  NoDup a /\ t <= Z.of_nat (length a) /\ approvers_ok self now answer nodes a.
Proof.
  intros Hs Hr a. destruct (approvers_sound _ _ _ _ _ _ _ _ _ sched Hs) as [Hnd Hok].
  split_and!; [done| |done]. apply (resolved_approved self); [|done].
  destruct (started_shape _ _ _ _ _ _ _ _ _ _ Hs) as (_ & -> & _). apply consensus_run_inv, init_inv.
Qed.

(** Quorums intersect: take two approved sagas whose participants are the
    members of one mesh of [N] nodes.  Unless the two-node exception is
    switched on and applies, some node approved both; from four nodes on, more
    than a third of the mesh did. *)
Theorem quorums_intersect single small act act' self self' now now' answer answer' nodes nodes'
    s0 s0' sched sched' (members : list string) :
  let N := Z.of_nat (length members) in
  let t := threshold_for small N in
  small = false \/ N <> 2 ->
  requestQuorumCommand single small true self act now answer nodes = SagaStarted t s0 ->
  requestQuorumCommand single small true self' act' now' answer' nodes' = SagaStarted t s0' ->
  (forall n, n ∈ nodes \/ n ∈ nodes' -> n_id n ∈ members) -> self ∈ members -> self' ∈ members ->
  2 <= N ->
  resolved (run t s0 sched) = true -> resolved (run t s0' sched') = true ->
  let a := approvals (saga (run t s0 sched)) in
  let b := approvals (saga (run t s0' sched')) in
  (exists x, x ∈ a /\ x ∈ b) /\
  (4 <= N -> N < 3 * Z.of_nat (count (fun x => bool_decide (x ∈ b)) a)).
Proof.
  intros N t Hsm Hs Hs' Hm Hself Hself' HN Hr Hr' a b.
  destruct (approvers_sound _ _ _ _ _ _ _ _ _ sched Hs) as [Hnd Hok].
  destruct (approvers_sound _ _ _ _ _ _ _ _ _ sched' Hs') as [Hnd' Hok'].
  fold a in Hnd, Hok. fold b in Hnd', Hok'.
  assert (t <= Z.of_nat (length a)) as Ha.
  { apply (resolved_approved self); [|done].
    destruct (started_shape _ _ _ _ _ _ _ _ _ _ Hs) as (_ & -> & _). apply consensus_run_inv, init_inv. }
  assert (t <= Z.of_nat (length b)) as Hb.
  { apply (resolved_approved self'); [|done].
    destruct (started_shape _ _ _ _ _ _ _ _ _ _ Hs') as (_ & -> & _). apply consensus_run_inv, init_inv. }
  pose proof (threshold_majority small N HN Hsm) as [Hmaj Hbyz]. fold t in Hmaj, Hbyz.
  pose proof (overlap members a b Hnd Hnd') as Hov.
  assert (length a + length b <= length members + count (fun x => bool_decide (x ∈ b)) a)%nat as Ho.
  { apply Hov; intros x Hx; [destruct (Hok x Hx) as [->|(n & Hn & <- & _)]
                            |destruct (Hok' x Hx) as [->|(n & Hn & <- & _)]]; auto. }
  split; [|intros H4; specialize (Hbyz H4); lia].
  destruct (count_pos (fun x => bool_decide (x ∈ b)) a) as (x & Hx & Hxb); [lia|].
  exists x. by apply bool_decide_eq_true in Hxb.
Qed.

(** No approval is lost: with at most five validly approving peers, once
    all closures have finished, every such peer is among the approvals unless
    the saga already left PENDING, and the request is then granted exactly
    when the approvals reach the threshold or it was granted before. *)
Theorem no_lost_approvals single small self act now answer nodes t s0 sched :
  requestQuorumCommand single small true self act now answer nodes = SagaStarted t s0 ->
  let s := run t s0 sched in
  (count valid_peer (peers s) <= 5)%nat ->
  Forall (fun p => exists o, p_act p = Finished o) (peers s) ->
  (resolved s = true \/ forall p, p ∈ peers s -> valid_peer p = true -> p_id p ∈ approvals (saga s)) /\
  (resolved s = false -> version s = 0%nat \/ Z.of_nat (length (approvals (saga s))) < t).
Proof.
  intros Hs s Hcnt Hfin.
  assert (inv self t s) as Hi.
  { destruct (started_shape _ _ _ _ _ _ _ _ _ _ Hs) as (_ & -> & _). apply consensus_run_inv, init_inv. }
  pose proof (inv_status _ _ _ Hi) as Hst. pose proof (inv_version _ _ _ Hi) as Hver.
  unfold resolved, watch. destruct (status (saga s)) eqn:Es; simpl; [|by split; [left|]|done].
  split; [|done]. right. intros p Hp Hv.
  rewrite Forall_forall in Hfin. destruct (Hfin p Hp) as [o Ho].
  pose proof (inv_peers _ _ _ Hi) as Hps. rewrite Forall_forall in Hps.
  pose proof (Hps p Hp) as Hok. unfold peer_ok in Hok. rewrite Ho in Hok.
  destruct o; [congruence|by destruct Hok|by destruct Hok|]. exfalso.
  assert (count committed (peers s) < count valid_peer (peers s))%nat; [|lia].
  apply (count_lt _ _ _ p); [|done|unfold committed; by rewrite Ho|done].
  intros q Hq Hcq. specialize (Hps q Hq). unfold peer_ok, committed in *.
  destruct (p_act q) as [| | |[]]; try done. by destruct Hps.
Qed.

(** The two-node exception behaves differently in the two modes: with one
    verified peer that does not approve and [ALLOW_SMALL_QUORUM] on, the
    threshold is 1; without a KV store the request is granted at once, with
    one the saga never leaves PENDING and the request times out. *)
Theorem small_quorum_modes self act now answer nodes n :
  verifiedNodes now nodes = [n] -> isValid (n_id n) (answer n) = false ->
  requestQuorumCommand false true false self act now answer nodes = Counted true /\
  (exists s0, requestQuorumCommand false true true self act now answer nodes = SagaStarted 1 s0 /\
              forall sched, resolved (run 1 s0 sched) = false).
Proof.
  intros Hv Hinv. unfold requestQuorumCommand. rewrite Hv. simpl.
  rewrite count_cons, Hinv. split; [done|]. eexists. split; [done|]. intros sched.
  set (s0 := init _ _ _ _ _ _). set (s := run 1 s0 sched).
  assert (inv self 1 s) as Hi by apply consensus_run_inv, init_inv.
  assert (map ident (peers s) = [(n_id n, answer n)]) as Hid by apply run_ident.
  unfold resolved, watch. pose proof (inv_status _ _ _ Hi) as Hst.
  destruct (status (saga s)) eqn:Es; [done| |done]. exfalso.
  assert (count committed (peers s) = 0%nat) as Hc.
  { destruct (peers s) as [|p [|]] eqn:Ep; [done| |done]. injection Hid as Hp1 Hp2.
    pose proof (inv_peers _ _ _ Hi) as Hps. rewrite Ep in Hps. apply Forall_cons in Hps as [Hok _].
    rewrite count_cons. unfold peer_ok, committed, valid_peer in *.
    destruct (p_act p) as [| | |[]]; try done. destruct Hok as [Hok _]. congruence. }
  pose proof (inv_version _ _ _ Hi). lia.
Qed.
End consensus.

(** ** Witnesses *)

Definition toy_verify (payload sig node : string) : bool := bool_decide (sig = node).
Definition node0 (i : string) : MeshNode := {| n_id := i; verified := true; lastSeen := 0 |}.
Definition nodes0 : list MeshNode := [node0 "b"; node0 "c"].
Definition yes (n : MeshNode) : Reply := Replied true (Some (n_id n)) "ok".
Definition start0 (self : string) (ns : list MeshNode) : State :=
  init self "UNLOCK" 1 2 3 (map (fun n => (n, yes n)) ns).

Lemma quorum_sound_witness :
  let s := run toy_verify 2 (start0 "a" nodes0) [0; 1; 0; 1; 0; 1; 1]%nat in
  NoDup (approvals (saga s)) /\ 2 <= Z.of_nat (length (approvals (saga s))) /\
  approvers_ok toy_verify "a" 1 yes nodes0 (approvals (saga s)).
Proof. apply (quorum_sound toy_verify false false "a" "UNLOCK"); vm_compute; reflexivity. Defined.

Lemma quorums_intersect_witness :
  let a := approvals (saga (run toy_verify 2 (start0 "a" nodes0) [0; 0; 0]%nat)) in
  let b := approvals (saga (run toy_verify 2 (start0 "b" [node0 "a"; node0 "c"]) [1; 1; 1; 0]%nat)) in
  (exists x, x ∈ a /\ x ∈ b) /\ (4 <= 3 -> 3 < 3 * Z.of_nat (count (fun x => bool_decide (x ∈ b)) a)).
Proof.
  apply (quorums_intersect toy_verify false false "UNLOCK" "UNLOCK" "a" "b" 1 1 yes yes
    nodes0 [node0 "a"; node0 "c"] _ _ _ _ ["a"; "b"; "c"]); try (vm_compute; reflexivity).
  - by left.
  - intros n [H|H]; unfold nodes0 in H; set_solver.
  - set_solver.
  - set_solver.
  - simpl. lia.
Defined.

Lemma no_lost_approvals_witness :
  let s := run toy_verify 2 (start0 "a" nodes0) [0; 1; 0; 1; 0; 1; 1]%nat in
  (resolved s = true \/
   forall p, p ∈ peers s -> valid_peer toy_verify p = true -> p_id p ∈ approvals (saga s)) /\
  (resolved s = false -> version s = 0%nat \/ Z.of_nat (length (approvals (saga s))) < 2).
Proof.
  apply (no_lost_approvals toy_verify false false "a" "UNLOCK" 1 yes nodes0).
  - vm_compute. reflexivity.
  - vm_compute. lia.
  - repeat constructor; eexists; reflexivity.
Defined.

Lemma small_quorum_modes_witness :
  let no (n : MeshNode) := @SendFailed string in
  requestQuorumCommand toy_verify false true false "a" "UNLOCK" 1 no [node0 "b"] = Counted true /\
  (exists s0, requestQuorumCommand toy_verify false true true "a" "UNLOCK" 1 no [node0 "b"]
                = SagaStarted 1 s0 /\
              forall sched, resolved (run toy_verify 1 s0 sched) = false).
Proof. apply (small_quorum_modes toy_verify "a" "UNLOCK" 1 _ [node0 "b"] (node0 "b")); reflexivity. Defined.
End Consensus.
