(* ===== verification/Gossip.v ===== *)
(** * Mesh gossip

    Models [src/orchestrator/domain/orchestration/mesh/gossip_manager.ts],
    class [MeshGossipManager]: duplicate suppression with the Bloom filter,
    the hop limit, delivery in batches of sixteen, and the circuit breaker and
    [retry] around every [sendSync].  The digest of the serialised payload and
    the outcome of every send are inputs. *)

From S2P Require Import Prelude Result JsMap JsString Bloom Resilience.

Module Gossip.
Section gossip.
(** The payload without its [hops] field, what [sendSync] resolves to and the
    errors it rejects with. *)
Context {P A E : Type}.

Record Payload := mkPayload { body : P; hops : option Z }.

(** The hex SHA-256 of [JSON.stringify(payload)]. *)
Context (digest : Payload -> jsstr).
(** The n-th attempt of [sendSync(node, payload)], the jitter words and the
    error [retry] falls back to. *)
Context (sendSync : string -> Payload -> Z -> settled A E) (random : Z -> Z) (exhausted : E).

Record MeshNode := { n_id : string; verified : bool }.

Record Manager := mkManager {
  gossipCache : Bloom.BloomFilter;
  circuitBreakers : list (string * Breaker.CircuitBreaker);
}.

Definition new : Manager := mkManager (Bloom.new 10000 4) [].

Definition MAX_GOSSIP_CONCURRENCY : nat := 16.

(** The [for] loop that slices the nodes, [n] iterations left. *)
Fixpoint batches_go (n : nat) (i : nat) (ns : list MeshNode) : list (list MeshNode) :=
  match n with
  | O => []
  | S n => if (i <? length ns)%nat
           then take MAX_GOSSIP_CONCURRENCY (drop i ns)
                :: batches_go n (i + MAX_GOSSIP_CONCURRENCY) ns
           else []
  end.
Definition batches (ns : list MeshNode) : list (list MeshNode) := batches_go (length ns) 0 ns.

Inductive effect :=
| Pause (ms : nat)                           (** the per-node stagger *)
| Send (node : string) (attempt : Z)         (** [mesh.sendSync(node, payload)] *)
| LogFailure (node : string).                (** "Gossip failure to ..." *)

Definition breakerOptions : Breaker.CircuitBreakerOptions :=
  {| Breaker.failureThreshold := 3; Breaker.resetTimeoutMs := 60000 |}.

Definition retryOptions (priority : bool) : Retry.RetryOptions :=
  {| Retry.maxAttempts := if priority then 3 else 1; Retry.baseDelayMs := 200;
     Retry.maxDelayMs := None; Retry.factor := None |}.

(** The closure run for one node of a batch. *)
Definition deliver (priority : bool) (p : Payload) (now now' : Z) (batchIndex nodeIndex : nat)
    (node : MeshNode) (m : Manager) : Manager * list effect :=
  let pause := if priority then []
               else [Pause ((batchIndex * MAX_GOSSIP_CONCURRENCY + nodeIndex) * 100)] in
  let breaker := default Breaker.new (JsMap.get (circuitBreakers m) (n_id node)) in
  let '(result, trace) :=
    Retry.retry (sendSync (n_id node) p) random exhausted (retryOptions priority) in
  (* [retry] is an async function that never throws: the promise resolves *)
  let '(breaker, gossipRes, called) :=
    Breaker.execute (E := E) breakerOptions breaker now now' (Resolved result) in
  (mkManager (gossipCache m) (JsMap.set (circuitBreakers m) (n_id node) breaker),
   pause ++ (if called then map (Send (n_id node)) (Retry.calls trace) else [])
         ++ (if success gossipRes then [] else [LogFailure (n_id node)])).

(** One batch, then all batches; [clock] gives the two clock readings of the
    closure of the k-th node. *)
Fixpoint run_batch (priority : bool) (p : Payload) (clock : nat -> Z * Z) (batchIndex nodeIndex : nat)
    (batch : list MeshNode) (m : Manager) : Manager * list effect :=
  match batch with
  | [] => (m, [])
  | node :: batch =>
      let '(now, now') := clock (batchIndex * MAX_GOSSIP_CONCURRENCY + nodeIndex)%nat in
      let '(m, fx) := deliver priority p now now' batchIndex nodeIndex node m in
      let '(m, fxs) := run_batch priority p clock batchIndex (S nodeIndex) batch m in
      (m, fx ++ fxs)
  end.

Fixpoint run_batches (priority : bool) (p : Payload) (clock : nat -> Z * Z) (batchIndex : nat)
    (bs : list (list MeshNode)) (m : Manager) : Manager * list effect :=
  match bs with
  | [] => (m, [])
  | b :: bs =>
      let '(m, fx) := run_batch priority p clock batchIndex 0 b m in
      let '(m, fxs) := run_batches priority p clock (S batchIndex) bs m in
      (m, fx ++ fxs)
  end.

(** [broadcast(payload, nodes, priority)]; [payload.hops] is written back into
    the caller's object, the last component. *)
Definition broadcast (p : Payload) (nodes : list MeshNode) (priority : bool)
    (clock : nat -> Z * Z) (m : Manager) : Manager * list effect * Payload :=
  let payloadHash := digest p in
  if Bloom.has (gossipCache m) payloadHash then (m, [], p)
  else
    let m := mkManager (Bloom.add (gossipCache m) payloadHash) (circuitBreakers m) in
    let h := default 0 (hops p) + 1 in
    let p := mkPayload (body p) (Some h) in
    if 5 <? h then (m, [], p)
    else
      let verifiedNodes := List.filter verified nodes in
      let '(m, fx) := run_batches priority p clock 0 (batches verifiedNodes) m in
      (m, fx, p).

(** ** Batching *)

Lemma batches_go_concat ns : forall n i,
  (length ns <= i + n)%nat -> concat (batches_go n i ns) = drop i ns.
Proof.
  induction n as [|n IH]; intros i Hn; simpl.
  - by rewrite drop_ge by lia.
  - destruct (Nat.ltb_spec i (length ns)) as [Hi|Hi]; simpl.
    + rewrite IH by (unfold MAX_GOSSIP_CONCURRENCY; lia).
      by rewrite <- drop_drop, take_drop.
    + by rewrite drop_ge by lia.
Qed.

Lemma batches_concat ns : concat (batches ns) = ns.
Proof. unfold batches. rewrite batches_go_concat by lia. by rewrite drop_0. Qed.

Lemma batches_go_small ns b n : forall i, b ∈ batches_go n i ns -> (length b <= 16)%nat.
Proof.
  induction n as [|n IH]; intros i; simpl; [by inversion 1|].
  case_bool_step; [|by inversion 1].
  intros Hb. apply elem_of_cons in Hb as [->|Hb]; [|by apply (IH _ Hb)].
  rewrite length_take. unfold MAX_GOSSIP_CONCURRENCY. lia.
Qed.

Lemma batches_small ns b : b ∈ batches ns -> (length b <= 16)%nat.
Proof. apply batches_go_small. Qed.

(** ** Delivery *)

Definition sends (fx : list effect) : list (string * Z) :=
  flat_map (fun f => match f with Send n a => [(n, a)] | _ => [] end) fx.

Definition failures (fx : list effect) : list string :=
  flat_map (fun f => match f with LogFailure n => [n] | _ => [] end) fx.

Definition pauses (fx : list effect) : list nat :=
  flat_map (fun f => match f with Pause ms => [ms] | _ => [] end) fx.

(** The attempts [retry] makes at one node. *)
Definition attempts (priority : bool) (p : Payload) (node : MeshNode) : list (string * Z) :=
  map (pair (n_id node))
    (Retry.calls (Retry.retry (sendSync (n_id node) p) random exhausted (retryOptions priority)).2).

(** Every breaker is closed with no failure counted. *)
Definition quiet (m : Manager) : Prop :=
  Forall (fun e => e.2 = Breaker.new) (circuitBreakers m).

Lemma quiet_get m i : quiet m -> default Breaker.new (JsMap.get (circuitBreakers m) i) = Breaker.new.
Proof.
  intros Hq. destruct (JsMap.get (circuitBreakers m) i) as [b|] eqn:Eb; [|done]. simpl.
  apply JsMap.get_Some_elem in Eb. unfold quiet in Hq. rewrite Forall_forall in Hq. exact (Hq _ Eb).
Qed.

Lemma quiet_set m c i : quiet m -> quiet (mkManager c (JsMap.set (circuitBreakers m) i Breaker.new)).
Proof.
  unfold quiet. simpl. generalize (circuitBreakers m) as l. induction l as [|[j b] l IH]; simpl.
  - by repeat constructor.
  - rewrite Forall_cons. intros [Hb Hl]. case_decide; constructor; auto.
Qed.

Lemma sends_app a b : sends (a ++ b) = sends a ++ sends b.
Proof. apply flat_map_app. Qed.
Lemma failures_app a b : failures (a ++ b) = failures a ++ failures b.
Proof. apply flat_map_app. Qed.
Lemma pauses_app a b : pauses (a ++ b) = pauses a ++ pauses b.
Proof. apply flat_map_app. Qed.

Lemma sent_effects n l :
  sends (map (Send n) l) = map (pair n) l /\ failures (map (Send n) l) = [] /\
  pauses (map (Send n) l) = [].
Proof. induction l as [|a l (IH1 & IH2 & IH3)]; simpl; [done|]. by rewrite IH1. Qed.

Definition stagger (priority : bool) (k : nat) : list nat := if priority then [] else [(k * 100)%nat].

Lemma deliver_spec priority p now now' bi ni node m :
  quiet m ->
  let '(m', fx) := deliver priority p now now' bi ni node m in
  quiet m' /\ gossipCache m' = gossipCache m /\ sends fx = attempts priority p node /\
  failures fx = [] /\ pauses fx = stagger priority (bi * MAX_GOSSIP_CONCURRENCY + ni).
Proof.
  intros Hq. unfold deliver, attempts. rewrite quiet_get by done.
  destruct (Retry.retry _ _ _ _) as [r tr]. simpl. rewrite app_nil_r.
  rewrite sends_app, failures_app, pauses_app.
  destruct (sent_effects (n_id node) (Retry.calls tr)) as (-> & -> & ->).
  split_and!; [by apply quiet_set|done|by destruct priority|by destruct priority|by destruct priority].
Qed.

Lemma run_batch_spec priority p clock bi batch : forall ni m,
  quiet m ->
  let '(m', fx) := run_batch priority p clock bi ni batch m in
  quiet m' /\ gossipCache m' = gossipCache m /\
  sends fx = flat_map (attempts priority p) batch /\ failures fx = [] /\
  pauses fx = flat_map (stagger priority) (seq (bi * MAX_GOSSIP_CONCURRENCY + ni) (length batch)).
Proof.
  induction batch as [|node batch IH]; intros ni m Hq; simpl; [done|].
  destruct (clock _) as [now now'].
  pose proof (deliver_spec priority p now now' bi ni node m Hq) as Hd.
  destruct (deliver _ _ _ _ _ _ _ _) as [m1 fx1]. destruct Hd as (Hq1 & Hc1 & Hs1 & Hf1 & Hp1).
  specialize (IH (S ni) m1 Hq1). destruct (run_batch _ _ _ _ _ _ _) as [m2 fx2].
  destruct IH as (Hq2 & Hc2 & Hs2 & Hf2 & Hp2).
  rewrite sends_app, failures_app, pauses_app, Hs1, Hs2, Hf1, Hf2, Hp1, Hp2, Nat.add_succ_r.
  split_and!; [done|congruence|done..].
Qed.

(** Every batch but the last is full: the running index is the position. *)
Lemma run_batches_spec priority p clock ns n : forall bi m,
  quiet m -> (length ns <= bi * MAX_GOSSIP_CONCURRENCY + n)%nat ->
  let '(m', fx) := run_batches priority p clock bi
                     (batches_go n (bi * MAX_GOSSIP_CONCURRENCY) ns) m in
  quiet m' /\ gossipCache m' = gossipCache m /\
  sends fx = flat_map (attempts priority p) (drop (bi * MAX_GOSSIP_CONCURRENCY) ns) /\
  failures fx = [] /\
  pauses fx = flat_map (stagger priority)
    (seq (bi * MAX_GOSSIP_CONCURRENCY) (length ns - bi * MAX_GOSSIP_CONCURRENCY)).
Proof.
  induction n as [|n IH]; intros bi m Hq Hn; simpl.
  { rewrite drop_ge, (proj2 (Nat.sub_0_le _ _)) by lia. done. }
  set (i := (bi * MAX_GOSSIP_CONCURRENCY)%nat) in *.
  destruct (Nat.ltb_spec i (length ns)) as [Hi|Hi]; simpl.
  2:{ rewrite drop_ge, (proj2 (Nat.sub_0_le _ _)) by lia. done. }
  pose proof (run_batch_spec priority p clock bi (take MAX_GOSSIP_CONCURRENCY (drop i ns)) 0 m Hq) as Hb.
  fold i in Hb. destruct (run_batch _ _ _ _ _ _ _) as [m1 fx1].
  destruct Hb as (Hq1 & Hc1 & Hs1 & Hf1 & Hp1).
  assert (i + MAX_GOSSIP_CONCURRENCY = S bi * MAX_GOSSIP_CONCURRENCY)%nat as Ei by (subst i; lia).
  specialize (IH (S bi) m1 Hq1). rewrite <- Ei in IH. unfold MAX_GOSSIP_CONCURRENCY in IH at 1.
  specialize (IH ltac:(lia)).
  destruct (run_batches _ _ _ _ _ _) as [m2 fx2]. destruct IH as (Hq2 & Hc2 & Hs2 & Hf2 & Hp2).
  rewrite sends_app, failures_app, pauses_app, Hs1, Hs2, Hf1, Hf2, Hp1, Hp2.
  split_and!; [done|congruence| |done|].
  - rewrite <- flat_map_app, <- drop_drop, take_drop. done.
  - rewrite <- flat_map_app, Nat.add_0_r, length_take, length_drop.
    f_equal. destruct (decide (length ns - i <= MAX_GOSSIP_CONCURRENCY)%nat) as [Hle|Hgt].
    + rewrite Nat.min_r by lia.
      replace (length ns - (i + MAX_GOSSIP_CONCURRENCY))%nat with 0%nat by lia. by rewrite app_nil_r.
    + rewrite Nat.min_l by lia. rewrite <- seq_app. f_equal. lia.
Qed.

(** Reachable managers: any sequence of broadcasts from a new one. *)
Inductive reachable : Manager -> Prop :=
| reach_new : reachable new
| reach_broadcast m p nodes priority clock :
    reachable m -> reachable (broadcast p nodes priority clock m).1.1.

Lemma broadcast_spec p nodes priority clock m :
  quiet m -> Bloom.wf (gossipCache m) ->
  let '(m', fx, p') := broadcast p nodes priority clock m in
  quiet m' /\ Bloom.wf (gossipCache m') /\ failures fx = [] /\
  Bloom.has (gossipCache m') (digest p) = true /\
  let h := default 0 (hops p) + 1 in
  let vs := List.filter verified nodes in
  if Bloom.has (gossipCache m) (digest p) then m' = m /\ fx = [] /\ p' = p
  else p' = mkPayload (body p) (Some h) /\
       if 5 <? h then fx = []
       else sends fx = flat_map (attempts priority p') vs /\
            pauses fx = flat_map (stagger priority) (seq 0 (length vs)).
Proof.
  intros Hq Hwf. unfold broadcast.
  destruct (Bloom.has (gossipCache m) (digest p)) eqn:Eh; [done|].
  pose proof (Bloom.add_wf (gossipCache m) (digest p) Hwf) as Hwf'.
  pose proof (Bloom.add_has_same (gossipCache m) (digest p) Hwf) as Hh'.
  destruct (5 <? default 0 (hops p) + 1) eqn:E5; [done|].
  set (p' := mkPayload _ _). set (m1 := mkManager _ _).
  pose proof (run_batches_spec priority p' clock (List.filter verified nodes)
    (length (List.filter verified nodes)) 0 m1 Hq ltac:(lia)) as H.
  simpl in H. fold (batches (List.filter verified nodes)) in H.
  destruct (run_batches _ _ _ _ _ _) as [m2 fx]. destruct H as (H1 & H2 & H3 & H4 & H5).
  rewrite H2. simpl. rewrite Nat.sub_0_r in H5. done.
Qed.

Lemma reachable_quiet m : reachable m -> quiet m /\ Bloom.wf (gossipCache m).
Proof.
  induction 1 as [|m p nodes priority clock Hr [Hq Hwf]].
  - split; [constructor|]. apply Bloom.new_wf; lia.
  - pose proof (broadcast_spec p nodes priority clock m Hq Hwf) as H.
    destruct (broadcast _ _ _ _ _) as [[m' fx] p']. by destruct H as (H1 & H2 & _).
Qed.

(** ** Properties *)

(** Delivery: after any history, broadcasting a payload the filter does not
    report as seen, with fewer than five hops, makes [retry]'s attempts at every
    verified node, each node once and in order, sixteen at a time, the k-th
    node held back by 100k ms unless the payload has priority; the payload
    carries one hop more and is from then on suppressed as seen.  A seen payload
    is not sent and not changed, and at the hop limit nothing is sent. *)
Theorem broadcast_delivery p nodes priority clock m :
  reachable m ->
  let '(m', fx, p') := broadcast p nodes priority clock m in
  let h := default 0 (hops p) + 1 in
  let vs := List.filter verified nodes in
  Bloom.has (gossipCache m') (digest p) = true /\
  Forall (fun b => (length b <= 16)%nat) (batches vs) /\
  if Bloom.has (gossipCache m) (digest p) then m' = m /\ fx = [] /\ p' = p
  else p' = mkPayload (body p) (Some h) /\
       if 5 <? h then fx = []
       else sends fx = flat_map (attempts priority p') vs /\
            pauses fx = flat_map (stagger priority) (seq 0 (length vs)).
Proof.
  intros Hr. destruct (reachable_quiet m Hr) as [Hq Hwf].
  pose proof (broadcast_spec p nodes priority clock m Hq Hwf) as H.
  destruct (broadcast _ _ _ _ _) as [[m' fx] p']. destruct H as (_ & _ & _ & Hh & H).
  split_and!; [done| |done]. apply Forall_forall. intros b. apply batches_small.
Qed.

(** The circuit breakers never trip: [retry] turns every failure into a
    value, so the breaker around it counts a success.  Whatever the sends
    return, no breaker ever leaves its initial closed state and no delivery
    failure is ever logged. *)
Theorem breakers_never_trip p nodes priority clock m :
  reachable m ->
  let '(m', fx, _) := broadcast p nodes priority clock m in
  Forall (fun e => e.2 = Breaker.new) (circuitBreakers m') /\ failures fx = [].
Proof.
  intros Hr. destruct (reachable_quiet m Hr) as [Hq Hwf].
  pose proof (broadcast_spec p nodes priority clock m Hq Hwf) as H.
  destruct (broadcast _ _ _ _ _) as [[m' fx] p']. by destruct H as (? & _ & ? & _).
Qed.
End gossip.

(** ** Witnesses: every send fails *)

Definition down (node : string) (p : @Payload string) (attempt : Z) : settled unit Z :=
  Rejected attempt.
Definition clock0 (k : nat) : Z * Z := (Z.of_nat k, Z.of_nat k).
Definition nodes0 : list MeshNode :=
  [{| n_id := "a"; verified := true |}; {| n_id := "b"; verified := false |};
   {| n_id := "c"; verified := true |}].
Definition hello : @Payload string := mkPayload "hello" None.
Definition digest0 (p : @Payload string) : jsstr := js (body p).
Definition broadcast0 (priority : bool) :=
  broadcast digest0 down (fun _ => 0) (-1) hello nodes0 priority clock0 new.

Lemma broadcast_delivery_witness :
  sends (broadcast0 true).1.2 = [("a", 1); ("a", 2); ("a", 3); ("c", 1); ("c", 2); ("c", 3)] /\
  Bloom.has (gossipCache (broadcast0 true).1.1) (digest0 hello) = true.
Proof.
  pose proof (broadcast_delivery digest0 down (fun _ => 0) (-1) hello nodes0 true clock0 new
    (reach_new _ _ _ _)) as H.
  fold (broadcast0 true) in H. destruct (broadcast0 true) as [[m fx] p] eqn:E. simpl.
  destruct H as (Hh & _ & H). split; [|exact Hh].
  replace (Bloom.has (gossipCache new) (digest0 hello)) with false in H by (vm_compute; reflexivity).
  destruct H as (-> & [-> _]). vm_compute. reflexivity.
Defined.

Lemma breakers_never_trip_witness :
  Forall (fun e => e.2 = Breaker.new) (circuitBreakers (broadcast0 true).1.1) /\
  failures (broadcast0 true).1.2 = [].
Proof.
  pose proof (breakers_never_trip digest0 down (fun _ => 0) (-1) hello nodes0 true clock0 new
    (reach_new _ _ _ _)) as H.
  fold (broadcast0 true) in H. by destruct (broadcast0 true) as [[m fx] p].
Defined.
End Gossip.
