(* ===== verification/JsSort.v ===== *)
(** * [Array.prototype.sort]

    Since ES2019 [sort] is stable: the result is the permutation of the array
    that is ordered by the comparator and keeps equal elements in place.
    [stable_sort lt l] is that permutation for a comparator that is negative
    exactly on the pairs [lt a b]. *)

From S2P Require Import Prelude.
From Stdlib Require Import Sorted Permutation.

Section sort.
Context {A : Type} (lt : A -> A -> bool).

Fixpoint insert_sorted (x : A) (l : list A) : list A :=
  match l with
  | [] => [x]
  | y :: l' => if lt y x then y :: insert_sorted x l' else x :: l
  end.

Definition stable_sort (l : list A) : list A := fold_right insert_sorted [] l.

(** [a] may stand before [b]. *)
Definition in_order (a b : A) : Prop := lt b a = false.

Lemma insert_perm x l : insert_sorted x l ≡ₚ x :: l.
Proof.
  induction l as [|y l IH]; simpl; [done|]. destruct (lt y x); [|done]. rewrite IH. by constructor.
Qed.

Lemma stable_sort_perm l : stable_sort l ≡ₚ l.
Proof. induction l as [|x l IH]; simpl; [done|]. by rewrite insert_perm, IH. Qed.

Lemma stable_sort_elem x l : x ∈ stable_sort l <-> x ∈ l.
Proof. by rewrite stable_sort_perm. Qed.

Class StrictWeak := {
  sw_asym a b : lt a b = true -> lt b a = false;
  sw_trans a b c : lt b a = false -> lt c b = false -> lt c a = false;
}.
Context `{StrictWeak}.

Lemma insert_ordered x l :
  StronglySorted in_order l -> StronglySorted in_order (insert_sorted x l).
Proof.
  induction 1 as [|y l Hl IH Hy]; simpl; [by repeat constructor|].
  destruct (lt y x) eqn:E.
  - constructor; [done|]. rewrite List.Forall_forall in *. intros z Hz.
    apply (Permutation_in _ (insert_perm x l)) in Hz as [<-|Hz]; [|auto].
    unfold in_order. by apply sw_asym.
  - constructor; [by constructor|]. constructor; [done|].
    rewrite List.Forall_forall in *. intros z Hz. eapply sw_trans; [exact E|]. by apply Hy.
Qed.

Lemma stable_sort_ordered l : StronglySorted in_order (stable_sort l).
Proof. induction l as [|x l IH]; simpl; [constructor|]. by apply insert_ordered. Qed.

(** Elements that compare equal keep their order. *)
Lemma stable_sort_stable (f : A -> bool) l :
  (forall a b, f a = true -> f b = true -> lt a b = false) ->
  List.filter f (stable_sort l) = List.filter f l.
Proof.
  intros Hf. induction l as [|x l IH]; simpl; [done|].
  assert (forall k, List.filter f (insert_sorted x k) = List.filter f (x :: k)) as Hins.
  { intros k. induction k as [|y k IHk]; [done|]. simpl in *. destruct (lt y x) eqn:E; [|done].
    simpl. rewrite IHk. destruct (f y) eqn:Ey, (f x) eqn:Ex; try done.
    rewrite (Hf y x Ey Ex) in E. done. }
  rewrite Hins. simpl. by rewrite IH.
Qed.

(** Its head is the first among the elements nothing precedes. *)
Lemma stable_sort_head x r l :
  stable_sort l = x :: r -> x ∈ l /\ (forall y, y ∈ l -> lt y x = false).
Proof.
  intros E. pose proof (stable_sort_ordered l) as Hs. rewrite E in Hs.
  apply StronglySorted_inv in Hs as [_ Hall]. split.
  - rewrite <- stable_sort_elem, E. by left.
  - intros y Hy. rewrite <- stable_sort_elem, E in Hy. apply elem_of_cons in Hy as [->|Hy].
    + destruct (lt x x) eqn:Exx; [|done]. by rewrite (sw_asym _ _ Exx) in Exx.
    + rewrite Forall_forall in Hall. by apply Hall.
Qed.

Lemma stable_sort_nil l : stable_sort l = [] -> l = [].
Proof. intros E. apply Permutation_nil. by rewrite <- E, stable_sort_perm. Qed.
End sort.

Lemma StronglySorted_weaken {A} (R R' : A -> A -> Prop) l :
  (forall a b, R a b -> R' a b) -> StronglySorted R l -> StronglySorted R' l.
Proof.
  intros HR. induction 1 as [|x l Hl IH Hx]; constructor; [done|].
  eapply List.Forall_impl; [|exact Hx]. intros y. apply HR.
Qed.

(** Sorting by a descending integer key. *)
Definition desc {A} (key : A -> Z) (a b : A) : bool := key b <? key a.

#[export] Instance desc_strict_weak {A} (key : A -> Z) : StrictWeak (desc key).
Proof. unfold desc. split; intros *; rewrite ?Z.ltb_lt, ?Z.ltb_ge; lia. Qed.
