(* ===== verification/Policy.v ===== *)
(** * Policy evaluation

    Models [src/orchestrator/domain/orchestration/policy_dsl.ts] ([PolicyDSL])
    and [policy_engine.ts] ([PolicyEngine]): the rules matched against the
    facts of a threat, and the score thresholds they fall back to.  Scores and
    priorities are JavaScript numbers, here rationals; a thrown exception (an
    invalid regular expression) is [None]. *)

From S2P Require Import Prelude JsString JsMap JsSort.
From Stdlib Require Import QArith Sorted.
Open Scope Z_scope.

(** Descending order on rational keys. *)
Definition descQ {A} (key : A -> Q) (a b : A) : bool := negb (Qle_bool (key a) (key b)).

Lemma descQ_false {A} (key : A -> Q) a b : descQ key a b = false <-> (key a <= key b)%Q.
Proof. unfold descQ. rewrite negb_false_iff. apply Qle_bool_iff. Qed.

Lemma descQ_true {A} (key : A -> Q) a b : descQ key a b = true <-> (key b < key a)%Q.
Proof.
  rewrite <- not_false_iff_true, descQ_false. split; [apply Qnot_le_lt|apply Qlt_not_le].
Qed.

#[export] Instance descQ_strict_weak {A} (key : A -> Q) : StrictWeak (descQ key).
Proof.
  split; intros *; rewrite ?descQ_true, ?descQ_false.
  - apply Qlt_le_weak.
  - intros Hab Hbc. eapply Qle_trans; eauto.
Qed.

Module PolicyDSL.

Inductive Operator := OpEq | OpNe | OpGt | OpLt | OpGe | OpLe | OpContains | OpMatches.

(** Fact and condition values; an array carries its identity. *)
Inductive Value :=
| VNum (q : Q)
| VStr (s : jsstr)
| VBool (b : bool)
| VNull
| VArr (ref : nat) (items : list Value).

Record Condition := { field : string; operator : Operator; value : Value }.

Inductive Conjunction := AND | OR.
Inductive RemediationAction := LOG | WATCH | SHADOW | BLOCK | ISOLATE | LOCKDOWN.

Record Rule := {
  r_id : string;
  r_name : jsstr;
  r_description : jsstr;
  conditions : list Condition;
  conjunction : Conjunction;
  r_action : RemediationAction;
  priority : Q;
}.

Section dsl.
(** The language's coercions: [ToString], and [a < b] when the operands are
    neither two numbers nor two strings; and [new RegExp(v).test(s)], which
    throws on an invalid pattern. *)
Context (ToString : Value -> jsstr) (coerced_lt coerced_le : Value -> Value -> bool)
        (regexp_test : Value -> jsstr -> option bool).

(** [===] *)
Definition strict_equal (a b : Value) : bool :=
  match a, b with
  | VNum x, VNum y => Qeq_bool x y
  | VStr x, VStr y => bool_decide (x = y)
  | VBool x, VBool y => eqb x y
  | VNull, VNull => true
  | VArr r _, VArr r' _ => Nat.eqb r r'
  | _, _ => false
  end.

(** The order of strings by code units; [strict] for [<]. *)
Fixpoint str_less (strict : bool) (s t : jsstr) : bool :=
  match s, t with
  | [], [] => negb strict
  | [], _ :: _ => true
  | _ :: _, [] => false
  | c :: s, d :: t => if c =? d then str_less strict s t else c <? d
  end.

Definition less_than (a b : Value) : bool :=
  match a, b with
  | VNum x, VNum y => negb (Qle_bool y x)
  | VStr x, VStr y => str_less true x y
  | _, _ => coerced_lt a b
  end.

Definition less_equal (a b : Value) : bool :=
  match a, b with
  | VNum x, VNum y => Qle_bool x y
  | VStr x, VStr y => str_less false x y
  | _, _ => coerced_le a b
  end.

(** [evaluateCondition(condition, facts)] *)
Definition evaluateCondition (c : Condition) (facts : list (string * Value)) : option bool :=
  match JsMap.get facts (field c) with
  | None => Some false
  | Some factValue =>
      match operator c with
      | OpEq => Some (strict_equal factValue (value c))
      | OpNe => Some (negb (strict_equal factValue (value c)))
      | OpGt => Some (less_than (value c) factValue)
      | OpLt => Some (less_than factValue (value c))
      | OpGe => Some (less_equal (value c) factValue)
      | OpLe => Some (less_equal factValue (value c))
      | OpContains =>
          match factValue with
          | VArr _ items => Some (existsb (fun v => strict_equal v (value c)) items)
          | VStr s => Some (JsString.includes s
                              (match value c with VStr p => p | v => ToString v end))
          | _ => Some false
          end
      | OpMatches =>
          match factValue with
          | VStr s => regexp_test (value c) s
          | _ => Some false
          end
      end
  end.

(** [every] and [some] stop at the first decisive element. *)
Fixpoint every (cs : list Condition) (facts : list (string * Value)) : option bool :=
  match cs with
  | [] => Some true
  | c :: cs => match evaluateCondition c facts with
               | Some true => every cs facts
               | r => r
               end
  end.

Fixpoint some (cs : list Condition) (facts : list (string * Value)) : option bool :=
  match cs with
  | [] => Some false
  | c :: cs => match evaluateCondition c facts with
               | Some false => some cs facts
               | r => r
               end
  end.

(** [evaluateRule(rule, facts)] *)
Definition evaluateRule (r : Rule) (facts : list (string * Value)) : option bool :=
  match conjunction r with
  | AND => every (conditions r) facts
  | OR => some (conditions r) facts
  end.

Fixpoint filterRules (rs : list Rule) (facts : list (string * Value)) : option (list Rule) :=
  match rs with
  | [] => Some []
  | r :: rs =>
      match evaluateRule r facts with
      | None => None
      | Some b => match filterRules rs facts with
                  | None => None
                  | Some k => Some (if b then r :: k else k)
                  end
      end
  end.

(** [evaluate(rules, facts)] *)
Definition evaluate (rs : list Rule) (facts : list (string * Value)) : option (option Rule) :=
  match filterRules rs facts with
  | None => None
  | Some matching =>
      Some (match matching with
            | [] => None
            | _ => head (stable_sort (descQ priority) matching)
            end)
  end.

(** ** Facts *)

Lemma filterRules_spec rs facts ms :
  filterRules rs facts = Some ms ->
  forall r, r ∈ ms <-> r ∈ rs /\ evaluateRule r facts = Some true.
Proof.
  revert ms. induction rs as [|r rs IH]; intros ms; simpl; [intros [= <-]; set_solver|].
  destruct (evaluateRule r facts) as [b|] eqn:E; [|done].
  destruct (filterRules rs facts) as [k|]; [|done]. intros [= <-] r'.
  specialize (IH k eq_refl r'). rewrite elem_of_cons. destruct b.
  - rewrite elem_of_cons, IH. naive_solver.
  - rewrite IH. naive_solver.
Qed.

(** No condition of the rule uses a regular expression. *)
Definition pattern_free (r : Rule) : Prop :=
  Forall (fun c => operator c <> OpMatches) (conditions r).

Lemma evaluateCondition_total c facts :
  operator c <> OpMatches -> exists b, evaluateCondition c facts = Some b.
Proof.
  intros Hop. unfold evaluateCondition. destruct (JsMap.get facts (field c)) as [v|]; [|eauto].
  destruct (operator c); [eauto..|destruct v; eauto|done].
Qed.

Lemma evaluateRule_total r facts : pattern_free r -> exists b, evaluateRule r facts = Some b.
Proof.
  unfold pattern_free, evaluateRule. generalize (conditions r) as cs. intros cs Hcs.
  destruct (conjunction r); induction Hcs as [|c cs Hc Hcs IH]; simpl; eauto;
    destruct (evaluateCondition_total c facts Hc) as [[] ->]; eauto.
Qed.

Lemma filterRules_total rs facts :
  Forall pattern_free rs -> exists ms, filterRules rs facts = Some ms.
Proof.
  induction 1 as [|r rs Hr Hrs IH]; simpl; [eauto|].
  destruct (evaluateRule_total r facts Hr) as [b ->]. destruct IH as [ms ->]. eauto.
Qed.

(** ** What [evaluate] returns *)

(** The selected rule: it matches, no matching rule has a higher priority, and
    it is the first of those with its priority. *)
Definition selected (rs : list Rule) (facts : list (string * Value)) (r : Rule) : Prop :=
  r ∈ rs /\ evaluateRule r facts = Some true /\
  (forall r', r' ∈ rs -> evaluateRule r' facts = Some true -> (priority r' <= priority r)%Q) /\
  exists pre post, rs = pre ++ r :: post /\
    forall r', r' ∈ pre -> evaluateRule r' facts = Some true -> ~ (priority r' == priority r)%Q.

(** The first matching rule of a given priority class survives the sort. *)
Lemma filter_first rs facts ms (f : Rule -> bool) r k :
  filterRules rs facts = Some ms -> List.filter f ms = r :: k ->
  exists pre post, rs = pre ++ r :: post /\
    forall r', r' ∈ pre -> evaluateRule r' facts = Some true -> f r' = false.
Proof.
  revert ms. induction rs as [|x rs IH]; intros ms; simpl; [intros [= <-]; done|].
  destruct (evaluateRule x facts) as [b|] eqn:E; [|done].
  destruct (filterRules rs facts) as [ms'|]; [|done]. intros [= <-] Hf.
  destruct b; simpl in Hf; [destruct (f x) eqn:Ex|].
  - injection Hf as -> _. exists [], rs. split; [done|]. set_solver.
  - destruct (IH ms' eq_refl Hf) as (pre & post & -> & H). exists (x :: pre), post.
    split; [done|]. intros r' Hr'. apply elem_of_cons in Hr' as [->|Hr']; auto.
  - destruct (IH ms' eq_refl Hf) as (pre & post & -> & H). exists (x :: pre), post.
    split; [done|]. intros r' Hr'. apply elem_of_cons in Hr' as [->|Hr']; [congruence|auto].
Qed.

Lemma evaluate_spec rs facts res :
  evaluate rs facts = Some res ->
  match res with
  | Some r => selected rs facts r
  | None => forall r, r ∈ rs -> evaluateRule r facts <> Some true
  end.
Proof.
  unfold evaluate. destruct (filterRules rs facts) as [ms|] eqn:Ef; [|done]. intros [= <-].
  pose proof (filterRules_spec rs facts ms Ef) as Hms.
  destruct ms as [|m ms]; [intros r Hr Ht; pose proof (proj2 (Hms r) (conj Hr Ht)) as Hn; by inversion Hn|].
  set (l := m :: ms) in *. destruct (stable_sort (descQ priority) l) as [|r k] eqn:Es.
  { by apply stable_sort_nil in Es. }
  simpl. destruct (stable_sort_head _ _ _ _ Es) as [Hin Hmax].
  destruct (proj1 (Hms r) Hin) as [Hr Ht]. split_and!; [done|done| |].
  - intros r' Hr' Ht'. apply descQ_false, Hmax, Hms. done.
  - set (f := fun x : Rule => Qeq_bool (priority x) (priority r)).
    assert (List.filter f (stable_sort (descQ priority) l) = List.filter f l) as Hst.
    { apply stable_sort_stable. intros a b Ha Hb. apply Qeq_bool_iff in Ha, Hb.
      apply descQ_false. rewrite Ha, Hb. apply Qle_refl. }
    rewrite Es in Hst. simpl in Hst.
    assert (f r = true) as Hfr by (apply Qeq_bool_iff; reflexivity). rewrite Hfr in Hst.
    destruct (filter_first rs facts l f r _ Ef (eq_sym Hst)) as (pre & post & -> & Hpre).
    exists pre, post. split; [done|]. intros r' Hr' Ht' Heq.
    apply Qeq_bool_iff in Heq. specialize (Hpre r' Hr' Ht'). unfold f in Hpre. congruence.
Qed.
End dsl.
End PolicyDSL.

Module PolicyEngine.
Import PolicyDSL.

Record ThresholdRule := { score : Q; action : RemediationAction; description : jsstr }.

Record SecurityPolicy := mkPolicy {
  version : jsstr;
  thresholds : list ThresholdRule;
  rules : list Rule;
  defaultAction : RemediationAction;
  strictMode : bool;
  shadowMode : bool;
  publicKey : option jsstr;
}.

(** [Partial<SecurityPolicy>]: the fields an update brings. *)
Record PartialPolicy := {
  u_version : option jsstr;
  u_thresholds : option (list ThresholdRule);
  u_rules : option (list Rule);
  u_defaultAction : option RemediationAction;
  u_strictMode : option bool;
  u_shadowMode : option bool;
  u_publicKey : option jsstr;
}.

(** [{ ...p, ...u }] *)
Definition spread (p : SecurityPolicy) (u : PartialPolicy) : SecurityPolicy :=
  mkPolicy (default (version p) (u_version u)) (default (thresholds p) (u_thresholds u))
    (default (rules p) (u_rules u)) (default (defaultAction p) (u_defaultAction u))
    (default (strictMode p) (u_strictMode u)) (default (shadowMode p) (u_shadowMode u))
    (match u_publicKey u with Some k => Some k | None => publicKey p end).

Definition set_thresholds (p : SecurityPolicy) (ts : list ThresholdRule) : SecurityPolicy :=
  mkPolicy (version p) ts (rules p) (defaultAction p) (strictMode p) (shadowMode p) (publicKey p).

Definition sortThresholds (p : SecurityPolicy) : SecurityPolicy :=
  set_thresholds p (stable_sort (descQ score) (thresholds p)).

Definition defaultPolicy (strict shadow : bool) : SecurityPolicy :=
  mkPolicy (js "1.2.0")
    [{| score := 10; action := WATCH; description := js "Increase forensic sampling rate" |};
     {| score := 30; action := SHADOW; description := js "Redirect to deceptive mirror world" |};
     {| score := 60; action := BLOCK; description := js "Local firewall IP rejection" |};
     {| score := 90; action := ISOLATE; description := js "Full node network isolation" |};
     {| score := 100; action := LOCKDOWN; description := js "Mesh-wide quorum lockdown" |}]
    [] LOG strict shadow None.

(** The constructor; the two environment variables as read by [getEnv]. *)
Definition new (strictEnv shadowEnv : option string) (initial : option PartialPolicy) : SecurityPolicy :=
  let p := defaultPolicy (bool_decide (strictEnv = Some "true"%string))
             (negb (bool_decide (shadowEnv = Some "false"%string))) in
  sortThresholds (match initial with Some u => spread p u | None => p end).

Definition setShadowMode (v : bool) (p : SecurityPolicy) : SecurityPolicy :=
  mkPolicy (version p) (thresholds p) (rules p) (defaultAction p) (strictMode p) v (publicKey p).

Definition isShadowMode (p : SecurityPolicy) : bool := shadowMode p.

Definition updatePolicy (u : PartialPolicy) (p : SecurityPolicy) : SecurityPolicy :=
  sortThresholds (spread p u).

Section evaluate.
Context (ToString : Value -> jsstr) (coerced_lt coerced_le : Value -> Value -> bool)
        (regexp_test : Value -> jsstr -> option bool).

Abbreviation dsl_evaluate := (PolicyDSL.evaluate ToString coerced_lt coerced_le regexp_test).
Abbreviation rule_matches r facts :=
  (PolicyDSL.evaluateRule ToString coerced_lt coerced_le regexp_test r facts = Some true).

Fixpoint firstThreshold (s : Q) (ts : list ThresholdRule) : option ThresholdRule :=
  match ts with
  | [] => None
  | t :: ts => if Qle_bool (score t) s then Some t else firstThreshold s ts
  end.

(** The threshold part of [evaluate]. *)
Definition evaluateScore (p : SecurityPolicy) (s : Q) : ThresholdRule :=
  match firstThreshold s (thresholds p) with
  | Some t => t
  | None => {| score := 0; action := defaultAction p;
               description := js "Baseline operational state" |}
  end.

(** [evaluate(score, context)]; [None] when a rule's pattern is invalid. *)
Definition evaluate (p : SecurityPolicy) (s : Q) (context : option (list (string * Value)))
    : option ThresholdRule :=
  match context with
  | Some ctx =>
      if (0 <? length (rules p))%nat then
        match dsl_evaluate (rules p) (JsMap.set ctx "score" (VNum s)) with
        | None => None
        | Some (Some r) =>
            Some {| score := priority r; action := r_action r;
                    description := js "DSL Match: " ++ r_name r ++ js " - " ++ r_description r |}
        | Some None => Some (evaluateScore p s)
        end
      else Some (evaluateScore p s)
  | None => Some (evaluateScore p s)
  end.

(** ** Reachable engines *)

Inductive reachable : SecurityPolicy -> Prop :=
| reach_new strictEnv shadowEnv initial : reachable (new strictEnv shadowEnv initial)
| reach_update u p : reachable p -> reachable (updatePolicy u p)
| reach_shadow v p : reachable p -> reachable (setShadowMode v p).

Definition descending (ts : list ThresholdRule) : Prop := StronglySorted (in_order (descQ score)) ts.

Lemma sortThresholds_descending p : descending (thresholds (sortThresholds p)).
Proof. apply (stable_sort_ordered (descQ score)). Qed.

Lemma reachable_descending p : reachable p -> descending (thresholds p).
Proof. induction 1; [apply sortThresholds_descending..|done]. Qed.

Lemma firstThreshold_spec s ts :
  descending ts ->
  match firstThreshold s ts with
  | Some t => t ∈ ts /\ (score t <= s)%Q /\
              forall t', t' ∈ ts -> (score t' <= s)%Q -> (score t' <= score t)%Q
  | None => forall t, t ∈ ts -> (s < score t)%Q
  end.
Proof.
  induction 1 as [|t ts Hts IH Ht]; simpl; [set_solver|].
  destruct (Qle_bool (score t) s) eqn:E.
  - apply Qle_bool_iff in E. split_and!; [set_solver|done|]. intros t' Hin _.
    apply elem_of_cons in Hin as [->|Hin]; [apply Qle_refl|].
    rewrite Forall_forall in Ht. by apply descQ_false, Ht.
  - assert (~ (score t <= s)%Q) as Hn by (rewrite <- Qle_bool_iff; congruence).
    destruct (firstThreshold s ts) as [t0|].
    + destruct IH as (H1 & H2 & H3). split_and!; [set_solver|done|]. intros t' Hin Hle.
      apply elem_of_cons in Hin as [->|Hin]; [done|auto].
    + intros t' Hin. apply elem_of_cons in Hin as [->|Hin]; [by apply Qnot_le_lt|auto].
Qed.

(** ** Properties *)

(** The answer the thresholds alone give: the highest threshold that the score
    reaches, or the default action when it reaches none. *)
Definition by_score (p : SecurityPolicy) (s : Q) (t : ThresholdRule) : Prop :=
  (t ∈ thresholds p /\ (score t <= s)%Q /\
   forall t', t' ∈ thresholds p -> (score t' <= s)%Q -> (score t' <= score t)%Q) \/
  ((forall t', t' ∈ thresholds p -> (s < score t')%Q) /\ action t = defaultAction p /\ (score t == 0)%Q).

(** The engine's answer: after construction and any policy updates, for
    every score and context, whenever [evaluate] returns, either some rule
    matches the context extended with the score and the answer is that of the
    first rule of the highest priority, or no rule applies and the answer is
    the highest threshold the score reaches (the default action when it
    reaches none); and it returns whenever no rule uses a pattern. *)
Theorem evaluate_correct p s context :
  reachable p ->
  match evaluate p s context with
  | Some t =>
      (exists ctx r, context = Some ctx /\
         selected ToString coerced_lt coerced_le regexp_test (rules p)
           (JsMap.set ctx "score" (VNum s)) r /\
         action t = r_action r /\ score t = priority r) \/
      ((forall ctx r, context = Some ctx -> r ∈ rules p ->
          ~ rule_matches r (JsMap.set ctx "score" (VNum s))) /\ by_score p s t)
  | None => ~ Forall pattern_free (rules p)
  end.
Proof.
  intros Hr. apply reachable_descending in Hr.
  assert (by_score p s (evaluateScore p s)) as Hscore.
  { unfold evaluateScore, by_score. pose proof (firstThreshold_spec s _ Hr) as H.
    destruct (firstThreshold s (thresholds p)); [by left|]. right. split_and!; done. }
  unfold evaluate. destruct context as [ctx|]; [|right; split; [done|exact Hscore]].
  destruct (Nat.ltb_spec 0 (length (rules p))) as [Hl|Hl].
  2:{ right. split; [|exact Hscore]. intros ctx' r _ Hin.
      destruct (rules p); [by inversion Hin|simpl in Hl; lia]. }
  set (facts := JsMap.set ctx "score" (VNum s)).
  destruct (dsl_evaluate (rules p) facts) as [res|] eqn:E.
  - pose proof (evaluate_spec _ _ _ _ _ _ _ E) as Hres. destruct res as [r|].
    + left. by exists ctx, r.
    + right. split; [|exact Hscore]. intros ctx' r [= <-]. apply Hres.
  - intros Hp. destruct (filterRules_total ToString coerced_lt coerced_le regexp_test _ facts Hp) as [ms Hms].
    unfold PolicyDSL.evaluate in E. by rewrite Hms in E.
Qed.
End evaluate.

Definition rule0 : Rule :=
  {| r_id := "r"; r_name := js "curl"; r_description := js "curl from a shell";
     conditions := [{| field := "comm"; operator := OpEq; value := VStr (js "curl") |};
                    {| field := "score"; operator := OpGe; value := VNum 40 |}];
     conjunction := AND; r_action := ISOLATE; priority := 90 |}.

Definition engine0 : SecurityPolicy :=
  updatePolicy {| u_version := None; u_thresholds := None; u_rules := Some [rule0];
                  u_defaultAction := None; u_strictMode := None; u_shadowMode := None;
                  u_publicKey := None |} (new None None None).

Lemma evaluate_correct_witness :
  exists t, evaluate (fun _ => []) (fun _ _ => false) (fun _ _ => false) (fun _ _ => None)
              engine0 45 (Some [("comm", VStr (js "curl"))]) = Some t /\
            action t = ISOLATE.
Proof.
  pose proof (evaluate_correct (fun _ => []) (fun _ _ => false) (fun _ _ => false)
    (fun _ _ => None) engine0 45 (Some [("comm"%string, VStr (js "curl"))])
    (reach_update _ _ (reach_new None None None))) as H.
  destruct (evaluate _ _ _ _ engine0 45 _) as [t|] eqn:E; [|vm_compute in E; done].
  exists t. split; [done|]. destruct H as [(ctx & r & [= <-] & Hs & Ha & _)|[Hno _]].
  - destruct Hs as [Hin _]. rewrite Ha. change (rules engine0) with [rule0] in Hin.
    apply list_elem_of_singleton in Hin as ->. reflexivity.
  - exfalso. apply (Hno _ rule0 eq_refl); [|vm_compute; reflexivity].
    change (rules engine0) with [rule0]. by left.
Defined.
End PolicyEngine.
