(* ===== verification/Registry.v ===== *)
(** * Service lifecycle

    Models [src/orchestrator/core/base_service.ts] ([BaseService]: the
    re-entrancy protected [init]) and [src/orchestrator/core/registry.ts]
    ([ServiceRegistry]: registration, ordered startup and shutdown).  Log lines
    are left out. *)

From S2P Require Import Prelude Result JsMap JsSort.
From Stdlib Require Import Sorted.

(** ** [BaseService] *)

Module BaseService.
Section base.
(** The errors [onInit] reports or throws. *)
Context {E : Type}.

(** A promise handed to a caller: settled on the spot, or the shared promise of
    run [n] of [onInit]. *)
Inductive promise := Now (r : Result unit E) | Shared (n : nat).

Record BaseService := mkBase {
  initialized : bool;
  initPromise : option nat;         (** the run of [onInit] in flight *)
  runs : nat;                       (** how often [onInit] was started *)
  settledRuns : list (nat * settled (Result unit E) E);
}.

Definition new : BaseService := mkBase false None 0 [].

(** [init(...)]: the promise it returns. *)
Definition init (s : BaseService) : BaseService * promise :=
  if initialized s then (s, Now (ok tt))
  else match initPromise s with
       | Some n => (s, Shared n)
       | None => (mkBase false (Some (runs s)) (S (runs s)) (settledRuns s), Shared (runs s))
       end.

(** The async body when [onInit] settles: [initialized] is set on success, the
    [finally] block clears the promise. *)
Definition settle (r : settled (Result unit E) E) (s : BaseService) : BaseService :=
  match initPromise s with
  | None => s
  | Some n =>
      let good := match r with Resolved res => success res | Rejected _ => false end in
      mkBase (initialized s || good) None (runs s) ((n, r) :: settledRuns s)
  end.

(** [ensureReady()]: false when it throws. *)
Definition ensureReady (s : BaseService) : bool := initialized s.

Inductive event := Init | Settle (r : settled (Result unit E) E).

Definition step (s : BaseService) (e : event) : BaseService :=
  match e with Init => (init s).1 | Settle r => settle r s end.

Definition run (es : list event) : BaseService := fold_left step es new.

Definition succeeded (r : settled (Result unit E) E) : bool :=
  match r with Resolved res => success res | Rejected _ => false end.

Record inv (s : BaseService) : Prop := {
  inv_idle : initialized s = true -> initPromise s = None;
  inv_current : forall n, initPromise s = Some n -> runs s = S n;
  inv_log : (settledRuns s).*1 = rev (seq 0 (match initPromise s with Some n => n | None => runs s end));
  inv_success : initialized s = existsb (fun e => succeeded e.2) (settledRuns s);
  inv_last : count (fun e => succeeded e.2) (settledRuns s) =
             match settledRuns s with (_, r) :: _ => if succeeded r then 1%nat else 0%nat | [] => 0%nat end;
}.

Lemma lifecycle_step_inv s e : inv s -> inv (step s e).
Proof.
  intros [Hidle Hcur Hlog Hsuc Hlast]. destruct e as [|r]; simpl.
  - unfold init. destruct (initialized s) eqn:Ei; [simpl; split; by rewrite ?Ei|].
    destruct (initPromise s) as [n|] eqn:Ep; [simpl; split; by rewrite ?Ei, ?Ep|].
    split; simpl; try done. by intros n [= <-].
  - unfold settle. destruct (initPromise s) as [n|] eqn:Ep; [|split; by rewrite ?Ep].
    assert (initialized s = false) as Ei.
    { destruct (initialized s); [|done]. by specialize (Hidle eq_refl). }
    rewrite Ei in *. split; simpl; try done.
    + rewrite (Hcur n eq_refl), seq_S, rev_app_distr. simpl. by f_equal.
    + rewrite <- Hsuc, orb_false_r. done.
    + assert (count (fun e => succeeded e.2) (settledRuns s) = 0%nat) as H0.
      { clear -Hsuc. induction (settledRuns s) as [|x l IH]; [done|]. rewrite count_cons.
        simpl in Hsuc. symmetry in Hsuc. apply orb_false_iff in Hsuc as [H1 H2]. rewrite H1, IH; done. }
      rewrite count_cons, H0. simpl. by destruct (succeeded r).
Qed.

Lemma lifecycle_new_inv : inv new.
Proof. by split. Qed.

Lemma lifecycle_run_inv es : inv (run es).
Proof.
  unfold run. generalize lifecycle_new_inv. generalize new. induction es as [|e es IH]; intros s Hs; simpl; [done|].
  by apply IH, lifecycle_step_inv.
Qed.

(** ** Property *)

(** Initialisation runs once at a time and until it succeeds: in every
    sequence of [init] calls and settlements, the runs of [onInit] never
    overlap (each starts after the previous one has settled), at most one
    succeeds and it is the last, the service is ready exactly when one did,
    and from then on [init] answers at once without a further run. *)
Theorem init_once es :
  let s := run es in
  (runs s <= S (length (settledRuns s)))%nat /\
  (initPromise s = None -> runs s = length (settledRuns s)) /\
  (count (fun e => succeeded e.2) (settledRuns s) <= 1)%nat /\
  ensureReady s = existsb (fun e => succeeded e.2) (settledRuns s) /\
  (ensureReady s = true -> init s = (s, Now (ok tt)) /\ initPromise s = None /\
     match settledRuns s with (_, r) :: _ => succeeded r = true | [] => False end).
Proof.
  intros s. destruct (lifecycle_run_inv es) as [Hidle Hcur Hlog Hsuc Hlast]. fold s in Hidle, Hcur, Hlog, Hsuc, Hlast.
  assert (length (settledRuns s) = match initPromise s with Some n => n | None => runs s end) as Hlen.
  { rewrite <- (length_fmap fst), Hlog, length_rev, length_seq. done. }
  split_and!.
  - destruct (initPromise s) as [n|]; [rewrite (Hcur n eq_refl)|]; lia.
  - intros E0. rewrite E0 in Hlen. done.
  - rewrite Hlast. destruct (settledRuns s) as [|[? r] ?]; [lia|]. destruct (succeeded r); lia.
  - done.
  - unfold ensureReady. intros Hi. split_and!; [unfold init; by rewrite Hi|auto|].
    rewrite Hi in Hsuc. destruct (settledRuns s) as [|[k r] l]; [done|].
    destruct (succeeded r) eqn:Er; [done|]. exfalso. simpl in Hsuc. rewrite Er in Hsuc.
    symmetry in Hsuc. apply existsb_exists in Hsuc as (x & Hx & Hsx).
    assert (0 < count (fun e => succeeded e.2) ((k, r) :: l))%nat as Hpos; [|lia].
    unfold count. simpl. rewrite Er. apply (in_split x) in Hx as (l1 & l2 & ->).
    rewrite List.filter_app, length_app. simpl. rewrite Hsx. simpl. lia.
Qed.
End base.
End BaseService.

(** ** [ServiceRegistry] *)

Module ServiceRegistry.
Section registry.
Context {E : Type}.

(** [ShutdownPriority] *)
Inductive ShutdownPriority := CRITICAL | NETWORK | AUXILIARY | INTERFACE.

Definition priority_value (p : ShutdownPriority) : Z :=
  match p with CRITICAL => 0 | NETWORK => 1 | AUXILIARY => 2 | INTERFACE => 3 end.

(** A service instance: its identity and which lifecycle methods it has. *)
Record Service := { ref : nat; has_init : bool; has_shutdown : bool }.

Record ServiceRegistry := mkRegistry {
  services : list (string * (Service * ShutdownPriority));
  initOrder : list string;
}.

Definition new : ServiceRegistry := mkRegistry [] [].

(** [register(name, service, priority)] *)
Definition register (name : string) (service : Service) (priority : ShutdownPriority)
    (r : ServiceRegistry) : ServiceRegistry :=
  match JsMap.get (services r) name with
  | Some _ => mkRegistry (JsMap.set (services r) name (service, priority)) (initOrder r)
  | None => mkRegistry (JsMap.set (services r) name (service, priority)) (initOrder r ++ [name])
  end.

(** What happens to the services, failures included. *)
Inductive call :=
| CallShutdown (name : string) (service : Service)
| ShutdownFailed (name : string)
| CallInit (name : string) (service : Service)
| InitNonCritical (name : string)
| InitFailed (name : string).

(** How the methods settle, by instance. *)
Context (shutdown_outcome : Service -> settled unit E)
        (init_outcome : Service -> settled (Result unit E) E).

Definition shutdown_one (e : string * (Service * ShutdownPriority)) : list call :=
  let '(name, (service, _)) := e in
  if has_shutdown service then
    CallShutdown name service ::
    match shutdown_outcome service with Resolved _ => [] | Rejected _ => [ShutdownFailed name] end
  else [].

(** [shutdownAll()] *)
Definition shutdownAll (r : ServiceRegistry) : ServiceRegistry * list call :=
  let prioritized := stable_sort (desc (fun e => priority_value e.2.2)) (services r) in
  (mkRegistry [] [], flat_map shutdown_one prioritized).

Definition getService (name : string) (r : ServiceRegistry) : option Service :=
  fst <$> JsMap.get (services r) name.

Definition listServices (r : ServiceRegistry) : list string := JsMap.keys (services r).

Definition init_one (r : ServiceRegistry) (name : string) : list call :=
  match getService name r with
  | Some service =>
      if has_init service then
        CallInit name service ::
        match init_outcome service with
        | Resolved res => if success res then [] else [InitNonCritical name]
        | Rejected _ => [InitFailed name]
        end
      else []
  | None => []
  end.

(** [initAll()] *)
Definition initAll (r : ServiceRegistry) : list call := flat_map (init_one r) (initOrder r).

(** ** Reachable registries *)

Inductive op := Register (name : string) (service : Service) (priority : ShutdownPriority) | Shutdown.

Definition step (r : ServiceRegistry) (o : op) : ServiceRegistry :=
  match o with
  | Register n s p => register n s p r
  | Shutdown => (shutdownAll r).1
  end.

Definition run (ops : list op) : ServiceRegistry := fold_left step ops new.

Lemma register_order n s p r :
  initOrder r = JsMap.keys (services r) ->
  initOrder (register n s p r) = JsMap.keys (services (register n s p r)).
Proof.
  intros H. unfold register. destruct (JsMap.get (services r) n) eqn:E0; simpl;
    rewrite JsMap.keys_set; unfold JsMap.has; rewrite E0, H; done.
Qed.

Lemma run_ok ops : JsMap.wf (services (run ops)) /\ initOrder (run ops) = JsMap.keys (services (run ops)).
Proof.
  unfold run. assert (JsMap.wf (services new) /\ initOrder new = JsMap.keys (services new)) as H
    by (split; [constructor|done]).
  revert H. generalize new. induction ops as [|o ops IH]; intros r [Hwf Ho]; simpl; [done|].
  apply IH. destruct o as [n s p|]; simpl.
  - split; [|by apply register_order]. unfold register.
    destruct (JsMap.get _ _); simpl; auto with cts.
  - split; [constructor|done].
Qed.

(** The calls among the events. *)
Definition shutdowns (cs : list call) : list (string * Service) :=
  flat_map (fun c => match c with CallShutdown n s => [(n, s)] | _ => [] end) cs.
Definition inits (cs : list call) : list (string * Service) :=
  flat_map (fun c => match c with CallInit n s => [(n, s)] | _ => [] end) cs.

Definition entry_service (e : string * (Service * ShutdownPriority)) : string * Service := (e.1, e.2.1).

Lemma shutdowns_flat es :
  shutdowns (flat_map shutdown_one es) =
  map entry_service (List.filter (fun e => has_shutdown e.2.1) es).
Proof.
  induction es as [|[n [s p]] es IH]; simpl; [done|].
  unfold shutdowns in *. rewrite flat_map_app, IH.
  destruct (has_shutdown s); simpl; [|done]. by destruct (shutdown_outcome s).
Qed.

Lemma inits_flat r names :
  (forall n, n ∈ names -> n ∈ JsMap.keys (services r)) ->
  inits (flat_map (init_one r) names) =
  flat_map (fun n => match getService n r with
                     | Some s => if has_init s then [(n, s)] else []
                     | None => [] end) names.
Proof.
  induction names as [|n ns IH]; intros H; simpl; [done|].
  unfold inits in *. rewrite flat_map_app, IH by set_solver. f_equal.
  unfold init_one. destruct (getService n r) as [s|]; [|done]. destruct (has_init s); [|done].
  simpl. destruct (init_outcome s) as [res|]; [destruct (success res)|]; done.
Qed.

(** ** Properties *)

(** Shutdown order: after any registrations, [shutdownAll] calls
    [shutdown] exactly once on every registered service that has it, whether
    or not earlier ones fail, in descending priority, services of equal
    priority in the order they were registered (not the reverse), and leaves
    the registry empty. *)
Theorem shutdown_order ops :
  let r := run ops in
  let '(r', cs) := shutdownAll r in
  let live := List.filter (fun e => has_shutdown e.2.1) in
  exists order, shutdowns cs = map entry_service (live order) /\
    order ≡ₚ services r /\
    StronglySorted (fun a b => priority_value b.2.2 <= priority_value a.2.2) order /\
    (forall k, List.filter (fun e => priority_value e.2.2 =? k) order
             = List.filter (fun e => priority_value e.2.2 =? k) (services r)) /\
    services r' = [] /\ initOrder r' = [].
Proof.
  intros r. simpl. exists (stable_sort (desc (fun e => priority_value e.2.2)) (services r)).
  split_and!; [apply shutdowns_flat|apply stable_sort_perm| | |done|done].
  - eapply StronglySorted_weaken; [|apply stable_sort_ordered; apply _].
    intros a b. unfold in_order, desc. by rewrite Z.ltb_ge.
  - intros k. apply stable_sort_stable. intros a b Ha Hb. apply Z.eqb_eq in Ha, Hb.
    unfold desc. apply Z.ltb_ge. lia.
Qed.

(** Startup order: [initAll] calls [init] on every registered service that
    has it, exactly once, on the instance registered last under the name, in
    the order the names were first registered, whether or not others fail. *)
Theorem init_order ops :
  let r := run ops in
  inits (initAll r) = map entry_service (List.filter (fun e => has_init e.2.1) (services r)).
Proof.
  intros r. destruct (run_ok ops) as [Hwf Ho]. fold r in Hwf, Ho.
  unfold initAll. rewrite inits_flat by (rewrite Ho; done). rewrite Ho.
  assert (forall es, (forall e, e ∈ es -> e ∈ services r) ->
    flat_map (fun n => match getService n r with
                       | Some s => if has_init s then [(n, s)] else []
                       | None => [] end) (JsMap.keys es) =
    map entry_service (List.filter (fun e => has_init e.2.1) es)) as H; [|by apply H].
  induction es as [|[n [s p]] es IH]; intros Hin; simpl; [done|]. rewrite IH by set_solver.
  unfold getService. rewrite (JsMap.elem_get _ n (s, p)) by (done || apply Hin; by left). simpl.
  by destruct (has_init s).
Qed.
End registry.
End ServiceRegistry.
