(* ===== verification/Queue.v ===== *)
(** * The persistent queue

    Models [src/orchestrator/core/utils/persistent_queue.ts], class
    [PersistentQueue].  The KV store's part under [["queue", name]] is an
    association list in key order; [process] takes a snapshot of its first
    [batchSize] entries and handles them one by one, while [enqueue] calls may
    come in between. *)

From S2P Require Import Prelude JsMap.
From Stdlib Require Import String.
Local Open Scope list_scope.

Module Queue.
Section queue.
Context {T : Type}.

(** [["queue", name, id]] and [["queue", name, "dlq", id]]. *)
Inductive Key := Active (id : string) | Dead (id : string).

#[global] Instance Key_eq_dec : EqDecision Key.
Proof. solve_decision. Defined.

(** The parts after the queue's prefix. *)
Definition parts (k : Key) : list string :=
  match k with Active id => [id] | Dead id => ["dlq"%string; id] end.

(** [key[key.length - 1]] *)
Definition last_part (k : Key) : string := match k with Active id => id | Dead id => id end.

(** The order of keys in the store. *)
Fixpoint parts_ltb (a b : list string) : bool :=
  match a, b with
  | [], [] => false
  | [], _ :: _ => true
  | _ :: _, [] => false
  | x :: a, y :: b => if (x =? y)%string then parts_ltb a b else (x <? y)%string
  end.

Record Entry := mkEntry { item : T; attempts : Z; timestamp : Z }.

Definition store := list (Key * Entry).

Fixpoint insert_ordered (k : Key) (e : Entry) (kv : store) : store :=
  match kv with
  | [] => [(k, e)]
  | (k', e') :: kv' => if parts_ltb (parts k') (parts k) then (k', e') :: insert_ordered k e kv'
                       else (k, e) :: kv
  end.

(** [kv.set(key, value)] and [kv.delete(key)] *)
Definition kv_set (k : Key) (e : Entry) (kv : store) : store := insert_ordered k e (JsMap.delete kv k).
Definition kv_delete (k : Key) (kv : store) : store := JsMap.delete kv k.

(** [processing] is the running [process] call: its [maxAttempts] and the
    entries of the snapshot it has not handled yet. *)
Record PersistentQueue := mkQueue {
  kv : store;
  processing : option (Z * store);
}.

Definition new : PersistentQueue := mkQueue [] None.

(** [enqueue(item)] with the generated identifier. *)
Definition enqueue (id : string) (x : T) (now : Z) (q : PersistentQueue) : PersistentQueue :=
  mkQueue (kv_set (Active id) (mkEntry x 0 now) (kv q)) (processing q).

(** The head of [process(handler, maxAttempts, batchSize)]: every key under the
    prefix is listed, up to the limit. *)
Definition processStart (maxAttempts : Z) (batchSize : nat) (q : PersistentQueue) : PersistentQueue :=
  match processing q with
  | Some _ => q
  | None => mkQueue (kv q) (Some (maxAttempts, take batchSize (kv q)))
  end.

(** [handleFailure(key, item, attempts, maxAttempts)] *)
Definition handleFailure (k : Key) (x : T) (attempts maxAttempts now : Z) (kv : store) : store :=
  if maxAttempts <=? attempts
  then kv_set (Dead (last_part k)) (mkEntry x attempts now) (kv_delete k kv)
  else kv_set k (mkEntry x attempts now) kv.

(** One iteration of the [for await] loop; [success] is false when the handler
    returns false or throws.  When the snapshot is exhausted the [finally]
    block ends the call. *)
Definition processNext (success : bool) (now : Z) (q : PersistentQueue) : PersistentQueue :=
  match processing q with
  | None => q
  | Some (_, []) => mkQueue (kv q) None
  | Some (maxAttempts, (k, e) :: rest) =>
      mkQueue (if success then kv_delete k (kv q)
               else handleFailure k (item e) (attempts e + 1) maxAttempts now (kv q))
        (Some (maxAttempts, rest))
  end.

(** ** Runs *)

Inductive event :=
| Enqueue (id : string) (x : T) (now : Z)
| Begin (maxAttempts : Z) (batchSize : nat)
| Next (success : bool) (now : Z).

Definition step (q : PersistentQueue) (e : event) : PersistentQueue :=
  match e with
  | Enqueue id x now => enqueue id x now q
  | Begin m b => processStart m b q
  | Next s now => processNext s now q
  end.

(** The items the handler accepted, with their identifiers. *)
Definition accepted (q : PersistentQueue) (e : event) : list (string * T) :=
  match e, processing q with
  | Next true _, Some (_, (k, en) :: _) => [(last_part k, item en)]
  | _, _ => []
  end.

Fixpoint run (q : PersistentQueue) (es : list event) : PersistentQueue * list (string * T) :=
  match es with
  | [] => (q, [])
  | e :: es => let '(q', d) := run (step q e) es in (q', accepted q e ++ d)
  end.

Fixpoint enqueued (es : list event) : list (string * T) :=
  match es with
  | [] => []
  | Enqueue id x _ :: es => (id, x) :: enqueued es
  | _ :: es => enqueued es
  end.

(** ** The store *)

Definition contents (l : store) : list (string * T) := map (fun e => (last_part e.1, item e.2)) l.
Definition ids (l : store) : list string := map (fun e => last_part e.1) l.

Lemma insert_ordered_perm k e l : insert_ordered k e l ≡ₚ (k, e) :: l.
Proof.
  induction l as [|[k' e'] l IH]; simpl; [done|]. case_bool_step; [|done]. rewrite IH. by constructor.
Qed.

Lemma ids_delete_sub l k : ids (JsMap.delete l k) ⊆+ ids l.
Proof.
  induction l as [|[k' e'] l IH]; simpl; [done|].
  case_decide; simpl; [by apply submseteq_cons|by apply submseteq_skip].
Qed.

(** Taking out the entry of a key that is present, in a store with unique
    identifiers. *)
Lemma delete_contents l k e :
  NoDup (ids l) -> (k, e) ∈ l ->
  l ≡ₚ (k, e) :: JsMap.delete l k /\ last_part k ∉ ids (JsMap.delete l k).
Proof.
  induction l as [|[k' e'] l IH]; simpl; intros Hnd Hin; [by inversion Hin|].
  apply NoDup_cons in Hnd as [Hk Hnd]. apply elem_of_cons in Hin as [Heq|Hin].
  - simplify_eq. rewrite decide_True by done.
    assert (JsMap.delete l k' = l) as ->; [|done].
    apply JsMap.delete_notin. intros Hin. apply Hk. unfold JsMap.keys in Hin.
    apply list_elem_of_fmap in Hin as ([k2 e2] & -> & Hin). apply list_elem_of_fmap. by exists (k2, e2).
  - assert (last_part k' <> last_part k) as Hne.
    { intros Heq. apply Hk. apply list_elem_of_fmap. exists (k, e). by rewrite Heq. }
    rewrite decide_False by congruence. destruct (IH Hnd Hin) as [Hp Hni]. split.
    + rewrite Hp at 1. constructor.
    + simpl. set_solver.
Qed.

Lemma kv_set_fresh l k e :
  last_part k ∉ ids l -> kv_set k e l ≡ₚ (k, e) :: l.
Proof.
  intros H. unfold kv_set. rewrite insert_ordered_perm. rewrite JsMap.delete_notin; [done|].
  intros Hin. apply H. unfold JsMap.keys in Hin. apply list_elem_of_fmap in Hin as ([k2 e2] & -> & Hin).
  apply list_elem_of_fmap. by exists (k2, e2).
Qed.

(** A failed delivery keeps the item, one attempt more, under its key or in the
    dead-letter queue. *)
Definition key_after (k : Key) (a maxAttempts : Z) : Key :=
  if maxAttempts <=? a then Dead (last_part k) else k.

Lemma handleFailure_perm l k e m now :
  NoDup (ids l) -> (k, e) ∈ l ->
  exists rest, l ≡ₚ (k, e) :: rest /\
    handleFailure k (item e) (attempts e + 1) m now l ≡ₚ
      (key_after k (attempts e + 1) m, mkEntry (item e) (attempts e + 1) now) :: rest.
Proof.
  intros Hnd Hin. destruct (delete_contents l k e Hnd Hin) as [Hp Hni].
  exists (JsMap.delete l k). split; [done|]. unfold handleFailure, key_after, kv_delete.
  case_bool_step.
  - by rewrite kv_set_fresh by (by destruct k).
  - unfold kv_set. by rewrite insert_ordered_perm.
Qed.

(** ** Invariant *)

Definition todo (q : PersistentQueue) : store := match processing q with Some (_, l) => l | None => [] end.

Record inv (q : PersistentQueue) : Prop := {
  inv_ids : NoDup (ids (kv q));
  inv_todo : forall x, x ∈ todo q -> x ∈ kv q;
  inv_todo_ids : NoDup (ids (todo q));
}.

Lemma ids_contents l : ids l = (contents l).*1.
Proof. unfold ids, contents. rewrite <- list_fmap_compose. done. Qed.

#[local] Instance contents_perm : Proper ((≡ₚ) ==> (≡ₚ)) contents.
Proof. intros a b H. unfold contents. by rewrite H. Qed.
#[local] Instance ids_perm : Proper ((≡ₚ) ==> (≡ₚ)) ids.
Proof. intros a b H. unfold ids. by rewrite H. Qed.

(** An entry with another identifier survives the handling of one entry. *)
Lemma survives (l l' rest : store) k k' e e' x :
  l ≡ₚ (k, e) :: rest -> l' ≡ₚ (k', e') :: rest \/ l' ≡ₚ rest ->
  x ∈ l -> last_part x.1 <> last_part k -> x ∈ l'.
Proof.
  intros Hl Hl' Hx Hne. rewrite Hl in Hx. apply elem_of_cons in Hx as [->|Hx]; [done|].
  destruct Hl' as [->| ->]; [by right|done].
Qed.

Lemma queue_step_inv q e :
  inv q -> (forall id x now, e = Enqueue id x now -> id ∉ ids (kv q)) ->
  inv (step q e) /\
  contents (kv q) ++ match e with Enqueue id x _ => [(id, x)] | _ => [] end
    ≡ₚ accepted q e ++ contents (kv (step q e)).
Proof.
  intros [Hids Htodo Htids] Hfresh. destruct e as [id x now|m b|s now]; simpl.
  - specialize (Hfresh id x now eq_refl).
    assert (kv_set (Active id) (mkEntry x 0 now) (kv q) ≡ₚ (Active id, mkEntry x 0 now) :: kv q) as Hp
      by (by apply kv_set_fresh).
    split; [split|]; simpl.
    + rewrite Hp. simpl. by apply NoDup_cons.
    + intros y Hy. rewrite Hp. right. by apply Htodo.
    + done.
    + rewrite Hp. simpl. by rewrite Permutation_app_comm.
  - rewrite app_nil_r. unfold processStart.
    destruct (processing q) as [p|] eqn:Ep; [by repeat split|]. split; [split|]; simpl; [done| | |done].
    + intros y Hy. apply (elem_of_take _ b) in Hy as (i & Hi & _). by eapply list_elem_of_lookup_2.
    + unfold ids, todo. simpl. rewrite <- firstn_map. eapply sublist_NoDup; [exact Hids|apply sublist_take].
  - rewrite app_nil_r. unfold processNext, accepted, todo in *.
    destruct (processing q) as [[m [|[k e] rest]]|] eqn:Ep; simpl.
    + split; [by split|]. by destruct s.
    + apply NoDup_cons in Htids as [Hk Htids]. simpl in Hk.
      assert ((k, e) ∈ kv q) as Hin by (apply Htodo; by left).
      assert (forall y, y ∈ rest -> last_part y.1 <> last_part k) as Hrest.
      { intros y Hy Heq. apply Hk. rewrite <- Heq. apply list_elem_of_fmap. by exists y. }
      destruct s; simpl.
      * destruct (delete_contents (kv q) k e Hids Hin) as [Hp Hni].
        unfold kv_delete. split; [split|]; simpl.
        -- rewrite Hp in Hids. by apply NoDup_cons in Hids as [_ ?].
        -- intros y Hy. eapply (survives _ _ _ k k e e); [exact Hp|by right| |by apply Hrest]. apply Htodo. by right.
        -- done.
        -- by rewrite Hp at 1.
      * destruct (handleFailure_perm (kv q) k e m now Hids Hin) as (r & Hp & Hp').
        assert (last_part (key_after k (attempts e + 1) m) = last_part k) as Hlp
          by (unfold key_after; by case_bool_step).
        split; [split|]; simpl.
        -- rewrite Hp'. rewrite Hp in Hids. simpl in *. by rewrite Hlp.
        -- intros y Hy. eapply survives; [exact Hp|left; exact Hp'| |by apply Hrest].
           apply Htodo. by right.
        -- done.
        -- rewrite Hp', Hp. simpl. by rewrite Hlp.
    + split; [split; unfold todo; by rewrite ?Ep|]. by destruct s.
Qed.

(** With fresh identifiers the accounts balance over a whole run. *)
Lemma run_balance es : forall q,
  inv q -> NoDup (ids (kv q) ++ (enqueued es).*1) ->
  inv (run q es).1 /\
  contents (kv q) ++ enqueued es ≡ₚ (run q es).2 ++ contents (kv (run q es).1).
Proof.
  induction es as [|e es IH]; intros q Hi Hnd; simpl; [by rewrite app_nil_r|].
  assert (forall id x now, e = Enqueue id x now -> id ∉ ids (kv q)) as Hfresh.
  { intros id x now ->. simpl in Hnd. apply NoDup_app in Hnd as (_ & Hd & _).
    intros Hin. apply (Hd id Hin). by left. }
  destruct (queue_step_inv q e Hi Hfresh) as [Hi' Hbal].
  set (new_items := match e with Enqueue id x _ => [(id, x)] | _ => [] end) in *.
  assert (enqueued (e :: es) = new_items ++ enqueued es) as Henq by (by destruct e).
  assert (NoDup (ids (kv (step q e)) ++ (enqueued es).*1)) as Hnd'.
  { change (NoDup (ids (kv q) ++ (enqueued (e :: es)).*1)) in Hnd.
    rewrite Henq, fmap_app, app_assoc, ids_contents, <- fmap_app, Hbal, fmap_app, <- app_assoc in Hnd.
    rewrite ids_contents. by apply NoDup_app in Hnd as (_ & _ & ?). }
  specialize (IH (step q e) Hi' Hnd'). destruct (run (step q e) es) as [q' d]. cbn [fst snd] in *.
  destruct IH as [Hinv Hb]. split; [done|].
  change (contents (kv q) ++ enqueued (e :: es) ≡ₚ (accepted q e ++ d) ++ contents (kv q')).
  rewrite Henq, app_assoc, Hbal, <- !app_assoc. by rewrite Hb.
Qed.

(** ** Properties *)

(** Nothing is lost and nothing is delivered twice: for every sequence of
    enqueues with fresh identifiers, process calls and handler outcomes, the
    enqueued items are exactly the items a handler accepted together with
    those in the store, counted with multiplicity. *)
Theorem queue_conserves es :
  NoDup (enqueued es).*1 ->
  enqueued es ≡ₚ (run new es).2 ++ contents (kv (run new es).1).
Proof.
  intros Hnd. assert (inv new) as Hi by (split; simpl; [constructor|done|constructor]).
  by destruct (run_balance es new Hi Hnd) as [_ H].
Qed.

(** The dead-letter queue is not left alone: it lies under the prefix that
    [process] lists, so a dead entry within the batch is handed to the handler
    again, and on failure is written back to the dead-letter queue with one
    attempt more: it is retried by every later call. *)
Theorem dead_letters_reprocessed q id e m b now rest :
  processing q = None -> NoDup (ids (kv q)) -> kv q = (Dead id, e) :: rest -> (0 < b)%nat ->
  m <= attempts e + 1 ->
  let q1 := processStart m b q in
  (exists later, processing q1 = Some (m, (Dead id, e) :: later)) /\
  (Dead id, mkEntry (item e) (attempts e + 1) now) ∈ kv (processNext false now q1).
Proof.
  intros Hp Hnd Hkv Hb Hm. unfold processStart. rewrite Hp, Hkv.
  destruct b as [|b]; [lia|]. simpl. split; [eauto|].
  destruct (handleFailure_perm (kv q) (Dead id) e m now Hnd) as (r & _ & Hq).
  { rewrite Hkv. by left. }
  rewrite <- Hkv, Hq. unfold key_after. rewrite (proj2 (Z.leb_le _ _) Hm). by left.
Qed.
End queue.

(** ** Witnesses *)

Lemma queue_conserves_witness :
  let es := [Enqueue "e1" 10 0; Enqueue "a2" 20 0; Begin 1 100; Next false 1; Enqueue "c3" 30 2;
             Next true 3; Next true 4; Begin 1 100; Next false 5] in
  enqueued es ≡ₚ (run new es).2 ++ contents (kv (run new es).1).
Proof.
  apply queue_conserves. apply (bool_decide_unpack _). vm_compute. exact I.
Defined.

Lemma dead_letters_reprocessed_witness :
  let q := mkQueue [(Dead "e1", mkEntry 10 5 0)] None in
  let q1 := processStart 5 100 q in
  (exists later, processing q1 = Some (5, (Dead "e1", mkEntry 10 5 0) :: later)) /\
  (Dead "e1", mkEntry 10 6 9) ∈ kv (processNext false 9 q1).
Proof.
  apply (dead_letters_reprocessed (mkQueue [(Dead "e1", mkEntry 10 5 0)] None) "e1"
    (mkEntry 10 5 0) 5 100 9 []).
  - reflexivity.
  - simpl. apply NoDup_singleton.
  - reflexivity.
  - lia.
  - simpl. lia.
Defined.
End Queue.
