(* ===== verification/Regex.v ===== *)
(** * Regular expressions

    The fully anchored regular expressions of the source ([/^...$/], no
    captures) as syntax over code units, matched with Brzozowski derivatives.
    [matches_lang] relates the matcher to the language of an expression. *)

From S2P Require Import Prelude JsString.

Module Regex.

(** A class is a list of inclusive ranges of code units. *)
Inductive regex :=
| Empty
| Eps
| Cls (ranges : list (Z * Z))
| Seq (r s : regex)
| Alt (r s : regex)
| Star (r : regex).

Definition in_class (rs : list (Z * Z)) (c : Z) : bool :=
  existsb (fun p => (p.1 <=? c) && (c <=? p.2)) rs.

(** The syntax the patterns are written with. *)
Definition chr (c : Z) : regex := Cls [(c, c)].
Fixpoint str (s : jsstr) : regex := match s with [] => Eps | c :: s => Seq (chr c) (str s) end.
Definition lit (s : string) : regex := str (js s).
Definition opt (r : regex) : regex := Alt r Eps.
Definition plus (r : regex) : regex := Seq r (Star r).
(** [r{n}] and [r{n,n+k}] *)
Fixpoint times (n : nat) (r : regex) : regex := match n with O => Eps | S n => Seq r (times n r) end.
Fixpoint upto (k : nat) (r : regex) : regex := match k with O => Eps | S k => Alt Eps (Seq r (upto k r)) end.
Definition between (n m : nat) (r : regex) : regex := Seq (times n r) (upto (m - n) r).
Definition alts (rs : list regex) : regex := fold_right Alt Empty rs.

Fixpoint nullable (r : regex) : bool :=
  match r with
  | Empty | Cls _ => false
  | Eps | Star _ => true
  | Seq r s => nullable r && nullable s
  | Alt r s => nullable r || nullable s
  end.

(** Smart constructors keep the derivatives small. *)
Definition seq_ (r s : regex) : regex :=
  match r, s with
  | Empty, _ | _, Empty => Empty
  | Eps, s => s
  | r, s => Seq r s
  end.
Definition alt_ (r s : regex) : regex :=
  match r, s with
  | Empty, s => s
  | r, Empty => r
  | r, s => Alt r s
  end.

Fixpoint deriv (c : Z) (r : regex) : regex :=
  match r with
  | Empty | Eps => Empty
  | Cls rs => if in_class rs c then Eps else Empty
  | Seq r s => let d := seq_ (deriv c r) s in if nullable r then alt_ d (deriv c s) else d
  | Alt r s => alt_ (deriv c r) (deriv c s)
  | Star r' => seq_ (deriv c r') r
  end.

(** [/^r$/.test(s)] *)
Fixpoint matches (r : regex) (s : jsstr) : bool :=
  match s with
  | [] => nullable r
  | c :: s => matches (deriv c r) s
  end.

(** ** The language of an expression *)

Inductive lang : regex -> jsstr -> Prop :=
| LEps : lang Eps []
| LCls rs c : in_class rs c = true -> lang (Cls rs) [c]
| LSeq r s a b : lang r a -> lang s b -> lang (Seq r s) (a ++ b)
| LAltL r s a : lang r a -> lang (Alt r s) a
| LAltR r s a : lang s a -> lang (Alt r s) a
| LStar0 r : lang (Star r) []
| LStarS r a b : lang r a -> lang (Star r) b -> lang (Star r) (a ++ b).
#[local] Hint Constructors lang : core.

Lemma lang_seq_inv r s w : lang (Seq r s) w -> exists a b, w = a ++ b /\ lang r a /\ lang s b.
Proof. inversion 1; subst; eauto. Qed.
Lemma lang_alt r s w : lang (Alt r s) w <-> lang r w \/ lang s w.
Proof. split; [inversion 1; subst; eauto|intros []; eauto]. Qed.
Lemma lang_empty w : ~ lang Empty w.
Proof. by inversion 1. Qed.
Lemma lang_eps w : lang Eps w <-> w = [].
Proof. split; [by inversion 1|intros ->; auto]. Qed.

Lemma lang_seq_eps s w : lang (Seq Eps s) w <-> lang s w.
Proof.
  split.
  - intros (a & b & -> & Ha & Hb)%lang_seq_inv. apply lang_eps in Ha as ->. done.
  - intros H. change w with ([] ++ w). auto.
Qed.

Lemma lang_seq_ r s w : lang (seq_ r s) w <-> lang (Seq r s) w.
Proof.
  assert (forall x, ~ lang (Seq Empty x) w) as HL.
  { intros x (a & b & _ & Ha & _)%lang_seq_inv. by eapply lang_empty. }
  assert (forall x, ~ lang (Seq x Empty) w) as HR.
  { intros x (a & b & _ & _ & Hb)%lang_seq_inv. by eapply lang_empty. }
  pose proof (lang_empty w) as HE.
  destruct r, s; simpl; try done;
    try (split; intros Hw; exfalso; first [exact (HE Hw)|exact (HL _ Hw)|exact (HR _ Hw)]);
    symmetry; apply lang_seq_eps.
Qed.

Lemma lang_alt_ r s w : lang (alt_ r s) w <-> lang (Alt r s) w.
Proof.
  rewrite lang_alt. pose proof (lang_empty w) as HE.
  destruct r; simpl; [naive_solver|..]; destruct s; rewrite ?lang_alt; naive_solver.
Qed.

Lemma nullable_lang r : nullable r = true <-> lang r [].
Proof.
  induction r as [| |rs|r IHr s IHs|r IHr s IHs|r IHr]; simpl.
  - split; [done|by inversion 1].
  - split; auto.
  - split; [done|by inversion 1].
  - rewrite andb_true_iff, IHr, IHs. split.
    + intros [? ?]. change (@nil Z) with (@nil Z ++ []). auto.
    + intros (a & b & Hab & Ha & Hb)%lang_seq_inv. by destruct a, b.
  - rewrite orb_true_iff, IHr, IHs, lang_alt. done.
  - split; auto.
Qed.

Lemma lang_star_cons r c w :
  lang (Star r) (c :: w) -> exists a b, w = a ++ b /\ lang r (c :: a) /\ lang (Star r) b.
Proof.
  intros H. remember (Star r) as q eqn:Eq. remember (c :: w) as v eqn:Ev.
  revert w Ev. induction H as [| | | | |r0|r0 a b Ha IHa Hb IHb]; intros w Ev; simplify_eq.
  destruct a as [|c' a]; simpl in Ev; [by apply IHb|]. simplify_eq. eauto.
Qed.

Lemma deriv_lang c r : forall w, lang (deriv c r) w <-> lang r (c :: w).
Proof.
  induction r as [| |rs|r IHr s IHs|r IHr s IHs|r IHr]; intros w; simpl.
  - split; [intros []%lang_empty|by inversion 1].
  - split; [intros []%lang_empty|by inversion 1].
  - destruct (in_class rs c) eqn:E.
    + rewrite lang_eps. split; [intros ->; auto|by inversion 1].
    + split; [intros []%lang_empty|]. inversion 1; congruence.
  - assert (lang (seq_ (deriv c r) s) w <-> exists a b, w = a ++ b /\ lang r (c :: a) /\ lang s b) as Hd.
    { rewrite lang_seq_. split.
      - intros (a & b & -> & Ha & Hb)%lang_seq_inv. exists a, b. by rewrite <- IHr.
      - intros (a & b & -> & Ha & Hb). apply LSeq; [by apply IHr|done]. }
    destruct (nullable r) eqn:En; rewrite ?lang_alt_, ?lang_alt, Hd, ?IHs; split.
    + intros [(a & b & -> & Ha & Hb)|Hs]; [change (c :: a ++ b) with ((c :: a) ++ b); auto|].
      change (c :: w) with ([] ++ c :: w). apply LSeq; [by apply nullable_lang|done].
    + intros ([|c' a] & b & Hab & Ha & Hb)%lang_seq_inv; simplify_eq/=; [by right|left; by exists a, b].
    + intros (a & b & -> & Ha & Hb). change (c :: a ++ b) with ((c :: a) ++ b). auto.
    + intros ([|c' a] & b & Hab & Ha & Hb)%lang_seq_inv; simplify_eq/=; [|by exists a, b].
      apply nullable_lang in Ha. congruence.
  - by rewrite lang_alt_, !lang_alt, IHr, IHs.
  - rewrite lang_seq_. split.
    + intros (a & b & -> & Ha & Hb)%lang_seq_inv. change (c :: a ++ b) with ((c :: a) ++ b).
      apply LStarS; [by apply IHr|done].
    + intros (a & b & -> & Ha & Hb)%lang_star_cons. apply LSeq; [by apply IHr|done].
Qed.

Lemma matches_lang s : forall r, matches r s = true <-> lang r s.
Proof.
  induction s as [|c s IH]; intros r; simpl; [apply nullable_lang|]. by rewrite IH, deriv_lang.
Qed.

(** ** Static facts about all words of an expression *)

(** Every word contains the unit [c]. *)
Fixpoint requires (c : Z) (r : regex) : bool :=
  match r with
  | Empty => true
  | Eps | Star _ => false
  | Cls rs => forallb (fun p => (c =? p.1) && (p.2 =? c)) rs
  | Seq r s => requires c r || requires c s
  | Alt r s => requires c r && requires c s
  end.

Lemma requires_lang c r w : requires c r = true -> lang r w -> c ∈ w.
Proof.
  intros Hr Hw. induction Hw as [|rs d Hd|r s a b Ha IHa Hb IHb|r s a Ha IHa|r s a Ha IHa| |]; simpl in Hr; try done.
  - unfold in_class in Hd. apply existsb_exists in Hd as (p & Hp & Hd). rewrite forallb_forall in Hr.
    specialize (Hr p Hp). reflect_bools. assert (c = d) as -> by lia. by left.
  - apply orb_true_iff in Hr as [H|H]; set_solver.
  - apply andb_true_iff in Hr as [H _]; auto.
  - apply andb_true_iff in Hr as [_ H]; auto.
Qed.

(** Every unit of every word lies between the bounds. *)
Fixpoint within (lo hi : Z) (r : regex) : bool :=
  match r with
  | Empty | Eps => true
  | Cls rs => forallb (fun p => (lo <=? p.1) && (p.2 <=? hi)) rs
  | Seq r s | Alt r s => within lo hi r && within lo hi s
  | Star r => within lo hi r
  end.

Lemma within_lang lo hi r w : within lo hi r = true -> lang r w -> Forall (fun c => lo <= c <= hi) w.
Proof.
  intros Hr Hw. induction Hw as [|rs d Hd|r s a b Ha IHa Hb IHb|r s a Ha IHa|r s a Ha IHa| |r a b Ha IHa Hb IHb];
    simpl in Hr; [by constructor| | | | |by constructor|].
  - unfold in_class in Hd. apply existsb_exists in Hd as (p & Hp & Hd). rewrite forallb_forall in Hr.
    specialize (Hr p Hp). reflect_bools. constructor; [lia|constructor].
  - apply andb_true_iff in Hr as [H1 H2]. apply Forall_app. auto.
  - apply andb_true_iff in Hr as [H1 H2]. auto.
  - apply andb_true_iff in Hr as [H1 H2]. auto.
  - apply Forall_app. auto.
Qed.

(** An upper bound on the length of the words, when there is one. *)
Fixpoint maxlen (r : regex) : option nat :=
  match r with
  | Empty | Eps => Some 0%nat
  | Cls _ => Some 1%nat
  | Seq r s => match maxlen r, maxlen s with Some n, Some m => Some (n + m)%nat | _, _ => None end
  | Alt r s => match maxlen r, maxlen s with Some n, Some m => Some (Nat.max n m) | _, _ => None end
  | Star _ => None
  end.

Lemma maxlen_lang r w n : maxlen r = Some n -> lang r w -> (length w <= n)%nat.
Proof.
  intros Hn Hw. revert n Hn.
  induction Hw as [|rs d Hd|r s a b Ha IHa Hb IHb|r s a Ha IHa|r s a Ha IHa| |r a b Ha IHa Hb IHb];
    intros n Hn; simpl in Hn; simplify_eq/=; try lia;
    destruct (maxlen r) as [x|]; try done; destruct (maxlen s) as [y|]; simplify_eq.
  - rewrite length_app. specialize (IHa x eq_refl). specialize (IHb y eq_refl). lia.
  - specialize (IHa x eq_refl). lia.
  - specialize (IHa y eq_refl). lia.
Qed.

(** ** Repeated classes *)

Lemma lang_cls rs w : lang (Cls rs) w <-> exists c, w = [c] /\ in_class rs c = true.
Proof. split; [inversion 1; eauto|intros (c & -> & H); auto]. Qed.

(** Literals, and concatenations and repetitions of classes. *)
Lemma lang_str s : forall w, lang (str s) w <-> w = s.
Proof.
  induction s as [|c s IH]; intros w; simpl; [apply lang_eps|]. split.
  - intros (a & b & -> & Ha & Hb)%lang_seq_inv. apply lang_cls in Ha as (d & -> & Hd).
    apply IH in Hb as ->. unfold in_class in Hd. simpl in Hd. simpl. f_equal. lia.
  - intros ->. change (c :: s) with ([c] ++ s). apply LSeq; [|by apply IH].
    apply LCls. unfold in_class. simpl. lia.
Qed.

Lemma lang_star_cls rs w : lang (Star (Cls rs)) w -> Forall (fun c => in_class rs c = true) w.
Proof.
  intros H. remember (Star (Cls rs)) as r eqn:E.
  induction H as [| | | | |r0|r0 a b Ha IHa Hb IHb]; simplify_eq; [by constructor|].
  apply lang_cls in Ha as (c & -> & Hc). constructor; auto.
Qed.

Lemma lang_plus_cls rs w : lang (plus (Cls rs)) w -> w <> [] /\ Forall (fun c => in_class rs c = true) w.
Proof.
  intros (a & b & -> & Ha & Hb)%lang_seq_inv. apply lang_cls in Ha as (c & -> & Hc).
  split; [done|]. constructor; [done|by apply lang_star_cls].
Qed.

Lemma lang_plus_intro rs w : w <> [] -> Forall (fun c => in_class rs c = true) w -> lang (plus (Cls rs)) w.
Proof.
  intros Hw Hf. destruct Hf as [|c w Hc Hf]; [done|]. apply (LSeq _ _ [c] w); [by constructor|].
  induction Hf as [|d w Hd Hf IH]; [constructor|]. apply (LStarS _ [d] w); [by constructor|]. by apply IH.
Qed.

Lemma lang_times rs n : forall w,
  lang (times n (Cls rs)) w <-> length w = n /\ Forall (fun c => in_class rs c = true) w.
Proof.
  induction n as [|n IH]; intros w; simpl.
  - rewrite lang_eps. split; [intros ->; by split|]. intros [H _]. by destruct w.
  - split.
    + intros (a & b & -> & Ha & Hb)%lang_seq_inv. apply lang_cls in Ha as (c & -> & Hc).
      apply IH in Hb as [Hl Hb]. simpl. split; [by f_equal|by constructor].
    + intros [Hl Hf]. destruct w as [|c w]; [done|]. apply Forall_cons in Hf as [Hc Hf].
      change (c :: w) with ([c] ++ w). apply LSeq; [auto|]. apply IH. simpl in Hl. split; [lia|done].
Qed.

Lemma lang_upto rs k : forall w,
  lang (upto k (Cls rs)) w <-> (length w <= k)%nat /\ Forall (fun c => in_class rs c = true) w.
Proof.
  induction k as [|k IH]; intros w; simpl.
  - rewrite lang_eps. split; [intros ->; by split|]. intros [H _]. destruct w; [done|simpl in H; lia].
  - rewrite lang_alt, lang_eps. split.
    + intros [->|(a & b & -> & Ha & Hb)%lang_seq_inv]; [split; [simpl; lia|constructor]|].
      apply lang_cls in Ha as (c & -> & Hc). apply IH in Hb as [Hl Hb]. simpl. split; [lia|by constructor].
    + intros [Hl Hf]. destruct w as [|c w]; [by left|right]. apply Forall_cons in Hf as [Hc Hf].
      change (c :: w) with ([c] ++ w). apply LSeq; [auto|]. apply IH. simpl in Hl. split; [lia|done].
Qed.

Lemma matches_between rs n m s : (n <= m)%nat ->
  matches (between n m (Cls rs)) s = true <->
  (n <= length s <= m)%nat /\ Forall (fun c => in_class rs c = true) s.
Proof.
  intros Hnm. rewrite matches_lang. unfold between. split.
  - intros (a & b & -> & [Ha Hfa]%lang_times & [Hb Hfb]%lang_upto)%lang_seq_inv.
    rewrite length_app. split; [lia|by apply Forall_app].
  - intros [Hl Hf]. rewrite <- (take_drop n s) in Hf. apply Forall_app in Hf as [H1 H2].
    rewrite <- (take_drop n s). apply LSeq.
    + apply lang_times. rewrite length_take. split; [lia|done].
    + apply lang_upto. rewrite length_drop. split; [lia|done].
Qed.
End Regex.
