(* ===== verification/Net.v ===== *)
(** * Network address validation

    Models the address part of
    [src/orchestrator/infrastructure/system/validation.ts]: [IP_REGEX],
    [isValidIP], [isCriticalInfrastructure], [isPrivateIp], [isPrivateIpv6],
    [expandIpv6], [isValidWebhookUrl] and [validateWebhookUrlAsync].  The URL
    parser, the DNS resolver and the environment are inputs. *)

From S2P Require Import Prelude JsString Regex Bloom.

Module Net.
Import Regex JsString.

Definition digit : regex := Cls [(48, 57)].
Definition hex4 : regex := between 1 4 (Cls [(48, 57); (97, 102); (65, 70)]).
Definition dot : regex := chr 46.
Definition colon : regex := chr 58.

(** [25[0-5]|2[0-4][0-9]|[01]?[0-9][0-9]?] *)
Definition octet : regex :=
  alts [Seq (lit "25") (Cls [(48, 53)]);
        Seq (lit "2") (Seq (Cls [(48, 52)]) digit);
        Seq (opt (Cls [(48, 49)])) (Seq digit (opt digit))].
(** [25[0-5]|(2[0-4]|1{0,1}[0-9]){0,1}[0-9]] *)
Definition octet' : regex :=
  Alt (Seq (lit "25") (Cls [(48, 53)]))
      (Seq (opt (Alt (Seq (lit "2") (Cls [(48, 52)])) (Seq (opt (lit "1")) digit))) digit).

Definition quad_of (o : regex) : regex := Seq (times 3 (Seq o dot)) o.
Definition hc (n m : nat) : regex := between n m (Seq hex4 colon).
Definition ch (n m : nat) : regex := between n m (Seq colon hex4).

Definition ipv6_alternatives : list regex :=
  [Seq (hc 7 7) hex4;
   Seq (hc 1 7) colon;
   Seq (hc 1 6) (Seq colon hex4);
   Seq (hc 1 5) (ch 1 2);
   Seq (hc 1 4) (ch 1 3);
   Seq (hc 1 3) (ch 1 4);
   Seq (hc 1 2) (ch 1 5);
   Seq hex4 (Seq colon (ch 1 6));
   Seq colon (Alt (ch 1 7) colon);
   Seq (lit "fe80:")
     (Seq (between 0 4 (Seq colon (between 0 4 (Cls [(48, 57); (97, 102); (65, 70)]))))
       (Seq (lit "%") (plus (Cls [(48, 57); (97, 122); (65, 90)]))));
   Seq (lit "::")
     (Seq (opt (Seq (lit "ffff") (Seq (opt (Seq colon (between 1 4 (lit "0")))) colon)))
       (quad_of octet'));
   Seq (hc 1 4) (Seq colon (quad_of octet'))].

Definition IP_REGEX : regex := Alt (quad_of octet) (alts ipv6_alternatives).

Definition isValidIP (ip : jsstr) : bool := matches IP_REGEX ip.

Definition CRITICAL_IPS : list jsstr :=
  [js "1.1.1.1"; js "8.8.8.8"; js "8.8.4.4"; js "127.0.0.1"; js "::1"].

Definition infrastructureCache : Bloom.BloomFilter := Bloom.add_all (Bloom.new 1024 3) CRITICAL_IPS.

(** [isCriticalInfrastructure(ip)]; [gateway] is the GATEWAY_IP variable. *)
Definition isCriticalInfrastructure (gateway : option jsstr) (ip : jsstr) : bool :=
  if negb (Bloom.has infrastructureCache ip) then
    match gateway with
    | Some g => negb (bool_decide (g = [])) && bool_decide (ip = g)
    | None => false
    end
  else
    let whitelist := List.filter (fun i => negb (bool_decide (i = [])))
                       (CRITICAL_IPS ++ [default [] gateway]) in
    bool_decide (ip ∈ whitelist).

Definition all_digits (s : jsstr) : bool := negb (bool_decide (s = [])) && forallb is_digit s.

(** [host.match(/^(\d+)\.(\d+)\.(\d+)\.(\d+)$/)]: the four captures. *)
Definition ipv4Match (host : jsstr) : option (jsstr * jsstr * jsstr * jsstr) :=
  match split host (js ".") with
  | [a; b; c; d] =>
      if all_digits a && all_digits b && all_digits c && all_digits d then Some (a, b, c, d) else None
  | _ => None
  end.

Definition Number (s : jsstr) : Z := parse_base 10 s.

(** The longest suffix of digits, and what is before it. *)
Fixpoint digit_run (r : jsstr) : jsstr * jsstr :=
  match r with
  | c :: r' => if is_digit c then let '(run, rest) := digit_run r' in (c :: run, rest) else ([], r)
  | [] => ([], [])
  end.

(** [text.match(/(\d+)\.(\d+)\.(\d+)\.(\d+)$/)]: the text before the leftmost
    match and the four captures. *)
Definition dottedSuffix (text : jsstr) : option (jsstr * list jsstr) :=
  match rev (split text (js ".")) with
  | d :: c :: b :: p :: front =>
      let '(run, before) := digit_run (rev p) in
      if all_digits d && all_digits c && all_digits b && negb (bool_decide (run = []))
      then Some (match front with
                 | [] => rev before
                 | _ => join (js ".") (rev front) ++ js "." ++ rev before
                 end, [rev run; b; c; d])
      else None
  | _ => None
  end.

(** [text.slice(0, text.indexOf("%"))] when there is a zone. *)
Fixpoint stripZone (text : jsstr) : jsstr :=
  match text with
  | [] => []
  | c :: text => if c =? 37 then [] else c :: stripZone text
  end.

(** [/^[0-9a-f]{1,4}$/] *)
Definition is_group (g : jsstr) : bool :=
  matches (between 1 4 (Cls [(48, 57); (97, 102)])) g.

Fixpoint parseGroups (gs : list jsstr) : option (list Z) :=
  match gs with
  | [] => Some []
  | g :: gs => if is_group g then option_map (cons (parse_base 16 g)) (parseGroups gs) else None
  end.

(** The local function [parse]. *)
Definition parsePart (part : jsstr) : option (list Z) :=
  if bool_decide (part = []) then Some [] else parseGroups (split part (js ":")).

(** [expandIpv6(addr)] *)
Definition expandIpv6 (addr : jsstr) : option (list Z) :=
  let text := stripZone addr in
  let text :=
    match dottedSuffix text with
    | Some (before, ds) =>
        match map Number ds with
        | [a; b; c; d] =>
            if existsb (fun o => 255 <? o) [a; b; c; d] then None
            else Some (before ++ hexadecimal (Z.lor (Z.shiftl a 8) b) ++ js ":"
                              ++ hexadecimal (Z.lor (Z.shiftl c 8) d))
        | _ => None
        end
    | None => Some text
    end in
  match text with
  | None => None
  | Some text =>
      match split text (js "::") with
      | [h] => match parsePart h with
               | Some head => if (length head =? 8)%nat then Some head else None
               | None => None
               end
      | [h; t] =>
          match parsePart h with
          | None => None
          | Some head =>
              match parsePart t with
              | None => None
              | Some tail =>
                  let fill := 8 - Z.of_nat (length head) - Z.of_nat (length tail) in
                  if fill <? 0 then None
                  else Some (head ++ replicate (Z.to_nat fill) 0 ++ tail)
              end
          end
      | _ => None
      end
  end.

Definition group_at (gs : list Z) (i : nat) : Z := default 0 (gs !! i).

(** [isPrivateIpv6(addr)], given [isPrivateIp]. *)
Definition isPrivateIpv6 (isPrivateIp : jsstr -> bool) (addr : jsstr) : bool :=
  match expandIpv6 addr with
  | None =>
      bool_decide (addr = js "::") || bool_decide (addr = js "::1")
      || startsWith addr (js "fc") || startsWith addr (js "fd")
      || startsWith addr (js "fe8") || startsWith addr (js "fe9")
      || startsWith addr (js "fea") || startsWith addr (js "feb")
  | Some groups =>
      if forallb (Z.eqb 0) groups then true
      else if forallb (Z.eqb 0) (take 7 groups) && (group_at groups 7 =? 1) then true
      else
        let first := group_at groups 0 in
        if Z.land first 0xfe00 =? 0xfc00 then true
        else if Z.land first 0xffc0 =? 0xfe80 then true
        else if forallb (Z.eqb 0) (take 5 groups) &&
                ((group_at groups 5 =? 0xffff) || (group_at groups 5 =? 0)) then
          let a := Z.shiftr (group_at groups 6) 8 in
          let b := Z.land (group_at groups 6) 0xff in
          let c := Z.shiftr (group_at groups 7) 8 in
          let d := Z.land (group_at groups 7) 0xff in
          if negb (a =? 0) || negb (b =? 0) || negb (c =? 0) || negb (d =? 0)
          then isPrivateIp (decimal a ++ js "." ++ decimal b ++ js "." ++ decimal c ++ js "."
                                      ++ decimal d)
          else false
        else false
  end.

(** [isPrivateIp(ip)]; the two functions call each other, so the recursion is
    bounded by [fuel]. *)
Fixpoint isPrivateIp_fuel (fuel : nat) (ip : jsstr) : bool :=
  match fuel with
  | O => true
  | S fuel =>
      let host := if startsWith ip (js "[") && endsWith ip (js "]")
                  then take (length ip - 2) (drop 1 ip) else ip in
      if bool_decide (host = js "localhost") || bool_decide (host = js "127.0.0.1")
         || bool_decide (host = js "0.0.0.0") then true
      else if startsWith host (js "169.254.") then true
      else
        let lowerIp := toLowerCase host in
        match ipv4Match host with
        | Some (sa, sb, _, _) =>
            let a := Number sa in
            let b := Number sb in
            (a =? 127) || (a =? 10) || ((a =? 172) && (16 <=? b) && (b <=? 31))
            || ((a =? 192) && (b =? 168)) || ((a =? 100) && (64 <=? b) && (b <=? 127))
            || ((a =? 198) && ((b =? 18) || (b =? 19))) || (a =? 0)
        | None =>
            if negb (includes lowerIp (js ":")) then false
            else isPrivateIpv6 (isPrivateIp_fuel fuel) lowerIp
        end
  end.

Definition isPrivateIp (ip : jsstr) : bool := isPrivateIp_fuel 2 ip.

Inductive Reason :=
| InvalidUrl | SchemeNotAllowed (protocol : jsstr) | LoopbackNotAllowed | MetadataNotAllowed
| LinkLocalNotAllowed | PrivateNotAllowed | CouldNotResolve | ResolvesToPrivate (ip : jsstr).

Record URL := { protocol : jsstr; hostname : jsstr }.

Section webhook.
(** [new URL(url)], [None] when it throws, and [Deno.resolveDns(hostname, kind)],
    [None] when it rejects. *)
Context (parseUrl : jsstr -> option URL) (resolveA resolveAAAA : jsstr -> option (list jsstr)).

(** [isValidWebhookUrl(url)]: [None] when valid. *)
Definition isValidWebhookUrl (url : jsstr) : option Reason :=
  match parseUrl url with
  | None => Some InvalidUrl
  | Some parsed =>
      if negb (bool_decide (protocol parsed = js "https:")) then Some (SchemeNotAllowed (protocol parsed))
      else
        let hostname := toLowerCase (hostname parsed) in
        if bool_decide (hostname = js "localhost") || startsWith hostname (js "127.")
           || bool_decide (hostname = js "0.0.0.0") || bool_decide (hostname = js "::1")
           || bool_decide (hostname = js "[::1]") || bool_decide (hostname = js "[::]")
        then Some LoopbackNotAllowed
        else if bool_decide (hostname = js "169.254.169.254")
                || bool_decide (hostname = js "metadata.google.internal") then Some MetadataNotAllowed
        else if startsWith hostname (js "169.254.") then Some LinkLocalNotAllowed
        else if isPrivateIp hostname then Some PrivateNotAllowed
        else None
  end.

(** [validateWebhookUrlAsync(url)]: the address to connect to, or the reason. *)
Definition validateWebhookUrlAsync (url : jsstr) : Reason + jsstr :=
  match isValidWebhookUrl url with
  | Some r => inl r
  | None =>
      match parseUrl url with
      | None => inl InvalidUrl
      | Some parsed =>
          if isValidIP (hostname parsed) then inr (hostname parsed)
          else
            let ips := default [] (resolveA (hostname parsed))
                       ++ default [] (resolveAAAA (hostname parsed)) in
            match ips with
            | [] => inl CouldNotResolve
            | first :: _ =>
                match find isPrivateIp ips with
                | Some ip => inl (ResolvesToPrivate ip)
                | None => inr first
                end
            end
      end
  end.
End webhook.

(** ** Evaluation on concrete addresses *)

Example valid_ips :
  map (fun s => isValidIP (js s))
    ["10.0.0.1"; "256.1.1.1"; "1.2.3"; "::1"; "fe80::1%eth0"; "2001:db8::8a2e:370:7334";
     "::ffff:127.0.0.1"; "1:2:3:4:5:6:7:8:9"; "example.org"]%string
  = [true; false; false; true; true; true; true; false; false].
Proof. vm_compute. reflexivity. Qed.

Example private_ips :
  map (fun s => isPrivateIp (js s))
    ["[fe80::1]"; "[::ffff:7f00:1]"; "8.8.8.8"; "fcbarcelona.com"; "[2001:db8::1]"; "172.31.0.9";
     "100.64.0.1"; "[::]"; "::ffff:10.1.2.3"]%string
  = [true; true; false; false; false; true; true; true; true].
Proof. vm_compute. reflexivity. Qed.

(** ** Critical infrastructure *)

Lemma critical_in_cache ip : ip ∈ CRITICAL_IPS -> Bloom.has infrastructureCache ip = true.
Proof. intros H. apply Bloom.add_all_has; [apply Bloom.new_wf; lia|]. by apply list_elem_of_In. Qed.

(** ** IPv4 literals *)

Definition quad (a b c d : jsstr) : jsstr := join (js ".") [a; b; c; d].

Lemma all_digits_spec s : all_digits s = true <-> s <> [] /\ Forall (fun c => is_digit c = true) s.
Proof.
  unfold all_digits. rewrite andb_true_iff, negb_true_iff, bool_decide_eq_false, forallb_forall.
  rewrite Forall_forall. setoid_rewrite list_elem_of_In. done.
Qed.

Lemma digits_no c s : is_digit c = false -> all_digits s = true -> c ∉ s.
Proof.
  intros Hc [_ Hs]%all_digits_spec Hin. rewrite Forall_forall in Hs. by rewrite (Hs c Hin) in Hc.
Qed.

Lemma split_quad a b c d :
  all_digits a = true -> all_digits b = true -> all_digits c = true -> all_digits d = true ->
  split (quad a b c d) (js ".") = [a; b; c; d].
Proof.
  intros Ha Hb Hc Hd. apply (split_join_char 46); [done|].
  repeat constructor; by apply digits_no.
Qed.

Definition octets_ok : bool :=
  forallb (fun n => let s := decimal (Z.of_nat n) in
                    all_digits s && (parse_base 10 s =? Z.of_nat n)) (seq 0 256).

Lemma decimal_ok n : 0 <= n < 256 -> all_digits (decimal n) = true /\ Number (decimal n) = n.
Proof.
  intros Hn. assert (octets_ok = true) as H by (vm_compute; reflexivity).
  unfold octets_ok in H. rewrite forallb_forall in H.
  specialize (H (Z.to_nat n)). rewrite Z2Nat.id in H by lia.
  assert (In (Z.to_nat n) (seq 0 256)) as Hin by (apply in_seq; lia).
  specialize (H Hin). cbv zeta in H. apply andb_true_iff in H as [H1 H2].
  apply Z.eqb_eq in H2. done.
Qed.

(** The blocked IPv4 ranges. *)
Definition private4 (a b : Z) : bool :=
  (a =? 0) || (a =? 10) || (a =? 127) || ((a =? 169) && (b =? 254))
  || ((a =? 172) && (16 <=? b) && (b <=? 31)) || ((a =? 192) && (b =? 168))
  || ((a =? 100) && (64 <=? b) && (b <=? 127)) || ((a =? 198) && (18 <=? b) && (b <=? 19)).

Definition decimal_quad (a b c d : Z) : jsstr := quad (decimal a) (decimal b) (decimal c) (decimal d).

Section quads.
Context (a b c d : Z) (Ha : 0 <= a < 256) (Hb : 0 <= b < 256) (Hc : 0 <= c < 256) (Hd : 0 <= d < 256).

Lemma split_decimal_quad : split (decimal_quad a b c d) (js ".") = [decimal a; decimal b; decimal c; decimal d].
Proof using Ha Hb Hc Hd. apply split_quad; by apply decimal_ok. Qed.

(** A text with the same pieces has the same first two numbers. *)
Lemma quad_starts x y r :
  decimal_quad a b c d = x ++ 46 :: y ++ 46 :: r -> all_digits x = true -> all_digits y = true ->
  a = Number x /\ b = Number y.
Proof using Ha Hb Hc Hd.
  intros Heq Hx Hy. pose proof split_decimal_quad as Hs. rewrite Heq in Hs. unfold split in Hs.
  change (js ".") with [46] in Hs.
  rewrite split_go_piece in Hs by (by apply digits_no). simpl in Hs.
  rewrite split_go_piece in Hs by (by apply digits_no). simpl in Hs.
  injection Hs as Hx' Hy' _. rewrite Hx', Hy'. split; symmetry; by apply decimal_ok.
Qed.

Lemma quad_no_bracket : startsWith (decimal_quad a b c d) (js "[") = false.
Proof using Ha Hb Hc Hd.
  destruct (decimal_ok a Ha) as [[Hne Hf]%all_digits_spec _]. unfold decimal_quad, quad.
  destruct (decimal a) as [|x s]; [done|]. apply Forall_cons in Hf as [Hx _].
  change (js "[") with [91]. cbn [join app]. rewrite startsWith_char. apply Z.eqb_neq. unfold is_digit in Hx. reflect_bools. lia.
Qed.

Lemma quad_ne (s : string) (n : nat) :
  length (split (js s) (js ".")) = n -> n <> 4%nat -> decimal_quad a b c d <> js s.
Proof using Ha Hb Hc Hd. intros Hl Hn E. rewrite <- E, split_decimal_quad in Hl. by subst. Qed.

Lemma quad_private fuel : isPrivateIp_fuel (S fuel) (decimal_quad a b c d) = private4 a b.
Proof using Ha Hb Hc Hd.
  cbn [isPrivateIp_fuel]. rewrite quad_no_bracket. cbn [andb].
  rewrite (bool_decide_eq_false_2 (decimal_quad a b c d = js "localhost"))
    by (by eapply quad_ne).
  assert (ipv4Match (decimal_quad a b c d) = Some (decimal a, decimal b, decimal c, decimal d)) as Hm.
  { unfold ipv4Match. rewrite split_decimal_quad.
    by rewrite !(fun n H => proj1 (decimal_ok n H)) by done. }
  assert (forall x y r, decimal_quad a b c d = x ++ 46 :: y ++ 46 :: r ->
            all_digits x = true -> all_digits y = true -> a = Number x /\ b = Number y) as Hst
    by (intros; by eapply quad_starts).
  rewrite Hm, !(fun n H => proj2 (decimal_ok n H)) by done.
  case_bool_decide as E1; cbn [orb].
  { destruct (Hst (js "127") (js "0") (js "0.1") E1 eq_refl eq_refl) as [-> ->]. done. }
  case_bool_decide as E2; cbn [orb].
  { destruct (Hst (js "0") (js "0") (js "0.0") E2 eq_refl eq_refl) as [-> ->]. done. }
  destruct (startsWith (decimal_quad a b c d) (js "169.254.")) eqn:E3.
  { apply startsWith_spec in E3 as [r Hr].
    destruct (Hst (js "169") (js "254") r Hr eq_refl eq_refl) as [-> ->]. done. }
  assert ((a =? 169) && (b =? 254) = false) as E4.
  { apply not_true_iff_false. intros H. apply andb_true_iff in H as [->%Z.eqb_eq ->%Z.eqb_eq].
    change (decimal_quad 169 254 c d)
      with (js "169.254." ++ join (js ".") [decimal c; decimal d]) in E3.
    by rewrite startsWith_app in E3. }
  apply andb_false_iff in E4. rewrite !Z.eqb_neq in E4. unfold private4. apply eq_true_iff_eq.
  repeat rewrite ?orb_true_iff, ?andb_true_iff. rewrite !Z.eqb_eq, !Z.leb_le. lia.
Qed.
End quads.

(** ** IPv6 literals *)

(** A group: one to four hexadecimal digits. *)
Definition hexgroup (g : jsstr) : Prop :=
  (1 <= length g <= 4)%nat /\ Forall (fun c => is_hex c = true) g.

(** The textual form with groups [hs], or [hs::ts]. *)
Definition v6_text (hs : list jsstr) (ts : option (list jsstr)) : jsstr :=
  match ts with
  | None => join (js ":") hs
  | Some ts => join (js ":") hs ++ js "::" ++ join (js ":") ts
  end.

Definition v6_form (hs : list jsstr) (ts : option (list jsstr)) : Prop :=
  Forall hexgroup hs /\
  match ts with
  | None => length hs = 8%nat
  | Some ts => Forall hexgroup ts /\ (length hs + length ts <= 8)%nat
  end.

(** The eight groups it denotes. *)
Definition v6_groups (hs : list jsstr) (ts : option (list jsstr)) : list Z :=
  match ts with
  | None => map (parse_base 16) hs
  | Some ts => map (parse_base 16) hs ++ replicate (8 - length hs - length ts) 0
               ++ map (parse_base 16) ts
  end.

Lemma hex_facts c : is_hex c = true ->
  in_class [(48, 57); (97, 102)] (lower c) = true /\ digit_val (lower c) = digit_val c /\
  0 <= digit_val c < 16 /\ is_hex (lower c) = true /\ c <> 58 /\ c <> 46 /\ c <> 37 /\ c <> 91.
Proof.
  unfold is_hex, is_digit, lower, digit_val, is_digit, in_class. simpl existsb.
  intros H. repeat (rewrite ?orb_true_iff, ?andb_true_iff in H). rewrite !Z.leb_le in H.
  destruct (Z.leb_spec 65 c), (Z.leb_spec c 90); simpl; try lia; crush_if; split_and!; lia.
Qed.

Lemma hexgroup_lower g : hexgroup g ->
  hexgroup (toLowerCase g) /\ is_group (toLowerCase g) = true /\
  parse_base 16 (toLowerCase g) = parse_base 16 g.
Proof.
  intros [Hl Hg]. unfold toLowerCase. split_and!.
  - split; [by rewrite length_map|]. apply Forall_map. eapply Forall_impl; [exact Hg|].
    intros c Hc. exact (proj1 (proj2 (proj2 (proj2 (hex_facts c Hc))))).
  - apply matches_between; [lia|]. rewrite length_map. split; [done|].
    apply Forall_map. eapply Forall_impl; [exact Hg|]. intros c Hc. exact (proj1 (hex_facts c Hc)).
  - unfold parse_base. generalize 0. clear Hl. induction Hg as [|c g Hc Hg IH]; intros n; simpl; [done|].
    by rewrite (proj1 (proj2 (hex_facts c Hc))), IH.
Qed.

Lemma hexgroup_bound g : hexgroup g -> 0 <= parse_base 16 g < 65536.
Proof.
  intros [Hl Hg]. assert (0 <= parse_base 16 g < 16 ^ Z.of_nat (length g)) as Hb.
  { apply parse_base_bound; [lia|]. eapply Forall_impl; [exact Hg|]. intros c Hc. by apply hex_facts. }
  pose proof (Z.pow_le_mono_r 16 (Z.of_nat (length g)) 4 ltac:(lia) ltac:(lia)). simpl in *. lia.
Qed.

Lemma hexgroup_no58 g : hexgroup g -> g <> [] /\ 58 ∉ g.
Proof.
  intros [Hl Hg]. split; [by destruct g; simpl in Hl; [lia|]|].
  intros Hin. rewrite Forall_forall in Hg. apply Hg, hex_facts in Hin. lia.
Qed.

(** No two adjacent colons, and none at the end. *)
Fixpoint no_double (s : jsstr) : Prop :=
  match s with
  | [] => True
  | x :: s => (x <> 58 \/ match s with y :: _ => y <> 58 | [] => False end) /\ no_double s
  end.

Lemma no_double_head x s t :
  no_double (x :: s) -> startsWith (x :: s ++ t) (js "::") = false.
Proof.
  intros [H _]. change (js "::") with [58; 58]. cbn [startsWith].
  destruct H as [H|H]; [by rewrite (proj2 (Z.eqb_neq 58 x)) by congruence|].
  destruct s as [|y s]; [done|]. simpl app. cbn [startsWith].
  rewrite (proj2 (Z.eqb_neq 58 y)) by congruence. by rewrite andb_false_r.
Qed.

Lemma split_double s : no_double s -> forall acc t,
  split_go (js "::") 0 acc (s ++ 58 :: 58 :: t) = (rev acc ++ s) :: split_go (js "::") 0 [] t.
Proof.
  induction s as [|x s IH]; intros Hs acc t; [simpl; by rewrite app_nil_r|].
  change ((x :: s) ++ 58 :: 58 :: t) with (x :: (s ++ 58 :: 58 :: t)). cbn [split_go].
  rewrite no_double_head by done. rewrite IH by (by destruct Hs). simpl. by rewrite <- app_assoc.
Qed.

Lemma no_double_includes s : no_double s -> includes s (js "::") = false.
Proof.
  induction s as [|x s IH]; intros Hs; [done|]. cbn [includes].
  pose proof (no_double_head x s [] Hs) as H. rewrite app_nil_r in H. rewrite H.
  apply IH. by destruct Hs.
Qed.

Lemma no_double_app p s : 58 ∉ p -> no_double s -> no_double (p ++ s).
Proof.
  intros Hp Hs. induction p as [|x p IH]; [done|]. simpl. split; [left; set_solver|]. apply IH. set_solver.
Qed.

Lemma join_head gs : Forall hexgroup gs -> gs <> [] ->
  exists x s, join (js ":") gs = x :: s /\ x <> 58.
Proof.
  intros Hgs Hne. destruct gs as [|g gs]; [done|]. apply Forall_cons in Hgs as [Hg _].
  apply hexgroup_no58 in Hg as [Hgn Hg]. destruct g as [|x g]; [done|].
  destruct gs as [|q gs]; [exists x, g; set_solver|].
  exists x, (g ++ js ":" ++ join (js ":") (q :: gs)). set_solver.
Qed.

Lemma no_double_join gs : Forall hexgroup gs -> no_double (join (js ":") gs).
Proof.
  induction 1 as [|g gs Hg Hgs IH]; [done|]. apply hexgroup_no58 in Hg as [Hgn Hg].
  destruct gs as [|q gs].
  - simpl. rewrite <- (app_nil_r g). by apply no_double_app.
  - change (join (js ":") (g :: q :: gs)) with (g ++ 58 :: join (js ":") (q :: gs)).
    apply no_double_app; [done|]. destruct (join_head (q :: gs) Hgs ltac:(done)) as (x & s & E & Hx).
    rewrite E in *. simpl. split; [by right|done].
Qed.

Lemma parsePart_join gs :
  Forall hexgroup gs -> Forall (fun g => is_group g = true) gs ->
  parsePart (join (js ":") gs) = Some (map (parse_base 16) gs).
Proof.
  intros Hgs Hgr. unfold parsePart. destruct gs as [|g gs]; [done|].
  destruct (join_head _ Hgs ltac:(done)) as (x & s & E & _).
  rewrite bool_decide_eq_false_2 by (by rewrite E).
  change (js ":") with [58]. rewrite split_join_char; [|done|].
  - clear E x s Hgs. induction Hgr as [|h hs Hh Hhs IH]; [done|]. simpl. by rewrite Hh, IH.
  - eapply Forall_impl; [exact Hgs|]. intros h Hh. by apply hexgroup_no58.
Qed.

Lemma v6_chars hs ts c : v6_form hs ts -> c ∈ v6_text hs ts -> is_hex c = true \/ c = 58.
Proof.
  assert (forall gs, Forall hexgroup gs -> c ∈ join (js ":") gs -> is_hex c = true \/ c = 58) as H.
  { intros gs Hgs Hc. apply (join_elem 58) in Hc as [->|(g & Hg & Hc)]; [by right|left].
    rewrite Forall_forall in Hgs. destruct (Hgs g Hg) as [_ Hf]. rewrite Forall_forall in Hf. auto. }
  intros [Hhs Hts] Hc. destruct ts as [ts|]; unfold v6_text in Hc; [|by apply (H hs)].
  destruct Hts as [Hts _]. change (js "::") with [58; 58] in Hc. rewrite !elem_of_app in Hc.
  destruct Hc as [Hc|[Hc|Hc]]; [by apply (H hs)|set_solver|by apply (H ts)].
Qed.

Lemma v6_no hs ts c : v6_form hs ts -> is_hex c = false -> c <> 58 -> c ∉ v6_text hs ts.
Proof. intros Hf Hc H58 Hin. destruct (v6_chars hs ts c Hf Hin); congruence. Qed.

Lemma stripZone_id s : 37 ∉ s -> stripZone s = s.
Proof.
  induction s as [|c s IH]; intros H; [done|]. cbn [stripZone].
  rewrite (proj2 (Z.eqb_neq c 37)) by set_solver. f_equal. apply IH. set_solver.
Qed.

Lemma dottedSuffix_none s : 46 ∉ s -> dottedSuffix s = None.
Proof. intros H. unfold dottedSuffix. by rewrite split_none by (by apply includes_char_false). Qed.

(** The expansion reads back every textual form. *)
Lemma expand_text hs ts :
  v6_form hs ts -> Forall (fun g => is_group g = true) hs ->
  Forall (fun g => is_group g = true) (default [] ts) ->
  expandIpv6 (v6_text hs ts) = Some (v6_groups hs ts).
Proof.
  intros Hf Hgh Hgt. unfold expandIpv6.
  rewrite stripZone_id, dottedSuffix_none by (by apply v6_no). destruct Hf as [Hhs Hts].
  destruct ts as [ts|]; unfold v6_text, split.
  - destruct Hts as [Hts Hlen]. change (js "::" ++ join (js ":") ts) with (58 :: 58 :: join (js ":") ts).
    rewrite split_double by (by apply no_double_join). cbn [rev app].
    rewrite split_go_none by (by apply no_double_includes, no_double_join). cbn [rev app].
    rewrite !parsePart_join by done. rewrite !length_map.
    rewrite (proj2 (Z.ltb_ge _ _)) by lia. unfold v6_groups. do 4 f_equal. lia.
  - rewrite split_go_none by (by apply no_double_includes, no_double_join). cbn [rev app].
    rewrite parsePart_join by done. by rewrite length_map, Hts.
Qed.

(** The blocked IPv6 ranges, on the eight groups. *)
Definition private6 (gs : list Z) : bool :=
  forallb (Z.eqb 0) gs
  || (forallb (Z.eqb 0) (take 7 gs) && (group_at gs 7 =? 1))
  || ((0xfc00 <=? group_at gs 0) && (group_at gs 0 <=? 0xfdff))
  || ((0xfe80 <=? group_at gs 0) && (group_at gs 0 <=? 0xfebf))
  || (forallb (Z.eqb 0) (take 5 gs) && ((group_at gs 5 =? 0xffff) || (group_at gs 5 =? 0))
      && negb ((group_at gs 6 =? 0) && (group_at gs 7 =? 0))
      && private4 (group_at gs 6 / 256) (group_at gs 6 mod 256)).

Lemma land_shifted_ones x n k :
  0 <= x -> 0 <= n -> 0 <= k ->
  Z.land x (Z.shiftl (Z.ones k) n) = Z.shiftl ((x / 2 ^ n) mod 2 ^ k) n.
Proof.
  intros Hx Hn Hk. rewrite <- Z.land_ones, <- Z.shiftr_div_pow2 by lia. apply Z.bits_inj'. intros m Hm.
  destruct (Z.ltb_spec m n).
  - rewrite Z.land_spec, !Z.shiftl_spec_low by lia. by rewrite andb_false_r.
  - rewrite Z.land_spec, !Z.shiftl_spec by lia. rewrite Z.land_spec, Z.shiftr_spec by lia.
    by replace (m - n + n) with m by lia.
Qed.

Lemma mask_fc x : 0 <= x < 65536 -> (Z.land x 0xfe00 =? 0xfc00) = (0xfc00 <=? x) && (x <=? 0xfdff).
Proof.
  intros Hx. change 0xfe00 with (Z.shiftl (Z.ones 7) 9). rewrite land_shifted_ones, Z.shiftl_mul_pow2 by lia.
  change (2 ^ 9) with 512. change (2 ^ 7) with 128.
  rewrite (Z.mod_small (x / 512)) by (split; [apply Z.div_pos|apply Z.div_lt_upper_bound]; lia).
  pose proof (Z.div_mod x 512 ltac:(lia)). pose proof (Z.mod_pos_bound x 512 ltac:(lia)). lia.
Qed.

Lemma mask_fe x : 0 <= x < 65536 -> (Z.land x 0xffc0 =? 0xfe80) = (0xfe80 <=? x) && (x <=? 0xfebf).
Proof.
  intros Hx. change 0xffc0 with (Z.shiftl (Z.ones 10) 6). rewrite land_shifted_ones, Z.shiftl_mul_pow2 by lia.
  change (2 ^ 6) with 64. change (2 ^ 10) with 1024.
  rewrite (Z.mod_small (x / 64)) by (split; [apply Z.div_pos|apply Z.div_lt_upper_bound]; lia).
  pose proof (Z.div_mod x 64 ltac:(lia)). pose proof (Z.mod_pos_bound x 64 ltac:(lia)). lia.
Qed.

Definition groups_ok (gs : list Z) : Prop := length gs = 8%nat /\ Forall (fun g => 0 <= g < 65536) gs.

Lemma v6_groups_ok hs ts : v6_form hs ts -> groups_ok (v6_groups hs ts).
Proof.
  assert (forall gs, Forall hexgroup gs -> Forall (fun g => 0 <= g < 65536) (map (parse_base 16) gs)) as H.
  { intros gs Hgs. apply Forall_map. eapply Forall_impl; [exact Hgs|]. intros g Hg. by apply hexgroup_bound. }
  intros [Hhs Hts]. destruct ts as [ts|]; simpl.
  - destruct Hts as [Hts Hl]. split; simpl.
    + rewrite !length_app, length_replicate, !length_map. lia.
    + rewrite !Forall_app. split_and!; [by apply H| |by apply H]. apply Forall_replicate. lia.
  - split; [by rewrite length_map|by apply H].
Qed.

Lemma group_bound gs i : groups_ok gs -> 0 <= group_at gs i < 65536.
Proof.
  intros [_ Hf]. unfold group_at. destruct (gs !! i) as [g|] eqn:E; simpl; [|lia].
  by apply (Forall_lookup_1 _ _ _ _ Hf E).
Qed.

Lemma ipv6_private fuel addr gs :
  expandIpv6 addr = Some gs -> groups_ok gs ->
  isPrivateIpv6 (isPrivateIp_fuel (S fuel)) addr = private6 gs.
Proof.
  intros He Hok. unfold isPrivateIpv6, private6. rewrite He.
  pose proof (fun i => group_bound gs i Hok) as Hb.
  destruct (forallb (Z.eqb 0) gs); [done|].
  destruct (forallb (Z.eqb 0) (take 7 gs) && (group_at gs 7 =? 1)); [done|].
  rewrite mask_fc, mask_fe by done.
  destruct ((0xfc00 <=? group_at gs 0) && (group_at gs 0 <=? 0xfdff)); [done|].
  destruct ((0xfe80 <=? group_at gs 0) && (group_at gs 0 <=? 0xfebf)); [done|].
  destruct (forallb (Z.eqb 0) (take 5 gs) && _); [|done]. cbn [orb andb].
  pose proof (Hb 6%nat) as H6. pose proof (Hb 7%nat) as H7. clear Hb.
  set (g6 := group_at gs 6) in *. set (g7 := group_at gs 7) in *.
  rewrite !Z.shiftr_div_pow2 by lia. change 0xff with (Z.ones 8). rewrite !Z.land_ones by lia.
  change (2 ^ 8) with 256.
  pose proof (Z.div_mod g6 256 ltac:(lia)). pose proof (Z.mod_pos_bound g6 256 ltac:(lia)).
  pose proof (Z.div_mod g7 256 ltac:(lia)). pose proof (Z.mod_pos_bound g7 256 ltac:(lia)).
  change (decimal ?a ++ js "." ++ decimal ?b ++ js "." ++ decimal ?c ++ js "." ++ decimal ?d)
    with (decimal_quad a b c d).
  rewrite quad_private by lia.
  destruct (private4 (g6 / 256) (g6 mod 256)); [|by rewrite andb_false_r; case_bool_step].
  rewrite andb_true_r. destruct (Z.eqb_spec g6 0) as [->|]; destruct (Z.eqb_spec g7 0) as [->|]; simpl;
    rewrite ?Z.eqb_refl; simpl; crush_if.
Qed.

Definition bracket (s : jsstr) : jsstr := js "[" ++ s ++ js "]".

Lemma bracket_host s :
  (if startsWith (bracket s) (js "[") && endsWith (bracket s) (js "]")
   then take (length (bracket s) - 2) (drop 1 (bracket s)) else bracket s) = s.
Proof.
  assert (startsWith (bracket s) (js "[") = true) as -> by apply startsWith_app.
  assert (endsWith (bracket s) (js "]") = true) as ->.
  { unfold endsWith, bracket. rewrite app_assoc, rev_app_distr. apply startsWith_app. }
  cbn [andb]. change (bracket s) with (91 :: (s ++ [93])). cbn [drop length]. rewrite length_app.
  cbn [length]. replace (S (length s + 1) - 2)%nat with (length s) by lia. apply take_app_length.
Qed.

Lemma v6_lower hs ts :
  toLowerCase (v6_text hs ts) = v6_text (map toLowerCase hs) (option_map (map toLowerCase) ts).
Proof.
  destruct ts as [ts|]; unfold v6_text, toLowerCase; simpl option_map; rewrite ?map_app.
  - change (js ":") with [58]. by rewrite !map_join.
  - change (js ":") with [58]. by rewrite map_join.
Qed.

Lemma v6_form_lower hs ts : v6_form hs ts ->
  v6_form (map toLowerCase hs) (option_map (map toLowerCase) ts) /\
  Forall (fun g => is_group g = true) (map toLowerCase hs) /\
  Forall (fun g => is_group g = true) (default [] (option_map (map toLowerCase) ts)) /\
  v6_groups (map toLowerCase hs) (option_map (map toLowerCase) ts) = v6_groups hs ts.
Proof.
  assert (forall gs, Forall hexgroup gs ->
    Forall hexgroup (map toLowerCase gs) /\ Forall (fun g => is_group g = true) (map toLowerCase gs) /\
    map (parse_base 16) (map toLowerCase gs) = map (parse_base 16) gs) as H.
  { induction 1 as [|g gs Hg Hgs (IH1 & IH2 & IH3)]; [done|]. simpl.
    destruct (hexgroup_lower g Hg) as (H1 & H2 & H3).
    split_and!; [by constructor|by constructor|by rewrite H3, IH3]. }
  intros [Hhs Hts]. destruct (H hs Hhs) as (H1 & H2 & H3). unfold v6_form, v6_groups.
  destruct ts as [ts|]; simpl.
  - destruct Hts as [Hts Hl]. destruct (H ts Hts) as (H4 & H5 & H6).
    rewrite !length_map, H3, H6. done.
  - rewrite length_map, H3. split_and!; done.
Qed.

Lemma v6_private_core fuel hs ts ip :
  v6_form hs ts -> ip = v6_text hs ts \/ ip = bracket (v6_text hs ts) ->
  isPrivateIp_fuel (S (S fuel)) ip = private6 (v6_groups hs ts).
Proof.
  intros Hf Hip. set (fuel1 := S fuel). cbn [isPrivateIp_fuel].
  assert (58 ∈ v6_text hs ts) as H58.
  { destruct Hf as [Hhs Hts]. unfold v6_text. destruct ts as [ts|]; [set_solver|].
    destruct hs as [|g [|g' hs]]; [done..|]. simpl. set_solver. }
  set (host := if startsWith ip (js "[") && endsWith ip (js "]") then _ else _).
  assert (host = v6_text hs ts) as ->.
  { subst host. destruct Hip as [->| ->]; [|apply bracket_host].
    replace (startsWith (v6_text hs ts) (js "[")) with false; [done|].
    pose proof (v6_no hs ts 91 Hf eq_refl ltac:(done)) as H91. symmetry.
    apply not_true_iff_false. intros [r Hr]%startsWith_spec. apply H91. rewrite Hr. by left. }
  assert (forall s : string, 58 ∉ js s -> v6_text hs ts <> js s) as Hne.
  { intros s Hs E. apply Hs. by rewrite <- E. }
  rewrite !bool_decide_eq_false_2 
    by (apply Hne; intros Hin%list_elem_of_In; vm_compute in Hin; intuition discriminate). cbn [orb].
  pose proof (v6_no hs ts 46 Hf eq_refl ltac:(done)) as H46.
  replace (startsWith (v6_text hs ts) (js "169.254.")) with false.
  2:{ symmetry. apply not_true_iff_false. intros [r Hr]%startsWith_spec. apply H46. rewrite Hr.
      apply elem_of_app. left. apply list_elem_of_In. vm_compute. tauto. }
  unfold ipv4Match. rewrite split_none by (by apply includes_char_false).
  rewrite v6_lower. destruct (v6_form_lower hs ts Hf) as (Hf' & Hg1 & Hg2 & Heq).
  assert (includes (v6_text (map toLowerCase hs) (option_map (map toLowerCase) ts)) (js ":") = true) as ->.
  { apply includes_char. rewrite <- v6_lower. unfold toLowerCase. apply list_elem_of_In, in_map_iff.
    exists 58. split; [done|]. by apply list_elem_of_In. }
  cbn [negb]. subst fuel1. rewrite <- Heq. apply ipv6_private; [by apply expand_text|].
  by apply v6_groups_ok.
Qed.

(** ** The recursion bound is enough *)

Lemma is_group_hex g : is_group g = true -> hexgroup g.
Proof.
  intros [Hl Hg]%matches_between; [|lia]. split; [done|]. eapply Forall_impl; [exact Hg|]. intros c Hc.
  unfold in_class, is_hex, is_digit in *. simpl in Hc. lia.
Qed.

Lemma parsePart_bound part vs :
  parsePart part = Some vs -> Forall (fun g => 0 <= g < 65536) vs.
Proof.
  unfold parsePart. case_bool_decide; [by intros [= <-]|]. generalize (split part (js ":")) as gs.
  intros gs. revert vs. induction gs as [|g gs IH]; intros vs; simpl; [by intros [= <-]|].
  destruct (is_group g) eqn:Eg; [|done]. destruct (parseGroups gs) as [k|]; [|done]. intros [= <-].
  constructor; [by apply hexgroup_bound, is_group_hex|auto].
Qed.

Lemma expand_ok addr gs : expandIpv6 addr = Some gs -> groups_ok gs.
Proof.
  unfold expandIpv6. cbv zeta.
  match goal with |- match ?x with _ => _ end = _ -> _ => destruct x as [text|]; [|done] end.
  destruct (split text (js "::")) as [|h [|t [|]]]; try done.
  - destruct (parsePart h) as [vs|] eqn:Eh; [|done]. destruct (Nat.eqb_spec (length vs) 8); [|done].
    intros [= <-]. split; [done|by eapply parsePart_bound].
  - destruct (parsePart h) as [vs|] eqn:Eh; [|done]. destruct (parsePart t) as [ws|] eqn:Et; [|done].
    destruct (Z.ltb_spec (8 - Z.of_nat (length vs) - Z.of_nat (length ws)) 0); [done|].
    intros [= <-]. split.
    + rewrite !length_app, length_replicate. lia.
    + rewrite !Forall_app. split_and!; [by eapply parsePart_bound| |by eapply parsePart_bound].
      apply Forall_replicate. lia.
Qed.

Lemma ipv6_fuel fuel addr :
  isPrivateIpv6 (isPrivateIp_fuel (S fuel)) addr = isPrivateIpv6 (isPrivateIp_fuel 1) addr.
Proof.
  destruct (expandIpv6 addr) as [gs|] eqn:E.
  - rewrite !(ipv6_private _ addr gs E (expand_ok _ _ E)). done.
  - unfold isPrivateIpv6. by rewrite E.
Qed.

Lemma fuel_irrelevant fuel ip : isPrivateIp_fuel (S (S fuel)) ip = isPrivateIp ip.
Proof.
  unfold isPrivateIp. remember (S fuel) as n eqn:En. remember 1%nat as one eqn:E1. cbn [isPrivateIp_fuel].
  rewrite En, E1, ipv6_fuel. done.
Qed.

(** ** The IPv4 part of the pattern *)

Definition octet_string (s : jsstr) : Prop :=
  all_digits s = true /\ (length s <= 3)%nat /\ Number s <= 255.

Definition digit_units : list Z := map (fun n => 48 + Z.of_nat n) (seq 0 10).

Fixpoint words (n : nat) : list jsstr :=
  match n with
  | O => [[]]
  | S n => flat_map (fun w => map (fun c => c :: w) digit_units) (words n)
  end.

Lemma words_complete s : Forall (fun c => is_digit c = true) s -> In s (words (length s)).
Proof.
  induction 1 as [|c s Hc Hs IH]; [by left|]. cbn [words length]. apply in_flat_map. exists s.
  split; [done|]. apply (in_map (fun c => c :: s)). unfold digit_units. apply in_map_iff. exists (Z.to_nat (c - 48)).
  unfold is_digit in Hc. reflect_bools. rewrite in_seq. lia.
Qed.

Definition octets_checked : bool :=
  forallb (fun n => forallb (fun w => eqb (matches octet w) (Number w <=? 255)) (words n)) [1; 2; 3]%nat.

Lemma octet_matches s : matches octet s = true <-> octet_string s.
Proof.
  assert (octets_checked = true) as Hall by (vm_compute; reflexivity).
  unfold octets_checked in Hall. rewrite forallb_forall in Hall.
  assert (forall s, all_digits s = true -> (length s <= 3)%nat ->
            matches octet s = (Number s <=? 255)) as Heq.
  { intros w [Hne Hw]%all_digits_spec Hl. specialize (Hall (length w)).
    rewrite forallb_forall in Hall. apply eqb_prop, Hall; [|by apply words_complete].
    destruct w as [|? [|? [|? [|]]]]; simpl in *; try done; try lia; tauto. }
  unfold octet_string. split.
  - intros Hm. pose proof (proj1 (matches_lang _ _) Hm) as Hlang.
    assert (length s <= 3)%nat as Hl by (by apply (maxlen_lang octet)).
    assert (all_digits s = true) as Hd.
    { apply all_digits_spec. split; [intros ->; done|].
      pose proof (within_lang 48 57 octet s eq_refl Hlang) as Hw. eapply Forall_impl; [exact Hw|].
      intros c Hc. cbv beta in *. unfold is_digit. lia. }
    split_and!; [done..|]. rewrite Heq in Hm by done. by apply Z.leb_le.
  - intros (Hd & Hl & Hn). rewrite Heq by done. by apply Z.leb_le.
Qed.

Lemma quad_lang s :
  lang (quad_of octet) s <->
  exists a b c d, s = quad a b c d /\ octet_string a /\ octet_string b /\ octet_string c /\ octet_string d.
Proof.
  assert (forall w, lang octet w <-> octet_string w) as Ho
    by (intros w; by rewrite <- matches_lang, octet_matches).
  assert (forall w, lang dot w <-> w = [46]) as Hdot.
  { intros w. unfold dot, chr. rewrite lang_cls. unfold in_class. simpl. split.
    - intros (c & -> & H). f_equal. lia.
    - intros ->. exists 46. done. }
  split.
  - intros (abc & d & -> & Habc & Hd)%lang_seq_inv. cbn [times] in Habc.
    apply lang_seq_inv in Habc as (w1 & bc & -> & (a & x & -> & Ha & ->%Hdot)%lang_seq_inv & Hbc).
    apply lang_seq_inv in Hbc as (w2 & c' & -> & (b & x & -> & Hb & ->%Hdot)%lang_seq_inv & Hc).
    apply lang_seq_inv in Hc as (w3 & e & -> & (c & x & -> & Hc & ->%Hdot)%lang_seq_inv & ->%lang_eps).
    exists a, b, c, d. rewrite <- !Ho. split_and!; try done.
    unfold quad. cbn [join]. rewrite app_nil_r, <- !app_assoc. done.
  - intros (a & b & c & d & -> & Ha & Hb & Hc & Hd). rewrite <- !Ho in *.
    assert (quad a b c d = ((a ++ [46]) ++ (b ++ [46]) ++ (c ++ [46]) ++ []) ++ d) as ->.
    { unfold quad. cbn [join]. rewrite app_nil_r, <- !app_assoc. done. }
    assert (lang dot [46]) by (by apply Hdot). assert (lang Eps []) by constructor.
    unfold quad_of. cbn [times]. repeat first [apply LSeq|assumption].
Qed.

Lemma critical_infrastructure_iff gateway ip :
  isCriticalInfrastructure gateway ip = true <->
  ip ∈ CRITICAL_IPS \/ (gateway = Some ip /\ ip <> []).
Proof.
  assert ([] ∉ CRITICAL_IPS) as H0.
  { intros H%list_elem_of_In. vm_compute in H. intuition discriminate. }
  pose proof (critical_in_cache ip) as Hc. unfold isCriticalInfrastructure.
  destruct (Bloom.has infrastructureCache ip); cbn [negb]; revert H0 Hc; generalize CRITICAL_IPS as L;
    intros L H0 Hc.
  - rewrite bool_decide_eq_true, list_elem_of_In, filter_In, <- list_elem_of_In.
    rewrite elem_of_app, list_elem_of_singleton, negb_true_iff, bool_decide_eq_false. split.
    + intros [[H| ->] Hne]; [by left|]. destruct gateway as [g|]; [by right|done].
    + intros [H|[-> Hne]]; [|by split; [right|]]. split; [by left|]. by intros ->.
  - assert (ip ∉ L) as Hn by (intros H; by apply Hc in H). destruct gateway as [g|]; [|naive_solver].
    rewrite andb_true_iff, negb_true_iff, bool_decide_eq_false, bool_decide_eq_true. naive_solver.
Qed.

(** ** Properties *)

(** The Bloom filter in front of the list is invisible: an address is
    reported critical exactly when it is one of the built-in addresses or the
    non-empty configured gateway. *)
Theorem critical_exact gateway ip :
  isCriticalInfrastructure gateway ip = true <->
  ip ∈ CRITICAL_IPS \/ (gateway = Some ip /\ ip <> []).
Proof. apply critical_infrastructure_iff. Qed.

(** The SSRF classification is exact: an IPv4 address in decimal notation
    is private exactly when it lies in 0/8, 10/8, 127/8, 169.254/16,
    172.16/12, 192.168/16, 100.64/10 or 198.18/15; an IPv6 address in any
    textual form (upper or lower case, with or without "::" and brackets) is
    private exactly when its eight groups are ::, ::1, in fc00::/7 or
    fe80::/10, or carry a non-zero private IPv4 address in mapped or compatible
    form.  The mutual recursion of the two functions is at most two deep. *)
Theorem private_ip_exact :
  (forall a b c d, 0 <= a < 256 -> 0 <= b < 256 -> 0 <= c < 256 -> 0 <= d < 256 ->
     isPrivateIp (decimal_quad a b c d) = private4 a b) /\
  (forall hs ts ip, v6_form hs ts -> ip = v6_text hs ts \/ ip = bracket (v6_text hs ts) ->
     isPrivateIp ip = private6 (v6_groups hs ts)) /\
  (forall fuel ip, isPrivateIp_fuel (S (S fuel)) ip = isPrivateIp ip).
Proof.
  split_and!.
  - intros. by apply quad_private.
  - intros. by apply v6_private_core.
  - apply fuel_irrelevant.
Qed.

(** On texts without a colon, [IP_REGEX] accepts exactly the dotted quads
    of one- to three-digit numbers up to 255. *)
Theorem valid_ipv4_exact s :
  58 ∉ s ->
  isValidIP s = true <->
  exists a b c d, s = quad a b c d /\ octet_string a /\ octet_string b /\ octet_string c /\ octet_string d.
Proof.
  intros H58. unfold isValidIP. rewrite matches_lang. unfold IP_REGEX. rewrite lang_alt, quad_lang.
  split; [|by left]. intros [H|H]; [done|]. exfalso. apply H58.
  apply (requires_lang 58 (alts ipv6_alternatives)); [vm_compute; reflexivity|done].
Qed.

Lemma quad_lower a b c d :
  0 <= a < 256 -> 0 <= b < 256 -> 0 <= c < 256 -> 0 <= d < 256 ->
  toLowerCase (decimal_quad a b c d) = decimal_quad a b c d.
Proof.
  intros Ha Hb Hc Hd. unfold toLowerCase. rewrite <- (map_id (decimal_quad a b c d)) at 2.
  apply map_ext_in. intros x Hx%list_elem_of_In. unfold decimal_quad, quad in Hx.
  change (js ".") with [46] in Hx. apply join_elem in Hx as [->|(p & Hp & Hx)]; [done|].
  assert (all_digits p = true) as [_ Hf]%all_digits_spec.
  { rewrite !elem_of_cons in Hp. destruct Hp as [->|[->|[->|[->|Hp]]]]; [by apply decimal_ok..|by inversion Hp]. }
  rewrite Forall_forall in Hf. specialize (Hf x Hx). unfold is_digit in Hf. unfold lower, id.
  crush_if.
Qed.

(** A webhook accepted by [validateWebhookUrlAsync] is pinned to a public
    address: the URL is https; the pinned address is the URL's host when that
    is an IP literal, else the first record of a DNS answer no record of which
    is private; and if it is an IPv4 address in decimal notation it lies in
    none of the private ranges. *)
Theorem webhook_pinned_public parseUrl resolveA resolveAAAA url ip :
  validateWebhookUrlAsync parseUrl resolveA resolveAAAA url = inr ip ->
  exists u, parseUrl url = Some u /\ protocol u = js "https:" /\
    ((ip = hostname u /\ isPrivateIp (toLowerCase ip) = false) \/
     (let ips := default [] (resolveA (hostname u)) ++ default [] (resolveAAAA (hostname u)) in
      head ips = Some ip /\ Forall (fun r => isPrivateIp r = false) ips)) /\
    (forall a b c d, 0 <= a < 256 -> 0 <= b < 256 -> 0 <= c < 256 -> 0 <= d < 256 ->
       ip = decimal_quad a b c d -> private4 a b = false).
Proof.
  unfold validateWebhookUrlAsync, isValidWebhookUrl. destruct (parseUrl url) as [u|]; [|done].
  case_bool_step; [done|]. apply negb_false_iff, bool_decide_eq_true in Heqb.
  repeat (case_bool_step; [done|]). intros H. exists u. split_and!; [done..| |].
  - case_bool_step; [left; simplify_eq; by split|]. right.
    destruct (default [] (resolveA (hostname u)) ++ default [] (resolveAAAA (hostname u))) as [|f l] eqn:El; [done|].
    destruct (find isPrivateIp (f :: l)) as [x|] eqn:Ef; [done|]. simplify_eq. split; [done|].
    apply Forall_forall. intros r Hr. apply list_elem_of_In in Hr. by apply (find_none _ _ Ef).
  - intros a b c d Ha Hb Hc Hd ->. unfold isPrivateIp in *. case_bool_step.
    + simplify_eq. rewrite H, quad_lower, quad_private in * by done. done.
    + destruct (default [] (resolveA (hostname u)) ++ default [] (resolveAAAA (hostname u))) as [|f l]; [done|].
      destruct (find (isPrivateIp_fuel 2) (f :: l)) as [x|] eqn:Ef; [done|]. simplify_eq.
      pose proof (find_none _ _ Ef _ (or_introl eq_refl)) as Hn. by rewrite quad_private in Hn.
Qed.

(** The mapped spelling of 0.0.0.0 is the one gap in the mapped range: the
    all-zero IPv4 part is skipped, although 0.0.0.0 itself is private. *)
Lemma mapped_unspecified_not_private :
  isPrivateIp (js "0.0.0.0") = true /\ isPrivateIp (js "[::ffff:0:0]") = false /\
  isPrivateIp (js "::ffff:0.0.0.0") = false /\
  isValidWebhookUrl (fun _ => Some {| protocol := js "https:"; hostname := js "[::ffff:0:0]" |})
    (js "https://[::ffff:0:0]/") = None.
Proof. vm_compute. done. Qed.

(** ** Witnesses *)

Lemma private_ip_exact_witness :
  isPrivateIp (decimal_quad 172 20 1 9) = true /\ isPrivateIp (js "[FE80::1]") = true.
Proof.
  split.
  - rewrite (proj1 private_ip_exact) by lia. reflexivity.
  - rewrite (proj1 (proj2 private_ip_exact) [js "FE80"] (Some [js "1"]) (js "[FE80::1]")).
    + vm_compute. reflexivity.
    + unfold v6_form, hexgroup. repeat constructor; simpl; lia.
    + right. reflexivity.
Defined.

Lemma valid_ipv4_exact_witness :
  isValidIP (js "10.0.0.1") = true <->
  exists a b c d, js "10.0.0.1" = quad a b c d /\
    octet_string a /\ octet_string b /\ octet_string c /\ octet_string d.
Proof.
  apply valid_ipv4_exact. intros H%list_elem_of_In. vm_compute in H. intuition discriminate.
Defined.

Definition parse0 (url : jsstr) : option URL :=
  if startsWith url (js "https://")
  then Some {| protocol := js "https:"; hostname := drop 8 url |} else None.
Definition dns0 (host : jsstr) : option (list jsstr) :=
  if bool_decide (host = js "hooks.example.org") then Some [js "203.0.113.7"] else None.

Lemma webhook_pinned_public_witness :
  exists u, parse0 (js "https://hooks.example.org") = Some u /\ protocol u = js "https:" /\
    ((js "203.0.113.7" = hostname u /\ isPrivateIp (toLowerCase (js "203.0.113.7")) = false) \/
     (let ips := default [] (dns0 (hostname u)) ++ default [] ((fun _ => None) (hostname u)) in
      head ips = Some (js "203.0.113.7") /\ Forall (fun r => isPrivateIp r = false) ips)) /\
    (forall a b c d, 0 <= a < 256 -> 0 <= b < 256 -> 0 <= c < 256 -> 0 <= d < 256 ->
       js "203.0.113.7" = decimal_quad a b c d -> private4 a b = false).
Proof.
  apply (webhook_pinned_public parse0 dns0 (fun _ => None) (js "https://hooks.example.org")).
  vm_compute. reflexivity.
Defined.
End Net.
