(* ===== verification/Paths.v ===== *)
(** * Path validation

    Models [validatePath] of
    [src/orchestrator/infrastructure/system/validation.ts], with
    [decodeURIComponent].  The functions of [@std/path] and
    [Deno.realPathSync] are an interface. *)

From S2P Require Import Prelude JsString.

Module Paths.
Import JsString.

(** ** [decodeURIComponent] *)

Inductive token := Lit (c : Z) | Byte (b : Z).

(** The text cut into plain units and [%XX] bytes; [None] on a malformed escape. *)
Fixpoint tokens (s : jsstr) : option (list token) :=
  match s with
  | [] => Some []
  | c :: s' =>
      if c =? 37 then
        match s' with
        | a :: b :: s'' =>
            if is_hex a && is_hex b
            then option_map (cons (Byte (16 * digit_val a + digit_val b))) (tokens s'') else None
        | _ => None
        end
      else option_map (cons (Lit c)) (tokens s')
  end.

Definition cont (b : Z) : bool := (0x80 <=? b) && (b <=? 0xbf).

(** The code point as UTF-16 code units. *)
Definition utf16 (cp : Z) : jsstr :=
  if cp <? 0x10000 then [cp]
  else [0xd800 + (cp - 0x10000) / 1024; 0xdc00 + (cp - 0x10000) mod 1024].

(** Bytes above 0x7f must spell valid UTF-8, escape by escape. *)
Fixpoint utf8 (ts : list token) : option jsstr :=
  match ts with
  | [] => Some []
  | Lit c :: ts => option_map (cons c) (utf8 ts)
  | Byte b :: ts1 =>
      if b <? 0x80 then option_map (cons b) (utf8 ts1)
      else match ts1 with
      | Byte b1 :: ts2 =>
          if (0xc2 <=? b) && (b <=? 0xdf) && cont b1
          then option_map (app (utf16 ((b - 0xc0) * 64 + (b1 - 0x80)))) (utf8 ts2)
          else match ts2 with
          | Byte b2 :: ts3 =>
              let cp3 := (b - 0xe0) * 4096 + (b1 - 0x80) * 64 + (b2 - 0x80) in
              if (0xe0 <=? b) && (b <=? 0xef) && cont b1 && cont b2 && (0x800 <=? cp3)
                 && negb ((0xd800 <=? cp3) && (cp3 <=? 0xdfff))
              then option_map (app (utf16 cp3)) (utf8 ts3)
              else match ts3 with
              | Byte b3 :: ts4 =>
                  let cp4 := (b - 0xf0) * 262144 + (b1 - 0x80) * 4096 + (b2 - 0x80) * 64 + (b3 - 0x80) in
                  if (0xf0 <=? b) && (b <=? 0xf4) && cont b1 && cont b2 && cont b3
                     && (0x10000 <=? cp4) && (cp4 <=? 0x10ffff)
                  then option_map (app (utf16 cp4)) (utf8 ts4)
                  else None
              | _ => None
              end
          | _ => None
          end
      | _ => None
      end
  end.

(** [None] when it throws a URIError. *)
Definition decodeURIComponent (s : jsstr) : option jsstr :=
  match tokens s with Some ts => utf8 ts | None => None end.

Example decode_examples :
  map (fun s => decodeURIComponent (js s)) ["%2e%2e/a"; "%252e"; "%c3%a9"; "%zz"; "%c3("]%string
  = [Some (js "../a"); Some (js "%2e"); Some [233]; None; None].
Proof. vm_compute. reflexivity. Qed.

(** ** The file system interface *)

(** [@std/path] and [Deno.realPathSync]; [None] when a call throws. *)
Class StdPath := {
  normalize : jsstr -> jsstr;
  join_path : jsstr -> jsstr -> jsstr;
  resolve : jsstr -> jsstr;
  dirname : jsstr -> jsstr;
  realPathSync : jsstr -> option jsstr;
}.

Section validate.
Context `{StdPath}.

(** The [do ... while] loop: [n] iterations left. *)
Fixpoint decodeLoop (n : nat) (decoded : jsstr) : jsstr :=
  match n with
  | O => decoded
  | S n =>
      match decodeURIComponent decoded with
      | None => decoded
      | Some next => if bool_decide (next = decoded) then next else decodeLoop n next
      end
  end.

(** [s.split(/[\\/]/).pop()] *)
Fixpoint lastComponent (acc s : jsstr) : jsstr :=
  match s with
  | [] => rev acc
  | c :: s => if (c =? 47) || (c =? 92) then lastComponent [] s else lastComponent (c :: acc) s
  end.

Definition realPathOf (normalized : jsstr) : jsstr :=
  match realPathSync normalized with
  | Some r => r
  | None =>
      match realPathSync (dirname normalized) with
      | Some realDir => join_path realDir (lastComponent [] normalized)
      | None => resolve normalized
      end
  end.

Definition with_slash (p : jsstr) : jsstr := if endsWith p (js "/") then p else p ++ js "/".

(** The predicate of [jailPrefixes.some(...)]. *)
Definition insideJail (realPath jail : jsstr) : bool :=
  let normalizedJail := resolve jail in
  let resolvedP := resolve realPath in
  startsWith (with_slash resolvedP) (with_slash normalizedJail) || bool_decide (resolvedP = normalizedJail).

Definition backslashes : jsstr := [92; 92].

(** [validatePath(p, jailPrefixes)]; no jail is the empty list. *)
Definition validatePath (p : jsstr) (jailPrefixes : list jsstr) : bool :=
  if bool_decide (p = []) then false
  else
    let decoded := decodeLoop 3 p in
    if includes decoded [0] || includes p [0] then false
    else if includes decoded (js "..") || includes p (js "..") || startsWith p (js "//")
            || startsWith p backslashes || startsWith decoded (js "//")
            || startsWith decoded backslashes then false
    else
      let normalized := normalize p in
      if includes normalized (js "..") then false
      else
        let realPath := realPathOf normalized in
        if (0 <? length jailPrefixes)%nat && negb (existsb (insideJail realPath) jailPrefixes) then false
        else negb (includes normalized (js "..")).

(** ** Decoding keeps what is already plain *)

(** Adjacent plain tokens spelling [pat]. *)
Definition spells (pat : jsstr) (ts : list token) : Prop :=
  exists l r, ts = l ++ map Lit pat ++ r.

Lemma spells_cons pat t ts : spells pat ts -> spells pat (t :: ts).
Proof. intros (l & r & ->). by exists (t :: l), r. Qed.

Lemma tokens_plain pat r ts :
  37 ∉ pat -> tokens (pat ++ r) = Some ts -> exists tr, ts = map Lit pat ++ tr.
Proof.
  revert ts. induction pat as [|c pat IH]; intros ts Hp; simpl; [eauto|].
  rewrite (proj2 (Z.eqb_neq c 37)) by set_solver.
  destruct (tokens (pat ++ r)) as [ts'|]; [|done]. intros [= <-].
  destruct (IH ts' ltac:(set_solver) eq_refl) as [tr ->]. by exists tr.
Qed.

Lemma tokens_spells pat : 37 ∉ pat -> Forall (fun c => is_hex c = false) pat -> pat <> [] ->
  forall n l r ts, (length l <= n)%nat -> tokens (l ++ pat ++ r) = Some ts -> spells pat ts.
Proof.
  intros Hp Hx Hne. induction n as [|n IH]; intros l r ts Hn Ht.
  { destruct l; [|simpl in Hn; lia]. destruct (tokens_plain pat r ts Hp Ht) as [tr ->]. by exists [], tr. }
  destruct l as [|c l].
  { destruct (tokens_plain pat r ts Hp Ht) as [tr ->]. by exists [], tr. }
  simpl in Hn, Ht. destruct (c =? 37) eqn:Ec.
  - destruct pat as [|x pat]; [done|]. apply Forall_cons in Hx as [Hx Hxs].
    destruct l as [|a [|b l]]; simpl in Ht.
    + destruct (pat ++ r) as [|y k]; [done|]. by rewrite Hx in Ht.
    + by rewrite Hx, andb_false_r in Ht.
    + destruct (is_hex a && is_hex b); [|done].
      destruct (tokens (l ++ x :: pat ++ r)) as [ts'|] eqn:E; [|done]. injection Ht as <-.
      apply spells_cons. eapply (IH l); [simpl in Hn; lia|exact E].
  - destruct (tokens (l ++ pat ++ r)) as [ts'|] eqn:E; [|done]. injection Ht as <-.
    apply spells_cons. eapply (IH l); [lia|exact E].
Qed.

Lemma utf8_plain pat tr s : utf8 (map Lit pat ++ tr) = Some s -> exists r, s = pat ++ r.
Proof.
  revert s. induction pat as [|c pat IH]; intros s; simpl; [eauto|].
  destruct (utf8 (map Lit pat ++ tr)) as [s'|]; [|done]. intros [= <-].
  destruct (IH s' eq_refl) as [r ->]. by exists r.
Qed.

(** Output of a suffix of the tokens is a suffix of the output. *)
Lemma utf8_spells pat : pat <> [] -> forall n l r s,
  (length l <= n)%nat -> utf8 (l ++ map Lit pat ++ r) = Some s -> exists a b, s = a ++ pat ++ b.
Proof.
  intros Hne. induction n as [|n IH]; intros l r s Hn Hu.
  { destruct l; [|simpl in Hn; lia]. destruct (utf8_plain pat r s Hu) as [b ->]. by exists [], b. }
  assert (forall l' pre s', (length l' <= n)%nat -> utf8 (l' ++ map Lit pat ++ r) = Some s' ->
            s = pre ++ s' -> exists a b, s = a ++ pat ++ b) as Hgo.
  { intros l' pre s' Hl' Hs' ->. destruct (IH l' r s' Hl' Hs') as (a & b & ->).
    exists (pre ++ a), b. by rewrite <- app_assoc. }
  destruct pat as [|x pat]; [done|].
  destruct l as [|[c|b] l]; simpl in Hu, Hn.
  - destruct (utf8_plain (x :: pat) r s Hu) as [k ->]. by exists [], k.
  - destruct (utf8 (l ++ _)) as [s'|] eqn:E; [|done]. injection Hu as <-.
    by apply (Hgo l [c] s'); [lia|..].
  - destruct (b <? 0x80).
    { destruct (utf8 (l ++ _)) as [s'|] eqn:E; [|done]. injection Hu as <-.
      by apply (Hgo l [b] s'); [lia|..]. }
    destruct l as [|[c1|b1] l]; simpl in Hu, Hn; [done..|].
    destruct ((0xc2 <=? b) && (b <=? 0xdf) && cont b1).
    { destruct (utf8 (l ++ _)) as [s'|] eqn:E; [|done]. injection Hu as <-.
      by eapply (Hgo l _ s'); [lia|..]. }
    destruct l as [|[c2|b2] l]; simpl in Hu, Hn; [done..|]. case_bool_step.
    { destruct (utf8 (l ++ _)) as [s'|] eqn:E; [|done]. injection Hu as <-.
      by eapply (Hgo l _ s'); [lia|..]. }
    destruct l as [|[c3|b3] l]; simpl in Hu, Hn; [done..|]. case_bool_step; [|done].
    destruct (utf8 (l ++ _)) as [s'|] eqn:E; [|done]. injection Hu as <-.
    by eapply (Hgo l _ s'); [lia|..].
Qed.

Lemma decode_keeps pat s t :
  37 ∉ pat -> Forall (fun c => is_hex c = false) pat -> pat <> [] ->
  decodeURIComponent s = Some t -> includes s pat = true -> includes t pat = true.
Proof.
  intros Hp Hx Hne Hd (l & r & ->)%includes_spec. unfold decodeURIComponent in Hd.
  destruct (tokens (l ++ pat ++ r)) as [ts|] eqn:E; [|done].
  destruct (tokens_spells pat Hp Hx Hne (length l) l r ts ltac:(lia) E) as (tl & tr & ->).
  apply includes_spec. by eapply (utf8_spells pat Hne (length tl) tl tr).
Qed.

(** [j] decodings in a row. *)
Fixpoint decode_times (j : nat) (s : jsstr) : option jsstr :=
  match j with
  | O => Some s
  | S j => match decodeURIComponent s with Some t => decode_times j t | None => None end
  end.

Lemma decodeLoop_keeps pat n : 37 ∉ pat -> Forall (fun c => is_hex c = false) pat -> pat <> [] ->
  forall s, includes s pat = true -> includes (decodeLoop n s) pat = true.
Proof.
  intros Hp Hx Hne. induction n as [|n IH]; intros s Hs; simpl; [done|].
  destruct (decodeURIComponent s) as [t|] eqn:E; [|done].
  pose proof (decode_keeps pat s t Hp Hx Hne E Hs). case_bool_decide; auto.
Qed.

Lemma decode_fix j s d : decodeURIComponent s = Some s -> decode_times j s = Some d -> d = s.
Proof. intros Hs. induction j as [|j IH]; simpl; [by intros [= <-]|]. rewrite Hs. auto. Qed.

(** The loop sees everything up to [n] decodings. *)
Lemma decodeLoop_sees pat n : 37 ∉ pat -> Forall (fun c => is_hex c = false) pat -> pat <> [] ->
  forall j s d, (j <= n)%nat -> decode_times j s = Some d -> includes d pat = true ->
  includes (decodeLoop n s) pat = true.
Proof.
  intros Hp Hx Hne. induction n as [|n IH]; intros j s d Hj Hd Hi.
  { destruct j; [|lia]. simpl in *. by simplify_eq. }
  destruct j as [|j].
  { simpl in Hd. simplify_eq. by apply decodeLoop_keeps. }
  simpl in *. destruct (decodeURIComponent s) as [t|] eqn:E; [|done]. case_bool_decide as Et.
  - subst t. by rewrite (decode_fix j s d E Hd) in Hi.
  - eapply (IH j); [lia|done..].
Qed.

(** Below a directory, with the separator respected. *)
Definition below (dir p : jsstr) : Prop :=
  p = dir \/ (exists rest, p = dir ++ js "/" ++ rest) \/
  (endsWith dir (js "/") = true /\ exists rest, p = dir ++ rest \/ p ++ js "/" = dir ++ rest).

Lemma with_slash_below p dir :
  startsWith (with_slash p) (with_slash dir) = true -> below dir p.
Proof.
  unfold with_slash. intros [r Hr]%startsWith_spec.
  destruct (endsWith dir (js "/")) eqn:Ed.
  - right. right. split; [done|]. exists r. destruct (endsWith p (js "/")); [by left|by right].
  - destruct (endsWith p (js "/")).
    + right. left. exists r. by rewrite Hr, <- app_assoc.
    + rewrite <- app_assoc in Hr. destruct r as [|x r _] using rev_ind.
      * left. rewrite app_nil_r in Hr. by apply app_inv_tail in Hr.
      * right. left. exists r. change (js "/") with [47] in *.
        rewrite !app_assoc in Hr. apply app_inj_tail in Hr as [-> _]. by rewrite <- app_assoc.
Qed.
End validate.

Lemma validatePath_jailed `{StdPath} p jails :
  validatePath p jails = true ->
  p <> [] /\
  (forall j d, (j <= 3)%nat -> decode_times j p = Some d ->
     includes d (js "..") = false /\ includes d [0] = false) /\
  (jails <> [] -> exists jail, jail ∈ jails /\
     below (resolve jail) (resolve (realPathOf (normalize p)))).
Proof.
  unfold validatePath. case_bool_decide as Hp; [done|].
  destruct (includes (decodeLoop 3 p) [0]) eqn:E0; [done|]. cbn [orb]. case_bool_step; [done|].
  destruct (includes (decodeLoop 3 p) (js "..")) eqn:Ed; [done|]. cbn [orb].
  repeat (case_bool_step; [done|]). intros _.
  assert (forall pat, 37 ∉ pat -> Forall (fun c => is_hex c = false) pat -> pat <> [] ->
    includes (decodeLoop 3 p) pat = false ->
    forall j d, (j <= 3)%nat -> decode_times j p = Some d -> includes d pat = false) as Hsee.
  { intros pat H1 H2 H3 H4 j d Hj Hd. apply not_true_iff_false. intros Hi.
    by rewrite (decodeLoop_sees pat 3 H1 H2 H3 j p d Hj Hd Hi) in H4. }
  split_and!; [done| |].
  - intros j d Hj Hd. split.
    + apply (Hsee (js "..")) with j; [|by repeat constructor|done..].
      intros Hin%list_elem_of_In. vm_compute in Hin. intuition discriminate.
    + apply (Hsee [0]) with j; [|by repeat constructor|done..]. set_solver.
  - intros Hj. match goal with Hx : (_ <? _)%nat && _ = false |- _ => apply andb_false_iff in Hx as [Hx|Hx] end.
    { destruct jails; [done|]. simpl in *. done. }
    match goal with Hx : negb _ = false |- _ =>
      apply negb_false_iff, existsb_exists in Hx as (jail & Hin & Hi) end.
    exists jail. split; [by apply list_elem_of_In|]. unfold insideJail in Hi.
    apply orb_true_iff in Hi as [Hi|Hi]; [by apply with_slash_below|].
    left. by apply bool_decide_eq_true in Hi.
Qed.

(** ** Property *)

(** An accepted path stays in its jail: it is not empty; neither it nor
    any of its first three percent-decodings contains ".." or a NUL; and when
    a jail is given, the path that all symbolic links lead to, resolved, is
    one of the jail directories or lies below one, at a separator boundary (so
    /tmp-evil is not below /tmp). *)
Theorem accepted_path_jailed `{StdPath} p jails :
  validatePath p jails = true ->
  p <> [] /\
  (forall j d, (j <= 3)%nat -> decode_times j p = Some d ->
     includes d (js "..") = false /\ includes d [0] = false) /\
  (jails <> [] -> exists jail, jail ∈ jails /\
     below (resolve jail) (resolve (realPathOf (normalize p)))).
Proof. apply validatePath_jailed. Qed.

(** A file system without links, rooted at "/": paths are kept as they are. *)
#[local] Instance plain_paths : StdPath :=
  {| normalize := fun p => p; join_path := fun a b => a ++ js "/" ++ b; resolve := fun p => p;
     dirname := fun p => p; realPathSync := fun p => Some p |}.

Example rejects_encoded_traversal :
  map (fun s => validatePath (js s) [js "/tmp"])
    ["/tmp/%2e%2e/etc"; "/tmp/%25252e%25252e/etc"; "/tmp-evil/x"; "/tmp/x"; "/tmp/a%00b"]%string
  = [false; false; false; true; false].
Proof. vm_compute. reflexivity. Qed.

Lemma accepted_path_jailed_witness :
  js "/tmp/x" <> [] /\
  (forall j d, (j <= 3)%nat -> decode_times j (js "/tmp/x") = Some d ->
     includes d (js "..") = false /\ includes d [0] = false) /\
  ([js "/tmp"] <> [] -> exists jail, jail ∈ [js "/tmp"] /\
     below (resolve jail) (resolve (realPathOf (normalize (js "/tmp/x"))))).
Proof. apply (accepted_path_jailed (js "/tmp/x") [js "/tmp"]). vm_compute. reflexivity. Defined.
End Paths.
