(* ===== verification/Schemas.v ===== *)
(** * Request validation

    Models the rest of
    [src/orchestrator/infrastructure/system/validation.ts]: the constant-time
    comparisons, the schemas of the requests to the sidecars with their
    refinements, [isAllowedSidecar], [validateRequest] and
    [validateResponse].  The schemas are data; what the zod library does with
    them is the interface [Zod], whose laws state the documented meaning of
    each combinator; [zod_interp] is an instance. *)

From S2P Require Import Prelude JsString Regex Net Paths.
From Stdlib Require Import QArith Qround.
Open Scope Z_scope.

(** ** Comparisons *)

Module Compare.

(** The loop [diff |= a[i] ^ b[i]]. *)
Fixpoint diffLoop (diff : Z) (a b : list Z) : Z :=
  match a, b with
  | x :: a, y :: b => diffLoop (Z.lor diff (Z.lxor x y)) a b
  | _, _ => diff
  end.

Definition secureCompareBytes (a b : list Z) : bool :=
  if negb (length a =? length b)%nat then false else diffLoop 0 a b =? 0.

(** [secureCompare(a, b)] with the HMAC of the encoded text under the
    per-process key. *)
Definition secureCompare (hmac : jsstr -> list Z) (a b : option jsstr) : bool :=
  let aMac := hmac (default [] a) in
  let bMac := hmac (default [] b) in
  let result := secureCompareBytes aMac bMac in
  result && match a, b with Some _, Some _ => true | _, _ => false end.

Lemma diffLoop_zero a b : length a = length b -> forall d,
  diffLoop d a b = 0 <-> d = 0 /\ a = b.
Proof.
  revert b. induction a as [|x a IH]; intros [|y b] Hl d; simpl in *; try lia; [naive_solver|].
  rewrite IH by lia. rewrite Z.lor_eq_0_iff, Z.lxor_eq_0_iff. naive_solver.
Qed.

Lemma secureCompareBytes_eq a b : secureCompareBytes a b = true <-> a = b.
Proof.
  unfold secureCompareBytes. destruct (Nat.eqb_spec (length a) (length b)) as [E|E]; simpl.
  - rewrite Z.eqb_eq, diffLoop_zero by done. naive_solver.
  - split; [done|]. intros ->. done.
Qed.

(** The comparison decides equality: byte arrays compare equal exactly
    when they are equal, whatever their length; two texts compare equal exactly
    when both are present and have the same HMAC, so for texts on which the
    HMAC does not collide exactly when both are present and equal. *)
Theorem secure_compare_exact (hmac : jsstr -> list Z) a b x y :
  (secureCompareBytes x y = true <-> x = y) /\
  (secureCompare hmac a b = true <-> exists s t, a = Some s /\ b = Some t /\ hmac s = hmac t) /\
  ((forall s t, a = Some s -> b = Some t -> hmac s = hmac t -> s = t) ->
   (secureCompare hmac a b = true <-> exists s, a = Some s /\ b = Some s)).
Proof.
  assert (secureCompare hmac a b = true <-> exists s t, a = Some s /\ b = Some t /\ hmac s = hmac t) as H.
  { unfold secureCompare. rewrite andb_true_iff, secureCompareBytes_eq.
    destruct a as [s|], b as [t|]; simpl; naive_solver. }
  split_and!; [apply secureCompareBytes_eq|done|]. intros Hinj. rewrite H. naive_solver.
Qed.
End Compare.

(** ** Schemas *)

Module Schemas.
Import JsString Regex Net Paths.

Inductive Json :=
| JNull
| JBool (b : bool)
| JNum (q : Q)
| JStr (s : jsstr)
| JArr (items : list Json)
| JObj (fields : list (string * Json)).

(** The built-in checks of zod the schemas use. *)
Inductive Check :=
| Int | Positive | Min (n : Z) | Max (n : Z)     (* numbers *)
| MaxLength (n : nat) | Pattern (r : regex)      (* strings *)
| MaxItems (n : nat).                            (* arrays *)

Inductive Schema :=
| ZString
| ZNumber
| ZBoolean
| ZUnknown
| ZEnum (values : list string)
| ZObject (fields : list (string * Schema))
| ZArray (item : Schema)
| ZRecord (value : Schema)
| ZOptional (s : Schema)
| ZNullable (s : Schema)
| ZCheck (s : Schema) (c : Check)
| ZRefine (s : Schema) (f : Json -> bool).

(** [obj[field]] on a parsed object; [None] is [undefined]. *)
Fixpoint assoc (fields : list (string * Json)) (k : string) : option Json :=
  match fields with
  | [] => None
  | (k', v) :: fields => if bool_decide (k' = k) then Some v else assoc fields k
  end.

Definition prop (v : Json) (k : string) : option Json :=
  match v with JObj fs => assoc fs k | _ => None end.

Definition is_integer (q : Q) : bool := Z.eqb (Qnum q mod Z.pos (Qden q)) 0.
Definition safe_integer (q : Q) : bool :=
  is_integer q && Qle_bool (inject_Z (- 9007199254740991)) q && Qle_bool q (inject_Z 9007199254740991).

Definition check_ok (c : Check) (v : Json) : bool :=
  match c, v with
  | Int, JNum q => safe_integer q
  | Positive, JNum q => negb (Qle_bool q 0)
  | Min n, JNum q => Qle_bool (inject_Z n) q
  | Max n, JNum q => Qle_bool q (inject_Z n)
  | MaxLength n, JStr s => (length s <=? n)%nat
  | Pattern r, JStr s => matches r s
  | MaxItems n, JArr l => (length l <=? n)%nat
  | _, _ => true
  end.

(** What zod documents of the combinators used here: [safeParse(v).success],
    [v = None] standing for an absent value. *)
Class Zod := {
  safeParse : Schema -> option Json -> bool;
  zod_string v : safeParse ZString v = match v with Some (JStr _) => true | _ => false end;
  zod_number v : safeParse ZNumber v = match v with Some (JNum _) => true | _ => false end;
  zod_boolean v : safeParse ZBoolean v = match v with Some (JBool _) => true | _ => false end;
  zod_enum vs v : safeParse (ZEnum vs) v =
    match v with Some (JStr s) => existsb (fun x => bool_decide (js x = s)) vs | _ => false end;
  zod_object fs v : safeParse (ZObject fs) v =
    match v with
    | Some (JObj kvs) => forallb (fun f => safeParse f.2 (assoc kvs f.1)) fs
    | _ => false
    end;
  zod_array s v : safeParse (ZArray s) v =
    match v with Some (JArr l) => forallb (fun x => safeParse s (Some x)) l | _ => false end;
  zod_record s v : safeParse (ZRecord s) v =
    match v with Some (JObj kvs) => forallb (fun kv => safeParse s (Some kv.2)) kvs | _ => false end;
  zod_unknown v : safeParse ZUnknown v = true;
  zod_optional s v : safeParse (ZOptional s) v =
    match v with None => true | _ => safeParse s v end;
  zod_nullable s v : safeParse (ZNullable s) v =
    match v with Some JNull => true | _ => safeParse s v end;
  zod_check s c v : safeParse (ZCheck s c) v =
    safeParse s v && match v with Some x => check_ok c x | None => true end;
  zod_refine s f v : safeParse (ZRefine s f) v =
    safeParse s v && match v with Some x => f x | None => true end;
}.

(** An instance: the combinators interpreted one by one. *)
Fixpoint interp (s : Schema) (v : option Json) : bool :=
  match s with
  | ZString => match v with Some (JStr _) => true | _ => false end
  | ZNumber => match v with Some (JNum _) => true | _ => false end
  | ZBoolean => match v with Some (JBool _) => true | _ => false end
  | ZUnknown => true
  | ZEnum vs =>
      match v with Some (JStr s) => existsb (fun x => bool_decide (js x = s)) vs | _ => false end
  | ZObject fs =>
      match v with
      | Some (JObj kvs) => forallb (fun f => interp f.2 (assoc kvs f.1)) fs
      | _ => false
      end
  | ZArray s => match v with Some (JArr l) => forallb (fun x => interp s (Some x)) l | _ => false end
  | ZRecord s =>
      match v with Some (JObj kvs) => forallb (fun kv => interp s (Some kv.2)) kvs | _ => false end
  | ZOptional s => match v with None => true | _ => interp s v end
  | ZNullable s => match v with Some JNull => true | _ => interp s v end
  | ZCheck s c => interp s v && match v with Some x => check_ok c x | None => true end
  | ZRefine s f => interp s v && match v with Some x => f x | None => true end
  end.

#[export] Instance zod_interp : Zod.
Proof. refine {| safeParse := interp |}; reflexivity. Defined.

(** ** The schemas of the source *)

(** [isAllowedSidecar] *)
Definition ALLOWED_SIDECARS : list string :=
  ["analyzer"; "enforcer"; "decoy"; "netcap"; "watchfile"; "trustroot"; "tunnel"; "mesh"; "firewall";
   "sentinel-darwin"; "enforcer-win"; "telemetry-win"; "sentinel"]%string.
Definition isAllowedSidecar (name : string) : bool := existsb (fun x => bool_decide (x = name)) ALLOWED_SIDECARS.

Definition SCANNER_JAIL : list jsstr :=
  map js ["/home/"; "/var/www/"; "./volume/"; "/var/lib/cts/"; "/tmp/"]%string.
Definition SYSTEM_JAILS_FOR_SIDECARS : list jsstr :=
  map js ["/etc/wireguard/"; "/var/lib/cts/"; "./volume/"]%string.
Definition PCAP_JAIL : list jsstr :=
  map js ["./volume/storage/captures/"; "./volume/storage/forensics/"; "/var/lib/cts/captures/";
          "/var/lib/cts/forensics/"]%string.

Definition name_class : regex := Cls [(97, 122); (65, 90); (48, 57); (46, 46); (95, 95); (45, 45)].
Definition INTERFACE_NAME_REGEX : regex := plus name_class.
Definition SAFE_FILENAME_REGEX : regex := plus name_class.
Definition NV_INDEX_REGEX : regex :=
  Seq (lit "0x") (between 1 8 (Cls [(48, 57); (97, 102); (65, 70)])).

(** A refinement of a string schema. *)
Definition on_string (f : jsstr -> bool) (v : Json) : bool :=
  match v with JStr s => f s | _ => true end.

(** [["A", "B"].includes(data.type)] and [data.k === undefined] *)
Definition type_in (ts : list string) (v : Json) : bool :=
  match prop v "type" with
  | Some (JStr s) => existsb (fun t => bool_decide (js t = s)) ts
  | _ => false
  end.
Definition missing (v : Json) (k : string) : bool :=
  match prop v k with None => true | Some _ => false end.

Section schemas.
Context `{StdPath} (gateway : option jsstr).

Definition IdSchema : Schema := ZOptional (ZNullable ZString).
Definition PidSchema : Schema := ZCheck (ZCheck ZNumber Int) Positive.
Definition PortSchema : Schema := ZCheck (ZCheck (ZCheck ZNumber Int) (Min 1)) (Max 65535).
Definition IpSchema : Schema := ZRefine ZString (on_string isValidIP).
Definition PathSchema (jail : list jsstr) : Schema :=
  ZRefine ZString (on_string (fun p => validatePath p jail)).
Definition InterfaceSchema : Schema := ZCheck ZString (Pattern INTERFACE_NAME_REGEX).

Definition AuditEventSchema : Schema :=
  ZObject [("type", ZString); ("message", ZString); ("timestamp", ZOptional ZString);
           ("data", ZOptional (ZRecord ZUnknown)); ("severity", ZOptional ZString);
           ("caller", ZOptional ZString)].

Definition AnalyzerRequestSchema : Schema :=
  ZObject [("id", IdSchema);
           ("type", ZEnum ["SCAN"; "DIR_SCAN"; "RKH_SCAN"; "QUIT"; "MEM_SCAN"; "ScanPath"; "Quarantine";
                           "SyncSignatures"; "GetStatus"]);
           ("path", ZOptional (PathSchema SCANNER_JAIL));
           ("paths", ZOptional (ZArray (PathSchema SCANNER_JAIL)))].

(** [data.ip === undefined || isCriticalInfrastructure(data.ip)] *)
Definition ip_missing_or_critical (v : Json) : bool :=
  match prop v "ip" with
  | None => true
  | Some (JStr ip) => isCriticalInfrastructure gateway ip
  | Some _ => false
  end.

Definition enforcerRefine (v : Json) : bool :=
  if type_in ["KillProcess"; "QuarantineProcess"; "DumpProcess"] v && missing v "pid" then false
  else if type_in ["BlockIp"] v && ip_missing_or_critical v then false
  else if type_in ["UnblockIp"] v && missing v "ip" then false
  else true.

Definition EnforcerRequestSchema : Schema :=
  ZRefine (ZObject [("id", IdSchema);
     ("type", ZEnum ["KillProcess"; "BlockIp"; "UnblockIp"; "QuarantineProcess"; "DumpProcess"; "GetStatus"]);
     ("pid", ZOptional PidSchema); ("ip", ZOptional IpSchema); ("path", ZOptional (PathSchema []))])
    enforcerRefine.

(** [f.split("/").pop()?.split("\\").pop() || ""] *)
Definition pcap_basename (f : jsstr) : jsstr :=
  List.last (split (List.last (split f (js "/")) []) [92]) [].

Definition pcapFilenameOk (f : jsstr) : bool :=
  let basename := pcap_basename f in
  if negb (matches SAFE_FILENAME_REGEX basename) || bool_decide (basename = js ".")
     || bool_decide (basename = js "..") then false
  else if negb (includes f (js "/")) && negb (includes f [92]) then true
  else validatePath f PCAP_JAIL.

Definition PcapFilenameSchema : Schema := ZRefine ZString (on_string pcapFilenameOk).

Definition DurationSchema : Schema := ZCheck (ZCheck ZNumber (Min 1)) (Max 3600).

Definition NetcapRequestSchema : Schema :=
  ZObject [("id", IdSchema); ("type", ZEnum ["StartCapture"; "StopCapture"; "GetStatus"]);
    ("interface", ZOptional InterfaceSchema); ("duration", ZOptional DurationSchema);
    ("filename", ZOptional PcapFilenameSchema);
    ("payload", ZOptional (ZObject [("interface", ZOptional InterfaceSchema);
       ("duration", ZOptional DurationSchema); ("filename", ZOptional PcapFilenameSchema)]))].

Definition DecoyRequestSchema : Schema :=
  ZObject [("id", IdSchema); ("type", ZEnum ["ToggleModule"; "UpdateModule"; "Sabotage"; "GetStatus"]);
    ("module", ZOptional ZString); ("port", ZOptional PortSchema); ("newPort", ZOptional PortSchema);
    ("source_ip", ZOptional IpSchema)].

Definition WatchfileRequestSchema : Schema :=
  ZObject [("id", IdSchema); ("type", ZEnum ["WatchPath"; "UnwatchPath"; "GetStatus"]);
    ("path", ZOptional (PathSchema []))].

Definition sentinelRefine (v : Json) : bool :=
  if type_in ["BLOCK_IP"] v && ip_missing_or_critical v then false
  else if type_in ["UNBLOCK_IP"; "SHADOW_BAN"] v && missing v "ip" then false
  else if type_in ["HIDE_PID"; "ENFORCE_PID"; "UNENFORCE_PID"; "TRUST_PID"; "KillProcess";
                   "QuarantineProcess"; "DumpProcess"] v && missing v "pid" then false
  else if type_in ["ALLOW_PORT"; "DENY_PORT"] v && missing v "port" then false
  else if type_in ["TRUST_COMM"] v && missing v "comm" then false
  else true.

Definition SentinelRequestSchema : Schema :=
  ZRefine (ZObject [("id", IdSchema);
     ("type", ZEnum ["BLOCK_IP"; "UNBLOCK_IP"; "SHADOW_BAN"; "HIDE_PID"; "GET_STATUS"; "ALLOW_PORT";
                     "DENY_PORT"; "FLUSH_RULES"; "LOCKDOWN"; "SHUTDOWN"; "TRUST_COMM"; "TRUST_PID";
                     "ENFORCE_PID"; "UNENFORCE_PID"; "KillProcess"; "QuarantineProcess"; "DumpProcess"]);
     ("ip", ZOptional IpSchema); ("pid", ZOptional PidSchema); ("port", ZOptional PortSchema);
     ("comm", ZOptional ZString); ("path", ZOptional (PathSchema []))])
    sentinelRefine.

Definition NvIndexSchema : Schema := ZCheck ZString (Pattern NV_INDEX_REGEX).
Definition bounded_string (n : Z) : Schema := ZCheck ZString (MaxLength (Z.to_nat n)).

Definition TrustrootRequestSchema : Schema :=
  ZObject [("id", IdSchema);
    ("type", ZEnum ["Seal"; "Unseal"; "Sign"; "Verify"; "GetPcrs"; "NvDefine"; "NvWrite"; "NvRead";
                    "QuoteIdentity"; "GenerateSelfSignedCA"; "IssueNodeCert"; "GenerateProxyKey";
                    "SignProxy"; "WipeSecrets"]);
    ("index", ZOptional NvIndexSchema); ("data", ZOptional (bounded_string 65536));
    ("signature", ZOptional (bounded_string 8192)); ("auth", ZOptional (bounded_string 256));
    ("size", ZOptional (ZCheck (ZCheck (ZCheck ZNumber Int) Positive) (Max 65536)));
    ("node_id", ZOptional (bounded_string 256)); ("keyId", ZOptional (bounded_string 256));
    ("indices", ZOptional (ZCheck (ZArray (ZCheck (ZCheck (ZCheck ZNumber Int) (Min 0)) (Max 31)))
                             (MaxItems 32)));
    ("pcrs", ZOptional (ZRecord (bounded_string 256)))].

Definition TunnelRequestSchema : Schema :=
  ZObject [("id", IdSchema); ("type", ZEnum ["CONNECT"; "DISCONNECT"; "GET_STATUS"]);
    ("payload", ZOptional (ZObject [("interface", ZOptional (ZCheck InterfaceSchema (MaxLength 15)));
       ("config_path", ZOptional (PathSchema SYSTEM_JAILS_FOR_SIDECARS))]))].

Definition sentinelDarwinRefine (v : Json) : bool :=
  if type_in ["BlockIp"] v && ip_missing_or_critical v then false
  else if type_in ["UnblockIp"; "ShadowBanIp"] v && missing v "ip" then false
  else if type_in ["AllowPort"; "DenyPort"] v && missing v "port" then false
  else true.

Definition SentinelDarwinRequestSchema : Schema :=
  ZRefine (ZObject [("id", IdSchema);
     ("type", ZEnum ["BlockIp"; "UnblockIp"; "ShadowBanIp"; "AllowPort"; "DenyPort"; "Lockdown";
                     "FlushRules"; "GetStatus"; "UpdatePolicy"]);
     ("ip", ZOptional IpSchema); ("port", ZOptional PortSchema)])
    sentinelDarwinRefine.

Definition enforcerWinRefine (v : Json) : bool :=
  if type_in ["AddBlockRule"] v && ip_missing_or_critical v then false
  else if type_in ["RemoveBlockRule"] v && missing v "ip" then false
  else if type_in ["AddAllowRule"; "RemoveAllowRule"] v && missing v "port" then false
  else true.

Definition EnforcerWinRequestSchema : Schema :=
  ZRefine (ZObject [("id", IdSchema);
     ("type", ZEnum ["AddBlockRule"; "RemoveBlockRule"; "AddAllowRule"; "RemoveAllowRule";
                     "ProtectDirectory"; "GetStatus"; "FlushRules"]);
     ("ip", ZOptional IpSchema); ("port", ZOptional PortSchema)])
    enforcerWinRefine.

Definition firewallRefine (v : Json) : bool :=
  if type_in ["KillProcess"; "QuarantineProcess"; "DumpProcess"] v && missing v "pid" then false
  else if type_in ["BlockIp"; "UnblockIp"] v && missing v "ip" then false
  else if type_in ["AllowPort"; "DenyPort"] v && missing v "port" then false
  else true.

Definition FirewallRequestSchema : Schema :=
  ZRefine (ZObject [("id", IdSchema);
     ("type", ZEnum ["KillProcess"; "BlockIp"; "UnblockIp"; "QuarantineProcess"; "DumpProcess"; "GetStatus";
                     "FlushRules"; "Lockdown"; "AllowPort"; "DenyPort"]);
     ("pid", ZOptional PidSchema); ("ip", ZOptional IpSchema); ("port", ZOptional PortSchema);
     ("protocol", ZOptional (ZEnum ["tcp"; "udp"]))])
    firewallRefine.

Definition TelemetryWinRequestSchema : Schema :=
  ZObject [("id", IdSchema); ("type", ZEnum ["GetStatus"; "Shutdown"])].

Definition MeshRequestSchema : Schema :=
  ZObject [("id", IdSchema);
    ("type", ZEnum ["GOSSIP_BLOCK"; "GOSSIP_THREAT_HASH"; "GOSSIP_AUDIT"; "GOSSIP_LOCKDOWN";
                    "GOSSIP_AUDIT_VERIFY"; "MERKLE_CATCH_UP"; "FETCH_STATE"; "REQUEST_APPROVAL";
                    "GET_AUDIT_STATUS"; "GET_STATUS"]);
    ("ip", ZOptional IpSchema); ("hash", ZOptional ZString);
    ("events", ZOptional (ZArray AuditEventSchema)); ("sourceNode", ZOptional ZString);
    ("lastKnownHash", ZOptional ZString); ("nodeId", ZOptional ZString);
    ("payload", ZOptional (ZObject [("action", ZString); ("data", ZOptional (ZRecord ZUnknown));
                                    ("nodeId", ZString); ("timestamp", ZNumber)]));
    ("signature", ZOptional ZString)].

Definition REQUEST_SCHEMAS : list (string * Schema) :=
  [("analyzer", AnalyzerRequestSchema); ("enforcer", EnforcerRequestSchema); ("netcap", NetcapRequestSchema);
   ("decoy", DecoyRequestSchema); ("watchfile", WatchfileRequestSchema); ("sentinel", SentinelRequestSchema);
   ("trustroot", TrustrootRequestSchema); ("tunnel", TunnelRequestSchema);
   ("sentinel-darwin", SentinelDarwinRequestSchema); ("enforcer-win", EnforcerWinRequestSchema);
   ("firewall", FirewallRequestSchema); ("telemetry-win", TelemetryWinRequestSchema);
   ("mesh", MeshRequestSchema)].

Definition SidecarResponseSchema : Schema :=
  ZObject [("id", IdSchema); ("success", ZOptional ZBoolean); ("message", ZOptional ZString);
    ("stdout", ZOptional ZString); ("stderr", ZOptional ZString);
    ("data", ZOptional (ZNullable (ZRecord ZUnknown))); ("timestamp", ZOptional ZString);
    ("event", ZOptional ZString); ("type", ZOptional ZString); ("sidecar", ZOptional ZString);
    ("critical", ZOptional ZBoolean); ("error", ZOptional ZString)].

Context `{Zod}.

Definition schema_of (sidecar : string) : option Schema :=
  snd <$> find (fun e => bool_decide (e.1 = sidecar)) REQUEST_SCHEMAS.

(** [validateRequest(sidecar, req)] *)
Definition validateRequest (sidecar : string) (req : Json) : bool :=
  match schema_of sidecar with
  | None => false
  | Some schema => safeParse schema (Some req)
  end.

(** JavaScript truthiness of a field. *)
Definition truthy (v : option Json) : bool :=
  match v with
  | None | Some JNull | Some (JBool false) => false
  | Some (JNum q) => negb (Qeq_bool q 0)
  | Some (JStr s) => negb (bool_decide (s = []))
  | _ => true
  end.

(** [validateResponse(_sidecar, res)] *)
Definition validateResponse (res : Json) : bool :=
  if truthy (prop res "event") then true
  else safeParse SidecarResponseSchema (Some res)
       && match prop res "success" with Some (JBool _) => true | _ => false end.

(** ** Reading an accepted object *)

Lemma object_field fs v k s :
  safeParse (ZObject fs) (Some v) = true -> In (k, s) fs -> safeParse s (prop v k) = true.
Proof.
  rewrite zod_object. destruct v; try done. rewrite forallb_forall. intros Hall Hin.
  exact (Hall (k, s) Hin).
Qed.

Lemma enum_type vs v :
  safeParse (ZEnum vs) v = true -> exists t, In t vs /\ v = Some (JStr (js t)).
Proof.
  rewrite zod_enum. destruct v as [[| | |s| |]|]; try done. intros (t & Ht & E)%existsb_exists.
  apply bool_decide_eq_true in E. exists t. by subst.
Qed.

Lemma refined_string f v :
  safeParse (ZRefine ZString (on_string f)) v = true -> exists s, v = Some (JStr s) /\ f s = true.
Proof.
  rewrite zod_refine, zod_string. destruct v as [[| | |s| |]|]; try done. simpl. eauto.
Qed.

Lemma optional_field s v : safeParse (ZOptional s) v = true -> v = None \/ safeParse s v = true.
Proof. rewrite zod_optional. destruct v; auto. Qed.

Lemma js_inj (s t : string) : js s = js t -> s = t.
Proof.
  revert t. induction s as [|c s IH]; intros [|d t]; simpl; try done. intros [= Hc Hs].
  f_equal; [|auto]. apply N2Z.inj in Hc.
  by rewrite <- (Ascii.ascii_N_embedding c), Hc, Ascii.ascii_N_embedding.
Qed.

Lemma type_in_true t ts v : prop v "type" = Some (JStr (js t)) -> In t ts -> type_in ts v = true.
Proof.
  intros Ht Hin. unfold type_in. rewrite Ht. apply existsb_exists. exists t. split; [done|].
  by apply bool_decide_eq_true.
Qed.

(** A schema whose refinement insists on a non-critical address. *)
Lemma block_schema fs f t v :
  safeParse (ZRefine (ZObject fs) f) (Some v) = true ->
  In ("ip"%string, ZOptional IpSchema) fs ->
  (forall x, f x = true -> type_in [t] x = true -> ip_missing_or_critical x = false) ->
  prop v "type" = Some (JStr (js t)) ->
  exists ip, prop v "ip" = Some (JStr ip) /\ isValidIP ip = true /\
             isCriticalInfrastructure gateway ip = false.
Proof.
  rewrite zod_refine. intros [Ho Hf]%andb_true_iff Hip Href Ht.
  assert (type_in [t] v = true) as Hty by (eapply type_in_true; [done|by left]).
  specialize (Href v Hf Hty). unfold ip_missing_or_critical in Href.
  pose proof (object_field _ _ _ _ Ho Hip) as Hs. apply optional_field in Hs as [Hs|Hs].
  { by rewrite Hs in Href. }
  apply refined_string in Hs as (ip & Hp & Hv). rewrite Hp in *. eauto.
Qed.

(** The command of each sidecar that blocks an address. *)
Definition guarded_block_commands : list (string * string) :=
  [("enforcer", "BlockIp"); ("sentinel", "BLOCK_IP"); ("sentinel-darwin", "BlockIp");
   ("enforcer-win", "AddBlockRule")]%string.

(** Critical infrastructure cannot be blocked through these sidecars: a
    block command that validates for the enforcer, the sentinel or their macOS
    and Windows counterparts carries a syntactically valid address that is
    neither loopback, a built-in resolver nor the configured gateway. *)
Theorem block_spares_critical sidecar t req :
  In (sidecar, t) guarded_block_commands ->
  validateRequest sidecar req = true -> prop req "type" = Some (JStr (js t)) ->
  exists ip, prop req "ip" = Some (JStr ip) /\ isValidIP ip = true /\
             ip ∉ CRITICAL_IPS /\ gateway <> Some ip.
Proof.
  intros Hin Hv Ht.
  assert (exists ip, prop req "ip" = Some (JStr ip) /\ isValidIP ip = true /\
                     isCriticalInfrastructure gateway ip = false) as (ip & Hip & Hval & Hc).
  { simpl in Hin. destruct Hin as [E|[E|[E|[E|[]]]]]; injection E as <- <-; unfold validateRequest in Hv;
      simpl in Hv; eapply block_schema; try exact Hv; try exact Ht; try (simpl; tauto).
    - intros x. unfold enforcerRefine. intros Hf Hty. rewrite Hty in Hf.
      by destruct (ip_missing_or_critical x); [repeat case_bool_step|].
    - intros x. unfold sentinelRefine. intros Hf Hty. rewrite Hty in Hf.
      by destruct (ip_missing_or_critical x).
    - intros x. unfold sentinelDarwinRefine. intros Hf Hty. rewrite Hty in Hf.
      by destruct (ip_missing_or_critical x).
    - intros x. unfold enforcerWinRefine. intros Hf Hty. rewrite Hty in Hf.
      by destruct (ip_missing_or_critical x). }
  exists ip. pose proof (not_true_iff_false (isCriticalInfrastructure gateway ip)) as [_ Hn].
  specialize (Hn Hc). rewrite critical_infrastructure_iff in Hn.
  assert (ip <> []) as Hne by (intros ->; vm_compute in Hval; done).
  split_and!; [done..| |]; intros Hx; apply Hn; [by left|by right].
Qed.

(** ** Files named in requests *)

Lemma path_field jail v :
  jail <> [] -> safeParse (ZOptional (PathSchema jail)) v = true ->
  v = None \/ exists p, v = Some (JStr p) /\ exists j, j ∈ jail /\
    below (resolve j) (resolve (realPathOf (normalize p))).
Proof.
  intros Hj [->|Hs]%optional_field; [by left|right].
  apply refined_string in Hs as (p & -> & Hp). exists p. split; [done|].
  destruct (validatePath_jailed p jail Hp) as (_ & _ & Hin). by apply Hin.
Qed.

(** Absent, or a string naming a file below one of the directories. *)
Definition jailed (jail : list jsstr) (v : option Json) : Prop :=
  v = None \/ exists p, v = Some (JStr p) /\ exists j, j ∈ jail /\
    below (resolve j) (resolve (realPathOf (normalize p))).

(** Absent, or a capture file: its last component consists of the safe units
    and it is a bare name or lies below a capture directory. *)
Definition capture_file (v : option Json) : Prop :=
  v = None \/ exists f, v = Some (JStr f) /\
    matches SAFE_FILENAME_REGEX (pcap_basename f) = true /\
    ((47 ∉ f /\ 92 ∉ f) \/ jailed PCAP_JAIL (Some (JStr f))).

Lemma capture_field v : safeParse (ZOptional PcapFilenameSchema) v = true -> capture_file v.
Proof.
  intros [->|Hs]%optional_field; [by left|right].
  apply refined_string in Hs as (f & -> & Hf). exists f. split; [done|]. unfold pcapFilenameOk in Hf.
  destruct (matches SAFE_FILENAME_REGEX (pcap_basename f)); [|done]. split; [done|].
  case_bool_step; [done|]. case_bool_step.
  - left. apply andb_true_iff in Heqb0 as [H1 H2]. apply negb_true_iff in H1, H2.
    split; intros Hin%includes_char; [change (js "/") with [47] in H1|]; congruence.
  - right. right. exists f. split; [done|].
    destruct (validatePath_jailed f PCAP_JAIL Hf) as (_ & _ & Hj). by apply Hj.
Qed.

(** Files named in a validated request stay in their jails: the path and
    every entry of paths of an analyzer request lie below a scanner directory,
    the configuration file of a tunnel request below one of the directories
    for sidecar configuration, and the capture file of a netcap request, in
    either spelling of the request, has a safe last component and is a bare
    name or lies below a capture directory; all after symbolic links are
    followed. *)
Theorem request_files_jailed req :
  (validateRequest "analyzer" req = true ->
     jailed SCANNER_JAIL (prop req "path") /\
     forall l v, prop req "paths" = Some (JArr l) -> In v l -> jailed SCANNER_JAIL (Some v)) /\
  (validateRequest "tunnel" req = true ->
     forall pl, prop req "payload" = Some pl -> jailed SYSTEM_JAILS_FOR_SIDECARS (prop pl "config_path")) /\
  (validateRequest "netcap" req = true ->
     capture_file (prop req "filename") /\
     forall pl, prop req "payload" = Some pl -> capture_file (prop pl "filename")).
Proof.
  unfold validateRequest. split_and!; intros Hv;
    pose proof (fun k s => object_field _ _ k s Hv) as Hf; clear Hv.
  - split; [apply path_field; [done|]; apply Hf; simpl; tauto|].
    intros l v Hl Hin. specialize (Hf "paths"%string _ ltac:(simpl; tauto)).
    rewrite zod_optional, Hl, zod_array, forallb_forall in Hf.
    apply path_field; [done|]. rewrite zod_optional. by apply Hf.
  - intros pl Hpl. specialize (Hf "payload"%string _ ltac:(simpl; tauto)).
    rewrite zod_optional, Hpl in Hf. apply path_field; [done|].
    eapply object_field; [exact Hf|simpl; tauto].
  - split; [apply capture_field, Hf; simpl; tauto|].
    intros pl Hpl. specialize (Hf "payload"%string _ ltac:(simpl; tauto)).
    rewrite zod_optional, Hpl in Hf. apply capture_field.
    eapply object_field; [exact Hf|simpl; tauto].
Qed.

(** Exactly the allowed sidecars have a schema. *)
Lemma schema_of_allowed name :
  isAllowedSidecar name = true <-> exists s, schema_of name = Some s.
Proof.
  unfold isAllowedSidecar, schema_of. rewrite existsb_exists. split.
  - intros (x & Hx & E). apply bool_decide_eq_true in E as ->. simpl in Hx.
    repeat (destruct Hx as [<-|Hx]; [simpl; eauto|]). done.
  - intros [s Hs]. destruct (find _ _) as [[n s']|] eqn:E; [|done].
    apply find_some in E as [Hin E]. apply bool_decide_eq_true in E. simpl in E. subst n.
    exists name. split; [|by apply bool_decide_eq_true]. simpl in Hin |- *.
    repeat (destruct Hin as [Hin|Hin]; [injection Hin as <- _; tauto|]). done.
Qed.
End schemas.

(** Looks the fields of a concrete object up. *)
Ltac read_fields := cbn [forallb fst snd];
  repeat match goal with |- context [assoc ?l ?k] => let x := eval vm_compute in (assoc l k) in change (assoc l k) with x end.

(** ** Witnesses *)

#[local] Instance plain_paths : StdPath :=
  {| normalize := fun p => p; join_path := fun a b => a ++ js "/" ++ b; resolve := fun p => p;
     dirname := fun p => p; realPathSync := fun p => Some p |}.

Definition block_request (t ip : string) : Json :=
  JObj [("type", JStr (js t)); ("ip", JStr (js ip))].

(** The firewall's schema has no such guard: it lets the loopback address be
    blocked, which every other schema refuses. *)
Lemma firewall_accepts_critical :
  validateRequest None "firewall" (block_request "BlockIp" "127.0.0.1") = true /\
  validateRequest None "enforcer" (block_request "BlockIp" "127.0.0.1") = false.
Proof. vm_compute. done. Qed.

Lemma block_spares_critical_witness :
  exists ip, prop (block_request "BlockIp" "203.0.113.7") "ip" = Some (JStr ip) /\ isValidIP ip = true /\
             ip ∉ CRITICAL_IPS /\ Some (js "192.0.2.1") <> Some ip.
Proof.
  apply (block_spares_critical (Some (js "192.0.2.1")) "enforcer" "BlockIp").
  - simpl. tauto.
  - vm_compute. reflexivity.
  - reflexivity.
Defined.
End Schemas.
