(* ===== verification/ExecPolicy.v ===== *)
(** * Command execution policy

    Models [src/orchestrator/infrastructure/system/execution_policy.ts]: for
    every whitelisted command the schema its argument list must satisfy.  The
    schemas are zod schemas of arrays of strings, with a pattern per element, a
    bound on the length and a [superRefine] callback; a callback is modelled by
    the condition that it adds no issue. *)

From S2P Require Import Prelude JsString Regex Paths Schemas.

Module ExecPolicy.
Import JsString Regex Paths Schemas.

(** ** Pattern notation *)

(** The ranges of a character class such as [a-z0-9._-]. *)
Fixpoint ranges (s : jsstr) : list (Z * Z) :=
  match s with
  | x :: ((45 :: y :: rest) as t) => (x, y) :: ranges rest
  | x :: rest => (x, x) :: ranges rest
  | [] => []
  end.
Definition cls (s : string) : regex := Cls (ranges (js s)).
(** Any unit but a line terminator. *)
Definition any : regex := Cls [(0, 9); (11, 12); (14, 0x2027); (0x202a, 0xffff)].
Definition words (ws : list string) : regex := alts (map lit ws).
Definition seqs (rs : list regex) : regex := fold_right Seq Eps rs.
(** A literal under the flag [i]. *)
Definition fold_case (c : Z) : regex :=
  if (97 <=? c) && (c <=? 122) then Cls [(c, c); (c - 32, c - 32)]
  else if (65 <=? c) && (c <=? 90) then Cls [(c, c); (c + 32, c + 32)] else chr c.
Definition lit_i (s : string) : regex := seqs (map fold_case (js s)).

(** ** Schemas *)

Record CommandPolicy := {
  schema : Schema;
  blockedStrings : list jsstr;
  schemaOwnsArgumentValidation : bool;
}.

Definition as_strings (v : Json) : list jsstr :=
  match v with
  | JArr l => flat_map (fun x => match x with JStr s => [s] | _ => [] end) l
  | _ => []
  end.

(** [z.array(z.string()).max(n)], with a pattern, with a callback. *)
Definition strings (n : nat) : Schema := ZCheck (ZArray ZString) (MaxItems n).
Definition matching (r : regex) (n : nat) : Schema :=
  ZCheck (ZArray (ZCheck ZString (Pattern r))) (MaxItems n).
Definition superRefine (s : Schema) (f : list jsstr -> bool) : Schema :=
  ZRefine s (fun v => f (as_strings v)).

Definition SYSTEM_JAILS : list jsstr :=
  map js ["./volume/"; "/var/lib/cts/"; "/etc/systemd/system/cts-"; "/etc/apparmor.d/"; "/home/";
          "/var/www/"; "/tmp/"; "/proc/"]%string.

Definition PROVISIONING_REGEX : regex :=
  seqs [lit "chmod 600 /etc/cts.env && export $(grep -v '^#' /etc/cts.env | xargs -d ";
        Alt (seqs [chr 39; lit "\n"; chr 39]) (seqs [chr 34; lit "\n"; chr 34]);
        lit ") && /usr/local/bin/counter-terrorist > /var/log/cts.log 2>&1 &"].

Definition ssh_option : regex :=
  Alt (Seq (lit "StrictHostKeyChecking=") (words ["yes"; "no"; "accept-new"]))
      (Seq (lit "UserKnownHostsFile=") (plus (cls "a-z0-9/._-"))).
Definition plain_arg : regex := plus (cls "a-z0-9/._-").
Definition remote_host : regex :=
  seqs [plus (cls "a-z0-9"); lit "@";
        Alt (plus (cls "a-z0-9.-")) (seqs [lit "["; plus (cls "a-f0-9:"); lit "]"])].
Definition service_names : regex :=
  alts [Seq (lit "cts-") (Star any); lit "ufw"; Seq (lit "wireguard") (Star any); Seq (lit "clamav") (Star any)].
Definition ssh_command : regex :=
  Alt (lit "deno task start")
      (seqs [lit "sudo systemctl "; words ["status"; "start"; "stop"; "restart"]; lit " "; service_names]).

Definition ssh_arg (arg : jsstr) : bool :=
  matches plain_arg arg || matches remote_host arg || matches ssh_command arg
  || (includes arg (js "chmod 600 /etc/cts.env") && includes arg (js "counter-terrorist")
      && includes arg (js "xargs") && matches PROVISIONING_REGEX arg).

(** The loops of SSH and SCP: [-o] takes the next argument with it. *)
Fixpoint remote_args (arg_ok : jsstr -> bool) (args : list jsstr) : bool :=
  match args with
  | [] => true
  | arg :: rest =>
      if bool_decide (arg = js "-o") then
        match rest with
        | next :: rest => negb (bool_decide (next = [])) && matches ssh_option next && remote_args arg_ok rest
        | [] => false
        end
      else if startsWith arg (js "-") then false
      else arg_ok arg && remote_args arg_ok rest
  end.

Definition SSH_SCHEMA : Schema := superRefine (strings 10) (remote_args ssh_arg).

Definition has_any (chars : string) (s : jsstr) : bool :=
  existsb (fun c => bool_decide (c ∈ js chars)) s.

Definition scp_arg (arg : jsstr) : bool :=
  matches plain_arg arg
  || (matches (Seq remote_host (opt (Seq (lit ":") (Star any)))) arg
      && negb (includes arg (js ":")
               && has_any ";&|><`$()!" (default [] (split arg (js ":") !! 1%nat)))).
Definition SCP_SCHEMA : Schema := superRefine (strings 10) (remote_args scp_arg).

Definition PFCTL_SCHEMA : Schema :=
  superRefine (matching (plus (cls "a-zA-Z0-9.:_-")) 6)
    (forallb (fun arg => matches (words ["-t"; "-T"; "-s"; "-e"; "-F"]) arg
                         || matches (words ["add"; "delete"; "info"; "all"]) arg
                         || matches (plus (cls "a-z_")) arg || matches (plus (cls "0-9a-fA-F.:")) arg)).

(** [args.length > 0 && !p(args[i])] adds no issue *)
Definition nth_ok (i : nat) (p : jsstr -> bool) (args : list jsstr) : bool :=
  match args !! i with Some a => p a | None => true end.
(** [args[i+1] || ""] *)
Definition next_of (rest : list jsstr) : jsstr := match rest with n :: _ => n | [] => [] end.
(** A loop over the arguments with one argument of lookahead. *)
Fixpoint each (p : jsstr -> jsstr -> bool) (args : list jsstr) : bool :=
  match args with
  | [] => true
  | a :: rest => p a (next_of rest) && each p rest
  end.

Definition LAUNCHCTL_SCHEMA : Schema :=
  superRefine (matching (plus (cls "a-zA-Z0-9./_-")) 2)
    (nth_ok 0 (matches (words ["list"; "load"; "unload"; "start"; "stop"]))).
Definition SPCTL_SCHEMA : Schema :=
  superRefine (matching (plus (cls "a-zA-Z0-9./_-")) 2)
    (nth_ok 0 (fun a => bool_decide (a = js "--assess"))).
Definition PS_SCHEMA : Schema :=
  superRefine (matching (plus (cls "0-9,a-z-")) 4)
    (forallb (fun arg => negb (startsWith arg (js "-")) || matches (words ["-p"; "-ax"; "-o"]) arg)).
Definition PKTMON_SCHEMA : Schema :=
  superRefine (strings 4)
    (forallb (fun arg => matches (words ["start"; "stop"; "--etw"; "-p"]) arg
                         || matches (seqs [lit "./volume/"; Star any; lit ".pcap"]) arg)).
Definition NETSH_SCHEMA : Schema :=
  superRefine (matching (plus (cls "a-zA-Z0-9./_=:-")) 10)
    (nth_ok 0 (matches (words ["advfirewall"; "firewall"; "show"; "set"; "add"; "delete"; "rule";
                               "allprofiles"; "state"]))).
Definition KILL_SCHEMA : Schema := matching (Seq (opt (lit "-")) (plus (cls "0-9"))) 2.

Definition tcpdump_arg (arg next : jsstr) : bool :=
  (negb (bool_decide (arg = js "-i")) || matches (plus (cls "a-z0-9")) next)
  && (negb (bool_decide (arg = js "-w"))
      || matches (seqs [lit "./volume/storage/captures/"; plus (cls "a-zA-Z0-9._-"); lit ".pcap"]) next)
  && (negb (bool_decide (arg = js "-G")) || matches (plus (cls "0-9")) next)
  && (negb (bool_decide (arg = js "-W")) || bool_decide (next = js "1")).
Definition TCPDUMP_SCHEMA : Schema := superRefine (strings 8) (each tcpdump_arg).

Definition crontab_arg (arg next : jsstr) : bool :=
  (negb (bool_decide (arg = js "-u")) || matches (plus (cls "a-z0-9-")) next)
  && (negb (startsWith arg (js "-")) || matches (words ["-l"; "-u"]) arg).
Definition CRONTAB_SCHEMA : Schema := superRefine (strings 3) (each crontab_arg).
Definition TC_SCHEMA : Schema := matching (plus (cls "a-zA-Z0-9.:/_-")) 20.
Definition WG_QUICK_SCHEMA : Schema :=
  superRefine (strings 2)
    (fun args => nth_ok 0 (matches (words ["up"; "down"])) args
                 && nth_ok 1 (matches (Alt (lit "all") (plus (cls "a-z0-9")))) args).
Definition WG_SCHEMA : Schema := matching (plus (cls "a-zA-Z0-9+/=._-")) 10.
Definition SS_SCHEMA : Schema :=
  superRefine (strings 2)
    (forallb (matches (Alt (Seq (opt (lit "-")) (plus (cls "tulnpaH")))
                           (Seq (lit "sport = :") (plus (cls "0-9")))))).
Definition IPTABLES_SCHEMA : Schema := matching (plus (cls "a-zA-Z0-9.+_:/-")) 20.
Definition tpm2_sign_arg (arg next : jsstr) : bool :=
  (negb (bool_decide (arg = js "-c")) || matches (Seq (lit "0x") (plus (cls "0-9a-fx"))) next)
  && (negb (bool_decide (arg = js "-g")) || matches (words ["sha256"; "sha384"]) next).
Definition TPM2_SIGN_SCHEMA : Schema := superRefine (strings 10) (each tpm2_sign_arg).
Definition IP_SCHEMA : Schema := matching (plus (cls "a-zA-Z0-9._:/-")) 10.
Definition SYSCTL_SCHEMA : Schema :=
  superRefine (matching (Seq (plus (cls "a-z0-9._-")) (opt (Seq (lit "=") (plus (cls "0-9"))))) 2)
    (nth_ok 0 (fun a => matches (words ["-w"; "-n"]) a || includes a (js "="))).
Definition OPENSSL_SCHEMA : Schema :=
  superRefine (strings 10) (nth_ok 0 (matches (words ["dgst"; "genrsa"; "rsa"; "req"; "x509"]))).
Definition UFW_SCHEMA : Schema :=
  superRefine (matching (plus (cls "0-9a-zA-Z./-")) 5)
    (nth_ok 0 (matches (words ["status"; "enable"; "disable"; "allow"; "deny"; "delete"; "default";
                               "reload"; "reset"]))).

(** [validTypes.includes(payload.type)] *)
Definition payload_type_in (ts : list string) (payload : Json) : bool := type_in ts payload.

Definition SENTINEL_TYPES : list string :=
  ["BLOCK_IP"; "UNBLOCK_IP"; "SHADOW_BAN"; "HIDE_PID"; "GET_STATUS"; "ALLOW_PORT"; "DENY_PORT"; "FLUSH_RULES";
   "LOCKDOWN"; "SHUTDOWN"; "TRUST_COMM"; "BLOCK_SYSCALL"; "LSM_POLICY"; "ENFORCE_PID"; "UNENFORCE_PID";
   "KillProcess"; "QuarantineProcess"; "DumpProcess"; "LSM_SYSCALL_ALLOWLIST"; "UPDATE_HOOK_CONTROL";
   "ADD_REDIRECTION"; "REMOVE_REDIRECTION"; "SET_LEARNING_MODE"]%string.
Definition ANALYZER_TYPES : list string :=
  ["SCAN"; "DIR_SCAN"; "RKH_SCAN"; "QUIT"; "MEM_SCAN"; "ScanPath"; "Quarantine"; "SyncSignatures";
   "GetStatus"]%string.

Definition POWERSHELL_BLOCKED : list jsstr :=
  map (fun c => [c]) (js "&|;><`$(){}[]").

Definition powershell_args (args : list jsstr) : bool :=
  match args with
  | [] => true
  | a :: rest =>
      if bool_decide (a = js "-Command") then
        let cmd := next_of rest in
        forallb (fun b => negb (includes cmd b)) POWERSHELL_BLOCKED
        && negb (includes cmd (js "$(") || includes cmd (js "@("))
      else if bool_decide (a = js "-EncodedCommand") then
        match rest with n :: _ => matches (plus (cls "a-zA-Z0-9+/=")) n | [] => false end
      else false
  end.
Definition POWERSHELL_SCHEMA : Schema := superRefine (strings 2) powershell_args.

Definition SYSTEMCTL_SCHEMA : Schema :=
  superRefine (strings 2)
    (fun args => nth_ok 0 (matches (words ["start"; "stop"; "restart"; "status"; "is-active"; "enable";
                                           "disable"])) args
                 && nth_ok 1 (matches (alts [service_names; lit "systemd-resolved"; lit "network-manager"])) args).

Section policies.
(** [validatePath] needs the file system, the JSON payloads [JSON.parse]
    ([None] when it throws). *)
Context `{StdPath} (JSON_parse : jsstr -> option Json).

Definition CLAMSCAN_SCHEMA : Schema :=
  superRefine (strings 5)
    (forallb (fun arg => if startsWith arg (js "-") then matches (words ["-r"; "--quiet"; "--no-summary"]) arg
                         else validatePath arg SYSTEM_JAILS)).

(** [payload.k] is falsy or passes; reading a field of [null] throws. *)
Definition sentinel_payload (payload : Json) : bool :=
  match payload with
  | JNull => false
  | _ =>
      payload_type_in SENTINEL_TYPES payload
      && (negb (truthy (prop payload "pid"))
          || match prop payload "pid" with Some (JNum _) => true | _ => false end)
      && (negb (truthy (prop payload "allowed_syscalls"))
          || match prop payload "allowed_syscalls" with Some (JArr _) => true | _ => false end)
  end.
Definition SENTINEL_SCHEMA : Schema :=
  superRefine (strings 1)
    (nth_ok 0 (fun a => match JSON_parse a with Some p => sentinel_payload p | None => false end)).

Definition ANALYZER_SCHEMA : Schema :=
  superRefine (strings 5)
    (nth_ok 0 (fun a => match JSON_parse a with
                        | Some JNull | None => startsWith a (js "-")
                        | Some p => payload_type_in ANALYZER_TYPES p
                        end)).

Definition is_flag (a : jsstr) : bool := startsWith a (js "-").

Definition cp_args (args : list jsstr) : bool :=
  let paths := List.filter (fun a => negb (is_flag a)) args in
  let flags := List.filter is_flag args in
  (length paths =? 2)%nat
  && forallb (fun f => matches (Seq (lit "--reflink=") (words ["always"; "auto"; "never"])) f
                       || bool_decide (f = js "-p")) flags
  && forallb (fun p => validatePath p SYSTEM_JAILS) paths.
Definition CP_SCHEMA : Schema := superRefine (strings 3) cp_args.
Definition MV_SCHEMA : Schema := CP_SCHEMA.

Definition chmod_args (args : list jsstr) : bool :=
  match args with
  | [mode; p] => matches (between 3 4 (cls "0-7")) mode && validatePath p SYSTEM_JAILS
  | _ => false
  end.
Definition CHMOD_SCHEMA : Schema := superRefine (strings 2) chmod_args.

(** [.min(1)] is part of the condition. *)
Definition mkdir_args (args : list jsstr) : bool :=
  match args with
  | [p] => validatePath p SYSTEM_JAILS
  | [f; p] => bool_decide (f = js "-p") && validatePath p SYSTEM_JAILS
  | _ => false
  end.
Definition MKDIR_SCHEMA : Schema := superRefine (strings 2) mkdir_args.

Definition LS_SCHEMA : Schema :=
  superRefine (strings 2)
    (forallb (fun arg => if is_flag arg then matches (Seq (lit "-l") (opt (lit "a"))) arg
                         else validatePath arg SYSTEM_JAILS)).
Definition SHA256SUM_SCHEMA : Schema :=
  superRefine (strings 1) (nth_ok 0 (fun a => validatePath a SYSTEM_JAILS)).

(** ['[^']'] bodies of the two shapes [sh -c] may run. *)
Definition not_quote : regex := Cls [(0, 38); (40, 0xffff)].
Definition isCommUpdate : regex :=
  seqs [lit "echo '"; plus not_quote; lit "' > /proc/"; plus (cls "0-9"); lit "/comm"].
Definition isProfileWrite : regex :=
  seqs [opt (lit "umask 077 && "); lit "echo '"; Star (Alt not_quote (lit "'\''"));
        lit "' > /var/lib/cts/tmp/cts-profile-"; plus (cls "a-zA-Z0-9._-"); lit ".profile"].
Definition sh_args (args : list jsstr) : bool :=
  match args with
  | [a; command] => bool_decide (a = js "-c") && (matches isCommUpdate command || matches isProfileWrite command)
  | _ => false
  end.

Definition rm_args (args : list jsstr) : bool :=
  forallb (fun p => bool_decide (p = js "/var/lib/cts/tmp/cts_reflink_probe")
                    || (startsWith p (js "/var/lib/cts/tmp/cts-profile-") && endsWith p (js ".profile")))
    (List.filter (fun a => negb (is_flag a)) args).

Definition only (s : Schema) : CommandPolicy :=
  {| schema := s; blockedStrings := []; schemaOwnsArgumentValidation := false |}.

Definition COMMAND_POLICIES : list (string * CommandPolicy) :=
  [("pfctl", only PFCTL_SCHEMA);
   ("launchctl", only LAUNCHCTL_SCHEMA);
   ("spctl", only SPCTL_SCHEMA);
   ("ps", only PS_SCHEMA);
   ("killall", only (matching (plus (cls "a-z0-9-")) 1));
   ("ifconfig", only (matching (plus (cls "a-z0-9")) 1));
   ("pktmon", only PKTMON_SCHEMA);
   ("powershell", {| schema := POWERSHELL_SCHEMA; blockedStrings := POWERSHELL_BLOCKED ++ [js "$("];
                     schemaOwnsArgumentValidation := false |});
   ("netsh", only NETSH_SCHEMA);
   ("taskkill", only (matching (alts [lit "/F"; lit "/PID"; plus (cls "0-9")]) 3));
   ("systemctl", only SYSTEMCTL_SCHEMA);
   ("ufw", only UFW_SCHEMA);
   ("kill", only KILL_SCHEMA);
   ("chmod", only CHMOD_SCHEMA);
   ("mkdir", only MKDIR_SCHEMA);
   ("tcpdump", only TCPDUMP_SCHEMA);
   ("ls", only LS_SCHEMA);
   ("cp", only CP_SCHEMA);
   ("mv", only MV_SCHEMA);
   ("sw_vers", only (matching (lit "-productVersion") 1));
   ("which", only (matching (plus (cls "a-z0-9-")) 1));
   ("clamscan", only CLAMSCAN_SCHEMA);
   ("sha256sum", only SHA256SUM_SCHEMA);
   ("crontab", only CRONTAB_SCHEMA);
   ("where", only (matching (plus (cls "a-z0-9-")) 1));
   ("tc", only TC_SCHEMA);
   ("gcore", only (superRefine (strings 3) (nth_ok 0 (fun a => bool_decide (a = js "-o")))));
   ("tpm2_nvdefine", only (matching (alts [Seq (lit "0x") (plus (cls "0-9a-fA-F")); lit "-s"; plus (cls "0-9")]) 3));
   ("tpm2_nvwrite", only (matching (alts [Seq (lit "0x") (plus (cls "0-9a-fA-F")); lit "-i";
                                          plus (cls "a-zA-Z0-9./_=+-")]) 3));
   ("tpm2_nvread", only (matching (Seq (lit "0x") (plus (cls "0-9a-fA-F"))) 1));
   ("tpm2_pcrread", only (matching (Seq (lit "sha256:") (plus (cls "0-9,"))) 1));
   ("wg-quick", only WG_QUICK_SCHEMA);
   ("wg", only WG_SCHEMA);
   ("system_profiler", only (matching (seqs [cls "A-Z"; plus (cls "a-zA-Z0-9"); lit "DataType"]) 5));
   ("ss", only SS_SCHEMA);
   ("unshare", only (matching (Alt (Seq (lit "--") (plus (cls "a-z"))) plain_arg) 10));
   ("iptables", only IPTABLES_SCHEMA);
   ("tpm2_sign", only TPM2_SIGN_SCHEMA);
   ("tpm2_hash", only (matching (Alt (words ["-g"; "sha256"; "sha384"; "-o"]) plain_arg) 10));
   ("rkhunter", only (matching (words ["--check"; "--sk"; "--nocolor"; "--report-warnings-only"]) 5));
   ("security", only (matching (alts [lit_i "cms"; lit_i "find-identity"; lit_i "unlock-keychain";
                                      Seq (opt (lit "-")) (plus (cls "a-zA-Z"));
                                      plus (cls "a-zA-Z0-9/._-")]) 10));
   ("ip", only IP_SCHEMA);
   ("sysctl", only SYSCTL_SCHEMA);
   ("nmcli", only (matching (alts [lit "-t"; lit "-f"; plus (cls "A-Z,"); lit "dev"; lit "wifi"; lit "list"]) 10));
   ("ping", only (matching (alts [lit "-c"; plus (cls "0-9"); lit "-W"; lit "-p"; plus (cls "0-9a-fA-F");
                                  plus (cls "a-z0-9.-"); plus (cls "0-9a-fA-F.:")]) 10));
   ("host", only (matching (alts [lit_i "-t"; lit_i "A"; lit_i "AAAA"; lit_i "TXT"; lit_i "MX";
                                  plus (cls "a-zA-Z0-9.-")]) 3));
   ("scp", only SCP_SCHEMA);
   ("ssh", {| schema := SSH_SCHEMA;
              blockedStrings := map js ["&&"; "||"; "|"; ";"; ">"; "<"; "`"; "$"; "("; ")"; "!"; "-F"; "-E";
                                        "-S"; "-i"]%string;
              schemaOwnsArgumentValidation := false |});
   ("/var/lib/cts/scripts/install_service.sh",
     only (matching (Alt (seqs [lit "/etc/systemd/system/cts"; opt (lit "-"); Star any; lit ".service"])
                         (plus (cls "a-zA-Z0-9./_ -"))) 2));
   ("/var/lib/cts/scripts/update_crontab.sh", only (matching (plus (cls "a-zA-Z0-9./_ *-")) 1));
   ("/var/lib/cts/scripts/update_comm.sh",
     only (matching (Alt (seqs [lit "["; plus (cls "a-z0-9/:"); lit "]"]) (plus (cls "0-9"))) 2));
   ("/var/lib/cts/scripts/secure_spawn.sh", only (matching (plus (cls "a-z0-9,._+/-")) 4));
   ("cat", only (matching (plus (cls "a-zA-Z0-9_/.-")) 1));
   ("sh", {| schema := superRefine (strings 2) sh_args; blockedStrings := [];
             schemaOwnsArgumentValidation := true |});
   ("rm", only (superRefine (strings 2) rm_args));
   ("openssl", only OPENSSL_SCHEMA);
   ("analyzer", only ANALYZER_SCHEMA);
   ("enforcer", only (strings 10));
   ("decoy", only (strings 10));
   ("netcap", only (strings 10));
   ("ebpf", only SENTINEL_SCHEMA);
   ("sentinel", only SENTINEL_SCHEMA);
   ("watchfile", only (strings 10));
   ("tunnel", only (strings 10));
   ("sentinel-darwin", only (strings 10));
   ("telemetry-win", only (strings 10));
   ("enforcer-win", only (strings 10))].
End policies.

Example class_syntax : ranges (js "a-z0-9._-") = [(97, 122); (48, 57); (46, 46); (95, 95); (45, 45)].
Proof. reflexivity. Qed.
End ExecPolicy.
