(* ===== verification/Executor.v ===== *)
(** * Command execution

    Models [src/orchestrator/infrastructure/system/system_executor.ts], class
    [SystemExecutor]: the whitelist, the validation of the arguments and what
    is handed to [Deno.Command].  Running the process is the operating
    system's part and is not modelled. *)

From S2P Require Import Prelude JsString Regex Paths Schemas ExecPolicy.

Module Executor.
Import JsString Regex Paths Schemas ExecPolicy.

Definition WHITELISTED_COMMANDS : list string :=
  ["mkdir"; "mv"; "chmod"; "ls"; "sha256sum"; "systemctl";
   "crontab"; "which"; "where"; "netsh"; "taskkill"; "tc"; "kill";
   "cp"; "gcore"; "ufw"; "tpm2_nvdefine"; "tpm2_nvwrite"; "tpm2_nvread";
   "tpm2_pcrread"; "wg-quick"; "wg"; "launchctl"; "system_profiler"; "ss";
   "unshare"; "iptables"; "tpm2_sign"; "tpm2_hash"; "sw_vers"; "openssl";
   "pfctl"; "ifconfig"; "killall"; "spctl"; "ps"; "pktmon"; "ip"; "sysctl"; "nmcli"; "ping"; "host"; "scp";
   "ssh"; "security"; "powershell"; "netstat";
   "analyzer"; "enforcer"; "decoy"; "netcap"; "sentinel"; "watchfile"; "tunnel"; "sentinel-darwin";
   "telemetry-win"; "enforcer-win"; "ebpf";
   "/var/lib/cts/scripts/install_service.sh"; "/var/lib/cts/scripts/update_crontab.sh";
   "/var/lib/cts/scripts/update_comm.sh"; "/var/lib/cts/scripts/secure_spawn.sh";
   "cat"; "sh"; "rm"; "ls"]%string.

Definition PRIVILEGED_COMMANDS : list string :=
  ["ufw"; "tc"; "iptables"; "wg-quick"; "wg"; "gcore"; "unshare"; "systemctl";
   "tpm2_nvdefine"; "tpm2_nvwrite"; "tpm2_nvread"; "tpm2_pcrread"; "setcap";
   "chmod"; "mkdir"; "cp"; "mv"; "pfctl"; "pktmon"; "netsh"; "/var/lib/cts/scripts/secure_spawn.sh"]%string.

Definition PATH_SENSITIVE_COMMANDS : list string :=
  ["openssl"; "mkdir"; "cp"; "mv"; "chmod"; "ls"; "sha256sum"; "sentinel"; "ebpf"; "analyzer"; "watchfile";
   "netcap"; "ssh"; "scp"]%string.

Definition PATH_RESOLVABLE_COMMANDS : list string :=
  ["analyzer"; "enforcer"; "decoy"; "netcap"; "sentinel"; "watchfile"; "trustroot"; "tunnel";
   "sentinel-darwin"; "telemetry-win"; "enforcer-win"; "ebpf"]%string.

Definition listed (l : list string) (s : jsstr) : bool := existsb (fun x => bool_decide (js x = s)) l.

(** Whether the text contains a unit of a class: an unanchored [/[...]/.test]. *)
Definition contains (chars : list Z) (s : jsstr) : bool := existsb (fun c => bool_decide (c ∈ chars)) s.

Definition META : list Z := js ";&|><`$!".
Definition META_PAREN : list Z := js ";&|><`$()!".
Definition META_SPACE : list Z := js ";&|><`$()!" ++ [10; 13; 9].
(** The class of [DANGEROUS_PATTERN]. *)
Definition DANGEROUS : list Z := js "/\%{}&|;><`()!" ++ [10; 13] ++ js "$".

Inductive Reason :=
| NoPolicy | SchemaFailed | BlockedSequence (arg blocked : jsstr) | Metacharacter
| SensitiveMetacharacter | RemoteMetacharacter | PathMetacharacter | Traversal (arg : jsstr)
| JsonPath (p : jsstr) | OutsideJail (arg : jsstr).

(** [None] is [{ valid: true }]. *)
Definition Verdict := option Reason.

Section executor.
(** [path.basename] of [@std/path], the other path functions and the file
    system, zod, and [JSON.parse]. *)
Context `{StdPath} `{Zod} (basename : jsstr -> jsstr) (JSON_parse : jsstr -> option Json).

(** [.replace(/\.exe$/i, "")] *)
Definition strip_exe (s : jsstr) : jsstr :=
  if endsWith (toLowerCase s) (js ".exe") then take (length s - 4) s else s.

Definition isWhitelisted (cmd : jsstr) : bool :=
  if listed WHITELISTED_COMMANDS cmd then true
  else if negb (includes cmd (js "/")) && negb (includes cmd [92])
  then listed WHITELISTED_COMMANDS (basename cmd)
  else
    let baseCmd := strip_exe (basename cmd) in
    listed PATH_RESOLVABLE_COMMANDS baseCmd && listed WHITELISTED_COMMANDS baseCmd.

Definition policy_of (cmd : jsstr) : option CommandPolicy :=
  snd <$> find (fun e => bool_decide (js e.1 = cmd)) (COMMAND_POLICIES JSON_parse).

Definition isPotentiallyDangerous (arg : jsstr) : bool := contains DANGEROUS arg || includes arg (js "..").

(** [extractPathsFromJson(obj, inPathContext, depth)]; [fuel] is what is left of
    the eleven levels. *)
Definition pathKeys : list string :=
  ["path"; "target"; "exe_path"; "log_path"; "source"; "destination"; "output"; "file"; "paths"]%string.

Fixpoint extractPathsFromJson (fuel : nat) (inPathContext : bool) (obj : Json) : list jsstr :=
  match fuel with
  | O => []
  | S fuel =>
      match obj with
      | JArr items => flat_map (extractPathsFromJson fuel inPathContext) items
      | JObj fields =>
          flat_map (fun kv =>
            let isPathKey := existsb (fun k => bool_decide (k = kv.1)) pathKeys in
            match kv.2 with
            | JStr v =>
                if inPathContext || isPathKey || includes v (js "/") || includes v [92] then [v] else []
            | JArr _ | JObj _ => extractPathsFromJson fuel (inPathContext || isPathKey) kv.2
            | _ => []
            end) fields
      | _ => []
      end
  end.

(** [/^[a-z0-9]+@(...):.*$/] *)
Definition remote_path : regex := Seq remote_host (Seq (lit ":") (Star any)).

Definition after_last_colon (arg : jsstr) : jsstr := List.last (split arg (js ":")) [].

(** [validateSensitiveArgument(arg, baseCmd)] *)
Definition validateSensitiveArgument (arg baseCmd : jsstr) : Verdict :=
  if contains META_SPACE arg then Some SensitiveMetacharacter
  else if (bool_decide (baseCmd = js "scp") || bool_decide (baseCmd = js "ssh")) && matches remote_path arg then
    if contains META_PAREN (after_last_colon arg) then Some RemoteMetacharacter else None
  else
    let dangerous : Verdict :=
      if isPotentiallyDangerous arg then
        if contains META_PAREN arg && negb (startsWith arg (js "{") && endsWith arg (js "}"))
        then Some PathMetacharacter
        else if negb (validatePath arg []) then Some (Traversal arg) else None
      else None in
    match dangerous with
    | Some r => Some r
    | None =>
        if bool_decide (baseCmd = js "openssl")
           && (bool_decide (arg = js "dgst") || bool_decide (arg = js "-sha256") || bool_decide (arg = js "-r"))
        then None
        else
          match (if startsWith arg (js "{") then JSON_parse arg else None) with
          | Some parsed =>
              match find (fun p => negb (validatePath p SYSTEM_JAILS)) (extractPathsFromJson 11 false parsed) with
              | Some p => Some (JsonPath p)
              | None => None
              end
          | None =>
              let isPathLike := includes arg (js "/") || includes arg [92] || startsWith arg (js "./")
                                || startsWith arg (js "/") in
              if isPathLike
              then if negb (validatePath arg SYSTEM_JAILS) then Some (OutsideJail arg) else None
              else if negb (validatePath arg []) then Some (Traversal arg) else None
          end
    end.

(** The body of the loop over the arguments. *)
Definition validateArgument (policy : CommandPolicy) (baseCmd : jsstr) (isPathSensitive : bool) (arg : jsstr)
    : Verdict :=
  match find (fun b => includes arg b) (blockedStrings policy) with
  | Some b => Some (BlockedSequence arg b)
  | None =>
      if negb (schemaOwnsArgumentValidation policy)
         && negb (listed ["sentinel"; "ebpf"; "analyzer"] baseCmd && startsWith arg (js "{"))
         && contains META arg
      then Some Metacharacter
      else if isPathSensitive then validateSensitiveArgument arg baseCmd else None
  end.

Fixpoint validateEach (policy : CommandPolicy) (baseCmd : jsstr) (sensitive : bool) (args : list jsstr) : Verdict :=
  match args with
  | [] => None
  | arg :: args =>
      match validateArgument policy baseCmd sensitive arg with
      | Some r => Some r
      | None => validateEach policy baseCmd sensitive args
      end
  end.

(** [validateArguments(cmd, args)] *)
Definition validateArguments (cmd : jsstr) (args : list jsstr) : Verdict :=
  let baseCmd := basename cmd in
  let policy := match policy_of cmd with Some p => Some p | None => policy_of baseCmd end in
  match policy with
  | None => Some NoPolicy
  | Some policy =>
      if negb (safeParse (schema policy) (Some (JArr (map JStr args)))) then Some SchemaFailed
      else
        let isPathSensitive := listed PATH_SENSITIVE_COMMANDS baseCmd || listed PATH_SENSITIVE_COMMANDS cmd in
        validateEach policy baseCmd isPathSensitive args
  end.

(** The process that [execute] and [executeAsync] start: program and
    arguments; [None] when the request is refused. *)
Definition spawned (root : bool) (cmd : jsstr) (args : list jsstr) : option (jsstr * list jsstr) :=
  if negb (isWhitelisted cmd) then None
  else match validateArguments cmd args with
       | Some _ => None
       | None =>
           if (listed PRIVILEGED_COMMANDS (basename cmd) || listed PRIVILEGED_COMMANDS cmd) && negb root
           then Some (js "sudo", js "-n" :: cmd :: args)
           else Some (cmd, args)
       end.

(** ** Facts *)

Lemma contains_false chars s : contains chars s = false <-> Forall (fun c => c ∉ chars) s.
Proof.
  unfold contains. rewrite <- not_true_iff_false, existsb_exists, Forall_forall. split.
  - intros Hn c Hc Hin. apply Hn. exists c. split; [by apply list_elem_of_In|]. by apply bool_decide_eq_true.
  - intros Hall (c & Hc & E). apply bool_decide_eq_true in E. eapply Hall; [by apply list_elem_of_In|done].
Qed.

Lemma validateEach_all policy baseCmd sens args :
  validateEach policy baseCmd sens args = None ->
  forall arg, arg ∈ args -> validateArgument policy baseCmd sens arg = None.
Proof.
  induction args as [|a args IH]; simpl; intros Hv arg Hin; [by inversion Hin|].
  destruct (validateArgument policy baseCmd sens a) eqn:E; [done|].
  apply elem_of_cons in Hin as [->|Hin]; auto.
Qed.

Lemma spawned_valid root cmd args prog argv :
  spawned root cmd args = Some (prog, argv) ->
  isWhitelisted cmd = true /\ validateArguments cmd args = None /\
  ((prog = cmd /\ argv = args) \/ (prog = js "sudo" /\ argv = js "-n" :: cmd :: args)).
Proof.
  unfold spawned. destruct (isWhitelisted cmd); simpl; [|done].
  destruct (validateArguments cmd args); [done|]. case_bool_step; intros [= <- <-]; auto.
Qed.

(** The commands whose policies look at every argument and put the paths
    through [validatePath].  The policies of rm and cat also take paths and
    do not ([unchecked_paths] for rm). *)
Definition FILE_COMMANDS : list string := ["mkdir"; "cp"; "mv"; "chmod"; "ls"; "sha256sum"]%string.

Lemma policy_sh name p : policy_of (js name) = Some p -> schemaOwnsArgumentValidation p = true -> name = "sh"%string.
Proof.
  unfold policy_of. destruct (find _ _) as [[n q]|] eqn:E; [|done]. intros [= <-] Ho.
  apply find_some in E as [Hin E]. apply bool_decide_eq_true in E. simpl in E. apply js_inj in E as <-.
  assert (forallb (fun e => implb (schemaOwnsArgumentValidation e.2) (bool_decide (e.1 = "sh"%string)))
            (COMMAND_POLICIES JSON_parse) = true) as Hall by reflexivity.
  rewrite forallb_forall in Hall. specialize (Hall (n, q) Hin). simpl in Hall. rewrite Ho in Hall.
  by apply bool_decide_eq_true in Hall.
Qed.

Lemma policy_js cmd p : policy_of cmd = Some p -> exists name, cmd = js name.
Proof.
  unfold policy_of. destruct (find _ _) as [[n q]|] eqn:E; [|done]. intros _.
  apply find_some in E as [_ E]. apply bool_decide_eq_true in E. by exists n.
Qed.

(** A valid argument list has a policy, passes its schema and every argument
    passes the loop. *)
Lemma validateArguments_ok cmd args :
  validateArguments cmd args = None ->
  exists policy, (policy_of cmd = Some policy \/ (policy_of cmd = None /\ policy_of (basename cmd) = Some policy)) /\
    safeParse (schema policy) (Some (JArr (map JStr args))) = true /\
    forall arg, arg ∈ args ->
      validateArgument policy (basename cmd)
        (listed PATH_SENSITIVE_COMMANDS (basename cmd) || listed PATH_SENSITIVE_COMMANDS cmd) arg = None.
Proof.
  unfold validateArguments. generalize (policy_of (basename cmd)) as q. intros q.
  assert (forall p, (if negb (safeParse (schema p) (Some (JArr (map JStr args)))) then Some SchemaFailed
     else validateEach p (basename cmd)
            (listed PATH_SENSITIVE_COMMANDS (basename cmd) || listed PATH_SENSITIVE_COMMANDS cmd) args) = None ->
     safeParse (schema p) (Some (JArr (map JStr args))) = true /\
     forall arg, arg ∈ args -> validateArgument p (basename cmd)
        (listed PATH_SENSITIVE_COMMANDS (basename cmd) || listed PATH_SENSITIVE_COMMANDS cmd) arg = None) as Hgo.
  { intros p. destruct (safeParse (schema p) _); cbn [negb]; [|done]. intros Hv.
    split; [done|]. by apply validateEach_all. }
  destruct (policy_of cmd) as [p|]; [|destruct q as [p|]; [|done]]; intros Hv; exists p; split; auto.
Qed.

Lemma validateArgument_meta policy baseCmd sens arg :
  validateArgument policy baseCmd sens arg = None ->
  schemaOwnsArgumentValidation policy = true \/
  (listed ["sentinel"; "ebpf"; "analyzer"] baseCmd = true /\ startsWith arg (js "{") = true) \/
  Forall (fun c => c ∉ META) arg.
Proof.
  unfold validateArgument. destruct (find _ _); [done|].
  destruct (schemaOwnsArgumentValidation policy); [by left|].
  destruct (listed _ baseCmd); cbn [andb negb].
  - destruct (startsWith arg (js "{")); cbn [andb negb]; [by right; left|].
    destruct (contains META arg) eqn:E; [done|]. right. right. by apply contains_false.
  - destruct (contains META arg) eqn:E; [done|]. right. right. by apply contains_false.
Qed.

Lemma as_strings_map args : as_strings (JArr (map JStr args)) = args.
Proof. simpl. induction args as [|a args IH]; simpl; [done|]. by rewrite IH. Qed.

Lemma superRefine_ok s f args :
  safeParse (superRefine s f) (Some (JArr (map JStr args))) = true -> f args = true.
Proof. unfold superRefine. rewrite zod_refine, andb_true_iff, as_strings_map. tauto. Qed.

Lemma strings_length n f args :
  safeParse (superRefine (strings n) f) (Some (JArr (map JStr args))) = true -> (length args <= n)%nat.
Proof.
  unfold superRefine, strings. rewrite zod_refine, zod_check, !andb_true_iff. intros [[_ Hl] _].
  simpl in Hl. rewrite length_map in Hl. by apply Nat.leb_le.
Qed.

Lemma cp_args_ok args arg : cp_args args = true -> arg ∈ args ->
  is_flag arg = true \/ validatePath arg SYSTEM_JAILS = true.
Proof.
  unfold cp_args. intros [[_ _]%andb_true_iff Hp]%andb_true_iff Hin. rewrite forallb_forall in Hp.
  destruct (is_flag arg) eqn:E; [by left|right]. apply Hp, filter_In. rewrite E.
  split; [by apply list_elem_of_In|done].
Qed.

Lemma file_policies :
  policy_of (js "mkdir") = Some (only MKDIR_SCHEMA) /\ policy_of (js "cp") = Some (only CP_SCHEMA) /\
  policy_of (js "mv") = Some (only MV_SCHEMA) /\ policy_of (js "chmod") = Some (only CHMOD_SCHEMA) /\
  policy_of (js "ls") = Some (only LS_SCHEMA) /\ policy_of (js "sha256sum") = Some (only SHA256SUM_SCHEMA).
Proof. split_and!; reflexivity. Qed.

(** The schemas of the file commands look at every argument. *)
Lemma file_schema_ok name policy args arg :
  In name FILE_COMMANDS -> policy_of (js name) = Some policy ->
  safeParse (schema policy) (Some (JArr (map JStr args))) = true -> arg ∈ args ->
  is_flag arg = true \/ (name = "chmod"%string /\ matches (between 3 4 (cls "0-7")) arg = true) \/
  validatePath arg SYSTEM_JAILS = true.
Proof.
  intros Hn Hp Hs Hin. destruct file_policies as (P1 & P2 & P3 & P4 & P5 & P6). unfold FILE_COMMANDS in Hn.
  destruct Hn as [<-|[<-|[<-|[<-|[<-|[<-|[]]]]]]]; rewrite ?P1, ?P2, ?P3, ?P4, ?P5, ?P6 in Hp; injection Hp as <-;
    pose proof Hs as Hs0; apply superRefine_ok in Hs.
  - unfold mkdir_args in Hs. destruct args as [|f [|p [|]]]; try done.
    + apply list_elem_of_singleton in Hin as ->. auto.
    + apply andb_true_iff in Hs as [Hf Hp]. apply bool_decide_eq_true in Hf as ->.
      apply elem_of_cons in Hin as [->|Hin]; [by left|]. apply list_elem_of_singleton in Hin as ->. auto.
  - destruct (cp_args_ok _ _ Hs Hin); auto.
  - destruct (cp_args_ok _ _ Hs Hin); auto.
  - unfold chmod_args in Hs. destruct args as [|m [|p [|]]]; try done.
    apply andb_true_iff in Hs as [Hm Hp].
    apply elem_of_cons in Hin as [->|Hin]; [by right; left|]. apply list_elem_of_singleton in Hin as ->. auto.
  - rewrite forallb_forall in Hs. specialize (Hs arg). destruct (is_flag arg); [by left|].
    right. right. apply Hs. by apply list_elem_of_In.
  - right. right. destruct args as [|a args]; [by inversion Hin|].
    apply strings_length in Hs0. destruct args; [|simpl in Hs0; lia].
    by apply list_elem_of_singleton in Hin as ->.
Qed.

(** ** Properties *)

(** How a command can be whitelisted: by its exact name, or, when it is given
    as a path, as one of the sidecar binaries. *)
Definition named_by (cmd : jsstr) (name : string) : Prop :=
  (In name WHITELISTED_COMMANDS /\ (cmd = js name \/ (47 ∉ cmd /\ 92 ∉ cmd /\ basename cmd = js name))) \/
  (In name PATH_RESOLVABLE_COMMANDS /\ In name WHITELISTED_COMMANDS /\ strip_exe (basename cmd) = js name).

Lemma listed_spec l s : listed l s = true <-> exists name, In name l /\ s = js name.
Proof.
  unfold listed. rewrite existsb_exists. split.
  - intros (x & Hx & E). apply bool_decide_eq_true in E. eauto.
  - intros (x & Hx & ->). exists x. split; [done|]. by apply bool_decide_eq_true.
Qed.

Lemma whitelisted_named cmd : isWhitelisted cmd = true -> exists name, named_by cmd name.
Proof.
  unfold isWhitelisted. destruct (listed WHITELISTED_COMMANDS cmd) eqn:E.
  - apply listed_spec in E as (n & Hn & ->). intros _. exists n. left. auto.
  - case_bool_step.
    + intros (n & Hn & Hb)%listed_spec. apply andb_true_iff in Heqb as [H1 H2].
      apply negb_true_iff in H1, H2. exists n. left. split; [done|]. right.
      split_and!; [..|done]; intros Hin%includes_char; [change (js "/") with [47] in H1|]; congruence.
    + intros [(n & Hn & Hb)%listed_spec (m & Hm & Hb')%listed_spec]%andb_true_iff. exists n. right.
      rewrite Hb in Hb'. apply js_inj in Hb' as <-. auto.
Qed.

(** C23: only vetted processes are started: whenever [execute] or
    [executeAsync] starts a process, the command is on the whitelist by its
    exact name, or is a path to one of the sidecar binaries; the process is the
    command with exactly the given arguments, or sudo -n in front of it and
    then only when not running as root; the command has a policy and the
    arguments satisfy its schema; and no argument contains any of ; & | > < `
    $ !, except the fixed shapes of [sh] and the JSON payloads of sentinel,
    ebpf and analyzer. *)
Theorem spawned_vetted root cmd args prog argv :
  spawned root cmd args = Some (prog, argv) ->
  (exists name, named_by cmd name) /\
  ((prog = cmd /\ argv = args) \/ (root = false /\ prog = js "sudo" /\ argv = js "-n" :: cmd :: args)) /\
  exists policy,
    (policy_of cmd = Some policy \/ policy_of (basename cmd) = Some policy) /\
    safeParse (schema policy) (Some (JArr (map JStr args))) = true /\
    forall arg, arg ∈ args ->
      Forall (fun c => c ∉ META) arg \/ (cmd = js "sh" \/ basename cmd = js "sh") \/
      (listed ["sentinel"; "ebpf"; "analyzer"] (basename cmd) = true /\ startsWith arg (js "{") = true).
Proof.
  intros Hsp. destruct (spawned_valid _ _ _ _ _ Hsp) as (Hw & Hv & Hshape). split_and!.
  - by apply whitelisted_named.
  - destruct Hshape as [?|[-> ->]]; [by left|]. unfold spawned in Hsp. rewrite Hw, Hv in Hsp. cbn [negb] in Hsp.
    destruct root; [|by auto]. rewrite andb_false_r in Hsp. injection Hsp as Hc Ha.
    exfalso. apply (f_equal length) in Ha. simpl in Ha. lia.
  - destruct (validateArguments_ok cmd args Hv) as (policy & Hp & Hs & Hall). exists policy.
    split_and!; [tauto|done|]. intros arg Hin.
    destruct (validateArgument_meta _ _ _ _ (Hall arg Hin)) as [Ho|[Hj|Hm]]; [|tauto..].
    right. left. destruct Hp as [Hp|[_ Hp]]; destruct (policy_js _ _ Hp) as [n Hn]; rewrite Hn in *;
      apply policy_sh in Hp; try done; subst n; auto.
Qed.

(** What is known of a path against a jail: the file that an existing path
    leads to with all links followed; for a new name in an existing directory
    the directory with all links followed and the name in it; when the
    directory is missing too, only the text of the path. *)
Definition jailed (jail p : jsstr) : Prop :=
  let n := normalize p in
  (forall r, realPathSync n = Some r -> below (resolve jail) (resolve r)) /\
  (forall d, realPathSync n = None -> realPathSync (dirname n) = Some d -> below (resolve jail) (resolve (join_path d (lastComponent [] n)))) /\
  (realPathSync n = None -> realPathSync (dirname n) = None -> below (resolve jail) (resolve (resolve n))).

Lemma real_jailed jail p : below (resolve jail) (resolve (realPathOf (normalize p))) -> jailed jail p.
Proof.
  unfold realPathOf, jailed. cbv zeta. destruct (realPathSync (normalize p)) as [r|].
  - intros Hb. split_and!; [intros ? [= <-]; exact Hb|discriminate|discriminate].
  - destruct (realPathSync (dirname (normalize p))) as [d|]; intros Hb; (split_and!; [discriminate| |]);
      [intros ? _ [= <-]; exact Hb|discriminate|discriminate|intros _ _; exact Hb].
Qed.

(** C28: when mkdir, cp, mv, chmod, ls or sha256sum is started, no argument
    contains a shell metacharacter, parenthesis or line break, and every
    argument is an option, the octal mode of chmod, or a path in one of the
    system jails: an existing file is there with all links followed; a new
    name is there when the links of its directory are followed.  Of a path
    whose directory is missing too only the text is known to be below the
    jail, and rm and cat are not among these commands. *)
Theorem file_commands_jailed root name args prog argv :
  In name FILE_COMMANDS -> spawned root (js name) args = Some (prog, argv) ->
  forall arg, arg ∈ args ->
    Forall (fun c => c ∉ META_SPACE) arg /\
    (is_flag arg = true \/ (name = "chmod"%string /\ matches (between 3 4 (cls "0-7")) arg = true) \/
     exists jail, jail ∈ SYSTEM_JAILS /\ jailed jail arg).
Proof.
  intros Hn Hsp arg Hin. destruct (spawned_valid _ _ _ _ _ Hsp) as (_ & Hv & _).
  destruct (validateArguments_ok _ _ Hv) as (policy & Hp & Hs & Hall). split.
  - assert (listed PATH_SENSITIVE_COMMANDS (js name) = true) as Hsens.
    { apply listed_spec. exists name. split; [|done]. simpl in Hn |- *. tauto. }
    specialize (Hall arg Hin). rewrite Hsens, orb_true_r in Hall. unfold validateArgument in Hall.
    destruct (find _ _); [done|]. case_bool_step; [done|]. unfold validateSensitiveArgument in Hall.
    destruct (contains META_SPACE arg) eqn:E; [done|]. by apply contains_false.
  - assert (policy_of (js name) = Some policy) as Hp'.
    { destruct Hp as [Hp|[Hp _]]; [done|]. destruct file_policies as (P1 & P2 & P3 & P4 & P5 & P6).
      destruct Hn as [<-|[<-|[<-|[<-|[<-|[<-|[]]]]]]]; congruence. }
    destruct (file_schema_ok name policy args arg Hn Hp' Hs Hin) as [|[|Hj]]; [by auto..|].
    right. right. destruct (validatePath_jailed arg SYSTEM_JAILS Hj) as (_ & _ & Hb).
    destruct Hb as (jail & Hjail & Hb); [done|]. exists jail. split; [done|by apply real_jailed].
Qed.

(** Splitting a word of a concatenation. *)
Lemma lang_seqs_cons r rs w : lang (seqs (r :: rs)) w -> exists a b, w = a ++ b /\ lang r a /\ lang (seqs rs) b.
Proof. apply lang_seq_inv. Qed.

Ltac split_word H :=
  let a := fresh "w" in let b := fresh "rest" in let Ha := fresh "Hw" in
  apply lang_seqs_cons in H as (a & b & -> & Ha & H).

(** A quoted body without a way out of the quotes: quote-free units and the
    escape sequence. *)
Definition quoted_body : regex := Star (Alt not_quote (lit "'\''")).

Lemma sh_policy : exists f, policy_of (js "sh") = Some
  {| schema := superRefine (strings 2) f; blockedStrings := []; schemaOwnsArgumentValidation := true |} /\ f = sh_args.
Proof. eexists. split; reflexivity. Qed.

(** What reaches a shell: [sh] is only ever started as sh -c with one
    command, which writes a quoted text with a single redirection, either to
    /proc/N/comm, the text free of quotes, or, after an optional umask, to a
    profile file directly inside /var/lib/cts/tmp whose name has no separator,
    the quotes of the text all escaped. *)
Theorem sh_fixed_shapes root args prog argv :
  spawned root (js "sh") args = Some (prog, argv) ->
  exists command, args = [js "-c"; command] /\
    ((exists body pid, command = js "echo '" ++ body ++ js "' > /proc/" ++ pid ++ js "/comm" /\
        body <> [] /\ 39 ∉ body /\ pid <> [] /\ Forall (fun c => is_digit c = true) pid) \/
     (exists umask body name,
        command = umask ++ js "echo '" ++ body ++ js "' > /var/lib/cts/tmp/cts-profile-" ++ name ++ js ".profile" /\
        (umask = [] \/ umask = js "umask 077 && ") /\ lang quoted_body body /\
        name <> [] /\ 47 ∉ name /\ 39 ∉ name)).
Proof.
  intros Hsp. destruct (spawned_valid _ _ _ _ _ Hsp) as (_ & Hv & _).
  destruct (validateArguments_ok _ _ Hv) as (policy & Hp & Hs & _).
  destruct sh_policy as (f & Hpol & ->). destruct Hp as [Hp|[Hp _]]; rewrite Hpol in Hp; [|done].
  injection Hp as <-. apply superRefine_ok in Hs. unfold sh_args in Hs.
  destruct args as [|a [|command [|]]]; try done. apply andb_true_iff in Hs as [Ha Hc].
  apply bool_decide_eq_true in Ha as ->. exists command. split; [done|].
  apply orb_true_iff in Hc as [Hc|Hc]; apply matches_lang in Hc; [left|right].
  - split_word Hc. split_word Hc. split_word Hc. split_word Hc. split_word Hc.
    apply lang_eps in Hc as ->. apply lang_str in Hw, Hw1, Hw3. apply lang_plus_cls in Hw0, Hw2.
    exists w0, w2. subst w w1 w3. rewrite app_nil_r. destruct Hw0 as [Hb1 Hb2], Hw2 as [Hp1 Hp2].
    split_and!; [done..| |done|].
    + intros Hin. rewrite Forall_forall in Hb2. by specialize (Hb2 39 Hin).
    + eapply Forall_impl; [exact Hp2|]. intros c Hcc. change (in_class [(48, 57)] c = true) in Hcc.
      unfold in_class in Hcc. cbn [existsb fst snd] in Hcc. unfold is_digit. lia.
  - split_word Hc. split_word Hc. split_word Hc. split_word Hc. split_word Hc. split_word Hc.
    apply lang_eps in Hc as ->. apply lang_str in Hw0, Hw2, Hw4. apply lang_plus_cls in Hw3 as [Hn1 Hn2].
    exists w, w1, w3. subst w0 w2 w4. rewrite app_nil_r. split_and!; [done| |done|done|..].
    + apply lang_alt in Hw as [Hw|Hw]; [right|left]; [by apply lang_str in Hw|by apply lang_eps in Hw].
    + intros Hin. rewrite Forall_forall in Hn2. by specialize (Hn2 47 Hin).
    + intros Hin. rewrite Forall_forall in Hn2. by specialize (Hn2 39 Hin).
Qed.

(** An argument with a sequence the policy blocks is refused. *)
Lemma blocked_refused root cmd p args arg b : policy_of cmd = Some p -> b ∈ blockedStrings p -> arg ∈ args ->
  includes arg b = true -> spawned root cmd args = None.
Proof.
  intros Hp Hb Hin Hi. destruct (spawned root cmd args) as [[prog argv]|] eqn:Hsp; [|done]. exfalso.
  destruct (spawned_valid _ _ _ _ _ Hsp) as (_ & Hv & _). destruct (validateArguments_ok _ _ Hv) as (q & Hq & _ & Hall).
  destruct Hq as [Hq|[Hq _]]; rewrite Hp in Hq; [|done]. injection Hq as <-. specialize (Hall arg Hin). unfold validateArgument in Hall.
  destruct (find (fun b => includes arg b) (blockedStrings p)) as [c|] eqn:Ef; [done|].
  apply list_elem_of_In in Hb. pose proof (find_none _ _ Ef _ Hb) as Hn. cbv beta in Hn. congruence.
Qed.

Lemma ssh_policy : exists s, policy_of (js "ssh") = Some s /\ js "&&" ∈ blockedStrings s.
Proof. eexists. split; [reflexivity|]. by left. Qed.

(** Two commands the policies mean to allow are always refused: netstat is
    whitelisted but has no policy; and an ssh argument of the provisioning
    shape, which the schema of ssh accepts, contains sequences that the same
    policy blocks. *)
Theorem unreachable_commands root args arg :
  basename (js "netstat") = js "netstat" ->
  spawned root (js "netstat") args = None /\
  (arg ∈ args -> matches PROVISIONING_REGEX arg = true -> spawned root (js "ssh") args = None).
Proof.
  intros Hb. split.
  - unfold spawned. case_bool_step; [done|]. unfold validateArguments. rewrite Hb. reflexivity.
  - intros Hin Hm. destruct ssh_policy as (p & Hpol & Hbl). apply (blocked_refused root _ p args arg (js "&&")); try done.
    apply matches_lang in Hm. split_word Hm. apply lang_str in Hw as ->.
    apply includes_spec. exists (js "chmod 600 /etc/cts.env "),
      (js " export $(grep -v '^#' /etc/cts.env | xargs -d " ++ rest). reflexivity.
Qed.
End executor.

(** ** Concrete runs *)

#[local] Instance plain_paths : StdPath :=
  {| normalize := fun p => p; join_path := fun a b => a ++ js "/" ++ b; resolve := fun p => p;
     dirname := fun p => p; realPathSync := fun p => Some p |}.

Definition base0 (p : jsstr) : jsstr := List.last (split p (js "/")) [].

Definition scan_shadow : Json := JObj [("type", JStr (js "SCAN")); ("paths", JArr [JStr (js "/etc/shadow")])].
Definition scan_text : jsstr :=
  js "{" ++ [34] ++ js "type" ++ [34] ++ js ":" ++ [34] ++ js "SCAN" ++ [34] ++ js "," ++ [34] ++ js "paths" ++ [34]
  ++ js ":[" ++ [34] ++ js "/etc/shadow" ++ [34] ++ js "]}".
Definition json0 (s : jsstr) : option Json := if bool_decide (s = scan_text) then Some scan_shadow else None.

(** Two gaps in the path checks: rm accepts a path that starts and ends
    like a profile file and climbs out of the directory with ".." in between;
    and paths listed in an array of a JSON payload are not extracted, so an
    analyzer payload naming /etc/shadow that way is started although the same
    path alone is refused. *)
Theorem unchecked_paths :
  spawned base0 json0 true (js "rm") [js "/var/lib/cts/tmp/cts-profile-x/../../../../../etc/apparmor.d/y.profile"]
    = Some (js "rm", [js "/var/lib/cts/tmp/cts-profile-x/../../../../../etc/apparmor.d/y.profile"]) /\
  spawned base0 json0 true (js "analyzer") [scan_text] = Some (js "analyzer", [scan_text]) /\
  validatePath (js "/etc/shadow") SYSTEM_JAILS = false /\
  (forall ctx l fuel, extractPathsFromJson fuel ctx (JArr (map JStr l)) = []).
Proof.
  split_and!; [vm_compute; reflexivity..|].
  intros ctx l [|fuel]; [done|]. simpl. induction l as [|s l IH]; simpl; [done|].
  rewrite IH. by destruct fuel.
Qed.

(** A file system with a link from /tmp/l to /etc in which nothing else exists. *)
Definition linked_paths : StdPath :=
  {| normalize := fun p => p; join_path := fun a b => a ++ js "/" ++ b; resolve := fun p => p;
     dirname := fun p => join (js "/") (removelast (split p (js "/")));
     realPathSync := fun p => if bool_decide (p = js "/tmp/l") then Some (js "/etc") else None |}.

(** The gap behind a missing directory: mkdir -p is refused for a name directly
    below a link out of the jail, and is started for a name two levels below
    it, where it creates both directories outside of the jail. *)
Theorem missing_parent_escapes :
  @spawned linked_paths _ base0 json0 true (js "mkdir") [js "-p"; js "/tmp/l/a"] = None /\
  @spawned linked_paths _ base0 json0 true (js "mkdir") [js "-p"; js "/tmp/l/a/b"] = Some (js "mkdir", [js "-p"; js "/tmp/l/a/b"]).
Proof. split; vm_compute; reflexivity. Qed.

Lemma spawned_vetted_witness :
  (exists name, named_by base0 (js "ls") name) /\
  ((js "ls" = js "ls" /\ [js "-la"; js "/tmp/x"] = [js "-la"; js "/tmp/x"]) \/
   (true = false /\ js "ls" = js "sudo" /\ [js "-la"; js "/tmp/x"] = js "-n" :: js "ls" :: [js "-la"; js "/tmp/x"])) /\
  exists policy,
    (policy_of json0 (js "ls") = Some policy \/ policy_of json0 (base0 (js "ls")) = Some policy) /\
    safeParse (schema policy) (Some (JArr (map JStr [js "-la"; js "/tmp/x"]))) = true /\
    forall arg, arg ∈ [js "-la"; js "/tmp/x"] ->
      Forall (fun c => c ∉ META) arg \/ (js "ls" = js "sh" \/ base0 (js "ls") = js "sh") \/
      (listed ["sentinel"; "ebpf"; "analyzer"] (base0 (js "ls")) = true /\ startsWith arg (js "{") = true).
Proof. apply (spawned_vetted base0 json0 true). vm_compute. reflexivity. Defined.

Lemma file_commands_jailed_witness :
  Forall (fun c => c ∉ META_SPACE) (js "/tmp/a") /\
  (is_flag (js "/tmp/a") = true \/
   ("cp" = "chmod" /\ matches (between 3 4 (cls "0-7")) (js "/tmp/a") = true)%string \/
   exists jail, jail ∈ SYSTEM_JAILS /\ jailed jail (js "/tmp/a")).
Proof.
  apply (file_commands_jailed base0 json0 true "cp" [js "/tmp/a"; js "/tmp/b"] (js "cp") [js "/tmp/a"; js "/tmp/b"]).
  - simpl. tauto.
  - vm_compute. reflexivity.
  - set_solver.
Defined.

Lemma sh_fixed_shapes_witness :
  exists command, [js "-c"; js "echo 'kworker' > /proc/42/comm"] = [js "-c"; command] /\
    ((exists body pid, command = js "echo '" ++ body ++ js "' > /proc/" ++ pid ++ js "/comm" /\
        body <> [] /\ 39 ∉ body /\ pid <> [] /\ Forall (fun c => is_digit c = true) pid) \/
     (exists umask body name,
        command = umask ++ js "echo '" ++ body ++ js "' > /var/lib/cts/tmp/cts-profile-" ++ name ++ js ".profile" /\
        (umask = [] \/ umask = js "umask 077 && ") /\ lang quoted_body body /\
        name <> [] /\ 47 ∉ name /\ 39 ∉ name)).
Proof.
  apply (sh_fixed_shapes base0 json0 true _ (js "sh") [js "-c"; js "echo 'kworker' > /proc/42/comm"]).
  vm_compute. reflexivity.
Defined.

Lemma unreachable_commands_witness :
  spawned base0 json0 true (js "netstat") [js "-an"] = None /\
  (js "-an" ∈ [js "-an"] -> matches PROVISIONING_REGEX (js "-an") = true ->
   spawned base0 json0 true (js "ssh") [js "-an"] = None).
Proof. apply (unreachable_commands base0 json0 true [js "-an"] (js "-an")). vm_compute. reflexivity. Defined.
End Executor.
