(* ===== verification/Kv.v ===== *)
(** * The key-value repository

    Models [src/orchestrator/infrastructure/persistence/repositories/kv_repository.ts]:
    [KvRepository] with its read-only switch, the optimistic write loop of
    [set] and [delete] and the paginated listing.  [Deno.Kv] is code of the
    runtime: it is the interface [DenoKv], one prefix of the store at a time
    (a repository only addresses keys [[prefix, id]]), with its documented
    laws; [mem_kv] is a concrete instance.  [Repository] is the source's
    interface of that name with the laws its clients rely on; [kv_repository]
    discharges them. *)

From S2P Require Import Prelude Result JsString.

(** The runtime's store.  An entry is what [get] returns: the value (or null)
    with its versionstamp. *)
Class DenoKv (T : Type) := {
  kv : Type;
  entry : Type;
  entry_value : entry -> option T;
  kv_get : kv -> jsstr -> entry;
  (** [atomic().check(e).set(k, v).commit()], or [.delete(k)] for [None]; no
      state is [{ ok: false }] *)
  kv_commit : kv -> jsstr -> entry -> option T -> option kv;
  (** the entries of the prefix, in the order [list] yields them *)
  kv_entries : kv -> list (jsstr * T);
  (** a commit goes through exactly when the checked entry is current *)
  kv_commit_check s k e m : is_Some (kv_commit s k e m) <-> kv_get s k = e;
  kv_commit_value s k e m s' : kv_commit s k e m = Some s' -> entry_value (kv_get s' k) = m;
  kv_commit_other s k e m s' k' : kv_commit s k e m = Some s' -> k' <> k -> kv_get s' k' = kv_get s k';
  kv_entries_nodup s : NoDup (kv_entries s).*1;
  kv_entries_get s k v : (k, v) ∈ kv_entries s <-> entry_value (kv_get s k) = Some v;
}.

(** An in-memory store that numbers its commits. *)
Record mem (T : Type) := mkMem { cells : gmap jsstr (T * Z); stamp : Z }.
Arguments mkMem {T} _ _.
Arguments cells {T} _.
Arguments stamp {T} _.

Definition mem_commit `{EqDecision T} (s : mem T) (k : jsstr) (e : option (T * Z)) (m : option T)
  : option (mem T) :=
  if decide (cells s !! k = e) then
    Some (mkMem (partial_alter (fun _ => option_map (fun v => (v, stamp s)) m) k (cells s)) (stamp s + 1))
  else None.

#[export, refine] Instance mem_kv `{EqDecision T} : DenoKv T := {|
  kv := mem T;
  entry := option (T * Z);
  entry_value := option_map fst;
  kv_get := fun s k => cells s !! k;
  kv_commit := mem_commit;
  kv_entries := fun s => (fun p => (p.1, p.2.1)) <$> map_to_list (cells s);
|}.
Proof.
  - intros s k e m. unfold mem_commit. case_decide; [|rewrite <-not_eq_None_Some]; naive_solver.
  - intros s k e m s'. unfold mem_commit. case_decide; intros; simplify_eq/=.
    rewrite lookup_partial_alter_eq. by destruct m.
  - intros s k e m s' k'. unfold mem_commit. case_decide; intros; simplify_eq/=.
    by rewrite lookup_partial_alter_ne.
  - intros s. rewrite <-list_fmap_compose. apply NoDup_fst_map_to_list.
  - intros s k v. rewrite list_elem_of_fmap. split.
    + intros ([k' [v' z]] & ? & Hin%elem_of_map_to_list); simplify_eq/=. by rewrite Hin.
    + intros H. destruct (cells s !! k) as [[v' z]|] eqn:Hc; simplify_eq/=.
      exists (k, (v, z)). split; [done|]. by apply elem_of_map_to_list.
Defined.

Inductive RepoError :=
| PermissionDenied (prefix : jsstr)
| WriteConflict (prefix id : jsstr).

(** The condition of [checkWritePermission], which every repository inherits. *)
Definition writePermission (isReadOnly : bool) (prefix : jsstr) : settled unit RepoError :=
  if isReadOnly && negb (bool_decide (prefix = js "audit")) && negb (bool_decide (prefix = js "incidents"))
  then Rejected (PermissionDenied prefix) else Resolved tt.

Module KvRepository.
Section repo.
Context {T : Type} `{DenoKv T}.

(** The static [isReadOnly] flag, the prefix and the store. *)
Record KvRepository := mkRepo { isReadOnly : bool; prefix : jsstr; store : kv }.

Definition setReadOnly (value : bool) (r : KvRepository) : KvRepository :=
  mkRepo value (prefix r) (store r).

Definition with_store (r : KvRepository) (s : kv) : KvRepository := mkRepo (isReadOnly r) (prefix r) s.

Definition checkWritePermission (r : KvRepository) : settled unit RepoError :=
  writePermission (isReadOnly r) (prefix r).

Definition get (r : KvRepository) (id : jsstr) : option T := entry_value (kv_get (store r) id).

Definition maxAttempts : nat := 5.

(** The loop of [set] and [delete].  Other writers run between any two of its
    awaits: [env k] is what they do before this call's [k]-th access. *)
Fixpoint writeLoop (remaining attempts : nat) (env : nat -> kv -> kv) (s : kv) (id : jsstr)
  (m : option T) : kv * bool :=
  match remaining with
  | O => (s, false)
  | S remaining =>
      let s0 := env (2 * attempts)%nat s in
      let e := kv_get s0 id in
      let s1 := env (2 * attempts + 1)%nat s0 in
      match kv_commit s1 id e m with
      | Some s' => (s', true)
      | None => writeLoop remaining (S attempts) env s1 id m
      end
  end.

Definition write (env : nat -> kv -> kv) (r : KvRepository) (id : jsstr) (m : option T)
  : KvRepository * settled unit RepoError :=
  match checkWritePermission r with
  | Rejected e => (r, Rejected e)
  | Resolved _ =>
      let '(s', committed) := writeLoop maxAttempts 0 env (store r) id m in
      (with_store r s', if committed then Resolved tt else Rejected (WriteConflict (prefix r) id))
  end.

Definition set (env : nat -> kv -> kv) (r : KvRepository) (id : jsstr) (data : T)
  : KvRepository * settled unit RepoError := write env r id (Some data).

Definition delete (env : nat -> kv -> kv) (r : KvRepository) (id : jsstr)
  : KvRepository * settled unit RepoError := write env r id None.

(** The entries that follow the one at the cursor. *)
Fixpoint after (es : list (jsstr * T)) (cursor : jsstr) : list (jsstr * T) :=
  match es with
  | [] => []
  | e :: es => if bool_decide (e.1 = cursor) then es else after es cursor
  end.

(** [kv.list({ prefix }, { limit, cursor })] *)
Definition page (s : kv) (limit : nat) (cursor : option jsstr) : list (jsstr * T) :=
  take limit (match cursor with None => kv_entries s | Some c => after (kv_entries s) c end).

(** The loop of [listPaginated]: the iterator's cursor is the key it yielded
    last, and empty when it yielded nothing. *)
Fixpoint pages (fuel : nat) (s : kv) (batchSize : nat) (cursor : option jsstr) : option (list T) :=
  match fuel with
  | O => None
  | S fuel =>
      let batch := page s batchSize cursor in
      let cursor := fst <$> last batch in
      if negb (bool_decide (is_Some cursor)) || (length batch <? batchSize)%nat
      then Some (batch.*2)
      else app (batch.*2) <$> pages fuel s batchSize cursor
  end.

Definition listPaginated (r : KvRepository) (batchSize : nat) : option (list T) :=
  pages (S (length (kv_entries (store r)))) (store r) batchSize None.

Definition list_ (r : KvRepository) : list T := default [] (listPaginated r 500).

(** ** The write loop *)

(** The store after the first [k] steps of the other writers. *)
Fixpoint env_run (env : nat -> kv -> kv) (k : nat) (s : kv) : kv :=
  match k with O => s | S k => env k (env_run env k s) end.

(** Attempt [i] lost: another writer changed the entry after it was read. *)
Definition lost (env : nat -> kv -> kv) (s : kv) (id : jsstr) (i : nat) : Prop :=
  kv_get (env_run env (2 * i + 2) s) id <> kv_get (env_run env (2 * i + 1) s) id.

Lemma commit_None s k e m : kv_commit s k e m = None -> kv_get s k <> e.
Proof. intros E%eq_None_not_Some He. by apply E, kv_commit_check. Qed.

Lemma writeLoop_spec env s id m n : forall a,
  (forall i, (i < a)%nat -> lost env s id i) ->
  match writeLoop n a env (env_run env (2 * a) s) id m with
  | (s', true) => exists j, (j < a + n)%nat /\
      kv_get (env_run env (2 * j + 2) s) id = kv_get (env_run env (2 * j + 1) s) id /\
      kv_commit (env_run env (2 * j + 2) s) id (kv_get (env_run env (2 * j + 1) s) id) m = Some s' /\
      (forall i, (i < j)%nat -> lost env s id i)
  | (s', false) => s' = env_run env (2 * (a + n)) s /\ (forall i, (i < a + n)%nat -> lost env s id i)
  end.
Proof.
  induction n as [|n IH]; intros a Ha; simpl writeLoop.
  { split; [f_equal; lia|]. intros i Hi. apply Ha. lia. }
  change (env (a + (a + 0))%nat (env_run env (a + (a + 0)) s)) with (env_run env (S (2 * a)) s).
  replace (S (2 * a)) with (2 * a + 1)%nat by lia.
  replace (a + (a + 0) + 1)%nat with (2 * a + 1)%nat by lia.
  change (env (2 * a + 1)%nat (env_run env (2 * a + 1) s)) with (env_run env (S (2 * a + 1)) s).
  replace (S (2 * a + 1)) with (2 * a + 2)%nat by lia.
  destruct (kv_commit _ _ _ _) as [s'|] eqn:Ec.
  - exists a. split_and!; [lia| |done|done]. eapply kv_commit_check, mk_is_Some, Ec.
  - specialize (IH (S a)). replace (2 * S a)%nat with (2 * a + 2)%nat in IH by lia.
    replace (S a + n)%nat with (a + S n)%nat in IH by lia. apply IH.
    intros i Hi. destruct (decide (i = a)) as [->|]; [by apply commit_None in Ec|apply Ha; lia].
Qed.

(** ** Listing *)

Lemma after_app l1 e l2 : NoDup ((l1 ++ e :: l2).*1) -> after (l1 ++ e :: l2) e.1 = l2.
Proof.
  induction l1 as [|x l1 IH]; simpl; intros Hnd.
  - by rewrite bool_decide_eq_true_2.
  - apply NoDup_cons in Hnd as [Hx Hnd]. rewrite bool_decide_eq_false_2; [by apply IH|].
    intros E. apply Hx. rewrite E, fmap_app, fmap_cons. set_solver.
Qed.

(** From a point of the listing on, the loop yields what is left. *)
Lemma pages_rest s b : (0 < b)%nat -> forall fuel l1 l2 cursor,
  kv_entries s = l1 ++ l2 ->
  match cursor with None => l1 = [] | Some c => fst <$> last l1 = Some c end ->
  (length l2 < fuel)%nat ->
  pages fuel s b cursor = Some (l2.*2).
Proof.
  intros Hb. induction fuel as [|fuel IH]; intros l1 l2 cursor Hs Hc Hf; [lia|]. simpl.
  assert (page s b cursor = take b l2) as ->.
  { unfold page. destruct cursor as [c|]; [|by rewrite Hs, Hc].
    destruct l1 as [|e0 l1 _] using rev_ind; [done|]. rewrite last_snoc in Hc; simplify_eq/=.
    rewrite Hs, <-app_assoc. simpl. rewrite after_app; [done|].
    pose proof (kv_entries_nodup s) as Hnd. by rewrite Hs, <-app_assoc in Hnd. }
  rewrite length_take.
  destruct (Nat.ltb_spec (b `min` length l2) b) as [Hlt|Hge]; rewrite ?orb_true_r.
  { by rewrite take_ge by lia. }
  assert (is_Some (last (take b l2))) as [e Elast].
  { apply last_is_Some. intros E%(f_equal length). rewrite length_take in E. simpl in E. lia. }
  rewrite Elast. simpl.
  rewrite (IH (l1 ++ take b l2) (drop b l2)).
  - simpl. by rewrite <-fmap_app, take_drop.
  - by rewrite <-app_assoc, take_drop.
  - rewrite last_app, Elast. done.
  - rewrite length_drop. lia.
Qed.

Lemma list_entries r : list_ r = (kv_entries (store r)).*2.
Proof.
  unfold list_, listPaginated.
  rewrite (pages_rest (store r) 500 ltac:(lia) _ [] (kv_entries (store r)) None); [done|done|done|lia].
Qed.

(** ** What a write does under interference *)

(** Whatever other writers do between the awaits of a [set] or [delete],
    the call has one of three outcomes.  It resolves, having replaced exactly
    the entry it read in one of its five attempts, which nobody changed in
    between, all earlier attempts having been overtaken; or it reports a
    conflict, having written nothing, after five attempts each overtaken by
    another writer of the same key; or the repository is read-only for its
    prefix and nothing happens at all. *)
Theorem write_outcome env r id m :
  match write env r id m with
  | (r', Resolved _) => (checkWritePermission r = Resolved tt) /\ exists j, (j < 5)%nat /\
      kv_get (env_run env (2 * j + 2) (store r)) id = kv_get (env_run env (2 * j + 1) (store r)) id /\
      kv_commit (env_run env (2 * j + 2) (store r)) id
        (kv_get (env_run env (2 * j + 1) (store r)) id) m = Some (store r') /\
      (forall i, (i < j)%nat -> lost env (store r) id i)
  | (r', Rejected (WriteConflict _ _)) => checkWritePermission r = Resolved tt /\
      store r' = env_run env 10 (store r) /\ (forall i, (i < 5)%nat -> lost env (store r) id i)
  | (r', Rejected (PermissionDenied p)) => r' = r /\ p = prefix r /\ isReadOnly r = true /\
      prefix r <> js "audit" /\ prefix r <> js "incidents"
  end.
Proof.
  unfold write. destruct (checkWritePermission r) as [[]|e] eqn:Ep.
  - pose proof (writeLoop_spec env (store r) id m maxAttempts 0 ltac:(lia)) as W.
    change (env_run env (2 * 0) (store r)) with (store r) in W.
    by destruct (writeLoop _ _ _ _ _ _) as [s' []].
  - unfold checkWritePermission, writePermission in Ep. case_bool_step; simplify_eq. by reflect_bools.
Qed.

(** Without interference the first attempt commits. *)
Definition quiet (_ : nat) (s : kv) : kv := s.

Definition view (r : KvRepository) : gmap jsstr T := list_to_map (kv_entries (store r)).

Lemma view_get r id : view r !! id = get r id.
Proof.
  unfold view, get. apply option_eq. intros v. rewrite <-kv_entries_get.
  symmetry. apply elem_of_list_to_map. apply kv_entries_nodup.
Qed.

Lemma quiet_write r id m : checkWritePermission r = Resolved tt ->
  exists r', write quiet r id m = (r', Resolved tt) /\ checkWritePermission r' = Resolved tt /\
    view r' = partial_alter (fun _ => m) id (view r).
Proof.
  intros Hp. unfold write. rewrite Hp. simpl.
  destruct (proj2 (kv_commit_check (store r) id (kv_get (store r) id) m) eq_refl) as [s' Es].
  unfold quiet at 1 2 3. rewrite Es. eexists. split_and!; [done|done|].
  apply map_eq. intros k. rewrite view_get. unfold get. simpl. destruct (decide (k = id)) as [->|].
  - by rewrite lookup_partial_alter_eq, (kv_commit_value _ _ _ _ _ Es).
  - rewrite lookup_partial_alter_ne by done. by rewrite (kv_commit_other _ _ _ _ _ _ Es), view_get.
Qed.

Lemma denied_write env r id m : checkWritePermission r <> Resolved tt ->
  exists e, write env r id m = (r, Rejected e).
Proof. unfold write. destruct (checkWritePermission r) as [[]|e]; naive_solver. Qed.

Lemma list_view r : list_ r ≡ₚ (map_to_list (view r)).*2.
Proof.
  rewrite list_entries. unfold view. rewrite map_to_list_to_map; [done|]. apply kv_entries_nodup.
Qed.
End repo.
Arguments KvRepository T {_}.
End KvRepository.

(** ** The interface [Repository<T>] *)

(** A repository is a finite map of ids that can be read, overwritten and
    listed; while writes are refused, they reject and change nothing. *)
Class Repository (St T : Type) := {
  repo_get : St -> jsstr -> option T;
  repo_set : St -> jsstr -> T -> St * settled unit RepoError;
  repo_delete : St -> jsstr -> St * settled unit RepoError;
  repo_list : St -> list T;
  repo_view : St -> gmap jsstr T;
  repo_writable : St -> Prop;
  repo_get_view s id : repo_get s id = repo_view s !! id;
  repo_set_ok s id v : repo_writable s -> exists s', repo_set s id v = (s', Resolved tt) /\
    repo_writable s' /\ repo_view s' = <[id := v]> (repo_view s);
  repo_set_denied s id v : ~ repo_writable s -> exists e, repo_set s id v = (s, Rejected e);
  repo_delete_ok s id : repo_writable s -> exists s', repo_delete s id = (s', Resolved tt) /\
    repo_writable s' /\ repo_view s' = delete id (repo_view s);
  repo_delete_denied s id : ~ repo_writable s -> exists e, repo_delete s id = (s, Rejected e);
  repo_list_view s : repo_list s ≡ₚ (map_to_list (repo_view s)).*2;
}.

(** [KvRepository<T> implements Repository<T>]. *)
#[export] Instance kv_repository {T} `{DenoKv T} : Repository (KvRepository.KvRepository T) T := {|
  repo_get := KvRepository.get;
  repo_set := KvRepository.set KvRepository.quiet;
  repo_delete := KvRepository.delete KvRepository.quiet;
  repo_list := KvRepository.list_;
  repo_view := KvRepository.view;
  repo_writable := fun r => KvRepository.checkWritePermission r = Resolved tt;
  repo_get_view := fun r id => eq_sym (KvRepository.view_get r id);
  repo_set_ok := fun r id v => KvRepository.quiet_write r id (Some v);
  repo_set_denied := fun r id v => KvRepository.denied_write KvRepository.quiet r id (Some v);
  repo_delete_ok := fun r id => KvRepository.quiet_write r id None;
  repo_delete_denied := fun r id => KvRepository.denied_write KvRepository.quiet r id None;
  repo_list_view := KvRepository.list_view;
|}.

(** The listing pages through the whole prefix: for every batch size from
    one up the loop ends, and yields every stored value exactly once, in the
    order of the store. *)
Theorem listing_complete {T} `{DenoKv T} (r : KvRepository.KvRepository T) (batchSize : nat) :
  (0 < batchSize)%nat ->
  KvRepository.listPaginated r batchSize = Some ((kv_entries (KvRepository.store r)).*2) /\
  KvRepository.list_ r ≡ₚ (map_to_list (KvRepository.view r)).*2.
Proof.
  intros Hb. split; [|apply KvRepository.list_view].
  by apply (KvRepository.pages_rest _ _ Hb _ [] _ None); simpl; [|..|lia].
Qed.

Definition mem0 : mem jsstr :=
  mkMem (list_to_map [(js "a", (js "x", 0)); (js "b", (js "y", 1)); (js "c", (js "x", 2))]) 3.

Definition repo0 : KvRepository.KvRepository jsstr :=
  @KvRepository.mkRepo jsstr mem_kv false (js "session") mem0.

Lemma listing_complete_witness :
  (0 < 2)%nat /\
  KvRepository.listPaginated repo0 2 = Some ((kv_entries (KvRepository.store repo0)).*2) /\
  length (kv_entries (KvRepository.store repo0)) = 3%nat.
Proof.
  split; [lia|]. split; [|by vm_compute]. apply (listing_complete repo0 2). lia.
Defined.
