(* ===== verification/Session.v ===== *)
(** * Operator sessions

    Models [src/orchestrator/domain/identity/session.ts] over the interface
    [src/orchestrator/domain/repositories/session_repository.ts] and its
    implementation [.../persistence/kv/kv_session_repository.ts].  A date is
    its number of milliseconds (the ISO text it is stored as denotes it);
    the clock readings and the random UUIDs are arguments. *)

From S2P Require Import Prelude Result JsString Schemas Kv.

Inductive Role := admin | operator | viewer | mesh_peer.

#[export] Instance Role_eq_dec : EqDecision Role.
Proof. solve_decision. Defined.

Section session.
Context {M : Type}.

Record Session := mkSession {
  id : jsstr;
  userId : jsstr;
  role : Role;
  createdAt : Z;
  expiresAt : Z;
  lastSeen : Z;
  csrfToken : jsstr;
  metadata : option M;
}.
End session.
Arguments Session M : clear implicits.

#[export] Instance Session_eq_dec {M} `{EqDecision M} : EqDecision (Session M).
Proof. solve_decision. Defined.

(** The interface the service is written against. *)
Class SessionRepository (St M : Type) := {
  save : St -> Session M -> St * settled unit RepoError;
  getById : St -> jsstr -> option (Session M);
  deleteById : St -> jsstr -> St * settled unit RepoError;
  listAll : St -> list (Session M);
  sessions : St -> gmap jsstr (Session M);
  writable : St -> Prop;
  getById_view s i : getById s i = sessions s !! i;
  save_ok s x : writable s -> exists s', save s x = (s', Resolved tt) /\ writable s' /\
    sessions s' = <[id x := x]> (sessions s);
  save_denied s x : ~ writable s -> exists e, save s x = (s, Rejected e);
  delete_ok s i : writable s -> exists s', deleteById s i = (s', Resolved tt) /\ writable s' /\
    sessions s' = delete i (sessions s);
  delete_denied s i : ~ writable s -> exists e, deleteById s i = (s, Rejected e);
  listAll_view s : listAll s ≡ₚ (map_to_list (sessions s)).*2;
}.

(** [KvSessionRepository extends KvRepository<Session>] *)
#[export] Instance kv_session_repository {St M} `{Repository St (Session M)} : SessionRepository St M := {|
  save := fun s x => repo_set s (id x) x;
  getById := repo_get;
  deleteById := repo_delete;
  listAll := repo_list;
  sessions := repo_view;
  writable := repo_writable;
  getById_view := repo_get_view;
  save_ok := fun s x => repo_set_ok s (id x) x;
  save_denied := fun s x => repo_set_denied s (id x) x;
  delete_ok := repo_delete_ok;
  delete_denied := repo_delete_denied;
  listAll_view := repo_list_view;
|}.

Module SessionService.
Section service.
Context {St M : Type} `{SessionRepository St M}.
Variable ttlHours : Z.

Definition ttl : Z := ttlHours * 60 * 60 * 1000.

Definition createSession (s : St) (uuid csrf : jsstr) (now : Z) (user : jsstr) (r : Role) (meta : option M)
  : St * settled (Session M) RepoError :=
  let session := mkSession uuid user r now (now + ttl) now csrf meta in
  match save s session with
  | (s', Resolved _) => (s', Resolved session)
  | (s', Rejected e) => (s', Rejected e)
  end.

Inductive Invalid := SessionNotFound | SessionExpired.

Definition seen_at (seen : Z) (x : Session M) : Session M :=
  mkSession (id x) (userId x) (role x) (createdAt x) (expiresAt x) seen (csrfToken x) (metadata x).

(** [validateSession(id)]; [env] is what other requests do between its read
    and its write, [now] and [seen] its two readings of the clock. *)
Definition validateSession_with (env : St -> St) (s : St) (i : jsstr) (now seen : Z)
  : St * settled (Session M + Invalid) RepoError :=
  match getById s i with
  | None => (s, Resolved (inr SessionNotFound))
  | Some x =>
      if expiresAt x <? now then
        match deleteById (env s) i with
        | (s', Resolved _) => (s', Resolved (inr SessionExpired))
        | (s', Rejected e) => (s', Rejected e)
        end
      else
        let x' := seen_at seen x in
        match save (env s) x' with
        | (s', Resolved _) => (s', Resolved (inl x'))
        | (s', Rejected e) => (s', Rejected e)
        end
  end.

Definition validateSession (s : St) (i : jsstr) (now seen : Z)
  : St * settled (Session M + Invalid) RepoError := validateSession_with (fun s => s) s i now seen.

Definition validateCsrf (hmac : jsstr -> list Z) (s : St) (i token : jsstr) : bool :=
  match getById s i with
  | None => false
  | Some x => if bool_decide (token = []) then false
              else Compare.secureCompare hmac (Some (csrfToken x)) (Some token)
  end.

Definition revokeSession (s : St) (i : jsstr) : St * settled unit RepoError := deleteById s i.

(** The loop of [cleanupExpired] over the listed sessions. *)
Fixpoint cleanup_loop (s : St) (xs : list (Session M)) (now : Z) (count : Z)
  : St * settled Z RepoError :=
  match xs with
  | [] => (s, Resolved count)
  | x :: xs =>
      if expiresAt x <? now then
        match deleteById s (id x) with
        | (s', Resolved _) => cleanup_loop s' xs now (count + 1)
        | (s', Rejected e) => (s', Rejected e)
        end
      else cleanup_loop s xs now count
  end.

Definition cleanupExpired (s : St) (now : Z) : St * settled Z RepoError :=
  cleanup_loop s (listAll s) now 0.

(** ** Requests, in any order and at any time *)

Inductive op :=
| OCreate (uuid csrf user : jsstr) (r : Role) (meta : option M) (now : Z)
| OValidate (i : jsstr) (now seen : Z)
| ORevoke (i : jsstr)
| OCleanup (now : Z).

Definition step (s : St) (o : op) : St :=
  match o with
  | OCreate uuid csrf user r meta now => fst (createSession s uuid csrf now user r meta)
  | OValidate i now seen => fst (validateSession s i now seen)
  | ORevoke i => fst (revokeSession s i)
  | OCleanup now => fst (cleanupExpired s now)
  end.

Definition run (s : St) (ops : list op) : St := fold_left step ops s.

(** Whether a request leaves the session [i] that expires at [exp] in place. *)
Definition spares (i : jsstr) (exp : Z) (o : op) : bool :=
  match o with
  | OCreate j _ _ _ _ _ => negb (bool_decide (j = i))
  | OValidate j now _ => negb (bool_decide (j = i)) || (now <=? exp)
  | ORevoke j => negb (bool_decide (j = i))
  | OCleanup now => now <=? exp
  end.

(** Every session is stored under its own id. *)
Definition keyed (s : St) : Prop := map_Forall (fun i x => id x = i) (sessions s).

Lemma cleanup_spec xs : forall s n now, writable s ->
  exists s', cleanup_loop s xs now n
               = (s', Resolved (n + Z.of_nat (count (fun x => expiresAt x <? now) xs))) /\
    writable s' /\
    sessions s' = foldl (fun m x => if expiresAt x <? now then delete (id x) m else m) (sessions s) xs.
Proof.
  induction xs as [|x xs IH]; intros s n now Hw; simpl.
  { exists s. split_and!; [by rewrite Z.add_0_r|done|done]. }
  rewrite count_cons. destruct (expiresAt x <? now).
  - destruct (delete_ok s (id x) Hw) as (s1 & -> & Hw1 & Hs1).
    destruct (IH s1 (n + 1) now Hw1) as (s' & -> & ? & Hs'). exists s'. rewrite Hs', Hs1.
    split_and!; [|done|done]. do 2 f_equal. lia.
  - destruct (IH s n now Hw) as (s' & -> & ? & Hs'). by exists s'.
Qed.

(** Deleting the expired sessions of a list one by one filters the map. *)
Lemma foldl_delete_lookup (now : Z) (xs : list (Session M)) : forall (m : gmap jsstr (Session M)) i,
  foldl (fun m x => if expiresAt x <? now then delete (id x) m else m) m xs !! i =
  if existsb (fun x => (expiresAt x <? now) && bool_decide (id x = i)) xs then None else m !! i.
Proof.
  induction xs as [|x xs IH]; intros m i; simpl; [done|]. rewrite IH.
  destruct (expiresAt x <? now); simpl; [|done]. destruct (existsb _ xs); [by rewrite orb_true_r|].
  rewrite orb_false_r. case_bool_decide; subst.
  - by rewrite lookup_delete_eq.
  - by rewrite lookup_delete_ne.
Qed.

Lemma cleanup_lookup s now : writable s -> keyed s ->
  exists s' n, cleanupExpired s now = (s', Resolved n) /\ writable s' /\
    n = Z.of_nat (count (fun x => expiresAt x <? now) (listAll s)) /\
    forall i, sessions s' !! i =
      (x ← sessions s !! i; if expiresAt x <? now then None else Some x).
Proof.
  intros Hw Hk. unfold cleanupExpired. destruct (cleanup_spec (listAll s) s 0 now Hw) as (s' & -> & Hw' & Hs').
  eexists s', _. split_and!; [done|done|lia|]. intros i. rewrite Hs', foldl_delete_lookup.
  assert (forall x, In x (listAll s) <-> exists j, sessions s !! j = Some x) as Hin.
  { intros x. rewrite <-list_elem_of_In, listAll_view, list_elem_of_fmap. split.
    - intros ([j y] & -> & ?%elem_of_map_to_list). by exists j.
    - intros [j Hj%elem_of_map_to_list]. by exists (j, x). }
  destruct (existsb _ _) eqn:E.
  - apply existsb_exists in E as (x & [j Hj]%Hin & [Hx Hi]%andb_true_iff).
    apply bool_decide_eq_true in Hi. rewrite (Hk _ _ Hj) in Hi. subst. by rewrite Hj; simpl; rewrite Hx.
  - destruct (sessions s !! i) as [x|] eqn:Ei; [simpl|done]. destruct (expiresAt x <? now) eqn:Ex; [|done].
    exfalso. assert (existsb (fun x => (expiresAt x <? now) && bool_decide (id x = i)) (listAll s) = true) as E';
      [|by rewrite E in E'].
    apply existsb_exists. exists x. split; [apply Hin; eauto|].
    by rewrite Ex, bool_decide_eq_true_2 by apply (Hk _ _ Ei).
Qed.

(** What one request does to the stored sessions. *)
Definition step_view (m : gmap jsstr (Session M)) (o : op) (i : jsstr) : option (Session M) :=
  match o with
  | OCreate j csrf user r meta now =>
      if decide (j = i) then Some (mkSession j user r now (now + ttl) now csrf meta) else m !! i
  | OValidate j now seen =>
      if decide (j = i) then x ← m !! i; if expiresAt x <? now then None else Some (seen_at seen x)
      else m !! i
  | ORevoke j => if decide (j = i) then None else m !! i
  | OCleanup now => x ← m !! i; if expiresAt x <? now then None else Some x
  end.

Lemma step_spec s o : writable s -> keyed s ->
  writable (step s o) /\ keyed (step s o) /\ forall i, sessions (step s o) !! i = step_view (sessions s) o i.
Proof.
  intros Hw Hk.
  enough (writable (step s o) /\ forall i, sessions (step s o) !! i = step_view (sessions s) o i) as [? E].
  { split_and!; [done| |done]. intros i x Hx. rewrite E in Hx. specialize (Hk i).
    destruct o; simpl in Hx; repeat case_decide; simplify_option_eq; simpl; auto;
      destruct (sessions s !! _); simplify_eq/=; repeat case_bool_step; simplify_eq/=; auto. }
  destruct o as [j csrf user r meta now|j now seen|j|now]; simpl.
  - unfold createSession.
    destruct (save_ok s (mkSession j user r now (now + ttl) now csrf meta) Hw) as (s' & E & Hw' & Hs').
    rewrite E. simpl. rewrite Hs'. split; [done|]. intros i. case_decide; subst; [apply lookup_insert_eq|by apply lookup_insert_ne].
  - unfold validateSession, validateSession_with. rewrite getById_view.
    destruct (sessions s !! j) as [x|] eqn:Ex; simpl.
    2: { split; [done|]. intros i. case_decide; subst; by rewrite ?Ex. }
    destruct (expiresAt x <? now) eqn:Et.
    + destruct (delete_ok s j Hw) as (s' & E & Hw' & Hs'). rewrite E. simpl. rewrite Hs'. split; [done|]. intros i. case_decide; subst.
      * rewrite lookup_delete_eq, Ex. simpl. by rewrite Et.
      * by rewrite lookup_delete_ne.
    + destruct (save_ok s (seen_at seen x) Hw) as (s' & E & Hw' & Hs'). rewrite E. simpl. rewrite Hs'. split; [done|].
      change (id (seen_at seen x)) with (id x). rewrite (Hk _ _ Ex). intros i. case_decide; subst.
      * rewrite lookup_insert_eq, Ex. simpl. by rewrite Et.
      * by rewrite lookup_insert_ne.
  - unfold revokeSession. destruct (delete_ok s j Hw) as (s' & E & Hw' & Hs'). rewrite E. simpl. rewrite Hs'. split; [done|].
    intros i. case_decide; subst; [apply lookup_delete_eq|by apply lookup_delete_ne].
  - destruct (cleanup_lookup s now Hw Hk) as (s' & n & E & ? & _ & Hs'). by rewrite E.
Qed.

Lemma run_spec s ops : writable s -> keyed s -> writable (run s ops) /\ keyed (run s ops).
Proof.
  revert s. induction ops as [|o ops IH]; intros s Hw Hk; simpl; [done|].
  destruct (step_spec s o Hw Hk) as (? & ? & _). by apply IH.
Qed.

(** The identity of a session: everything but [lastSeen]. *)
Definition same_session (x y : Session M) : Prop := seen_at 0 x = seen_at 0 y.

#[global] Instance same_session_equivalence : Equivalence same_session.
Proof.
  unfold same_session. split.
  - intros x. reflexivity.
  - intros x y. apply eq_sym.
  - intros x y z. apply eq_trans.
Qed.

#[global] Instance expiresAt_proper : Proper (same_session ==> eq) expiresAt.
Proof. intros x y E. exact (f_equal expiresAt E). Qed.

Lemma same_expires x y : same_session x y -> expiresAt x = expiresAt y.
Proof. apply expiresAt_proper. Qed.

(** A session stored after a request was there before and spared, or the
    request created it. *)
Lemma step_origin m o i y : step_view m o i = Some y ->
  (exists x, m !! i = Some x /\ same_session x y /\ spares i (expiresAt x) o = true) \/
  (exists csrf user r meta t, o = OCreate i csrf user r meta t /\
     y = mkSession i user r t (t + ttl) t csrf meta).
Proof.
  destruct o as [j csrf user r meta now|j now seen|j|now]; simpl; intros Hy.
  - case_decide; simplify_eq; [right; naive_solver|left]. exists y. by rewrite bool_decide_eq_false_2.
  - left. case_decide; [|exists y; by rewrite bool_decide_eq_false_2].
    destruct (m !! i) as [z|]; [|done]; simpl in Hy.
    destruct (Z.ltb_spec (expiresAt z) now); simplify_eq. exists z. split_and!; [done|done|].
    rewrite (proj2 (Z.leb_le _ _)) by lia. apply orb_true_r.
  - left. case_decide; [done|]. exists y. by rewrite bool_decide_eq_false_2.
  - left. destruct (m !! i) as [z|]; [|done]; simpl in Hy.
    destruct (Z.ltb_spec (expiresAt z) now); simplify_eq. exists y. split_and!; [done|done|by apply Z.leb_le].
Qed.

(** A spared session is still there after the request. *)
Lemma step_keeps m o i x : m !! i = Some x -> spares i (expiresAt x) o = true ->
  exists y, step_view m o i = Some y /\ same_session y x.
Proof.
  intros Hx Hsp. destruct o as [j ? ? ? ? now|j now seen|j|now]; simpl in Hsp |- *; rewrite ?Hx; simpl.
  - case_decide; [by rewrite bool_decide_eq_true_2 in Hsp|]. by exists x.
  - case_decide; [|by exists x]. rewrite bool_decide_eq_true_2 in Hsp by done.
    simpl in Hsp. apply Z.leb_le in Hsp. rewrite (proj2 (Z.ltb_ge _ _)) by lia. by exists (seen_at seen x).
  - case_decide; [by rewrite bool_decide_eq_true_2 in Hsp|]. by exists x.
  - apply Z.leb_le in Hsp. rewrite (proj2 (Z.ltb_ge _ _)) by lia. by exists x.
Qed.

(** The sessions stored after a run are those created in it and spared since. *)
Lemma stored_iff s0 ops i x : writable s0 -> sessions s0 = ∅ ->
  (exists y, sessions (run s0 ops) !! i = Some y /\ same_session y x) <->
  exists pre post csrf user r meta t,
    ops = pre ++ OCreate i csrf user r meta t :: post /\
    same_session (mkSession i user r t (t + ttl) t csrf meta) x /\
    forallb (spares i (t + ttl)) post = true.
Proof.
  intros Hw0 He. assert (keyed s0) as Hk0 by (unfold keyed; rewrite He; apply map_Forall_empty).
  induction ops as [|o ops IH] using rev_ind.
  { simpl. rewrite He. setoid_rewrite lookup_empty. split; [naive_solver|].
    intros (pre & post & ? & ? & ? & ? & ? & E & _). by destruct pre. }
  unfold run. rewrite fold_left_app. simpl. fold (run s0 ops).
  destruct (run_spec s0 ops Hw0 Hk0) as [Hw Hk]. destruct (step_spec (run s0 ops) o Hw Hk) as (_ & _ & Hv).
  rewrite Hv. clear Hv. split.
  - intros (y & Hy & Hs). apply step_origin in Hy as [(y' & Hy' & Hs' & Hsp)|(csrf & user & r & meta & t & -> & ->)].
    + destruct (proj1 IH) as (pre & post & csrf & user & r & meta & t & -> & Hx & Hpost).
      { exists y'. split; [done|]. by rewrite Hs'. }
      exists pre, (post ++ [o]), csrf, user, r, meta, t. split_and!; [by rewrite <-app_assoc|done|].
      apply same_expires in Hs, Hs', Hx. simpl in Hx.
      rewrite forallb_app, Hpost. simpl. by rewrite Hx, <-Hs, <-Hs', Hsp.
    + by exists ops, [], csrf, user, r, meta, t.
  - intros (pre & post & csrf & user & r & meta & t & E & Hx & Hpost).
    destruct post as [|o' post _] using rev_ind.
    + apply app_inj_tail in E as [-> ->]. simpl. rewrite decide_True by done. naive_solver.
    + rewrite app_comm_cons, app_assoc in E. apply app_inj_tail in E as [-> <-].
      rewrite forallb_app in Hpost. simpl in Hpost. rewrite andb_true_r in Hpost.
      apply andb_true_iff in Hpost as [Hpost Hsp].
      destruct (proj2 IH) as (y & Hy & Hs); [by eexists _, _, _, _, _, _, _|].
      destruct (step_keeps _ o _ _ Hy) as (y' & Hy' & Hs').
      { apply same_expires in Hs, Hx. by rewrite Hs, <-Hx. }
      exists y'. split; [done|]. by rewrite Hs'.
Qed.

Lemma validate_stored s i now seen x : writable s -> keyed s ->
  (exists s' y, validateSession s i now seen = (s', Resolved (inl y)) /\ same_session y x) <->
  (exists y, sessions s !! i = Some y /\ same_session y x) /\ now <= expiresAt x.
Proof.
  intros Hw Hk. unfold validateSession, validateSession_with. rewrite getById_view.
  destruct (sessions s !! i) as [y|]; [|naive_solver].
  destruct (Z.ltb_spec (expiresAt y) now) as [Hlt|Hle].
  - destruct (delete_ok s i Hw) as (s' & -> & _). split; [naive_solver|].
    intros [(y' & ? & E%same_expires) ?]. simplify_eq. lia.
  - destruct (save_ok s (seen_at seen y) Hw) as (s' & -> & _). split.
    + intros (? & z & ? & Hs). simplify_eq. split; [by exists y|].
      rewrite <-(same_expires _ _ Hs). done.
    + intros [(y' & ? & Hs) _]. simplify_eq. by exists s', (seen_at seen y').
Qed.

(** C33: over any sequence of requests at any times, starting from an empty
    store, a session id is accepted exactly when the sequence created it, the
    time is at most its creation time plus the configured lifetime, and no
    later request revoked it, replaced it, or looked at it after its expiry;
    and what is returned is the session as created, but for [lastSeen]. *)
Theorem session_lifetime s0 ops i now seen x : writable s0 -> sessions s0 = ∅ ->
  (exists s' y, validateSession (run s0 ops) i now seen = (s', Resolved (inl y)) /\ same_session y x) <->
  exists pre post csrf user r meta t,
    ops = pre ++ OCreate i csrf user r meta t :: post /\
    same_session (mkSession i user r t (t + ttl) t csrf meta) x /\
    forallb (spares i (t + ttl)) post = true /\ now <= t + ttl.
Proof.
  intros Hw He. destruct (run_spec s0 ops Hw) as [Hw' Hk'];
    [unfold keyed; rewrite He; apply map_Forall_empty|].
  rewrite validate_stored, stored_iff by done. split.
  - intros [(pre & post & csrf & user & r & meta & t & ? & Hx & ?) Hn].
    exists pre, post, csrf, user, r, meta, t. apply same_expires in Hx as E. simpl in E.
    split_and!; [done|done|done|lia].
  - intros (pre & post & csrf & user & r & meta & t & ? & Hx & ? & Hn).
    apply same_expires in Hx as E. simpl in E. split; [|lia]. by exists pre, post, csrf, user, r, meta, t.
Qed.

(** [cleanupExpired] removes exactly the sessions whose expiry has passed,
    keeps the others unchanged and returns how many it removed; while the
    store refuses writes it removes nothing, and rejects if any session has
    expired. *)
Theorem cleanup_exact s now : keyed s ->
  (writable s -> exists s',
     cleanupExpired s now = (s', Resolved (Z.of_nat (count (fun x => expiresAt x <? now) (listAll s)))) /\
     forall i, sessions s' !! i =
       (x ← sessions s !! i; if expiresAt x <? now then None else Some x)) /\
  (~ writable s -> fst (cleanupExpired s now) = s /\
     ((exists n, snd (cleanupExpired s now) = Resolved n) <->
      forall i x, sessions s !! i = Some x -> now <= expiresAt x)).
Proof.
  intros Hk. split.
  - intros Hw. destruct (cleanup_lookup s now Hw Hk) as (s' & n & -> & _ & -> & E). by exists s'.
  - intros Hw. unfold cleanupExpired.
    assert (forall xs n, fst (cleanup_loop s xs now n) = s /\
      ((exists n', snd (cleanup_loop s xs now n) = Resolved n') <->
       Forall (fun x => now <= expiresAt x) xs)) as L.
    { induction xs as [|x xs IH]; intros n; simpl; [split; [done|]; naive_solver|].
      rewrite Forall_cons. destruct (Z.ltb_spec (expiresAt x) now) as [Hlt|Hle].
      - destruct (delete_denied s (id x) Hw) as [e ->]. simpl. split; [done|].
        split; [naive_solver|]. intros []; lia.
      - destruct (IH n) as [? ->]. naive_solver. }
    destruct (L (listAll s) 0) as [? ->]. split; [done|]. rewrite (listAll_view s), Forall_fmap, Forall_forall.
    split.
    + intros F i x Hx%elem_of_map_to_list. by apply (F (i, x)).
    + intros F [i x] Hx%elem_of_map_to_list. by eapply F.
Qed.

(** The update of [lastSeen] is not atomic with the read it follows: when
    the session is revoked in between, saving it stores it again, the request
    succeeds, and the revoked session is accepted by later requests. *)
Theorem revoked_session_restored s i x now seen : writable s -> keyed s ->
  sessions s !! i = Some x -> now <= expiresAt x ->
  exists s', validateSession_with (fun s => fst (revokeSession s i)) s i now seen
               = (s', Resolved (inl (seen_at seen x))) /\
    sessions s' !! i = Some (seen_at seen x) /\
    exists s'' y, validateSession s' i now seen = (s'', Resolved (inl y)) /\ same_session y x.
Proof.
  intros Hw Hk Hx Hn. unfold validateSession_with. rewrite getById_view, Hx.
  rewrite (proj2 (Z.ltb_ge _ _)) by lia. unfold revokeSession.
  destruct (delete_ok s i Hw) as (s1 & -> & Hw1 & Hs1). simpl.
  destruct (save_ok s1 (seen_at seen x) Hw1) as (s' & -> & Hw' & Hs').
  assert (sessions s' !! i = Some (seen_at seen x)) as Hi.
  { rewrite Hs'. change (id (seen_at seen x)) with (id x). rewrite (Hk _ _ Hx). apply lookup_insert_eq. }
  exists s'. split_and!; [done|done|]. apply validate_stored; [done| |split; [by eexists|done]].
  unfold keyed. rewrite Hs', Hs1. apply map_Forall_insert_2; [done|].
  by apply map_Forall_delete.
Qed.

(** A CSRF token is accepted exactly when the session exists and the
    non-empty token has the HMAC of the session's own token; where the HMAC
    does not collide, exactly when it is the session's own token. *)
Theorem csrf_exact hmac s i token :
  (validateCsrf hmac s i token = true <->
   exists x, sessions s !! i = Some x /\ token <> [] /\ hmac (csrfToken x) = hmac token) /\
  ((forall a b, hmac a = hmac b -> a = b) ->
   (validateCsrf hmac s i token = true <->
    token <> [] /\ option_map csrfToken (sessions s !! i) = Some token)).
Proof.
  assert (validateCsrf hmac s i token = true <->
    exists x, sessions s !! i = Some x /\ token <> [] /\ hmac (csrfToken x) = hmac token) as E.
  { unfold validateCsrf. rewrite getById_view. destruct (sessions s !! i) as [x|]; [|naive_solver].
    case_bool_decide; [naive_solver|]. unfold Compare.secureCompare. simpl.
    rewrite andb_true_r, Compare.secureCompareBytes_eq. naive_solver. }
  split; [done|]. intros Hinj. rewrite E. destruct (sessions s !! i); naive_solver.
Qed.
End service.
Arguments op M : clear implicits.
End SessionService.

(** ** A concrete run *)

Module SessionExamples.
Import SessionService.

Definition store_type : Type := KvRepository.KvRepository (Session jsstr).
Definition empty_store : store_type :=
  @KvRepository.mkRepo _ mem_kv false (js "session") (mkMem ∅ 0).
Definition ops : list (op jsstr) :=
  [OCreate (js "s1") (js "c1") (js "alice") operator None 0;
   OCreate (js "s2") (js "c2") (js "bob") viewer (Some (js "tty")) 7000000;
   OValidate (js "s1") 3600000 3600001; ORevoke (js "s2"); OCleanup 3600000].
Definition alice : Session jsstr :=
  mkSession (js "s1") (js "alice") operator 0 3600000 0 (js "c1") None.

Lemma session_lifetime_witness :
  exists s' y, validateSession (run 1 empty_store ops) (js "s1") 3600000 5 = (s', Resolved (inl y)) /\
    same_session y alice.
Proof.
  apply (session_lifetime 1 empty_store ops); [reflexivity|reflexivity|].
  exists [], (drop 1 ops), (js "c1"), (js "alice"), operator, None, 0.
  split_and!; [reflexivity|reflexivity|vm_compute; reflexivity|vm_compute; discriminate].
Defined.

Lemma cleanup_exact_witness :
  exists s', cleanupExpired (run 1 empty_store (take 2 ops)) 5000000
               = (s', Resolved (Z.of_nat (count (fun x => expiresAt x <? 5000000)
                                 (listAll (run 1 empty_store (take 2 ops)))))) /\
    forall i, sessions s' !! i =
      (x ← sessions (run 1 empty_store (take 2 ops)) !! i; if expiresAt x <? 5000000 then None else Some x).
Proof.
  refine (proj1 (cleanup_exact (run 1 empty_store (take 2 ops)) 5000000 _) _); [|reflexivity].
  apply (run_spec 1 empty_store (take 2 ops)); [reflexivity|].
  intros i x Hx. exfalso. vm_compute in Hx. congruence.
Defined.

Lemma revoked_session_restored_witness :
  exists s', validateSession_with (fun s => fst (revokeSession s (js "s1")))
               (run 1 empty_store (take 2 ops)) (js "s1") 9 9
               = (s', Resolved (inl (seen_at 9 alice))) /\
    sessions s' !! js "s1" = Some (seen_at 9 alice).
Proof.
  destruct (revoked_session_restored (run 1 empty_store (take 2 ops)) (js "s1") alice 9 9) as (s' & ? & ? & _).
  - reflexivity.
  - apply (run_spec 1 empty_store (take 2 ops)); [reflexivity|].
    intros i x Hx. exfalso. vm_compute in Hx. congruence.
  - vm_compute. reflexivity.
  - vm_compute. discriminate.
  - exists s'. split; assumption.
Defined.

Definition hmac0 (s : jsstr) : list Z := s.

Lemma csrf_exact_witness :
  validateCsrf hmac0 (run 1 empty_store ops) (js "s1") (js "c1") = true /\
  validateCsrf hmac0 (run 1 empty_store ops) (js "s1") (js "c2") = false.
Proof.
  split; [|vm_compute; reflexivity].
  apply (csrf_exact hmac0 (run 1 empty_store ops) (js "s1") (js "c1")); [intros a b E; exact E|].
  split; [discriminate|vm_compute; reflexivity].
Defined.
End SessionExamples.
