(* ===== verification/ApiKeys.v ===== *)
(** * API keys

    Models [src/orchestrator/domain/identity/api_keys.ts] and the wrapper
    [withTelemetry] of [src/orchestrator/core/service_utils.ts], over the
    [Repository] interface.  The digest, the HMAC of the comparison, the
    random UUIDs and the clock are inputs. *)

From S2P Require Import Prelude Result JsString Schemas Kv Session.

(** [withTelemetry]: what the wrapped method's promise settles to, as a
    [Result]; the log line is an effect the model leaves out. *)
Definition withTelemetry {A E} (p : settled A E) : Result A E :=
  match p with Resolved data => ok data | Rejected error => err error end.

(** What is stored under a key's hash: the public metadata and the salt. *)
Record ApiKeyMetadata := mkMeta {
  id : jsstr; name : jsstr; role : Role; salt : jsstr; createdAt : Z; lastUsed : option Z }.

#[export] Instance ApiKeyMetadata_eq_dec : EqDecision ApiKeyMetadata.
Proof. solve_decision. Defined.

(** What [listApiKeys] returns of it. *)
Record PublicKey := mkPublic {
  p_id : jsstr; p_name : jsstr; p_role : Role; p_createdAt : Z; p_lastUsed : option Z }.

Inductive ApiKeyError := ForbiddenRole | Storage (e : RepoError).

Definition role_text (r : Role) : jsstr :=
  match r with
  | admin => js "admin" | operator => js "operator" | viewer => js "viewer" | mesh_peer => js "mesh_peer"
  end.

Module ApiKeysService.
Import JsString.
Section service.
Context {HS IS : Type} `{Repository HS ApiKeyMetadata} `{Repository IS jsstr}.
(** [sha256 text] is the hexadecimal digest, [hmac] the comparison's HMAC. *)
Context (sha256 : jsstr -> jsstr) (hmac : jsstr -> list Z).

Record ApiKeysService := mkService { hashRepo : HS; idRepo : IS }.

Definition hashKey (rawKey salt : jsstr) : jsstr := sha256 (rawKey ++ salt).

(** [uuid.replace(/-/g, "")] *)
Definition strip_dashes (s : jsstr) : jsstr := List.filter (fun c => negb (c =? 45)) s.

(** The arguments of a creation with the three UUIDs it draws. *)
Record Creation := mkCreation {
  c_name : jsstr; c_role : Role; c_id : jsstr; c_salt : jsstr; c_secret : jsstr; c_now : Z }.

Definition rawKey (c : Creation) : jsstr :=
  js "ct_" ++ role_text (c_role c) ++ js "_" ++ c_id c ++ js "_" ++ strip_dashes (c_secret c).

Definition keyHash (c : Creation) : jsstr := hashKey (rawKey c) (c_salt c).

Definition issuable (r : Role) : bool :=
  negb (bool_decide (r = admin) || bool_decide (r = mesh_peer)).

Definition createApiKey_ (s : ApiKeysService) (c : Creation)
  : ApiKeysService * settled (jsstr * jsstr) ApiKeyError :=
  if negb (issuable (c_role c)) then (s, Rejected ForbiddenRole) else
  let meta := mkMeta (c_id c) (c_name c) (c_role c) (c_salt c) (c_now c) None in
  match repo_set (idRepo s) (c_id c) (keyHash c) with
  | (i', Rejected e) => (mkService (hashRepo s) i', Rejected (Storage e))
  | (i', Resolved _) =>
      match repo_set (hashRepo s) (keyHash c) meta with
      | (h', Rejected e) => (mkService h' i', Rejected (Storage e))
      | (h', Resolved _) => (mkService h' i', Resolved (rawKey c, c_id c))
      end
  end.

Definition touch (now : Z) (m : ApiKeyMetadata) : ApiKeyMetadata :=
  mkMeta (id m) (name m) (role m) (salt m) (createdAt m) (Some now).

(** The id part of a well-formed key. *)
Definition key_id (rawKey : jsstr) : option jsstr :=
  let parts := split rawKey (js "_") in
  if (length parts <? 4)%nat || negb (bool_decide (parts !! 0%nat = Some (js "ct"))) then None
  else parts !! 2%nat.

(** Whether a string read from the store is present and not empty. *)
Definition truthy (o : option jsstr) : option jsstr :=
  match o with Some [] => None | _ => o end.

Definition validateApiKey_ (s : ApiKeysService) (key : option jsstr) (now : Z)
  : ApiKeysService * option Role :=
  match truthy key with
  | None => (s, None)
  | Some k =>
      match key_id k with
      | None => (s, None)
      | Some i =>
          match truthy (repo_get (idRepo s) i) with
          | None => (s, None)
          | Some expectedHash =>
              match repo_get (hashRepo s) expectedHash with
              | None => (s, None)
              | Some m =>
                  if bool_decide (salt m = []) then (s, None) else
                  let providedHash := hashKey k (salt m) in
                  if Compare.secureCompare hmac (Some providedHash) (Some expectedHash)
                  then (mkService (fst (repo_set (hashRepo s) expectedHash (touch now m))) (idRepo s),
                        Some (role m))
                  else (s, None)
              end
          end
      end
  end.

Definition listApiKeys (s : ApiKeysService) : list PublicKey :=
  map (fun m => mkPublic (id m) (name m) (role m) (createdAt m) (lastUsed m)) (repo_list (hashRepo s)).

Definition revokeApiKey_ (s : ApiKeysService) (i : jsstr) : ApiKeysService * settled unit ApiKeyError :=
  match truthy (repo_get (idRepo s) i) with
  | None => (s, Resolved tt)
  | Some h =>
      match repo_delete (hashRepo s) h with
      | (h', Rejected e) => (mkService h' (idRepo s), Rejected (Storage e))
      | (h', Resolved _) =>
          match repo_delete (idRepo s) i with
          | (i', Rejected e) => (mkService h' i', Rejected (Storage e))
          | (i', Resolved _) => (mkService h' i', Resolved tt)
          end
      end
  end.

(** The public, wrapped methods. *)
Definition createApiKey (s : ApiKeysService) (c : Creation) : ApiKeysService * Result (jsstr * jsstr) ApiKeyError :=
  let '(s', p) := createApiKey_ s c in (s', withTelemetry p).
Definition validateApiKey (s : ApiKeysService) (key : option jsstr) (now : Z)
  : ApiKeysService * Result (option Role) ApiKeyError :=
  let '(s', r) := validateApiKey_ s key now in (s', withTelemetry (Resolved r)).
Definition revokeApiKey (s : ApiKeysService) (i : jsstr) : ApiKeysService * Result unit ApiKeyError :=
  let '(s', p) := revokeApiKey_ s i in (s', withTelemetry p).

(** ** Requests and their specification *)

Inductive op := OCreate (c : Creation) | OValidate (key : option jsstr) (now : Z) | ORevoke (i : jsstr).

Definition step (s : ApiKeysService) (o : op) : ApiKeysService :=
  match o with
  | OCreate c => fst (createApiKey s c)
  | OValidate k now => fst (validateApiKey s k now)
  | ORevoke i => fst (revokeApiKey s i)
  end.

Definition run (s : ApiKeysService) (ops : list op) : ApiKeysService := fold_left step ops s.

(** The specification: the keys created and not revoked since, by id. *)
Definition live_step (m : gmap jsstr Creation) (o : op) : gmap jsstr Creation :=
  match o with
  | OCreate c => if issuable (c_role c) then <[c_id c := c]> m else m
  | OValidate _ _ => m
  | ORevoke i => delete i m
  end.

Definition live (ops : list op) : gmap jsstr Creation := fold_left live_step ops ∅.

Definition accepts (m : gmap jsstr Creation) (k : jsstr) : option Role :=
  i ← key_id k; c ← m !! i;
  if bool_decide (hmac (hashKey k (c_salt c)) = hmac (keyHash c)) then Some (c_role c) else None.

(** A UUID's text: not empty, and without an underscore. *)
Definition uuid_text (s : jsstr) : Prop := s <> [] /\ 95 ∉ s.

Definition op_ok (o : op) : Prop :=
  match o with OCreate c => uuid_text (c_id c) /\ uuid_text (c_salt c) | _ => True end.

(** The hashes of the keys a run issues. *)
Definition hashes (ops : list op) : list jsstr :=
  omap (fun o => match o with
                 | OCreate c => if issuable (c_role c) then Some (keyHash c) else None
                 | _ => None end) ops.

Context (sha256_nonempty : forall s, sha256 s <> []).

Definition stores (h : jsstr) (c : Creation) (s : ApiKeysService) : Prop :=
  exists m, repo_view (hashRepo s) !! h = Some m /\ salt m = c_salt c /\ role m = c_role c.

(** The stores hold the live keys: each id leads to the key's hash, and the
    hash to its salt and role; distinct live keys have distinct hashes. *)
Record holds (ops : list op) (s : ApiKeysService) : Prop := {
  h_writable : repo_writable (hashRepo s) /\ repo_writable (idRepo s);
  h_ids : repo_view (idRepo s) = keyHash <$> live ops;
  h_metas i c : live ops !! i = Some c -> stores (keyHash c) c s;
  h_shape i c : live ops !! i = Some c -> c_id c = i /\ c_salt c <> [] /\ keyHash c ∈ hashes ops;
  h_inj i j c d : live ops !! i = Some c -> live ops !! j = Some d -> keyHash c = keyHash d -> i = j;
}.

Lemma truthy_hash ops s i : holds ops s ->
  truthy (repo_get (idRepo s) i) = keyHash <$> live ops !! i.
Proof.
  intros Hh. rewrite repo_get_view, (h_ids _ _ Hh), lookup_fmap.
  destruct (live ops !! i) as [c|]; simpl; [|done].
  destruct (keyHash c) eqn:E; [by apply sha256_nonempty in E|done].
Qed.

(** Under the invariant [validateApiKey] answers as the specification. *)
Lemma validate_accepts ops s k now : holds ops s -> k <> [] ->
  snd (validateApiKey_ s (Some k) now) = accepts (live ops) k.
Proof.
  intros Hh Hk. unfold validateApiKey_, accepts. destruct k as [|ch k]; [done|]. cbn [truthy].
  destruct (key_id (ch :: k)) as [i|]; [cbn [mbind option_bind]|done].
  rewrite (truthy_hash ops s i Hh).
  destruct (live ops !! i) as [c|] eqn:Ei; [cbn [fmap option_fmap option_map]|done].
  destruct (h_metas _ _ Hh _ _ Ei) as (m & Hm & Hs & Hr). rewrite repo_get_view, Hm, Hs.
  destruct (h_shape _ _ Hh _ _ Ei) as (_ & Hsalt & _). rewrite bool_decide_eq_false_2 by done.
  unfold Compare.secureCompare. simpl. rewrite andb_true_r. case_bool_decide as Heq.
  - rewrite (proj2 (Compare.secureCompareBytes_eq _ _) Heq). simpl. by rewrite Hr.
  - destruct (Compare.secureCompareBytes _ _) eqn:E; [|done]. by apply Compare.secureCompareBytes_eq in E.
Qed.

Lemma holds_validate ops s k now : holds ops s -> holds (ops ++ [OValidate k now]) (step s (OValidate k now)).
Proof.
  intros Hh. pose proof Hh as [[Wh Wi] Hi Hm Hs Hj].
  assert (live (ops ++ [OValidate k now]) = live ops) as El by (unfold live; by rewrite fold_left_app).
  assert (hashes (ops ++ [OValidate k now]) = hashes ops) as Eh by (unfold hashes; by rewrite omap_app, app_nil_r).
  enough (idRepo (step s (OValidate k now)) = idRepo s /\
    repo_writable (hashRepo (step s (OValidate k now))) /\
    forall h c, stores h c s -> stores h c (step s (OValidate k now))) as (E & W' & St).
  { split; rewrite ?El, ?Eh, ?E; eauto. }
  simpl. unfold validateApiKey, validateApiKey_.
  destruct (truthy k) as [k'|]; [|done]. destruct (key_id k') as [i|]; [|done].
  destruct (truthy _) as [h|]; [|done]. rewrite repo_get_view.
  destruct (repo_view (hashRepo s) !! h) as [m|] eqn:Em; [|done].
  case_bool_decide; [done|]. destruct (Compare.secureCompare _ _ _); [|done]. simpl.
  destruct (repo_set_ok (hashRepo s) h (touch now m) Wh) as (h' & -> & W' & E). simpl.
  split_and!; [done|done|]. intros h0 c (m0 & Hm0 & ? & ?). unfold stores. simpl. rewrite E.
  destruct (decide (h0 = h)) as [->|].
  - rewrite lookup_insert_eq. simplify_eq. by exists (touch now m).
  - rewrite lookup_insert_ne by done. by exists m0.
Qed.

Lemma holds_revoke ops s i : holds ops s -> holds (ops ++ [ORevoke i]) (step s (ORevoke i)).
Proof.
  intros Hh. pose proof Hh as [[Wh Wi] Hi Hm Hs Hj].
  assert (live (ops ++ [ORevoke i]) = delete i (live ops)) as El by (unfold live; by rewrite fold_left_app).
  assert (hashes (ops ++ [ORevoke i]) = hashes ops) as Eh by (unfold hashes; by rewrite omap_app, app_nil_r).
  simpl. unfold revokeApiKey, revokeApiKey_. rewrite (truthy_hash ops s i Hh).
  destruct (live ops !! i) as [c|] eqn:Ei; simpl.
  - destruct (repo_delete_ok (hashRepo s) (keyHash c) Wh) as (h' & -> & Wh' & Eh').
    destruct (repo_delete_ok (idRepo s) i Wi) as (i' & -> & Wi' & Ei'). simpl.
    split; simpl; rewrite ?El, ?Eh.
    + done.
    + by rewrite Ei', Hi, fmap_delete.
    + intros j d [? Hd]%lookup_delete_Some. destruct (Hm j d Hd) as (m & ? & ? & ?). exists m.
      simpl. rewrite Eh'. split; [|done]. rewrite lookup_delete_ne; [done|].
      intros E. by eapply Hj in E; [| |done].
    + intros j d [? Hd]%lookup_delete_Some. eauto.
    + intros j j' d d' [? Hd]%lookup_delete_Some [? Hd']%lookup_delete_Some. eauto.
  - assert (delete i (live ops) = live ops) as Ed by by apply delete_id.
    split; rewrite ?El, ?Eh, ?Ed; eauto.
Qed.

Lemma holds_create ops s c : holds ops s -> op_ok (OCreate c) -> NoDup (hashes (ops ++ [OCreate c])) ->
  holds (ops ++ [OCreate c]) (step s (OCreate c)).
Proof.
  intros Hh [_ [Hsalt _]] Hnd. pose proof Hh as [[Wh Wi] Hi Hm Hs Hj].
  assert (live (ops ++ [OCreate c]) = if issuable (c_role c) then <[c_id c := c]> (live ops) else live ops) as El
    by (unfold live; by rewrite fold_left_app).
  assert (hashes (ops ++ [OCreate c]) = hashes ops ++ if issuable (c_role c) then [keyHash c] else []) as Eh.
  { unfold hashes. rewrite omap_app. simpl. by destruct (issuable _). }
  simpl. unfold createApiKey, createApiKey_. rewrite Eh in Hnd.
  destruct (issuable (c_role c)); simpl.
  2: { split; rewrite ?El, ?Eh, ?app_nil_r; eauto. }
  apply NoDup_app in Hnd as (_ & Hnew & _).
  assert (forall j d, live ops !! j = Some d -> keyHash d <> keyHash c) as Hne.
  { intros j d Hd E. destruct (Hs j d Hd) as (_ & _ & Hin). rewrite E in Hin.
    eapply Hnew; [done|]. by apply list_elem_of_singleton. }
  destruct (repo_set_ok (idRepo s) (c_id c) (keyHash c) Wi) as (i' & -> & Wi' & Ei').
  destruct (repo_set_ok (hashRepo s) (keyHash c)
    (mkMeta (c_id c) (c_name c) (c_role c) (c_salt c) (c_now c) None) Wh) as (h' & -> & Wh' & Eh'). simpl.
  split; simpl; rewrite ?El, ?Eh.
  - done.
  - by rewrite Ei', Hi, fmap_insert.
  - intros j d [[<- <-]|[? Hd]]%lookup_insert_Some; unfold stores; simpl; rewrite Eh'.
    + rewrite lookup_insert_eq. eexists. by split_and!.
    + rewrite lookup_insert_ne; [by apply Hm in Hd|]. apply not_eq_sym. by eapply Hne.
  - intros j d [[<- <-]|[? Hd]]%lookup_insert_Some; rewrite elem_of_app, list_elem_of_singleton; naive_solver.
  - intros j j' d d' [[<- <-]|[? Hd]]%lookup_insert_Some [[<- <-]|[? Hd']]%lookup_insert_Some E; eauto.
    + by eapply Hne in Hd'.
    + by eapply Hne in Hd.
Qed.

Definition empty_service (s : ApiKeysService) : Prop :=
  repo_writable (hashRepo s) /\ repo_writable (idRepo s) /\
  repo_view (hashRepo s) = ∅ /\ repo_view (idRepo s) = ∅.

Lemma holds_run s0 ops : empty_service s0 -> Forall op_ok ops -> NoDup (hashes ops) -> holds ops (run s0 ops).
Proof.
  intros (Wh & Wi & Eh & Ei) Hok Hnd. induction ops as [|o ops IH] using rev_ind.
  { change (run s0 []) with s0. assert (live [] = ∅) as El by done.
    split; rewrite ?El; [done|by rewrite Ei, fmap_empty|..]; intros *; by rewrite lookup_empty. }
  apply Forall_app in Hok as [Hok Ho]. rewrite Forall_singleton in Ho.
  assert (holds ops (run s0 ops)) as Hh.
  { apply IH; [done|]. unfold hashes in *. rewrite omap_app in Hnd. by apply NoDup_app in Hnd as (? & _). }
  unfold run. rewrite fold_left_app. simpl. fold (run s0 ops).
  destruct o; [by apply holds_create|by apply holds_validate|by apply holds_revoke].
Qed.

(** ** The text of a key *)

Lemma key_id_rawKey c : 95 ∉ c_id c -> issuable (c_role c) = true -> key_id (rawKey c) = Some (c_id c).
Proof.
  intros Hi Hr. unfold key_id, rawKey.
  assert (split (js "ct_" ++ role_text (c_role c) ++ js "_" ++ c_id c ++ js "_" ++ strip_dashes (c_secret c)) (js "_")
    = js "ct" :: role_text (c_role c) :: c_id c :: split (strip_dashes (c_secret c)) (js "_")) as ->.
  { assert (95 ∉ js "ct") as H1 by (vm_compute; set_solver).
    assert (95 ∉ role_text (c_role c)) as H2 by (destruct (c_role c); try done; vm_compute; set_solver).
    etrans; [exact (split_go_piece 95 (js "ct") H1 [] _)|]. f_equal.
    etrans; [exact (split_go_piece 95 (role_text (c_role c)) H2 [] _)|]. f_equal.
    exact (split_go_piece 95 (c_id c) Hi [] _). }
  destruct (split (strip_dashes (c_secret c)) (js "_")) eqn:E; [by apply split_go_nonempty in E|].
  done.
Qed.

Lemma live_issuable ops i c : live ops !! i = Some c -> issuable (c_role c) = true.
Proof.
  induction ops as [|o ops IH] using rev_ind.
  { change (live []) with (∅ : gmap jsstr Creation). by rewrite lookup_empty. }
  unfold live. rewrite fold_left_app. fold (live ops). destruct o as [d| |j]; simpl; [|done|].
  - destruct (issuable (c_role d)) eqn:E; [|done]. intros [[_ <-]|[_ ?]]%lookup_insert_Some; auto.
  - intros [_ ?]%lookup_delete_Some. auto.
Qed.

(** Whether a request concerns the key of an id. *)
Definition untouched (i : jsstr) (o : op) : bool :=
  match o with
  | OCreate d => negb (bool_decide (c_id d = i))
  | OValidate _ _ => true
  | ORevoke j => negb (bool_decide (j = i))
  end.

Lemma live_untouched pre post i : forallb (untouched i) post = true -> live (pre ++ post) !! i = live pre !! i.
Proof.
  induction post as [|o post IH] using rev_ind; [by rewrite app_nil_r|].
  rewrite forallb_app. intros [Hp Ho]%andb_true_iff. rewrite <-(IH Hp), app_assoc. unfold live.
  rewrite (fold_left_app _ (pre ++ post)). fold (live (pre ++ post)). simpl in Ho. rewrite andb_true_r in Ho.
  destruct o as [d| |j]; simpl in *; reflect_bools; [|done|by rewrite lookup_delete_ne].
  destruct (issuable _); [by rewrite lookup_insert_ne|done].
Qed.

Lemma accepts_empty m : accepts m [] = None.
Proof. done. Qed.

(** C34: after any sequence of creations, validations and revocations the
    service accepts a key exactly when the id in its text belongs to a key
    created and not revoked since, and its salted digest compares equal to
    that key's; it then answers that key's role, which is never [admin] or
    [mesh_peer].  Assumed: UUIDs are not empty and have no underscore, and no
    two issued keys have the same digest. *)
Theorem api_keys_refine s0 ops k now :
  empty_service s0 -> Forall op_ok ops -> NoDup (hashes ops) ->
  snd (validateApiKey (run s0 ops) (Some k) now) = ok (accepts (live ops) k) /\
  (forall r, accepts (live ops) k = Some r -> r = operator \/ r = viewer).
Proof.
  intros He Hok Hnd. pose proof (holds_run s0 ops He Hok Hnd) as Hh. split.
  - unfold validateApiKey. destruct (decide (k = [])) as [->|Hk]; [done|].
    pose proof (validate_accepts ops _ k now Hh Hk) as E.
    destruct (validateApiKey_ _ _ _) as [s' r]. simpl in E. by rewrite E.
  - unfold accepts. intros r Hr. destruct (key_id k) as [i|]; [simpl in Hr|done].
    destruct (live ops !! i) as [c|] eqn:Ec; [simpl in Hr|done]. case_bool_decide; simplify_eq.
    apply live_issuable in Ec. destruct (c_role c); auto; by vm_compute in Ec.
Qed.

(** An issued key is accepted, with the role it was created for, until its
    id is revoked or issued again; after its revocation no key with that id is
    accepted, until the id is issued again. *)
Theorem issued_key_lifecycle s0 pre c post k now :
  empty_service s0 -> Forall op_ok (pre ++ OCreate c :: post) -> NoDup (hashes (pre ++ OCreate c :: post)) ->
  issuable (c_role c) = true -> forallb (untouched (c_id c)) post = true ->
  snd (validateApiKey (run s0 (pre ++ OCreate c :: post)) (Some (rawKey c)) now) = ok (Some (c_role c)) /\
  (key_id k = Some (c_id c) ->
   snd (validateApiKey (run s0 (pre ++ OCreate c :: post ++ [ORevoke (c_id c)])) (Some k) now) = ok None).
Proof.
  intros He Hok Hnd Hr Hu.
  assert (live (pre ++ OCreate c :: post) !! c_id c = Some c) as Hl.
  { change (OCreate c :: post) with ([OCreate c] ++ post). rewrite app_assoc, live_untouched by done.
    unfold live. rewrite fold_left_app. simpl. rewrite Hr. apply lookup_insert_eq. }
  pose proof (holds_run s0 _ He Hok Hnd) as Hh. split.
  - unfold validateApiKey.
    assert (rawKey c <> []) as Hk by done. pose proof (validate_accepts _ _ _ now Hh Hk) as E.
    destruct (validateApiKey_ _ _ _) as [s' r]. simpl in E |- *. rewrite E. unfold accepts.
    apply Forall_app in Hok as [_ [[[_ Hid] _] _]%Forall_cons].
    rewrite (key_id_rawKey c Hid Hr). simpl. rewrite Hl. simpl. by rewrite bool_decide_eq_true_2.
  - intros Hk. rewrite app_comm_cons, app_assoc.
    apply (holds_revoke _ _ (c_id c)) in Hh. unfold run in Hh |- *. rewrite fold_left_app.
    unfold validateApiKey. assert (k <> []) as Hne by (intros ->; done).
    pose proof (validate_accepts _ _ _ now Hh Hne) as E. simpl fold_left.
    destruct (validateApiKey_ _ _ _) as [s' r]. simpl in E |- *. rewrite E. unfold accepts. rewrite Hk. simpl.
    unfold live. rewrite fold_left_app. simpl. by rewrite lookup_delete_eq.
Qed.
End service.
Arguments ApiKeysService HS IS : clear implicits.
End ApiKeysService.

Module ApiKeyExamples.
Import ApiKeysService.

Definition hs : Type := KvRepository.KvRepository ApiKeyMetadata.
Definition is_ : Type := KvRepository.KvRepository jsstr.
Definition sha0 (s : jsstr) : jsstr := 120 :: s.
Definition hmac0 (s : jsstr) : list Z := s.
Definition service0 : ApiKeysService hs is_ :=
  mkService (@KvRepository.mkRepo _ mem_kv false (js "api_keys_hash") (mkMem ∅ 0))
            (@KvRepository.mkRepo _ mem_kv false (js "api_keys_id") (mkMem ∅ 0)).
Definition c1 : Creation := mkCreation (js "ci") operator (js "11-11") (js "aa-aa") (js "fe-ed") 5.
Definition c2 : Creation := mkCreation (js "ui") viewer (js "22-22") (js "bb-bb") (js "be-ef") 6.
Definition c3 : Creation := mkCreation (js "root") admin (js "33-33") (js "cc-cc") (js "ca-fe") 7.
Definition ops0 : list op := [OCreate c1; OCreate c2; OCreate c3; ORevoke (js "22-22")].

Lemma sha0_nonempty s : sha0 s <> [].
Proof. discriminate. Qed.

Lemma ops0_ok : Forall op_ok ops0.
Proof. repeat constructor; vm_compute; (discriminate || set_solver). Qed.

Lemma api_keys_refine_witness :
  snd (validateApiKey sha0 hmac0 (run sha0 hmac0 service0 ops0) (Some (rawKey c1)) 9)
    = ok (accepts sha0 hmac0 (live ops0) (rawKey c1)) /\
  accepts sha0 hmac0 (live ops0) (rawKey c1) = Some operator.
Proof.
  split; [|vm_compute; reflexivity].
  apply (api_keys_refine sha0 hmac0 sha0_nonempty service0 ops0 (rawKey c1) 9).
  - repeat split.
  - exact ops0_ok.
  - apply (bool_decide_unpack (NoDup (hashes sha0 ops0))). vm_compute. exact I.
Defined.

Definition post0 : list op := [OCreate c2; OCreate c3; ORevoke (js "22-22")].

Lemma issued_key_lifecycle_witness :
  snd (validateApiKey sha0 hmac0 (run sha0 hmac0 service0 ([] ++ OCreate c1 :: post0)) (Some (rawKey c1)) 9)
    = ok (Some (c_role c1)).
Proof.
  refine (proj1 (issued_key_lifecycle sha0 hmac0 sha0_nonempty service0 [] c1 post0 (rawKey c1) 9 _ _ _ _ _)).
  - repeat split.
  - exact ops0_ok.
  - apply (bool_decide_unpack (NoDup (hashes sha0 ops0))). vm_compute. exact I.
  - reflexivity.
  - vm_compute. reflexivity.
Defined.
End ApiKeyExamples.
