(* ===== verification/Mmdb.v ===== *)
(** * The GeoIP database reader

    Models [src/orchestrator/infrastructure/system/geoip/mmdb_reader.ts]: the
    metadata search, the search-tree walk with 24, 28 and 32-bit records, the
    data-section decoder with its depth and size limits, the lookup with its
    cached IPv4 start node, and the address parser.  A read past the end of
    the file gives [undefined], which is 0 in a bit operation and [NaN] in
    arithmetic; the model keeps both.  [TextDecoder] is a parameter, and so is
    the text of a map key that is not a string; a floating-point value is its
    bytes.  An object is its string keys: the special key [__proto__] is
    treated as any other. *)

From S2P Require Import Prelude Result JsMap JsString Regex Net.

Module Mmdb.
Import JsString Regex.

(** ** Numbers *)

(** The doubles the reader computes with: integers, +Infinity and NaN. *)
Inductive number := Int (z : Z) | Infinity | NaN.

#[global] Instance number_eq_dec : EqDecision number.
Proof. solve_decision. Defined.

(** An exact integer result rounded to a double, ties to even. *)
Definition rnd (z : Z) : number :=
  if z <? 2 ^ 53 then Int z else
  let e := Z.log2 z - 52 in
  let q := z / 2 ^ e in
  let r := 2 * (z mod 2 ^ e) in
  let q' := if (r <? 2 ^ e) || ((r =? 2 ^ e) && Z.even q) then q else q + 1 in
  if q' * 2 ^ e <? 2 ^ 1024 then Int (q' * 2 ^ e) else Infinity.

Definition nadd (a b : number) : number :=
  match a, b with
  | Int x, Int y => rnd (x + y)
  | NaN, _ | _, NaN => NaN
  | _, _ => Infinity
  end.

(** Multiplication by a positive integer constant. *)
Definition nmul (a : number) (k : Z) : number :=
  match a with Int x => rnd (x * k) | Infinity => Infinity | NaN => NaN end.

Definition nlt (a b : number) : bool :=
  match a, b with Int x, Int y => x <? y | Int _, Infinity => true | _, _ => false end.
Definition nle (a b : number) : bool :=
  match a, b with
  | Int x, Int y => x <=? y
  | Int _, Infinity | Infinity, Infinity => true
  | _, _ => false
  end.
(** [a === b] *)
Definition neq (a b : number) : bool :=
  match a, b with Int x, Int y => x =? y | Infinity, Infinity => true | _, _ => false end.

(** The 32-bit value of a byte, or of [undefined], in a bit operation. *)
Definition bits (n : number) : Z := match n with Int z => z | _ => 0 end.

Definition int32 (z : Z) : Z := (z + 2 ^ 31) mod 2 ^ 32 - 2 ^ 31.

Definition shl (n : number) (k : Z) : Z := int32 (Z.shiftl (bits n) k).

(** ** Values *)

Inductive value :=
| VStr (s : jsstr)
| VDouble (raw : list Z)
| VFloat (raw : list Z)
| VBytes (raw : list Z)
| VNum (n : number)
| VBool (b : bool)
| VNull
| VMap (fields : list (jsstr * value))
| VArr (items : list value).

Inductive MmdbError :=
| NestingExceeded | OffsetOutside | RangeError | ImplausibleMap | ImplausibleArray
| MarkerNotFound | UnsupportedRecordSize | MetadataNotAnObject
| NotModelled (* a metadata number given as a text, a float or a container *).

Definition METADATA_MARKER : list Z :=
  [0xab; 0xcd; 0xef; 0x4d; 0x61; 0x78; 0x4d; 0x69; 0x6e; 0x64; 0x2e; 0x63; 0x6f; 0x6d].
Definition DATA_SECTION_SEPARATOR : Z := 16.
Definition MAX_DECODE_DEPTH : nat := 64.
Definition MAX_CONTAINER_ENTRIES : Z := 4096.

Record MmdbMetadata := mkMetadata {
  nodeCount : number; recordSize : Z; ipVersion : number;
  databaseType : option value; buildEpoch : option value }.

Section reader.
Context (utf8 : list Z -> jsstr) (keyText : value -> jsstr).
Context (buf : list Z).

Definition size_ : Z := Z.of_nat (length buf).

(** [this.buf[i]], [NaN] standing for [undefined] *)
Definition at_ (i : number) : number :=
  match i with
  | Int z => if (0 <=? z) && (z <? size_) then Int (nth (Z.to_nat z) buf 0) else NaN
  | _ => NaN
  end.

(** [subarray] and [slice] of the next [n] bytes, clamped to the file. *)
Definition slice_ (i n : number) : list Z :=
  match i, nadd i n with
  | Int a, Int b => take (Z.to_nat (b - a)) (drop (Z.to_nat a) buf)
  | _, _ => []
  end.

(** A big-endian floating-point read of [k] bytes. *)
Definition getFloat (i : number) (k : nat) : option (list Z) :=
  let a := match i with Int a => a | _ => 0 end in
  if a + Z.of_nat k <=? size_ then Some (take k (drop (Z.to_nat a) buf)) else None.

Definition iterations (n : number) : nat := match n with Int z => Z.to_nat z | _ => 0%nat end.

Fixpoint readUint_loop (k : nat) (offset : number) (v : number) : number :=
  match k with
  | O => v
  | S k => readUint_loop k (nadd offset (Int 1)) (nadd (nmul v 256) (at_ offset))
  end.
Definition readUint (offset size : number) : number := readUint_loop (iterations size) offset (Int 0).

Fixpoint readInt32_loop (k : nat) (offset : number) (v : Z) : Z :=
  match k with
  | O => v
  | S k => readInt32_loop k (nadd offset (Int 1)) (Z.lor (int32 (Z.shiftl v 8)) (bits (at_ offset)))
  end.
Definition readInt32 (offset size : number) : Z := int32 (readInt32_loop (iterations size) offset 0).

Definition decoded : Type := settled (value * number) MmdbError.

(** [String(k.value)] *)
Definition keyString (v : value) : jsstr := match v with VStr s => s | _ => keyText v end.

(** The loops of [decodeMap] and [decodeArray], over the recursive call. *)
Section loops.
Variable dec : number -> decoded.

Fixpoint map_loop (k : nat) (c : number) (out : list (jsstr * value)) : decoded :=
  match k with
  | O => Resolved (VMap out, c)
  | S k =>
      match dec c with
      | Rejected e => Rejected e
      | Resolved (kv, knext) =>
          match dec knext with
          | Rejected e => Rejected e
          | Resolved (v, vnext) => map_loop k vnext (JsMap.set out (keyString kv) v)
          end
      end
  end.

Definition decodeMap (cursor size : number) : decoded :=
  if nlt (Int MAX_CONTAINER_ENTRIES) size then Rejected ImplausibleMap
  else map_loop (iterations size) cursor [].

Fixpoint array_loop (k : nat) (c : number) (out : list value) : decoded :=
  match k with
  | O => Resolved (VArr out, c)
  | S k =>
      match dec c with
      | Rejected e => Rejected e
      | Resolved (v, vnext) => array_loop k vnext (out ++ [v])
      end
  end.

Definition decodeArray (cursor size : number) : decoded :=
  if nlt (Int MAX_CONTAINER_ENTRIES) size then Rejected ImplausibleArray
  else array_loop (iterations size) cursor [].

(** [decodePointer]; [base] is [this.metaBase || this.dataSectionStart]. *)
Definition decodePointer (base : number) (ctrl : number) (cursor : number) : decoded :=
  let pSize := Z.land (Z.shiftr (bits ctrl) 3) 0x3 in
  let low := Int (Z.land (bits ctrl) 0x7) in
  let at' i := at_ (nadd cursor (Int i)) in
  let '(target, next) :=
    if pSize =? 0 then (Int (Z.lor (shl low 8) (bits (at' 0))), nadd cursor (Int 1))
    else if pSize =? 1 then
      (nadd (Int (Z.lor (Z.lor (shl low 16) (shl (at' 0) 8)) (bits (at' 1)))) (Int 2048), nadd cursor (Int 2))
    else if pSize =? 2 then
      (nadd (Int (Z.lor (Z.lor (Z.lor (shl low 24) (shl (at' 0) 16)) (shl (at' 1) 8)) (bits (at' 2))))
            (Int 526336), nadd cursor (Int 3))
    else
      (nadd (nadd (nadd (nmul (at' 0) 0x1000000) (Int (shl (at' 1) 16))) (Int (shl (at' 2) 8))) (at' 3),
       nadd cursor (Int 4)) in
  match dec (nadd base target) with
  | Rejected e => Rejected e
  | Resolved (v, _) => Resolved (v, next)
  end.
End loops.

(** The size ladder: the size and the cursor after it. *)
Definition readSize (ctrl cursor : number) : number * number :=
  let size := Z.land (bits ctrl) 0x1f in
  let at' i := at_ (nadd cursor (Int i)) in
  if size =? 29 then (nadd (Int 29) (at' 0), nadd cursor (Int 1))
  else if size =? 30 then
    (nadd (Int 285) (Int (Z.lor (shl (at' 0) 8) (bits (at' 1)))), nadd cursor (Int 2))
  else if size =? 31 then
    (nadd (Int 65821) (Int (Z.lor (Z.lor (shl (at' 0) 16) (shl (at' 1) 8)) (bits (at' 2)))),
     nadd cursor (Int 3))
  else (Int size, cursor).

(** The switch of [decode] over the type. *)
Definition decodeType (dec : number -> decoded) (type size cursor : number) : decoded :=
  let next := nadd cursor size in
  match type with
  | Int 2 => Resolved (VStr (utf8 (slice_ cursor size)), next)
  | Int 3 => match getFloat cursor 8 with
             | Some raw => Resolved (VDouble raw, next)
             | None => Rejected RangeError end
  | Int 4 => Resolved (VBytes (slice_ cursor size), next)
  | Int 5 | Int 6 | Int 9 | Int 10 => Resolved (VNum (readUint cursor size), next)
  | Int 7 => decodeMap dec cursor size
  | Int 8 => Resolved (VNum (Int (readInt32 cursor size)), next)
  | Int 11 => decodeArray dec cursor size
  | Int 14 => Resolved (VBool (negb (neq size (Int 0))), cursor)
  | Int 15 => match getFloat cursor 4 with
              | Some raw => Resolved (VFloat raw, next)
              | None => Rejected RangeError end
  | _ => Resolved (VNull, next)
  end.

(** [decode(offset, depth)] with [levels] = 65 - depth: the nesting check
    fails when no level is left. *)
Fixpoint decode (base : number) (levels : nat) (offset : number) : decoded :=
  match levels with
  | O => Rejected NestingExceeded
  | S levels =>
      if nlt offset (Int 0) || nle (Int size_) offset then Rejected OffsetOutside else
      let ctrl := at_ offset in
      let type := Int (Z.shiftr (bits ctrl) 5) in
      let cursor := nadd offset (Int 1) in
      let '(type, cursor) :=
        if neq type (Int 0) then (nadd (Int 7) (at_ cursor), nadd cursor (Int 1)) else (type, cursor) in
      if neq type (Int 1) then decodePointer (decode base levels) base ctrl cursor else
      let '(size, cursor) := readSize ctrl cursor in
      decodeType (decode base levels) type size cursor
  end.

Definition decodeTop (base offset : number) : decoded := decode base (S MAX_DECODE_DEPTH) offset.

(** ** Metadata *)

Definition marker_at (i : nat) : bool :=
  forallb (fun j => neq (at_ (Int (Z.of_nat (i + j)))) (Int (nth j METADATA_MARKER 0)))
    (seq 0 (length METADATA_MARKER)).

(** The loop from [i] down to 0. *)
Fixpoint findMarker (i : nat) : option nat :=
  if marker_at i then Some (i + length METADATA_MARKER)%nat
  else match i with O => None | S i => findMarker i end.

Definition findMetadataStart : option nat :=
  if (length buf <? length METADATA_MARKER)%nat then None
  else findMarker (length buf - length METADATA_MARKER).

(** [Number(v)], where the result is an integer, NaN or Infinity for sure. *)
Definition toNumber (v : option value) : option number :=
  match v with
  | None => Some NaN
  | Some (VNum n) => Some n
  | Some (VBool b) => Some (Int (if b then 1 else 0))
  | Some VNull => Some (Int 0)
  | Some _ => None
  end.

Definition readMetadata : settled MmdbMetadata MmdbError :=
  match findMetadataStart with
  | None => Rejected MarkerNotFound
  | Some start =>
      match decodeTop (Int (Z.of_nat start)) (Int (Z.of_nat start)) with
      | Rejected e => Rejected e
      | Resolved (VNull, _) => Rejected MetadataNotAnObject
      | Resolved (v, _) =>
          let field k := match v with VMap m => JsMap.get m (js k) | _ => None end in
          match toNumber (field "record_size") with
          | Some (Int rs) =>
              if (rs =? 24) || (rs =? 28) || (rs =? 32) then
                match toNumber (field "node_count"), toNumber (field "ip_version") with
                | Some nc, Some ipv =>
                    Resolved (mkMetadata nc rs ipv (field "database_type") (field "build_epoch"))
                | _, _ => Rejected NotModelled
                end
              else Rejected UnsupportedRecordSize
          | Some _ => Rejected UnsupportedRecordSize
          | None => Rejected NotModelled
          end
      end
  end.

(** ** The search tree *)

Record MmdbReader := mkReader { metadata : MmdbMetadata; ipv4StartNode : number }.

Definition fromBuffer : settled MmdbReader MmdbError :=
  match readMetadata with
  | Resolved m => Resolved (mkReader m (Int (-1)))
  | Rejected e => Rejected e
  end.

Definition nodeByteSize (m : MmdbMetadata) : Z := recordSize m * 2 / 8.
Definition searchTreeSize (m : MmdbMetadata) : number := nmul (nodeCount m) (nodeByteSize m).
Definition dataSectionStart (m : MmdbMetadata) : number :=
  nadd (searchTreeSize m) (Int DATA_SECTION_SEPARATOR).

Definition readRecord (m : MmdbMetadata) (node : number) (which : Z) : number :=
  let base := nmul node (nodeByteSize m) in
  let rs := recordSize m in
  if rs =? 24 then
    let at' i := at_ (nadd base (Int (which * 3 + i))) in
    Int (Z.lor (Z.lor (shl (at' 0) 16) (shl (at' 1) 8)) (bits (at' 2)))
  else if rs =? 32 then
    let at' i := at_ (nadd base (Int (which * 4 + i))) in
    nadd (nadd (nadd (nmul (at' 0) 0x1000000) (Int (shl (at' 1) 16))) (Int (shl (at' 2) 8))) (at' 3)
  else
    let at' i := at_ (nadd base (Int i)) in
    let mid := bits (at' 3) in
    if which =? 0 then
      Int (Z.lor (Z.lor (Z.lor (int32 (Z.shiftl (Z.shiftr mid 4) 24)) (shl (at' 0) 16)) (shl (at' 1) 8))
                 (bits (at' 2)))
    else
      Int (Z.lor (Z.lor (Z.lor (int32 (Z.shiftl (Z.land mid 0x0f) 24)) (shl (at' 4) 16)) (shl (at' 5) 8))
                 (bits (at' 6))).

(** The loop of [walkFrom]: it stops at the first node past the tree. *)
Fixpoint walk (m : MmdbMetadata) (node : number) (bs : list Z) : number :=
  match bs with
  | [] => node
  | b :: bs => if nle (nodeCount m) node then node else walk m (readRecord m node b) bs
  end.

Definition walkFrom (m : MmdbMetadata) (startNode : number) (bs : list Z) : settled value MmdbError :=
  let node := walk m startNode bs in
  if neq node (nodeCount m) then Resolved VNull
  else if nlt (nodeCount m) node then
    match node, nodeCount m with
    | Int n, Int c =>
        match decodeTop (dataSectionStart m) (nadd (Int (n - c)) (searchTreeSize m)) with
        | Resolved (v, _) => Resolved v
        | Rejected e => Rejected e
        end
    | _, _ => Resolved VNull (* the records of a node are finite *)
    end
  else Resolved VNull.

(** The loop of [ipv4Start]. *)
Fixpoint ipv4Loop (m : MmdbMetadata) (k : nat) (node : number) : number :=
  match k with
  | O => node
  | S k => if nlt node (nodeCount m) then ipv4Loop m k (readRecord m node 0) else node
  end.

Definition ipv4Start (r : MmdbReader) : MmdbReader * number :=
  if nle (Int 0) (ipv4StartNode r) then (r, ipv4StartNode r)
  else let node := ipv4Loop (metadata r) 96 (Int 0) in (mkReader (metadata r) node, node).
End reader.

(** ** Addresses *)

Definition bytesToBits (bytes : list Z) : list Z :=
  flat_map (fun byte => map (fun b => Z.land (Z.shiftr byte (7 - b)) 1) [0; 1; 2; 3; 4; 5; 6; 7]) bytes.

(** [/^\d{1,3}$/] and [/^[0-9a-fA-F]{1,4}$/] *)
Definition octet_text (s : jsstr) : bool := matches (between 1 3 (Cls [(48, 57)])) s.
Definition hextet_text (s : jsstr) : bool := matches (between 1 4 (Cls [(48, 57); (97, 102); (65, 70)])) s.

Fixpoint parseOctets (parts : list jsstr) : option (list Z) :=
  match parts with
  | [] => Some []
  | p :: parts =>
      if negb (octet_text p) then None
      else let n := Net.Number p in
           if 255 <? n then None else cons n <$> parseOctets parts
  end.

Definition parseIpv4 (ip : jsstr) : option (list Z) :=
  let parts := split ip (js ".") in
  if negb (length parts =? 4)%nat then None else parseOctets parts.

Definition hextet (h : jsstr) : Z := if negb (hextet_text h) then -1 else parse_base 16 h.

Fixpoint hextets (hs : list jsstr) : option (list Z) :=
  match hs with
  | [] => Some []
  | h :: hs => let n := hextet h in if n <? 0 then None else cons n <$> hextets hs
  end.

Definition groupsOf (half : jsstr) : list jsstr :=
  if bool_decide (half = []) then [] else split half (js ":").

Definition parseIpv6 (ip : jsstr) : option (list Z) :=
  if includes ip (js ".") then None else
  let halves := split ip (js "::") in
  if (2 <? length halves)%nat then None else
  let head := groupsOf (nth 0 halves []) in
  let tail := if (length halves =? 2)%nat then groupsOf (nth 1 halves []) else [] in
  match hextets head, hextets tail with
  | Some groups, Some tailGroups =>
      let filled :=
        if (length halves =? 2)%nat then
          let fill := 8 - Z.of_nat (length head) - Z.of_nat (length tail) in
          if fill <? 0 then None else Some (groups ++ replicate (Z.to_nat fill) 0 ++ tailGroups)
        else Some groups in
      match filled with
      | None => None
      | Some groups =>
          if negb (length groups =? 8)%nat then None
          else Some (flat_map (fun g => [Z.shiftr g 8; Z.land g 0xff]) groups)
      end
  | _, _ => None
  end.

Definition parseIp (ip : jsstr) : option (list Z) :=
  if includes ip (js ":") then parseIpv6 ip else parseIpv4 ip.

Definition lookup (utf8 : list Z -> jsstr) (keyText : value -> jsstr) (buf : list Z) (r : MmdbReader)
  (ip : jsstr) : MmdbReader * settled value MmdbError :=
  match parseIp ip with
  | None => (r, Resolved VNull)
  | Some addr =>
      if (length addr =? 4)%nat then
        if neq (ipVersion (metadata r)) (Int 4) then
          (r, walkFrom utf8 keyText buf (metadata r) (Int 0) (bytesToBits addr))
        else
          let '(r', start) := ipv4Start buf r in
          if nlt start (Int 0) then (r', Resolved VNull)
          else (r', walkFrom utf8 keyText buf (metadata r) start (bytesToBits addr))
      else if neq (ipVersion (metadata r)) (Int 4) then (r, Resolved VNull)
      else (r, walkFrom utf8 keyText buf (metadata r) (Int 0) (bytesToBits addr))
  end.

(** ** The address parser *)

Definition octet_texts_ok : bool :=
  forallb (fun n => octet_text (decimal (Z.of_nat n))) (seq 0 256).

Lemma octet_text_decimal n : 0 <= n < 256 -> octet_text (decimal n) = true.
Proof.
  intros Hn. assert (octet_texts_ok = true) as E by (vm_compute; reflexivity).
  unfold octet_texts_ok in E. rewrite forallb_forall in E.
  specialize (E (Z.to_nat n)). rewrite Z2Nat.id in E by lia. apply E, in_seq. lia.
Qed.

Lemma parse_quad a b c d : 0 <= a < 256 -> 0 <= b < 256 -> 0 <= c < 256 -> 0 <= d < 256 ->
  parseIp (Net.decimal_quad a b c d) = Some [a; b; c; d].
Proof.
  intros Ha Hb Hc Hd. unfold parseIp. change (js ":") with [58]. rewrite includes_char_false.
  - unfold parseIpv4. rewrite Net.split_decimal_quad by done.
    assert (forall l, Forall (fun n => 0 <= n < 256) l -> parseOctets (map decimal l) = Some l) as P.
    { induction 1 as [|n l Hn Hl IH]; simpl; [done|]. rewrite octet_text_decimal by done. simpl.
      rewrite (proj2 (Net.decimal_ok n Hn)), (proj2 (Z.ltb_ge 255 n)) by lia. by rewrite IH. }
    exact (P [a; b; c; d] ltac:(auto)).
  - intros [E|(p & Hp & Hin)]%(join_elem 46); [done|]. revert Hin.
    apply Net.digits_no; [done|]. rewrite !elem_of_cons in Hp.
    destruct Hp as [->|[->|[->|[->|Hp]]]]; [by apply Net.decimal_ok..|by apply not_elem_of_nil in Hp].
Qed.

Lemma hextets_map gs : Forall Net.hexgroup gs -> hextets gs = Some (map (parse_base 16) gs).
Proof.
  induction 1 as [|g gs Hg Hgs IH]; simpl; [done|]. unfold hextet, hextet_text.
  assert (matches (between 1 4 (Cls [(48, 57); (97, 102); (65, 70)])) g = true) as ->.
  { apply matches_between; [lia|]. destruct Hg as [Hl Hg]. split; [done|].
    eapply Forall_impl; [exact Hg|]. intros c. unfold is_hex, is_digit, in_class. simpl existsb.
    rewrite !orb_true_iff. naive_solver. }
  simpl. rewrite (proj2 (Z.ltb_ge _ _)) by (by apply Net.hexgroup_bound). by rewrite IH.
Qed.

Lemma groupsOf_join gs : Forall Net.hexgroup gs -> groupsOf (join (js ":") gs) = gs.
Proof.
  intros Hgs. unfold groupsOf. destruct gs as [|g gs]; [done|].
  destruct (Net.join_head _ Hgs ltac:(done)) as (x & s & E & _).
  rewrite bool_decide_eq_false_2 by (by rewrite E). apply (split_join_char 58); [done|].
  eapply Forall_impl; [exact Hgs|]. intros h Hh. by apply Net.hexgroup_no58.
Qed.

(** The sixteen bytes of eight groups. *)
Definition group_bytes (gs : list Z) : list Z := flat_map (fun g => [Z.shiftr g 8; Z.land g 0xff]) gs.

Lemma parse_v6 hs ts : Net.v6_form hs ts ->
  parseIp (Net.v6_text hs ts) = Some (group_bytes (Net.v6_groups hs ts)).
Proof.
  intros Hf. unfold parseIp.
  assert (includes (Net.v6_text hs ts) (js ":") = true) as ->.
  { apply includes_spec. destruct ts as [ts|]; simpl.
    - exists (join (js ":") hs), (js ":" ++ join (js ":") ts). done.
    - destruct Hf as [_ Hl]. destruct hs as [|h1 [|h2 hs]]; [done..|].
      exists h1, (join (js ":") (h2 :: hs)). done. }
  unfold parseIpv6. change (js ".") with [46].
  rewrite includes_char_false by (by apply Net.v6_no).
  destruct Hf as [Hhs Hts]. pose proof (Net.no_double_join hs Hhs) as Hnd.
  destruct ts as [ts|]; cbn [Net.v6_text].
  - destruct Hts as [Hts Hlen]. unfold split.
    change (js "::" ++ join (js ":") ts) with (58 :: 58 :: join (js ":") ts).
    rewrite (Net.split_double _ Hnd [] (join (js ":") ts)).
    rewrite split_go_none by (by apply Net.no_double_includes, Net.no_double_join).
    cbn [length Nat.ltb Nat.leb Nat.eqb nth rev app].
    rewrite !groupsOf_join, !hextets_map by done.
    rewrite (proj2 (Z.ltb_ge _ 0)) by lia.
    assert (Z.to_nat (8 - Z.of_nat (length hs) - Z.of_nat (length ts)) = (8 - length hs - length ts)%nat) as -> by lia.
    rewrite !length_app, !length_map, length_replicate, (proj2 (Nat.eqb_eq _ 8)) by lia. done.
  - rewrite split_none by (by apply Net.no_double_includes). cbn [length Nat.ltb Nat.leb Nat.eqb nth].
    rewrite groupsOf_join, hextets_map by done. simpl hextets. cbv beta iota.
    rewrite length_map, (proj2 (Nat.eqb_eq _ 8)) by done. done.
Qed.
End Mmdb.
