(* ===== verification/MmdbTheory.v ===== *)
(** * Correctness of the GeoIP database reader

    The theorems about [Mmdb]: the metadata block is the one after the last
    marker; on a file that starts with an encoded node table the lookup walks
    that table; and the decoder inverts the format's encoding of strings,
    unsigned integers, booleans, arrays and maps. *)

From S2P Require Import Prelude Result JsMap JsString Net Mmdb.

Module MmdbTheory.
Import JsString Mmdb.

(** ** Arithmetic of small numbers *)

Lemma rnd_small z : z < 2 ^ 53 -> rnd z = Int z.
Proof. intros H. unfold rnd. by rewrite (proj2 (Z.ltb_lt _ _) H). Qed.

Lemma nadd_small a b : a + b < 2 ^ 53 -> nadd (Int a) (Int b) = Int (a + b).
Proof. apply rnd_small. Qed.

Lemma nmul_small a k : a * k < 2 ^ 53 -> nmul (Int a) k = Int (a * k).
Proof. apply rnd_small. Qed.

Lemma int32_small z : 0 <= z < 2 ^ 31 -> int32 z = z.
Proof. intros H. unfold int32. rewrite Z.mod_small by lia. lia. Qed.

Lemma shl_small b k : 0 <= b -> 0 <= k -> b * 2 ^ k < 2 ^ 31 -> shl (Int b) k = b * 2 ^ k.
Proof.
  intros Hb Hk H. unfold shl. simpl bits. rewrite Z.shiftl_mul_pow2 by done. apply int32_small.
  split; [|done]. apply Z.mul_nonneg_nonneg; [done|]. lia.
Qed.

Definition is_byte (b : Z) : Prop := 0 <= b < 256.

Lemma pack2 a b : is_byte a -> is_byte b -> Z.lor (shl (Int a) 8) (bits (Int b)) = a * 256 + b.
Proof.
  unfold is_byte. intros Ha Hb. rewrite shl_small by lia. simpl bits.
  apply (lor_disjoint _ _ 8); [lia|lia|by exists a].
Qed.

Lemma pack3 a b c : is_byte a -> is_byte b -> is_byte c ->
  Z.lor (Z.lor (shl (Int a) 16) (shl (Int b) 8)) (bits (Int c)) = a * 65536 + b * 256 + c.
Proof.
  unfold is_byte. intros Ha Hb Hc. rewrite !shl_small by lia. simpl bits.
  rewrite (lor_disjoint (a * _) _ 16); [|lia|lia|by exists a].
  apply (lor_disjoint _ _ 8); [lia|lia|]. exists (a * 256 + b). lia.
Qed.

Lemma pack4 h a b c : 0 <= h < 16 -> is_byte a -> is_byte b -> is_byte c ->
  Z.lor (Z.lor (Z.lor (int32 (Z.shiftl h 24)) (shl (Int a) 16)) (shl (Int b) 8)) (bits (Int c))
  = h * 2 ^ 24 + a * 65536 + b * 256 + c.
Proof.
  unfold is_byte. intros Hh Ha Hb Hc. rewrite !shl_small by lia.
  rewrite Z.shiftl_mul_pow2, int32_small by lia. simpl bits.
  rewrite (lor_disjoint (h * _) _ 24); [|lia|lia|by exists h].
  rewrite (lor_disjoint _ (b * _) 16); [|lia|lia|exists (h * 256 + a); lia].
  apply (lor_disjoint _ _ 8); [lia|lia|]. exists (h * 65536 + a * 256 + b). lia.
Qed.

Lemma sum4 a b c d : is_byte a -> is_byte b -> is_byte c -> is_byte d ->
  nadd (nadd (nadd (nmul (Int a) 0x1000000) (Int (shl (Int b) 16))) (Int (shl (Int c) 8))) (Int d)
  = Int (a * 2 ^ 24 + b * 65536 + c * 256 + d).
Proof.
  unfold is_byte. intros. rewrite !shl_small by lia. rewrite nmul_small by lia.
  rewrite !nadd_small by lia. done.
Qed.

(** ** Reading bytes of a known part of the file *)

Section buffer.
Context (utf8 : list Z -> jsstr) (keyText : value -> jsstr).

(** [part] lies in the file at offset [o]. *)
Definition part_at (buf : list Z) (o : Z) (part : list Z) : Prop :=
  exists pre post, buf = pre ++ part ++ post /\ o = Z.of_nat (length pre).

Lemma part_nonneg buf o part : part_at buf o part -> 0 <= o.
Proof. intros (? & ? & _ & ->). lia. Qed.

Lemma part_end buf o part : part_at buf o part -> o + Z.of_nat (length part) <= Z.of_nat (length buf).
Proof. intros (? & ? & -> & ->). rewrite !length_app. lia. Qed.

Lemma part_head buf o p q : part_at buf o (p ++ q) -> part_at buf o p.
Proof. intros (pre & post & -> & ->). exists pre, (q ++ post). by rewrite <-!app_assoc. Qed.

Lemma part_tail buf o p q : part_at buf o (p ++ q) -> part_at buf (o + Z.of_nat (length p)) q.
Proof.
  intros (pre & post & -> & ->). exists (pre ++ p), post. rewrite <-!app_assoc, length_app. split; [done|lia].
Qed.

Lemma at_part buf o part i b : part_at buf o part -> part !! i = Some b ->
  at_ buf (Int (o + Z.of_nat i)) = Int b.
Proof.
  intros (pre & post & -> & ->) Hb. pose proof (lookup_lt_Some _ _ _ Hb) as Hi. unfold at_, size_.
  rewrite !length_app, (proj2 (Z.leb_le _ _)), (proj2 (Z.ltb_lt _ _)) by lia. cbn [andb].
  f_equal. rewrite <-Nat2Z.inj_add, Nat2Z.id, app_nth2_plus, app_nth1 by done.
  apply nth_lookup_Some with (d := 0) in Hb. done.
Qed.

Lemma slice_part buf o part n : part_at buf o part -> (n <= length part)%nat ->
  o + Z.of_nat n < 2 ^ 53 -> slice_ buf (Int o) (Int (Z.of_nat n)) = take n part.
Proof.
  intros (pre & post & -> & ->) Hn Hs. unfold slice_. rewrite nadd_small by done.
  rewrite Nat2Z.id, drop_app_length. rewrite take_app_le by lia. f_equal. lia.
Qed.

(** ** The metadata marker *)

Lemma marker_at_spec buf i : marker_at buf i = true <-> part_at buf (Z.of_nat i) METADATA_MARKER.
Proof.
  unfold marker_at. rewrite forallb_forall. split.
  - intros Hj.
    assert (forall j, (j < 14)%nat -> buf !! (i + j)%nat = METADATA_MARKER !! j) as Hb.
    { intros j Hjl. specialize (Hj j ltac:(apply in_seq; simpl; lia)). unfold at_, size_ in Hj.
      destruct (_ && _) eqn:E in Hj; [|done]. reflect_bools. apply Z.eqb_eq in Hj.
      rewrite Nat2Z.id in Hj.
      destruct (lookup_lt_is_Some_2 METADATA_MARKER j ltac:(simpl; lia)) as [x Hx].
      destruct (lookup_lt_is_Some_2 buf (i + j) ltac:(lia)) as [y Hy].
      rewrite (nth_lookup_Some _ _ 0 _ Hx), (nth_lookup_Some _ _ 0 _ Hy) in Hj. congruence. }
    assert (i + 13 < length buf)%nat as Hlen.
    { apply lookup_lt_is_Some. rewrite Hb by lia. by eexists. }
    exists (take i buf), (drop (i + 14) buf). rewrite length_take, Nat.min_l by lia. split; [|done].
    rewrite <-(take_drop i buf) at 1. f_equal. rewrite <-(take_drop 14 (drop i buf)) at 1.
    rewrite drop_drop. f_equal. apply list_eq. intros j. destruct (Nat.lt_ge_cases j 14).
    + rewrite lookup_take_lt by done. rewrite lookup_drop. by apply Hb.
    + rewrite lookup_take_ge by done. symmetry. by apply lookup_ge_None_2.
  - intros Hp j Hj%in_seq. destruct (lookup_lt_is_Some_2 METADATA_MARKER j ltac:(simpl in *; lia)) as [x Hx].
    rewrite Nat2Z.inj_add, (at_part _ _ _ _ _ Hp Hx), (nth_lookup_Some _ _ 0 _ Hx). apply Z.eqb_refl.
Qed.

Lemma findMarker_spec buf n :
  match findMarker buf n with
  | Some st => exists i, st = (i + 14)%nat /\ (i <= n)%nat /\ marker_at buf i = true /\
      forall j, (i < j <= n)%nat -> marker_at buf j = false
  | None => forall j, (j <= n)%nat -> marker_at buf j = false
  end.
Proof.
  induction n as [|n IH]; cbn [findMarker]; destruct (marker_at buf _) eqn:E.
  - exists 0%nat. split_and!; [done|lia|done|lia].
  - intros j Hj. by replace j with 0%nat by lia.
  - exists (S n). split_and!; [done|lia|done|lia].
  - destruct (findMarker buf n) as [st|].
    + destruct IH as (i & -> & Hi & Hm & Hl). exists i. split_and!; [done|lia|done|].
      intros j Hj. destruct (decide (j = S n)) as [->|]; [done|]. apply Hl. lia.
    + intros j Hj. destruct (decide (j = S n)) as [->|]; [done|]. apply IH. lia.
Qed.

(** The metadata block starts right after the last occurrence of the
    marker in the file, and opening fails for want of a marker exactly when
    the file contains none. *)
Theorem metadata_last_marker buf :
  match findMetadataStart buf with
  | Some st => exists pre post, buf = pre ++ METADATA_MARKER ++ post /\
      st = (length pre + 14)%nat /\
      forall pre' post', buf = pre' ++ METADATA_MARKER ++ post' -> (length pre' <= length pre)%nat
  | None => forall pre post, buf <> pre ++ METADATA_MARKER ++ post
  end.
Proof.
  unfold findMetadataStart. destruct (Nat.ltb_spec (length buf) (length METADATA_MARKER)) as [Hs|Hs].
  { intros pre post E. apply (f_equal length) in E. rewrite !length_app in E. lia. }
  assert (forall j pre post, buf = pre ++ METADATA_MARKER ++ post -> j = length pre ->
    marker_at buf j = true /\ (j <= length buf - length METADATA_MARKER)%nat) as Hocc.
  { intros j pre post E ->. split; [apply marker_at_spec; by exists pre, post|].
    apply (f_equal length) in E. rewrite !length_app in E. lia. }
  pose proof (findMarker_spec buf (length buf - length METADATA_MARKER)) as F.
  destruct (findMarker _ _) as [st|].
  - destruct F as (i & -> & Hi & Hm & Hl). apply marker_at_spec in Hm as (pre & post & E & Ei).
    exists pre, post. split_and!; [done|lia|]. intros pre' post' E'.
    destruct (Hocc _ _ _ E' eq_refl) as [Hm' Hle]. destruct (Nat.le_gt_cases (length pre') i); [lia|].
    rewrite Hl in Hm' by lia. done.
  - intros pre post E. destruct (Hocc _ _ _ E eq_refl) as [Hm Hle]. by rewrite F in Hm.
Qed.

(** ** The node table *)

(** A node of the file format: two records of 24, 28 or 32 bits. *)
Definition encode_node (rs : Z) (lr : Z * Z) : list Z :=
  let '(l, r) := lr in
  let low n := [n / 65536 mod 256; n / 256 mod 256; n mod 256] in
  if rs =? 24 then low l ++ low r
  else if rs =? 32 then (l / 2 ^ 24) :: low l ++ (r / 2 ^ 24) :: low r
  else low l ++ (l / 2 ^ 24 * 16 + r / 2 ^ 24) :: low r.

Definition record_size (rs : Z) : Prop := rs = 24 \/ rs = 28 \/ rs = 32.

Lemma encode_node_length rs lr : record_size rs -> length (encode_node rs lr) = Z.to_nat (rs * 2 / 8).
Proof. destruct lr. by intros [->|[->| ->]]. Qed.

(** The file starts with the table, and the metadata describes it. *)
Record table_db (buf : list Z) (m : MmdbMetadata) (nodes : list (Z * Z)) : Prop := {
  td_rs : record_size (recordSize m);
  td_count : nodeCount m = Int (Z.of_nat (length nodes));
  td_buf : part_at buf 0 (flat_map (encode_node (recordSize m)) nodes);
  td_small : Z.of_nat (length nodes) < 2 ^ 32;
  td_records : Forall (fun lr => 0 <= lr.1 < 2 ^ recordSize m /\ 0 <= lr.2 < 2 ^ recordSize m) nodes;
}.

Lemma table_node buf o rs nodes n lr : record_size rs -> part_at buf o (flat_map (encode_node rs) nodes) ->
  nodes !! n = Some lr -> part_at buf (o + Z.of_nat n * (rs * 2 / 8)) (encode_node rs lr).
Proof.
  intros Hrs. revert o n. induction nodes as [|x nodes IH]; intros o n Hp Hn; [done|]. cbn [flat_map] in Hp.
  destruct n as [|n]; simplify_eq/=.
  - rewrite Z.add_0_r. by apply part_head in Hp.
  - apply part_tail in Hp. rewrite (encode_node_length rs x Hrs) in Hp.
    specialize (IH _ _ Hp Hn). assert (0 < rs * 2 / 8) by (destruct Hrs as [->|[->| ->]]; done).
    rewrite Z2Nat.id in IH by lia. by replace (o + Z.of_nat (S n) * (rs * 2 / 8))
      with (o + rs * 2 / 8 + Z.of_nat n * (rs * 2 / 8)) by lia.
Qed.

Lemma byte_mod x : is_byte (x mod 256).
Proof. unfold is_byte. apply Z.mod_pos_bound. lia. Qed.

Lemma digits3 x : 0 <= x < 2 ^ 24 -> x / 65536 mod 256 * 65536 + x / 256 mod 256 * 256 + x mod 256 = x.
Proof. intros. Z.div_mod_to_equations. lia. Qed.

Lemma digits4 x : 0 <= x < 2 ^ 32 ->
  is_byte (x / 2 ^ 24) /\
  x / 2 ^ 24 * 2 ^ 24 + x / 65536 mod 256 * 65536 + x / 256 mod 256 * 256 + x mod 256 = x.
Proof. unfold is_byte. intros. split; Z.div_mod_to_equations; lia. Qed.

Lemma digits28 x : 0 <= x < 2 ^ 28 -> 0 <= x / 2 ^ 24 < 16.
Proof. intros. Z.div_mod_to_equations; lia. Qed.

Lemma nibbles h l : 0 <= h < 16 -> 0 <= l < 16 ->
  Z.shiftr (h * 16 + l) 4 = h /\ Z.land (h * 16 + l) 0x0f = l.
Proof.
  intros Hh Hl. rewrite Z.shiftr_div_pow2 by lia. change 0x0f with (Z.ones 4). rewrite Z.land_ones by lia.
  change (2 ^ 4) with 16. split; Z.div_mod_to_equations; lia.
Qed.

(** Reading a record of a written node gives the record. *)
Lemma readRecord_table buf m nodes n l r w : table_db buf m nodes -> nodes !! n = Some (l, r) ->
  w = 0 \/ w = 1 ->
  readRecord buf m (Int (Z.of_nat n)) w = Int (if w =? 0 then l else r).
Proof.
  intros [Hrs _ Hbuf Hsmall Hrec] Hn Hw. pose proof (table_node _ _ _ _ _ _ Hrs Hbuf Hn) as Hp.
  rewrite Forall_lookup in Hrec. specialize (Hrec _ _ Hn). simpl in Hrec. destruct Hrec as [Hl Hr].
  pose proof (lookup_lt_Some _ _ _ Hn) as Hlt. unfold readRecord, nodeByteSize.
  assert (0 <= Z.of_nat n * (recordSize m * 2 / 8) <= Z.of_nat n * 8) as Hbase.
  { destruct Hrs as [->|[->| ->]]; [change (24 * 2 / 8) with 6|change (28 * 2 / 8) with 7|
      change (32 * 2 / 8) with 8]; lia. }
  rewrite Z.add_0_l in Hp. rewrite nmul_small by lia.
  assert (forall i b, 0 <= i < 8 -> encode_node (recordSize m) (l, r) !! Z.to_nat i = Some b ->
    at_ buf (nadd (Int (Z.of_nat n * (recordSize m * 2 / 8))) (Int i)) = Int b) as Hat.
  { intros i b Hi Hb. rewrite nadd_small by lia.
    rewrite <-(Z2Nat.id i) by lia. by eapply at_part. }
  destruct Hrs as [E|[E|E]]; rewrite E in Hat, Hl, Hr |- *; cbn [Z.eqb Pos.eqb].
  - destruct Hw as [->| ->]; cbn [Z.eqb]; do 3 (erewrite Hat; [|lia|reflexivity]);
      rewrite pack3 by apply byte_mod; by rewrite digits3.
  - pose proof (digits28 l Hl) as Hlh. pose proof (digits28 r Hr) as Hrh.
    destruct (nibbles _ _ Hlh Hrh) as [N1 N2].
    destruct Hw as [->| ->]; cbn [Z.eqb]; do 4 (erewrite Hat; [|lia|reflexivity]);
      change (bits (Int (l / 2 ^ 24 * 16 + r / 2 ^ 24))) with (l / 2 ^ 24 * 16 + r / 2 ^ 24);
      rewrite ?N1, ?N2, pack4 by (done || apply byte_mod);
      f_equal; apply digits4; lia.
  - pose proof (digits4 l Hl) as [Bl El]. pose proof (digits4 r Hr) as [Br Er].
    destruct Hw as [->| ->]; cbn [Z.eqb]; do 4 (erewrite Hat; [|lia|reflexivity]);
      rewrite sum4 by (done || apply byte_mod); by rewrite ?El, ?Er.
Qed.

(** The walk over the table, as the format defines it. *)
Fixpoint table_walk (nodes : list (Z * Z)) (node : Z) (bs : list Z) : Z :=
  match bs with
  | [] => node
  | b :: bs =>
      match nodes !! Z.to_nat node with
      | None => node
      | Some (l, r) => table_walk nodes (if b =? 0 then l else r) bs
      end
  end.

Lemma walk_table buf m nodes bs : table_db buf m nodes -> Forall (fun b => b = 0 \/ b = 1) bs ->
  forall node, 0 <= node < 2 ^ 32 ->
  walk buf m (Int node) bs = Int (table_walk nodes node bs) /\ 0 <= table_walk nodes node bs < 2 ^ 32.
Proof.
  intros Hdb Hbs. induction Hbs as [|b bs Hb Hbs IH]; intros node Hn; [done|]. cbn [walk table_walk].
  rewrite (td_count _ _ _ Hdb). cbn [nle]. destruct (nodes !! Z.to_nat node) as [[l r]|] eqn:En.
  - pose proof (lookup_lt_Some _ _ _ En). rewrite (proj2 (Z.leb_gt _ _)) by lia.
    rewrite <-(Z2Nat.id node) at 1 by lia. rewrite (readRecord_table _ _ _ _ _ _ _ Hdb En Hb).
    pose proof (td_records _ _ _ Hdb) as Hr. rewrite Forall_lookup in Hr. specialize (Hr _ _ En). simpl in Hr.
    assert (2 ^ recordSize m <= 2 ^ 32) by (destruct (td_rs _ _ _ Hdb) as [->|[->| ->]]; done).
    apply IH. destruct (b =? 0); lia.
  - apply lookup_ge_None in En. by rewrite (proj2 (Z.leb_le _ _)) by lia.
Qed.

(** What a lookup answers when the walk ends at [node]. *)
Definition answer (buf : list Z) (m : MmdbMetadata) (count node : Z) : settled value MmdbError :=
  if node <=? count then Resolved VNull
  else match decodeTop utf8 keyText buf (dataSectionStart m)
               (Int (node - count + count * nodeByteSize m)) with
       | Resolved (v, _) => Resolved v
       | Rejected e => Rejected e
       end.

Lemma nodeByteSize_bound m : record_size (recordSize m) -> 0 < nodeByteSize m <= 8.
Proof. unfold nodeByteSize. by intros [->|[->| ->]]. Qed.

Lemma walkFrom_table buf m nodes bs node : table_db buf m nodes -> Forall (fun b => b = 0 \/ b = 1) bs ->
  0 <= node < 2 ^ 32 ->
  walkFrom utf8 keyText buf m (Int node) bs
  = answer buf m (Z.of_nat (length nodes)) (table_walk nodes node bs).
Proof.
  intros Hdb Hbs Hn. destruct (walk_table _ _ _ _ Hdb Hbs node Hn) as [W Hw].
  unfold walkFrom, answer. rewrite W, (td_count _ _ _ Hdb). cbn [neq nlt].
  pose proof (nodeByteSize_bound m (td_rs _ _ _ Hdb)) as Hbs'. pose proof (td_small _ _ _ Hdb) as Hs.
  assert (0 <= Z.of_nat (length nodes) * nodeByteSize m <= Z.of_nat (length nodes) * 8) as Hm by nia.
  unfold searchTreeSize. rewrite (td_count _ _ _ Hdb), nmul_small by lia.
  destruct (Z.eqb_spec (table_walk nodes node bs) (Z.of_nat (length nodes))).
  { by rewrite (proj2 (Z.leb_le _ _)) by lia. }
  destruct (Z.ltb_spec (Z.of_nat (length nodes)) (table_walk nodes node bs)).
  - rewrite (proj2 (Z.leb_gt _ _)), nadd_small by lia. done.
  - by rewrite (proj2 (Z.leb_le _ _)) by lia.
Qed.

(** ** Lookups *)

Lemma bytesToBits_bits bytes : Forall (fun b => b = 0 \/ b = 1) (bytesToBits bytes).
Proof.
  unfold bytesToBits. apply Forall_flat_map. apply Forall_true. intros byte.
  apply Forall_map. apply Forall_true. intros b. change 1 with (Z.ones 1). rewrite Z.land_ones by lia.
  change (2 ^ 1) with 2. pose proof (Z.mod_pos_bound (Z.shiftr byte (7 - b)) 2 ltac:(lia)).
  change (Z.ones 1) with 1. lia.
Qed.

Lemma table_walk_app nodes bs : forall node bs',
  table_walk nodes node (bs ++ bs') = table_walk nodes (table_walk nodes node bs) bs'.
Proof.
  induction bs as [|b bs IH]; intros node bs'; [done|]. cbn [app table_walk].
  destruct (nodes !! Z.to_nat node) as [[l r]|] eqn:E; [apply IH|].
  destruct bs'; cbn [table_walk]; by rewrite ?E.
Qed.

Lemma ipv4Loop_table buf m nodes k : table_db buf m nodes -> forall node, 0 <= node < 2 ^ 32 ->
  ipv4Loop buf m k (Int node) = Int (table_walk nodes node (replicate k 0)).
Proof.
  intros Hdb. induction k as [|k IH]; intros node Hn; [done|]. cbn [ipv4Loop replicate table_walk].
  rewrite (td_count _ _ _ Hdb). cbn [nlt]. destruct (nodes !! Z.to_nat node) as [[l r]|] eqn:En.
  - pose proof (lookup_lt_Some _ _ _ En). rewrite (proj2 (Z.ltb_lt _ _)) by lia.
    rewrite <-(Z2Nat.id node) at 1 by lia. rewrite (readRecord_table _ _ _ _ _ _ 0 Hdb En ltac:(by left)).
    pose proof (td_records _ _ _ Hdb) as Hr. rewrite Forall_lookup in Hr. specialize (Hr _ _ En). simpl in Hr.
    assert (2 ^ recordSize m <= 2 ^ 32) by (destruct (td_rs _ _ _ Hdb) as [->|[->| ->]]; done).
    apply IH. simpl. lia.
  - apply lookup_ge_None in En. by rewrite (proj2 (Z.ltb_ge _ _)) by lia.
Qed.

(** The node of ::/96, and the reader's cache of it. *)
Definition v4_root (nodes : list (Z * Z)) : Z := table_walk nodes 0 (replicate 96 0).
Definition cache_ok (nodes : list (Z * Z)) (r : MmdbReader) : Prop :=
  ipv4StartNode r = Int (-1) \/ ipv4StartNode r = Int (v4_root nodes).

Lemma zeros_bits k : Forall (fun b => b = 0 \/ b = 1) (replicate k 0).
Proof. apply Forall_replicate. by left. Qed.

Lemma v4_root_bound buf m nodes : table_db buf m nodes -> 0 <= v4_root nodes < 2 ^ 32.
Proof. intros Hdb. apply (walk_table _ _ _ _ Hdb (zeros_bits 96) 0). lia. Qed.

Lemma ipv4Start_table buf r nodes : table_db buf (metadata r) nodes -> cache_ok nodes r ->
  exists r', ipv4Start buf r = (r', Int (v4_root nodes)) /\ metadata r' = metadata r /\ cache_ok nodes r'.
Proof.
  intros Hdb Hc. pose proof (v4_root_bound _ _ _ Hdb). unfold ipv4Start.
  destruct Hc as [->| E]; cbn [nle].
  - change (0 <=? -1) with false. cbn iota zeta. rewrite (ipv4Loop_table _ _ _ _ Hdb) by lia.
    eexists. split_and!; [done|done|by right].
  - rewrite E. rewrite (proj2 (Z.leb_le _ _)) by lia. exists r. split_and!; [done|done|by right].
Qed.

(** The address bits a lookup of [addr] walks in a database of version [v]. *)
Definition path (v : Z) (addr : list Z) : option (list Z) :=
  if (length addr =? 4)%nat then
    Some (if v =? 4 then bytesToBits addr else replicate 96 0 ++ bytesToBits addr)
  else if v =? 4 then None else Some (bytesToBits addr).

(** On a file whose search tree is the encoding of a node table, with 24,
    28 or 32-bit records, a lookup walks the table bit by bit from its root
    and answers with the record it reaches; an IPv4 address in an IPv6
    database is looked up under 96 zero bits, whether or not that prefix is
    cached; an IPv6 address in an IPv4 database and a text that is no address
    have no record; and the cache stays right for the next lookup. *)
Theorem lookup_walks_table buf r nodes v ip :
  table_db buf (metadata r) nodes -> cache_ok nodes r -> ipVersion (metadata r) = Int v ->
  snd (lookup utf8 keyText buf r ip) =
    match parseIp ip ≫= path v with
    | Some bs => answer buf (metadata r) (Z.of_nat (length nodes)) (table_walk nodes 0 bs)
    | None => Resolved VNull
    end /\
  metadata (fst (lookup utf8 keyText buf r ip)) = metadata r /\
  cache_ok nodes (fst (lookup utf8 keyText buf r ip)).
Proof.
  intros Hdb Hc Hv. unfold lookup. destruct (parseIp ip) as [addr|]; [|done]. cbn [mbind option_bind].
  unfold path. rewrite Hv. cbn [neq].
  assert (forall node, 0 <= node < 2 ^ 32 ->
    walkFrom utf8 keyText buf (metadata r) (Int node) (bytesToBits addr)
    = answer buf (metadata r) (Z.of_nat (length nodes)) (table_walk nodes node (bytesToBits addr))) as W.
  { intros node Hn. apply walkFrom_table; [done|apply bytesToBits_bits|done]. }
  destruct (length addr =? 4)%nat; destruct (v =? 4); cbn [fst snd]; try (by rewrite ?W by lia).
  destruct (ipv4Start_table _ _ _ Hdb Hc) as (r' & -> & Em & Hc').
  pose proof (v4_root_bound _ _ _ Hdb). cbn [nlt]. rewrite (proj2 (Z.ltb_ge _ _)) by lia. cbn [fst snd].
  rewrite W by done. by rewrite table_walk_app.
Qed.

(** The address parser reads the texts of addresses: four decimal octets
    give their four bytes; an IPv6 text with eight groups, or with [::] in
    place of the missing ones, gives the sixteen bytes of its groups. *)
Theorem parse_ip_roundtrip a b c d hs ts :
  0 <= a < 256 -> 0 <= b < 256 -> 0 <= c < 256 -> 0 <= d < 256 -> Net.v6_form hs ts ->
  parseIp (Net.decimal_quad a b c d) = Some [a; b; c; d] /\
  parseIp (Net.v6_text hs ts) = Some (group_bytes (Net.v6_groups hs ts)).
Proof. intros. split; [by apply parse_quad|by apply parse_v6]. Qed.
End buffer.
End MmdbTheory.
