(* ===== verification/MmdbCodec.v ===== *)
(** * The GeoIP data section: decoding inverts encoding

    An encoder for the values a city, country or ASN database holds (strings,
    unsigned integers, booleans, arrays and maps), written from the format,
    and the proof that the reader's [decode] of [Mmdb] inverts it; and the
    rejection of a pointer that leads to itself. *)

From S2P Require Import Prelude Result JsMap JsString Net Mmdb MmdbTheory.

Module MmdbCodec.
Import Mmdb MmdbTheory.

Unset Elimination Schemes.
Inductive doc :=
| DStr (raw : list Z)
| DUint (ty : Z) (raw : list Z)
| DBool (b : bool)
| DArr (items : list doc)
| DMap (fields : list (list Z * doc)).
Set Elimination Schemes.

Section doc_ind.
Variable P : doc -> Prop.
Hypothesis HStr : forall raw, P (DStr raw).
Hypothesis HUint : forall ty raw, P (DUint ty raw).
Hypothesis HBool : forall b, P (DBool b).
Hypothesis HArr : forall items, Forall P items -> P (DArr items).
Hypothesis HMap : forall fields, Forall (fun f => P f.2) fields -> P (DMap fields).

Fixpoint doc_ind (d : doc) : P d :=
  match d with
  | DStr raw => HStr raw
  | DUint ty raw => HUint ty raw
  | DBool b => HBool b
  | DArr items => HArr items
      ((fix go l : Forall P l :=
          match l with [] => Forall_nil_2 P | x :: l => Forall_cons_2 P x l (doc_ind x) (go l) end) items)
  | DMap fields => HMap fields
      ((fix go l : Forall (fun f => P f.2) l :=
          match l with
          | [] => Forall_nil_2 _
          | (k, x) :: l => Forall_cons_2 _ (k, x) l (doc_ind x) (go l)
          end) fields)
  end.
End doc_ind.

(** The five size bits of the control byte and the bytes that extend them. *)
Definition size_bits (n : Z) : Z :=
  if n <? 29 then n else if n <? 285 then 29 else if n <? 65821 then 30 else 31.
Definition size_ext (n : Z) : list Z :=
  if n <? 29 then [] else if n <? 285 then [n - 29]
  else if n <? 65821 then [(n - 285) / 256; (n - 285) mod 256]
  else [(n - 65821) / 65536 mod 256; (n - 65821) / 256 mod 256; (n - 65821) mod 256].

(** The control byte, the extended type if any, and the size. *)
Definition head (ty n : Z) : list Z :=
  if ty <=? 7 then (ty * 32 + size_bits n) :: size_ext n
  else size_bits n :: (ty - 7) :: size_ext n.

Definition str_bytes (raw : list Z) : list Z := head 2 (Z.of_nat (length raw)) ++ raw.

Fixpoint encode (d : doc) : list Z :=
  match d with
  | DStr raw => str_bytes raw
  | DUint ty raw => head ty (Z.of_nat (length raw)) ++ raw
  | DBool b => head 14 (if b then 1 else 0)
  | DArr items => head 11 (Z.of_nat (length items)) ++ flat_map encode items
  | DMap fields => head 7 (Z.of_nat (length fields)) ++ flat_map (fun f => str_bytes f.1 ++ encode f.2) fields
  end.

(** The number of levels of [decode] a value needs below its own. *)
Fixpoint depth (d : doc) : nat :=
  match d with
  | DStr _ | DUint _ _ | DBool _ => 0
  | DArr items => fold_right (fun x n => Nat.max (S (depth x)) n) 0%nat items
  | DMap fields => fold_right (fun f n => Nat.max (S (depth f.2)) n) 0%nat fields
  end.

Definition be (raw : list Z) : Z := fold_left (fun v b => v * 256 + b) raw 0.

Definition max_size : Z := 65821 + 2 ^ 24.

(** Within the format's and the reader's limits. *)
Fixpoint fits (d : doc) : Prop :=
  match d with
  | DStr raw => Z.of_nat (length raw) < max_size
  | DUint ty raw => (ty = 5 \/ ty = 6 \/ ty = 9 \/ ty = 10) /\ Forall is_byte raw /\
                    (length raw <= 16)%nat /\ be raw < 2 ^ 53
  | DBool _ => True
  | DArr items => (length items <= 4096)%nat /\ fold_right (fun x p => fits x /\ p) True items
  | DMap fields => (length fields <= 4096)%nat /\
      fold_right (fun f p => (Z.of_nat (length f.1) < max_size /\ fits f.2) /\ p) True fields
  end.

Lemma split_ctrl x s5 : 0 <= x -> 0 <= s5 < 32 ->
  Z.shiftr (x * 32 + s5) 5 = x /\ Z.land (x * 32 + s5) 0x1f = s5.
Proof.
  intros Hx Hs. rewrite Z.shiftr_div_pow2 by lia. change 0x1f with (Z.ones 5). rewrite Z.land_ones by lia.
  change (2 ^ 5) with 32. split; Z.div_mod_to_equations; lia.
Qed.

Lemma size_bits_bound n : 0 <= n -> 0 <= size_bits n < 32.
Proof. intros. unfold size_bits. crush_if. Qed.

Section sizes.
Context (buf : list Z) (Hbuf : Z.of_nat (length buf) < 2 ^ 52).

(** A byte of a part, at the index the reader computes. *)
Lemma at_nadd o part i b : part_at buf o part -> 0 <= i -> part !! Z.to_nat i = Some b ->
  at_ buf (nadd (Int o) (Int i)) = Int b.
Proof.
  intros Hp Hi Hb. pose proof (part_nonneg _ _ _ Hp). pose proof (part_end _ _ _ Hp).
  pose proof (lookup_lt_Some _ _ _ Hb). rewrite nadd_small by lia. rewrite <-(Z2Nat.id i) by done.
  by eapply at_part.
Qed.

Lemma readSize_ext x n c : 0 <= x -> 0 <= n < max_size -> part_at buf c (size_ext n) ->
  readSize buf (Int (x * 32 + size_bits n)) (Int c) = (Int n, Int (c + Z.of_nat (length (size_ext n)))).
Proof.
  intros Hx Hn Hp. unfold readSize. cbn [bits].
  rewrite (proj2 (split_ctrl x _ Hx (size_bits_bound n (proj1 Hn)))).
  pose proof (part_nonneg _ _ _ Hp) as Hc. pose proof (part_end _ _ _ Hp) as Hend.
  unfold size_bits, size_ext, max_size in *.
  destruct (Z.ltb_spec n 29); [|destruct (Z.ltb_spec n 285); [|destruct (Z.ltb_spec n 65821)]].
  - rewrite !(proj2 (Z.eqb_neq n _)) by lia. by rewrite Z.add_0_r.
  - cbn [Z.eqb Pos.eqb]. rewrite (at_nadd _ _ 0 _ Hp ltac:(lia) eq_refl).
    rewrite !nadd_small by (simpl in *; lia). f_equal. f_equal. lia.
  - cbn [Z.eqb Pos.eqb]. rewrite (at_nadd _ _ 0 _ Hp ltac:(lia) eq_refl), (at_nadd _ _ 1 _ Hp ltac:(lia) eq_refl).
    rewrite pack2; [|unfold is_byte; Z.div_mod_to_equations; lia|apply byte_mod].
    rewrite !nadd_small by (simpl in *; Z.div_mod_to_equations; lia). f_equal. f_equal.
    Z.div_mod_to_equations. lia.
  - cbn [Z.eqb Pos.eqb]. rewrite (at_nadd _ _ 0 _ Hp ltac:(lia) eq_refl), (at_nadd _ _ 1 _ Hp ltac:(lia) eq_refl),
      (at_nadd _ _ 2 _ Hp ltac:(lia) eq_refl).
    rewrite pack3 by apply byte_mod. rewrite digits3 by lia.
    rewrite !nadd_small by (simpl in *; lia). f_equal. f_equal. lia.
Qed.
End sizes.

Section codec.
Context (utf8 : list Z -> jsstr) (keyText : value -> jsstr).

Fixpoint denote (d : doc) : value :=
  match d with
  | DStr raw => VStr (utf8 raw)
  | DUint _ raw => VNum (Int (be raw))
  | DBool b => VBool b
  | DArr items => VArr (map denote items)
  | DMap fields => VMap (fold_left (fun m f => JsMap.set m f.1 f.2)
                           (map (fun f => (utf8 f.1, denote f.2)) fields) [])
  end.

Context (buf : list Z) (Hbuf : Z.of_nat (length buf) < 2 ^ 52).

Notation dec base := (Mmdb.decode utf8 keyText buf base).

(** After the head of a value the reader is at its content, with its type
    and size. *)
Lemma decode_head base levels o ty n rest :
  (2 <= ty <= 255 /\ ty <> 1) -> 0 <= n < max_size -> part_at buf o (head ty n ++ rest) ->
  dec base (S levels) (Int o) =
  decodeType utf8 keyText buf (dec base levels) (Int ty) (Int n) (Int (o + Z.of_nat (length (head ty n)))).
Proof.
  intros Hty Hn Hp. cbn [Mmdb.decode]. pose proof (part_nonneg _ _ _ Hp) as Ho. pose proof (part_end _ _ _ Hp) as Hend.
  pose proof (size_bits_bound n (proj1 Hn)) as Hsb.
  assert (1 <= Z.of_nat (length (head ty n))) as Hl1 by (unfold head; destruct (ty <=? 7); simpl; lia).
  rewrite length_app, Nat2Z.inj_add in Hend.
  assert (nlt (Int o) (Int 0) || nle (Int (size_ buf)) (Int o) = false) as ->.
  { unfold size_. cbn [nlt nle]. rewrite (proj2 (Z.ltb_ge _ _)), (proj2 (Z.leb_gt _ _)) by lia. done. }
  apply part_head in Hp. unfold head in Hp, Hend, Hl1 |- *. destruct (Z.leb_spec ty 7).
  - replace (at_ buf (Int o)) with (Int (ty * 32 + size_bits n))
      by (symmetry; replace o with (o + Z.of_nat 0) by lia; by eapply at_part).
    cbn [bits]. rewrite (proj1 (split_ctrl ty _ ltac:(lia) Hsb)). cbn [neq].
    rewrite (proj2 (Z.eqb_neq ty 0)) by lia. cbv beta iota. cbn [neq].
    rewrite (proj2 (Z.eqb_neq ty 1)) by lia.
    rewrite nadd_small by lia. rewrite (readSize_ext buf Hbuf ty n); [|lia|done|].
    + do 2 f_equal. simpl length. lia.
    + by apply (part_tail buf o [_]) in Hp.
  - replace (at_ buf (Int o)) with (Int (0 * 32 + size_bits n))
      by (symmetry; replace o with (o + Z.of_nat 0) by lia; by eapply at_part).
    cbn [bits]. rewrite (proj1 (split_ctrl 0 _ ltac:(lia) Hsb)). cbn [neq Z.eqb].
    rewrite (at_nadd buf Hbuf o _ 1 (ty - 7) Hp ltac:(lia) eq_refl).
    simpl length in Hend. rewrite !nadd_small by lia. cbn [neq].
    rewrite (proj2 (Z.eqb_neq (7 + (ty - 7)) 1)) by lia.
    rewrite (readSize_ext buf Hbuf 0 n); [|lia|done|].
    + replace (7 + (ty - 7)) with ty by lia. do 2 f_equal. simpl length. lia.
    + apply (part_tail buf o [_; _]) in Hp. simpl length in Hp. by replace (o + 1 + 1) with (o + Z.of_nat 2) by lia.
Qed.

(** Numbers *)

Lemma fold_be_ge raw : Forall is_byte raw -> forall v, 0 <= v -> v <= fold_left (fun v b => v * 256 + b) raw v.
Proof.
  induction 1 as [|b raw Hb Hraw IH]; intros v Hv; simpl; [lia|]. unfold is_byte in Hb.
  specialize (IH (v * 256 + b) ltac:(lia)). lia.
Qed.

Lemma readUint_loop_part raw : Forall is_byte raw -> forall o v, part_at buf o raw -> 0 <= v ->
  fold_left (fun v b => v * 256 + b) raw v < 2 ^ 53 ->
  readUint_loop buf (length raw) (Int o) (Int v) = Int (fold_left (fun v b => v * 256 + b) raw v).
Proof.
  induction 1 as [|b raw Hb Hraw IH]; intros o v Hp Hv Hf; [done|]. cbn [length readUint_loop fold_left] in *.
  unfold is_byte in Hb. pose proof (fold_be_ge raw Hraw (v * 256 + b) ltac:(lia)) as Hge.
  pose proof (part_nonneg _ _ _ Hp). pose proof (part_end _ _ _ Hp) as Hend. simpl length in Hend.
  rewrite nmul_small by lia. replace (at_ buf (Int o)) with (Int b)
    by (symmetry; replace o with (o + Z.of_nat 0) by lia; by eapply at_part).
  rewrite !nadd_small by lia. apply IH; [|lia|done]. by apply (part_tail buf o [b]) in Hp.
Qed.

(** Containers *)

Section container.
Context (base : number) (levels : nat).

Lemma array_loop_items items : forall o out,
  Forall (fun x => forall o, part_at buf o (encode x) ->
    dec base levels (Int o) = Resolved (denote x, Int (o + Z.of_nat (length (encode x))))) items ->
  part_at buf o (flat_map encode items) ->
  array_loop (dec base levels) (length items) (Int o) out
  = Resolved (VArr (out ++ map denote items), Int (o + Z.of_nat (length (flat_map encode items)))).
Proof.
  induction items as [|x items IH]; intros o out Hd Hp; cbn [length array_loop flat_map map].
  { rewrite app_nil_r. simpl. by rewrite Z.add_0_r. }
  apply Forall_cons in Hd as [Hx Hd]. cbn [flat_map] in Hp.
  rewrite (Hx o) by (by apply part_head in Hp). rewrite IH; [|done|by apply part_tail in Hp].
  rewrite <-app_assoc, length_app. do 3 f_equal. lia.
Qed.

Lemma map_loop_fields fields : forall o out,
  Forall (fun f => (forall o, part_at buf o (str_bytes f.1) ->
      dec base levels (Int o) = Resolved (VStr (utf8 f.1), Int (o + Z.of_nat (length (str_bytes f.1))))) /\
    (forall o, part_at buf o (encode f.2) ->
      dec base levels (Int o) = Resolved (denote f.2, Int (o + Z.of_nat (length (encode f.2)))))) fields ->
  part_at buf o (flat_map (fun f => str_bytes f.1 ++ encode f.2) fields) ->
  map_loop keyText (dec base levels) (length fields) (Int o) out
  = Resolved (VMap (fold_left (fun m f => JsMap.set m f.1 f.2)
                      (map (fun f => (utf8 f.1, denote f.2)) fields) out),
              Int (o + Z.of_nat (length (flat_map (fun f => str_bytes f.1 ++ encode f.2) fields)))).
Proof.
  induction fields as [|[k x] fields IH]; intros o out Hd Hp; cbn [length map_loop flat_map map fold_left fst snd].
  { simpl. by rewrite Z.add_0_r. }
  apply Forall_cons in Hd as [[Hk Hx] Hd]. cbn [flat_map fst snd] in *.
  pose proof (part_tail _ _ _ _ Hp) as Hrest. apply part_head in Hp.
  rewrite (Hk o) by (by apply part_head in Hp). apply part_tail in Hp. rewrite (Hx _ Hp).
  rewrite IH; [|done|by rewrite length_app, Nat2Z.inj_add, Z.add_assoc in Hrest].
  cbn [keyString]. rewrite !length_app. do 3 f_equal. lia.
Qed.
End container.

Lemma decode_str base levels raw o : Z.of_nat (length raw) < max_size -> part_at buf o (str_bytes raw) ->
  dec base (S levels) (Int o) = Resolved (VStr (utf8 raw), Int (o + Z.of_nat (length (str_bytes raw)))).
Proof.
  intros Hf Hp. unfold str_bytes in *. rewrite (decode_head base levels o 2 (Z.of_nat (length raw)) raw) by (done || lia).
  unfold decodeType. rewrite length_app. pose proof (part_end _ _ _ Hp) as Hend. rewrite length_app in Hend.
  pose proof (part_nonneg _ _ _ Hp). apply part_tail in Hp.
  rewrite (slice_part _ _ _ (length raw) Hp), firstn_all by lia.
  rewrite nadd_small by lia. do 3 f_equal. lia.
Qed.

Lemma depth_items items levels : (depth (DArr items) < S levels)%nat ->
  Forall (fun x => depth x < levels)%nat items.
Proof. simpl. induction items as [|x items IH]; simpl; intros; constructor; [lia|apply IH; lia]. Qed.

Lemma depth_fields fields levels : (depth (DMap fields) < S levels)%nat ->
  Forall (fun f => depth f.2 < levels)%nat fields.
Proof. simpl. induction fields as [|x items IH]; simpl; intros; constructor; [lia|apply IH; lia]. Qed.

Lemma decode_encode_levels base d : forall levels o, fits d -> (depth d < levels)%nat ->
  part_at buf o (encode d) ->
  dec base levels (Int o) = Resolved (denote d, Int (o + Z.of_nat (length (encode d)))).
Proof.
  induction d as [raw|ty raw|b|items IH|fields IH]; intros [|levels] o Hf Hd Hp; try lia; cbn [encode denote] in *.
  - by apply decode_str.
  - destruct Hf as (Hty & Hraw & Hlen & Hbe).
    rewrite (decode_head base levels o ty (Z.of_nat (length raw)) raw) by (done || unfold max_size; lia).
    pose proof (part_end _ _ _ Hp) as Hend. rewrite length_app in *. apply part_tail in Hp.
    pose proof (part_nonneg _ _ _ Hp).
    assert (readUint buf (Int (o + Z.of_nat (length (head ty (Z.of_nat (length raw))))))
              (Int (Z.of_nat (length raw))) = Int (be raw)) as E.
    { unfold readUint. cbn [iterations]. rewrite Nat2Z.id. by apply readUint_loop_part. }
    unfold decodeType. rewrite E, nadd_small by lia.
    destruct Hty as [->|[->|[->| ->]]]; do 3 f_equal; lia.
  - pose proof (app_nil_r (head 14 (if b then 1 else 0))) as E. rewrite <-E in Hp.
    by rewrite (decode_head base levels o 14 (if b then 1 else 0) []) by (done || destruct b; unfold max_size; lia);
      destruct b.
  - destruct Hf as [Hlen Hf]. rewrite (decode_head base levels o 11 (Z.of_nat (length items)) (flat_map encode items))
      by (done || unfold max_size; lia).
    unfold decodeType, decodeArray, MAX_CONTAINER_ENTRIES. cbn [nlt iterations].
    rewrite (proj2 (Z.ltb_ge _ _)), Nat2Z.id by lia. rewrite length_app. apply part_tail in Hp.
    rewrite array_loop_items; [simpl; do 3 f_equal; lia| |done].
    apply depth_items in Hd. clear Hp Hlen.
    induction items as [|x items IHi]; [constructor|]. destruct Hf as [Hx Hf].
    apply Forall_cons in IH as [IHx IH]. apply Forall_cons in Hd as [Hdx Hd]. constructor; auto.
  - destruct Hf as [Hlen Hf]. rewrite (decode_head base levels o 7 (Z.of_nat (length fields))
      (flat_map (fun f => str_bytes f.1 ++ encode f.2) fields)) by (done || unfold max_size; lia).
    unfold decodeType, decodeMap, MAX_CONTAINER_ENTRIES. cbn [nlt iterations].
    rewrite (proj2 (Z.ltb_ge _ _)), Nat2Z.id by lia. rewrite length_app. apply part_tail in Hp.
    rewrite map_loop_fields; [do 3 f_equal; lia| |done].
    apply depth_fields in Hd. clear Hp Hlen.
    induction fields as [|x fields IHi]; [constructor|]. destruct Hf as [[Hk Hx] Hf].
    apply Forall_cons in IH as [IHx IH]. apply Forall_cons in Hd as [Hdx Hd]. constructor; [|auto].
    split; [|auto]. intros o' Hp'. destruct levels; [lia|]. by apply decode_str.
Qed.
End codec.

(** The decoder inverts the encoding: wherever in a file the bytes of a
    value lie, a value of strings, unsigned integers below 2^53, booleans,
    arrays and maps of at most 4096 entries, nested at most 64 deep, decoding
    there yields that value and the offset just past it. *)
Theorem decode_encode (utf8 : list Z -> jsstr) (keyText : value -> jsstr) buf base d o :
  Z.of_nat (length buf) < 2 ^ 52 -> fits d -> (depth d <= MAX_DECODE_DEPTH)%nat ->
  part_at buf o (encode d) ->
  decodeTop utf8 keyText buf base (Int o)
  = Resolved (denote utf8 d, Int (o + Z.of_nat (length (encode d)))).
Proof. intros Hb Hf Hd Hp. apply decode_encode_levels; [done|done|lia|done]. Qed.

(** A pointer that leads to itself, at any distance from the start of the
    data section, is rejected as malformed instead of being followed for
    ever. *)
Theorem self_pointer_rejected (utf8 : list Z -> jsstr) (keyText : value -> jsstr) buf base t :
  Z.of_nat (length buf) < 2 ^ 52 -> 0 <= t < 2048 -> 0 <= base ->
  part_at buf (base + t) [32 + t / 256; t mod 256] ->
  decodeTop utf8 keyText buf (Int base) (Int (base + t)) = Rejected NestingExceeded.
Proof.
  intros Hb Ht Hbase Hp. unfold decodeTop. generalize (S MAX_DECODE_DEPTH). intros levels.
  induction levels as [|levels IH]; [done|]. cbn [decode].
  pose proof (part_end _ _ _ Hp) as Hend. simpl length in Hend.
  assert (nlt (Int (base + t)) (Int 0) || nle (Int (size_ buf)) (Int (base + t)) = false) as ->.
  { unfold size_. cbn [nlt nle]. rewrite (proj2 (Z.ltb_ge _ _)), (proj2 (Z.leb_gt _ _)) by lia. done. }
  replace (at_ buf (Int (base + t))) with (Int (1 * 32 + t / 256)).
  2: { symmetry. replace (base + t) with (base + t + Z.of_nat 0) by lia. by eapply at_part. }
  assert (0 <= t / 256 < 8) as Hh by (Z.div_mod_to_equations; lia).
  cbn [bits]. rewrite (proj1 (split_ctrl 1 (t / 256) ltac:(lia) ltac:(lia))). cbn [neq Z.eqb Pos.eqb].
  unfold decodePointer. cbn [bits].
  assert (Z.land (Z.shiftr (1 * 32 + t / 256) 3) 3 = 0 /\ Z.land (1 * 32 + t / 256) 7 = t / 256) as [-> ->].
  { assert (forall h, 0 <= h < 8 -> Z.land (Z.shiftr (1 * 32 + h) 3) 3 = 0 /\ Z.land (1 * 32 + h) 7 = h) as A; [|by apply A].
    intros h Hh'. assert (h = 0 \/ h = 1 \/ h = 2 \/ h = 3 \/ h = 4 \/ h = 5 \/ h = 6 \/ h = 7) as A by lia.
    by destruct A as [->|[->|[->|[->|[->|[->|[->| ->]]]]]]]. }
  cbn [Z.eqb]. rewrite (nadd_small (base + t) 1) by lia.
  rewrite (at_nadd buf Hb (base + t + 1) [t mod 256] 0 (t mod 256));
    [|by apply (part_tail buf (base + t) [_]) in Hp|lia|done].
  rewrite pack2; [|unfold is_byte; lia|apply byte_mod].
  rewrite nadd_small by (Z.div_mod_to_equations; lia).
  replace (base + (t / 256 * 256 + t mod 256)) with (base + t) by (Z.div_mod_to_equations; lia). by rewrite IH.
Qed.
End MmdbCodec.

(** ** A small database *)

Module MmdbExamples.
Import Mmdb MmdbTheory MmdbCodec.

Definition utf8_0 (raw : list Z) : jsstr := raw.
Definition keyText0 (_ : value) : jsstr := [].

(** One node: addresses below 128.0.0.0 have the record, the others none. *)
Definition nodes0 : list (Z * Z) := [(17, 1)].
Definition record0 : doc := DMap [(js "country", DStr (js "ES")); (js "eu", DBool true); (js "asn", DArr [DUint 6 [1; 0]])].
Definition meta_doc : doc :=
  DMap [(js "node_count", DUint 6 [1]); (js "record_size", DUint 5 [28]); (js "ip_version", DUint 5 [4])].
Definition file0 : list Z :=
  flat_map (encode_node 28) nodes0 ++ replicate 16 0 ++ encode record0 ++ METADATA_MARKER ++ encode meta_doc.
Definition metadata0 : MmdbMetadata := mkMetadata (Int 1) 28 (Int 4) None None.
Definition reader0 : MmdbReader := mkReader metadata0 (Int (-1)).

Lemma file0_opens : fromBuffer utf8_0 keyText0 file0 = Resolved reader0.
Proof. vm_compute. reflexivity. Qed.

Lemma file0_table : table_db file0 metadata0 nodes0.
Proof.
  split.
  - right. left. reflexivity.
  - reflexivity.
  - exists [], (replicate 16 0 ++ encode record0 ++ METADATA_MARKER ++ encode meta_doc). split; reflexivity.
  - reflexivity.
  - repeat constructor; simpl; lia.
Qed.

Lemma lookup_walks_table_witness :
  snd (lookup utf8_0 keyText0 file0 reader0 (js "93.184.216.34")) = Resolved (denote utf8_0 record0).
Proof.
  rewrite (proj1 (lookup_walks_table utf8_0 keyText0 file0 reader0 nodes0 4 (js "93.184.216.34")
    file0_table ltac:(left; reflexivity) ltac:(reflexivity))).
  vm_compute. reflexivity.
Defined.

Lemma parse_ip_roundtrip_witness :
  parseIp (Net.decimal_quad 10 0 0 7) = Some [10; 0; 0; 7] /\
  parseIp (Net.v6_text [js "fe80"] (Some [js "A1"]))
    = Some (group_bytes (Net.v6_groups [js "fe80"] (Some [js "A1"]))).
Proof.
  apply (parse_ip_roundtrip 10 0 0 7 [js "fe80"] (Some [js "A1"])); try lia.
  split; [|split; [|simpl; lia]]; (constructor; [|constructor]); (split; [simpl; lia|]);
    repeat constructor; vm_compute; reflexivity.
Defined.

Lemma decode_encode_witness :
  decodeTop utf8_0 keyText0 file0 (Int 23) (Int 23)
    = Resolved (denote utf8_0 record0, Int (23 + Z.of_nat (length (encode record0)))).
Proof.
  apply (decode_encode utf8_0 keyText0 file0 (Int 23) record0 23).
  - vm_compute. reflexivity.
  - repeat split; simpl; unfold max_size, is_byte; repeat constructor; lia.
  - simpl. unfold MAX_DECODE_DEPTH. lia.
  - exists (flat_map (encode_node 28) nodes0 ++ replicate 16 0), (METADATA_MARKER ++ encode meta_doc).
    split; reflexivity.
Defined.

Lemma self_pointer_rejected_witness :
  decodeTop utf8_0 keyText0 [0; 0; 32; 1] (Int 1) (Int (1 + 1)) = Rejected NestingExceeded.
Proof.
  apply (self_pointer_rejected utf8_0 keyText0 [0; 0; 32; 1] 1 1).
  - reflexivity.
  - lia.
  - lia.
  - exists [0; 0], []. split; reflexivity.
Defined.
End MmdbExamples.
