(* ===== verification/Canonical.v ===== *)
(** * Canonical serialisation

    Models [canonicalStringify] and [computeHash] of
    [src/orchestrator/core/crypto_utils.ts]: the key-sorted JSON text that is
    hashed and signed, with its depth and breadth limits, over the values
    JSON has and [undefined].  The quoting of strings is the one of
    [JSON.stringify]; the text of a number is an interface, [JsNumber], and
    the digest a parameter. *)

From S2P Require Import Prelude Result JsString JsSort.
From Stdlib Require Import Sorted Permutation.

(** Finite numbers and the text [JSON.stringify] gives them. *)
Definition num_char (c : Z) : bool :=
  JsString.is_digit c || (c =? 45) || (c =? 43) || (c =? 46) || (c =? 101).

Class JsNumber := {
  num : Type;
  num_eq_dec :: EqDecision num;
  num_text : num -> jsstr;
  num_text_inj :: Inj (=) (=) num_text;
  num_text_nonempty n : num_text n <> [];
  num_text_chars n : forallb num_char (num_text n) = true;
  (** The number that a length or a count is. *)
  num_of_nat : nat -> num;
  num_of_nat_text n : num_text (num_of_nat n) = JsString.decimal (Z.of_nat n);
}.

Module Canonical.
Import JsString.

(** ** Quoted strings *)

Definition hex_unit (d : Z) : Z := if d <? 10 then 48 + d else 87 + d.

(** [\uXXXX] *)
Definition u_escape (c : Z) : jsstr :=
  [92; 117; hex_unit (c / 4096); hex_unit (c / 256 mod 16); hex_unit (c / 16 mod 16); hex_unit (c mod 16)].

Definition escape (c : Z) : jsstr :=
  if (c =? 34) || (c =? 92) then [92; c]
  else if c =? 8 then [92; 98] else if c =? 12 then [92; 102] else if c =? 10 then [92; 110]
  else if c =? 13 then [92; 114] else if c =? 9 then [92; 116]
  else if c <? 32 then u_escape c
  else [c].

Definition is_high (c : Z) : bool := (0xD800 <=? c) && (c <=? 0xDBFF).
Definition is_low (c : Z) : bool := (0xDC00 <=? c) && (c <=? 0xDFFF).

(** A surrogate pair is kept; a lone surrogate is escaped. *)
Fixpoint quote_body (s : jsstr) : jsstr :=
  match s with
  | [] => []
  | c :: s' =>
      if is_high c then
        match s' with
        | d :: s'' => if is_low d then c :: d :: quote_body s'' else u_escape c ++ quote_body s'
        | [] => u_escape c
        end
      else if is_low c then u_escape c ++ quote_body s'
      else escape c ++ quote_body s'
  end.

(** [JSON.stringify] of a string *)
Definition quote (s : jsstr) : jsstr := 34 :: quote_body s ++ [34].

(** A reader of the quoted text, up to the closing quote. *)
Definition hex_of (u : Z) : Z := if u <? 58 then u - 48 else u - 87.

Definition unescape (e : Z) : Z :=
  if e =? 98 then 8 else if e =? 102 then 12 else if e =? 110 then 10
  else if e =? 114 then 13 else if e =? 116 then 9 else e.

Definition push (c : Z) (r : option (jsstr * jsstr)) : option (jsstr * jsstr) :=
  match r with Some (s, t) => Some (c :: s, t) | None => None end.

Fixpoint unquote (s : jsstr) : option (jsstr * jsstr) :=
  match s with
  | [] => None
  | c :: s1 =>
      if c =? 34 then Some ([], s1)
      else if c =? 92 then
        match s1 with
        | [] => None
        | e :: s2 =>
            if e =? 117 then
              match s2 with
              | a :: b :: c :: d :: s6 =>
                  push (hex_of a * 4096 + hex_of b * 256 + hex_of c * 16 + hex_of d) (unquote s6)
              | _ => None
              end
            else push (unescape e) (unquote s2)
        end
      else push c (unquote s1)
  end.

Lemma hex_unit_of d : 0 <= d < 16 -> hex_of (hex_unit d) = d.
Proof. intros. unfold hex_of, hex_unit. crush_if. Qed.

Lemma unquote_u c t : code_unit c -> unquote (u_escape c ++ t) = push c (unquote t).
Proof.
  unfold code_unit. intros Hc. unfold u_escape. cbn [app unquote Z.eqb Pos.eqb].
  rewrite !hex_unit_of by (Z.div_mod_to_equations; lia).
  f_equal. Z.div_mod_to_equations. lia.
Qed.

Lemma unquote_escape c t : code_unit c -> unquote (escape c ++ t) = push c (unquote t).
Proof.
  intros Hc. unfold escape.
  destruct (Z.eqb_spec c 34) as [->|H34]; [done|]. destruct (Z.eqb_spec c 92) as [->|H92]; [done|].
  cbn [orb]. repeat (case_match; reflect_bools; subst; [done|]).
  case_match; [by apply unquote_u|]. cbn [app unquote].
  by rewrite (proj2 (Z.eqb_neq c 34)), (proj2 (Z.eqb_neq c 92)).
Qed.

Lemma unquote_raw c t : 0xD800 <= c -> unquote (c :: t) = push c (unquote t).
Proof. intros Hc. cbn [unquote]. by rewrite (proj2 (Z.eqb_neq c 34)), (proj2 (Z.eqb_neq c 92)) by lia. Qed.

Lemma unquote_quote s : forall r, Forall code_unit s -> unquote (quote_body s ++ 34 :: r) = Some (s, r).
Proof.
  remember (length s) as n eqn:Hn. revert s Hn. induction (lt_wf n) as [n _ IH]. intros s Hn r Hs.
  destruct s as [|c s]; [done|]. apply Forall_cons in Hs as [Hc Hs]. simpl in Hn. cbn [quote_body].
  assert (unquote (quote_body s ++ 34 :: r) = Some (s, r)) as E by (by apply (IH (length s)); [lia|..]).
  unfold is_high. destruct (_ && _) eqn:Eh.
  - destruct s as [|d s]; [by rewrite unquote_u|]. destruct (is_low d) eqn:El.
    + unfold is_low in El. reflect_bools. apply Forall_cons in Hs as [Hd Hs]. cbn [app].
      rewrite !unquote_raw by lia. rewrite (IH (length s)); [done|simpl in Hn; lia|done|done].
    + rewrite <-app_assoc, unquote_u by done. by rewrite E.
  - destruct (is_low c); rewrite <-app_assoc, ?unquote_u, ?unquote_escape by done; by rewrite E.
Qed.

Lemma quote_inj s t r r' : Forall code_unit s -> Forall code_unit t ->
  quote s ++ r = quote t ++ r' -> s = t /\ r = r'.
Proof.
  unfold quote. intros Hs Ht E. simpl in E. injection E as E. rewrite <-!app_assoc in E. simpl in E.
  apply (f_equal unquote) in E. rewrite !unquote_quote in E by done. by simplify_eq.
Qed.

(** ** Values *)

Section values.
Context `{JsNumber}.

Unset Elimination Schemes.
Inductive jval :=
| JUndefined
| JNull
| JBool (b : bool)
| JNum (n : num)
| JStr (s : jsstr)
| JArr (items : list jval)
| JObj (fields : list (jsstr * jval)).
Set Elimination Schemes.

Section jval_ind.
Variable P : jval -> Prop.
Hypothesis HU : P JUndefined.
Hypothesis HN : P JNull.
Hypothesis HB : forall b, P (JBool b).
Hypothesis HM : forall n, P (JNum n).
Hypothesis HS : forall s, P (JStr s).
Hypothesis HA : forall items, Forall P items -> P (JArr items).
Hypothesis HO : forall fields, Forall (fun f => P f.2) fields -> P (JObj fields).

Fixpoint jval_ind (v : jval) : P v :=
  match v with
  | JUndefined => HU | JNull => HN | JBool b => HB b | JNum n => HM n | JStr s => HS s
  | JArr items => HA items
      ((fix go l : Forall P l :=
          match l with [] => Forall_nil_2 P | x :: l => Forall_cons_2 P x l (jval_ind x) (go l) end) items)
  | JObj fields => HO fields
      ((fix go l : Forall (fun f => P f.2) l :=
          match l with
          | [] => Forall_nil_2 _
          | (k, x) :: l => Forall_cons_2 _ (k, x) l (jval_ind x) (go l)
          end) fields)
  end.
End jval_ind.

(** The order of [keys.sort()]: by code units. *)
Fixpoint jlt (a b : jsstr) : bool :=
  match a, b with
  | _, [] => false
  | [], _ :: _ => true
  | x :: a, y :: b => (x <? y) || ((x =? y) && jlt a b)
  end.

Definition key_lt {A} (f g : jsstr * A) : bool := jlt f.1 g.1.

Inductive CanonError := MaxDepth | ArrayBreadth | ObjectBreadth.

Definition MAX_DEPTH : nat := 10.
Definition MAX_BREADTH : nat := 100.

(** [items.map(f)], stopping at the first exception. *)
Fixpoint map_settled {A B E} (f : A -> settled B E) (l : list A) : settled (list B) E :=
  match l with
  | [] => Resolved []
  | x :: l =>
      match f x with
      | Rejected e => Rejected e
      | Resolved y => match map_settled f l with Rejected e => Rejected e | Resolved ys => Resolved (y :: ys) end
      end
  end.

(** A field of the object text; [undefined] is interpolated as its name. *)
Definition field_text (k : jsstr) (v : option jsstr) : jsstr :=
  quote k ++ js ":" ++ default (js "undefined") v.

(** [canonicalStringify(obj, depth)] with [levels] = 11 - depth; [None] is
    the value [undefined], which [join] prints as the empty string. *)
Fixpoint canonicalStringify (levels : nat) (obj : jval) : settled (option jsstr) CanonError :=
  match levels with
  | O => Rejected MaxDepth
  | S levels =>
      match obj with
      | JUndefined => Resolved None
      | JNull => Resolved (Some (js "null"))
      | JBool b => Resolved (Some (if b then js "true" else js "false"))
      | JNum n => Resolved (Some (num_text n))
      | JStr s => Resolved (Some (quote s))
      | JArr items =>
          if (MAX_BREADTH <? length items)%nat then Rejected ArrayBreadth else
          match map_settled (canonicalStringify levels) items with
          | Rejected e => Rejected e
          | Resolved texts => Resolved (Some (js "[" ++ join (js ",") (map (default []) texts) ++ js "]"))
          end
      | JObj fields =>
          let sorted := stable_sort key_lt fields in
          if (MAX_BREADTH <? length sorted)%nat then Rejected ObjectBreadth else
          match map_settled (fun f => match canonicalStringify levels f.2 with
                                      | Rejected e => Rejected e
                                      | Resolved t => Resolved (field_text f.1 t) end) sorted with
          | Rejected e => Rejected e
          | Resolved texts => Resolved (Some (js "{" ++ join (js ",") texts ++ js "}"))
          end
      end
  end.

Definition canonical (obj : jval) : settled (option jsstr) CanonError := canonicalStringify (S MAX_DEPTH) obj.

(** [computeHash]; encoding [undefined] gives no bytes. *)
Definition computeHash (sha256 : jsstr -> jsstr) (input : jval) : settled jsstr CanonError :=
  match canonical input with
  | Resolved str => Resolved (sha256 (default [] str))
  | Rejected e => Rejected e
  end.

(** ** What the text denotes *)

(** The value with the fields of every object in key order. *)
Fixpoint norm (v : jval) : jval :=
  match v with
  | JArr items => JArr (map norm items)
  | JObj fields => JObj (stable_sort key_lt (map (fun f => (f.1, norm f.2)) fields))
  | v => v
  end.

(** No [undefined] directly in an array, and strings made of code units. *)
Fixpoint clean (v : jval) : Prop :=
  match v with
  | JStr s => Forall code_unit s
  | JArr items => fold_right (fun x p => (x <> JUndefined /\ clean x) /\ p) True items
  | JObj fields => fold_right (fun f p => (Forall code_unit f.1 /\ clean f.2) /\ p) True fields
  | _ => True
  end.

Fixpoint print (v : jval) : jsstr :=
  match v with
  | JUndefined => js "undefined"
  | JNull => js "null"
  | JBool b => if b then js "true" else js "false"
  | JNum n => num_text n
  | JStr s => quote s
  | JArr items => 91 :: join [44] (map (fun x => match x with JUndefined => [] | _ => print x end) items) ++ [93]
  | JObj fields => 123 :: join [44] (map (fun f => quote f.1 ++ 58 :: print f.2) fields) ++ [125]
  end.

Definition opt_print (v : jval) : option jsstr := match v with JUndefined => None | _ => Some (print v) end.

Lemma map_settled_Resolved {A B E} (f : A -> settled B E) (g : A -> B) l ys :
  Forall (fun x => forall y, f x = Resolved y -> y = g x) l ->
  map_settled f l = Resolved ys -> ys = map g l.
Proof.
  intros Hf. revert ys. induction Hf as [|x l Hx Hl IH]; intros ys E0; simpl in *; [by simplify_eq|].
  destruct (f x) as [y|] eqn:Ex; [|done]. destruct (map_settled f l) as [zs|]; [|done]. simplify_eq.
  by rewrite (Hx y eq_refl), (IH zs eq_refl).
Qed.

Lemma insert_sorted_map {A B} (f : A -> B) lt lt' x l : (forall a b, lt' (f a) (f b) = lt a b) ->
  insert_sorted lt' (f x) (map f l) = map f (insert_sorted lt x l).
Proof. intros Hf. induction l as [|y l IH]; simpl; [done|]. rewrite Hf. destruct (lt y x); [|done]. simpl. by rewrite IH. Qed.

Lemma stable_sort_map {A B} (f : A -> B) lt lt' l : (forall a b, lt' (f a) (f b) = lt a b) ->
  stable_sort lt' (map f l) = map f (stable_sort lt l).
Proof. intros Hf. induction l as [|x l IH]; simpl; [done|]. by rewrite IH, insert_sorted_map with (lt := lt). Qed.

Lemma norm_undefined v : norm v = JUndefined <-> v = JUndefined.
Proof. by destruct v. Qed.

(** What is returned is the text of the normalised value. *)
Lemma canonical_print v : forall levels t,
  canonicalStringify levels v = Resolved t -> t = opt_print (norm v).
Proof.
  induction v as [| | | | |items IH|fields IH]; intros [|levels] t Ht; simpl in Ht; simplify_eq/=; try done.
  - destruct (_ <? _)%nat; [done|]. destruct (map_settled _ items) as [texts|] eqn:E; [|done]. simplify_eq.
    apply (map_settled_Resolved _ (fun x => opt_print (norm x))) in E.
    2: { eapply Forall_impl; [exact IH|]. intros x Hx y. apply Hx. }
    subst. unfold opt_print. cbn [print norm]. do 3 f_equal. rewrite !map_map. f_equal.
    apply map_ext. intros x. by destruct (norm x) eqn:En.
  - destruct (_ <? _)%nat; [done|]. destruct (map_settled _ _) as [texts|] eqn:E; [|done]. simplify_eq.
    apply (map_settled_Resolved _ (fun f => quote f.1 ++ 58 :: print (norm f.2))) in E.
    2: { assert (Forall (fun f => forall levels t, canonicalStringify levels f.2 = Resolved t ->
           t = opt_print (norm f.2)) (stable_sort key_lt fields)) as IH' by (by rewrite stable_sort_perm).
         eapply Forall_impl; [exact IH'|]. intros f Hf y.
         destruct (canonicalStringify levels f.2) as [t|] eqn:Et; [|done]. intros ?; simplify_eq.
         apply Hf in Et. subst. unfold field_text. by destruct (norm f.2). }
    subst. unfold opt_print. cbn [print norm].
    rewrite (stable_sort_map (fun f => (f.1, norm f.2)) key_lt), map_map by done. done.
Qed.

(** What may follow a value in a text. *)
Definition stop (r : jsstr) : Prop :=
  match r with [] => True | c :: _ => c = 44 \/ c = 93 \/ c = 125 end.

Lemma stop_app p r : stop r -> stop (concat (map (cons 44) p) ++ r).
Proof. destruct p as [|x p]; [done|]. intros _. by left. Qed.

Lemma join_concat p ps : join [44] (p :: ps) = p ++ concat (map (cons 44) ps).
Proof.
  revert p. induction ps as [|q ps IH]; intros p; [by rewrite app_nil_r|].
  rewrite join_cons by done. rewrite IH. done.
Qed.

(** The text of a number ends where a character that is no part of one starts. *)
Lemma num_prefix s t r r' : forallb num_char s = true -> forallb num_char t = true -> stop r -> stop r' ->
  s ++ r = t ++ r' -> s = t /\ r = r'.
Proof.
  revert t. induction s as [|c s IH]; intros [|d t] Hs Ht Hr Hr' E; simpl in *; [done|..].
  - exfalso. subst r. apply andb_true_iff in Ht as [Hd _]. simpl in Hr.
    by destruct Hr as [->|[->| ->]]; vm_compute in Hd.
  - exfalso. subst r'. apply andb_true_iff in Hs as [Hc _]. simpl in Hr'.
    by destruct Hr' as [->|[->| ->]]; vm_compute in Hc.
  - injection E as -> E. apply andb_true_iff in Hs as [_ Hs], Ht as [_ Ht].
    by destruct (IH t Hs Ht Hr Hr' E) as [-> ->].
Qed.

(** The first character of a text tells the kind of the value. *)
Definition kind (v : jval) : Z :=
  match v with
  | JUndefined => 117 | JNull => 110 | JBool true => 116 | JBool false => 102
  | JNum _ => 0 | JStr _ => 34 | JArr _ => 91 | JObj _ => 123
  end.
Definition kind_of (c : Z) : Z := if num_char c then 0 else c.

Lemma print_kind v : exists c s, print v = c :: s /\ kind_of c = kind v.
Proof.
  destruct v as [| |[]|n| | |]; try (eexists _, _; split; [reflexivity|reflexivity]).
  destruct (num_text n) as [|c s] eqn:E; [by apply num_text_nonempty in E|].
  exists c, s. split; [done|]. pose proof (num_text_chars n) as Hn. rewrite E in Hn. simpl in Hn.
  apply andb_true_iff in Hn as [Hn _]. unfold kind_of. by rewrite Hn.
Qed.

Definition print_injective (v : jval) : Prop :=
  forall w r r', clean v -> clean w -> stop r -> stop r' -> print v ++ r = print w ++ r' -> v = w /\ r = r'.

(** Lists of texts separated by commas, closed by [e]. *)
Section separated.
Context {A : Type} (text : A -> jsstr) (ok : A -> Prop) (e : Z).
Context (He : e = 93 \/ e = 125).
Context (Hstart : forall a, ok a -> match text a with [] => False | c :: _ => c <> e end).

Definition text_injective (a : A) : Prop :=
  ok a -> forall b r r', ok b -> stop r -> stop r' -> text a ++ r = text b ++ r' -> a = b /\ r = r'.

Lemma tails_inj l : Forall text_injective l -> forall l' r r', Forall ok l -> Forall ok l' ->
  concat (map (cons 44) (map text l)) ++ e :: r = concat (map (cons 44) (map text l')) ++ e :: r' ->
  l = l' /\ r = r'.
Proof using He.
  induction 1 as [|a l Ha Hl IH]; intros [|b l'] r r' Ok Ok' E; simpl in E.
  - by simplify_eq.
  - exfalso. injection E as Ee _. destruct He; lia.
  - exfalso. injection E as Ee _. destruct He; lia.
  - injection E as E. rewrite <-!app_assoc in E. apply Forall_cons in Ok as [Oa Ok], Ok' as [Ob Ok'].
    assert (stop (e :: r) /\ stop (e :: r')) as [S1 S2] by (simpl; destruct He; auto).
    apply Ha in E as [-> E]; [|done|done|by apply stop_app|by apply stop_app].
    by destruct (IH l' r r' Ok Ok' E) as [-> ->].
Qed.

Lemma list_inj l l' r r' : Forall text_injective l -> Forall ok l -> Forall ok l' ->
  join [44] (map text l) ++ e :: r = join [44] (map text l') ++ e :: r' -> l = l' /\ r = r'.
Proof using He Hstart.
  intros Hinj Ok Ok' E. destruct l as [|a l], l' as [|b l']; cbn [map] in E; rewrite ?join_concat in E.
  - simpl in E. by simplify_eq.
  - exfalso. apply Forall_cons in Ok' as [Ob _]. apply Hstart in Ob. destruct (text b); simpl in E; [done|].
    by simplify_eq.
  - exfalso. apply Forall_cons in Ok as [Oa _]. apply Hstart in Oa. destruct (text a); simpl in E; [done|].
    by simplify_eq.
  - rewrite <-!app_assoc in E. apply Forall_cons in Hinj as [Ha Hinj], Ok as [Oa Ok], Ok' as [Ob Ok'].
    assert (stop (e :: r) /\ stop (e :: r')) as [S1 S2] by (simpl; destruct He; auto).
    apply Ha in E as [-> E]; [|done|done|by apply stop_app|by apply stop_app].
    by destruct (tails_inj l Hinj l' r r' Ok Ok' E) as [-> ->].
Qed.
End separated.

Lemma clean_items items : clean (JArr items) -> Forall (fun x => x <> JUndefined /\ clean x) items.
Proof. simpl. induction items as [|x items IH]; [constructor|]. intros [? ?]. constructor; auto. Qed.

Lemma clean_fields fields : clean (JObj fields) -> Forall (fun f => Forall code_unit f.1 /\ clean f.2) fields.
Proof. simpl. induction fields as [|x fields IH]; [constructor|]. intros [? ?]. constructor; auto. Qed.

Lemma print_item x : x <> JUndefined -> match x with JUndefined => [] | _ => print x end = print x.
Proof. by destruct x. Qed.

Lemma items_print items : Forall (fun x => x <> JUndefined /\ clean x) items ->
  map (fun x => match x with JUndefined => [] | _ => print x end) items = map print items.
Proof. induction 1 as [|x items [Hx _] _ IH]; simpl; [done|]. by rewrite print_item, IH. Qed.

Lemma print_inj v : print_injective v.
Proof.
  induction v as [| |b|n|s|items IH|fields IH]; intros w r r' Cv Cw Sr Sr' E;
    match type of E with print ?v ++ _ = _ =>
      assert (kind v = kind w) as K by
        (destruct (print_kind v) as (c & p & E1 & <-), (print_kind w) as (d & q & E2 & <-);
         rewrite E1, E2 in E; by injection E as ->) end.
  - destruct w as [| |[]| | | |]; try done. by apply app_inv_head in E.
  - destruct w as [| |[]| | | |]; try done. by apply app_inv_head in E.
  - destruct b; destruct w as [| |[]| | | |]; try done; by apply app_inv_head in E.
  - destruct w as [| |[]|m| | |]; try done.
    apply num_prefix in E as [E ->]; [|apply num_text_chars..|done|done].
    split; [|done]. f_equal. by apply num_text_inj.
  - destruct w as [| |[]| |t| |]; try done. apply quote_inj in E as [-> ->]; done.
  - destruct w as [| |[]| | |items'|]; try done. cbn [print] in E. injection E as E.
    apply clean_items in Cv, Cw. rewrite !items_print in E by done. rewrite <-!app_assoc in E.
    apply (list_inj print (fun x => x <> JUndefined /\ clean x)) in E as [-> ->]; [done|by left| | |done|done].
    + intros a _. destruct (print_kind a) as (c & q & -> & Hk). intros ->. by destruct a as [| |[]| | | |].
    + eapply Forall_impl; [exact IH|]. intros a Ha [_ Ca] b q q' [_ Cb]. by apply Ha.
  - destruct w as [| |[]| | | |fields']; try done. cbn [print] in E. injection E as E.
    apply clean_fields in Cv, Cw. rewrite <-!app_assoc in E.
    apply (list_inj (fun f => quote f.1 ++ 58 :: print f.2) (fun f => Forall code_unit f.1 /\ clean f.2)) in E
      as [-> ->]; [done|by right| | |done|done].
    + intros [k x] _. done.
    + eapply Forall_impl; [exact IH|]. intros [k x] Hx [Hk Cx] [k' x'] q q' [Hk' Cx'] S1 S2 E1; cbn [fst snd] in *.
      rewrite <-!(app_assoc (quote _)) in E1. apply quote_inj in E1 as [-> E1]; [|done|done]. simpl in E1. injection E1 as E1.
      by apply Hx in E1 as [-> ->].
Qed.

Lemma Forall_fold_right {A} (P : A -> Prop) l : fold_right (fun x p => P x /\ p) True l <-> Forall P l.
Proof. induction l as [|x l IH]; simpl; [by split|]. by rewrite Forall_cons, IH. Qed.

Lemma clean_norm v : clean v -> clean (norm v).
Proof.
  induction v as [| | | | |items IH|fields IH]; try done; cbn [clean norm].
  - rewrite !Forall_fold_right. intros Hc. apply Forall_map. rewrite Forall_forall in *.
    intros x Hx. destruct (Hc x Hx) as [Hu Hcx]. split; [by rewrite norm_undefined|by apply IH].
  - rewrite !Forall_fold_right. intros Hc. rewrite stable_sort_perm. apply Forall_map.
    rewrite Forall_forall in *. intros f Hf. destruct (Hc f Hf). split; [done|by apply IH].
Qed.

(** The canonical text determines the value: two values without [undefined]
    inside an array that have the same text are equal up to the order of the
    fields of their objects. *)
Theorem canonical_injective v w t :
  clean v -> clean w -> v <> JUndefined -> w <> JUndefined ->
  canonical v = Resolved t -> canonical w = Resolved t -> norm v = norm w.
Proof.
  intros Cv Cw Uv Uw Ev Ew. apply canonical_print in Ev, Ew. rewrite Ev in Ew. clear Ev.
  assert (forall v, v <> JUndefined -> opt_print (norm v) = Some (print (norm v))) as P by (by intros []).
  rewrite !P in Ew by done. injection Ew as E.
  apply (print_inj (norm v) (norm w) [] []); [by apply clean_norm..|done|done|]. by rewrite !app_nil_r.
Qed.

(** *** The converse: field order does not matter *)

Lemma jlt_asym a : forall b, jlt a b = true -> jlt b a = false.
Proof.
  induction a as [|x a IH]; intros [|y b]; simpl; try done. intros E%orb_true_iff.
  apply orb_false_iff. destruct E as [E|[E1 E2]%andb_true_iff].
  - reflect_bools. split; [by apply Z.ltb_ge; lia|]. apply andb_false_iff. left. apply Z.eqb_neq. lia.
  - reflect_bools. subst. split; [by apply Z.ltb_ge|]. by rewrite Z.eqb_refl, (IH b).
Qed.

Lemma jlt_total a : forall b, jlt a b = false -> jlt b a = false -> a = b.
Proof.
  induction a as [|x a IH]; intros [|y b]; simpl; try done. rewrite !orb_false_iff, !andb_false_iff, !Z.ltb_ge, !Z.eqb_neq.
  intros [L1 E1] [L2 E2]. assert (x = y) as -> by lia. f_equal. destruct E1 as [?|E1], E2 as [?|E2]; try lia. by apply IH.
Qed.

Lemma jlt_ntrans a : forall b c, jlt b a = false -> jlt c b = false -> jlt c a = false.
Proof.
  induction a as [|x a IH]; intros [|y b] [|z c]; simpl; try done. rewrite !orb_false_iff, !andb_false_iff.
  intros [L1 E1] [L2 E2]. rewrite Z.ltb_ge in *. rewrite Z.eqb_neq in *. split; [lia|].
  destruct (decide (z = x)) as [->|]; [|by left]. right. destruct E1 as [?|E1]; [lia|]. destruct E2 as [?|E2]; [lia|].
  by eapply IH.
Qed.

#[global] Instance key_lt_strict {A} : StrictWeak (@key_lt A).
Proof. split; [intros a b; apply jlt_asym|intros a b c; apply jlt_ntrans]. Qed.

Lemma sort_sorted {A} (lt : A -> A -> bool) l : StronglySorted (in_order lt) l -> stable_sort lt l = l.
Proof.
  induction 1 as [|x l Hl IH Hx]; simpl; [done|]. rewrite IH. destruct l as [|y l]; [done|]. simpl.
  inversion Hx as [|? ? Hy]; subst. unfold in_order in Hy. by rewrite Hy.
Qed.

Lemma map_settled_ext {A B C E} (f : A -> settled C E) (g : B -> settled C E) (h : A -> B) l :
  Forall (fun x => g (h x) = f x) l -> map_settled g (map h l) = map_settled f l.
Proof. induction 1 as [|x l Hx Hl IH]; simpl; [done|]. by rewrite Hx, IH. Qed.

Lemma canonical_norm v : forall levels, canonicalStringify levels (norm v) = canonicalStringify levels v.
Proof.
  induction v as [| | | | |items IH|fields IH]; intros [|levels]; try done; cbn [norm canonicalStringify].
  - rewrite length_map. destruct (_ <? _)%nat; [done|].
    rewrite (map_settled_ext (canonicalStringify levels)); [done|]. eapply Forall_impl; [exact IH|]. by intros x ->.
  - rewrite (sort_sorted key_lt) by (apply stable_sort_ordered; apply key_lt_strict).
    rewrite (stable_sort_map (fun f => (f.1, norm f.2)) key_lt), length_map by done.
    destruct (_ <? _)%nat; [done|].
    rewrite (map_settled_ext (fun f => match canonicalStringify levels f.2 with
      | Rejected e => Rejected e | Resolved t => Resolved (field_text f.1 t) end)); [done|].
    rewrite stable_sort_perm. eapply Forall_impl; [exact IH|]. intros f Hf. simpl. by rewrite Hf.
Qed.

(** For values without [undefined] inside an array, having the same
    canonical text (or the same refusal) is the same as being equal up to the
    order of the fields: the text neither depends on that order nor confuses
    two values. *)
Theorem canonical_exact v w t :
  clean v -> clean w -> v <> JUndefined -> w <> JUndefined -> canonical v = Resolved t ->
  (canonical w = Resolved t <-> norm v = norm w).
Proof.
  intros Cv Cw Uv Uw Ev. split; [by apply canonical_injective|].
  intros E. unfold canonical in *. by rewrite <-canonical_norm, <-E, canonical_norm.
Qed.

(** *** The limits *)

(** The deepest nesting, and whether every container has at most 100 entries. *)
Fixpoint height (v : jval) : nat :=
  match v with
  | JArr items => fold_right (fun x n => Nat.max (S (height x)) n) 0%nat items
  | JObj fields => fold_right (fun f n => Nat.max (S (height f.2)) n) 0%nat fields
  | _ => 0
  end.

Fixpoint narrow (v : jval) : Prop :=
  match v with
  | JArr items => (length items <= 100)%nat /\ fold_right (fun x p => narrow x /\ p) True items
  | JObj fields => (length fields <= 100)%nat /\ fold_right (fun f p => narrow f.2 /\ p) True fields
  | _ => True
  end.

Lemma map_settled_ok {A B E} (f : A -> settled B E) l :
  (exists ys, map_settled f l = Resolved ys) <-> Forall (fun x => exists y, f x = Resolved y) l.
Proof.
  induction l as [|x l IH]; simpl; [split; [constructor|by exists []]|]. rewrite Forall_cons, <-IH.
  destruct (f x) as [y|e]; [|naive_solver]. destruct (map_settled f l) as [ys|e]; [|naive_solver].
  split; [|by eexists]. intros _. split; by eexists.
Qed.

Lemma height_list {A} (h : A -> nat) l n :
  (fold_right (fun x n => Nat.max (S (h x)) n) 0 l <= S n)%nat <-> Forall (fun x => h x <= n)%nat l.
Proof. induction l as [|x l IH]; simpl; [split; [constructor|lia]|]. rewrite Forall_cons, <-IH. lia. Qed.

Lemma canonical_ok v : forall levels,
  (exists t, canonicalStringify (S levels) v = Resolved t) <-> (height v <= levels)%nat /\ narrow v.
Proof.
  induction v as [| | | | |items IH|fields IH]; intros levels;
    try (simpl; split; [intros _; split; [lia|done]|intros _; by eexists]); cbn [canonicalStringify height narrow].
  - destruct (Nat.ltb_spec MAX_BREADTH (length items)) as [Hl|Hl]; unfold MAX_BREADTH in Hl.
    { split; [naive_solver|]. lia. }
    transitivity (exists ts, map_settled (canonicalStringify levels) items = Resolved ts).
    { destruct (map_settled _ items); naive_solver. }
    rewrite map_settled_ok, Forall_fold_right.
    destruct levels as [|levels].
    { destruct items as [|x items]; [by repeat split; auto|]. rewrite Forall_cons. simpl.
      split; [intros [[? ?] _]; done|lia]. }
    rewrite height_list. split.
    + intros F. assert (Forall (fun x => (height x <= levels)%nat /\ narrow x) items) as F'.
      { rewrite Forall_forall in *. intros x Hx. by apply IH, F. }
      apply Forall_and in F' as [? ?]. split; [done|]. split; [lia|done].
    + intros (F1 & _ & F2). rewrite Forall_forall in *. intros x Hx. apply IH; [done|]. split; auto.
  - rewrite (Permutation_length (stable_sort_perm key_lt fields)).
    destruct (Nat.ltb_spec MAX_BREADTH (length fields)) as [Hl|Hl]; unfold MAX_BREADTH in Hl.
    { split; [naive_solver|]. lia. }
    transitivity (Forall (fun f => exists t, canonicalStringify levels f.2 = Resolved t) fields).
    { transitivity (Forall (fun f => exists t, canonicalStringify levels f.2 = Resolved t)
        (stable_sort key_lt fields)); [|by rewrite stable_sort_perm].
      transitivity (exists ts, map_settled (fun f => match canonicalStringify levels f.2 with
        | Rejected e => Rejected e | Resolved t => Resolved (field_text f.1 t) end) (stable_sort key_lt fields) = Resolved ts).
      { destruct (map_settled _ _); naive_solver. }
      rewrite map_settled_ok. apply Forall_proper; [|done]. intros f. destruct (canonicalStringify levels f.2); naive_solver. }
    rewrite Forall_fold_right. destruct levels as [|levels].
    { destruct fields as [|x fields]; [by repeat split; auto|]. rewrite Forall_cons. simpl.
      split; [intros [[? ?] _]; done|lia]. }
    rewrite (height_list (fun f : jsstr * jval => height f.2)). split.
    + intros F. assert (Forall (fun f : jsstr * jval => (height f.2 <= levels)%nat /\ narrow f.2) fields) as F'.
      { rewrite Forall_forall in *. intros x Hx. apply IH; [done|]. by apply F. }
      apply Forall_and in F' as [? ?]. split; [done|]. split; [lia|done].
    + intros (F1 & _ & F2). rewrite Forall_forall in *. intros x Hx. apply IH; [done|]. split; auto.
Qed.

(** Serialisation succeeds exactly for the values nested at most ten deep
    in which every array and object has at most a hundred entries; on all
    others it is refused, whatever their size. *)
Theorem canonical_limits v :
  (exists t, canonical v = Resolved t) <-> (height v <= 10)%nat /\ narrow v.
Proof. apply canonical_ok. Qed.

(** An array holding only [undefined] has the text of the empty one. *)
Lemma undefined_item_lost : canonical (JArr [JUndefined]) = canonical (JArr []).
Proof. done. Qed.
End values.
End Canonical.

(** ** Integers *)

Module CanonicalInt.
Import JsString Canonical.

Lemma dec_go_parse fuel : forall n acc, 0 <= n < 10 ^ Z.of_nat fuel -> (0 < fuel)%nat ->
  fold_left (fun n c => n * 10 + digit_val c) (dec_go fuel n acc) 0
  = fold_left (fun n c => n * 10 + digit_val c) acc n.
Proof.
  induction fuel as [|fuel IH]; intros n acc Hn Hf; [lia|]. cbn [dec_go].
  assert (digit_val (48 + n mod 10) = n mod 10) as Hd.
  { pose proof (Z.mod_pos_bound n 10 ltac:(lia)). unfold digit_val, is_digit.
    rewrite (proj2 (Z.leb_le _ _)), (proj2 (Z.leb_le _ _)) by lia. simpl. lia. }
  destruct (Z.ltb_spec n 10) as [Hlt|Hge].
  - cbn [fold_left]. rewrite Hd, Z.mod_small by lia. done.
  - rewrite Nat2Z.inj_succ, Z.pow_succ_r in Hn by lia.
    rewrite IH; [| |destruct fuel; [simpl in Hn; lia|lia]].
    + cbn [fold_left]. rewrite Hd. f_equal. Z.div_mod_to_equations. lia.
    + Z.div_mod_to_equations. lia.
Qed.

Lemma decimal_parse n : 0 <= n -> parse_base 10 (decimal n) = n.
Proof.
  intros Hn. unfold parse_base, decimal. rewrite dec_go_parse; [done| |lia]. split; [done|].
  assert (n < 2 ^ (Z.of_nat (S (Z.to_nat (Z.log2 (Z.max n 1)))))) as H2.
  { rewrite Nat2Z.inj_succ, Z2Nat.id by apply Z.log2_nonneg.
    pose proof (Z.log2_spec (Z.max n 1) ltac:(lia)). lia. }
  eapply Z.lt_le_trans; [exact H2|]. apply Z.pow_le_mono_l. lia.
Qed.

Lemma dec_go_digits fuel : forall n acc, forallb is_digit acc = true -> forallb is_digit (dec_go fuel n acc) = true.
Proof.
  induction fuel as [|fuel IH]; intros n acc Ha; [done|]. cbn [dec_go].
  assert (forallb is_digit ((48 + n mod 10) :: acc) = true) as Ha'.
  { simpl. rewrite Ha, andb_true_r. pose proof (Z.mod_pos_bound n 10 ltac:(lia)). unfold is_digit.
    by rewrite (proj2 (Z.leb_le _ _)), (proj2 (Z.leb_le _ _)) by lia. }
  destruct (n <? 10); [done|]. by apply IH.
Qed.

Definition int_text (z : Z) : jsstr := if z <? 0 then 45 :: decimal (- z) else decimal z.

Lemma decimal_head n : exists c s, decimal n = c :: s /\ is_digit c = true.
Proof.
  assert (forall fuel n acc, acc <> [] -> dec_go fuel n acc <> []) as Hne.
  { induction fuel as [|fuel IH]; intros m acc Ha; [done|]. cbn [dec_go]. destruct (m <? 10); [done|]. by apply IH. }
  pose proof (dec_go_digits (S (Z.to_nat (Z.log2 (Z.max n 1)))) n [] eq_refl) as Hd. fold (decimal n) in Hd.
  destruct (decimal n) as [|c s] eqn:E.
  - exfalso. unfold decimal in E. cbn [dec_go] in E. destruct (n <? 10); [done|]. by eapply Hne in E.
  - exists c, s. split; [done|]. simpl in Hd. by apply andb_true_iff in Hd as [Hd _].
Qed.

#[global] Instance int_text_inj : Inj (=) (=) int_text.
Proof.
  intros x y. unfold int_text. destruct (Z.ltb_spec x 0), (Z.ltb_spec y 0); intros E.
  - injection E as E. apply (f_equal (parse_base 10)) in E. rewrite !decimal_parse in E by lia. lia.
  - destruct (decimal_head y) as (c & s & Ey & Hc). rewrite Ey in E. injection E as <- _. done.
  - destruct (decimal_head x) as (c & s & Ex & Hc). rewrite Ex in E. injection E as -> _. done.
  - apply (f_equal (parse_base 10)) in E. by rewrite !decimal_parse in E by lia.
Qed.

Lemma int_text_nonempty n : int_text n <> [].
Proof. unfold int_text. destruct (n <? 0); [done|]. by destruct (decimal_head n) as (c & s & -> & _). Qed.

Lemma int_text_chars n : forallb num_char (int_text n) = true.
Proof.
  assert (forall s, forallb is_digit s = true -> forallb num_char s = true) as D.
  { intros s. rewrite !forallb_forall. intros F c Hc. unfold num_char. by rewrite F. }
  unfold int_text. destruct (n <? 0); simpl; apply D, dec_go_digits; done.
Qed.

Lemma int_text_nat n : int_text (Z.of_nat n) = decimal (Z.of_nat n).
Proof. unfold int_text. by rewrite (proj2 (Z.ltb_ge _ _)) by lia. Qed.

(** The integers with their decimal text. *)
#[export] Instance int_number : JsNumber :=
  {| num := Z; num_text := int_text; num_text_nonempty := int_text_nonempty; num_text_chars := int_text_chars;
     num_of_nat := Z.of_nat; num_of_nat_text := int_text_nat |}.

Definition value0 : jval := JObj [(js "b", JArr [JNum 1; JStr (js "x")]); (js "a", JNull)].
Definition value1 : jval := JObj [(js "a", JNull); (js "b", JArr [JNum 1; JStr (js "x")])].

Lemma js_code_units s : Forall code_unit (js s).
Proof.
  induction s as [|c s IH]; simpl; constructor; [|done]. unfold code_unit.
  pose proof (Ascii.N_ascii_bounded c). lia.
Qed.

Definition text0 : jsstr := js "{" ++ quote (js "a") ++ js ":null," ++ quote (js "b") ++ js ":[1,"
  ++ quote (js "x") ++ js "]}".

Lemma canonical_exact_witness : canonical value1 = Resolved (Some text0) <-> norm value0 = norm value1.
Proof.
  apply (canonical_exact value0 value1 (Some text0)).
  - repeat split; try discriminate; apply js_code_units.
  - repeat split; try discriminate; apply js_code_units.
  - discriminate.
  - discriminate.
  - vm_compute. reflexivity.
Defined.
End CanonicalInt.
