(* ===== verification/Timeline.v ===== *)
(** * The timeline repository

    Models [src/orchestrator/infrastructure/persistence/repositories/timeline_repository.ts],
    class [TimelineRepository]: items stored under [[prefix, timestamp, id]],
    listed in the order of these keys, with a counter next to them.  The
    runtime's store is the interface [TimelineKv] with its documented laws:
    entries are listed in key order, an atomic commit applies all its
    mutations, a 64-bit counter value cannot be negative; [mem_timeline] is a
    concrete instance. *)

From S2P Require Import Prelude Result JsString JsSort Canonical Kv.
From Stdlib Require Import Sorted.

Definition tkey : Type := Z * jsstr.

(** Keys are ordered by timestamp, then by id. *)
Definition tlt (a b : tkey) : bool := (a.1 <? b.1) || ((a.1 =? b.1) && Canonical.jlt a.2 b.2).

Section entries.
Context {T : Type}.

(** Writing and deleting an entry of a listing in key order. *)
Fixpoint put (k : tkey) (v : T) (l : list (tkey * T)) : list (tkey * T) :=
  match l with
  | [] => [(k, v)]
  | e :: l' => if tlt e.1 k then e :: put k v l'
               else if decide (e.1 = k) then (k, v) :: l' else (k, v) :: l
  end.

Definition remove (k : tkey) (l : list (tkey * T)) : list (tkey * T) :=
  List.filter (fun e => negb (bool_decide (e.1 = k))) l.

Inductive mutation :=
| MSet (k : tkey) (v : T)
| MDelete (k : tkey)
| MSum (n : Z).

Definition apply_entries (l : list (tkey * T)) (m : mutation) : list (tkey * T) :=
  match m with MSet k v => put k v l | MDelete k => remove k l | MSum _ => l end.

Definition apply_stat (c : option Z) (m : mutation) : option Z :=
  match m with MSum n => Some ((default 0 c + n) mod 2 ^ 64) | _ => c end.
End entries.
Arguments mutation T : clear implicits.

(** *** Key order *)

Lemma tlt_irrefl a : tlt a a = false.
Proof.
  unfold tlt. rewrite Z.ltb_irrefl, Z.eqb_refl. simpl. destruct (Canonical.jlt a.2 a.2) eqn:E; [|done].
  by rewrite (Canonical.jlt_asym _ _ E) in E.
Qed.

Lemma tlt_total a b : tlt a b = false -> tlt b a = false -> a = b.
Proof.
  destruct a as [t i], b as [u j]. unfold tlt. simpl. rewrite !orb_false_iff, !andb_false_iff, !Z.ltb_ge.
  intros [L1 E1] [L2 E2]. assert (t = u) as -> by lia. rewrite Z.eqb_refl in *. f_equal. apply Canonical.jlt_total; naive_solver.
Qed.

Lemma tlt_trans a b c : tlt a b = true -> tlt b c = true -> tlt a c = true.
Proof.
  destruct a as [t i], b as [u j], c as [v k]. unfold tlt. simpl.
  rewrite !orb_true_iff, !andb_true_iff, !Z.ltb_lt, !Z.eqb_eq.
  intros [?|[-> H1]] [?|[-> H2]]; [left; lia|by left|by left|]. right. split; [done|].
  destruct (Canonical.jlt i k) eqn:E; [done|]. exfalso.
  rewrite (Canonical.jlt_ntrans j k i) in H1; [done|by apply Canonical.jlt_asym|done].
Qed.

Section sorted.
Context {T : Type}.
Implicit Types (l : list (tkey * T)) (e : tkey * T).

Definition in_key_order l : Prop := StronglySorted (fun a b => tlt a b = true) l.*1.

Lemma put_keys k v l x : x ∈ (put k v l).*1 <-> x = k \/ x ∈ l.*1.
Proof.
  induction l as [|e l IH]; simpl; [set_solver|]. destruct (tlt e.1 k); [simpl; set_solver|].
  case_decide; simpl; set_solver.
Qed.

Lemma put_in_order k v l : in_key_order l -> in_key_order (put k v l).
Proof.
  unfold in_key_order. induction l as [|e l IH]; simpl; intros Hs; [by repeat constructor|].
  inversion Hs as [|? ? Hl He]; subst. rewrite List.Forall_forall in He. destruct (tlt e.1 k) eqn:Elt.
  - simpl. constructor; [by apply IH|]. rewrite List.Forall_forall. intros x Hx%list_elem_of_In.
    apply put_keys in Hx as [->|Hx]; [done|]. by apply He, list_elem_of_In.
  - case_decide as Ek; simpl; constructor; try done.
    + rewrite List.Forall_forall. subst. done.
    + constructor.
      * destruct (tlt k e.1) eqn:E'; [done|]. by destruct Ek; apply tlt_total.
      * rewrite List.Forall_forall. intros x Hx. destruct (tlt k e.1) eqn:E'; [|by destruct Ek; apply tlt_total].
        eapply tlt_trans; [exact E'|]. by apply He.
Qed.

Lemma remove_in_order k l : in_key_order l -> in_key_order (remove k l).
Proof.
  unfold in_key_order, remove. induction l as [|e l IH]; simpl; [done|]. intros Hs.
  inversion Hs as [|? ? Hl He]; subst. destruct (bool_decide _); simpl; [by apply IH|]. constructor; [by apply IH|].
  rewrite List.Forall_forall in *. intros x Hx. apply He. apply list_elem_of_In in Hx. apply list_elem_of_In.
  apply list_elem_of_fmap in Hx as (y & -> & Hy). apply list_elem_of_fmap. exists y. split; [done|].
  apply list_elem_of_In in Hy. apply filter_In in Hy as [Hy _]. by apply list_elem_of_In.
Qed.

Lemma apply_in_order ms : forall l, in_key_order l -> in_key_order (fold_left apply_entries ms l).
Proof.
  induction ms as [|m ms IH]; intros l Hl; simpl; [done|]. apply IH.
  destruct m; [by apply put_in_order|by apply remove_in_order|done].
Qed.

(** A key above all others goes last. *)
Lemma put_last k v l : Forall (fun x => tlt x k = true) l.*1 -> put k v l = l ++ [(k, v)].
Proof.
  induction l as [|e l IH]; simpl; [done|]. intros [He Hl]%Forall_cons. by rewrite He, IH.
Qed.
End sorted.

Class TimelineKv (T : Type) := {
  tkv : Type;
  tkv_entries : tkv -> list (tkey * T);
  (** the counter under [["stats", prefix, "count"]] *)
  tkv_stat : tkv -> option Z;
  (** [atomic()....commit()]; no state is [{ ok: false }] or a rejection *)
  tkv_commit : tkv -> list (mutation T) -> option tkv;
  tkv_set_stat : tkv -> Z -> tkv;
  (** [new Deno.KvU64(n)]; no value is a [RangeError] *)
  kv_u64 : Z -> option Z;
  tkv_sorted s : in_key_order (tkv_entries s);
  tkv_commit_entries s ms s' : tkv_commit s ms = Some s' ->
    tkv_entries s' = fold_left apply_entries ms (tkv_entries s);
  tkv_commit_stat s ms s' : tkv_commit s ms = Some s' ->
    tkv_stat s' = fold_left apply_stat ms (tkv_stat s);
  tkv_set_stat_entries s n : tkv_entries (tkv_set_stat s n) = tkv_entries s;
  tkv_set_stat_stat s n : tkv_stat (tkv_set_stat s n) = Some n;
  kv_u64_range n : kv_u64 n = if (0 <=? n) && (n <? 2 ^ 64) then Some n else None;
}.

(** An in-memory timeline. *)
Record mem_tl (T : Type) := mkMemTl {
  mt_entries : list (tkey * T); mt_stat : option Z; mt_sorted : in_key_order mt_entries }.
Arguments mkMemTl {T} _ _ _.
Arguments mt_entries {T} _.
Arguments mt_stat {T} _.
Arguments mt_sorted {T} _.

#[export, refine] Instance mem_timeline {T} : TimelineKv T := {|
  tkv := mem_tl T;
  tkv_entries := mt_entries;
  tkv_stat := mt_stat;
  tkv_commit := fun s ms => Some (mkMemTl (fold_left apply_entries ms (mt_entries s))
    (fold_left apply_stat ms (mt_stat s)) (apply_in_order ms _ (mt_sorted s)));
  tkv_set_stat := fun s n => mkMemTl (mt_entries s) (Some n) (mt_sorted s);
  kv_u64 := fun n => if (0 <=? n) && (n <? 2 ^ 64) then Some n else None;
|}.
Proof.
  - exact mt_sorted.
  - intros s ms s' E. by injection E as <-.
  - intros s ms s' E. by injection E as <-.
  - done.
  - done.
  - done.
Defined.

Module Timeline.
Section timeline.
Context {T : Type} `{TimelineKv T}.
(** the item's id and the milliseconds of its timestamp *)
Context (item_id : T -> jsstr) (item_ts : T -> Z).

Inductive TimelineError := Denied (e : RepoError) | CommitFailed | RangeError.

Record TimelineRepository := mkTimeline { isReadOnly : bool; prefix : jsstr; store : tkv }.

Definition with_tkv (r : TimelineRepository) (s : tkv) : TimelineRepository :=
  mkTimeline (isReadOnly r) (prefix r) s.

Definition outcome : Type := TimelineRepository * settled unit TimelineError.

(** Runs [k] when writing is permitted. *)
Definition guarded (r : TimelineRepository) (k : outcome) : outcome :=
  match writePermission (isReadOnly r) (prefix r) with
  | Rejected e => (r, Rejected (Denied e))
  | Resolved _ => k
  end.

(** One atomic commit of item writes with the counter's increment. *)
Definition commitItems (r : TimelineRepository) (items : list (jsstr * T)) : outcome :=
  match kv_u64 (Z.of_nat (length items)) with
  | None => (r, Rejected RangeError)
  | Some n =>
      match tkv_commit (store r) (map (fun i => MSet (item_ts i.2, i.1) i.2) items ++ [MSum n]) with
      | Some s' => (with_tkv r s', Resolved tt)
      | None => (r, Rejected CommitFailed)
      end
  end.

Definition set (r : TimelineRepository) (id : jsstr) (data : T) : outcome :=
  guarded r (commitItems r [(id, data)]).

Definition CHUNK_SIZE : nat := 100.

(** The loop over the chunks of a batch. *)
Fixpoint setChunks (fuel : nat) (r : TimelineRepository) (items : list (jsstr * T)) : outcome :=
  match fuel, items with
  | S fuel, _ :: _ =>
      match commitItems r (take CHUNK_SIZE items) with
      | (r', Resolved _) => setChunks fuel r' (drop CHUNK_SIZE items)
      | failed => failed
      end
  | _, _ => (r, Resolved tt)
  end.

Definition setMany (r : TimelineRepository) (items : list (jsstr * T)) : outcome :=
  if bool_decide (items = []) then (r, Resolved tt)
  else guarded r (setChunks (length items) r items).

Definition values (r : TimelineRepository) : list T := (tkv_entries (store r)).*2.

Definition getStream (r : TimelineRepository) (limit : nat) (reverse : bool) : list T :=
  take limit (if reverse then rev (values r) else values r).

Definition getLatest (r : TimelineRepository) (limit : nat) : list T := getStream r limit true.

Definition listRange (r : TimelineRepository) (startTs endTs : Z) : list T :=
  (List.filter (fun e => (startTs <=? e.1.1) && (e.1.1 <? endTs)) (tkv_entries (store r))).*2.

(** The loop of [deleteBefore] over the listed keys; [batch] are the keys of
    the running transaction. *)
Fixpoint deleteLoop (r : TimelineRepository) (keys batch : list tkey) (count : Z)
  : TimelineRepository * settled Z TimelineError :=
  let flush (r : TimelineRepository) (batch : list tkey) : settled TimelineRepository TimelineError :=
    match kv_u64 (- Z.of_nat (length batch)) with
    | None => Rejected RangeError
    | Some n => match tkv_commit (store r) (map MDelete batch ++ [MSum n]) with
                | Some s' => Resolved (with_tkv r s')
                | None => Resolved r (* the result of the commit is not looked at *)
                end
    end in
  match keys with
  | [] =>
      if bool_decide (batch = []) then (r, Resolved count)
      else match flush r batch with Rejected e => (r, Rejected e) | Resolved r' => (r', Resolved count) end
  | k :: keys =>
      let batch := batch ++ [k] in
      if (100 <=? length batch)%nat then
        match flush r batch with
        | Rejected e => (r, Rejected e)
        | Resolved r' => deleteLoop r' keys [] (count + 1)
        end
      else deleteLoop r keys batch (count + 1)
  end.

Definition keysBefore (r : TimelineRepository) (timestamp : Z) : list tkey :=
  (List.filter (fun e => e.1.1 <? timestamp) (tkv_entries (store r))).*1.

Definition deleteBefore (r : TimelineRepository) (timestamp : Z)
  : TimelineRepository * settled Z TimelineError :=
  match writePermission (isReadOnly r) (prefix r) with
  | Rejected e => (r, Rejected (Denied e))
  | Resolved _ => deleteLoop r (keysBefore r timestamp) [] 0
  end.

(** [count()], without a concurrent call. *)
Definition count (r : TimelineRepository) : TimelineRepository * Z :=
  match tkv_stat (store r) with
  | Some n => (r, n)
  | None => let n := Z.of_nat (length (values r)) in (with_tkv r (tkv_set_stat (store r) n), n)
  end.

(** ** Facts *)

Lemma u64_negative n : 0 < n -> kv_u64 (- n) = None.
Proof. intros Hn. rewrite kv_u64_range. by rewrite (proj2 (Z.leb_gt _ _)) by lia. Qed.

Lemma u64_small n : 0 <= n < 2 ^ 64 -> kv_u64 n = Some n.
Proof. intros Hn. rewrite kv_u64_range. by rewrite (proj2 (Z.leb_le _ _)), (proj2 (Z.ltb_lt _ _)) by lia. Qed.

Lemma deleteLoop_rejects keys : forall r batch n, keys ++ batch <> [] ->
  deleteLoop r keys batch n = (r, Rejected RangeError).
Proof.
  induction keys as [|k keys IH]; intros r batch n Hne; cbn [deleteLoop].
  - rewrite bool_decide_eq_false_2 by done. rewrite u64_negative; [done|]. destruct batch; [done|]. simpl. lia.
  - destruct (100 <=? length (batch ++ [k]))%nat.
    + rewrite u64_negative; [done|]. rewrite length_app. simpl. lia.
    + apply IH. intros E%app_eq_nil. destruct E as [_ E]. by destruct batch.
Qed.

(** Entries older than the cutoff are never removed: the counter update of
    the first transaction would need a negative 64-bit value, whose
    construction throws before anything is committed. *)
Lemma deleteBefore_rejects r timestamp : keysBefore r timestamp <> [] ->
  exists e, deleteBefore r timestamp = (r, Rejected e).
Proof.
  intros Hk. unfold deleteBefore. destruct (writePermission _ _) as [|e]; [|by exists (Denied e)].
  exists RangeError. apply deleteLoop_rejects. by rewrite app_nil_r.
Qed.

Lemma deleteBefore_nothing r timestamp : writePermission (isReadOnly r) (prefix r) = Resolved tt ->
  keysBefore r timestamp = [] -> deleteBefore r timestamp = (r, Resolved 0).
Proof. intros Hp Hk. unfold deleteBefore. by rewrite Hp, Hk. Qed.

Lemma fold_sets l items n : fold_left apply_entries (map (fun i => MSet (item_ts i.2, i.1) i.2) items ++ [MSum n]) l
  = fold_left (fun l i => put (item_ts i.2, i.1) i.2 l) items l.
Proof.
  rewrite fold_left_app. simpl. revert l. induction items as [|i items IH]; intros l; simpl; [done|]. apply IH.
Qed.

Lemma commitItems_ok r items r' : commitItems r items = (r', Resolved tt) ->
  tkv_entries (store r') = fold_left (fun l i => put (item_ts i.2, i.1) i.2 l) items (tkv_entries (store r)).
Proof.
  unfold commitItems. destruct (kv_u64 _) as [n|]; [|done]. destruct (tkv_commit _ _) as [s'|] eqn:E; [|done].
  intros ?. simplify_eq/=. by rewrite (tkv_commit_entries _ _ _ E), fold_sets.
Qed.

Definition write_all (items : list (jsstr * T)) (l : list (tkey * T)) : list (tkey * T) :=
  fold_left (fun l i => put (item_ts i.2, i.1) i.2 l) items l.

Lemma commitItems_failed r items r' e : commitItems r items = (r', Rejected e) -> r' = r.
Proof. unfold commitItems. destruct (kv_u64 _); [|naive_solver]. destruct (tkv_commit _ _); naive_solver. Qed.

(** The chunks that were committed are a prefix of the batch. *)
Lemma setChunks_prefix fuel : forall items r r' o, (length items <= fuel)%nat -> setChunks fuel r items = (r', o) ->
  exists m, (m <= length items)%nat /\ tkv_entries (store r') = write_all (take m items) (tkv_entries (store r)) /\
    (o = Resolved tt -> m = length items).
Proof.
  induction fuel as [|fuel IH]; intros items r r' o Hl E.
  { destruct items; [simplify_eq/=; by exists 0%nat|simpl in Hl; lia]. }
  destruct items as [|i items]; [simplify_eq/=; by exists 0%nat|]. cbn [setChunks] in E.
  destruct (commitItems r _) as [r1 [[]|e]] eqn:Ec.
  - apply commitItems_ok in Ec. apply IH in E as (m & Hm & He & Ho);
      [|rewrite length_drop; unfold CHUNK_SIZE in *; simpl in *; lia].
    rewrite length_drop in Hm, Ho. set (n := Nat.min CHUNK_SIZE (length (i :: items))).
    exists (n + m)%nat. split_and!; [subst n; lia| |intros Hr; specialize (Ho Hr); subst n; lia].
    assert (take CHUNK_SIZE (i :: items) = take n (i :: items)) as Et.
    { subst n. destruct (Nat.le_gt_cases CHUNK_SIZE (length (i :: items))); [by rewrite Nat.min_l|].
      rewrite Nat.min_r by lia. rewrite !take_ge by lia. done. }
    assert (take m (drop CHUNK_SIZE (i :: items)) = take m (drop n (i :: items))) as Ed.
    { subst n. destruct (Nat.le_gt_cases CHUNK_SIZE (length (i :: items))); [by rewrite Nat.min_l|].
      rewrite Nat.min_r by lia. rewrite !drop_ge by lia. done. }
    rewrite He, Ec, Et, Ed. unfold write_all. rewrite <-fold_left_app. f_equal. by rewrite take_take_drop.
  - simplify_eq. apply commitItems_failed in Ec as ->. exists 0%nat. split_and!; [lia|done|done].
Qed.

(** A batch writes a prefix of its items, in order; all of them when it
    resolves. *)
Lemma setMany_prefix r items r' o : setMany r items = (r', o) ->
  exists m, (m <= length items)%nat /\ tkv_entries (store r') = write_all (take m items) (tkv_entries (store r)) /\
    (o = Resolved tt -> m = length items).
Proof.
  unfold setMany. case_bool_decide as Hi; [intros; simplify_eq; by exists 0%nat|]. unfold guarded.
  destruct (writePermission _ _); [by apply setChunks_prefix|]. intros. simplify_eq. exists 0%nat. split_and!; [lia|done|done].
Qed.
End timeline.
Arguments TimelineRepository T {_}.
End Timeline.
