(* ===== verification/AuditChain.v ===== *)
(** * The audit ledger

    Models [src/orchestrator/domain/analysis/audit.ts] ([AuditService] and
    [sanitizeDataForAudit]) and [audit_verifier.ts] ([AuditVerifier]): the
    hash chain, its queue, its buffer, the Merkle commitments, the
    synchronisation with peers, retention, and the verification of the chain.
    The service is asynchronous: every piece of code between two awaits is a
    step, and the steps of concurrent calls interleave freely.  The digest,
    the TPM, the clock, the UUIDs and the outcome of every write are inputs;
    log lines, event-bus notifications and the display text [formatted] are
    left out.  This file holds the data, the sanitiser and the verifier;
    [AuditService] holds the service. *)

From S2P Require Import Prelude Result JsString Canonical Kv Timeline.

(** The hardware root of trust, when the node has one. *)
Record Tpm := mkTpm {
  tpm_sign : jsstr -> option jsstr;   (* no value is a rejection *)
  tpm_verify : jsstr -> jsstr -> bool;
}.

Module Audit.
Import JsString Canonical.
Section audit.
Context `{JsNumber}.

(** ** Sanitising *)

(** A JavaScript value as [logEvent] receives it: objects are references
    into a heap, so that sharing and cycles are visible. *)
Inductive rval :=
| RPrim (v : jval)              (* null, boolean, number, string, undefined *)
| RBigint (digits : jsstr)
| RSymbol (text : jsstr)
| RFunction
| RRef (o : nat).

Inductive node :=
| NArr (items : list rval)
| NObj (fields : list (jsstr * rval)).

Definition MAX_ITEMS : nat := 50.

(** [sanitizeDataForAudit(obj, depth, seen)] with [levels] = 7 - depth; a
    function survives only inside an array, where it serialises as
    [undefined].  [seen] holds the objects met so far. *)
Fixpoint sanitize (heap : nat -> option node) (levels : nat) (obj : rval) (seen : list nat)
  : jval * list nat :=
  match levels with
  | O => (JStr (js "[Truncated: Max Depth]"), seen)
  | S levels =>
      match obj with
      | RBigint digits => (JStr (digits ++ js "n"), seen)
      | RSymbol text => (JStr text, seen)
      | RPrim v => (v, seen)
      | RFunction => (JUndefined, seen)
      | RRef o =>
          if bool_decide (o ∈ seen) then (JStr (js "[Circular]"), seen) else
          let seen := o :: seen in
          match heap o with
          | None => (JUndefined, seen)
          | Some (NArr items) =>
              let '(out, seen) :=
                fold_left (fun '(out, seen) item =>
                             let '(v, seen) := sanitize heap levels item seen in (out ++ [v], seen))
                  (take MAX_ITEMS items) ([], seen) in
              (JArr out, seen)
          | Some (NObj fields) =>
              let '(out, seen) :=
                fold_left (fun '(out, seen) (f : jsstr * rval) =>
                             match f.2 with
                             | RFunction => (out, seen)
                             | _ => let '(v, seen) := sanitize heap levels f.2 seen in (out ++ [(f.1, v)], seen)
                             end)
                  (take MAX_ITEMS fields) ([], seen) in
              (JObj out, seen)
          end
      end
  end.

Definition sanitizeDataForAudit (heap : nat -> option node) (obj : rval) : jval :=
  fst (sanitize heap 7 obj []).

(** ** Events *)

Record ActorContext := mkActor { a_id : jsstr; a_role : jsstr; a_ip : jsstr; a_userAgent : option jsstr }.

Record AuditEvent := mkEvent {
  id : jsstr;
  timestamp : jsstr;
  type_ : jsstr;
  severity : option jsstr;
  caller : option jsstr;
  message : jsstr;
  actor : option ActorContext;
  data : option jval;
  hash : jsstr;
  prevHash : jsstr;
  hwSignature : option jsstr;
  correlationId : option jsstr;
}.

Definition str_val (o : option jsstr) : jval := match o with Some s => JStr s | None => JUndefined end.

Definition actor_val (o : option ActorContext) : jval :=
  match o with
  | None => JUndefined
  | Some a => JObj ([(js "id", JStr (a_id a)); (js "role", JStr (a_role a)); (js "ip", JStr (a_ip a))]
                    ++ match a_userAgent a with Some u => [(js "userAgent", JStr u)] | None => [] end)
  end.

(** The hashed object of [processQueue], [syncEvents] and [verifyChain]. *)
Definition hashInput (e : AuditEvent) : jval :=
  JObj [(js "id", JStr (id e)); (js "timestamp", JStr (timestamp e)); (js "type", JStr (type_ e));
        (js "severity", str_val (severity e)); (js "caller", str_val (caller e));
        (js "message", JStr (message e)); (js "actor", actor_val (actor e));
        (js "data", default JUndefined (data e)); (js "correlationId", str_val (correlationId e));
        (js "prevHash", JStr (prevHash e))].

(** The hashed object of a checkpoint: it has no [actor] and no
    [correlationId]. *)
Definition checkpointInput (e : AuditEvent) : jval :=
  JObj [(js "id", JStr (id e)); (js "timestamp", JStr (timestamp e)); (js "type", JStr (type_ e));
        (js "severity", str_val (severity e)); (js "caller", str_val (caller e));
        (js "message", JStr (message e)); (js "data", default JUndefined (data e));
        (js "prevHash", JStr (prevHash e))].

Definition GENESIS : jsstr := js "GENESIS".
Definition TRUNCATED : jsstr := js "TRUNCATED".
Definition CHECKPOINT : jsstr := js "CHECKPOINT".

Context (sha256 : jsstr -> jsstr) (tpm : option Tpm).

Definition expectedHash (e : AuditEvent) : settled jsstr CanonError := computeHash sha256 (hashInput e).

(** ** AuditVerifier *)

Inductive BreakType := CHECKPOINT_TAMPER | UNSIGNED_CHECKPOINT | HASH_MISMATCH | CHAIN_BREAK.

Record Verification := mkVerification { valid : bool; eventsChecked : nat; brokenAt : option (jsstr * BreakType) }.

(** A string that is present and not empty. *)
Definition truthy (o : option jsstr) : bool := match o with Some (_ :: _) => true | _ => false end.

(** The loop of [verifyChain] over the events, newest first. *)
Fixpoint verifyLoop (prevEvent : option AuditEvent) (checked : nat) (events : list AuditEvent)
  : settled Verification CanonError :=
  match events with
  | [] => Resolved (mkVerification true checked None)
  | event :: events =>
      let checked := S checked in
      if bool_decide (type_ event = CHECKPOINT) then
        match tpm, hwSignature event with
        | Some t, Some (c :: sig) =>
            if negb (tpm_verify t (hash event) (c :: sig))
            then Resolved (mkVerification false checked (Some (id event, CHECKPOINT_TAMPER)))
            else verifyLoop (Some event) checked events
        | _, _ =>
            if negb (bool_decide (prevHash event = TRUNCATED))
            then Resolved (mkVerification false checked (Some (id event, UNSIGNED_CHECKPOINT)))
            else verifyLoop (Some event) checked events
        end
      else
        match expectedHash event with
        | Rejected e => Rejected e
        | Resolved expected =>
            if negb (bool_decide (hash event = expected))
            then Resolved (mkVerification false checked (Some (id event, HASH_MISMATCH)))
            else
              match prevEvent with
              | Some p =>
                  if negb (bool_decide (prevHash p = hash event)) && negb (bool_decide (prevHash p = TRUNCATED))
                  then Resolved (mkVerification false checked (Some (id p, CHAIN_BREAK)))
                  else verifyLoop (Some event) checked events
              | None => verifyLoop (Some event) checked events
              end
        end
  end.

Definition verifyEvents (newestFirst : list AuditEvent) : settled Verification CanonError :=
  verifyLoop None 0 newestFirst.

(** The position of an event's hash in the leaves of [getMerkleProof]. *)
Fixpoint indexOf (x : jsstr) (l : list jsstr) : option nat :=
  match l with
  | [] => None
  | y :: l => if bool_decide (y = x) then Some 0%nat else S <$> indexOf x l
  end.

Definition merkleLeaves (recentEvents : list AuditEvent) : list jsstr := rev (map hash recentEvents).

(** ** The sanitiser's bounds *)

Definition bounded (n : nat) (v : jval) : Prop := (height v <= n)%nat /\ narrow v.

Lemma bounded_list n l : (length l <= 50)%nat -> Forall (bounded n) l -> bounded (S n) (JArr l).
Proof.
  intros Hl Hb. apply Forall_and in Hb as [Hh Hn]. split; [by apply height_list|]. split; [lia|].
  by apply Forall_fold_right.
Qed.

Lemma bounded_fields n (l : list (jsstr * jval)) : (length l <= 50)%nat -> Forall (fun f => bounded n f.2) l ->
  bounded (S n) (JObj l).
Proof.
  intros Hl Hb. apply Forall_and in Hb as [Hh Hn]. split; [by apply (height_list (fun f => height f.2))|].
  split; [lia|]. by apply Forall_fold_right.
Qed.

(** Primitive values of the heap hold no container. *)
Definition prim_ok (r : rval) : Prop :=
  match r with RPrim (JArr _) | RPrim (JObj _) => False | _ => True end.

Definition heap_ok (heap : nat -> option node) : Prop :=
  forall o, match heap o with
            | Some (NArr items) => Forall prim_ok items
            | Some (NObj fields) => Forall (fun f => prim_ok f.2) fields
            | None => True
            end.

Lemma fold_bounded {A B} (P : B -> Prop) (Q : A -> Prop) (f : list B * list nat -> A -> list B * list nat) l :
  (forall out seen a, Q a -> Forall P out ->
     Forall P (f (out, seen) a).1 /\ (length (f (out, seen) a).1 <= S (length out))%nat) ->
  Forall Q l -> forall out seen, Forall P out ->
  Forall P (fold_left f l (out, seen)).1 /\ (length (fold_left f l (out, seen)).1 <= length out + length l)%nat.
Proof.
  intros Hf. induction 1 as [|a l Ha Hl IH]; intros out seen Ho; simpl; [split; [done|lia]|].
  destruct (Hf out seen a Ha Ho) as [Ho' Hlen]. destruct (f (out, seen) a) as [out' seen']. simpl in *.
  destruct (IH out' seen' Ho') as [? ?]. split; [done|lia].
Qed.

Lemma sanitize_bounded heap levels : heap_ok heap -> forall obj seen, prim_ok obj ->
  bounded levels (sanitize heap levels obj seen).1.
Proof.
  intros Hh. induction levels as [|levels IH]; intros obj seen Hp; [by split; simpl; [lia|]|].
  destruct obj as [v| | | |o]; cbn [sanitize fst]; try (by split; simpl; [lia|]).
  - destruct v; try done; by split; simpl; [lia|].
  - case_bool_decide; [by split; simpl; [lia|]|]. specialize (Hh o).
    destruct (heap o) as [[items|fields]|]; [| |by split; simpl; [lia|]].
    + match goal with |- context [fold_left ?f ?l ?a] =>
        assert (Forall (bounded levels) (fold_left f l a).1 /\ (length (fold_left f l a).1 <= 0 + length l)%nat)
          as [F1 F2];
        [apply (fold_bounded (bounded levels) prim_ok); [|by apply Forall_take|constructor]|
         destruct (fold_left f l a) as [out sn]] end.
      * intros out sn a Ha Ho. pose proof (IH a sn Ha). destruct (sanitize heap levels a sn). simpl.
        split; [by apply Forall_app_2; [|constructor]|rewrite length_app; simpl; lia].
      * simpl in *. apply bounded_list; [|done]. rewrite length_take in F2. unfold MAX_ITEMS in F2. lia.
    + match goal with |- context [fold_left ?f ?l ?a] =>
        assert (Forall (fun g => bounded levels g.2) (fold_left f l a).1 /\
                (length (fold_left f l a).1 <= 0 + length l)%nat) as [F1 F2];
        [apply (fold_bounded (fun g => bounded levels g.2) (fun g => prim_ok g.2));
           [|by apply Forall_take|constructor]|
         destruct (fold_left f l a) as [out sn]] end.
      * intros out sn [k a] Ha Ho. simpl in Ha. pose proof (IH a sn Ha) as Hb. simpl snd.
        destruct (sanitize heap levels a sn) as [v sn']. simpl in Hb.
        destruct a; simpl; (split; [done || (by apply Forall_app_2; [|constructor])|rewrite ?length_app; simpl; lia]).
      * simpl in *. apply bounded_fields; [|done]. rewrite length_take in F2. unfold MAX_ITEMS in F2. lia.
Qed.

Lemma hashInput_bounded e : (forall v, data e = Some v -> bounded 7 v) -> bounded 8 (hashInput e).
Proof.
  intros Hd. apply bounded_fields; [simpl; lia|].
  assert (forall v, bounded 1 v -> bounded 7 v) as Hw by (intros v [? ?]; split; [lia|done]).
  assert (forall o, bounded 7 (str_val o)) as Hs by (intros []; by split; simpl; [lia|]).
  repeat first [apply Forall_cons_2|apply Forall_nil_2]; cbn [snd]; try apply Hs; try (by split; simpl; [lia|]).
  - apply Hw. destruct (actor e) as [a|]; [|by split; simpl; [lia|]]. apply bounded_fields.
    + rewrite length_app. destruct (a_userAgent a); simpl; lia.
    + apply Forall_app_2; [repeat constructor|]. destruct (a_userAgent a); repeat constructor.
  - destruct (data e) as [v|]; [by apply Hd|]. by split; simpl; [lia|].
Qed.

(** Whatever object graph an event carries, cyclic or shared, of any depth
    and width, the sanitised data fits the serialiser's limits, so that the
    hash of the event can always be computed. *)
Theorem sanitized_event_hashes heap obj e : heap_ok heap -> prim_ok obj ->
  data e = Some (sanitizeDataForAudit heap obj) -> exists h, expectedHash e = Resolved h.
Proof.
  intros Hh Hp Hd. destruct (hashInput_bounded e) as [Hb Hn].
  { intros v Hv. rewrite Hd in Hv. injection Hv as <-. by apply sanitize_bounded. }
  destruct (proj2 (canonical_ok (hashInput e) MAX_DEPTH)) as [t Ht].
  { split; [unfold MAX_DEPTH; lia|done]. }
  unfold expectedHash, computeHash, canonical. rewrite Ht. by eexists.
Qed.

(** ** What the verifier establishes *)

Definition plain (e : AuditEvent) : Prop := type_ e <> CHECKPOINT /\ prevHash e <> TRUNCATED.

(** The events are correctly hashed and each names the next one's hash. *)
Fixpoint linked (prev : option AuditEvent) (events : list AuditEvent) : Prop :=
  match events with
  | [] => True
  | e :: events =>
      expectedHash e = Resolved (hash e) /\
      match prev with Some p => prevHash p = hash e | None => True end /\ linked (Some e) events
  end.

Lemma verify_plain events : forall prev n, Forall plain events -> (forall p, prev = Some p -> plain p) ->
  ((exists v, verifyLoop prev n events = Resolved v /\ valid v = true) <-> linked prev events).
Proof.
  induction events as [|e events IH]; intros prev n Hp Hprev; simpl; [naive_solver|].
  apply Forall_cons in Hp as [[Ht Htr] Hp]. rewrite bool_decide_eq_false_2 by done.
  assert (forall m, (exists v, verifyLoop (Some e) m events = Resolved v /\ valid v = true) <-> linked (Some e) events) as R.
  { intros m. apply IH; [done|]. intros p ?. by simplify_eq. }
  destruct (expectedHash e) as [x|err] eqn:Ex; [|split; [naive_solver|intros [? _]; congruence]].
  case_bool_decide as Hx; simpl; [|split; [naive_solver|intros [? _]; congruence]]. subst x.
  destruct prev as [p|]; [|rewrite R; naive_solver].
  destruct (Hprev p eq_refl) as [_ Hptr]. rewrite (bool_decide_eq_false_2 (prevHash p = TRUNCATED)) by done.
  case_bool_decide; simpl; [rewrite R; naive_solver|]. naive_solver.
Qed.

(** The hashed content of two events is the same, the fields of [data] in
    any order. *)
Definition same_content (e f : AuditEvent) : Prop :=
  id e = id f /\ timestamp e = timestamp f /\ type_ e = type_ f /\ severity e = severity f /\
  caller e = caller f /\ message e = message f /\ actor e = actor f /\
  norm (default JUndefined (data e)) = norm (default JUndefined (data f)) /\
  correlationId e = correlationId f /\ prevHash e = prevHash f.

Definition event_clean (e : AuditEvent) : Prop := clean (hashInput e).

(** The digest does not collide on the serialised events of the two lists. *)
Definition no_collision (l l' : list AuditEvent) : Prop :=
  forall e f, e ∈ l -> f ∈ l' -> expectedHash e = expectedHash f -> canonical (hashInput e) = canonical (hashInput f).

Lemma str_val_inj a b : str_val a = str_val b -> a = b.
Proof. destruct a, b; simpl; congruence. Qed.

Lemma actor_norm_inj a b : norm (actor_val a) = norm (actor_val b) -> a = b.
Proof.
  destruct a as [[i r p [u|]]|], b as [[i' r' p' [u'|]]|]; intros E; vm_compute in E; congruence.
Qed.

Lemma norm_hashInput e : norm (hashInput e) =
  JObj [(js "actor", norm (actor_val (actor e))); (js "caller", str_val (caller e));
        (js "correlationId", str_val (correlationId e)); (js "data", norm (default JUndefined (data e)));
        (js "id", JStr (id e)); (js "message", JStr (message e)); (js "prevHash", JStr (prevHash e));
        (js "severity", str_val (severity e)); (js "timestamp", JStr (timestamp e)); (js "type", JStr (type_ e))].
Proof.
  unfold hashInput. cbn [norm map fst snd].
  assert (forall o, norm (str_val o) = str_val o) as -> by (by intros []).
  assert (forall o, norm (str_val o) = str_val o) as Hn by (by intros []). rewrite !Hn.
  generalize (norm (actor_val (actor e))), (norm (default JUndefined (data e))). intros va vd.
  reflexivity.
Qed.

Lemma same_hash_content e f : event_clean e -> event_clean f -> 
  canonical (hashInput e) = canonical (hashInput f) -> (exists h, expectedHash e = Resolved h) -> same_content e f.
Proof.
  intros Ce Cf E [h Hh]. unfold expectedHash, computeHash in Hh.
  destruct (canonical (hashInput e)) as [t|] eqn:Et; [|done].
  pose proof (canonical_injective (hashInput e) (hashInput f) t Ce Cf ltac:(done) ltac:(done) Et (eq_sym E)) as N.
  rewrite !norm_hashInput in N. injection N as Na Nc Ncorr Nd Ni Nm Np Ns Nt Nty.
  unfold same_content. split_and!; auto using str_val_inj, actor_norm_inj.
Qed.

Lemma chains_agree l : forall l' p p', linked (Some p) l -> linked (Some p') l' -> prevHash p = prevHash p' ->
  Forall event_clean l -> Forall event_clean l' -> no_collision l l' ->
  forall i e f, l !! i = Some e -> l' !! i = Some f -> same_content e f.
Proof.
  induction l as [|x l IH]; intros [|y l'] p p' L L' Ep C C' N i e f He Hf; try done. simpl in L, L'.
  destruct L as (Hx & Px & L), L' as (Hy & Py & L'). apply Forall_cons in C as [Cx C], C' as [Cy C'].
  assert (same_content x y) as S.
  { apply same_hash_content; [done|done| |by eexists]. apply N; [set_solver|set_solver|]. congruence. }
  destruct i as [|i]; simplify_eq/=; [done|]. apply (IH l' x y L L') with (i := i); auto.
  - by destruct S as (_ & _ & _ & _ & _ & _ & _ & _ & _ & ->).
  - intros a b Ha Hb. apply N; set_solver.
Qed.

(** C6: tampering shows: two ledgers without checkpoints that both verify and
    end in the same newest hash have the same content, event by event, as far
    as the shorter one reaches, unless the digest collides on two of their
    events. *)
Theorem tamper_evident l l' e f n m :
  Forall plain (e :: l) -> Forall plain (f :: l') -> Forall event_clean (e :: l) -> Forall event_clean (f :: l') ->
  no_collision (e :: l) (f :: l') ->
  verifyEvents (e :: l) = Resolved (mkVerification true n None) ->
  verifyEvents (f :: l') = Resolved (mkVerification true m None) ->
  hash e = hash f ->
  forall i x y, (e :: l) !! i = Some x -> (f :: l') !! i = Some y -> same_content x y.
Proof.
  intros P P' C C' N V V' Eh i x y Hx Hy.
  assert (linked None (e :: l)) as L by (apply (verify_plain _ _ 0); [done|done|by eexists]).
  assert (linked None (f :: l')) as L' by (apply (verify_plain _ _ 0); [done|done|by eexists]).
  simpl in L, L'. destruct L as (He & _ & L), L' as (Hf & _ & L').
  pose proof C as [Ce Cl]%Forall_cons. pose proof C' as [Cf Cl']%Forall_cons.
  assert (same_content e f) as S.
  { apply same_hash_content; [done|done| |by eexists]. apply N; [set_solver|set_solver|]. congruence. }
  destruct i as [|i]; simplify_eq/=; [done|]. apply (chains_agree l l' e f L L') with (i := i); auto.
  - by destruct S as (_ & _ & _ & _ & _ & _ & _ & _ & _ & ->).
  - intros a b Ha Hb. apply N; set_solver.
Qed.

(** Verification of a concatenation stops at the first break. *)
Lemma verify_app l : forall prev n l' m,
  verifyLoop prev n l = Resolved (mkVerification true m None) ->
  verifyLoop prev n (l ++ l') = verifyLoop (match last l with Some e => Some e | None => prev end) m l'.
Proof.
  induction l as [|e l IH]; intros prev n l' m V; [by simplify_eq/=|].
  assert (forall p : option AuditEvent, match last (e :: l) with Some x => Some x | None => p end
    = match last l with Some x => Some x | None => Some e end) as El by (intros p; rewrite last_cons; by destruct (last l)).
  rewrite El. simpl in *. 
  repeat match goal with
  | H : context [match ?x with _ => _ end] |- _ => destruct x eqn:?; try done
  | |- context [match ?x with _ => _ end] => destruct x eqn:?; try done
  end; eauto.
Qed.

(** The count and a truncation boundary before the first event do not change
    the verdict. *)
Lemma verify_shift l : forall q q' k k' d, verifyLoop q k l = Resolved (mkVerification true k' None) ->
  (q = q' \/ q = None /\ exists p, q' = Some p /\ prevHash p = TRUNCATED) ->
  verifyLoop q' (k + d) l = Resolved (mkVerification true (k' + d) None).
Proof.
  induction l as [|e l IH]; intros q q' k k' d V Hq; [by simplify_eq/=|]. simpl in *.
  destruct (bool_decide (type_ e = CHECKPOINT)).
  - destruct tpm as [t|]; [destruct (hwSignature e) as [[|c sg]|]|];
      repeat case_match; simplify_eq; rewrite <-Nat.add_succ_l; eapply IH; eauto.
  - destruct (expectedHash e) as [x|]; [|done]. destruct (negb (bool_decide (hash e = x))); [done|].
    destruct Hq as [<-|[-> (p & -> & Hp)]].
    + destruct q as [p|]; [destruct (_ && _); [done|]|]; rewrite <-Nat.add_succ_l; eapply IH; eauto.
    + rewrite (bool_decide_eq_true_2 (prevHash p = TRUNCATED)) by done. simpl. rewrite andb_false_r.
      rewrite <-Nat.add_succ_l. eapply IH; eauto.
Qed.

(** An unsigned checkpoint that claims a truncation is accepted anywhere in
    the chain, whatever its hash, on a node with or without a TPM: putting it
    in place of any stretch of events leaves a ledger that verifies. *)
Theorem forged_checkpoint_accepted l l' cp n m :
  verifyEvents l = Resolved (mkVerification true n None) ->
  verifyEvents l' = Resolved (mkVerification true m None) ->
  type_ cp = CHECKPOINT -> prevHash cp = TRUNCATED -> hwSignature cp = None ->
  verifyEvents (l ++ cp :: l') = Resolved (mkVerification true (n + 1 + m) None).
Proof.
  intros V V' Ht Hp Hs. unfold verifyEvents in *. rewrite (verify_app _ _ _ _ _ V). simpl.
  rewrite Ht, bool_decide_eq_true_2 by done. rewrite Hs, Hp, (bool_decide_eq_true_2 (TRUNCATED = TRUNCATED)) by done.
  assert (verifyLoop (Some cp) (S n) l' = Resolved (mkVerification true (m + S n) None)) as E.
  { apply (verify_shift l' None _ 0); [done|]. right. split; [done|]. by exists cp. }
  replace (n + 1 + m)%nat with (m + S n)%nat by lia. by destruct tpm.
Qed.

(** Plain linked events verify, all of them. *)
Lemma linked_verifies events : forall prev n, Forall plain events -> (forall p, prev = Some p -> plain p) ->
  linked prev events -> verifyLoop prev n events = Resolved (mkVerification true (n + length events) None).
Proof.
  induction events as [|e events IH]; intros prev n Hp Hprev L; simpl; [by rewrite Nat.add_0_r|].
  apply Forall_cons in Hp as [[Ht Htr] Hp]. destruct L as (Hx & Hl & L).
  rewrite bool_decide_eq_false_2 by done. rewrite Hx, bool_decide_eq_true_2 by done. simpl.
  replace (n + S (length events))%nat with (S n + length events)%nat by lia.
  assert (verifyLoop (Some e) (S n) events = Resolved (mkVerification true (S n + length events) None)) as R.
  { apply IH; [done| |done]. intros p ?. by simplify_eq. }
  destruct prev as [p|]; [|done]. by rewrite (bool_decide_eq_true_2 (prevHash p = hash e)).
Qed.

Lemma linked_prefix k events : forall prev, linked prev events -> linked prev (take k events).
Proof.
  revert k. induction events as [|e events IH]; intros [|k] prev L; try done. simpl in *. naive_solver.
Qed.
End audit.
End Audit.
