(* ===== verification/AuditService.v ===== *)
(** * The audit service

    Models the class [AuditService] of
    [src/orchestrator/domain/analysis/audit.ts] over the timeline repository
    ([kv_audit_repository.ts]): logging, the processing of the queue, the
    flush of the buffer, the Merkle commitments, the synchronisation with
    peers, the restoration of the chain head and retention.  A call that
    awaits is split at its awaits; [step] interleaves the pieces.  What the
    code does by itself when a threshold is reached (flush at 100 buffered
    events, commit at 5000 hashes) are calls it may make at any time, so they
    are among the steps. *)

From S2P Require Import Prelude Result Digest JsString Merkle Canonical Kv Timeline AuditChain.

Module AuditService.
Import JsString Canonical Audit.
Section service.
Context `{JsNumber}.
Context `{TimelineKv AuditEvent}.
Context (sha256 : jsstr -> jsstr) (tpm : option Tpm).
(** The digest as [MerkleTree] calls it, on texts. *)
Context {merkle_sha : Sha256}.
(** [new Date(text).getTime()] *)
Context (date_ms : jsstr -> Z).

Notation repository := (Timeline.TimelineRepository AuditEvent).
Definition event_ms (e : AuditEvent) : Z := date_ms (timestamp e).

(** [KvAuditRepository.save] and [saveMany]. *)
Definition save (r : repository) (e : AuditEvent) : Timeline.outcome :=
  Timeline.set event_ms r (id e) e.
Definition saveMany (r : repository) (es : list AuditEvent) : Timeline.outcome :=
  Timeline.setMany event_ms r (map (fun e => (id e, e)) es).

(** An event as [logEvent] queues it, its data sanitised. *)
Record Queued := mkQueued {
  q_type : jsstr; q_severity : option jsstr; q_caller : option jsstr; q_message : jsstr;
  q_actor : option ActorContext; q_data : option jval; q_timestamp : option jsstr;
  q_correlationId : option jsstr; q_fromAudit : bool }.

(** The data of a queued event, from the object passed to [logEvent]. *)
Definition queuedData (heap : nat -> option node) (data : option nat) : option jval :=
  (fun o => sanitizeDataForAudit heap (RRef o)) <$> data.

(** Where [processQueue] is: awaiting the hash and signature of the first of
    [current], with the id, timestamp and previous hash it has taken, or
    between two events. *)
Inductive Progress :=
| Idle
| Hashing (current : list Queued) (q : Queued) (newId ts prev : jsstr)
| Between (rest : list Queued).

(** A running [syncEvents]: the event it looks at, those after it, and the
    await it is at: the hash, the TPM's answer or the write. *)
Inductive SyncStage := AwaitHash | AwaitVerify | AwaitSave.
Record Sync := mkSync { sy_event : AuditEvent; sy_rest : list AuditEvent; sy_stage : SyncStage }.

Record Service := mkService {
  lastHash : jsstr;
  lastVerifiedHash : jsstr;
  restricted : bool;                       (* state === FORENSIC_RESTRICTED *)
  logQueue : list Queued;
  progress : Progress;                     (* isProcessingQueue, when not idle *)
  auditBuffer : list AuditEvent;
  flushing : option (list AuditEvent);     (* isFlushing *)
  currentSessionHashes : list jsstr;
  merkleLeaves : list jsstr;               (* the leaves of merkleTree *)
  committing : list (list jsstr);          (* Merkle commitments in flight *)
  isCommittingMerkle : bool;
  checking : nat;                          (* commitments awaiting the TPM's verdict *)
  syncing : list Sync;                     (* running calls of syncEvents *)
  repo : repository;
}.

Definition with_head (h : jsstr) (s : Service) : Service :=
  mkService h (lastVerifiedHash s) (restricted s) (logQueue s) (progress s) (auditBuffer s) (flushing s)
    (currentSessionHashes s) (merkleLeaves s) (committing s) (isCommittingMerkle s) (checking s) (syncing s) (repo s).
Definition with_verified (h : jsstr) (s : Service) : Service :=
  mkService (lastHash s) h (restricted s) (logQueue s) (progress s) (auditBuffer s) (flushing s)
    (currentSessionHashes s) (merkleLeaves s) (committing s) (isCommittingMerkle s) (checking s) (syncing s) (repo s).
Definition with_restricted (b : bool) (s : Service) : Service :=
  mkService (lastHash s) (lastVerifiedHash s) b (logQueue s) (progress s) (auditBuffer s) (flushing s)
    (currentSessionHashes s) (merkleLeaves s) (committing s) (isCommittingMerkle s) (checking s) (syncing s) (repo s).
Definition with_queue (q : list Queued) (p : Progress) (s : Service) : Service :=
  mkService (lastHash s) (lastVerifiedHash s) (restricted s) q p (auditBuffer s) (flushing s)
    (currentSessionHashes s) (merkleLeaves s) (committing s) (isCommittingMerkle s) (checking s) (syncing s) (repo s).
Definition with_buffer (b : list AuditEvent) (f : option (list AuditEvent)) (s : Service) : Service :=
  mkService (lastHash s) (lastVerifiedHash s) (restricted s) (logQueue s) (progress s) b f
    (currentSessionHashes s) (merkleLeaves s) (committing s) (isCommittingMerkle s) (checking s) (syncing s) (repo s).
Definition with_hashes (hs leaves : list jsstr) (c : list (list jsstr)) (b : bool) (s : Service) : Service :=
  mkService (lastHash s) (lastVerifiedHash s) (restricted s) (logQueue s) (progress s) (auditBuffer s) (flushing s)
    hs leaves c b (checking s) (syncing s) (repo s).
Definition with_checking (n : nat) (s : Service) : Service :=
  mkService (lastHash s) (lastVerifiedHash s) (restricted s) (logQueue s) (progress s) (auditBuffer s) (flushing s)
    (currentSessionHashes s) (merkleLeaves s) (committing s) (isCommittingMerkle s) n (syncing s) (repo s).
Definition with_syncing (l : list Sync) (s : Service) : Service :=
  mkService (lastHash s) (lastVerifiedHash s) (restricted s) (logQueue s) (progress s) (auditBuffer s) (flushing s)
    (currentSessionHashes s) (merkleLeaves s) (committing s) (isCommittingMerkle s) (checking s) l (repo s).
Definition with_repo (r : repository) (s : Service) : Service :=
  mkService (lastHash s) (lastVerifiedHash s) (restricted s) (logQueue s) (progress s) (auditBuffer s) (flushing s)
    (currentSessionHashes s) (merkleLeaves s) (committing s) (isCommittingMerkle s) (checking s) (syncing s) r.

Definition new (r : repository) : Service :=
  mkService GENESIS GENESIS false [] Idle [] None [] [] [] false 0 [] r.

(** What a step does that the rest of the system, or the store, can see. *)
Inductive effect :=
| Accepted (q : Queued)          (* queued by logEvent *)
| Chained (q : Queued) (e : AuditEvent)  (* given its place in the chain *)
| Saved (es : list AuditEvent)   (* a flush that was written *)
| Committed (hs : list jsstr) (q : Queued)    (* these hashes, by the logged event [q] *)
| Dropped (hs : list jsstr) (depth : nat)     (* taken out for a commitment that [logEvent] refused *)
| Synced (e : AuditEvent).       (* taken over from a peer *)

(** ** Logging *)

Definition MAX_QUEUE_DEPTH : nat := 5000.

Definition allowed_restricted (t : jsstr) : bool :=
  bool_decide (t ∈ [js "CRITICAL"; js "THREAT"; js "SUCCESS"; js "MERKLE_COMMIT"]).

Definition MERKLE_COMMIT : jsstr := js "MERKLE_COMMIT".

(** Takes the first event of a batch: its id, timestamp and previous hash. *)
Definition takeFirst (newId now : jsstr) (current : list Queued) (s : Service) : Service :=
  match current with
  | [] => with_queue (logQueue s) Idle s
  | q :: _ =>
      let ts := match q_timestamp q with Some (c :: t) => c :: t | _ => now end in
      with_queue (logQueue s) (Hashing current q newId ts (lastHash s)) s
  end.

(** The head of the [while] loop of [processQueue]. *)
Definition nextBatch (newId now : jsstr) (s : Service) : Service :=
  let current := logQueue s in
  takeFirst newId now current (with_queue [] (progress s) s).

(** [logEvent]: the event is dropped or queued, and processing starts unless
    it is running. *)
Definition logEvent (s : Service) (q : Queued) (newId now : jsstr) : Service * list effect :=
  if q_fromAudit q then (s, [])
  else if restricted s && negb (allowed_restricted (q_type q)) then (s, [])
  else if (MAX_QUEUE_DEPTH <? length (logQueue s))%nat then (s, [])
  else
    let s := with_queue (logQueue s ++ [q]) (progress s) s in
    (match progress s with Idle => nextBatch newId now s | _ => s end, [Accepted q]).

(** The event made of a queued one. *)
Definition makeEvent (q : Queued) (newId ts prev h : jsstr) (sig : option jsstr) : AuditEvent :=
  mkEvent newId ts (q_type q) (q_severity q) (q_caller q) (q_message q) (q_actor q) (q_data q) h prev sig
    (q_correlationId q).

(** The TPM's signature: [signed] is whether this call succeeds; without a
    TPM there is none, no value is an exception. *)
Definition hwSign (signed : bool) (h : jsstr) : option (option jsstr) :=
  match tpm with
  | None => Some None
  | Some t => match tpm_sign t h with
              | Some sig => if signed then Some (Some sig) else None
              | None => None
              end
  end.

(** The hash and signature of the event in progress arrive: [signed] is
    whether the TPM signs.  On an exception the batch goes back to the head
    of the queue and processing stops. *)
Definition finishItem (s : Service) (signed : bool) : Service * list effect :=
  match progress s with
  | Hashing current q newId ts prev =>
      let failed := (with_queue (current ++ logQueue s) Idle s, []) in
      match computeHash sha256 (hashInput (makeEvent q newId ts prev [] None)) with
      | Rejected _ => failed
      | Resolved h =>
          match hwSign signed h with
          | None => failed
          | Some sig =>
              let e := makeEvent q newId ts prev h sig in
              let s := with_head h (with_buffer (auditBuffer s ++ [e]) (flushing s) s) in
              let s := if bool_decide (q_type q = MERKLE_COMMIT) then s
                       else with_hashes (currentSessionHashes s ++ [h]) (merkleLeaves s ++ [h])
                              (committing s) (isCommittingMerkle s) s in
              (with_queue (logQueue s) (Between (tail current)) s, [Chained q e])
          end
      end
  | _ => (s, [])
  end.

(** The loop goes on with the next event, the next batch, or ends. *)
Definition nextItem (s : Service) (newId now : jsstr) : Service :=
  match progress s with
  | Between [] => nextBatch newId now s
  | Between rest => takeFirst newId now rest s
  | _ => s
  end.

(** ** Flushing *)

Definition flushStart (s : Service) : Service :=
  match flushing s, auditBuffer s with
  | Some _, _ | None, [] => s
  | None, toFlush => with_buffer [] (Some toFlush) s
  end.

Definition flushEnd (s : Service) : Service * list effect :=
  match flushing s with
  | None => (s, [])
  | Some toFlush =>
      match saveMany (repo s) toFlush with
      | (r', Resolved _) => (with_buffer (auditBuffer s) None (with_repo r' s), [Saved toFlush])
      | (r', Rejected _) => (with_buffer (toFlush ++ auditBuffer s) None (with_repo r' s), [])
      end
  end.

(** ** Merkle commitments *)

Definition commitGuard (s : Service) : bool :=
  negb (bool_decide (currentSessionHashes s = [])) && negb (isCommittingMerkle s).

(** The hashes are taken out of the session. *)
Definition commitSwap (s : Service) : Service :=
  with_hashes [] (merkleLeaves s) (committing s ++ [currentSessionHashes s]) true s.

(** [commitMerkleRoot] up to its first await: with a TPM the platform's
    integrity is asked for before [isCommittingMerkle] is set. *)
Definition commitStart (s : Service) : Service :=
  if commitGuard s then
    match tpm with Some _ => with_checking (S (checking s)) s | None => commitSwap s end
  else s.

(** The TPM's verdict for one of the calls that wait for it. *)
Definition commitVerdict (s : Service) (healthy : bool) : Service :=
  match checking s with
  | O => s
  | S n => let s := with_checking n s in if healthy then commitSwap s else s
  end.

Fixpoint remove_nth {A} (i : nat) (l : list A) : list A :=
  match l, i with
  | [], _ => []
  | _ :: l, O => l
  | x :: l, S i => x :: remove_nth i l
  end.

(** Hashes are hexadecimal, so their units are those of a text. *)
Definition hex_text (h : jsstr) : string :=
  fold_right (fun c s => String (Ascii.ascii_of_N (Z.to_N c)) s) EmptyString h.

(** [new MerkleTree(hashes).getRoot()] *)
Definition merkleRoot (hs : list jsstr) : jsstr := js (Merkle.getRoot (Merkle.new (map hex_text hs))).

(** The event that [commitMerkleRoot] logs; [sanitizeDataForAudit] leaves its
    flat data as it is. *)
Definition commitEvent (hs : list jsstr) (hwSignature : option jsstr) : Queued :=
  let root := merkleRoot hs in
  mkQueued MERKLE_COMMIT (Some (js "info")) (Some (js "AUDIT:MERKLE"))
    (js "Merkle Root committed for " ++ decimal (Z.of_nat (length hs)) ++ js " events: " ++ take 12 root) None
    (Some (JObj [(js "root", JStr root); (js "eventCount", JNum (num_of_nat (length hs)));
                 (js "hwSignature", match hwSignature with Some sig => JStr sig | None => JUndefined end)]))
    None None false.

(** The root is computed and signed and its event goes to [logEvent], whose
    refusal is not noticed; an exception puts the hashes back. *)
Definition commitEnd (s : Service) (i : nat) (signed : bool) (newId now : jsstr) : Service * list effect :=
  match committing s !! i with
  | None => (s, [])
  | Some hs =>
      let rest := remove_nth i (committing s) in
      match hwSign signed (merkleRoot hs) with
      | Some sig =>
          let q := commitEvent hs sig in
          let '(s', fx) := logEvent s q newId now in
          (with_hashes (currentSessionHashes s') (merkleLeaves s') rest false s',
           (match fx with [] => Dropped hs (length (logQueue s)) | _ => Committed hs q end) :: fx)
      | None => (with_hashes (hs ++ currentSessionHashes s) (merkleLeaves s) rest false s, [])
      end
  end.

(** ** Synchronisation with peers *)

(** The loop goes to the next event that is not the chain head; no value ends
    the call. *)
Fixpoint syncNext (head : jsstr) (events : list AuditEvent) : option Sync :=
  match events with
  | [] => None
  | event :: events =>
      if bool_decide (hash event = head) then syncNext head events
      else Some (mkSync event events AwaitHash)
  end.

(** From the computed hash to the next await; an exception ends the call. *)
Definition syncHashed (head : jsstr) (y : Sync) : option Sync :=
  let event := sy_event y in
  match expectedHash sha256 event with
  | Rejected _ => None
  | Resolved expected =>
      if negb (bool_decide (hash event = expected)) then syncNext head (sy_rest y)
      else if bool_decide (prevHash event = TRUNCATED) && negb (bool_decide (type_ event = CHECKPOINT))
      then syncNext head (sy_rest y)
      else if bool_decide (prevHash event = TRUNCATED) then
        match tpm, hwSignature event with
        | Some _, Some (_ :: _) => Some (mkSync event (sy_rest y) AwaitVerify)
        | _, _ => syncNext head (sy_rest y)
        end
      else if bool_decide (prevHash event = head) then Some (mkSync event (sy_rest y) AwaitSave)
      else syncNext head (sy_rest y)
  end.

(** From the TPM's answer to the next await. *)
Definition syncVerified (head : jsstr) (y : Sync) : option Sync :=
  match tpm, hwSignature (sy_event y) with
  | Some t, Some sig =>
      if tpm_verify t (hash (sy_event y)) sig then Some (mkSync (sy_event y) (sy_rest y) AwaitSave)
      else syncNext head (sy_rest y)
  | _, _ => syncNext head (sy_rest y)
  end.

(** The call at position [i] goes on as [o]. *)
Definition setSync (i : nat) (o : option Sync) (l : list Sync) : list Sync :=
  take i l ++ match o with Some y => [y] | None => [] end ++ drop (S i) l.

Definition syncStart (s : Service) (events : list AuditEvent) : Service :=
  match syncNext (lastHash s) events with
  | Some y => with_syncing (syncing s ++ [y]) s
  | None => s
  end.

(** The await of one of the running calls is over. *)
Definition syncStep (s : Service) (i : nat) : Service * list effect :=
  match syncing s !! i with
  | None => (s, [])
  | Some y =>
      match sy_stage y with
      | AwaitHash => (with_syncing (setSync i (syncHashed (lastHash s) y) (syncing s)) s, [])
      | AwaitVerify => (with_syncing (setSync i (syncVerified (lastHash s) y) (syncing s)) s, [])
      | AwaitSave =>
          match save (repo s) (sy_event y) with
          | (r', Rejected _) => (with_syncing (setSync i None (syncing s)) (with_repo r' s), [])
          | (r', Resolved _) =>
              let h := hash (sy_event y) in
              (with_syncing (setSync i (syncNext h (sy_rest y)) (syncing s)) (with_head h (with_repo r' s)),
               [Synced (sy_event y)])
          end
      end
  end.

(** ** Verification *)

Definition verifyChain (r : repository) (limit : option nat) : settled Verification CanonError :=
  verifyEvents sha256 tpm
    (match limit with
     | Some n => Timeline.getStream r n true
     | None => rev (Timeline.values r)
     end).

Inductive LedgerError := Tampering (at_ : option (jsstr * BreakType)) | RestoreFailed.

Definition verifyChainIncremental (s : Service) : Service * settled (Result unit LedgerError) CanonError :=
  if bool_decide (lastHash s = lastVerifiedHash s) then (s, Resolved (ok tt))
  else
    match verifyChain (repo s) (Some 100%nat) with
    | Rejected e => (s, Rejected e)
    | Resolved v =>
        if valid v then (with_verified (lastHash s) s, Resolved (ok tt))
        else (s, Resolved (err (Tampering (brokenAt v))))
    end.

(** A checkpoint, with the hash of [checkpointInput] and the TPM's
    signature; no value is an exception. *)
Definition makeCheckpoint (newId ts callerText text : jsstr) (d : jval) : option AuditEvent :=
  let e h sig := mkEvent newId ts CHECKPOINT (Some (js "info")) (Some callerText) text None (Some d) h TRUNCATED sig None in
  match computeHash sha256 (checkpointInput (e [] None)) with
  | Rejected _ => None
  | Resolved h =>
      match tpm with
      | None => Some (e h None)
      | Some t => match tpm_sign t h with Some sig => Some (e h (Some sig)) | None => None end
      end
  end.

(** [healDevChainBoundary] *)
Definition healDevChainBoundary (s : Service) (newId ts : jsstr) : Service * bool :=
  match makeCheckpoint newId ts (js "AUDIT:DEV_HEAL") (js "Dev Mode: Audit chain reset checkpoint inserted.")
          (JObj [(js "reason", JStr (js "DEV_MODE_AUTO_HEAL"))]) with
  | None => (s, false)
  | Some cp =>
      match save (repo s) cp with
      | (r', Resolved _) => (with_verified (hash cp) (with_head (hash cp) (with_repo r' s)), true)
      | (r', Rejected _) => (with_repo r' s, false)
      end
  end.

(** [restoreChainHead], on boot; [heal] is whether the configuration allows
    the development healing. *)
Definition restoreChainHead (s : Service) (heal : bool) (newId ts : jsstr) : Service * Result unit LedgerError :=
  match Timeline.getLatest (repo s) 1 with
  | latest :: _ =>
      if bool_decide (hash latest = []) then (s, ok tt) else
      let s := with_head (hash latest) s in
      match verifyChain (repo s) (Some 50%nat) with
      | Rejected _ => (s, err RestoreFailed)
      | Resolved v =>
          if valid v then (with_verified (lastHash s) s, ok tt)
          else if heal then
            match healDevChainBoundary s newId ts with
            | (s', true) => (s', ok tt)
            | (s', false) => (s', err RestoreFailed)
            end
          else (with_restricted true s, err (Tampering (brokenAt v)))
      end
  | [] => (s, ok tt)
  end.

(** ** Retention *)

(** The last of the leading events older than the cutoff. *)
Fixpoint boundary (cutoff : Z) (found : option AuditEvent) (events : list AuditEvent) : option AuditEvent :=
  match events with
  | [] => found
  | e :: events => if event_ms e <? cutoff then boundary cutoff (Some e) events else found
  end.

(** [purgeExpired]; [message] is the text made of the boundary's timestamp.
    Every exception is caught. *)
Definition purgeExpired (s : Service) (cutoff : Z) (newId ts message : jsstr) : Service :=
  match boundary cutoff None (Timeline.getStream (repo s) 10000 false) with
  | None => s
  | Some b =>
      match makeCheckpoint newId ts (js "AUDIT:RETENTION") message
              (JObj [(js "purgedEventsCutoff", JStr (timestamp b)); (js "boundaryHash", JStr (hash b))]) with
      | None => s
      | Some cp =>
          match save (repo s) cp with
          | (r', Rejected _) => with_repo r' s
          | (r', Resolved _) => with_repo (fst (Timeline.deleteBefore r' cutoff)) s
          end
      end
  end.

(** [getEventsInRange]: up to [limit] events after the one with [startHash],
    newest first. *)
Fixpoint rangeLoop (startHash : jsstr) (limit : nat) (found : bool) (out : list AuditEvent) (events : list AuditEvent)
  : list AuditEvent :=
  match events with
  | [] => out
  | e :: events =>
      if found then
        let out := out ++ [e] in
        if (limit <=? length out)%nat then out
        else rangeLoop startHash limit true out events
      else rangeLoop startHash limit (bool_decide (hash e = startHash)) out events
  end.

Definition getEventsInRange (s : Service) (startHash : jsstr) (limit : nat) : list AuditEvent :=
  rangeLoop startHash limit false [] (Timeline.getStream (repo s) 1000 true).

(** ** Archiving *)

(** [processArchiveBatch]: appends until one append fails, whose exception
    ends the archiving; [writes] is how the appends go. *)
Fixpoint archiveBatch (batch : list AuditEvent) (writes : list bool) : list AuditEvent * list bool * bool :=
  match batch with
  | [] => ([], writes, true)
  | e :: batch =>
      match writes with
      | true :: writes => let '(done_, w, okay) := archiveBatch batch writes in (e :: done_, w, okay)
      | _ => ([], tail writes, false)
      end
  end.

(** The events older than the threshold, in batches of a hundred. *)
Fixpoint archiveLoop (threshold : Z) (batch events : list AuditEvent) (writes : list bool) : list AuditEvent :=
  match events with
  | [] => let '(done_, _, _) := archiveBatch batch writes in done_
  | e :: events =>
      if threshold <=? event_ms e then let '(done_, _, _) := archiveBatch batch writes in done_
      else
        let batch := batch ++ [e] in
        if (100 <=? length batch)%nat then
          let '(done_, writes, okay) := archiveBatch batch writes in
          if okay then done_ ++ archiveLoop threshold [] events writes else done_
        else archiveLoop threshold batch events writes
  end.

(** [archiveToColdStorage]: what is appended to the WORM store. *)
Definition archiveToColdStorage (s : Service) (now : Z) (writes : list bool) : list AuditEvent :=
  archiveLoop (now - 7 * 24 * 60 * 60 * 1000) [] (Timeline.getStream (repo s) 10000 false) writes.

(** ** Steps *)

Inductive input :=
| ILog (q : Queued) (newId now : jsstr)
| IHashed (signed : bool)
| INext (newId now : jsstr)
| IFlushStart
| IFlushEnd
| ICommit
| IVerdict (healthy : bool)
| ICommitEnd (i : nat) (signed : bool) (newId now : jsstr)
| ISync (events : list AuditEvent)
| ISyncStep (i : nat)
| IVerify
| IPurge (cutoff : Z) (newId ts message : jsstr).

Definition step (s : Service) (i : input) : Service * list effect :=
  match i with
  | ILog q newId now => logEvent s q newId now
  | IHashed signed => finishItem s signed
  | INext newId now => (nextItem s newId now, [])
  | IFlushStart => (flushStart s, [])
  | IFlushEnd => flushEnd s
  | ICommit => (commitStart s, [])
  | IVerdict healthy => (commitVerdict s healthy, [])
  | ICommitEnd i signed newId now => commitEnd s i signed newId now
  | ISync events => (syncStart s events, [])
  | ISyncStep i => syncStep s i
  | IVerify => (fst (verifyChainIncremental s), [])
  | IPurge cutoff newId ts message => (purgeExpired s cutoff newId ts message, [])
  end.

Fixpoint run (s : Service) (ins : list input) : Service * list effect :=
  match ins with
  | [] => (s, [])
  | i :: ins => let '(s', fx) := step s i in let '(s'', fx') := run s' ins in (s'', fx ++ fx')
  end.
End service.
End AuditService.
