(* ===== verification/AuditTheory.v ===== *)
(** * What the audit service guarantees

    Theorems about the interleaved steps of [AuditService]: no accepted event
    is lost, duplicated or reordered on its way from the queue to the store;
    every chained hash reaches exactly one Merkle commitment; the chain is
    linked as long as no synchronisation slips in between an event's
    [prevHash] and its hash; what a peer can add to the chain; and how the
    retention and the ordering of the store interact with the verifier. *)

From S2P Require Import Prelude Result Digest JsString Canonical Kv Timeline AuditChain AuditService Merkle.

#[local] Set Default Proof Using "Type".

Module AuditTheory.
Import JsString Canonical Audit AuditService.
Section theory.
Context `{JsNumber}.
Context `{TimelineKv AuditEvent}.
Context (sha256 : jsstr -> jsstr) (tpm : option Tpm) {merkle_sha : Sha256} (date_ms : jsstr -> Z).

Implicit Types (s : Service) (fx : list effect).
Notation step := (step sha256 tpm date_ms).
Notation run := (run sha256 tpm date_ms).

(** ** What the effects of a run amount to *)

Definition accepted fx : list Queued := omap (fun f => match f with Accepted q => Some q | _ => None end) fx.
Definition chained fx : list (Queued * AuditEvent) :=
  omap (fun f => match f with Chained q e => Some (q, e) | _ => None end) fx.
Definition saved fx : list (list AuditEvent) := omap (fun f => match f with Saved es => Some es | _ => None end) fx.
(** The hashes of each commitment and the event that carries it. *)
Definition commitments fx : list (list jsstr * Queued) :=
  omap (fun f => match f with Committed hs q => Some (hs, q) | _ => None end) fx.
(** The hashes of each commitment whose event was refused, and the depth of
    the queue then. *)
Definition dropped fx : list (list jsstr * nat) :=
  omap (fun f => match f with Dropped hs n => Some (hs, n) | _ => None end) fx.
(** The events that extended the chain, local or from a peer, in order. *)
Definition ledger fx : list AuditEvent :=
  omap (fun f => match f with Chained _ e | Synced e => Some e | _ => None end) fx.

(** The queued events that processing has taken off the queue. *)
Definition in_hand (p : Progress) : list Queued :=
  match p with Idle => [] | Hashing current _ _ _ _ => current | Between rest => rest end.

Definition waiting s : list Queued := in_hand (progress s) ++ logQueue s.
Definition unsaved s : list AuditEvent := default [] (flushing s) ++ auditBuffer s.
Definition uncommitted s : list jsstr := concat (committing s) ++ currentSessionHashes s.

(** The hashes that enter the Merkle tree. *)
Definition merkle_hashes (l : list (Queued * AuditEvent)) : list jsstr :=
  omap (fun p => if bool_decide (q_type p.1 = MERKLE_COMMIT) then None else Some (hash p.2)) l.

(** Processing works on the first of the events in hand. *)
Definition progress_ok s : Prop :=
  match progress s with Hashing current q _ _ _ => head current = Some q | _ => True end.

(** ** Frames *)

Lemma takeFirst_frame newId now current s : exists p, in_hand p = current /\
  takeFirst newId now current s = with_queue (logQueue s) p s /\
  match p with Hashing c q _ _ prev => head c = Some q /\ prev = lastHash s | _ => True end.
Proof. destruct current as [|q current]; simpl; [by exists Idle|]. by eexists (Hashing _ _ _ _ _). Qed.

Lemma nextBatch_frame newId now s : exists p, in_hand p = logQueue s /\
  nextBatch newId now s = with_queue [] p s /\
  match p with Hashing c q _ _ prev => head c = Some q /\ prev = lastHash s | _ => True end.
Proof.
  unfold nextBatch. destruct (takeFirst_frame newId now (logQueue s) (with_queue [] (progress s) s)) as (p & Hp & -> & Ho).
  by exists p.
Qed.

(** Logging only adds to what waits, at its end. *)
Lemma logEvent_frame s q newId now s' fx : logEvent s q newId now = (s', fx) ->
  (s' = s /\ fx = []) \/
  fx = [Accepted q] /\ exists qs p, s' = with_queue qs p s /\ in_hand p ++ qs = waiting s ++ [q] /\
    (p = progress s \/
     match p with Hashing c q _ _ prev => head c = Some q /\ prev = lastHash s | _ => True end).
Proof.
  unfold logEvent. intros E. destruct (q_fromAudit q); [left; by simplify_eq|].
  destruct (_ && _); [left; by simplify_eq|]. destruct (_ <? _)%nat; [left; by simplify_eq|]. right.
  destruct (progress s) eqn:Ep; simpl in E; rewrite ?Ep in E; simplify_eq/=; (split; [done|]).
  - destruct (nextBatch_frame newId now (with_queue (logQueue s ++ [q]) Idle s)) as (p & Hp & -> & Ho).
    exists [], p. split; [done|]. split; [|by right]. unfold waiting. rewrite Ep, app_nil_r, Hp. done.
  - eexists _, _. split; [done|]. split; [|by left]. unfold waiting. rewrite Ep. simpl. by rewrite <-app_assoc.
  - eexists _, _. split; [done|]. split; [|by left]. unfold waiting. rewrite Ep. simpl. by rewrite <-app_assoc.
Qed.

Lemma syncStep_frame s i s' fx : syncStep sha256 tpm date_ms s i = (s', fx) ->
  exists l h r, s' = with_syncing l (with_head h (with_repo r s)) /\ exists es, fx = map Synced es.
Proof.
  unfold syncStep. intros E.
  assert (forall l, with_syncing l s = with_syncing l (with_head (lastHash s) (with_repo (repo s) s))) as Hs
    by (by destruct s).
  destruct (syncing s !! i) as [y|]; [destruct (sy_stage y)|]; simplify_eq.
  - rewrite Hs. eexists _, _, _. split; [done|by exists []].
  - rewrite Hs. eexists _, _, _. split; [done|by exists []].
  - destruct (save _ _ _) as [r' [u|x]]; simplify_eq; [|exists (setSync i None (syncing s)), (lastHash s), r'].
    + eexists _, _, _. split; [done|by exists [sy_event y]].
    + split; [by destruct s|by exists []].
  - exists (syncing s'), (lastHash s'), (repo s'). split; [by destruct s'|by exists []].
Qed.

Lemma syncStart_frame s events : exists l, syncStart s events = with_syncing l s.
Proof.
  unfold syncStart. destruct (syncNext _ _); [by eexists|]. exists (syncing s). by destruct s.
Qed.

Lemma verify_frame s : exists h, fst (verifyChainIncremental sha256 tpm s) = with_verified h s.
Proof.
  unfold verifyChainIncremental. assert (s = with_verified (lastVerifiedHash s) s) as Hs by (by destruct s).
  repeat case_match; eauto.
Qed.

Lemma purge_frame s cutoff newId ts text : exists r,
  purgeExpired sha256 tpm date_ms s cutoff newId ts text = with_repo r s.
Proof.
  unfold purgeExpired. assert (s = with_repo (repo s) s) as Hs by (by destruct s).
  repeat case_match; eauto.
Qed.

Lemma commitStart_frame s : exists c n b, commitStart tpm s = with_checking n (with_hashes
   (if c : bool then [] else currentSessionHashes s) (merkleLeaves s)
   (committing s ++ if c then [currentSessionHashes s] else []) b s).
Proof.
  unfold commitStart, commitSwap. destruct (commitGuard s); [destruct tpm|].
  - exists false, (S (checking s)), (isCommittingMerkle s). rewrite app_nil_r. by destruct s.
  - exists true, (checking s), true. by destruct s.
  - exists false, (checking s), (isCommittingMerkle s). rewrite app_nil_r. by destruct s.
Qed.

Lemma commitVerdict_frame s healthy : exists c n b, commitVerdict s healthy = with_checking n (with_hashes
   (if c : bool then [] else currentSessionHashes s) (merkleLeaves s)
   (committing s ++ if c then [currentSessionHashes s] else []) b s).
Proof.
  unfold commitVerdict, commitSwap. destruct (checking s) as [|n] eqn:Ec; [|destruct healthy].
  - exists false, 0%nat, (isCommittingMerkle s). rewrite app_nil_r. destruct s. simpl in *. by subst.
  - exists true, n, true. by destruct s.
  - exists false, n, (isCommittingMerkle s). rewrite app_nil_r. by destruct s.
Qed.

(** ** Conservation *)

(** The cases of a step, each with its frame. *)
Ltac step_cases E :=
  match type of E with AuditService.step _ _ _ ?s ?i = _ =>
    destruct i; cbn [AuditService.step] in E;
    [ destruct (logEvent_frame _ _ _ _ _ _ E) as [[-> ->]|(-> & qs & p & -> & Hqs & Hp)]
    | | | | | | |
    | match type of E with (syncStart _ ?es, _) = _ => destruct (syncStart_frame s es) as [l Hf] end
    | destruct (syncStep_frame _ _ _ _ E) as (l & hd & r & -> & es & ->)
    | destruct (verify_frame s) as [hd Hf]
    | match type of E with (purgeExpired _ _ _ _ ?c ?n ?t ?m, _) = _ => destruct (purge_frame s c n t m) as [r Hf] end ]
  end.

Lemma omap_synced {A} (f : effect -> option A) es : (forall e, f (Synced e) = None) -> omap f (map Synced es) = [].
Proof. intros Hf. induction es as [|e es IH]; simpl; [done|]. by rewrite Hf. Qed.

Lemma commitEnd_cases s i signed newId now s' fx : commitEnd tpm s i signed newId now = (s', fx) ->
  (s' = s /\ fx = []) \/
  exists hs, committing s !! i = Some hs /\
    ((fx = [] /\ s' = with_hashes (hs ++ currentSessionHashes s) (merkleLeaves s) (remove_nth i (committing s)) false s) \/
     exists sig s1 fx1, logEvent s (commitEvent hs sig) newId now = (s1, fx1) /\
       fx = (match fx1 with [] => Dropped hs (length (logQueue s)) | _ => Committed hs (commitEvent hs sig) end) :: fx1 /\
       s' = with_hashes (currentSessionHashes s1) (merkleLeaves s1) (remove_nth i (committing s)) false s1).
Proof.
  unfold commitEnd. intros E. destruct (committing s !! i) as [hs|] eqn:Ei; [|left; by simplify_eq]. right. exists hs.
  split; [done|]. destruct (hwSign _ _ _) as [sig|]; [|left; by simplify_eq]. right.
  destruct (logEvent _ _ _ _) as [s1 fx1] eqn:El. simplify_eq. eauto 10.
Qed.

Lemma finishItem_cases s signed s' fx : finishItem sha256 tpm s signed = (s', fx) -> progress_ok s ->
  (s' = s /\ fx = []) \/
  exists current q newId ts prev, progress s = Hashing (q :: current) q newId ts prev /\
    ((fx = [] /\ s' = with_queue (q :: current ++ logQueue s) Idle s) \/
     exists h sig, let e := makeEvent q newId ts prev h sig in
       expectedHash sha256 e = Resolved h /\ fx = [Chained q e] /\
       s' = with_queue (logQueue s) (Between current)
             (let s := with_head h (with_buffer (auditBuffer s ++ [e]) (flushing s) s) in
              if bool_decide (q_type q = MERKLE_COMMIT) then s
              else with_hashes (currentSessionHashes s ++ [h]) (merkleLeaves s ++ [h])
                     (committing s) (isCommittingMerkle s) s)).
Proof.
  unfold finishItem, progress_ok. intros E Hok. destruct (progress s) as [|current q newId ts prev|] eqn:Ep;
    [naive_solver| |naive_solver]. destruct current as [|q' current]; [done|]. simplify_eq/=. right.
  exists current, q, newId, ts, prev. split; [done|].
  destruct (computeHash _ _) as [h|] eqn:Eh; [|left; by simplify_eq].
  destruct (hwSign _ _ _) as [sig|]; [|left; by simplify_eq].
  right. exists h, sig. simpl. split; [done|]. simplify_eq. split; [done|]. by destruct (bool_decide _).
Qed.

Lemma step_progress s i s' fx : step s i = (s', fx) -> progress_ok s -> progress_ok s'.
Proof.
  intros E Hok. step_cases E; try done.
  - destruct Hp as [->|Hp]; [done|]. unfold progress_ok. simpl. by destruct p; [|naive_solver|].
  - destruct (finishItem_cases _ _ _ _ E Hok) as [[-> ->]|(? & ? & ? & ? & ? & Ep & [(-> & ->)|(? & ? & _ & -> & ->)])];
      [done| |]; done.
  - simplify_eq. unfold nextItem. destruct (progress s) as [| |[|q rest]] eqn:Ep; [done..| |done].
    destruct (nextBatch_frame newId now s) as (p & _ & -> & Hp). unfold progress_ok. simpl. by destruct p; [|naive_solver|].
  - simplify_eq. unfold flushStart. by destruct (flushing s), (auditBuffer s).
  - unfold flushEnd in E. repeat case_match; by simplify_eq.
  - simplify_eq. by destruct (commitStart_frame s) as (? & ? & ? & ->).
  - simplify_eq. by destruct (commitVerdict_frame s healthy) as (? & ? & ? & ->).
  - destruct (commitEnd_cases _ _ _ _ _ _ _ E) as [[-> ->]|(? & _ & [(-> & ->)|(? & ? & ? & El & -> & ->)])]; [done..|].
    destruct (logEvent_frame _ _ _ _ _ _ El) as [[-> ->]|(-> & ? & p & -> & _ & [->|Hp])]; [done..|].
    unfold progress_ok. simpl. by destruct p; [|naive_solver|].
  - simplify_eq. by rewrite Hf.
  - simplify_eq. by rewrite Hf.
  - simplify_eq. by rewrite Hf.
Qed.

(** What goes in comes out or is still there. *)
Definition conserves s fx s' : Prop :=
  waiting s ++ accepted fx = (chained fx).*1 ++ waiting s' /\
  unsaved s ++ (chained fx).*2 = concat (saved fx) ++ unsaved s' /\
  merkle_hashes (chained fx) ++ uncommitted s ≡ₚ concat (commitments fx).*1 ++ concat (dropped fx).*1 ++ uncommitted s'.

(** A step without effects that leaves the three stores alone. *)
Lemma conserves_same s s' : waiting s' = waiting s -> unsaved s' = unsaved s -> uncommitted s' ≡ₚ uncommitted s ->
  conserves s [] s'.
Proof. intros Hw Hu Hc. unfold conserves. simpl. rewrite !app_nil_r, Hw, Hu, Hc. done. Qed.

Lemma conserves_accept s q qs p : in_hand p ++ qs = waiting s ++ [q] -> conserves s [Accepted q] (with_queue qs p s).
Proof. intros Hq. unfold conserves. simpl. rewrite app_nil_r. split_and!; [|done|done]. by rewrite <-Hq. Qed.

Lemma remove_nth_perm {A} (l : list (list A)) i x : l !! i = Some x -> concat l ≡ₚ x ++ concat (remove_nth i l).
Proof.
  revert i. induction l as [|y l IH]; intros [|i] E; simplify_eq/=; [done|]. rewrite (IH i E).
  by rewrite !app_assoc, (Permutation_app_comm x y).
Qed.

Lemma conserves_finish s signed s' fx : finishItem sha256 tpm s signed = (s', fx) -> progress_ok s -> conserves s fx s'.
Proof.
  intros E Hok.
  destruct (finishItem_cases _ _ _ _ E Hok) as [[-> ->]|(cur & q & i & t & v & Ep & [(-> & ->)|(h & sig & _ & -> & ->)])].
  - by apply conserves_same.
  - apply conserves_same; [|done|done]. unfold waiting. by rewrite Ep.
  - unfold conserves, waiting, unsaved, uncommitted, merkle_hashes. simpl. rewrite Ep, !app_nil_r. simpl.
    case_bool_decide; simpl; rewrite <-?app_assoc; split_and!; try done; solve_Permutation.
Qed.

Lemma conserves_commitEnd s i signed newId now s' fx : commitEnd tpm s i signed newId now = (s', fx) -> conserves s fx s'.
Proof.
  intros E. destruct (commitEnd_cases _ _ _ _ _ _ _ E) as [[-> ->]|(hs & Hi & Hc)]; [by apply conserves_same|].
  pose proof (remove_nth_perm _ _ _ Hi) as Hperm. destruct Hc as [(-> & ->)|(sig & s1 & fx1 & El & -> & ->)].
  - apply conserves_same; [done|done|]. unfold uncommitted. simpl. rewrite Hperm. solve_Permutation.
  - assert (uncommitted s ≡ₚ hs ++ concat (remove_nth i (committing s)) ++ currentSessionHashes s) as Hu.
    { unfold uncommitted. by rewrite Hperm, <-app_assoc. }
    destruct (logEvent_frame _ _ _ _ _ _ El) as [[-> ->]|(-> & qs & p & -> & Hqs & _)];
      unfold conserves; simpl; rewrite !app_nil_r; (split_and!; [|done|]).
    + done.
    + by rewrite Hu.
    + by rewrite <-Hqs.
    + by rewrite Hu.
Qed.

Lemma conserves_flush s s' fx : flushEnd date_ms s = (s', fx) -> conserves s fx s'.
Proof.
  unfold flushEnd. intros E. destruct (flushing s) as [es|] eqn:Ef; [|simplify_eq; by apply conserves_same].
  destruct (saveMany _ _ _) as [r' [u|x]]; simplify_eq.
  - unfold conserves, unsaved. simpl. rewrite Ef, !app_nil_r. done.
  - apply conserves_same; [done| |done]. unfold unsaved. by rewrite Ef.
Qed.

Lemma conserves_swap s (c : bool) n b : conserves s [] (with_checking n (with_hashes
   (if c then [] else currentSessionHashes s) (merkleLeaves s)
   (committing s ++ if c then [currentSessionHashes s] else []) b s)).
Proof.
  apply conserves_same; [done|done|]. unfold uncommitted. destruct c; simpl.
  - rewrite concat_app. simpl. by rewrite !app_nil_r.
  - by rewrite app_nil_r.
Qed.

Lemma step_conserves s i s' fx : step s i = (s', fx) -> progress_ok s -> conserves s fx s'.
Proof.
  intros E Hok. step_cases E.
  - by apply conserves_same.
  - by apply conserves_accept.
  - by eapply conserves_finish.
  - simplify_eq. unfold nextItem. destruct (progress s) as [| |[|q rest]] eqn:Ep; try (by apply conserves_same).
    + destruct (nextBatch_frame newId now s) as (p & Hp & -> & _). apply conserves_same; [|done|done].
      unfold waiting. simpl. by rewrite Hp, Ep, app_nil_r.
    + apply conserves_same; [|done|done]. unfold waiting. simpl. by rewrite Ep.
  - simplify_eq. apply conserves_same; unfold flushStart; [by repeat case_match| |by repeat case_match].
    unfold unsaved. destruct (flushing s) eqn:Ef, (auditBuffer s) eqn:Eb; simpl; rewrite ?Ef, ?Eb, ?app_nil_r; done.
  - by eapply conserves_flush.
  - simplify_eq. destruct (commitStart_frame s) as (c & n & b & ->). apply conserves_swap.
  - simplify_eq. destruct (commitVerdict_frame s healthy) as (c & n & b & ->). apply conserves_swap.
  - by eapply conserves_commitEnd.
  - simplify_eq. rewrite Hf. by apply conserves_same.
  - unfold conserves, accepted, chained, saved, commitments, dropped. rewrite !omap_synced by done. simpl. by rewrite !app_nil_r.
  - simplify_eq. rewrite Hf. by apply conserves_same.
  - simplify_eq. rewrite Hf. by apply conserves_same.
Qed.

Lemma conserves_trans s fx s1 fx' s2 : conserves s fx s1 -> conserves s1 fx' s2 -> conserves s (fx ++ fx') s2.
Proof.
  unfold conserves, accepted, chained, saved, commitments, dropped, merkle_hashes. rewrite !omap_app, !fmap_app, !concat_app.
  intros (A1 & B1 & C1) (A2 & B2 & C2). split_and!.
  - by rewrite app_assoc, A1, <-app_assoc, A2, app_assoc.
  - by rewrite app_assoc, B1, <-app_assoc, B2, app_assoc.
  - rewrite <-!app_assoc, Permutation_app_swap_app, C1. etrans; [do 2 (rewrite Permutation_app_swap_app; apply Permutation_app_head); exact C2|].
    solve_Permutation.
Qed.

Lemma run_conserves ins : forall s s' fx, run s ins = (s', fx) -> progress_ok s -> conserves s fx s' /\ progress_ok s'.
Proof.
  induction ins as [|i ins IH]; intros s s' fx E Hok; simpl in E.
  - simplify_eq. split; [by apply conserves_same|done].
  - destruct (step s i) as [s1 fx1] eqn:E1. destruct (run s1 ins) as [s2 fx2] eqn:E2. simplify_eq.
    destruct (IH _ _ _ E2) as [Hc Hp]; [by eapply step_progress|]. split; [|done].
    eapply conserves_trans; [by eapply step_conserves|done].
Qed.

(** ** Commitments *)

(** What an effect says of a commitment: its event names the root of the
    Merkle tree over exactly these hashes, and it is refused only for want of
    room in the queue. *)
Definition commit_ok (f : effect) : Prop :=
  match f with
  | Committed hs q => exists sig, q = commitEvent hs sig
  | Dropped _ depth => (MAX_QUEUE_DEPTH < depth)%nat
  | _ => True
  end.

(** [logEvent] refuses the event of a commitment only when the queue is full. *)
Lemma commit_refused s hs sig newId now s' : logEvent s (commitEvent hs sig) newId now = (s', []) ->
  (MAX_QUEUE_DEPTH < length (logQueue s))%nat.
Proof.
  unfold logEvent. cbn [q_fromAudit commitEvent q_type].
  change (allowed_restricted MERKLE_COMMIT) with true. rewrite andb_false_r.
  destruct (_ <? _)%nat eqn:E; [by intros _; apply Nat.ltb_lt|done].
Qed.

Lemma step_commits s i s' fx : step s i = (s', fx) -> progress_ok s ->
  Forall commit_ok fx /\ (commitments fx).*2 `sublist_of` accepted fx.
Proof.
  intros E Hok. step_cases E; simplify_eq; try (split; [by repeat constructor|apply sublist_nil_l]).
  - destruct (finishItem_cases _ _ _ _ E Hok) as [[-> ->]|(? & ? & ? & ? & ? & _ & [(-> & _)|(? & ? & _ & -> & _)])];
      (split; [by repeat constructor|apply sublist_nil_l]).
  - unfold flushEnd in E. repeat case_match; simplify_eq; (split; [by repeat constructor|apply sublist_nil_l]).
  - destruct (commitEnd_cases _ _ _ _ _ _ _ E) as [[-> ->]|(hs & _ & [(-> & _)|(sig & s1 & fx1 & El & -> & _)])];
      [split; [by repeat constructor|apply sublist_nil_l]..|].
    destruct (logEvent_frame _ _ _ _ _ _ El) as [[-> ->]|(-> & _)].
    + split; [|apply sublist_nil_l]. repeat constructor. by eapply commit_refused.
    + split; [repeat constructor; by eexists|done].
  - unfold commitments. rewrite omap_synced by done. split; [|apply sublist_nil_l]. apply Forall_map, Forall_true. done.
Qed.

Lemma run_commits ins : forall s s' fx, run s ins = (s', fx) -> progress_ok s ->
  Forall commit_ok fx /\ (commitments fx).*2 `sublist_of` accepted fx.
Proof.
  induction ins as [|i ins IH]; intros s s' fx E Hok; simpl in E; [simplify_eq; by repeat constructor|].
  destruct (step s i) as [s1 fx1] eqn:E1. destruct (run s1 ins) as [s2 fx2] eqn:E2. simplify_eq.
  destruct (step_commits _ _ _ _ E1 Hok) as [C1 S1]. destruct (IH _ _ _ E2) as [C2 S2]; [by eapply step_progress|].
  split; [by apply Forall_app|]. unfold commitments, accepted in *. rewrite !omap_app, fmap_app. by apply sublist_app.
Qed.

(** C4: no audit event is lost, duplicated or reordered, however logging,
    processing, flushing, commitments, synchronisation, failing writes and
    failing signatures interleave: the accepted events are the chained ones
    followed by those still waiting, and the chained ones are what was saved,
    batch by batch, followed by what is still buffered.  The hashes of the
    chained events are, each once, in the batch of a commitment, still to be
    committed, or in a batch whose commitment [logEvent] refused because more
    than 5000 events waited.  A commitment is a MERKLE_COMMIT event that was
    itself accepted into the log and carries the root of the Merkle tree over
    its batch. *)
Theorem events_conserved r ins :
  let '(s', fx) := run (new r) ins in
  accepted fx = (chained fx).*1 ++ waiting s' /\
  (chained fx).*2 = concat (saved fx) ++ unsaved s' /\
  merkle_hashes (chained fx) ≡ₚ concat (commitments fx).*1 ++ concat (dropped fx).*1 ++ uncommitted s' /\
  (commitments fx).*2 `sublist_of` accepted fx /\
  Forall (fun c => exists sig, c.2 = commitEvent c.1 sig) (commitments fx) /\
  Forall (fun d => (MAX_QUEUE_DEPTH < d.2)%nat) (dropped fx).
Proof.
  destruct (run (new r) ins) as [s' fx] eqn:E. destruct (run_conserves _ _ _ _ E) as [(A & B & C) _]; [done|].
  destruct (run_commits _ _ _ _ E) as [Hc Hs]; [done|]. rewrite app_nil_r in C. split_and!; try done.
  - apply Forall_forall. intros c (f & Hf & Ec)%list_elem_of_omap. rewrite Forall_forall in Hc. specialize (Hc _ Hf).
    by destruct f; simplify_eq/=.
  - apply Forall_forall. intros c (f & Hf & Ec)%list_elem_of_omap. rewrite Forall_forall in Hc. specialize (Hc _ Hf).
    by destruct f; simplify_eq/=.
Qed.

(** ** The chain *)

(** A truncation boundary the hardware vouches for. *)
Definition truncation (e : AuditEvent) : Prop :=
  prevHash e = TRUNCATED /\ type_ e = CHECKPOINT /\
  exists t sig, tpm = Some t /\ hwSignature e = Some sig /\ tpm_verify t (hash e) sig = true.

Definition hash_ok (e : AuditEvent) : Prop := expectedHash sha256 e = Resolved (hash e).

(** What [syncEvents] has established of an event at an await. *)
Definition vetted (y : Sync) : Prop :=
  match sy_stage y with
  | AwaitHash => True
  | AwaitVerify => hash_ok (sy_event y) /\ prevHash (sy_event y) = TRUNCATED /\ type_ (sy_event y) = CHECKPOINT
  | AwaitSave => hash_ok (sy_event y) /\ (prevHash (sy_event y) = TRUNCATED -> truncation (sy_event y))
  end.

(** An event about to be saved extends the head [h], or starts anew. *)
Definition extends (h : jsstr) (y : Sync) : Prop :=
  sy_stage y = AwaitSave -> prevHash (sy_event y) = h \/ truncation (sy_event y).

Lemma syncNext_stage h events y : syncNext h events = Some y -> sy_stage y = AwaitHash.
Proof. induction events; simpl; [done|]. case_bool_decide; [done|]. intros. by simplify_eq. Qed.

Lemma syncNext_ok h h' events y : syncNext h events = Some y -> vetted y /\ extends h' y.
Proof. intros E%syncNext_stage. unfold vetted, extends. rewrite E. done. Qed.

Lemma syncHashed_ok h y y' : syncHashed sha256 tpm h y = Some y' -> vetted y' /\ extends h y'.
Proof.
  unfold syncHashed. destruct (expectedHash _ _) as [x|] eqn:Ex; [|done].
  case_bool_decide as Hx; simpl; [|apply syncNext_ok]. assert (hash_ok (sy_event y)) as Hok by (unfold hash_ok; congruence).
  case_bool_decide as Ht; simpl; [case_bool_decide as Hc; simpl; [|apply syncNext_ok]|].
  - destruct tpm as [t|]; [|apply syncNext_ok]. destruct (hwSignature _) as [[|c sg]|]; [apply syncNext_ok| |apply syncNext_ok].
    intros ?. simplify_eq. split; [done|]. by intros ?.
  - case_bool_decide as Hp; [|apply syncNext_ok]. intros ?. simplify_eq. split; [done|]. by left.
Qed.

Lemma syncVerified_ok h y y' : sy_stage y = AwaitVerify -> vetted y -> syncVerified tpm h y = Some y' ->
  vetted y' /\ extends h y'.
Proof.
  unfold syncVerified, vetted at 1. intros -> (Hok & Ht & Hc). destruct tpm as [t|] eqn:Et; [|apply syncNext_ok].
  destruct (hwSignature _) as [sg|] eqn:Es; [|apply syncNext_ok]. destruct (tpm_verify _ _ _) eqn:Ev; [|apply syncNext_ok].
  intros ?. simplify_eq. assert (truncation (sy_event y)) as Tr. { split_and!; [done..|]. by exists t, sg. }
  split; [by split; [|intros]|by right].
Qed.

Lemma Forall_setSync (P : Sync -> Prop) i o l : Forall P l -> (forall y, o = Some y -> P y) -> Forall P (setSync i o l).
Proof.
  intros Hl Ho. unfold setSync. apply Forall_app. split; [by apply Forall_take|]. apply Forall_app.
  split; [|by apply Forall_drop]. destruct o; [|constructor]. constructor; [by apply Ho|constructor].
Qed.

(** What a step other than a sync's does to the head and to the syncs. *)
Definition fresh (p : Progress) (h : jsstr) : Prop := match p with Hashing _ _ _ _ prev => prev = h | _ => True end.

Definition grows (l l' : list Sync) : Prop := l' = l \/ exists y, l' = l ++ [y] /\ sy_stage y = AwaitHash.

Lemma logEvent_head s q newId now s' fx : logEvent s q newId now = (s', fx) ->
  lastHash s' = lastHash s /\ ledger fx = [] /\ syncing s' = syncing s /\
  (progress s' = progress s \/ fresh (progress s') (lastHash s)).
Proof.
  intros E. destruct (logEvent_frame _ _ _ _ _ _ E) as [[-> ->]|(-> & qs & p & -> & _ & [->|Hp])]; [by auto..|].
  split_and!; try done. right. simpl. destruct p; naive_solver.
Qed.

Definition ordinary (i : input) : bool := match i with IHashed _ | ISyncStep _ => false | _ => true end.

Definition is_sync (i : input) : bool := match i with ISync _ => true | _ => false end.

Lemma step_head s i s' fx : step s i = (s', fx) -> ordinary i = true ->
  lastHash s' = lastHash s /\ ledger fx = [] /\
  (if is_sync i then grows (syncing s) (syncing s') else syncing s' = syncing s) /\
  (progress s' = progress s \/ fresh (progress s') (lastHash s)).
Proof.
  intros E Hi. assert (forall l : list Sync, grows l l) as G by (by left).
  destruct i; cbn [AuditService.step is_sync] in *; try done; simplify_eq.
  - destruct (logEvent_head _ _ _ _ _ _ E) as (-> & -> & -> & ?). auto.
  - unfold nextItem. destruct (progress s) as [| |[|q rest]] eqn:Ep; rewrite ?Ep; auto.
    + destruct (nextBatch_frame newId now s) as (p & _ & -> & Hp). split_and!; auto. right. simpl. destruct p; naive_solver.
    + destruct (takeFirst_frame newId now (q :: rest) s) as (p & _ & -> & Hp).
      split_and!; auto. right. simpl. destruct p; naive_solver.
  - unfold flushStart. destruct (flushing s), (auditBuffer s); auto.
  - unfold flushEnd in E. repeat case_match; simplify_eq; auto.
  - destruct (commitStart_frame s) as (? & ? & ? & ->). auto.
  - destruct (commitVerdict_frame s healthy) as (? & ? & ? & ->). auto.
  - destruct (commitEnd_cases _ _ _ _ _ _ _ E) as [[-> ->]|(? & _ & [(-> & ->)|(? & ? & fx1 & El & -> & ->)])]; [by auto..|].
    destruct (logEvent_head _ _ _ _ _ _ El) as (Hh & Hl & Hs & Hp). simpl. rewrite Hs. destruct fx1; auto.
  - unfold syncStart. destruct (syncNext _ _) as [y|] eqn:Ey; [|by auto]. split_and!; auto. right. exists y.
    split; [done|]. by eapply syncNext_stage.
  - destruct (verify_frame s) as [? ->]. auto.
  - match goal with |- context [purgeExpired _ _ _ _ ?c ?n ?t ?m] => destruct (purge_frame s c n t m) as [? ->] end. auto.
Qed.

Lemma Forall_grows (P : Sync -> Prop) l l' : grows l l' -> (forall y, sy_stage y = AwaitHash -> P y) ->
  Forall P l -> Forall P l'.
Proof. intros [->|(y & -> & Hy)] HP Hl; [done|]. apply Forall_app. split; [done|]. constructor; [by apply HP|constructor]. Qed.

(** A sync's step keeps what is known of the events in flight, and takes over
    only an event it had vetted. *)
Lemma syncStep_cases s i s' fx : syncStep sha256 tpm date_ms s i = (s', fx) -> Forall vetted (syncing s) ->
  progress s' = progress s /\ Forall vetted (syncing s') /\
  ((lastHash s' = lastHash s /\ fx = [] /\ (Forall (extends (lastHash s)) (syncing s) -> Forall (extends (lastHash s)) (syncing s'))) \/
   exists y, syncing s !! i = Some y /\ sy_stage y = AwaitSave /\ vetted y /\ fx = [Synced (sy_event y)] /\
     lastHash s' = hash (sy_event y) /\ exists o, syncing s' = setSync i o (syncing s) /\
       forall y', o = Some y' -> sy_stage y' = AwaitHash).
Proof.
  unfold syncStep. intros E V. destruct (syncing s !! i) as [y|] eqn:Ey; [|simplify_eq; by auto 10].
  assert (vetted y) as Vy by (by eapply Forall_lookup_1). destruct (sy_stage y) eqn:Es; simplify_eq.
  - split_and!; [done| |left; split_and!; [done..|]]; [|intros]; apply Forall_setSync; try done; intros y'; apply syncHashed_ok.
  - split_and!; [done| |left; split_and!; [done..|]]; [|intros]; apply Forall_setSync; try done; intros y'; by apply syncVerified_ok.
  - destruct (save _ _ _) as [r' [u|x]]; simplify_eq.
    + split_and!; [done| |right; exists y; split_and!; [done..|]].
      * apply Forall_setSync; [done|]. intros y' Hy'. by apply (syncNext_ok _ [] _ _ Hy').
      * eexists. split; [done|]. intros y'. apply syncNext_stage.
    + split_and!; [done| |left; split_and!; [done..|]]; [|intros]; by apply Forall_setSync.
Qed.

Lemma finishItem_sync s signed s' fx : finishItem sha256 tpm s signed = (s', fx) -> progress_ok s ->
  syncing s' = syncing s /\
  ((s' = s \/ progress s' = Idle /\ lastHash s' = lastHash s) /\ fx = [] \/
   exists c q i t prev h sig, progress s = Hashing c q i t prev /\
     let e := makeEvent q i t prev h sig in
     fx = [Chained q e] /\ hash_ok e /\ lastHash s' = h /\ exists rest, progress s' = Between rest).
Proof.
  intros E Hok.
  destruct (finishItem_cases _ _ _ _ E Hok) as [[-> ->]|(cur & q & i & t & v & Ep & [(-> & ->)|(h & sig & Hh & -> & ->)])].
  - split; [done|]. left. by auto.
  - split; [done|]. left. by auto.
  - split; [by destruct (bool_decide _)|]. right. eexists _, _, _, _, _, _, _. split; [done|]. split; [done|].
    split; [done|]. split; [by destruct (bool_decide _)|by eexists].
Qed.

Lemma step_grows s i s' fx : step s i = (s', fx) -> ordinary i = true -> grows (syncing s) (syncing s').
Proof.
  intros E Hi. destruct (step_head _ _ _ _ E Hi) as (_ & _ & Hg & _). destruct (is_sync i); [done|]. by left.
Qed.

Lemma step_vetted s i s' fx : step s i = (s', fx) -> progress_ok s -> Forall vetted (syncing s) ->
  Forall vetted (syncing s') /\
  Forall (fun f => match f with Synced e => hash_ok e /\ (prevHash e = TRUNCATED -> truncation e) | _ => True end) fx.
Proof.
  intros E Hok V. destruct (ordinary i) eqn:Hi.
  - destruct (step_head _ _ _ _ E Hi) as (_ & Hl & _ & _). pose proof (step_grows _ _ _ _ E Hi) as Hg. split.
    + eapply Forall_grows; [exact Hg| |done]. intros y Hy. unfold vetted. by rewrite Hy.
    + clear -Hl. induction fx as [|f fx IH]; [constructor|]. destruct f; simpl in Hl; try done; constructor; auto.
  - destruct i; try done; cbn [AuditService.step] in E.
    + destruct (finishItem_sync _ _ _ _ E Hok) as [-> [[_ ->]|(? & ? & ? & ? & ? & ? & ? & _ & -> & _)]]; by repeat constructor.
    + destruct (syncStep_cases _ _ _ _ E V) as (_ & V' & [(_ & -> & _)|(y & _ & Hs & Vy & -> & _)]); [by repeat constructor|].
      split; [done|]. unfold vetted in Vy. rewrite Hs in Vy. by apply Forall_singleton.
Qed.

Lemma run_vetted ins : forall s s' fx, run s ins = (s', fx) -> progress_ok s -> Forall vetted (syncing s) ->
  Forall (fun f => match f with Synced e => hash_ok e /\ (prevHash e = TRUNCATED -> truncation e) | _ => True end) fx.
Proof.
  induction ins as [|i ins IH]; intros s s' fx E Hok V; simpl in E; [simplify_eq; constructor|].
  destruct (step s i) as [s1 fx1] eqn:E1. destruct (run s1 ins) as [s2 fx2] eqn:E2. simplify_eq.
  destruct (step_vetted _ _ _ _ E1 Hok V) as [V' F]. apply Forall_app. split; [done|].
  eapply IH; [exact E2|by eapply step_progress|done].
Qed.

(** C7: what a peer can add to the ledger, however its synchronisation
    interleaves with everything else: only events whose hash is the digest of
    their content, and a truncation boundary only as a checkpoint that the
    node's own hardware verifies; a node without a TPM accepts none. *)
Theorem synced_vetted r ins e : e ∈ omap (fun f => match f with Synced e => Some e | _ => None end) (snd (run (new r) ins)) ->
  hash_ok e /\ (prevHash e = TRUNCATED -> truncation e) /\ (tpm = None -> prevHash e <> TRUNCATED).
Proof.
  destruct (run (new r) ins) as [s' fx] eqn:E. intros (f & Hf & He)%list_elem_of_omap. destruct f; simplify_eq/=.
  pose proof (run_vetted _ _ _ _ E ltac:(done) ltac:(constructor)) as F. rewrite Forall_forall in F.
  destruct (F _ Hf) as [Hh Ht]. split_and!; [done..|]. intros Hn Hp. destruct (Ht Hp) as (_ & _ & t & ? & Et & _). congruence.
Qed.

(** The events form a chain from [head]: each is correctly hashed and names
    the hash before it, or is a truncation boundary. *)
Fixpoint chain (head : jsstr) (es : list AuditEvent) : Prop :=
  match es with
  | [] => True
  | e :: es => hash_ok e /\ (prevHash e = head \/ truncation e) /\ chain (hash e) es
  end.

Definition head_of (h : jsstr) (es : list AuditEvent) : jsstr := match last es with Some e => hash e | None => h end.

Lemma chain_app es : forall h es', chain h es -> chain (head_of h es) es' -> chain h (es ++ es').
Proof.
  induction es as [|e es IH]; intros h es' C C'; [done|]. destruct C as (? & ? & C). simpl. split_and!; [done..|].
  apply IH; [done|]. revert C'. unfold head_of. rewrite last_cons. by destruct (last es).
Qed.

Lemma head_of_app h es es' : head_of h (es ++ es') = head_of (head_of h es) es'.
Proof. unfold head_of. rewrite last_app. by destruct (last es'). Qed.

(** No two calls are about to extend the chain at the same time: while an
    event is being hashed no synchronisation runs, and at most one runs. *)
Definition calm s : bool :=
  match syncing s, progress s with
  | [], _ => true
  | [_], Hashing _ _ _ _ _ => false
  | [_], _ => true
  | _, _ => false
  end.

Fixpoint calm_run s (ins : list input) : bool :=
  match ins with [] => true | i :: ins => calm s && calm_run (fst (step s i)) ins end.

Record chain_inv s : Prop := mkChainInv {
  ci_progress : progress_ok s;
  ci_fresh : fresh (progress s) (lastHash s);
  ci_vetted : Forall vetted (syncing s);
  ci_extends : Forall (extends (lastHash s)) (syncing s);
}.

Lemma step_chain s i s' fx : step s i = (s', fx) -> calm s = true -> chain_inv s ->
  chain_inv s' /\ chain (lastHash s) (ledger fx) /\ lastHash s' = head_of (lastHash s) (ledger fx).
Proof.
  intros E Hc [Hok Hf V X]. pose proof (step_progress _ _ _ _ E Hok) as Hok'.
  pose proof (proj1 (step_vetted _ _ _ _ E Hok V)) as V'. destruct (ordinary i) eqn:Hi.
  - destruct (step_head _ _ _ _ E Hi) as (Hh & -> & _ & Hp). pose proof (step_grows _ _ _ _ E Hi) as Hg. split; [|done]. split; [done| |done|]; rewrite Hh.
    + by destruct Hp as [->|?].
    + eapply Forall_grows; [exact Hg| |done]. intros y Hy. unfold extends. by rewrite Hy.
  - destruct i; try done; cbn [AuditService.step] in E.
    + destruct (finishItem_sync _ _ _ _ E Hok) as [Hs [[Hst ->]|(c & q & i & t & v & h & sig & Ep & -> & Hh & Hl & rest & Hr)]].
      * split; [|by destruct Hst as [->|[_ ->]]].
        destruct Hst as [->|[Hr Hl]]; [done|]. split; [done|by rewrite Hr|done|by rewrite Hs, Hl].
      * unfold calm in Hc. rewrite Ep in Hc, Hf. simpl in Hf.
        assert (syncing s = []) as Hn by (destruct (syncing s) as [|? [|??]]; done).
        split; [|by split; [split_and!; [done|by left|done]|rewrite Hl]].
        split; [done|by rewrite Hr|done|by rewrite Hs, Hn].
    + destruct (syncStep_cases _ _ _ _ E V) as (Hp & _ & [(Hl & -> & X')|(y & Hy & Hst & Vy & -> & Hl & o & Ho & Hno)]).
      * split; [|done]. split; [done|by rewrite Hp, Hl|done|rewrite Hl; by apply X'].
      * unfold calm in Hc. pose proof (Forall_lookup_1 _ _ _ _ X Hy Hst) as Hx.
        destruct (syncing s) as [|y0 [|y1 l]] eqn:El; [done| |done]. destruct i as [|[]]; simplify_eq/=.
        unfold vetted in Vy. rewrite Hst in Vy. destruct Vy as [Vh _]. split; [|by rewrite Hl].
        split; [done|rewrite Hp; by destruct (progress s)|done|]. rewrite Ho. unfold setSync. simpl.
        destruct o as [y'|]; constructor; [|constructor]. intros Ha. rewrite (Hno y') in Ha; done.
Qed.

Lemma run_chain ins : forall s s' fx, run s ins = (s', fx) -> calm_run s ins = true -> chain_inv s ->
  chain_inv s' /\ chain (lastHash s) (ledger fx) /\ lastHash s' = head_of (lastHash s) (ledger fx).
Proof.
  induction ins as [|i ins IH]; intros s s' fx E Hc Hinv; simpl in E, Hc; [by simplify_eq|].
  destruct (step s i) as [s1 fx1] eqn:E1. destruct (run s1 ins) as [s2 fx2] eqn:E2. simplify_eq.
  apply andb_true_iff in Hc as [Hc Hcr]. destruct (step_chain _ _ _ _ E1 Hc Hinv) as (Hinv1 & C1 & H1).
  destruct (IH _ _ _ E2 Hcr Hinv1) as (Hinv2 & C2 & H2). split; [done|]. unfold ledger in *. rewrite omap_app.
  rewrite H1 in C2, H2. split; [by apply chain_app|]. by rewrite head_of_app.
Qed.

(** As long as nothing else extends the chain while an event is being
    hashed or a peer's events are taken over, the events of the ledger, local
    and synchronised, form one chain from GENESIS to the current head. *)
Theorem chain_linked r ins : calm_run (new r) ins = true ->
  let '(s', fx) := run (new r) ins in chain GENESIS (ledger fx) /\ lastHash s' = head_of GENESIS (ledger fx).
Proof.
  destruct (run (new r) ins) as [s' fx] eqn:E. intros Hc.
  destruct (run_chain _ _ _ _ E Hc) as (_ & C & Hl); [by repeat constructor|done].
Qed.

(** ** The bound of the queue *)

#[local] Opaque MAX_QUEUE_DEPTH.

(** Between failures the queue and the batch in hand are bounded by the
    depth; a failure joins the two. *)
Definition depth_inv s : Prop :=
  match progress s with
  | Idle => (length (logQueue s) <= 2 * S MAX_QUEUE_DEPTH)%nat
  | p => (length (in_hand p) <= S MAX_QUEUE_DEPTH /\ length (logQueue s) <= S MAX_QUEUE_DEPTH)%nat
  end.

Lemma depth_take newId now current s : (length current <= S MAX_QUEUE_DEPTH)%nat ->
  (length (logQueue s) <= S MAX_QUEUE_DEPTH)%nat -> depth_inv (takeFirst newId now current s).
Proof. intros Hc Hq. destruct current as [|q current]; unfold depth_inv; simpl in *; [lia|]. split; lia. Qed.

Lemma depth_log s q newId now s' fx : logEvent s q newId now = (s', fx) -> depth_inv s -> depth_inv s'.
Proof.
  unfold logEvent. intros E D. destruct (q_fromAudit q); [by simplify_eq|]. destruct (_ && _); [by simplify_eq|].
  destruct (_ <? _)%nat eqn:Hn; [by simplify_eq|]. apply Nat.ltb_ge in Hn.
  unfold depth_inv in D. cbn [progress with_queue] in E. destruct (progress s) as [|c q' i t v|rest] eqn:Ep; simplify_eq.
  - unfold nextBatch. apply depth_take; simpl; [rewrite length_app; simpl|]; lia.
  - unfold depth_inv. simpl in *. rewrite length_app. simpl. lia.
  - unfold depth_inv. simpl in *. rewrite length_app. simpl. lia.
Qed.

Lemma step_depth s i s' fx : step s i = (s', fx) -> progress_ok s -> depth_inv s -> depth_inv s'.
Proof.
  intros E Hok D. destruct i; cbn [AuditService.step] in E; simplify_eq.
  - by eapply depth_log.
  - destruct (finishItem_cases _ _ _ _ E Hok) as [[-> ->]|(cur & q & i & t & v & Ep & [(-> & ->)|(h & sig & _ & -> & ->)])]; [done| |];
      unfold depth_inv in *; rewrite Ep in D; simpl in *; [rewrite length_app; lia|]. destruct (bool_decide _); simpl; lia.
  - unfold nextItem. destruct (progress s) as [| |rest] eqn:Ep; [by unfold depth_inv in *; rewrite Ep in *..|].
    unfold depth_inv in D. rewrite Ep in D. simpl in D. destruct rest; unfold nextBatch; apply depth_take; simpl in *; lia.
  - unfold flushStart. by destruct (flushing s), (auditBuffer s).
  - unfold flushEnd in E. repeat case_match; by simplify_eq.
  - by destruct (commitStart_frame s) as (? & ? & ? & ->).
  - by destruct (commitVerdict_frame s healthy) as (? & ? & ? & ->).
  - destruct (commitEnd_cases _ _ _ _ _ _ _ E) as [[-> ->]|(? & _ & [(-> & ->)|(? & s1 & ? & El & -> & ->)])]; [done..|].
    apply (depth_log _ _ _ _ _ _ El D).
  - by destruct (syncStart_frame s events) as [? ->].
  - by destruct (syncStep_frame _ _ _ _ E) as (? & ? & ? & -> & _).
  - by destruct (verify_frame s) as [? ->].
  - match goal with |- context [purgeExpired _ _ _ _ ?c ?n ?t ?m] => by destruct (purge_frame s c n t m) as [? ->] end.
Qed.

Lemma run_depth ins : forall s, progress_ok s -> depth_inv s -> depth_inv (fst (run s ins)).
Proof.
  induction ins as [|i ins IH]; intros s Hok D; simpl; [done|].
  destruct (step s i) as [s1 fx1] eqn:E1. specialize (IH s1 (step_progress _ _ _ _ E1 Hok) (step_depth _ _ _ _ E1 Hok D)).
  by destruct (run s1 ins).
Qed.

(** The memory of the log queue is bounded: at no point do more than 10002
    events wait, twice the depth at which [logEvent] drops, the second half
    after a failed signature has put a batch back. *)
Theorem queue_bounded r ins : (length (waiting (fst (run (new r) ins))) <= 2 * (MAX_QUEUE_DEPTH + 1))%nat.
Proof.
  assert (depth_inv (fst (run (new r) ins))) as D by (apply run_depth; [done|unfold depth_inv; simpl; lia]).
  unfold depth_inv, waiting in *. rewrite length_app.
  destruct (progress _); simpl in *; lia.
Qed.

(** ** The queue after a failure *)

Definition stuck s : Prop := progress s = Idle /\ (MAX_QUEUE_DEPTH < length (logQueue s))%nat.

Lemma stuck_log s q newId now : stuck s -> logEvent s q newId now = (s, []).
Proof.
  intros [_ Hq]. unfold logEvent. destruct (q_fromAudit q); [done|]. destruct (_ && _); [done|].
  by rewrite (proj2 (Nat.ltb_lt _ _)).
Qed.

Lemma step_stuck s i s' fx : step s i = (s', fx) -> stuck s ->
  progress s' = Idle /\ logQueue s' = logQueue s /\ accepted fx = [] /\ chained fx = [].
Proof.
  intros E S. assert (Hidle : progress s = Idle) by apply S.
  destruct i; cbn [AuditService.step] in E.
  - rewrite stuck_log in E by done. by simplify_eq.
  - unfold finishItem in E. rewrite Hidle in E. by simplify_eq.
  - unfold nextItem in E. rewrite Hidle in E. by simplify_eq.
  - simplify_eq. unfold flushStart. by destruct (flushing s), (auditBuffer s).
  - unfold flushEnd in E. repeat case_match; by simplify_eq.
  - simplify_eq. by destruct (commitStart_frame s) as (? & ? & ? & ->).
  - simplify_eq. by destruct (commitVerdict_frame s healthy) as (? & ? & ? & ->).
  - destruct (commitEnd_cases _ _ _ _ _ _ _ E) as [[-> ->]|(? & _ & [(-> & ->)|(? & s1 & ? & El & -> & ->)])]; [done..|].
    rewrite stuck_log in El by done. by simplify_eq.
  - simplify_eq. by destruct (syncStart_frame s events) as [? ->].
  - destruct (syncStep_frame _ _ _ _ E) as (? & ? & ? & -> & es & ->).
    unfold accepted, chained. by rewrite !omap_synced by done.
  - simplify_eq. by destruct (verify_frame s) as [? ->].
  - simplify_eq. match goal with |- context [purgeExpired _ _ _ _ ?c ?n ?t ?m] => by destruct (purge_frame s c n t m) as [? ->] end.
Qed.

(** A failed hash or signature with more than 5000 events waiting ends the
    audit log for good: processing stops, every later event is dropped as
    long as the queue is full, and dropping comes before the restart of
    processing, so that nothing is accepted or chained any more. *)
Theorem saturated_failure_is_final s current q newId ts prev t h :
  progress s = Hashing current q newId ts prev -> head current = Some q ->
  (MAX_QUEUE_DEPTH < length (current ++ logQueue s))%nat -> tpm = Some t ->
  computeHash sha256 (hashInput (makeEvent q newId ts prev [] None)) = Resolved h -> tpm_sign t h = None ->
  forall signed ins, accepted (snd (run s (IHashed signed :: ins))) = [] /\ chained (snd (run s (IHashed signed :: ins))) = [].
Proof.
  intros Ep Hq Hlen Et Eh Es signed ins. cbn [AuditService.run AuditService.step]. unfold finishItem.
  rewrite Ep, Eh. assert (hwSign tpm signed h = None) as -> by (unfold hwSign; by rewrite Et, Es).
  assert (forall ins s, stuck s -> accepted (snd (run s ins)) = [] /\ chained (snd (run s ins)) = []) as L.
  { clear. induction ins as [|i ins IH]; intros s S; simpl; [done|]. destruct (step s i) as [s1 fx1] eqn:E1.
    destruct (step_stuck _ _ _ _ E1 S) as (Hp & Hl & Ha & Hc). destruct (IH s1) as [IHa IHc].
    { split; [done|]. rewrite Hl. apply S. }
    destruct (run s1 ins) as [s2 fx2]. simpl in *. unfold accepted, chained in *. rewrite !omap_app, Ha, Hc, IHa, IHc. done. }
  destruct (L ins (with_queue (current ++ logQueue s) Idle s)) as [La Lc]; [done|].
  destruct (run _ ins) as [s2 fx2]. done.
Qed.
End theory.
End AuditTheory.
