(* ===== verification/AuditLedger.v ===== *)
(** * The stored ledger

    The audit service together with the timeline store and the verifier: what
    the service writes verifies, also after failed and half-done flushes;
    what retention and the order of the store do to it; and concrete runs. *)

From S2P Require Import Prelude Result Digest JsString Canonical Kv Timeline AuditChain AuditService AuditTheory Merkle.
From Stdlib Require Import Sorted.

#[local] Set Default Proof Using "Type".

Module AuditLedger.
Import JsString Canonical Audit AuditService AuditTheory.
Section ledger.
Context `{JsNumber}.
Context `{TimelineKv AuditEvent}.
Context (sha256 : jsstr -> jsstr) (tpm : option Tpm) {merkle_sha : Sha256} (date_ms : jsstr -> Z).

Notation step := (step sha256 tpm date_ms).
Notation run := (run sha256 tpm date_ms).
Notation event_ms := (event_ms date_ms).

Definition key (e : AuditEvent) : tkey := (event_ms e, id e).
Definition keyed (es : list AuditEvent) : list (tkey * AuditEvent) := map (fun e => (key e, e)) es.
Definition entries (s : Service) : list (tkey * AuditEvent) := tkv_entries (Timeline.store (repo s)).

(** The keys of the events are in strictly increasing order. *)
Definition increasing (es : list AuditEvent) : Prop := StronglySorted (fun a b => tlt (key a) (key b) = true) es.

(** ** Writing events in order *)

Lemma increasing_split a es : increasing (a ++ es) ->
  increasing a /\ increasing es /\ forall x y, x ∈ a -> y ∈ es -> tlt (key x) (key y) = true.
Proof.
  unfold increasing. induction a as [|x a IH]; simpl; intros Hs; [split_and!; [constructor|done|set_solver]|].
  inversion Hs as [|? ? Hl Hx]; subst. destruct (IH Hl) as (? & ? & ?). rewrite List.Forall_forall in Hx.
  split_and!; [constructor; [done|]|done|].
  - apply List.Forall_forall. intros y Hy. apply Hx, in_or_app. by left.
  - intros z y Hz Hy. apply elem_of_cons in Hz as [->|Hz]; [|by eauto]. apply Hx, in_or_app. right. by apply list_elem_of_In.
Qed.

Lemma put_new a e : increasing (a ++ [e]) -> put (key e) e (keyed a) = keyed (a ++ [e]).
Proof.
  intros (_ & _ & Hs)%increasing_split. rewrite put_last; [unfold keyed; by rewrite map_app|].
  apply Forall_forall. intros k Hk. apply list_elem_of_fmap in Hk as ([k' y] & -> & Hy).
  unfold keyed in Hy. apply list_elem_of_In, in_map_iff in Hy as (z & Hz & Hin). simplify_eq. simpl.
  apply Hs; [by apply list_elem_of_In|set_solver].
Qed.

(** Writing an event again changes nothing. *)
Lemma put_again a e b : increasing (a ++ e :: b) -> put (key e) e (keyed (a ++ e :: b)) = keyed (a ++ e :: b).
Proof.
  induction a as [|x a IH]; intros Hs; simpl.
  - rewrite tlt_irrefl, decide_True by done. done.
  - inversion Hs as [|? ? Hl Hx]; subst. rewrite List.Forall_forall in Hx.
    rewrite (Hx e) by (apply in_or_app; right; by left). f_equal. by apply IH.
Qed.

Definition write (l : list (tkey * AuditEvent)) (es : list AuditEvent) : list (tkey * AuditEvent) :=
  fold_left (fun l e => put (key e) e l) es l.

(** Writing a stretch that starts inside what is stored extends the stored
    prefix of the chain. *)
Lemma write_stretch seg : forall a rest k, increasing (a ++ seg ++ rest) -> (length a <= k)%nat ->
  write (keyed (take k (a ++ seg ++ rest))) seg = keyed (take (Nat.max k (length a + length seg)) (a ++ seg ++ rest)).
Proof.
  induction seg as [|e seg IH]; intros a rest k Hs Hk; simpl; [by rewrite Nat.add_0_r, Nat.max_l by lia|].
  simpl in Hs. assert (put (key e) e (keyed (take k (a ++ e :: seg ++ rest))) = keyed (take (Nat.max k (S (length a))) (a ++ e :: seg ++ rest))) as ->.
  { destruct (decide (k = length a)) as [->|Hne].
    - rewrite take_app_length, Nat.max_r by lia. change (e :: seg ++ rest) with ([e] ++ (seg ++ rest)). rewrite app_assoc.
      replace (S (length a)) with (length (a ++ [e])) by (rewrite length_app; simpl; lia). rewrite take_app_length.
      apply put_new. rewrite (app_assoc a [e] (seg ++ rest) : a ++ e :: seg ++ rest = _) in Hs. by apply increasing_split in Hs as [? _].
    - rewrite Nat.max_l by lia. rewrite take_app_ge by lia. destruct (k - length a)%nat as [|j] eqn:Ej; [lia|]. simpl.
      apply put_again. replace (a ++ e :: take j (seg ++ rest)) with (take k (a ++ e :: seg ++ rest)).
      + rewrite <-(take_drop k (a ++ e :: seg ++ rest)) in Hs. by apply increasing_split in Hs as [? _].
      + rewrite take_app_ge by lia. by rewrite Ej. }
  specialize (IH (a ++ [e]) rest (Nat.max k (S (length a)))). rewrite <-!app_assoc in IH. simpl in IH.
  rewrite IH; [|done|rewrite length_app; simpl; lia]. f_equal. f_equal. rewrite length_app. simpl. lia.
Qed.

Lemma write_items l es : fold_left (fun l i => put (event_ms i.2, i.1) i.2 l) (map (fun e => (id e, e)) es) l = write l es.
Proof. revert l. induction es as [|e es IH]; intros l; simpl; [done|]. apply IH. Qed.

(** A batch that fails has written a prefix of its events. *)
Lemma saveMany_prefix r es r' o : saveMany date_ms r es = (r', o) ->
  exists m, (m <= length es)%nat /\ tkv_entries (Timeline.store r') = write (tkv_entries (Timeline.store r)) (take m es) /\
    (o = Resolved tt -> m = length es).
Proof.
  unfold saveMany. intros E. destruct (Timeline.setMany_prefix _ _ _ _ _ E) as (m & Hm & He & Ho).
  rewrite length_map in *. exists m. split_and!; [done| |done]. rewrite He, firstn_map. apply write_items.
Qed.

(** ** Local runs *)

(** Everything but synchronisation and retention. *)
Definition local (i : input) : bool :=
  match i with ISync _ | ISyncStep _ | IPurge _ _ _ _ => false | _ => true end.

Lemma ledger_nil fx : ledger fx = [] -> chained fx = [].
Proof. induction fx as [|[] fx IH]; simpl; try done. Qed.

Lemma step_local s i s' fx : step s i = (s', fx) -> local i = true -> progress_ok s -> syncing s = [] ->
  syncing s' = [] /\ ledger fx = (chained fx).*2.
Proof.
  intros E Hi Hok Hs. destruct (ordinary i) eqn:Ho.
  - destruct (step_head _ _ _ _ _ _ _ E Ho) as (_ & Hl & Hg & _). split; [|by rewrite Hl, (ledger_nil _ Hl)].
    assert (is_sync i = false) as Hn by (by destruct i). rewrite Hn in Hg. by rewrite Hg.
  - destruct i; try done; cbn [AuditService.step] in E.
    destruct (finishItem_sync _ _ _ _ _ _ E Hok) as [-> [[_ ->]|(? & ? & ? & ? & ? & ? & ? & _ & -> & _)]]; done.
Qed.

Definition is_flush (i : input) : bool := match i with IFlushEnd => true | _ => false end.

Lemma step_repo s i s' fx : step s i = (s', fx) -> local i = true -> is_flush i = false -> progress_ok s -> repo s' = repo s.
Proof.
  intros E Hi Hf Hok. destruct i; try done; cbn [AuditService.step] in E; simplify_eq.
  - pose proof E as [[-> ->]|(-> & qs & p & -> & _)]%logEvent_frame; done.
  - pose proof E as [[-> ->]|(cur & q & i & t & v & Ep & [(-> & ->)|(h & sig & _ & -> & ->)])]%finishItem_cases; try done.
    by destruct (bool_decide _).
  - unfold nextItem. destruct (progress s) as [| |[|q rest]]; try done.
    destruct (nextBatch_frame newId now s) as (p & _ & -> & _). done.
  - unfold flushStart. by destruct (flushing s), (auditBuffer s).
  - by destruct (commitStart_frame tpm s) as (? & ? & ? & ->).
  - by destruct (commitVerdict_frame s healthy) as (? & ? & ? & ->).
  - pose proof E as [[-> ->]|(? & _ & [(-> & ->)|(? & s1 & ? & El & -> & ->)])]%commitEnd_cases; [done..|].
    pose proof El as [[-> ->]|(-> & qs & p & -> & _)]%logEvent_frame; done.
  - by destruct (verify_frame sha256 tpm s) as [? ->].
Qed.

(** The store holds the first [k] of the events chained so far, all saved
    ones among them; [C] and [S] are what was chained and saved before. *)
Record stored (C Sv : list AuditEvent) (s : Service) : Prop := mkStored {
  st_split : C = Sv ++ unsaved s;
  st_entries : exists k, (length Sv <= k)%nat /\ entries s = keyed (take k C);
}.

Lemma stored_grow C Sv s s' new : stored C Sv s -> repo s' = repo s -> unsaved s' = unsaved s ++ new ->
  stored (C ++ new) Sv s'.
Proof.
  intros [-> (k & Hk & He)] Hr Hu. split; [by rewrite Hu, app_assoc|].
  exists (Nat.min k (length (Sv ++ unsaved s))). split; [rewrite length_app; lia|].
  unfold entries in *. rewrite Hr, He, (take_app_le (Sv ++ unsaved s) new) by lia.
  by rewrite <-take_take, (take_ge (Sv ++ unsaved s) (length _)) by lia.
Qed.

Lemma stored_flush C Sv s s' fx : flushEnd date_ms s = (s', fx) -> increasing C -> stored C Sv s ->
  chained fx = [] /\ stored C (Sv ++ concat (saved fx)) s'.
Proof.
  intros E Hinc [Hc (k & Hk & He)]. unfold flushEnd in E. destruct (flushing s) as [es|] eqn:Ef.
  2:{ simplify_eq/=. split; [done|]. rewrite app_nil_r. split; [done|by exists k]. }
  destruct (saveMany _ _ _) as [r' o] eqn:Es. destruct (saveMany_prefix _ _ _ _ Es) as (m & Hm & He' & Ho).
  assert (C = Sv ++ take m es ++ (drop m es ++ auditBuffer s)) as Hc'.
  { rewrite Hc. unfold unsaved. rewrite Ef. simpl. by rewrite (app_assoc (take m es)), take_drop. }
  assert (tkv_entries (Timeline.store r') = keyed (take (Nat.max k (length Sv + m)) C)) as Hr.
  { rewrite He'. change (tkv_entries (Timeline.store (repo s))) with (entries s). rewrite He.
    rewrite Hc' in Hinc |- *. rewrite (write_stretch _ _ _ _ Hinc Hk). rewrite length_take, Nat.min_l by done. done. }
  destruct o as [[]|x]; injection E as <- <-; (split; [done|]); simpl.
  - rewrite app_nil_r. rewrite (Ho eq_refl) in Hr. split.
    + rewrite Hc. unfold unsaved. by rewrite Ef, <-app_assoc.
    + exists (Nat.max k (length Sv + length es)). rewrite length_app. split; [lia|done].
  - rewrite app_nil_r. split; [rewrite Hc; unfold unsaved; by rewrite Ef|].
    exists (Nat.max k (length Sv + m)). split; [lia|done].
Qed.

Lemma saved_only_flush s i s' fx : step s i = (s', fx) -> is_flush i = false -> progress_ok s -> saved fx = [].
Proof.
  intros E Hf Hok. destruct i; try done; cbn [AuditService.step] in E; simplify_eq; try done.
  - pose proof E as [[-> ->]|(-> & _)]%logEvent_frame; done.
  - pose proof E as [[-> ->]|(cur & q & i & t & v & Ep & [(-> & ->)|(h & sig & _ & -> & ->)])]%finishItem_cases; done.
  - pose proof E as [[-> ->]|(? & _ & [(-> & ->)|(? & s1 & ? & El & -> & ->)])]%commitEnd_cases; [done..|].
    pose proof El as [[-> ->]|(-> & _)]%logEvent_frame; done.
  - pose proof E as (? & ? & ? & _ & es & ->)%syncStep_frame. unfold saved. by rewrite omap_synced by done.
Qed.

Lemma step_stored C Sv s i s' fx : step s i = (s', fx) -> local i = true -> progress_ok s ->
  increasing (C ++ (chained fx).*2) -> stored C Sv s -> stored (C ++ (chained fx).*2) (Sv ++ concat (saved fx)) s'.
Proof.
  intros E Hi Hok Hinc Hst. destruct (is_flush i) eqn:Hf.
  - destruct i; try done. cbn [AuditService.step] in E. apply increasing_split in Hinc as [Hinc _].
    destruct (stored_flush _ _ _ _ _ E Hinc Hst) as [-> Hs]. simpl. by rewrite app_nil_r.
  - rewrite (saved_only_flush _ _ _ _ E Hf Hok). simpl. rewrite app_nil_r.
    eapply stored_grow; [exact Hst|by eapply step_repo|].
    destruct (step_conserves _ _ _ _ _ _ _ E Hok) as (_ & Hu & _). rewrite (saved_only_flush _ _ _ _ E Hf Hok) in Hu. by rewrite Hu.
Qed.

Lemma run_stored ins : forall C Sv s s' fx, run s ins = (s', fx) -> forallb local ins = true -> progress_ok s ->
  increasing (C ++ (chained fx).*2) -> stored C Sv s -> stored (C ++ (chained fx).*2) (Sv ++ concat (saved fx)) s'.
Proof.
  induction ins as [|i ins IH]; intros C Sv s s' fx E Hl Hok Hinc Hst; simpl in E.
  - simplify_eq. simpl. by rewrite !app_nil_r.
  - simpl in Hl. apply andb_true_iff in Hl as [Hi Hl]. destruct (step s i) as [s1 fx1] eqn:E1.
    destruct (run s1 ins) as [s2 fx2] eqn:E2. simplify_eq. unfold chained, saved in *.
    rewrite !omap_app, ?fmap_app, ?concat_app, !app_assoc in *.
    eapply IH; [exact E2|done|by eapply step_progress|done|].
    apply increasing_split in Hinc as [Hinc _]. by eapply step_stored.
Qed.

Lemma run_local ins : forall s s' fx, run s ins = (s', fx) -> forallb local ins = true -> progress_ok s -> syncing s = [] ->
  calm_run sha256 tpm date_ms s ins = true /\ ledger fx = (chained fx).*2.
Proof.
  induction ins as [|i ins IH]; intros s s' fx E Hl Hok Hs; simpl in E; [by simplify_eq|].
  cbn [forallb] in Hl. apply andb_true_iff in Hl as [Hi Hl]. cbn [calm_run]. destruct (step s i) as [s1 fx1] eqn:E1.
  destruct (run s1 ins) as [s2 fx2] eqn:E2. injection E as <- <-.
  destruct (step_local _ _ _ _ E1 Hi Hok Hs) as [Hs1 Hf1].
  destruct (IH s1 _ _ E2 Hl ltac:(by eapply step_progress) Hs1) as [Hc Hf2]. split.
  - unfold calm. rewrite Hs. exact Hc.
  - unfold ledger, chained in *. by rewrite !omap_app, fmap_app, Hf1, Hf2.
Qed.

(** ** From the chain to the verifier *)

Lemma chain_snoc es : forall h e, chain sha256 tpm h (es ++ [e]) ->
  chain sha256 tpm h es /\ hash_ok sha256 e /\ (prevHash e = head_of h es \/ truncation tpm e).
Proof.
  induction es as [|x es IH]; intros h e C; simpl in C |- *; [by destruct C as (? & ? & _)|].
  destruct C as (Hx & Hp & C).
  destruct (IH _ _ C) as (C' & He & Hl). split_and!; [done..|]. unfold head_of in *. rewrite last_cons. by destruct (last es).
Qed.

Lemma linked_cons e l : linked sha256 None l -> (forall x, head l = Some x -> prevHash e = hash x) -> linked sha256 (Some e) l.
Proof. destruct l as [|x l]; [done|]. intros (Hx & _ & L) Hh. split_and!; [done|by apply Hh|done]. Qed.

Lemma last_rev_head {A} (l : list A) : head (rev l) = last l.
Proof. destruct l as [|x l _] using rev_ind; [done|]. by rewrite rev_app_distr, last_snoc. Qed.

(** A chain of plain events, newest first, is what the verifier accepts. *)
Lemma chain_linked_rev es h : Forall plain es -> chain sha256 tpm h es -> linked sha256 None (rev es).
Proof.
  induction es as [|e es IH] using rev_ind; [done|]. intros [Hp [He _]%Forall_cons]%Forall_app C.
  destruct (chain_snoc _ _ _ C) as (C' & Hh & Hprev). rewrite rev_app_distr. cbn [rev app linked]. split_and!; [done..|].
  apply linked_cons; [by apply IH|]. intros x Hx. rewrite last_rev_head in Hx. destruct Hprev as [Hprev|[Ht _]].
  - rewrite Hprev. unfold head_of. by rewrite Hx.
  - by destruct He.
Qed.

Lemma hash_ok_digest e : hash_ok sha256 e -> exists text, hash e = sha256 text.
Proof.
  unfold hash_ok, expectedHash, computeHash. destruct (canonical _) as [text|]; [|done]. intros ?. simplify_eq. by exists (default [] text).
Qed.

Lemma chain_plain es : (forall text, sha256 text <> TRUNCATED) -> Forall (fun e => type_ e <> CHECKPOINT) es ->
  forall h, h <> TRUNCATED -> chain sha256 tpm h es -> Forall plain es.
Proof.
  intros Hd. induction 1 as [|e es He Hes IH]; intros h Hh C; [constructor|]. destruct C as (Hok & Hp & C).
  constructor.
  - split; [done|]. destruct Hp as [->|(_ & Hc & _)]; done.
  - apply (IH (hash e)); [|done]. destruct (hash_ok_digest _ Hok) as [text ->]. apply Hd.
Qed.

Lemma values_keyed r es : tkv_entries (Timeline.store r) = keyed es -> Timeline.values r = es.
Proof. intros E. unfold Timeline.values. rewrite E. clear E. unfold keyed. induction es as [|e es IH]; [done|]. change (e :: (map (fun e => (key e, e)) es).*2 = e :: es). by rewrite IH. Qed.

Lemma verify_stored r es h limit : Timeline.values r = es -> Forall plain es -> chain sha256 tpm h es ->
  exists n, verifyChain sha256 tpm r limit = Resolved (mkVerification true n None).
Proof.
  intros Hv Hp C. pose proof (chain_linked_rev _ _ Hp C) as L. apply Forall_rev in Hp. unfold verifyChain, Timeline.getStream.
  rewrite Hv. unfold verifyEvents. destruct limit as [n|].
  - eexists. apply linked_verifies; [by apply Forall_take|done|by apply linked_prefix].
  - eexists. by apply linked_verifies.
Qed.

Lemma chain_take es k : forall h, chain sha256 tpm h es -> chain sha256 tpm h (take k es).
Proof. revert k. induction es as [|e es IH]; intros [|k] h C; try done. destruct C as (? & ? & C). simpl. by auto. Qed.

(** C5: what a node writes by itself verifies: from an empty store, as long as
    neither a peer's events are taken over nor retention runs, no event is
    logged with the type CHECKPOINT, and the clock and the ids give each event
    a larger key than the one before it, then whatever the interleaving of
    logging, processing, flushing and commitments and whichever writes fail in
    the middle of a batch, the store holds an initial stretch of the chained
    events that includes all that were reported saved, and it verifies in full
    and for every limit.  ([AuditExamples.lost_link] is a run with a
    synchronisation after which the store does not verify.) *)
Theorem ledger_verifies r ins s' fx limit :
  tkv_entries (Timeline.store r) = [] -> forallb local ins = true -> (forall text, sha256 text <> TRUNCATED) ->
  run (new r) ins = (s', fx) -> Forall (fun e => type_ e <> CHECKPOINT) (chained fx).*2 -> increasing (chained fx).*2 ->
  exists k n, Timeline.values (repo s') = take k (chained fx).*2 /\ (length (concat (saved fx)) <= k)%nat /\
    verifyChain sha256 tpm (repo s') limit = Resolved (mkVerification true n None).
Proof.
  intros He Hl Hd E Ht Hinc. destruct (run_local _ _ _ _ E Hl) as [Hc Hf]; [done..|].
  destruct (run_chain _ _ _ _ _ _ _ E Hc) as (_ & C & _); [by repeat constructor|]. rewrite Hf in C. simpl in C.
  destruct (run_stored ins [] [] (new r) s' fx) as [_ (k & Hk & Hs)]; [done..|split; [done|by exists 0%nat]|].
  apply values_keyed in Hs. simpl in Hs, Hk.
  destruct (verify_stored (repo s') _ GENESIS limit Hs) as [n Hn]; [|by apply chain_take|by exists k, n].
  apply Forall_take, (chain_plain _ Hd Ht GENESIS); done.
Qed.

(** ** Retention *)

Lemma deleteBefore_store r cutoff : fst (Timeline.deleteBefore r cutoff) = r.
Proof.
  destruct (decide (Timeline.keysBefore r cutoff = [])) as [Hk|Hk].
  - unfold Timeline.deleteBefore. destruct (writePermission _ _); [|done]. by rewrite Hk.
  - by destruct (Timeline.deleteBefore_rejects _ _ Hk) as [e ->].
Qed.

Lemma save_ok r e r' : save date_ms r e = (r', Resolved tt) ->
  tkv_entries (Timeline.store r') = put (key e) e (tkv_entries (Timeline.store r)).
Proof.
  unfold save, Timeline.set, Timeline.guarded. destruct (writePermission _ _); [|done].
  intros E. by apply Timeline.commitItems_ok in E.
Qed.

Lemma save_failed r e r' x : save date_ms r e = (r', Rejected x) -> r' = r.
Proof.
  unfold save, Timeline.set, Timeline.guarded. destruct (writePermission _ _); [|intros; by simplify_eq].
  apply Timeline.commitItems_failed.
Qed.

Lemma put_keeps (k k' : tkey) (v v' : AuditEvent) l : k <> k' -> (k, v) ∈ l -> (k, v) ∈ put k' v' l.
Proof.
  intros Hne. induction l as [|e l IH]; simpl; [set_solver|]. intros [He|Hl]%elem_of_cons.
  - subst e. simpl. destruct (tlt k k'); [set_solver|]. rewrite decide_False by done. set_solver.
  - destruct (tlt e.1 k'); [set_solver|]. destruct (decide _); set_solver.
Qed.

Lemma makeCheckpoint_shape newId ts c text d cp : makeCheckpoint sha256 tpm newId ts c text d = Some cp ->
  type_ cp = CHECKPOINT /\ prevHash cp = TRUNCATED /\ id cp = newId /\ timestamp cp = ts /\ actor cp = None /\
  correlationId cp = None /\ computeHash sha256 (checkpointInput cp) = Resolved (hash cp).
Proof.
  unfold makeCheckpoint. destruct (computeHash _ _) as [h|] eqn:Eh; [|done].
  destruct tpm as [t|]; [destruct (tpm_sign t h); [|done]|]; intros; by simplify_eq.
Qed.

(** Retention never removes an event: a purge leaves the store as it is or
    adds a checkpoint to it, and everything that was stored is still there,
    expired or not. *)
Theorem purge_never_deletes s cutoff newId ts text :
  let s' := purgeExpired sha256 tpm date_ms s cutoff newId ts text in
  (entries s' = entries s \/ exists cp, type_ cp = CHECKPOINT /\ prevHash cp = TRUNCATED /\ id cp = newId /\
     entries s' = put (key cp) cp (entries s)) /\
  forall k e, k.2 <> newId -> (k, e) ∈ entries s -> (k, e) ∈ entries s'.
Proof.
  simpl. unfold purgeExpired. destruct (boundary _ _ _ _) as [b|]; [|by auto].
  destruct (makeCheckpoint _ _ _ _ _ _ _) as [cp|] eqn:Ec; [|by auto].
  apply makeCheckpoint_shape in Ec as (Ht & Hp & Hi & _).
  destruct (save _ _ _) as [r' [[]|x]] eqn:Es.
  - apply save_ok in Es. 
    assert (entries (with_repo (fst (Timeline.deleteBefore r' cutoff)) s) = put (key cp) cp (entries s)) as ->.
    { unfold entries. simpl. by rewrite deleteBefore_store, Es. }
    split; [right; by exists cp|].
    intros k e Hk He. apply put_keeps; [|done]. intros ->. simpl in Hk. congruence.
  - apply save_failed in Es as ->. by auto.
Qed.

(** ** Checkpoints and peers *)

Lemma checkpoint_clean e : event_clean e -> clean (checkpointInput e).
Proof.
  unfold event_clean, hashInput, checkpointInput. cbn [clean fold_right fst snd].
  intros (? & ? & ? & ? & ? & ? & _ & ? & _ & ? & _). tauto.
Qed.

Lemma checkpoint_text_differs e : event_clean e ->
  (exists t, canonical (checkpointInput e) = Resolved t) -> canonical (checkpointInput e) <> canonical (hashInput e).
Proof.
  intros C [t Ht] E. rewrite Ht in E.
  pose proof (canonical_injective _ _ t C (checkpoint_clean _ C) ltac:(done) ltac:(done) (eq_sym E) Ht) as N.
  rewrite norm_hashInput in N. apply (f_equal (fun v => match v with JObj l => length l | _ => 0%nat end)) in N.
  vm_compute in N. discriminate N.
Qed.

(** The checkpoints a node makes are never accepted by a peer: their hash
    leaves out two fields that [syncEvents] hashes, so that the check of the
    hash fails before any signature is looked at, unless the digest collides. *)
Theorem checkpoint_never_syncs newId ts c text d cp :
  makeCheckpoint sha256 tpm newId ts c text d = Some cp -> event_clean cp ->
  (forall t t', canonical (checkpointInput cp) = Resolved t -> canonical (hashInput cp) = Resolved t' ->
     sha256 (default [] t) = sha256 (default [] t') -> t = t') ->
  forall peer_tpm head rest, syncHashed sha256 peer_tpm head (mkSync cp rest AwaitHash) = syncNext head rest \/
    syncHashed sha256 peer_tpm head (mkSync cp rest AwaitHash) = None.
Proof.
  intros (_ & _ & _ & _ & _ & _ & Hh)%makeCheckpoint_shape C Hcol peer_tpm hd rest. unfold syncHashed. cbn [sy_event sy_rest].
  destruct (expectedHash sha256 cp) as [x|] eqn:Ex; [left|by right].
  rewrite bool_decide_eq_false_2; [done|]. intros <-. revert Hh Ex. unfold expectedHash, computeHash.
  destruct (canonical (checkpointInput cp)) as [t|] eqn:Et; [|done].
  destruct (canonical (hashInput cp)) as [t'|] eqn:Et'; [|done]. intros Hh Ex. simplify_eq.
  apply (checkpoint_text_differs cp C); [by exists t|]. rewrite Et, Et'. f_equal. apply Hcol; congruence.
Qed.

(** ** Events of the same millisecond *)

(** Two events logged in the same millisecond, the second with the smaller
    UUID, are stored in the wrong order, and an untouched ledger is reported
    as broken. *)
Theorem same_millisecond_breaks r e1 e2 r1 r2 :
  tkv_entries (Timeline.store r) = [] -> save date_ms r e1 = (r1, Resolved tt) -> save date_ms r1 e2 = (r2, Resolved tt) ->
  hash_ok sha256 e1 -> hash_ok sha256 e2 -> plain e1 -> plain e2 -> prevHash e2 = hash e1 -> prevHash e1 <> hash e2 ->
  event_ms e1 = event_ms e2 -> Canonical.jlt (id e2) (id e1) = true ->
  verifyChain sha256 tpm r2 None = Resolved (mkVerification false 2 (Some (id e1, CHAIN_BREAK))).
Proof.
  intros He S1 S2 H1 H2 [P1 T1] [P2 T2] Hl Hne Hms Hid. apply save_ok in S1, S2.
  assert (Timeline.values r2 = [e2; e1]) as Hv.
  { apply values_keyed. rewrite S2, S1, He. simpl. unfold key. rewrite Hms.
    assert (tlt (event_ms e2, id e1) (event_ms e2, id e2) = false) as ->.
    { unfold tlt. simpl. rewrite Z.ltb_irrefl, Z.eqb_refl. simpl. by apply Canonical.jlt_asym. }
    rewrite decide_False; [done|]. intros [= Eid]. rewrite Eid in Hid.
    by rewrite (Canonical.jlt_asym _ _ Hid) in Hid. }
  unfold verifyChain, verifyEvents. rewrite Hv. cbn [rev app verifyLoop].
  rewrite !(bool_decide_eq_false_2 (type_ _ = CHECKPOINT)) by done. rewrite H1, H2, !(bool_decide_eq_true_2 (hash _ = hash _)) by done.
  cbn [negb]. rewrite !(bool_decide_eq_false_2 (prevHash e1 = _)) by done. done.
Qed.

End ledger.

(** ** Merkle proofs of events *)

Section proofs.
Context `{JsNumber}.

Record MerkleProof := mkMerkleProof { leaf : string; index : nat; proof : list string; root : string }.

(** [AuditVerifier.getMerkleProof(eventHash, recentEvents)] *)
Definition getMerkleProof `{Sha256} (eventHash : jsstr) (recentEvents : list AuditEvent) : option MerkleProof :=
  let hashes := Audit.merkleLeaves recentEvents in
  match indexOf eventHash hashes with
  | None => None
  | Some i =>
      let t := Merkle.new (map hex_text hashes) in
      Some (mkMerkleProof (hex_text eventHash) i (Merkle.getProof t i) (Merkle.getRoot t))
  end.

Lemma indexOf_lookup x l i : indexOf x l = Some i -> l !! i = Some x.
Proof.
  revert i. induction l as [|y l IH]; intros i; simpl; [done|]. case_bool_decide; [intros; by simplify_eq/=|].
  intros (j & Hj & ->)%fmap_Some. by apply IH.
Qed.

Lemma indexOf_none x l : indexOf x l = None -> x ∉ l.
Proof.
  induction l as [|y l IH]; simpl; [set_solver|]. case_bool_decide; [done|]. intros E%fmap_None. set_solver.
Qed.

(** The Merkle proof given for an event verifies against the root given
    with it, and one is given exactly for the hashes of the recent events. *)
Theorem event_proof_verifies `{Sha256} h recent : Forall (fun e => hash e <> []) recent ->
  match getMerkleProof h recent with
  | Some p => h ∈ map hash recent /\ Merkle.verify (root p) (leaf p) (index p) (proof p) = true
  | None => h ∉ map hash recent
  end.
Proof.
  intros Hne. unfold getMerkleProof, Audit.merkleLeaves. destruct (indexOf h (rev (map hash recent))) as [i|] eqn:Ei.
  - apply indexOf_lookup in Ei. split.
    { apply list_elem_of_lookup_2 in Ei. rewrite list_elem_of_In in Ei |- *. by apply in_rev. }
    unfold Merkle.verify. cbn [root leaf index proof]. apply String.eqb_eq.
    assert (map hex_text (rev (map hash recent)) !! i = Some (hex_text h)) as Hi by (change (map hex_text) with (fmap (M:=list) hex_text); by rewrite list_lookup_fmap, Ei).
    rewrite Merkle.getProof_new by (by intros E; rewrite E in Hi). apply Merkle.climb_getProof; [done|].
    apply Merkle.getRoot_new; [by intros E; rewrite E in Hi|]. apply Forall_map, Forall_rev, Forall_map.
    eapply Forall_impl; [exact Hne|]. intros e He. simpl in He. by destruct (hash e).
  - apply indexOf_none in Ei. rewrite list_elem_of_In in Ei |- *. intros Hin. by apply Ei, in_rev; rewrite rev_involutive.
Qed.
End proofs.
End AuditLedger.
