(* ===== verification/AuditExamples.v ===== *)
(** * Concrete ledgers

    The audit theorems at concrete inputs: integers as numbers, a
    checksum as digest, an in-memory timeline, timestamps whose
    milliseconds are their first character.  [lost_link] is a run in which a
    synchronisation slips in between an event's [prevHash] and its hash. *)

From S2P Require Import Prelude Result Digest JsString Canonical Kv Timeline AuditChain AuditService AuditTheory AuditLedger.
From Stdlib Require Import Sorted.

Module AuditExamples.
Import JsString Canonical CanonicalInt Audit AuditService AuditTheory AuditLedger.

(** A checksum behind a mark. *)
Definition digest0 (t : jsstr) : jsstr := 35 :: decimal (fold_left (fun n c => (n * 257 + c + 1) mod 2 ^ 32) t 0).
Definition date0 (t : jsstr) : Z := match t with c :: _ => c | [] => 0 end.

Lemma empty_sorted : in_key_order ([] : list (tkey * AuditEvent)).
Proof. constructor. Qed.
Definition store0 : tkv (T := AuditEvent) := mkMemTl [] None empty_sorted.
Definition repo0 : Timeline.TimelineRepository AuditEvent := Timeline.mkTimeline false (js "audit") store0.

Definition queued0 (text : jsstr) : Queued :=
  mkQueued (js "INFO") None None text None (Some (JNum 7)) None None false.

(** An event with its hash. *)
Definition event0 (i t text prev : jsstr) : AuditEvent :=
  let e := makeEvent (queued0 text) i t prev [] None in
  match expectedHash digest0 e with
  | Resolved h => makeEvent (queued0 text) i t prev h None
  | Rejected _ => e
  end.

Definition first0 : AuditEvent := event0 (js "b") (js "1") (js "one") GENESIS.
Definition second0 : AuditEvent := event0 (js "a") (js "2") (js "two") (hash first0).

Definition unitsb (t : jsstr) : bool := forallb (fun c => (0 <=? c) && (c <? 65536)) t.

(** A test for [clean]. *)
Fixpoint cleanb (v : jval) : bool :=
  match v with
  | JStr t => unitsb t
  | JArr items => forallb (fun x => match x with JUndefined => false | _ => cleanb x end) items
  | JObj fields => forallb (fun f => unitsb f.1 && cleanb f.2) fields
  | _ => true
  end.

Lemma unitsb_ok t : unitsb t = true -> Forall code_unit t.
Proof.
  unfold unitsb. rewrite forallb_forall, Forall_forall. intros Ht c Hc. apply list_elem_of_In, Ht in Hc.
  unfold code_unit. lia.
Qed.

Lemma cleanb_ok v : cleanb v = true -> clean v.
Proof.
  induction v as [| | | | |items IH|fields IH]; intros C; try done; [by apply unitsb_ok|..]; cbn [cleanb] in C; cbn [clean].
  - induction IH as [|x items Hx _ IHi]; [done|]. cbn [forallb fold_right] in *. apply andb_true_iff in C as [Cx C].
    split; [|by apply IHi]. destruct x; try discriminate Cx; (split; [discriminate|by apply Hx]).
  - induction IH as [|x fields Hx _ IHi]; [done|]. cbn [forallb fold_right] in *.
    apply andb_true_iff in C as [[Ck Cx]%andb_true_iff C]. split; [|by apply IHi]. split; [by apply unitsb_ok|by apply Hx].
Qed.

Lemma clean_first : event_clean first0.
Proof. apply cleanb_ok. vm_compute. reflexivity. Qed.

Lemma clean_second : event_clean second0.
Proof. apply cleanb_ok. vm_compute. reflexivity. Qed.

(** An object that contains itself. *)
Definition heap0 (o : nat) : option node := Some (NObj [(js "self", RRef 0); (js "big", RBigint (js "5"))]).

Lemma sanitized_event_hashes_witness : exists h, expectedHash digest0
  (mkEvent (js "i") (js "1") (js "INFO") None None (js "m") None (Some (sanitizeDataForAudit heap0 (RRef 0))) [] GENESIS None None)
  = Resolved h.
Proof.
  apply (sanitized_event_hashes digest0 heap0 (RRef 0)).
  - intros o. simpl. repeat constructor.
  - exact I.
  - reflexivity.
Defined.

Lemma no_collision0 : no_collision digest0 [second0; first0] [second0; first0].
Proof.
  assert (expectedHash digest0 second0 <> expectedHash digest0 first0) as Hd by (vm_compute; discriminate).
  intros e f [->|He%list_elem_of_singleton]%elem_of_cons [->|Hf%list_elem_of_singleton]%elem_of_cons; subst.
  - intros _. reflexivity.
  - intros E. destruct (Hd E).
  - intros E. destruct (Hd (eq_sym E)).
  - intros _. reflexivity.
Qed.

Lemma plain_first : plain first0.
Proof. split; intros E; vm_compute in E; discriminate E. Qed.

Lemma plain_second : plain second0.
Proof. split; intros E; vm_compute in E; discriminate E. Qed.

Lemma both_plain : Forall plain [second0; first0].
Proof. exact (Forall_cons_2 _ _ _ plain_second (Forall_cons_2 _ _ _ plain_first (Forall_nil_2 _))). Qed.

Lemma both_clean : Forall event_clean [second0; first0].
Proof. exact (Forall_cons_2 _ _ _ clean_second (Forall_cons_2 _ _ _ clean_first (Forall_nil_2 _))). Qed.

Lemma both_verify : verifyEvents digest0 None [second0; first0] = Resolved (mkVerification true 2 None).
Proof. vm_compute. reflexivity. Qed.

Lemma tamper_evident_witness : same_content first0 first0.
Proof.
  exact (tamper_evident digest0 None [first0] [first0] second0 second0 2 2 both_plain both_plain both_clean both_clean
    no_collision0 both_verify both_verify eq_refl 1 first0 first0 eq_refl eq_refl).
Defined.

Definition forged0 : AuditEvent :=
  mkEvent (js "x") (js "1") CHECKPOINT None None (js "nothing happened") None None (js "any hash") TRUNCATED None None.

Lemma forged_checkpoint_accepted_witness :
  verifyEvents digest0 None ([second0] ++ forged0 :: [first0]) = Resolved (mkVerification true 3 None).
Proof.
  apply (forged_checkpoint_accepted digest0 None [second0] [first0] forged0 1 1); vm_compute; reflexivity.
Defined.

(** ** Runs *)

Notation run0 := (run digest0 None date0).

(** Two events are logged, chained and flushed. *)
Definition inputs0 : list input :=
  [ILog (queued0 (js "one")) (js "b") (js "1"); IHashed true; INext (js "") (js "");
   ILog (queued0 (js "two")) (js "a") (js "2"); IHashed true; INext (js "") (js ""); IFlushStart; IFlushEnd].

Definition effects0 : list effect :=
  [Accepted (queued0 (js "one")); Chained (queued0 (js "one")) first0;
   Accepted (queued0 (js "two")); Chained (queued0 (js "two")) second0; Saved [first0; second0]].

Definition final0 : Service := fst (run0 (new repo0) inputs0).

Lemma run0_effects : snd (run0 (new repo0) inputs0) = effects0.
Proof. vm_cast_no_check (eq_refl effects0). Qed.

Lemma run0_result : run0 (new repo0) inputs0 = (final0, effects0).
Proof. rewrite <-run0_effects. unfold final0. by destruct (run0 _ _). Qed.

(** A peer's event is taken over. *)
Definition inputs1 : list input := [ISync [first0]; ISyncStep 0; ISyncStep 0].

Lemma run1_effects : snd (run0 (new repo0) inputs1) = [Synced first0].
Proof. vm_cast_no_check (eq_refl [Synced first0]). Qed.

Lemma synced_vetted_witness : prevHash first0 <> TRUNCATED.
Proof.
  apply (synced_vetted digest0 None date0 repo0 inputs1 first0); [|reflexivity].
  rewrite run1_effects. by left.
Defined.

Lemma chain_linked_witness : chain digest0 None GENESIS [first0; second0] /\ lastHash final0 = hash second0.
Proof.
  pose proof (chain_linked digest0 None date0 repo0 inputs0 ltac:(vm_compute; reflexivity)) as C.
  rewrite run0_result in C. exact C.
Defined.

(** A peer's event arrives while a local one is being hashed. *)
Definition inputs2 : list input :=
  [ILog (queued0 (js "two")) (js "a") (js "2"); ISync [first0]; ISyncStep 0; ISyncStep 0; IHashed true].

(** Both name GENESIS as their predecessor: the chain has lost a link, and
    the store reports tampering. *)
Lemma lost_link : map prevHash (ledger (snd (run0 (new repo0) inputs2))) = [GENESIS; GENESIS] /\
  exists at_, verifyChain digest0 None (repo (fst (run0 (new repo0) (inputs2 ++ [IFlushStart; IFlushEnd])))) None
    = Resolved (mkVerification false 2 at_).
Proof. split; [vm_compute; reflexivity|]. eexists. vm_compute. reflexivity. Qed.

Lemma increasing0 : increasing date0 [first0; second0].
Proof. repeat constructor. Qed.

Lemma ledger_verifies_witness : exists k n, Timeline.values (repo final0) = take k [first0; second0] /\ (2 <= k)%nat /\
  verifyChain digest0 None (repo final0) (Some 50%nat) = Resolved (mkVerification true n None).
Proof.
  apply (ledger_verifies digest0 None date0 repo0 inputs0 final0 effects0 (Some 50%nat)).
  - reflexivity.
  - reflexivity.
  - intros text E. discriminate E.
  - exact run0_result.
  - exact (Forall_cons_2 _ first0 _ (proj1 plain_first) (Forall_cons_2 _ second0 _ (proj1 plain_second) (Forall_nil_2 _))).
  - exact increasing0.
Defined.

(** ** A saturated queue *)

(** A TPM whose signing fails. *)
Definition broken_tpm : Tpm := mkTpm (fun _ => None) (fun _ _ => false).
Definition q0 : Queued := queued0 (js "burst").

(** A burst while the first event is being hashed fills the queue. *)
Lemma log_burst k : (k <= S MAX_QUEUE_DEPTH)%nat ->
  fst (run digest0 (Some broken_tpm) date0 (new repo0) (repeat (ILog q0 (js "i") (js "1")) (S k)))
  = with_queue (repeat q0 k) (Hashing [q0] q0 (js "i") (js "1") GENESIS) (new repo0).
Proof.
  set (busy l := with_queue l (Hashing [q0] q0 (js "i") (js "1") GENESIS) (new repo0)).
  assert (forall m l, (length l + m <= S MAX_QUEUE_DEPTH)%nat ->
    fst (run digest0 (Some broken_tpm) date0 (busy l) (repeat (ILog q0 (js "i") (js "1")) m)) = busy (l ++ repeat q0 m)) as L.
  { induction m as [|m IH]; intros l Hl; cbn [repeat AuditService.run]; [by rewrite app_nil_r|].
    assert (step digest0 (Some broken_tpm) date0 (busy l) (ILog q0 (js "i") (js "1")) = (busy (l ++ [q0]), [Accepted q0])) as ->.
    { cbn [step]. unfold logEvent. cbn [q_fromAudit q0 queued0 restricted busy with_queue new andb logQueue progress].
      by rewrite (proj2 (Nat.ltb_ge _ _)) by lia. }
    specialize (IH (l ++ [q0])). rewrite length_app in IH. simpl in IH. specialize (IH ltac:(lia)).
    rewrite <-app_assoc in IH. simpl in IH. by destruct (run _ _ _ _ _). }
  intros Hk. cbn [repeat AuditService.run].
  assert (step digest0 (Some broken_tpm) date0 (new repo0) (ILog q0 (js "i") (js "1")) = (busy [], [Accepted q0])) as -> by reflexivity.
  specialize (L k [] Hk). by destruct (run _ _ _ _ _).
Qed.

Lemma hash_of_burst : computeHash digest0 (hashInput (makeEvent q0 (js "i") (js "1") GENESIS [] None))
  = Resolved (hash (event0 (js "i") (js "1") (js "burst") GENESIS)).
Proof. vm_compute. reflexivity. Qed.

(** 5001 events are logged while the TPM is asked to sign the first; it fails. *)
Definition saturated0 : Service :=
  fst (run digest0 (Some broken_tpm) date0 (new repo0) (repeat (ILog q0 (js "i") (js "1")) (S (S MAX_QUEUE_DEPTH)))).

Lemma saturated_failure_is_final_witness :
  accepted (snd (run digest0 (Some broken_tpm) date0 saturated0 [IHashed true; ILog q0 (js "j") (js "2")])) = [].
Proof.
  assert (saturated0 = with_queue (repeat q0 (S MAX_QUEUE_DEPTH)) (Hashing [q0] q0 (js "i") (js "1") GENESIS) (new repo0)) as E
    by (apply log_burst; apply Nat.le_refl).
  refine (proj1 (saturated_failure_is_final digest0 (Some broken_tpm) date0 saturated0 [q0] q0 (js "i") (js "1") GENESIS
    broken_tpm _ _ _ _ eq_refl hash_of_burst eq_refl true [ILog q0 (js "j") (js "2")])).
  - by rewrite E.
  - reflexivity.
  - rewrite E. cbn [logQueue with_queue app length]. rewrite repeat_length. lia.
Defined.

(** ** Retention, checkpoints and order *)

Definition checkpoint0 : AuditEvent :=
  match makeCheckpoint digest0 None (js "c") (js "9") (js "AUDIT:RETENTION") (js "truncated") (JObj []) with
  | Some cp => cp
  | None => forged0
  end.

Lemma clean_checkpoint : event_clean checkpoint0.
Proof. apply cleanb_ok. vm_compute. reflexivity. Qed.

Lemma checkpoint_texts_differ : expectedHash digest0 checkpoint0 <> computeHash digest0 (checkpointInput checkpoint0).
Proof. vm_compute. discriminate. Qed.

Lemma checkpoint_never_syncs_witness :
  syncHashed digest0 None GENESIS (mkSync checkpoint0 [] AwaitHash) = syncNext GENESIS [] \/
  syncHashed digest0 None GENESIS (mkSync checkpoint0 [] AwaitHash) = None.
Proof.
  refine (checkpoint_never_syncs digest0 None (js "c") (js "9") (js "AUDIT:RETENTION") (js "truncated") (JObj [])
    checkpoint0 _ clean_checkpoint _ None GENESIS []).
  - vm_cast_no_check (eq_refl (Some checkpoint0)).
  - intros t t' Et Et' E. exfalso. apply checkpoint_texts_differ. unfold expectedHash, computeHash.
    rewrite Et, Et'. by rewrite E.
Defined.

Definition third0 : AuditEvent := event0 (js "a") (js "1") (js "three") (hash first0).
Definition repo1 : Timeline.TimelineRepository AuditEvent := fst (save date0 repo0 first0).
Definition repo2 : Timeline.TimelineRepository AuditEvent := fst (save date0 repo1 third0).

Lemma same_millisecond_breaks_witness :
  verifyChain digest0 None repo2 None = Resolved (mkVerification false 2 (Some (js "b", CHAIN_BREAK))).
Proof.
  apply (same_millisecond_breaks digest0 None date0 repo0 first0 third0 repo1 repo2).
  - reflexivity.
  - reflexivity.
  - reflexivity.
  - vm_compute. reflexivity.
  - vm_compute. reflexivity.
  - exact plain_first.
  - split; intros E; vm_compute in E; discriminate E.
  - reflexivity.
  - intros E. vm_compute in E. discriminate E.
  - reflexivity.
  - vm_compute. reflexivity.
Defined.

Lemma event_proof_verifies_witness :
  match getMerkleProof (hash first0) [second0; first0] with
  | Some p => hash first0 ∈ map hash [second0; first0] /\ Merkle.Merkle.verify (root p) (leaf p) (index p) (proof p) = true
  | None => hash first0 ∉ map hash [second0; first0]
  end.
Proof.
  apply event_proof_verifies. repeat apply Forall_cons_2; [intros E; vm_compute in E; discriminate E..|apply Forall_nil_2].
Defined.
End AuditExamples.
