(* ===== verification/EventBus.v ===== *)
(** * The event bus

    Models [src/orchestrator/domain/analysis/events.ts], class [EventBus]:
    registration of handlers, publication through the middleware chain, and
    the dispatch of an event to its handlers.  An event is an object with an
    identity (a number here), because [finalized] is a set of objects and
    middleware may change the event's data.  A middleware is foreign code: it
    may call [next] any number of times, at any time, also after it has thrown
    or timed out, so each of these is a step of its own.  The validation of
    payloads ([validateEvent], a zod schema) is a parameter; running the
    handlers with their timeouts is the runtime's. *)

From S2P Require Import Prelude JsMap JsString.

Module EventBus.
Import JsString.

Inductive LogSeverity := ERROR | WARNING | INFO.

(** [mapTypeToSeverity] *)
Definition mapTypeToSeverity (type : jsstr) : LogSeverity :=
  if bool_decide (type ∈ [js "EMERGENCY"; js "CRITICAL"; js "EBPF_CRITICAL"]) then ERROR
  else if bool_decide (type ∈ [js "BLOCK"; js "THREAT"; js "WARN"; js "DRIFT_PORT"; js "DRIFT_PROCESS"; js "EBPF_STRAY_SHELL"])
  then WARNING else INFO.

Definition isNoise (type : jsstr) : bool :=
  bool_decide (type ∈ [js "DEBUG"; js "METRIC_UPDATE"; js "INFO"]).

Definition isHighPriority (type : jsstr) : bool :=
  bool_decide (type ∈ [js "CRITICAL"; js "EMERGENCY"; js "EXFIL_ALERT"; js "THREAT"]).

Section bus.
(** What a payload holds besides the fields the bus looks at; [blank] is [{}]. *)
Context {Body : Type} (blank : Body).

Record Payload := mkPayload {
  body : Body; p_correlationId : option jsstr; p_fromAudit : option bool; p_fromEventBus : bool }.

Definition empty_payload : Payload := mkPayload blank None None false.

(** [validateEvent]; no value is an exception. *)
Context (validateEvent : jsstr -> option Payload -> option (option Payload)).

Record SystemEvent := mkSystemEvent {
  type : jsstr; message : jsstr; data : option Payload; correlationId : jsstr; fromAudit : option bool }.

(** A call of a middleware for an event; [settled] when its race is over. *)
Record Frame := mkFrame { f_event : nat; f_index : nat; f_settled : bool }.

Record Bus := mkBus {
  handlers : list nat;
  keyedListeners : list (jsstr * list nat);
  middleware : list nat;
  finalized : list nat;
  events : list SystemEvent;     (* the event objects made so far *)
  frames : list Frame;           (* the middleware calls made so far *)
}.

Definition new : Bus := mkBus [] [] [] [] [] [].

Definition with_registry (hs : list nat) (ks : list (jsstr * list nat)) (b : Bus) : Bus :=
  mkBus hs ks (middleware b) (finalized b) (events b) (frames b).
Definition with_middleware (ms : list nat) (b : Bus) : Bus :=
  mkBus (handlers b) (keyedListeners b) ms (finalized b) (events b) (frames b).
Definition with_events (fin : list nat) (es : list SystemEvent) (b : Bus) : Bus :=
  mkBus (handlers b) (keyedListeners b) (middleware b) fin es (frames b).
Definition with_frames (fs : list Frame) (b : Bus) : Bus :=
  mkBus (handlers b) (keyedListeners b) (middleware b) (finalized b) (events b) fs.

(** ** Registration *)

Definition use (mw : nat) (b : Bus) : Bus := with_middleware (middleware b ++ [mw]) b.

Definition subscribe (handler : nat) (b : Bus) : Bus :=
  with_registry (handlers b ++ [handler]) (keyedListeners b) b.

Definition without (handler : nat) (l : list nat) : list nat := List.filter (fun h => negb (h =? handler)%nat) l.

(** The loop over the entries of [keyedListeners]. *)
Definition dropListener (handler : nat) (ks : list (jsstr * list nat)) (entry : jsstr * list nat)
  : list (jsstr * list nat) :=
  let filtered := without handler entry.2 in
  if (length filtered =? length entry.2)%nat then ks
  else if bool_decide (filtered = []) then JsMap.delete ks entry.1
  else JsMap.set ks entry.1 filtered.

Definition unsubscribe (handler : nat) (b : Bus) : Bus :=
  with_registry (without handler (handlers b))
    (fold_left (dropListener handler) (keyedListeners b) (keyedListeners b)) b.

Definition on (event : jsstr) (callback : nat) (b : Bus) : Bus :=
  let ks := if JsMap.has (keyedListeners b) event then keyedListeners b
            else JsMap.set (keyedListeners b) event [] in
  with_registry (handlers b) (JsMap.set ks event (default [] (JsMap.get ks event) ++ [callback])) b.

(** The end of [shutdown]. *)
Definition shutdown (b : Bus) : Bus := with_middleware [] (with_registry [] [] b).

(** ** Publication *)

Inductive effect :=
| Reached (ev : nat)                       (* a call of finalizePublish *)
| Logged (ev : nat) (severity : LogSeverity) (debug : bool)
| Dispatched (ev : nat) (e : SystemEvent) (validatedData : option Payload) (global keyed : list nat)
    (timeoutMs : Z) (awaited : bool).

(** The metadata that dispatch writes into the payload. *)
Definition annotate (e : SystemEvent) (p : Payload) : Payload :=
  mkPayload (body p)
    (match p_correlationId p with Some (c :: s) => Some (c :: s) | _ => Some (correlationId e) end)
    (p_fromAudit p) true.

(** [finalizePublish(event, validatedData)]: with [fallback] an absent payload
    is replaced by [{}], which is not the event's own. *)
Definition finalizePublish (b : Bus) (ev : nat) (fallback : bool) : Bus * list effect :=
  match events b !! ev with
  | None => (b, [])
  | Some e =>
      if bool_decide (ev ∈ finalized b) then (b, [Reached ev])
      else
        let validatedData := annotate e <$> (match data e with
                                             | Some p => Some p
                                             | None => if fallback then Some empty_payload else None
                                             end) in
        let e' := mkSystemEvent (type e) (message e) (annotate e <$> data e) (correlationId e) (fromAudit e) in
        let high := isHighPriority (type e) in
        let typeHandlers := default [] (JsMap.get (keyedListeners b) (type e)) in
        (with_events (ev :: finalized b) (<[ev := e']> (events b)) b,
         Reached ev :: Logged ev (mapTypeToSeverity (type e)) (isNoise (type e)) ::
         Dispatched ev e' validatedData (handlers b) typeHandlers (if high then 1000 else 2000) high :: [])
  end.

(** [runMiddleware(index, event)] up to the call of the middleware. *)
Definition runMiddleware (b : Bus) (index ev : nat) : Bus * list effect :=
  if (length (middleware b) <=? index)%nat then finalizePublish b ev false
  else (with_frames (frames b ++ [mkFrame ev index false]) b, []).

(** [publish(type, message, data)]; [uuid] is the fresh correlation id. *)
Definition publish (b : Bus) (t msg : jsstr) (d : option Payload) (uuid : jsstr) : Bus * list effect :=
  match validateEvent t d with
  | None => (b, [])
  | Some validated =>
      let corr := match d with Some p => match p_correlationId p with Some (c :: s) => c :: s | _ => uuid end | None => uuid end in
      let ev := length (events b) in
      let b := with_events (finalized b) (events b ++ [mkSystemEvent t msg validated corr (match d with Some p => p_fromAudit p | None => None end)]) b in
      match middleware b with
      | _ :: _ => runMiddleware b 0 ev
      | [] => finalizePublish b ev true
      end
  end.

(** A middleware calls the [next] it was given. *)
Definition callNext (b : Bus) (f : nat) : Bus * list effect :=
  match frames b !! f with
  | None => (b, [])
  | Some fr => runMiddleware b (S (f_index fr)) (f_event fr)
  end.

(** The race of a call ends: the middleware is done, or it failed or timed
    out. *)
Definition settle (b : Bus) (f : nat) (failed : bool) : Bus * list effect :=
  match frames b !! f with
  | None => (b, [])
  | Some fr =>
      if f_settled fr then (b, [])
      else
        let b := with_frames (<[f := mkFrame (f_event fr) (f_index fr) true]> (frames b)) b in
        if failed then finalizePublish b (f_event fr) true else (b, [])
  end.

(** A middleware changes the data of an event. *)
Definition mutate (b : Bus) (ev : nat) (d : option Payload) : Bus :=
  match events b !! ev with
  | None => b
  | Some e => with_events (finalized b) (<[ev := mkSystemEvent (type e) (message e) d (correlationId e) (fromAudit e)]> (events b)) b
  end.

(** ** Steps *)

Inductive input :=
| IUse (mw : nat)
| ISubscribe (h : nat)
| IUnsubscribe (h : nat)
| IOn (event : jsstr) (h : nat)
| IShutdown
| IPublish (t msg : jsstr) (d : option Payload) (uuid : jsstr)
| INext (f : nat)
| ISettle (f : nat) (failed : bool)
| IMutate (ev : nat) (d : option Payload).

Definition step (b : Bus) (i : input) : Bus * list effect :=
  match i with
  | IUse mw => (use mw b, [])
  | ISubscribe h => (subscribe h b, [])
  | IUnsubscribe h => (unsubscribe h b, [])
  | IOn event h => (on event h b, [])
  | IShutdown => (shutdown b, [])
  | IPublish t msg d uuid => publish b t msg d uuid
  | INext f => callNext b f
  | ISettle f failed => settle b f failed
  | IMutate ev d => (mutate b ev d, [])
  end.

Fixpoint run (b : Bus) (ins : list input) : Bus * list effect :=
  match ins with
  | [] => (b, [])
  | i :: ins => let '(b', fx) := step b i in let '(b'', fx') := run b' ins in (b'', fx ++ fx')
  end.

(** ** At most one dispatch per event *)

Definition reached (fx : list effect) : list nat := omap (fun f => match f with Reached ev => Some ev | _ => None end) fx.
Definition dispatched (fx : list effect) : list nat :=
  omap (fun f => match f with Dispatched ev _ _ _ _ _ _ => Some ev | _ => None end) fx.

(** A step finalizes no event, or one: with a dispatch unless it was
    finalized before. *)
Definition finalizes (b : Bus) (fx : list effect) (b' : Bus) : Prop :=
  (reached fx = [] /\ dispatched fx = [] /\ finalized b' = finalized b) \/
  exists ev, reached fx = [ev] /\
    if bool_decide (ev ∈ finalized b) then dispatched fx = [] /\ finalized b' = finalized b
    else dispatched fx = [ev] /\ finalized b' = ev :: finalized b.

Lemma finalizePublish_finalizes b0 b ev fallback b' fx : finalized b = finalized b0 ->
  finalizePublish b ev fallback = (b', fx) -> finalizes b0 fx b'.
Proof.
  intros Hf. unfold finalizePublish. destruct (events b !! ev) as [e|]; [|intros; simplify_eq; by left].
  rewrite Hf. intros E. right. exists ev. destruct (bool_decide (ev ∈ finalized b0)); simplify_eq; simpl; by rewrite ?Hf.
Qed.

Lemma runMiddleware_finalizes b0 b index ev b' fx : finalized b = finalized b0 ->
  runMiddleware b index ev = (b', fx) -> finalizes b0 fx b'.
Proof.
  intros Hf. unfold runMiddleware. destruct (_ <=? _)%nat; [by apply finalizePublish_finalizes|].
  intros. simplify_eq. by left.
Qed.

Lemma step_finalizes b i b' fx : step b i = (b', fx) -> finalizes b fx b'.
Proof.
  destruct i; cbn [step]; try (intros; simplify_eq; by left).
  - unfold publish. destruct (validateEvent t d) as [v|]; [|intros; simplify_eq; by left].
    cbn [with_events middleware]. destruct (middleware b); [by apply finalizePublish_finalizes|by apply runMiddleware_finalizes].
  - unfold callNext. destruct (frames b !! f) as [fr|]; [by apply runMiddleware_finalizes|intros; simplify_eq; by left].
  - unfold settle. destruct (frames b !! f) as [fr|]; [|intros; simplify_eq; by left].
    destruct (f_settled fr); [intros; simplify_eq; by left|]. destruct failed; [by apply finalizePublish_finalizes|].
    intros; simplify_eq; by left.
  - unfold mutate. destruct (events b !! ev); intros; simplify_eq; by left.
Qed.

Lemma run_dispatches ins : forall b, dispatched (snd (run b ins)) = uniq_go (finalized b) (reached (snd (run b ins))).
Proof.
  induction ins as [|i ins IH]; intros b; cbn [run]; [done|]. destruct (step b i) as [b1 fx1] eqn:E1.
  specialize (IH b1). destruct (run b1 ins) as [b2 fx2]. cbn [snd] in *. unfold reached, dispatched in *. rewrite !omap_app.
  destruct (step_finalizes _ _ _ _ E1) as [(Hr & Hd & Hf)|(ev & Hr & Hc)]; unfold reached, dispatched in *.
  - rewrite Hr, Hd, <-Hf. done.
  - rewrite Hr. simpl. destruct (bool_decide (ev ∈ finalized b)); destruct Hc as [-> Hf]; rewrite Hf in IH; [done|].
    simpl. by rewrite IH.
Qed.

(** Every event that reaches the end of the middleware chain, or whose
    chain fails or times out anywhere, is dispatched to its handlers exactly
    once, at the first of these moments, however often middleware calls
    [next], before or after it has failed. *)
Theorem dispatched_exactly_once ins :
  dispatched (snd (run new ins)) = uniq (reached (snd (run new ins))) /\ NoDup (dispatched (snd (run new ins))).
Proof. rewrite run_dispatches. split; [done|apply uniq_NoDup]. Qed.

(** ** Registration *)

(** The registrations in order, [None] for handlers of all events. *)
Definition registry : Type := list (option jsstr * nat).

Definition spec_step (r : registry) (i : input) : registry :=
  match i with
  | ISubscribe h => r ++ [(None, h)]
  | IOn event h => r ++ [(Some event, h)]
  | IUnsubscribe h => List.filter (fun e => negb (e.2 =? h)%nat) r
  | IShutdown => []
  | _ => r
  end.

Definition registered (r : registry) (k : option jsstr) : list nat :=
  (List.filter (fun e => bool_decide (e.1 = k)) r).*2.

Definition listeners (b : Bus) (t : jsstr) : list nat := default [] (JsMap.get (keyedListeners b) t).

Record registry_ok (r : registry) (b : Bus) : Prop := mkRegistryOk {
  ro_wf : JsMap.wf (keyedListeners b);
  ro_global : handlers b = registered r None;
  ro_keyed : forall t, listeners b t = registered r (Some t);
}.

Lemma registered_app r k x : registered (r ++ [x]) k = registered r k ++ (if bool_decide (x.1 = k) then [x.2] else []).
Proof. unfold registered. rewrite List.filter_app, fmap_app. simpl. by destruct (bool_decide (x.1 = k)). Qed.

Lemma registered_without r k h : registered (List.filter (fun e => negb (e.2 =? h)%nat) r) k = without h (registered r k).
Proof.
  unfold registered, without. induction r as [|[k' h'] r IH]; simpl; [done|].
  destruct (h' =? h)%nat eqn:Eh; simpl; destruct (bool_decide (k' = k)) eqn:Ek; simpl; rewrite ?Eh; simpl;
    first [exact IH|f_equal; exact IH].
Qed.

Lemma without_same h l : length (without h l) = length l -> without h l = l.
Proof.
  unfold without. induction l as [|x l IH]; simpl; [done|]. destruct (negb (x =? h)%nat); simpl.
  - intros E. f_equal. apply IH. lia.
  - intros E. pose proof (filter_length_le (fun y => negb (y =? h)%nat) l). lia.
Qed.

Lemma dropListener_get h ks entry t : default [] (JsMap.get ks entry.1) = entry.2 ->
  default [] (JsMap.get (dropListener h ks entry) t)
  = if decide (entry.1 = t) then without h entry.2 else default [] (JsMap.get ks t).
Proof.
  intros He. unfold dropListener. destruct (_ =? _)%nat eqn:El.
  - apply Nat.eqb_eq in El. rewrite without_same by done. case_decide; [by subst|done].
  - case_bool_decide as Hn; case_decide as Ht; subst.
    + by rewrite JsMap.get_delete_eq.
    + by rewrite JsMap.get_delete_ne.
    + by rewrite JsMap.get_set_eq.
    + by rewrite JsMap.get_set_ne.
Qed.

Lemma dropListener_wf h ks entry : JsMap.wf ks -> JsMap.wf (dropListener h ks entry).
Proof. intros. unfold dropListener. destruct (_ =? _)%nat; [done|]. case_bool_decide; auto with cts. Qed.

Lemma dropListeners_get h es : forall ks, JsMap.wf es -> JsMap.wf ks ->
  (forall e, e ∈ es -> default [] (JsMap.get ks e.1) = e.2) ->
  JsMap.wf (fold_left (dropListener h) es ks) /\
  forall t, default [] (JsMap.get (fold_left (dropListener h) es ks) t)
    = if JsMap.has es t then without h (default [] (JsMap.get ks t)) else default [] (JsMap.get ks t).
Proof.
  induction es as [|e es IH]; intros ks Hes Hks He; cbn [fold_left]; [done|].
  unfold JsMap.wf, JsMap.keys in Hes. cbn [fmap list_fmap] in Hes. apply NoDup_cons in Hes as [Hnin Hes].
  assert (forall t, default [] (JsMap.get (dropListener h ks e) t)
    = if decide (e.1 = t) then without h e.2 else default [] (JsMap.get ks t)) as Hd.
  { intros t. apply dropListener_get, He. by left. }
  destruct (IH (dropListener h ks e) Hes (dropListener_wf _ _ _ Hks)) as [Hw Hg].
  { intros e' He'. rewrite Hd, decide_False; [apply He; by right|]. intros Ek. apply Hnin. rewrite Ek.
    apply list_elem_of_fmap. by exists e'. }
  split; [done|]. intros t. rewrite Hg, Hd. destruct e as [k l]. cbn [fst snd] in *. unfold JsMap.has. simpl.
  case_decide as Hk; [subst k|done]. rewrite (proj2 (JsMap.get_None es t)); [|done].
  pose proof (He (t, l) ltac:(by left)) as Hl. cbn [fst snd] in Hl. by rewrite Hl.
Qed.

Lemma step_registry r b i b' fx : step b i = (b', fx) -> registry_ok r b -> registry_ok (spec_step r i) b'.
Proof.
  intros E [Hw Hg Hk].
  assert (forall b', handlers b' = handlers b -> keyedListeners b' = keyedListeners b -> registry_ok r b') as Hsame.
  { intros b1 E1 E2. split; unfold listeners; rewrite ?E1, ?E2; done. }
  assert (forall b1 ev fallback b' fx, handlers b1 = handlers b -> keyedListeners b1 = keyedListeners b ->
    finalizePublish b1 ev fallback = (b', fx) -> registry_ok r b') as Hfin.
  { unfold finalizePublish. intros b1 ev fallback b2 fx2 E1 E2. repeat case_match; intros; simplify_eq; by apply Hsame. }
  assert (forall b1 ix ev b' fx, handlers b1 = handlers b -> keyedListeners b1 = keyedListeners b ->
    runMiddleware b1 ix ev = (b', fx) -> registry_ok r b') as Hmw.
  { unfold runMiddleware. intros b1 ix ev b2 fx2 E1 E2. destruct (_ <=? _)%nat; [by apply Hfin|]. intros. simplify_eq. by apply Hsame. }
  destruct i; cbn [step] in E; simplify_eq; cbn [spec_step].
  - by apply Hsame.
  - split; [done|simpl; by rewrite registered_app, Hg|]. intros t. rewrite registered_app, <-Hk.
    rewrite bool_decide_eq_false_2 by done. by rewrite app_nil_r.
  - destruct (dropListeners_get h (keyedListeners b) (keyedListeners b) Hw Hw) as [Hw' Hd].
    { intros e He. destruct e as [k l]. by rewrite (JsMap.elem_get _ _ _ Hw He). }
    split; [done|simpl; by rewrite registered_without, Hg|]. intros t. rewrite registered_without, <-Hk.
    unfold listeners, unsubscribe. cbn [keyedListeners with_registry]. rewrite Hd. unfold JsMap.has.
    by destruct (JsMap.get (keyedListeners b) t).
  - unfold on. set (ks := if JsMap.has _ _ then _ else _).
    assert (JsMap.wf ks /\ forall t, default [] (JsMap.get ks t) = listeners b t) as [Hwk Hgk].
    { unfold ks, JsMap.has, listeners. destruct (JsMap.get (keyedListeners b) event) as [l|] eqn:El; [done|].
      split; [by apply JsMap.wf_set|]. intros t. destruct (decide (event = t)) as [->|Hne].
      - by rewrite JsMap.get_set_eq, El.
      - by rewrite JsMap.get_set_ne. }
    split; [by apply JsMap.wf_set| |].
    + simpl. by rewrite registered_app, bool_decide_eq_false_2, app_nil_r by done.
    + intros t. rewrite registered_app, <-Hk. unfold listeners at 1. cbn [keyedListeners with_registry fst snd].
      destruct (decide (event = t)) as [->|Hne].
      * by rewrite JsMap.get_set_eq, bool_decide_eq_true_2, <-Hgk by done.
      * rewrite JsMap.get_set_ne, bool_decide_eq_false_2, app_nil_r by (done || congruence). apply Hgk.
  - by split; [constructor| |].
  - unfold publish in E. destruct (validateEvent t d); [|simplify_eq; by apply Hsame].
    revert E. cbn [with_events middleware]. destruct (middleware b); [by apply Hfin|by apply Hmw].
  - unfold callNext in E. destruct (frames b !! f); [by eapply Hmw|simplify_eq; by apply Hsame].
  - unfold settle in E. destruct (frames b !! f) as [fr|]; [|simplify_eq; by apply Hsame].
    destruct (f_settled fr); [simplify_eq; by apply Hsame|]. destruct failed; [|simplify_eq; by apply Hsame].
    by eapply Hfin; [| |exact E].
  - apply Hsame; unfold mutate; by destruct (events b !! ev).
Qed.

Lemma run_registry ins : forall r b, registry_ok r b -> registry_ok (fold_left spec_step ins r) (fst (run b ins)).
Proof.
  induction ins as [|i ins IH]; intros r b Hr; cbn [fold_left run]; [done|]. destruct (step b i) as [b1 fx1] eqn:E1.
  specialize (IH _ _ (step_registry _ _ _ _ _ E1 Hr)). by destruct (run b1 ins).
Qed.

Lemma new_registry : registry_ok [] new.
Proof. by split; [constructor| |]. Qed.

(** The payload a handler gets is marked as coming from the bus and carries a
    correlation id. *)
Definition marked (d : option Payload) : Prop :=
  forall p, d = Some p -> p_fromEventBus p = true /\ is_Some (p_correlationId p).

Lemma dispatch_shape b i b' fx ev e d gs ks t a : step b i = (b', fx) -> Dispatched ev e d gs ks t a ∈ fx ->
  gs = handlers b /\ ks = listeners b (type e) /\ marked d.
Proof.
  assert (forall (b1 b' : Bus) fx, (b1, []) = (b', fx) -> Dispatched ev e d gs ks t a ∈ fx ->
    gs = handlers b /\ ks = listeners b (type e) /\ marked d) as Hnil.
  { intros b1 b2 fx2 E Hin. injection E as <- <-. by apply not_elem_of_nil in Hin. }
  assert (forall b1 ev' fallback b' fx, handlers b1 = handlers b -> keyedListeners b1 = keyedListeners b ->
    finalizePublish b1 ev' fallback = (b', fx) -> Dispatched ev e d gs ks t a ∈ fx ->
    gs = handlers b /\ ks = listeners b (type e) /\ marked d) as Hfin.
  { unfold finalizePublish, listeners. intros b1 ev' fallback b2 fx2 E1 E2. destruct (events b1 !! ev') as [e1|]; [|apply Hnil].
    case_bool_decide; intros E Hin; injection E as <- <-.
    - apply list_elem_of_singleton in Hin. discriminate Hin.
    - rewrite !elem_of_cons in Hin. destruct Hin as [|[|[[= -> -> -> -> -> -> ->]|Hin]]]; [done|done| |by apply not_elem_of_nil in Hin].
      cbn [type]. rewrite E1, E2. split_and!; [done|done|]. intros p Hp. apply fmap_Some in Hp as (p0 & _ & ->).
      split; [done|]. simpl. by destruct (p_correlationId p0) as [[]|]. }
  assert (forall b1 ix ev' b' fx, handlers b1 = handlers b -> keyedListeners b1 = keyedListeners b ->
    runMiddleware b1 ix ev' = (b', fx) -> Dispatched ev e d gs ks t a ∈ fx ->
    gs = handlers b /\ ks = listeners b (type e) /\ marked d) as Hmw.
  { unfold runMiddleware. intros b1 ix ev' b2 fx2 E1 E2. destruct (_ <=? _)%nat; [by apply Hfin|apply Hnil]. }
  intros E. destruct i; cbn [step] in E; try (by revert E; apply Hnil).
  - unfold publish in E. destruct (validateEvent _ _); [|by revert E; apply Hnil].
    revert E. cbn [with_events middleware]. destruct (middleware b); [by apply Hfin|by apply Hmw].
  - unfold callNext in E. destruct (frames b !! f); [by eapply Hmw|by revert E; apply Hnil].
  - unfold settle in E. destruct (frames b !! f) as [fr|]; [|by revert E; apply Hnil].
    destruct (f_settled fr); [by revert E; apply Hnil|]. destruct failed; [|by revert E; apply Hnil].
    by eapply Hfin; [| |exact E].
Qed.

(** An event is handed to the handlers registered at the moment of its
    dispatch, in the order of registration: those subscribed to everything
    and those of its type, less the ones unsubscribed or dropped by a
    shutdown since; its payload is marked and carries a correlation id. *)
Theorem dispatched_to_registered pre i ev e d gs ks t a :
  Dispatched ev e d gs ks t a ∈ snd (step (fst (run new pre)) i) ->
  let r := fold_left spec_step pre [] in
  gs = registered r None /\ ks = registered r (Some (type e)) /\ marked d.
Proof.
  destruct (step (fst (run new pre)) i) as [b' fx] eqn:E. intros Hin.
  destruct (dispatch_shape _ _ _ _ _ _ _ _ _ _ _ E Hin) as (-> & -> & Hm).
  destruct (run_registry pre [] new new_registry) as [_ Hg Hk]. by rewrite Hg, Hk.
Qed.

(** ** Delivery *)

Lemma insert_bound (l : list SystemEvent) i e : length (<[i := e]> l) = length l.
Proof. apply length_insert. Qed.

Lemma step_known b i b' fx : step b i = (b', fx) -> Forall (fun ev => ev < length (events b))%nat (finalized b) ->
  Forall (fun ev => ev < length (events b'))%nat (finalized b').
Proof.
  assert (forall b1 ev fallback b' fx, Forall (fun ev => ev < length (events b1))%nat (finalized b1) ->
    finalizePublish b1 ev fallback = (b', fx) -> Forall (fun ev => ev < length (events b'))%nat (finalized b')) as Hfin.
  { unfold finalizePublish. intros b1 ev fallback b2 fx2 F E. destruct (events b1 !! ev) as [e1|] eqn:He; [|by simplify_eq].
    destruct (bool_decide _); simplify_eq; [done|]. simpl. rewrite insert_bound. constructor; [by eapply lookup_lt_Some|done]. }
  assert (forall b1 ix ev b' fx, Forall (fun ev => ev < length (events b1))%nat (finalized b1) ->
    runMiddleware b1 ix ev = (b', fx) -> Forall (fun ev => ev < length (events b'))%nat (finalized b')) as Hmw.
  { unfold runMiddleware. intros b1 ix ev b2 fx2 F. destruct (_ <=? _)%nat; [by apply Hfin|]. intros. by simplify_eq. }
  intros E F. destruct i; cbn [step] in E; try (by simplify_eq).
  - unfold publish in E. destruct (validateEvent _ _); [|by simplify_eq].
    assert (forall x, Forall (fun ev => ev < length (events b ++ [x]))%nat (finalized b)) as F'.
    { intros x. eapply Forall_impl; [exact F|]. intros ev Hev. rewrite length_app. simpl in *. lia. }
    revert E. cbn [with_events middleware]. destruct (middleware b); [apply Hfin, F'|apply Hmw, F'].
  - unfold callNext in E. destruct (frames b !! f); [by eapply Hmw|by simplify_eq].
  - unfold settle in E. repeat case_match; simplify_eq; try done. eapply Hfin; [|eassumption]. done.
  - simplify_eq. unfold mutate. destruct (events b !! ev); [|done]. simpl. by rewrite insert_bound.
Qed.

Lemma run_known ins : forall b, Forall (fun ev => ev < length (events b))%nat (finalized b) ->
  Forall (fun ev => ev < length (events (fst (run b ins))))%nat (finalized (fst (run b ins))).
Proof.
  induction ins as [|i ins IH]; intros b F; cbn [run]; [done|]. destruct (step b i) as [b1 fx1] eqn:E1.
  specialize (IH b1 (step_known _ _ _ _ E1 F)). by destruct (run b1 ins).
Qed.

(** Middleware calls [k] to the end, each calling [next] once. *)
Lemma chain_runs n : forall b ev k, (k + n = length (middleware b))%nat -> (0 < n)%nat ->
  frames b !! (length (frames b) - 1)%nat = Some (mkFrame ev k false) -> is_Some (events b !! ev) -> ev ∉ finalized b ->
  dispatched (snd (run b (map INext (seq (length (frames b) - 1) n)))) = [ev].
Proof.
  induction n as [|n IH]; intros b ev k Hk Hn Hf [e He] Hfin; [lia|]. cbn [seq map run step]. unfold callNext. rewrite Hf.
  cbn [f_index f_event]. unfold runMiddleware. destruct (Nat.leb_spec (length (middleware b)) (S k)).
  - assert (n = 0%nat) as -> by lia. unfold finalizePublish. rewrite He, bool_decide_eq_false_2 by done. done.
  - assert (0 < length (frames b))%nat by (apply lookup_lt_Some in Hf; lia).
    specialize (IH (with_frames (frames b ++ [mkFrame ev (S k) false]) b) ev (S k)).
    cbn [frames middleware events finalized with_frames] in IH. rewrite length_app in IH. cbn [length] in IH.
    replace (length (frames b) + 1 - 1)%nat with (length (frames b)) in IH by lia.
    replace (S (length (frames b) - 1))%nat with (length (frames b)) by lia.
    rewrite lookup_app_r, Nat.sub_diag in IH by lia. specialize (IH ltac:(lia) ltac:(lia) eq_refl ltac:(by eexists) Hfin).
    by destruct (run _ _).
Qed.

(** Delivery through a cooperating chain: in any state of the bus, an event
    whose payload is valid and for which every middleware calls [next] once is
    dispatched. *)
Theorem chain_delivers pre t msg d uuid v :
  validateEvent t d = Some v ->
  let b := fst (run new pre) in
  dispatched (snd (run b (IPublish t msg d uuid :: map INext (seq (length (frames b)) (length (middleware b))))))
  = [length (events b)].
Proof.
  intros Hv b. cbn [run step]. unfold publish. rewrite Hv. cbn [with_events middleware].
  assert (length (events b) ∉ finalized b) as Hfresh.
  { intros Hin. pose proof (run_known pre new ltac:(constructor)) as F. rewrite Forall_forall in F. specialize (F _ Hin). fold b in F. lia. }
  clearbody b. set (e := mkSystemEvent _ _ _ _ _). assert ((events b ++ [e]) !! length (events b) = Some e) as He.
  { by rewrite lookup_app_r, Nat.sub_diag by lia. }
  destruct (middleware b) as [|m ms] eqn:Em.
  - unfold finalizePublish. cbn [events with_events finalized]. rewrite He, bool_decide_eq_false_2 by done. done.
  - unfold runMiddleware. cbn [middleware with_events]. rewrite Em. cbn [length Nat.leb].
    pose proof (chain_runs (S (length ms)) (with_frames (frames b ++ [mkFrame (length (events b)) 0 false]) (with_events (finalized b) (events b ++ [e]) b)) (length (events b)) 0) as R.
    cbn [frames middleware events finalized with_frames with_events] in R. rewrite length_app, Em in R. cbn [length] in R.
    replace (length (frames b) + 1 - 1)%nat with (length (frames b)) in R by lia.
    rewrite lookup_app_r, Nat.sub_diag in R by lia. specialize (R eq_refl ltac:(lia) eq_refl ltac:(by eexists) Hfresh).
    cbn [seq map frames with_events] in *. destruct (run _ _). exact R.
Qed.
End bus.

(** A bus with one middleware and two handlers; payloads without a body. *)
Definition accept_all (_ : jsstr) (d : option (Payload (Body := unit))) : option (option Payload) := Some d.
Definition setup0 : list (input (Body := unit)) := [IUse 0; ISubscribe 1; IOn (js "THREAT") 2; IUnsubscribe 1].
Definition threat0 : SystemEvent (Body := unit) := mkSystemEvent (js "THREAT") (js "m") None (js "id") None.

Lemma dispatched_to_registered_witness :
  let r := fold_left spec_step (setup0 ++ [IPublish (js "THREAT") (js "m") None (js "id")]) [] in
  ([] : list nat) = registered r None /\ [2%nat] = registered r (Some (js "THREAT")) /\ marked (Body := unit) None.
Proof.
  apply (dispatched_to_registered tt accept_all (setup0 ++ [IPublish (js "THREAT") (js "m") None (js "id")])
    (INext 0) 0 threat0 None [] [2%nat] 1000 true).
  vm_compute. right. right. left.
Defined.

Lemma chain_delivers_witness :
  let b := fst (run tt accept_all new setup0) in
  dispatched (snd (run tt accept_all b (IPublish (js "THREAT") (js "m") None (js "id") :: map INext (seq (length (frames b)) (length (middleware b))))))
  = [length (events b)].
Proof. apply (chain_delivers tt accept_all setup0 (js "THREAT") (js "m") None (js "id") None). reflexivity. Defined.
End EventBus.
