(* ===== verification/Cidr.v ===== *)
(** * Subnet gating of mesh peers

    Models [isIpAllowed], [ipInCidr] and [ipToLong] of
    [src/orchestrator/domain/orchestration/mesh.ts]: IPv4 arithmetic on
    JavaScript's signed 32-bit integers, shift counts taken modulo 32.  The
    numbers JavaScript reads from texts other than digit strings ([Number("0x1")],
    [Number("1e3")], ...) are a parameter. *)

From S2P Require Import Prelude JsString Net.

Module Cidr.
Import JsString Net.

(** A value as a signed 32-bit integer. *)
Definition toInt32 (z : Z) : Z := (z + 2 ^ 31) mod 2 ^ 32 - 2 ^ 31.

(** [a << n] *)
Definition shiftLeft (a n : Z) : Z := toInt32 (Z.shiftl (toInt32 a) (n mod 32)).

Definition is_space (c : Z) : bool :=
  ((9 <=? c) && (c <=? 13)) || (c =? 32) || (c =? 160) || (c =? 0x1680) || ((0x2000 <=? c) && (c <=? 0x200a))
  || (c =? 0x2028) || (c =? 0x2029) || (c =? 0x202f) || (c =? 0x205f) || (c =? 0x3000) || (c =? 0xfeff).

Fixpoint trimStart (s : jsstr) : jsstr :=
  match s with c :: t => if is_space c then trimStart t else s | [] => [] end.

Definition trim (s : jsstr) : jsstr := rev (trimStart (rev (trimStart s))).

Fixpoint digitPrefix (s : jsstr) : jsstr :=
  match s with c :: t => if is_digit c then c :: digitPrefix t else [] | [] => [] end.

(** [parseInt(s, 10)]; no value is [NaN]. *)
Definition parseInt (s : jsstr) : option Z :=
  let '(sign, t) := match trimStart s with
                    | 45 :: t => (-1, t)
                    | 43 :: t => (1, t)
                    | t => (1, t)
                    end in
  match digitPrefix t with [] => None | ds => Some (sign * parse_base 10 ds) end.

Section cidr.
(** [Number(s)] as a 32-bit integer, for a text that is not a digit string. *)
Context (otherNumber : jsstr -> Z).

Definition numberToInt32 (part : option jsstr) : Z :=
  match part with
  | None => 0
  | Some s => if all_digits s then toInt32 (parse_base 10 s) else toInt32 (otherNumber s)
  end.

Definition ipToLong (ip : jsstr) : Z :=
  let parts := split ip (js ".") in
  let part i := numberToInt32 (parts !! i) in
  Z.lor (Z.lor (Z.lor (shiftLeft (part 0%nat) 24) (shiftLeft (part 1%nat) 16)) (shiftLeft (part 2%nat) 8)) (part 3%nat).

Definition ipInCidr (ip cidr : jsstr) : bool :=
  let parts := split cidr (js "/") in
  let range := default [] (parts !! 0%nat) in
  let bits := parseInt (default (js "undefined") (parts !! 1%nat)) in
  let mask := shiftLeft (-1) (match bits with Some n => 32 - n | None => 0 end) in
  Z.land (ipToLong ip) mask =? Z.land (ipToLong range) mask.

Definition isIpAllowed (ip allowedRanges : jsstr) : bool :=
  existsb (fun range => if includes range (js "/") then ipInCidr ip range else bool_decide (ip = range))
    (map trim (split allowedRanges (js ","))).

(** ** Exactness on IPv4 *)

Definition addr (a b c d : Z) : Z := a * 2 ^ 24 + b * 2 ^ 16 + c * 2 ^ 8 + d.

Lemma toInt32_range z : - 2 ^ 31 <= toInt32 z < 2 ^ 31.
Proof. unfold toInt32. pose proof (Z.mod_pos_bound (z + 2 ^ 31) (2 ^ 32) ltac:(lia)). lia. Qed.

Lemma toInt32_small z : - 2 ^ 31 <= z < 2 ^ 31 -> toInt32 z = z.
Proof. intros Hz. unfold toInt32. rewrite Z.mod_small; lia. Qed.

Lemma toInt32_wrap z : exists k, toInt32 z = z + k * 2 ^ 32.
Proof.
  exists (- ((z + 2 ^ 31) / 2 ^ 32)). unfold toInt32. pose proof (Z.div_mod (z + 2 ^ 31) (2 ^ 32) ltac:(lia)). lia.
Qed.

(** The 32-bit value of an unsigned one: itself, or less 2^32. *)
Lemma toInt32_unsigned u : 0 <= u < 2 ^ 32 -> toInt32 u = if u <? 2 ^ 31 then u else u - 2 ^ 32.
Proof.
  intros Hu. unfold toInt32. destruct (Z.ltb_spec u (2 ^ 31)).
  - rewrite Z.mod_small; lia.
  - replace (u + 2 ^ 31) with ((u - 2 ^ 31) + 1 * 2 ^ 32) by lia. rewrite Z.mod_add, Z.mod_small; lia.
Qed.

Lemma shiftLeft_octet a k : 0 <= a < 256 -> 0 <= k <= 24 -> shiftLeft a k = toInt32 (a * 2 ^ k).
Proof.
  intros Ha Hk. unfold shiftLeft. rewrite (toInt32_small a) by lia. rewrite Z.mod_small by lia. by rewrite Z.shiftl_mul_pow2 by lia.
Qed.

Lemma octet_bound a k : 0 <= a < 256 -> 0 <= k -> 0 <= a * 2 ^ k < 2 ^ (8 + k).
Proof.
  intros Ha Hk. rewrite Z.pow_add_r by lia. assert (0 < 2 ^ k) by (apply Z.pow_pos_nonneg; lia). change (2 ^ 8) with 256. nia.
Qed.

Lemma ipToLong_quad a b c d : 0 <= a < 256 -> 0 <= b < 256 -> 0 <= c < 256 -> 0 <= d < 256 ->
  ipToLong (decimal_quad a b c d) = toInt32 (addr a b c d).
Proof.
  intros Ha Hb Hc Hd. unfold ipToLong. rewrite (split_decimal_quad a b c d) by done. cbn [lookup list_lookup].
  assert (forall n, 0 <= n < 256 -> numberToInt32 (Some (decimal n)) = n) as Hn.
  { intros n Hn. destruct (decimal_ok n Hn) as [Hd1 Hd2]. unfold numberToInt32. rewrite Hd1.
    unfold Number in Hd2. rewrite Hd2. apply toInt32_small. lia. }
  rewrite !Hn, !shiftLeft_octet by lia. unfold addr.
  rewrite (toInt32_small (b * 2 ^ 16)), (toInt32_small (c * 2 ^ 8)) by lia.
  assert (exists q, toInt32 (a * 2 ^ 24) = q * 2 ^ 24 /\ toInt32 (a * 2 ^ 24 + b * 2 ^ 16 + c * 2 ^ 8 + d)
    = toInt32 (a * 2 ^ 24) + b * 2 ^ 16 + c * 2 ^ 8 + d) as (q & Hq & ->).
  { rewrite !toInt32_unsigned by lia. destruct (Z.ltb_spec (a * 2 ^ 24) (2 ^ 31)).
    - exists a. split; [done|]. destruct (Z.ltb_spec (a * 2 ^ 24 + b * 2 ^ 16 + c * 2 ^ 8 + d) (2 ^ 31)); lia.
    - exists (a - 256). split; [lia|]. destruct (Z.ltb_spec (a * 2 ^ 24 + b * 2 ^ 16 + c * 2 ^ 8 + d) (2 ^ 31)); lia. }
  rewrite Hq. rewrite (lor_disjoint (q * 2 ^ 24) _ 24) by (try (by exists q); lia).
  rewrite (lor_disjoint _ (c * 2 ^ 8) 16); [|lia|lia|exists (q * 256 + b); lia].
  apply (lor_disjoint _ d 8); [lia|lia|]. exists (q * 65536 + b * 256 + c). lia.
Qed.

Lemma mask_value k : 0 <= k < 32 -> shiftLeft (-1) k = - 2 ^ k.
Proof.
  intros Hk. unfold shiftLeft. rewrite (toInt32_small (-1)) by lia. rewrite Z.mod_small by lia.
  rewrite Z.shiftl_mul_pow2 by lia. assert (0 < 2 ^ k) by (apply Z.pow_pos_nonneg; lia).
  assert (2 ^ k <= 2 ^ 31) by (apply Z.pow_le_mono_r; lia). rewrite toInt32_small by lia. lia.
Qed.

Lemma land_mask_div x k : 0 <= k -> Z.land x (- 2 ^ k) = x / 2 ^ k * 2 ^ k.
Proof.
  intros Hk. assert (- 2 ^ k = Z.lnot (Z.ones k)) as -> by (rewrite Z.ones_equiv; unfold Z.lnot; lia).
  change (Z.land x (Z.lnot (Z.ones k))) with (Z.land x (Z.lnot (Z.ones k))). rewrite <-Z.ldiff_land, Z.ldiff_ones_r by done.
  by rewrite Z.shiftl_mul_pow2, Z.shiftr_div_pow2 by done.
Qed.

Lemma same_prefix u v k : 0 <= u < 2 ^ 32 -> 0 <= v < 2 ^ 32 -> 0 <= k <= 31 ->
  (Z.land (toInt32 u) (- 2 ^ k) =? Z.land (toInt32 v) (- 2 ^ k)) = (u / 2 ^ k =? v / 2 ^ k).
Proof.
  intros Hu Hv Hk. rewrite !land_mask_div by lia. assert (0 < 2 ^ k) as Hp by (apply Z.pow_pos_nonneg; lia).
  assert (2 ^ 31 = 2 ^ (31 - k) * 2 ^ k) as E31 by (rewrite <-Z.pow_add_r by lia; f_equal; lia).
  assert (2 ^ k * (2 * 2 ^ (31 - k)) = 2 ^ 32) as E32 by (change (2 ^ 32) with (2 * 2 ^ 31); rewrite E31; ring).
  assert (0 < 2 ^ (31 - k)) as Hq by (apply Z.pow_pos_nonneg; lia).
  assert (forall w, 0 <= w < 2 ^ 32 -> toInt32 w / 2 ^ k = w / 2 ^ k - (if w <? 2 ^ 31 then 0 else 2 * 2 ^ (31 - k))) as Hd.
  { intros w Hw. rewrite toInt32_unsigned by done. destruct (w <? 2 ^ 31); [lia|].
    replace (w - 2 ^ 32) with (w + (- (2 * 2 ^ (31 - k))) * 2 ^ k) by (rewrite <-E32; ring). rewrite Z.div_add by lia. lia. }
  assert (forall w, 0 <= w < 2 ^ 32 -> (w < 2 ^ 31 <-> w / 2 ^ k < 2 ^ (31 - k))) as Ht.
  { intros w Hw. rewrite E31. rewrite Z.mul_comm. split; [intros; by apply Z.div_lt_upper_bound|].
    intros Hlt. pose proof (Z.mul_succ_div_gt w (2 ^ k) Hp). nia. }
  rewrite !Hd by done. pose proof (Ht u Hu). pose proof (Ht v Hv).
  assert (u / 2 ^ k < 2 * 2 ^ (31 - k)) by (apply Z.div_lt_upper_bound; [done|rewrite E32; lia]).
  assert (v / 2 ^ k < 2 * 2 ^ (31 - k)) by (apply Z.div_lt_upper_bound; [done|rewrite E32; lia]).
  pose proof (Z.div_pos u (2 ^ k) ltac:(lia) Hp). pose proof (Z.div_pos v (2 ^ k) ltac:(lia) Hp).
  destruct (Z.eqb_spec (u / 2 ^ k) (v / 2 ^ k)) as [Euv|Hne].
  - apply Z.eqb_eq. f_equal. destruct (Z.ltb_spec u (2 ^ 31)), (Z.ltb_spec v (2 ^ 31)); lia.
  - apply Z.eqb_neq. intros E. apply Z.mul_reg_r in E; [|lia].
    destruct (Z.ltb_spec u (2 ^ 31)), (Z.ltb_spec v (2 ^ 31)); lia.
Qed.

Lemma parseInt_decimal n : 0 <= n < 256 -> parseInt (decimal n) = Some n.
Proof.
  intros Hn. destruct (decimal_ok n Hn) as [[Hne Hd]%all_digits_spec Hv]. unfold Number in Hv.
  assert (trimStart (decimal n) = decimal n /\ digitPrefix (decimal n) = decimal n) as [Ht Hp].
  { clear Hv. revert Hne Hd. generalize (decimal n). intros s Hne Hd. split.
    - destruct s as [|c s]; [done|]. apply Forall_cons in Hd as [Hc _]. unfold is_digit in Hc. simpl.
      assert (is_space c = false) as ->; [|done]. unfold is_space. rewrite !orb_false_iff, !andb_false_iff. lia.
    - clear Hne. induction Hd as [|c s Hc Hd IH]; simpl; [done|]. by rewrite Hc, IH. }
  unfold parseInt. rewrite Ht. destruct (decimal n) as [|c s] eqn:E; [done|].
  apply Forall_cons in Hd as [Hc _]. unfold is_digit in Hc.
  assert (match c :: s with 45 :: t => (-1, t) | 43 :: t => (1, t) | t => (1, t) end = (1, c :: s)) as ->.
  { destruct (decide (c = 45)) as [->|]; [done|]. destruct (decide (c = 43)) as [->|]; [done|].
    do 7 (destruct c as [|c|c]; try lia; try done). }
  rewrite Hp. f_equal. lia.
Qed.

Lemma quad_no_slash a b c d : 0 <= a < 256 -> 0 <= b < 256 -> 0 <= c < 256 -> 0 <= d < 256 -> 47 ∉ decimal_quad a b c d.
Proof.
  intros Ha Hb Hc Hd Hin. unfold decimal_quad, quad in Hin. apply (join_elem 46) in Hin as [|(p & Hp & Hin)]; [done|].
  assert (all_digits p = true) as Hdg.
  { rewrite !elem_of_cons in Hp. destruct Hp as [->|[->|[->|[->|Hp]]]]; [by apply decimal_ok..|by apply not_elem_of_nil in Hp]. }
  by apply (digits_no 47 p eq_refl Hdg).
Qed.

(** The subnet test is exact for prefix lengths from 1 to 32: an IPv4
    address is in the range exactly when its leading bits are the range's,
    also where the 32-bit integers are negative.  A length of 0 is read as
    32: the shift count 32 is taken modulo 32, so that 0.0.0.0/0 admits only
    0.0.0.0. *)
Theorem cidr_exact a b c d e f g h bits :
  0 <= a < 256 -> 0 <= b < 256 -> 0 <= c < 256 -> 0 <= d < 256 ->
  0 <= e < 256 -> 0 <= f < 256 -> 0 <= g < 256 -> 0 <= h < 256 -> 0 <= bits <= 32 ->
  ipInCidr (decimal_quad a b c d) (decimal_quad e f g h ++ js "/" ++ decimal bits)
  = let k := if bits =? 0 then 0 else 32 - bits in addr a b c d / 2 ^ k =? addr e f g h / 2 ^ k.
Proof.
  intros Ha Hb Hc Hd He Hf Hg Hh Hbits. unfold ipInCidr.
  change (decimal_quad e f g h ++ js "/" ++ decimal bits) with (join [47] [decimal_quad e f g h; decimal bits]).
  rewrite split_join_char; [|done|].
  2:{ repeat constructor; [by apply quad_no_slash|]. destruct (decimal_ok bits ltac:(lia)) as [Hdg _]. by apply digits_no. }
  unfold default, id. cbn [lookup list_lookup]. cbv beta. rewrite parseInt_decimal by lia. rewrite !ipToLong_quad by done.
  assert (shiftLeft (-1) (32 - bits) = - 2 ^ (if bits =? 0 then 0 else 32 - bits)) as ->.
  { destruct (Z.eqb_spec bits 0) as [->|]; [done|]. apply mask_value. lia. }
  apply same_prefix; unfold addr; [lia|lia|]. destruct (Z.eqb_spec bits 0); lia.
Qed.
End cidr.

Lemma cidr_exact_witness :
  ipInCidr (fun _ => 0) (decimal_quad 203 0 113 7) (decimal_quad 0 0 0 0 ++ js "/" ++ decimal 0) = false.
Proof. rewrite cidr_exact by lia. reflexivity. Defined.
End Cidr.
