(* ===== verification/Base64.v ===== *)
(** * Base64 texts

    The runtime's [btoa] and [atob] (the forgiving decoder of the WHATWG
    specification), as [crypto_utils.ts] and [mesh_auth.ts] use them on binary
    strings: strings whose code units are bytes. *)

From S2P Require Import Prelude JsString.

Module Base64.
Import JsString.

Definition alphabet : jsstr := js "ABCDEFGHIJKLMNOPQRSTUVWXYZabcdefghijklmnopqrstuvwxyz0123456789+/".

Definition char_of (n : Z) : Z := default 0 (alphabet !! Z.to_nat n).

Fixpoint index_in (c : Z) (l : jsstr) (i : Z) : option Z :=
  match l with [] => None | x :: l => if x =? c then Some i else index_in c l (i + 1) end.

Definition value_of (c : Z) : option Z := index_in c alphabet 0.

(** [btoa(bytes)] *)
Fixpoint btoa (bytes : list Z) : jsstr :=
  match bytes with
  | [] => []
  | [a] => [char_of (a / 4); char_of (a mod 4 * 16); 61; 61]
  | [a; b] => [char_of (a / 4); char_of (a mod 4 * 16 + b / 16); char_of (b mod 16 * 4); 61]
  | a :: b :: c :: bytes =>
      char_of (a / 4) :: char_of (a mod 4 * 16 + b / 16) :: char_of (b mod 16 * 4 + c / 64) :: char_of (c mod 64) :: btoa bytes
  end.

Fixpoint sextets (s : jsstr) : option (list Z) :=
  match s with
  | [] => Some []
  | c :: s => match value_of c, sextets s with Some v, Some vs => Some (v :: vs) | _, _ => None end
  end.

Fixpoint unpack (vs : list Z) : option (list Z) :=
  match vs with
  | [] => Some []
  | [_] => None
  | [a; b] => Some [a * 4 + b / 16]
  | [a; b; c] => Some [a * 4 + b / 16; b mod 16 * 16 + c / 4]
  | a :: b :: c :: d :: vs =>
      match unpack vs with
      | Some bytes => Some (a * 4 + b / 16 :: b mod 16 * 16 + c / 4 :: c mod 4 * 64 + d :: bytes)
      | None => None
      end
  end.

Definition is_ascii_space (c : Z) : bool := (c =? 9) || (c =? 10) || (c =? 12) || (c =? 13) || (c =? 32).

(** Up to two padding characters, when the length is a multiple of four. *)
Definition stripPadding (s : jsstr) : jsstr :=
  if (length s mod 4 =? 0)%nat then
    match rev s with
    | x :: t =>
        if x =? 61 then match t with y :: r => if y =? 61 then rev r else rev t | [] => [] end
        else s
    | [] => s
    end
  else s.

(** [atob(s)]; no value is an exception. *)
Definition atob (s : jsstr) : option (list Z) :=
  match sextets (stripPadding (List.filter (fun c => negb (is_ascii_space c)) s)) with
  | Some vs => unpack vs
  | None => None
  end.

(** ** Decoding inverts encoding *)

Definition bytes_ok (bs : list Z) : Prop := Forall (fun b => 0 <= b < 256) bs.

(** The sextets of the encoding, without the padding. *)
Fixpoint pack (bytes : list Z) : list Z :=
  match bytes with
  | [] => []
  | [a] => [a / 4; a mod 4 * 16]
  | [a; b] => [a / 4; a mod 4 * 16 + b / 16; b mod 16 * 4]
  | a :: b :: c :: bytes => a / 4 :: a mod 4 * 16 + b / 16 :: b mod 16 * 4 + c / 64 :: c mod 64 :: pack bytes
  end.

Definition padding (bytes : list Z) : jsstr :=
  match (length bytes mod 3)%nat with 1%nat => [61; 61] | 2%nat => [61] | _ => [] end.

Lemma three_ind (P : list Z -> Prop) : P [] -> (forall a, P [a]) -> (forall a b, P [a; b]) ->
  (forall a b c l, P l -> P (a :: b :: c :: l)) -> forall l, P l.
Proof.
  intros H0 H1 H2 H3. assert (forall n l, (length l <= n)%nat -> P l) as L; [|intros l; by apply (L (length l))].
  induction n as [|n IH]; intros l Hl; [destruct l; [done|simpl in Hl; lia]|].
  destruct l as [|a [|b [|c l]]]; [done..|]. apply H3, IH. simpl in Hl. lia.
Qed.

Lemma padding_step a b c l : padding (a :: b :: c :: l) = padding l.
Proof.
  unfold padding. cbn [length]. replace (S (S (S (length l)))) with (length l + 1 * 3)%nat by lia.
  by rewrite Nat.Div0.mod_add.
Qed.

Lemma btoa_pack bs : btoa bs = map char_of (pack bs) ++ padding bs.
Proof.
  induction bs as [|a|a b|a b c l IH] using three_ind; [done..|]. rewrite padding_step. simpl. by rewrite IH.
Qed.

Lemma pack_range bs : bytes_ok bs -> Forall (fun v => 0 <= v < 64) (pack bs).
Proof.
  unfold bytes_ok. induction bs as [|a|a b|a b c l IH] using three_ind; intros Hb;
    repeat match goal with H : Forall _ (_ :: _) |- _ => apply Forall_cons in H as [? ?] end;
    repeat (apply Forall_cons_2 || apply Forall_nil_2 || (apply IH; assumption)); cbv beta in *; Z.div_mod_to_equations; lia.
Qed.

Lemma unpack_pack bs : bytes_ok bs -> unpack (pack bs) = Some bs.
Proof.
  unfold bytes_ok. induction bs as [|a|a b|a b c l IH] using three_ind; intros Hb;
    repeat match goal with H : Forall _ (_ :: _) |- _ => apply Forall_cons in H as [? ?] end; cbv beta in *; cbn [pack unpack].
  - done.
  - f_equal. f_equal. Z.div_mod_to_equations. lia.
  - repeat f_equal; Z.div_mod_to_equations; lia.
  - rewrite IH by done. repeat f_equal; Z.div_mod_to_equations; lia.
Qed.

Definition alphabet_ok : bool :=
  forallb (fun n => let c := char_of (Z.of_nat n) in
     match value_of c with Some v => v =? Z.of_nat n | None => false end && negb (is_ascii_space c) && negb (c =? 61)) (seq 0 64).

Lemma char_facts n : 0 <= n < 64 -> value_of (char_of n) = Some n /\ is_ascii_space (char_of n) = false /\ char_of n <> 61.
Proof.
  intros Hn. assert (alphabet_ok = true) as Ha by (vm_compute; reflexivity).
  unfold alphabet_ok in Ha. rewrite forallb_forall in Ha. specialize (Ha (Z.to_nat n)).
  rewrite Z2Nat.id in Ha by lia. specialize (Ha ltac:(apply in_seq; lia)). cbv zeta in Ha.
  destruct (value_of (char_of n)) as [v|]; [|done]. apply andb_true_iff in Ha as [[Hv Hs]%andb_true_iff Hp].
  apply Z.eqb_eq in Hv. apply negb_true_iff in Hs, Hp. apply Z.eqb_neq in Hp. by subst.
Qed.

Lemma sextets_chars vs : Forall (fun v => 0 <= v < 64) vs -> sextets (map char_of vs) = Some vs.
Proof. induction 1 as [|v vs Hv _ IH]; simpl; [done|]. by rewrite (proj1 (char_facts v Hv)), IH. Qed.

Lemma no_space bs : bytes_ok bs -> List.filter (fun c => negb (is_ascii_space c)) (btoa bs) = btoa bs.
Proof.
  intros Hb%pack_range. rewrite btoa_pack, List.filter_app. f_equal.
  - induction Hb as [|v vs Hv _ IH]; simpl; [done|]. destruct (char_facts v Hv) as (_ & -> & _). simpl. by rewrite IH.
  - unfold padding. by destruct (length bs mod 3)%nat as [|[|[]]].
Qed.

Lemma length_btoa bs : (length (btoa bs) mod 4 = 0)%nat.
Proof.
  induction bs as [|a|a b|a b c l IH] using three_ind; [done..|]. cbn [btoa length].
  replace (S (S (S (S (length (btoa l)))))) with (length (btoa l) + 1 * 4)%nat by lia. by rewrite Nat.Div0.mod_add.
Qed.

Lemma strip_btoa bs : bytes_ok bs -> stripPadding (btoa bs) = map char_of (pack bs).
Proof.
  intros Hb. unfold stripPadding. rewrite length_btoa. cbn [Nat.eqb]. rewrite btoa_pack, rev_app_distr.
  assert (forall v r, rev (map char_of (pack bs)) = v :: r -> v <> 61) as Hlast.
  { intros v r E. assert (In v (map char_of (pack bs))) as Hin by (apply in_rev; rewrite E; by left).
    apply in_map_iff in Hin as (n & <- & Hn). apply char_facts. pose proof (pack_range bs Hb) as F.
    rewrite List.Forall_forall in F. by apply F. }
  assert (rev (rev (map char_of (pack bs))) = map char_of (pack bs)) as Hrr by apply rev_involutive.
  set (m := map char_of (pack bs)) in *. clearbody m.
  unfold padding. destruct (length bs mod 3)%nat as [|[|[|n]]]; cbn [rev app]; rewrite ?app_nil_r, ?Z.eqb_refl; [|exact Hrr|..];
    (destruct (rev m) as [|v r] eqn:E; [by rewrite <-Hrr|]);
    rewrite (proj2 (Z.eqb_neq v 61) (Hlast v r eq_refl)); done.
Qed.

(** Decoding gives the encoded bytes back. *)
Lemma atob_btoa bs : bytes_ok bs -> atob (btoa bs) = Some bs.
Proof.
  intros Hb. unfold atob. rewrite no_space, strip_btoa, sextets_chars by auto using pack_range. by apply unpack_pack.
Qed.
End Base64.
