(* ===== verification/Mesh.v ===== *)
(** * The mesh manager

    Models [src/orchestrator/domain/orchestration/mesh.ts], class
    [MeshManager]: announcements, the handshake that admits a peer, the table
    of peers, signatures, approvals and the detection of a split mesh; and
    [signPayload]/[verifySignature] of [core/crypto_utils.ts].  The handshake
    is split at its request, so that everything else may happen before the
    answer arrives.  HMAC, SHA-256, the trust root's signing service, the clock
    and the answers of peers are parameters and inputs; gossip and quorum sagas
    are in [Gossip] and [Consensus]. *)

From S2P Require Import Prelude Result JsMap JsString Net Cidr Base64 Canonical.

Module Mesh.
Import JsString Canonical.
(** ** Split mesh *)

(** The votes for the heads that the peers report. *)
Fixpoint tally (roots : list (jsstr * Z)) (reports : list (option jsstr)) : list (jsstr * Z) :=
  match reports with
  | [] => roots
  | None :: reports => tally roots reports
  | Some r :: reports => tally (JsMap.set roots r (default 0 (JsMap.get roots r) + 1)) reports
  end.

Definition splitThreshold (N : Z) : Z := if 4 <=? N then 2 * N / 3 + 1 else N / 2 + 1.

Fixpoint findMajority (threshold : Z) (selfHash : jsstr) (roots : list (jsstr * Z)) : option jsstr :=
  match roots with
  | [] => None
  | (root, votes) :: roots =>
      if threshold <=? votes + (if bool_decide (root = selfHash) then 1 else 0) then Some root
      else findMajority threshold selfHash roots
  end.

(** The head [resolveSplitBrain] takes for the mesh's, from one report (or
    none) of every verified peer. *)
Definition majorityRoot (selfHash : jsstr) (reports : list (option jsstr)) : option jsstr :=
  findMajority (splitThreshold (Z.of_nat (length reports) + 1)) selfHash (tally [] reports).

(** ** The majority of heads *)

Definition votes (reports : list (option jsstr)) (r : jsstr) : Z :=
  Z.of_nat (count (fun o => bool_decide (o = Some r)) reports).

Lemma votes_cons o reports r : votes (o :: reports) r = (if bool_decide (o = Some r) then 1 else 0) + votes reports r.
Proof. unfold votes. rewrite count_cons. destruct (bool_decide _); lia. Qed.

Lemma votes_absent reports r : Some r ∉ reports -> votes reports r = 0.
Proof.
  induction reports as [|o reports IH]; intros Hn; [done|]. apply not_elem_of_cons in Hn as [Ho Hn].
  rewrite votes_cons, IH, bool_decide_eq_false_2 by (done || congruence). done.
Qed.

Lemma tally_get reports : forall roots r, default 0 (JsMap.get (tally roots reports) r)
  = default 0 (JsMap.get roots r) + votes reports r.
Proof.
  induction reports as [|[x|] reports IH]; intros roots r; cbn [tally]; rewrite ?votes_cons.
  - change (votes [] r) with 0. lia.
  - rewrite IH. destruct (decide (x = r)) as [->|Hne].
    + rewrite JsMap.get_set_eq, bool_decide_eq_true_2 by done. simpl. lia.
    + rewrite JsMap.get_set_ne, bool_decide_eq_false_2 by congruence. lia.
  - rewrite IH. rewrite bool_decide_eq_false_2 by done. lia.
Qed.

Lemma tally_wf reports : forall roots, JsMap.wf roots -> JsMap.wf (tally roots reports).
Proof. induction reports as [|[x|] reports IH]; intros roots Hw; cbn [tally]; auto using JsMap.wf_set. Qed.

Lemma tally_keys reports : forall roots r, r ∈ JsMap.keys (tally roots reports) <-> r ∈ JsMap.keys roots \/ Some r ∈ reports.
Proof.
  induction reports as [|[x|] reports IH]; intros roots r; cbn [tally]; [set_solver| |]; rewrite IH.
  - rewrite JsMap.keys_set. unfold JsMap.has. destruct (JsMap.get roots x) eqn:E.
    + apply JsMap.get_Some_elem in E. assert (x ∈ JsMap.keys roots) by (apply list_elem_of_fmap; by eexists (_, _)).
      rewrite elem_of_cons. naive_solver.
    + rewrite elem_of_app, list_elem_of_singleton, elem_of_cons. naive_solver.
  - rewrite elem_of_cons. naive_solver.
Qed.

Lemma findMajority_sound t self roots r : findMajority t self roots = Some r ->
  exists v, (r, v) ∈ roots /\ t <= v + (if bool_decide (r = self) then 1 else 0).
Proof.
  induction roots as [|[x v] roots IH]; simpl; [done|]. destruct (_ <=? _) eqn:E.
  - intros ?. simplify_eq. exists v. split; [by left|lia].
  - intros (w & Hw & Ht)%IH. exists w. split; [by right|done].
Qed.

Lemma findMajority_complete t self roots r v : (r, v) ∈ roots -> t <= v + (if bool_decide (r = self) then 1 else 0) ->
  exists r', findMajority t self roots = Some r'.
Proof.
  induction roots as [|[x w] roots IH]; simpl; [by intros ?%not_elem_of_nil|]. intros Hin Ht.
  destruct (_ <=? _) eqn:E; [by eexists|]. apply elem_of_cons in Hin as [?|Hin]; [simplify_eq; lia|by apply IH].
Qed.

Lemma votes_disjoint reports r r' : r <> r' -> votes reports r + votes reports r' <= Z.of_nat (length reports).
Proof.
  intros Hne. induction reports as [|o reports IH]; [done|]. rewrite !votes_cons. cbn [length].
  repeat case_bool_decide; try congruence; lia.
Qed.

Lemma split_threshold_majority N : 1 <= N -> N < 2 * splitThreshold N.
Proof. unfold splitThreshold. intros HN. destruct (Z.leb_spec 4 N); Z.div_mod_to_equations; lia. Qed.

(** The head taken for the mesh's is the one that enough nodes hold: it is
    found exactly when some reported head has the threshold of votes, the
    node's own included, it is then the only such head, and it does not
    depend on the order of the peers. *)
Lemma majority_iff self reports r :
  majorityRoot self reports = Some r <->
  Some r ∈ reports /\
  splitThreshold (Z.of_nat (length reports) + 1) <= votes reports r + (if bool_decide (r = self) then 1 else 0).
Proof.
  unfold majorityRoot. set (t := splitThreshold _). assert (JsMap.wf (tally [] reports)) as Hw by (apply tally_wf; constructor).
  assert (forall x v, (x, v) ∈ tally [] reports -> Some x ∈ reports /\ v = votes reports x) as Hin.
  { intros x v Hx. split.
    - assert (x ∈ JsMap.keys (tally [] reports)) as Hk by (apply list_elem_of_fmap; by eexists (_, _)).
      apply tally_keys in Hk as [Hk|?]; [|done]. by apply not_elem_of_nil in Hk.
    - pose proof (tally_get reports [] x) as Hg. rewrite (JsMap.elem_get _ _ _ Hw Hx) in Hg. simpl in Hg. lia. }
  split.
  - intros (v & Hv & Ht)%findMajority_sound. destruct (Hin _ _ Hv) as [? ->]. done.
  - intros [Hr Ht]. assert (exists v, (r, v) ∈ tally [] reports) as [v Hv].
    { assert (r ∈ JsMap.keys (tally [] reports)) as ([k v] & -> & Hk)%list_elem_of_fmap by (apply tally_keys; by right).
      by exists v. }
    destruct (Hin _ _ Hv) as [_ ->]. destruct (findMajority_complete _ _ _ _ _ Hv Ht) as [r' Hr']. rewrite Hr'. f_equal.
    destruct (findMajority_sound _ _ _ _ Hr') as (v' & Hv' & Ht'). destruct (Hin _ _ Hv') as [_ ->].
    destruct (decide (r' = r)) as [|Hne]; [done|]. exfalso. pose proof (votes_disjoint reports r' r Hne).
    pose proof (split_threshold_majority (Z.of_nat (length reports) + 1) ltac:(lia)). subst t.
    repeat case_bool_decide; try congruence; lia.
Qed.

(** ** The text of an announcement *)

Definition service_name : jsstr := js "_ct-orchestrator._tcp.local".

Definition announcementText (did : jsstr) (p ts : Z) (sig : jsstr) : jsstr :=
  service_name ++ js "|oid=" ++ did ++ js ",port=" ++ decimal p ++ js ",ts=" ++ decimal ts ++ js "|sig=" ++ sig.

Fixpoint takeWhile (p : Z -> bool) (s : jsstr) : jsstr :=
  match s with c :: t => if p c then c :: takeWhile p t else [] | [] => [] end.

(** [msg.match(/key([class]+)/)]: after the first occurrence of the key that
    is followed by a character of the class. *)
Fixpoint matchAfter (key : jsstr) (cls : Z -> bool) (s : jsstr) : option jsstr :=
  match (if startsWith s key then takeWhile cls (drop (length key) s) else []) with
  | [] => match s with _ :: t => matchAfter key cls t | [] => None end
  | found => Some found
  end.

Definition not_comma_bar (c : Z) : bool := negb (c =? 44) && negb (c =? 124).
Definition not_bar (c : Z) : bool := negb (c =? 124).

Lemma matchAfter_skip k key cls pre s : Forall (fun c => c <> k) pre -> matchAfter (k :: key) cls (pre ++ s) = matchAfter (k :: key) cls s.
Proof.
  induction 1 as [|c pre Hc _ IH]; [done|]. cbn [app matchAfter startsWith].
  by rewrite (proj2 (Z.eqb_neq k c)) by congruence.
Qed.

Lemma takeWhile_app cls a c s : Forall (fun x => cls x = true) a -> cls c = false -> takeWhile cls (a ++ c :: s) = a.
Proof. intros Ha Hc. induction Ha as [|x a Hx _ IH]; simpl; [by rewrite Hc|]. by rewrite Hx, IH. Qed.

Lemma takeWhile_all cls a : Forall (fun x => cls x = true) a -> takeWhile cls a = a.
Proof. induction 1 as [|x a Hx _ IH]; simpl; [done|]. by rewrite Hx, IH. Qed.

Lemma matchAfter_here key cls s found : takeWhile cls s = found -> found <> [] -> matchAfter key cls (key ++ s) = Some found.
Proof.
  intros Ht Hf. assert ((if startsWith (key ++ s) key then takeWhile cls (drop (length key) (key ++ s)) else []) = found) as E.
  { by rewrite startsWith_app, drop_app_length. }
  destruct (key ++ s) as [|c t] eqn:Eks; cbn [matchAfter]; rewrite E; by destruct found.
Qed.

Definition hex_text (s : jsstr) : Prop := s <> [] /\ Forall (fun c => is_lower_hex c = true) s.

Lemma hex_not c s : is_lower_hex c = false -> Forall (fun x => is_lower_hex x = true) s -> Forall (fun x => x <> c) s.
Proof. intros Hc Hs. eapply Forall_impl; [exact Hs|]. intros x Hx ->. cbv beta in Hx. congruence. Qed.

Lemma decimal_digits n : Forall (fun c => is_digit c = true) (decimal n).
Proof.
  pose proof (CanonicalInt.dec_go_digits (S (Z.to_nat (Z.log2 (Z.max n 1)))) n [] eq_refl) as E. fold (decimal n) in E.
  rewrite forallb_forall in E. apply Forall_forall. intros c Hc. by apply E, list_elem_of_In.
Qed.

Lemma announced_id did p ts sig : hex_text did -> matchAfter (js "id=") not_comma_bar (announcementText did p ts sig) = Some did.
Proof.
  intros [Hne Hd]. unfold announcementText.
  change (service_name ++ js "|oid=" ++ did ++ js ",port=" ++ decimal p ++ js ",ts=" ++ decimal ts ++ js "|sig=" ++ sig)
    with ((service_name ++ js "|o") ++ js "id=" ++ did ++ 44 :: (js "port=" ++ decimal p ++ js ",ts=" ++ decimal ts ++ js "|sig=" ++ sig)).
  generalize (js "port=" ++ decimal p ++ js ",ts=" ++ decimal ts ++ js "|sig=" ++ sig). intros rest.
  change (js "id=") with (105 :: js "d="). rewrite matchAfter_skip by (apply Forall_forall; intros c Hc ->; by vm_compute in Hc; set_solver).
  apply (matchAfter_here (js "id=")); [|done]. apply takeWhile_app; [|done]. eapply Forall_impl; [exact Hd|].
  intros c Hc. unfold is_lower_hex, is_digit, not_comma_bar in *. lia.
Qed.

Lemma announced_signature did p ts sig : hex_text did -> sig <> [] -> Forall (fun c => c <> 124) sig ->
  matchAfter (js "sig=") not_bar (announcementText did p ts sig) = Some sig.
Proof.
  intros [_ Hd] Hne Hs. unfold announcementText.
  assert (forall t, matchAfter (js "sig=") not_bar (service_name ++ js "|oid=" ++ t) = matchAfter (js "sig=") not_bar t) as -> by reflexivity.
  change (js "sig=") with (115 :: js "ig="). rewrite matchAfter_skip by (by apply hex_not).
  assert (forall t, matchAfter (115 :: js "ig=") not_bar (js ",port=" ++ t) = matchAfter (115 :: js "ig=") not_bar t) as -> by reflexivity.
  assert (forall n, Forall (fun c => c <> 115) (decimal n)) as Hdec.
  { intros n. eapply Forall_impl; [apply decimal_digits|]. intros c Hc ->. done. }
  rewrite matchAfter_skip by apply Hdec.
  assert (forall t, matchAfter (115 :: js "ig=") not_bar (js ",ts=" ++ t) = matchAfter (115 :: js "ig=") not_bar t) as -> by reflexivity.
  rewrite matchAfter_skip by apply Hdec.
  change (js "|sig=" ++ sig) with ([124] ++ js "sig=" ++ sig). rewrite matchAfter_skip by (by repeat constructor).
  apply (matchAfter_here (js "sig=")); [|done]. apply takeWhile_all. eapply Forall_impl; [exact Hs|].
  intros c Hc. unfold not_bar. apply negb_true_iff. by apply Z.eqb_neq.
Qed.

Lemma char_of_range n : 0 <= n < 64 -> Base64.char_of n <> 124 /\ Base64.char_of n <> 0.
Proof.
  intros Hn. assert (forallb (fun n => negb (Base64.char_of (Z.of_nat n) =? 124) && negb (Base64.char_of (Z.of_nat n) =? 0)) (seq 0 64) = true) as E
    by (vm_compute; reflexivity).
  rewrite forallb_forall in E. specialize (E (Z.to_nat n) ltac:(apply in_seq; lia)). rewrite Z2Nat.id in E by lia.
  apply andb_true_iff in E as [E1%negb_true_iff%Z.eqb_neq E2%negb_true_iff%Z.eqb_neq]. done.
Qed.

Lemma btoa_no_bar bs : Base64.bytes_ok bs -> Forall (fun c => c <> 124) (Base64.btoa bs).
Proof.
  intros Hb%Base64.pack_range. rewrite Base64.btoa_pack. apply Forall_app. split.
  - induction Hb as [|v vs Hv _ IH]; simpl; constructor; [by apply char_of_range|done].
  - unfold Base64.padding. destruct (length bs mod 3)%nat as [|[|[]]]; by repeat constructor.
Qed.

Section mesh.
Context `{JsNumber}.
Context (hmac : jsstr -> jsstr -> list Z).        (* the bytes, by secret and text *)
Context (sha256 : jsstr -> jsstr).
Context (otherNumber : jsstr -> Z).
Context (num_of : Z -> num).                      (* an integer as a number *)
Context (signWithNodeKey : jsstr -> jsstr -> option jsstr).

(** ** Signatures with the shared secret *)

Definition signWithSecret (payload : jval) (secret : jsstr) : settled jsstr CanonError :=
  match canonical payload with
  | Resolved t => Resolved (Base64.btoa (hmac secret (default [] t)))
  | Rejected e => Rejected e
  end.

(** Every exception is a refusal. *)
Definition verifyWithSecret (payload : jval) (signature secret : jsstr) : bool :=
  match Base64.atob signature, canonical payload with
  | Some bytes, Resolved t => bool_decide (bytes = hmac secret (default [] t))
  | _, _ => false
  end.

(** ** Configuration and state *)

Record Config := mkConfig {
  nodeId : jsstr;
  port : Z;
  meshSecret : option jsstr;
  tpmMode : bool;                    (* TPM_RESIDENT_IDENTITY *)
  allowedSubnets : option jsstr;     (* MESH_ALLOWED_SUBNETS *)
}.

(** An optional setting that is present and not empty. *)
Definition setting (o : option jsstr) : option jsstr := match o with Some (c :: s) => Some (c :: s) | _ => None end.

Record MeshNode := mkNode {
  id : jsstr; hostname : jsstr; address : jsstr; n_port : Z; lastSeen : Z; verified : bool }.

Record Mesh := mkMesh {
  nodes : list (jsstr * MeshNode);
  provisioningTokens : list (jsstr * (jsstr * Z));
  handshakes : list MeshNode;        (* validations that wait for the answer *)
  httpClient : bool;                 (* whether the mTLS client exists *)
}.

Definition with_nodes (ns : list (jsstr * MeshNode)) (s : Mesh) : Mesh := mkMesh ns (provisioningTokens s) (handshakes s) (httpClient s).
Definition with_tokens (ts : list (jsstr * (jsstr * Z))) (s : Mesh) : Mesh := mkMesh (nodes s) ts (handshakes s) (httpClient s).
Definition with_handshakes (hs : list MeshNode) (s : Mesh) : Mesh := mkMesh (nodes s) (provisioningTokens s) hs (httpClient s).
Definition with_client (b : bool) (s : Mesh) : Mesh := mkMesh (nodes s) (provisioningTokens s) (handshakes s) b.

Definition seen (now : Z) (n : MeshNode) : MeshNode := mkNode (id n) (hostname n) (address n) (n_port n) now (verified n).
Definition with_verified (b : bool) (n : MeshNode) : MeshNode :=
  mkNode (id n) (hostname n) (address n) (n_port n) (lastSeen n) b.

(** ** Signatures of the manager *)

Definition proxySignature (signerId : jsstr) (text : option jsstr) : jsstr :=
  js "p-sig:node-key-" ++ signerId ++ js ":" ++ default (js "undefined") text.

Definition signPayload (cfg : Config) (payload : jval) : settled jsstr CanonError :=
  if tpmMode cfg then
    match canonical payload with
    | Rejected e => Rejected e
    | Resolved t => Resolved (default (js "unsigned") (signWithNodeKey (nodeId cfg) (default (js "undefined") t)))
    end
  else
    match setting (meshSecret cfg) with
    | None => Resolved (js "unsigned")
    | Some secret => signWithSecret payload secret
    end.

Definition verifySignature (cfg : Config) (payload : jval) (signature : jsstr) (peerId : option jsstr) : settled bool CanonError :=
  if tpmMode cfg && startsWith signature (js "p-sig:") then
    match canonical payload with
    | Rejected e => Rejected e
    | Resolved t => Resolved (bool_decide (signature = proxySignature (default (nodeId cfg) (setting peerId)) t))
    end
  else
    match setting (meshSecret cfg) with
    | None => Resolved false
    | Some secret => Resolved (verifyWithSecret payload signature secret)
    end.

(** ** Admitting a peer *)

Definition isLoopback (a : jsstr) : bool :=
  bool_decide (a = js "127.0.0.1") || bool_decide (a = js "::1") || startsWith a (js "127.").
Definition isMetadata (a : jsstr) : bool := bool_decide (a = js "169.254.169.254") || startsWith a (js "169.254.").

Definition addressAllowed (cfg : Config) (a : jsstr) : bool :=
  Net.isValidIP a && negb (isLoopback a) && negb (isMetadata a)
  && match setting (allowedSubnets cfg) with Some ranges => Cidr.isIpAllowed otherNumber a ranges | None => true end.

Definition portAllowed (cfg : Config) (p : Z) : bool :=
  negb ((p <? 1024) || (65535 <? p) || (negb (p =? port cfg) && negb (p =? 8000))).

(** [validateAndRegisterNode] up to the request. *)
Definition validateStart (cfg : Config) (s : Mesh) (node : MeshNode) (now : Z) : Mesh :=
  let ask := with_handshakes (handshakes s ++ [node]) s in
  let unverified :=
    if addressAllowed cfg (address node) && portAllowed cfg (n_port node) && httpClient s then
      match JsMap.get (provisioningTokens s) (id node) with
      | Some (_, expires) => if expires <? now then with_tokens (JsMap.delete (provisioningTokens s) (id node)) s else ask
      | None => ask
      end
    else s in
  match JsMap.get (nodes s) (id node) with
  | Some existing =>
      if verified existing then with_nodes (JsMap.set (nodes s) (id node) (seen now existing)) s else unverified
  | None => unverified
  end.

(** The answer to a ping: its status, its body and its signature header. *)
Record Ping := mkPing { p_ok : bool; p_body : jval; p_signature : option jsstr }.

Fixpoint lookupField (fields : list (jsstr * jval)) (k : jsstr) : option jval :=
  match fields with
  | [] => None
  | (k', v) :: fields => if bool_decide (k' = k) then Some v else lookupField fields k
  end.

Definition field (v : jval) (k : jsstr) : option jval := match v with JObj fields => lookupField fields k | _ => None end.

Definition truthy (o : option jval) (is_zero : num -> bool) : bool :=
  match o with
  | None | Some JUndefined | Some JNull | Some (JBool false) | Some (JStr []) => false
  | Some (JNum n) => negb (is_zero n)
  | _ => true
  end.

Context (is_zero : num -> bool).                  (* 0, -0 and NaN *)

(** Whether the answer admits the peer. *)
Definition pingAccepted (cfg : Config) (node : MeshNode) (r : Ping) : bool :=
  let isDiscoveryHash := match setting (meshSecret cfg) with Some _ => (length (id node) =? 64)%nat | None => false end in
  p_ok r
  && (isDiscoveryHash || match field (p_body r) (js "nodeId") with Some (JStr i) => bool_decide (i = id node) | _ => false end)
  && match setting (meshSecret cfg) with
     | None => true
     | Some _ =>
         match setting (p_signature r) with
         | None => false
         | Some sig => match verifySignature cfg (p_body r) sig (Some (id node)) with Resolved b => b | Rejected _ => false end
         end
     end
  && truthy (field (p_body r) (js "success")) is_zero && truthy (field (p_body r) (js "nodeId")) is_zero.

(** [registerNode] *)
Definition registerNode (s : Mesh) (node : MeshNode) (now : Z) : Mesh :=
  with_nodes (JsMap.set (nodes s) (id node) (seen now node)) s.

Definition remove_at {A} (i : nat) (l : list A) : list A := take i l ++ drop (S i) l.

(** [validateAndRegisterNode] from the answer on; no answer is a failed
    request.  An id that is not a string does not pass the schema. *)
Definition validateEnd (cfg : Config) (s : Mesh) (i : nat) (answer : option Ping) (now : Z) : Mesh :=
  match handshakes s !! i with
  | None => s
  | Some node =>
      let s := with_handshakes (remove_at i (handshakes s)) s in
      match answer with
      | None => s
      | Some r =>
          if pingAccepted cfg node r then
            match field (p_body r) (js "nodeId") with
            | Some (JStr newId) =>
                if bool_decide (newId = id node) then registerNode s (with_verified true node) now
                else registerNode (with_nodes (JsMap.delete (nodes s) (id node)) s)
                       (mkNode newId newId (address node) (n_port node) (lastSeen node) true) now
            | _ => with_nodes (JsMap.delete (nodes s) (id node)) s
            end
          else s
      end
  end.

(** [resyncNodes] for one peer: it loses its standing and is asked again. *)
Definition resyncNode (cfg : Config) (s : Mesh) (nid : jsstr) (now : Z) : Mesh :=
  match JsMap.get (nodes s) nid with
  | None => s
  | Some node =>
      validateStart cfg (with_nodes (JsMap.set (nodes s) nid (with_verified false node)) s) (with_verified false node) now
  end.

Definition isolateNode (s : Mesh) (nid : jsstr) : Mesh := with_nodes (JsMap.delete (nodes s) nid) s.

Definition registerProvisioningToken (s : Mesh) (nid token : jsstr) (ttlMs now : Z) : Mesh :=
  with_tokens (JsMap.set (provisioningTokens s) nid (token, now + ttlMs)) s.

Definition getActiveNodeCount (s : Mesh) (now : Z) : nat :=
  length (List.filter (fun e => now - lastSeen e.2 <? 600000) (nodes s)).

(** The peers a broadcast goes to; [partitioned] is the chaos engine's. *)
Definition broadcastTargets (s : Mesh) (partitioned : jsstr -> bool) : list MeshNode :=
  List.filter (fun n => verified n && negb (partitioned (id n))) (map snd (nodes s)).

(** ** Announcements *)

Definition discoveryId (cfg : Config) : settled jsstr CanonError :=
  match setting (meshSecret cfg) with
  | None => Resolved (nodeId cfg)
  | Some secret => computeHash sha256 (JStr (nodeId cfg ++ js ":" ++ secret))
  end.

Definition announcementPayload (i : jsstr) (p ts : Z) : jval :=
  JObj [(js "id", JStr i); (js "port", JNum (num_of p)); (js "ts", JNum (num_of ts))].

(** [scanNetwork]: the text sent; an exception sends nothing. *)
Definition scanNetwork (cfg : Config) (timestamp : Z) : option jsstr :=
  match setting (meshSecret cfg) with
  | None => Some (announcementText (nodeId cfg) (port cfg) timestamp (js "unsigned"))
  | Some secret =>
      match discoveryId cfg, signWithSecret (announcementPayload (nodeId cfg) (port cfg) timestamp) secret with
      | Resolved did, Resolved sig => Some (announcementText did (port cfg) timestamp sig)
      | _, _ => None
      end
  end.

(** [listenForDiscovery] for one datagram of [size] bytes from [from], which
    decodes to [msg]: the node to validate. *)
Definition receive (cfg : Config) (now size : Z) (msg from : jsstr) : option MeshNode :=
  if 2048 <? size then None
  else if includes msg service_name then
    let idMatch := match matchAfter (js "id=") not_comma_bar msg with
                   | Some i => Some i | None => matchAfter (js "oid=") not_comma_bar msg end in
    match idMatch, matchAfter (js "port=") is_digit msg, matchAfter (js "ts=") is_digit msg, matchAfter (js "sig=") not_bar msg with
    | Some i, Some portText, Some tsText, Some sig =>
        let p := parse_base 10 portText in
        let ts := parse_base 10 tsText in
        if 300000 <? Z.abs (now - ts) then None
        else
          let valid := match setting (meshSecret cfg) with
                       | None => true
                       | Some secret => verifyWithSecret (announcementPayload i p ts) sig secret
                       end in
          let own := match discoveryId cfg with Resolved did => bool_decide (i = did) | Rejected _ => false end in
          if valid && negb own && negb (bool_decide (i = nodeId cfg))
          then Some (mkNode i (js "discovered-peer") from p now false)
          else None
    | _, _, _, _ => None
    end
  else None.

(** ** Approvals *)

(** A peer's answer to [REQUEST_APPROVAL]; no answer is an exception. *)
Record Answer := mkAnswer { approved : bool; a_payload : jval; a_signature : option jsstr }.

Definition counts (cfg : Config) (node : MeshNode) (answer : option Answer) : bool :=
  match answer with
  | None => false
  | Some a =>
      approved a &&
      match setting (a_signature a) with
      | Some sig => match verifySignature cfg (a_payload a) sig (Some (id node)) with Resolved b => b | Rejected _ => false end
      | None => true
      end
  end.

(** [requestApproval]: one answer for every verified peer, in order. *)
Definition requestApproval (cfg : Config) (s : Mesh) (threshold : option Z) (answers : list (option Answer)) : bool :=
  let verifiedNodes := List.filter verified (map snd (nodes s)) in
  let totalNodes := Z.of_nat (length verifiedNodes) + 1 in
  let targetThreshold := default (totalNodes / 2 + 1) threshold in
  if totalNodes <? targetThreshold then false
  else
    let approvals := count (fun p => counts cfg p.1 p.2) (combine verifiedNodes answers) in
    targetThreshold <=? Z.of_nat approvals.

(** ** Runs *)

Inductive input :=
| IAnnounce (now size : Z) (msg from : jsstr)           (* a datagram *)
| IProbed (a nid : jsstr) (now : Z)                (* probeNode found a peer *)
| IAnswer (i : nat) (answer : option Ping) (now : Z)
| IResync (nid : jsstr) (now : Z)
| IIsolate (nid : jsstr)
| IToken (nid token : jsstr) (ttlMs now : Z)
| IKvNodes (ns : list MeshNode) (now : Z)          (* the table of peers in the KV store changed *)
| IConnected                                       (* onInit created the mTLS client *)
| IShutdown.

(** [probeNode] after the answer of the probed address, which names its node. *)
Definition probeNode (cfg : Config) (s : Mesh) (a nid : jsstr) (now : Z) : Mesh :=
  if httpClient s && addressAllowed cfg a && negb (bool_decide (nid = []))
  then validateStart cfg s (mkNode nid nid a (port cfg) now true) now else s.

(** The body of the watcher of [startStateWatcher]. *)
Definition watchNodes (cfg : Config) (s : Mesh) (ns : list MeshNode) (now : Z) : Mesh :=
  fold_left (fun s n => if bool_decide (id n = nodeId cfg) then s else registerNode s n now) ns s.

Definition onShutdown (s : Mesh) : Mesh := with_client false (with_nodes [] s).

Definition step (cfg : Config) (s : Mesh) (i : input) : Mesh :=
  match i with
  | IAnnounce now size msg from => match receive cfg now size msg from with Some n => validateStart cfg s n now | None => s end
  | IProbed a nid now => probeNode cfg s a nid now
  | IAnswer i answer now => validateEnd cfg s i answer now
  | IResync nid now => resyncNode cfg s nid now
  | IIsolate nid => isolateNode s nid
  | IToken nid token ttlMs now => registerProvisioningToken s nid token ttlMs now
  | IKvNodes ns now => watchNodes cfg s ns now
  | IConnected => with_client true s
  | IShutdown => onShutdown s
  end.

Definition new : Mesh := mkMesh [] [] [] false.

Definition run (cfg : Config) (s : Mesh) (ins : list input) : Mesh := fold_left (step cfg) ins s.

(** ** Who is in the mesh *)

(** What the table promises of a peer, verified or not. *)
Definition admissible (cfg : Config) (n : MeshNode) : Prop :=
  addressAllowed cfg (address n) = true /\ portAllowed cfg (n_port n) = true.

Record mesh_ok (cfg : Config) (s : Mesh) : Prop := mkMeshOk {
  mo_wf : JsMap.wf (nodes s);
  mo_nodes : Forall (fun e => id e.2 = e.1 /\ admissible cfg e.2) (nodes s);
  mo_handshakes : Forall (admissible cfg) (handshakes s);
}.

Lemma Forall_map_set {V} (P : jsstr * V -> Prop) m k v : Forall P m -> P (k, v) -> Forall P (JsMap.set m k v).
Proof.
  intros Hm Hv. induction Hm as [|[k' v'] m Hx Hm IH]; simpl; [by repeat constructor|]. destruct (decide (k' = k)); by constructor.
Qed.

Lemma Forall_map_delete {V} (P : jsstr * V -> Prop) m k : Forall P m -> Forall P (JsMap.delete m k).
Proof. intros Hm. induction Hm as [|[k' v'] m Hx Hm IH]; simpl; [constructor|]. destruct (decide (k' = k)); [done|by constructor]. Qed.

Lemma register_ok cfg s n now : mesh_ok cfg s -> admissible cfg n -> mesh_ok cfg (registerNode s n now).
Proof.
  intros [Hw Hn Hh] Ha. split; [by apply JsMap.wf_set| |done]. by apply Forall_map_set.
Qed.

Lemma delete_mesh_ok cfg s k : mesh_ok cfg s -> mesh_ok cfg (with_nodes (JsMap.delete (nodes s) k) s).
Proof. intros [Hw Hn Hh]. split; [by apply JsMap.wf_delete|by apply Forall_map_delete|done]. Qed.

Lemma get_admissible cfg s k n : mesh_ok cfg s -> JsMap.get (nodes s) k = Some n -> id n = k /\ admissible cfg n.
Proof.
  intros [_ Hn _] E. rewrite Forall_forall in Hn. by apply (Hn (k, n)), JsMap.get_Some_elem.
Qed.

Lemma validateStart_ok cfg s n now : mesh_ok cfg s -> mesh_ok cfg (validateStart cfg s n now).
Proof.
  intros Hs. pose proof Hs as [Hw Hn Hh]. unfold validateStart.
  set (u := if _ && _ then _ else _). assert (mesh_ok cfg u) as Hu.
  { subst u. destruct (addressAllowed _ _) eqn:Ea; [|done]. destruct (portAllowed _ _) eqn:Ep; [|done]. destruct (httpClient s) eqn:Ec; [|done]. simpl.
    assert (mesh_ok cfg (with_handshakes (handshakes s ++ [n]) s)) as Hask.
    { split; [done..|]. apply Forall_app. split; [done|]. by repeat constructor. }
    destruct (JsMap.get (provisioningTokens s) (id n)) as [[tok ex]|]; [|done]. by destruct (ex <? now). }
  destruct (JsMap.get (nodes s) (id n)) as [e|] eqn:Ee; [|done]. destruct (verified e); [|done].
  destruct (get_admissible _ _ _ _ Hs Ee) as [Hid Ha]. split; [by apply JsMap.wf_set| |done]. by apply Forall_map_set.
Qed.

Lemma validateEnd_ok cfg s i answer now : mesh_ok cfg s -> mesh_ok cfg (validateEnd cfg s i answer now).
Proof.
  intros Hs. pose proof Hs as [Hw Hn Hh]. unfold validateEnd. destruct (handshakes s !! i) as [n|] eqn:Ei; [|done].
  assert (admissible cfg n) as Ha by (by eapply Forall_lookup_1).
  assert (mesh_ok cfg (with_handshakes (remove_at i (handshakes s)) s)) as Hr.
  { split; [done..|]. apply Forall_app. split; [by apply Forall_take|by apply Forall_drop]. }
  destruct answer as [r|]; [|done]. destruct (pingAccepted _ _ _); [|done].
  destruct (field _ _) as [[]|]; try (by apply (delete_mesh_ok cfg _ (id n) Hr)).
  case_bool_decide; apply register_ok; try done. by apply (delete_mesh_ok cfg _ (id n) Hr).
Qed.

(** The external table of peers only lists peers that would be admitted. *)
Definition trusted_input (cfg : Config) (i : input) : Prop :=
  match i with IKvNodes ns _ => Forall (admissible cfg) ns | _ => True end.

Lemma step_ok cfg s i : trusted_input cfg i -> mesh_ok cfg s -> mesh_ok cfg (step cfg s i).
Proof.
  intros Ht Hs. destruct i; cbn [step]; unfold probeNode, watchNodes, onShutdown.
  - destruct (receive _ _ _ _ _); [by apply validateStart_ok|done].
  - destruct (_ && _); [by apply validateStart_ok|done].
  - by apply validateEnd_ok.
  - unfold resyncNode. destruct (JsMap.get (nodes s) nid) as [n|] eqn:En; [|done].
    destruct (get_admissible _ _ _ _ Hs En) as [Hid Ha]. apply validateStart_ok. destruct Hs as [Hw Hn Hh].
    split; [by apply JsMap.wf_set| |done]. by apply Forall_map_set.
  - by apply delete_mesh_ok.
  - by destruct Hs.
  - simpl in Ht. revert s Hs. induction Ht as [|n ns Hn _ IH]; intros s Hs; simpl; [done|]. apply IH.
    case_bool_decide; [done|]. by apply register_ok.
  - by destruct Hs.
  - destruct Hs. by repeat constructor.
Qed.

(** Whatever is announced, probed, answered, isolated or resynchronised, in
    any order, the table of peers only holds peers at a valid IP address that
    is neither loopback nor link-local, within the configured subnets, on an
    allowed port, each under its own id. *)
Theorem peers_admissible cfg ins : Forall (trusted_input cfg) ins ->
  Forall (fun e => id e.2 = e.1 /\ admissible cfg e.2) (nodes (run cfg new ins)).
Proof.
  intros Ht. unfold run. assert (mesh_ok cfg new) as H0 by (by repeat constructor).
  enough (mesh_ok cfg (fold_left (step cfg) ins new)) by (by destruct H1).
  revert H0. generalize new. induction Ht as [|i ins Hi _ IH]; intros s Hs; simpl; [done|]. by apply IH, step_ok.
Qed.

(** ** How a peer becomes verified *)

Definition verified_at (s : Mesh) (k : jsstr) : Prop := exists n, JsMap.get (nodes s) k = Some n /\ verified n = true.

Lemma verified_set (ns : list (jsstr * MeshNode)) k k' n : (exists m, JsMap.get (JsMap.set ns k n) k' = Some m /\ verified m = true) ->
  (exists m, JsMap.get ns k' = Some m /\ verified m = true) \/ k = k' /\ verified n = true.
Proof.
  intros (m & Hm & Hv). destruct (decide (k = k')) as [->|Hne].
  - rewrite JsMap.get_set_eq in Hm. simplify_eq. by right.
  - rewrite JsMap.get_set_ne in Hm by done. left. by exists m.
Qed.

Lemma verified_delete (ns : list (jsstr * MeshNode)) k k' : (exists m, JsMap.get (JsMap.delete ns k) k' = Some m /\ verified m = true) ->
  exists m, JsMap.get ns k' = Some m /\ verified m = true.
Proof.
  intros (m & Hm & Hv). destruct (decide (k = k')) as [->|Hne]; [by rewrite JsMap.get_delete_eq in Hm|].
  rewrite JsMap.get_delete_ne in Hm by done. by exists m.
Qed.

Lemma validateStart_verified cfg s n now k : verified_at (validateStart cfg s n now) k -> verified_at s k.
Proof.
  unfold validateStart, verified_at. set (u := if _ && _ then _ else _).
  assert (nodes u = nodes s) as Hu. { subst u. repeat case_match; done. }
  destruct (JsMap.get (nodes s) (id n)) as [e|] eqn:Ee; [|by rewrite Hu]. destruct (verified e) eqn:Ev; [|by rewrite Hu].
  intros [Hv|[<- _]]%verified_set; [done|by exists e].
Qed.

Lemma validateEnd_verified cfg s i answer now k : verified_at (validateEnd cfg s i answer now) k ->
  verified_at s k \/ exists r n, answer = Some r /\ handshakes s !! i = Some n /\ pingAccepted cfg n r = true /\
    field (p_body r) (js "nodeId") = Some (JStr k).
Proof.
  unfold validateEnd, verified_at. destruct (handshakes s !! i) as [n|] eqn:Ei; [|by left].
  destruct answer as [r|]; [|by left]. destruct (pingAccepted cfg n r) eqn:Ep; [|by left].
  destruct (field (p_body r) (js "nodeId")) as [[]|] eqn:Ef; try (intros Hv; left; by apply verified_delete in Hv).
  case_bool_decide as Hid; intros [Hv|[<- _]]%verified_set.
  - by left.
  - right. exists r, n. by rewrite Ef, Hid.
  - left. by apply verified_delete in Hv.
  - right. by exists r, n.
Qed.

(** A peer is verified only by its answer: in every step other than a
    change of the external table, a verified peer was verified before, or its
    handshake was waiting and the answer was accepted: a good status, a body
    that names this id, and with a shared secret a signature that verifies. *)
Theorem verified_by_handshake cfg s i k :
  match i with IKvNodes _ _ => False | _ => True end -> verified_at (step cfg s i) k ->
  verified_at s k \/ exists j r now n, i = IAnswer j (Some r) now /\ handshakes s !! j = Some n /\
    pingAccepted cfg n r = true /\ field (p_body r) (js "nodeId") = Some (JStr k).
Proof.
  intros Hi. destruct i; try done; cbn [step]; unfold probeNode, onShutdown.
  - destruct (receive _ _ _ _ _); [|by left]. intros Hv. left. by eapply validateStart_verified.
  - destruct (_ && _); [|by left]. intros Hv. left. by eapply validateStart_verified.
  - intros [Hv|(r & n & -> & Hr)]%validateEnd_verified; [by left|right]. by eexists _, _, _, _.
  - unfold resyncNode. destruct (JsMap.get (nodes s) nid) as [n|] eqn:En; [|by left].
    intros Hv%validateStart_verified. left. apply verified_set in Hv as [Hv|[_ Hv]]; done.
  - intros Hv. left. by apply verified_delete in Hv.
  - by left.
  - by left.
  - intros (n & Hn & _). done.
Qed.

(** ** Signatures *)

(** What is signed with the shared secret verifies with it. *)
Lemma secret_signature_verifies payload secret sig : (forall s t, Base64.bytes_ok (hmac s t)) ->
  signWithSecret payload secret = Resolved sig -> verifyWithSecret payload sig secret = true.
Proof.
  intros Hb. unfold signWithSecret, verifyWithSecret. destruct (canonical payload) as [t|]; [|done].
  intros ?. simplify_eq. rewrite Base64.atob_btoa by done. by apply bool_decide_eq_true.
Qed.

(** In the TPM-resident mode a peer's signature needs no key: the text made
    of the peer's id and the payload is accepted as its signature, whatever
    the secrets are, and so is any other of the peer's payloads. *)
Theorem peer_signature_forgeable cfg payload t peer : tpmMode cfg = true -> canonical payload = Resolved t -> peer <> [] ->
  verifySignature cfg payload (proxySignature peer t) (Some peer) = Resolved true.
Proof.
  intros Hm Hc Hp. unfold verifySignature. rewrite Hm, Hc.
  assert (startsWith (proxySignature peer t) (js "p-sig:") = true) as ->.
  { unfold proxySignature. change (js "p-sig:node-key-") with (js "p-sig:" ++ js "node-key-"). rewrite <-app_assoc.
    apply startsWith_app. }
  destruct peer as [|c peer]; [done|]. cbn [andb setting default]. by rewrite bool_decide_eq_true_2.
Qed.

(** ** Approvals *)

Definition verifiedNodes (s : Mesh) : list MeshNode := List.filter verified (map snd (nodes s)).

Lemma count_bound {A} (f : A -> bool) l : (count f l <= length l)%nat.
Proof. unfold count. apply filter_length_le. Qed.

(** An approval with the default threshold needs counted answers of more
    than half of the mesh, and since the node itself is a member without a
    vote, no mesh of one or two nodes can ever approve anything. *)
Theorem approval_needs_majority cfg s answers : requestApproval cfg s None answers = true ->
  let n := Z.of_nat (length (verifiedNodes s)) in
  n + 1 < 2 * Z.of_nat (count (fun p => counts cfg p.1 p.2) (combine (verifiedNodes s) answers)) /\ 2 <= n.
Proof.
  unfold requestApproval. fold (verifiedNodes s). cbn [default]. unfold default, from_option.
  destruct (_ <? _) eqn:Et; [done|]. intros Ha%Z.leb_le. apply Z.ltb_ge in Et. simpl.
  set (a := count _ _) in *. assert (a <= length (verifiedNodes s))%nat as Hb.
  { subst a. etrans; [apply count_bound|]. rewrite length_combine. clear. lia. }
  clear - Ha Et Hb. Z.div_mod_to_equations. lia.
Qed.

(** An answer without a signature counts like a signed one. *)
Lemma unsigned_approval_counts cfg n payload : counts cfg n (Some (mkAnswer true payload None)) = true.
Proof. done. Qed.

Lemma norm_announcement i p ts : norm (announcementPayload i p ts) = announcementPayload i p ts.
Proof. reflexivity. Qed.

(** With a shared secret no announcement of a peer is ever believed: the
    sender signs its node id but announces the digest of it, and the receiver
    checks the signature for the announced id, so that every genuine
    announcement is rejected as forged, unless the two texts collide under
    the MAC. *)
Theorem announcement_rejected sender receiver secret did ts msg now size from :
  meshSecret sender = Some secret -> meshSecret receiver = Some secret -> secret <> [] ->
  (forall s t, Base64.bytes_ok (hmac s t) /\ hmac s t <> []) ->
  discoveryId sender = Resolved did -> hex_text did -> nodeId sender <> did -> Forall code_unit (nodeId sender) ->
  (forall p' ts' t t', canonical (announcementPayload did p' ts') = Resolved t ->
     canonical (announcementPayload (nodeId sender) (port sender) ts) = Resolved t' ->
     hmac secret (default [] t) = hmac secret (default [] t') -> t = t') ->
  scanNetwork sender ts = Some msg -> receive receiver now size msg from = None.
Proof using H hmac sha256 num_of.
  intros Hs Hr Hne Hmac Hdid Hhex Hid Hunits Hcol. unfold scanNetwork. rewrite Hs, Hdid.
  destruct secret as [|c secret]; [done|]. cbn [setting]. unfold signWithSecret.
  destruct (canonical (announcementPayload (nodeId sender) _ _)) as [t'|] eqn:Et'; [|done]. intros [= <-].
  set (sig := Base64.btoa _). unfold receive. destruct (2048 <? size); [done|]. destruct (includes _ _); [|done].
  rewrite (announced_id _ _ _ _ Hhex), (announced_signature _ _ _ sig Hhex).
  2:{ subst sig. destruct (Hmac (c :: secret) (default [] t')) as [_ Hn]. destruct (hmac _ _) as [|x [|y [|z l]]]; by try done. }
  2:{ apply btoa_no_bar. apply Hmac. }
  destruct (matchAfter (js "port=") _ _) as [pt|]; [|done]. destruct (matchAfter (js "ts=") _ _) as [tt'|]; [|done].
  destruct (_ <? _); [done|]. rewrite Hr. cbn [setting].
  assert (verifyWithSecret (announcementPayload did (parse_base 10 pt) (parse_base 10 tt')) sig (c :: secret) = false) as ->; [|done].
  unfold verifyWithSecret. subst sig. rewrite Base64.atob_btoa by apply Hmac.
  destruct (canonical (announcementPayload did _ _)) as [t|] eqn:Et; [|done]. apply bool_decide_eq_false. intros E.
  symmetry in E. pose proof (Hcol _ _ _ _ Et eq_refl E) as ->.
  assert (clean (announcementPayload (nodeId sender) (port sender) ts)) as C1.
  { repeat split; try apply CanonicalInt.js_code_units; done. }
  assert (clean (announcementPayload did (parse_base 10 pt) (parse_base 10 tt'))) as C2.
  { repeat split; try apply CanonicalInt.js_code_units; try done. cbn [clean snd]. eapply Forall_impl; [apply Hhex|].
    intros x Hx. clear - Hx. unfold code_unit, is_lower_hex, is_digit in *. lia. }
  pose proof (canonical_injective _ _ _ C1 C2 ltac:(done) ltac:(done) Et' Et) as N.
  rewrite !norm_announcement in N. injection N as N _ _. done.
Qed.
End mesh.
End Mesh.
