(* ===== verification/MeshSync.v ===== *)
(** * Finding and following the mesh

    Models the rest of [domain/orchestration/mesh.ts]: the scan of the local
    subnet ([discoverSubnet]), the catch-up with the peers' audit trail
    ([reconcile]) and the repair of a split mesh ([resolveSplitBrain]).  The
    answers of the peers are inputs. *)

From S2P Require Import Prelude Result JsMap JsString Digest Merkle Net Cidr Base64 Canonical AuditChain AuditService Mesh.

Module MeshSync.
Import JsString Canonical.

(** ** The scan of the subnet *)

Definition MAX_CONCURRENCY : nat := 2.

Definition subnetOf (ip : jsstr) : jsstr := join (js ".") (take 3 (split ip (js "."))).

Definition scanTargets (ip : jsstr) : list jsstr :=
  List.filter (fun t => negb (bool_decide (t = ip)))
    (map (fun i => subnetOf ip ++ js "." ++ decimal (Z.of_nat i)) (seq 1 254)).

(** The probes that are awaited together, in order; the last group is what is
    left and may be empty. *)
Fixpoint probeGroups (probes targets : list jsstr) : list (list jsstr) :=
  match targets with
  | [] => [probes]
  | t :: targets =>
      let probes := probes ++ [t] in
      if (MAX_CONCURRENCY <=? length probes)%nat then probes :: probeGroups [] targets else probeGroups probes targets
  end.

(** [discoverSubnet]: nothing while another scan runs.  An interface is its
    family (whether IPv4) and its address. *)
Definition discoverSubnet (isDiscovering : bool) (interfaces : list (bool * jsstr)) : list (list jsstr) :=
  if isDiscovering then []
  else
    let localIps := map snd (List.filter (fun i => i.1 && negb (startsWith i.2 (js "127."))) interfaces) in
    flat_map (fun ip => probeGroups [] (scanTargets ip)) localIps.

Lemma probeGroups_concat ts : forall ps, concat (probeGroups ps ts) = ps ++ ts.
Proof.
  induction ts as [|t ts IH]; intros ps; cbn [probeGroups concat]; [by rewrite !app_nil_r|].
  destruct (_ <=? _)%nat; cbn [concat]; rewrite IH; by rewrite <-app_assoc.
Qed.

Lemma probeGroups_bound ts : forall ps, (length ps < MAX_CONCURRENCY)%nat ->
  Forall (fun g => (length g <= MAX_CONCURRENCY)%nat) (probeGroups ps ts).
Proof.
  induction ts as [|t ts IH]; intros ps Hp; cbn [probeGroups]; [constructor; [lia|constructor]|].
  assert (length (ps ++ [t]) = S (length ps)) as Hl by (rewrite length_app; simpl; lia).
  destruct (Nat.leb_spec MAX_CONCURRENCY (length (ps ++ [t]))); [constructor; [lia|apply IH; by compute; lia]|by apply IH].
Qed.

Lemma subnet_quad a b c d : 0 <= a < 256 -> 0 <= b < 256 -> 0 <= c < 256 -> 0 <= d < 256 -> forall i,
  subnetOf (Net.decimal_quad a b c d) ++ js "." ++ decimal i = Net.decimal_quad a b c i.
Proof.
  intros Ha Hb Hc Hd i. unfold subnetOf. rewrite Net.split_decimal_quad by done.
  unfold Net.decimal_quad, Net.quad. cbn [take]. rewrite !join_cons by done. cbn [join]. by rewrite <-!app_assoc.
Qed.

Lemma decimal_quad_inj a b c d d' : 0 <= d < 256 -> 0 <= d' < 256 ->
  Net.decimal_quad a b c d = Net.decimal_quad a b c d' -> d = d'.
Proof.
  intros Hd Hd'. unfold Net.decimal_quad, Net.quad. rewrite !join_cons by done. cbn [join].
  intros E. repeat apply app_inv_head in E.
  by rewrite <-(CanonicalInt.decimal_parse d), <-(CanonicalInt.decimal_parse d'), E by lia.
Qed.

(** The scan of a subnet asks every other host of the local /24 exactly
    once and in order, from .1 to .254 without the node's own address and
    without the network and broadcast addresses, and never has more than two
    probes open. *)
Theorem subnet_scan_exact a b c d :
  0 <= a < 256 -> 0 <= b < 256 -> 0 <= c < 256 -> 0 <= d < 256 -> a <> 127 ->
  let groups := discoverSubnet false [(true, Net.decimal_quad a b c d)] in
  concat groups = map (fun i => Net.decimal_quad a b c (Z.of_nat i)) (List.filter (fun i => negb (Z.of_nat i =? d)) (seq 1 254)) /\
  Forall (fun g => (length g <= 2)%nat) groups.
Proof.
  intros Ha Hb Hc Hd Hne. unfold discoverSubnet.
  assert (startsWith (Net.decimal_quad a b c d) (js "127.") = false) as Hs.
  { apply not_true_is_false. intros [r E]%startsWith_spec. pose proof (Net.split_decimal_quad a b c d Ha Hb Hc Hd) as Hq.
    rewrite E in Hq. change (js "127." ++ r) with (js "127" ++ 46 :: r) in Hq. unfold split in Hq.
    change (js ".") with [46] in Hq.
    rewrite split_go_piece in Hq by (intros Hin; by vm_compute in Hin; set_solver). injection Hq as Hq _.
    apply Hne. by rewrite <-(CanonicalInt.decimal_parse a), <-Hq by lia. }
  cbn [List.filter fst snd]. rewrite Hs. cbn [negb andb map flat_map snd]. rewrite app_nil_r. split.
  - rewrite probeGroups_concat, app_nil_l. unfold scanTargets.
    rewrite (map_ext _ (fun i => Net.decimal_quad a b c (Z.of_nat i))) by (intros i; by apply subnet_quad).
    assert (Forall (fun i => (0 < i < 255)%nat) (seq 1 254)) as Hr by (apply Forall_forall; intros i Hi%elem_of_seq; lia).
    induction Hr as [|i l Hi _ IH]; [done|]. cbn [map List.filter].
    assert (bool_decide (Net.decimal_quad a b c (Z.of_nat i) = Net.decimal_quad a b c d) = (Z.of_nat i =? d)) as ->.
    { destruct (Z.eqb_spec (Z.of_nat i) d) as [->|Hn]; [by apply bool_decide_eq_true|]. apply bool_decide_eq_false.
      intros E%decimal_quad_inj; lia. }
    destruct (Z.of_nat i =? d); cbn [negb map]; by rewrite IH.
  - apply probeGroups_bound. compute. lia.
Qed.

(** ** The catch-up with a peer *)

Record Proof := mkProof { pr_root : string; pr_leaf : string; pr_index : nat; pr_path : list string }.

Section sync.
Context `{Sha256}.
Context `{JsNumber}.

(** A peer's answer to [MERKLE_CATCH_UP]: its events, if it has a list of
    them, its proof, if it is an object, and the request of a full sync. *)
Record CatchUp := mkCatchUp {
  cu_events : option (list AuditChain.Audit.AuditEvent);
  cu_proof : option Proof;
  full_sync_required : bool;
}.

(** [reconcile] with one peer: the events handed to [syncEvents].  No answer,
    or a proof that does not verify, is an exception; [full] is the list of
    events of the answer to [FETCH_STATE]. *)
Definition reconcileNode (answer : option CatchUp) (full : option (list AuditChain.Audit.AuditEvent)) :
    option (list AuditChain.Audit.AuditEvent) :=
  match answer with
  | None => None
  | Some r =>
      match cu_events r with
      | Some events =>
          match cu_proof r with
          | Some p => if Merkle.verify (pr_root p) (pr_leaf p) (pr_index p) (pr_path p) then Some events else None
          | None => Some events
          end
      | None => if full_sync_required r then full else None
      end
  end.

(** [reconcile]: the calls of [syncEvents], in the order of the peers. *)
Definition reconcile (answers : list (option CatchUp * option (list AuditChain.Audit.AuditEvent))) : list AuditService.AuditService.input :=
  map AuditService.AuditService.ISync (omap (fun a => reconcileNode a.1 a.2) answers).

(** The proof of a batch says nothing about the batch: whatever the events
    are, a proof can be sent with them that is accepted. *)
Lemma catch_up_proof_unbound events : exists p,
  reconcileNode (Some (mkCatchUp (Some events) (Some p) false)) None = Some events.
Proof. exists (mkProof EmptyString EmptyString 0 []). done. Qed.
End sync.

(** ** The repair of a split mesh *)

(** A verified peer with its two answers to [GET_AUDIT_STATUS]: the head it
    reports, if the answer has one. *)
Record Peer := mkPeer { peer_id : jsstr; firstReport : option jsstr; secondReport : option jsstr }.

(** [resolveSplitBrain] for the local head [lastHash]: the peer whose state is
    requested. *)
Definition resolveSplitBrain (lastHash : jsstr) (verifiedNodes : list Peer) : option jsstr :=
  match verifiedNodes with
  | [] => None
  | _ =>
      match Mesh.majorityRoot lastHash (map firstReport verifiedNodes) with
      | None | Some [] => None
      | Some root =>
          if bool_decide (root = lastHash) then None
          else fmap peer_id (List.find (fun n => bool_decide (secondReport n = Some root)) verifiedNodes)
      end
  end.

(** [requestAuditSync]: the peer that is asked; its answer is not used. *)
Definition requestAuditSync (s : Mesh.Mesh) (nid : jsstr) : option Mesh.MeshNode :=
  match JsMap.get (Mesh.nodes s) nid with
  | Some node => if Mesh.verified node then Some node else None
  | None => None
  end.

(** A head that is reported by more than its threshold of the mesh, the local
    node not among them. *)
Definition outvoted (lastHash root : jsstr) (peers : list Peer) : Prop :=
  root <> lastHash /\ root <> [] /\
  Mesh.splitThreshold (Z.of_nat (length peers) + 1) <= Mesh.votes (map firstReport peers) root.

Lemma find_first nid root (l : list Peer) :
  fmap peer_id (List.find (fun n => bool_decide (secondReport n = Some root)) l) = Some nid <->
  exists pre p post, l = pre ++ p :: post /\ peer_id p = nid /\ secondReport p = Some root /\
    Forall (fun q => secondReport q <> Some root) pre.
Proof.
  induction l as [|x l IH]; cbn [List.find]; [split; [done|]; by intros ([] & ? & ? & [=] & _)|].
  case_bool_decide as Hx.
  - split; [intros [= <-]; by exists [], x, l|]. intros (pre & p & post & E & <- & Hp & Hpre).
    destruct pre as [|y pre]; [by simplify_eq/=|]. apply Forall_cons_1 in Hpre as [Hy _]. simplify_eq/=.
  - rewrite IH. split; intros (pre & p & post & E & Hid & Hp & Hpre).
    + exists (x :: pre), p, post. rewrite E. by repeat split; [..|constructor].
    + destruct pre as [|y pre]; [by simplify_eq/=|]. apply Forall_cons_1 in Hpre as [_ Hpre]. simplify_eq/=. by exists pre, p, post.
Qed.

Lemma outvoted_majority lastHash root peers : root <> [] ->
  (Mesh.majorityRoot lastHash (map firstReport peers) = Some root /\ root <> lastHash) <-> outvoted lastHash root peers.
Proof.
  intros Hne. rewrite Mesh.majority_iff. unfold outvoted. rewrite length_map.
  split.
  - intros [[Hin Ht] Hl]. rewrite bool_decide_eq_false_2 in Ht by done. repeat split; [done..|lia].
  - intros (Hl & _ & Ht). rewrite bool_decide_eq_false_2 by done. repeat split; [|lia|done].
    pose proof (Mesh.split_threshold_majority (Z.of_nat (length peers) + 1) ltac:(lia)).
    destruct (decide (Some root ∈ map firstReport peers)) as [|Hn]; [done|]. exfalso.
    rewrite Mesh.votes_absent in Ht by done. lia.
Qed.

(** A peer's state is requested exactly when the mesh has outvoted the local
    head: when a head other than the local one has the threshold of the
    reports (more than two thirds of a mesh of four or more, a majority of a
    smaller one), and the peer asked is the first that still reports it.  At
    most one head can be that one, so the order of the peers does not choose
    it. *)
Theorem split_repair_exact lastHash peers nid :
  resolveSplitBrain lastHash peers = Some nid <->
  exists root pre p post, outvoted lastHash root peers /\ peers = pre ++ p :: post /\ peer_id p = nid /\
    secondReport p = Some root /\ Forall (fun q => secondReport q <> Some root) pre.
Proof.
  assert (forall root pre p post, peers = pre ++ p :: post -> outvoted lastHash root peers -> peers <> [] /\
    Mesh.majorityRoot lastHash (map firstReport peers) = Some root /\ root <> lastHash) as Hroot.
  { intros root pre p post E Ho. split; [rewrite E; by destruct pre|]. by apply outvoted_majority; [apply Ho|]. }
  unfold resolveSplitBrain. split.
  - destruct peers as [|q qs] eqn:Ep; [done|]. rewrite <-Ep. destruct (Mesh.majorityRoot lastHash (map firstReport peers)) as [[|c root]|] eqn:Em; try done.
    case_bool_decide as Hl; [done|]. intros (pre & p & post & Hf)%find_first. exists (c :: root), pre, p, post.
    split; [|done]. by apply outvoted_majority.
  - intros (root & pre & p & post & Ho & E & Hf). destruct (Hroot _ _ _ _ E Ho) as (Hne & Em & Hl).
    destruct peers as [|q qs] eqn:Ep; [done|]. rewrite <-Ep in *. rewrite Em. destruct Ho as (_ & Hnil & _).
    destruct root as [|c root]; [done|]. rewrite bool_decide_eq_false_2 by done. apply find_first. by exists pre, p, post.
Qed.
End MeshSync.

(** ** Concrete meshes *)

Module MeshExamples.
Import JsString Canonical CanonicalInt Mesh MeshSync.

(** A keyed digest of the start of the text. *)
Definition hmac0 (secret t : jsstr) : list Z := Z.of_nat (length secret) mod 256 :: map (fun c => c mod 256) (take 8 t).
Definition sha0 (t : jsstr) : jsstr := js "3a".
Definition number0 (t : jsstr) : Z := 0.
Definition zero0 (n : Z) : bool := n =? 0.
Definition num0 (n : Z) : num := n.
Definition key0 (i t : jsstr) : option jsstr := None.

Definition sender0 : Config := mkConfig (js "alpha") 8000 (Some (js "secret")) false None.
Definition receiver0 : Config := mkConfig (js "beta") 8000 (Some (js "secret")) false (Some (js "10.0.0.0/8")).
Definition tpm0 : Config := mkConfig (js "beta") 8000 None true None.

Lemma hmac0_bytes s t : Base64.bytes_ok (hmac0 s t) /\ hmac0 s t <> [].
Proof.
  split; [|done]. unfold hmac0, Base64.bytes_ok. constructor; [apply Z.mod_pos_bound; lia|].
  apply Forall_map, Forall_forall. intros c _. apply Z.mod_pos_bound. lia.
Qed.

(** The authenticated text of an announcement starts with the announced id. *)
Lemma announced_mac p ts t : canonical (announcementPayload num0 (js "3a") p ts) = Resolved t ->
  hmac0 (js "secret") (default [] t) <> hmac0 (js "secret") (take 8 (js "{" ++ quote (js "id") ++ js ":" ++ quote (js "alpha"))).
Proof.
  assert (match canonical (announcementPayload num0 (js "3a") p ts) with Resolved t => take 8 (default [] t) | Rejected _ => [] end
    = take 8 (js "{" ++ quote (js "id") ++ js ":" ++ quote (js "3a"))) as E by (vm_compute; reflexivity).
  intros Ht. rewrite Ht in E. unfold hmac0. rewrite E. by vm_compute.
Qed.

(** A peer that was probed, answered with its signature, and is verified. *)
Definition body0 : jval := JObj [(js "success", JBool true); (js "nodeId", JStr (js "alpha"))].
Definition signature0 : jsstr := match signWithSecret hmac0 body0 (js "secret") with Resolved s => s | Rejected _ => [] end.
Definition ping0 : Ping := mkPing true body0 (Some signature0).
Definition inputs0 : list input :=
  [IConnected; IProbed (js "10.0.0.7") (js "alpha") 5; IProbed (js "127.0.0.1") (js "gamma") 6; IAnswer 0 (Some ping0) 7].
Definition run0 : Mesh := run hmac0 sha0 number0 num0 zero0 receiver0 new inputs0.

Lemma run0_registers : nodes run0 = [(js "alpha", mkNode (js "alpha") (js "alpha") (js "10.0.0.7") 8000 7 true)].
Proof. vm_compute. reflexivity. Qed.

Lemma peers_admissible_witness : Forall (fun e => id e.2 = e.1 /\ admissible number0 receiver0 e.2) (nodes run0).
Proof.
  apply (peers_admissible hmac0 sha0 number0 num0 zero0 receiver0 inputs0). by repeat constructor.
Defined.

Definition waiting0 : Mesh := run hmac0 sha0 number0 num0 zero0 receiver0 new (take 3 inputs0).

Lemma verified_by_handshake_witness : verified_at waiting0 (js "alpha") \/ exists j r now n,
  IAnswer 0 (Some ping0) 7 = IAnswer j (Some r) now /\ handshakes waiting0 !! j = Some n /\
  pingAccepted hmac0 zero0 receiver0 n r = true /\ field (p_body r) (js "nodeId") = Some (JStr (js "alpha")).
Proof.
  apply (verified_by_handshake hmac0 sha0 number0 num0 zero0 receiver0 waiting0 (IAnswer 0 (Some ping0) 7) (js "alpha")); [exact I|].
  exists (mkNode (js "alpha") (js "alpha") (js "10.0.0.7") 8000 7 true). split; vm_compute; reflexivity.
Defined.

Lemma peer_signature_forgeable_witness :
  verifySignature hmac0 tpm0 body0 (proxySignature (js "alpha") (Some (js "{'")) ) (Some (js "alpha")) = Resolved false /\
  exists t, verifySignature hmac0 tpm0 body0 (proxySignature (js "alpha") t) (Some (js "alpha")) = Resolved true.
Proof.
  split; [vm_compute; reflexivity|].
  exists (match canonical body0 with Resolved t => t | Rejected _ => None end).
  apply (peer_signature_forgeable hmac0 tpm0 body0 _ (js "alpha")); [reflexivity|vm_compute; reflexivity|discriminate].
Defined.

Definition peer0 (i : jsstr) : jsstr * MeshNode := (i, mkNode i i (js "10.0.0.9") 8000 0 true).
Definition mesh0 : Mesh := mkMesh [peer0 (js "a"); peer0 (js "b"); peer0 (js "c")] [] [] true.
Definition yes0 : option Answer := Some (mkAnswer true JNull None).

Lemma approval_needs_majority_witness :
  3 + 1 < 2 * Z.of_nat (count (fun p => counts hmac0 sender0 p.1 p.2) (combine (verifiedNodes mesh0) [yes0; yes0; yes0])) /\ 2 <= 3.
Proof. apply (approval_needs_majority hmac0 sender0 mesh0 [yes0; yes0; yes0]). vm_compute. reflexivity. Defined.

Definition announcement0 : jsstr := default [] (scanNetwork hmac0 sha0 num0 sender0 100).

Lemma announcement_rejected_witness :
  scanNetwork hmac0 sha0 num0 sender0 100 = Some announcement0 /\
  receive hmac0 sha0 num0 receiver0 100 120 announcement0 (js "10.0.0.7") = None.
Proof.
  split; [vm_compute; reflexivity|].
  apply (announcement_rejected hmac0 sha0 num0 sender0 receiver0 (js "secret") (js "3a") 100 announcement0);
    [reflexivity|reflexivity|discriminate|exact hmac0_bytes|vm_compute; reflexivity| |discriminate|apply js_code_units| |vm_compute; reflexivity].
  - split; [discriminate|by repeat constructor].
  - intros p' ts' t t' Ht Ht' E. destruct (announced_mac p' ts' t Ht). rewrite E.
    vm_compute in Ht'. injection Ht' as <-. vm_compute. reflexivity.
Defined.

Lemma subnet_scan_exact_witness :
  let groups := discoverSubnet false [(true, Net.decimal_quad 192 168 1 20)] in
  concat groups = map (fun i => Net.decimal_quad 192 168 1 (Z.of_nat i)) (List.filter (fun i => negb (Z.of_nat i =? 20)) (seq 1 254)) /\
  Forall (fun g => (length g <= 2)%nat) groups.
Proof. apply (subnet_scan_exact 192 168 1 20); lia. Defined.

(** Three of four nodes hold another head: the first that reports it is asked. *)
Lemma repair0 : resolveSplitBrain (js "h0")
  [mkPeer (js "a") (Some (js "h1")) None; mkPeer (js "b") (Some (js "h1")) (Some (js "h1")); mkPeer (js "c") (Some (js "h1")) (Some (js "h1"))]
  = Some (js "b").
Proof. vm_compute. reflexivity. Qed.
End MeshExamples.
