(* ===== verification/Routes.v ===== *)
(** * The routes of the console

    Models [buildRoutePath] and [compareRoutePaths] of
    [src/orchestrator/interface/web/routes/registry.ts] and the order in which
    [loadRouteModules] registers the routes: the router takes the first
    registered route that fits. *)

From S2P Require Import Prelude JsString JsSort Canonical.

Module Routes.
Import JsString Canonical.

Definition isParam (segment : jsstr) : bool := startsWith segment (js ":").

(** A folder's name as a path. *)
Definition buildSegment (segment : jsstr) : jsstr :=
  if startsWith segment (js "[") && endsWith segment (js "]")
  then js ":" ++ take (length segment - 2) (drop 1 segment)
  else segment.

Definition withoutKind (folderName : jsstr) : jsstr :=
  if startsWith folderName (js "ui--") then drop 4 folderName
  else if startsWith folderName (js "api--") then drop 5 folderName
  else folderName.

Definition buildRoutePath (folderName : jsstr) : jsstr :=
  js "/" ++ join (js "/") (map buildSegment (split (withoutKind folderName) (js "--"))).

(** The comparison of the segments; past the shorter path the lengths decide. *)
Fixpoint compareSegments (a b : list jsstr) : Z :=
  match a, b with
  | x :: a', y :: b' =>
      if negb (Bool.eqb (isParam x) (isParam y)) then (if isParam x then 1 else -1)
      else if bool_decide (x <> y) then (if jlt x y then -1 else 1)
      else compareSegments a' b'
  | _, _ => Z.of_nat (length a) - Z.of_nat (length b)
  end.

Definition compareRoutePaths (a b : jsstr) : Z := compareSegments (split a (js "/")) (split b (js "/")).

Definition route_lt (a b : jsstr) : bool := compareRoutePaths a b <? 0.

(** The paths of [loadRouteModules], sorted for registration. *)
Definition registrationOrder (folders : list jsstr) : list jsstr := stable_sort route_lt (map buildRoutePath folders).

(** ** The order is total *)

Definition segment_cmp (x y : jsstr) : Z :=
  if negb (Bool.eqb (isParam x) (isParam y)) then (if isParam x then 1 else -1)
  else if bool_decide (x <> y) then (if jlt x y then -1 else 1) else 0.

Lemma compareSegments_cons x a y b :
  compareSegments (x :: a) (y :: b) = if segment_cmp x y =? 0 then compareSegments a b else segment_cmp x y.
Proof.
  cbn [compareSegments]. unfold segment_cmp. destruct (negb _); [by destruct (isParam x)|].
  destruct (bool_decide _); [by destruct (jlt x y)|done].
Qed.

Lemma segment_cmp_opp x y : segment_cmp y x = - segment_cmp x y.
Proof.
  unfold segment_cmp. destruct (isParam x), (isParam y); try done; cbn [Bool.eqb negb];
    (repeat case_bool_decide; [|congruence|congruence|done]);
    (destruct (jlt x y) eqn:E1; [by rewrite (jlt_asym _ _ E1)|]); (destruct (jlt y x) eqn:E2; [done|]);
    by destruct (jlt_total _ _ E1 E2).
Qed.

Lemma segment_cmp_zero x y : segment_cmp x y = 0 <-> x = y.
Proof.
  unfold segment_cmp. split.
  - destruct (isParam x), (isParam y); try done; cbn [Bool.eqb negb]; case_bool_decide as Hd; try (by destruct (jlt x y));
      intros _; by apply dec_stable.
  - intros ->. rewrite Bool.eqb_reflx. cbn [negb]. by rewrite bool_decide_eq_false_2 by (intros Hn; by apply Hn).
Qed.

Lemma segment_cmp_trans x y z : 0 <= segment_cmp x y -> 0 <= segment_cmp y z -> 0 <= segment_cmp x z.
Proof.
  destruct (decide (x = y)) as [->|Hxy]; [done|]. destruct (decide (y = z)) as [->|Hyz]; [done|].
  unfold segment_cmp. destruct (isParam x), (isParam y), (isParam z); cbn [Bool.eqb negb]; try lia;
    rewrite ?(bool_decide_eq_true_2 (x <> y)), ?(bool_decide_eq_true_2 (y <> z)) by done;
    destruct (jlt x y) eqn:E1; try lia; destruct (jlt y z) eqn:E2; try lia; intros _ _;
    case_bool_decide; try lia; rewrite (jlt_ntrans z y x E2 E1); lia.
Qed.

Lemma segments_asym a : forall b, compareSegments a b < 0 -> 0 <= compareSegments b a.
Proof.
  induction a as [|x a IH]; intros [|y b]; try (cbn; lia). rewrite !compareSegments_cons, (segment_cmp_opp x y).
  destruct (Z.eqb_spec (segment_cmp x y) 0) as [E|E].
  - rewrite E. apply IH.
  - destruct (Z.eqb_spec (- segment_cmp x y) 0); lia.
Qed.

Lemma segments_trans c : forall b a, 0 <= compareSegments b a -> 0 <= compareSegments c b -> 0 <= compareSegments c a.
Proof.
  induction c as [|z c IH]; intros [|y b] [|x a]; try (cbn; lia). rewrite !compareSegments_cons.
  assert (forall x y, x <> y -> segment_cmp x y <> 0) as Hne by (intros u v Hd E; by apply Hd, segment_cmp_zero).
  destruct (decide (z = y)) as [->|Hzy].
  { rewrite (proj2 (segment_cmp_zero y y) eq_refl), Z.eqb_refl. destruct (Z.eqb_spec (segment_cmp y x) 0); [apply IH|done]. }
  rewrite (proj2 (Z.eqb_neq (segment_cmp z y) 0)) by auto. destruct (decide (y = x)) as [->|Hyx].
  { rewrite (proj2 (Z.eqb_neq (segment_cmp z x) 0)) by auto. done. }
  rewrite (proj2 (Z.eqb_neq (segment_cmp y x) 0)) by auto. intros H1 H2. destruct (decide (z = x)) as [->|Hzx].
  { exfalso. pose proof (segment_cmp_opp y x). pose proof (Hne _ _ Hyx). lia. }
  rewrite (proj2 (Z.eqb_neq (segment_cmp z x) 0)) by auto. by apply (segment_cmp_trans z y x).
Qed.

#[export] Instance route_lt_strict : StrictWeak route_lt.
Proof.
  split; unfold route_lt, compareRoutePaths.
  - intros a b E%Z.ltb_lt. by apply Z.ltb_ge, segments_asym.
  - intros a b c E1%Z.ltb_ge E2%Z.ltb_ge. apply Z.ltb_ge. by eapply segments_trans.
Qed.

(** ** Which route wins *)

(** The route [r] also fits the paths of [s], and is less specific: it has a
    parameter somewhere where [s] has a literal segment, and the same segment
    elsewhere. *)
Definition generalises (r s : list jsstr) : Prop :=
  r <> s /\ Forall2 (fun x y => x = y \/ isParam x = true /\ isParam y = false) r s.

Lemma generalises_lt r s : generalises r s -> compareSegments s r < 0.
Proof.
  intros [Hne Hf]. induction Hf as [|x y r s Hxy Hf IH]; [done|]. rewrite compareSegments_cons.
  destruct Hxy as [->|[Hx Hy]].
  - rewrite (proj2 (segment_cmp_zero y y) eq_refl). apply IH. congruence.
  - unfold segment_cmp. by rewrite Hx, Hy.
Qed.

(** The segments of a folder's route. *)
Definition routeSegments (folderName : jsstr) : list jsstr := split (buildRoutePath folderName) (js "/").

(** The more specific route wins: when a route's paths also fit a route with
    a parameter in place of a literal segment, the specific one is registered
    before the general one, whatever the order in which the folders are read;
    so the general one never takes its requests. *)
Theorem specific_route_first folders s r pre post :
  s ∈ folders -> generalises (routeSegments r) (routeSegments s) ->
  registrationOrder folders = pre ++ buildRoutePath r :: post -> buildRoutePath s ∈ pre.
Proof.
  intros Hs Hg E.
  assert (buildRoutePath s ∈ registrationOrder folders) as Hin.
  { unfold registrationOrder. apply stable_sort_elem, list_elem_of_In, in_map, list_elem_of_In. done. }
  assert (route_lt (buildRoutePath s) (buildRoutePath r) = true) as Hlt by (by apply Z.ltb_lt, generalises_lt).
  pose proof (stable_sort_ordered route_lt (map buildRoutePath folders)) as Ho. fold (registrationOrder folders) in Ho.
  rewrite E in Hin, Ho. apply elem_of_app in Hin as [?|Hin]; [done|]. exfalso.
  apply elem_of_cons in Hin as [Heq|Hin].
  - destruct Hg as [Hn _]. apply Hn. unfold routeSegments. by rewrite Heq.
  - clear E. induction pre as [|x pre IH]; [|by apply IH; inversion Ho].
    inversion Ho as [|? ? _ Hall]; subst. rewrite Forall_forall in Hall. specialize (Hall _ Hin). unfold in_order in Hall. congruence.
Qed.

Definition folders0 : list jsstr :=
  [js "api--agents--[name]"; js "api--agents--deception--[id]"; js "api--agents--deception"; js "api--agents--deception--canaries"].

Lemma order0 : registrationOrder folders0 =
  [js "/agents/deception"; js "/agents/deception/canaries"; js "/agents/deception/:id"; js "/agents/:name"].
Proof. vm_compute. reflexivity. Qed.

Lemma specific_route_first_witness : js "/agents/deception" ∈ [js "/agents/deception"; js "/agents/deception/canaries"; js "/agents/deception/:id"].
Proof.
  apply (specific_route_first folders0 (js "api--agents--deception") (js "api--agents--[name]")
    [js "/agents/deception"; js "/agents/deception/canaries"; js "/agents/deception/:id"] []).
  - apply (bool_decide_unpack (js "api--agents--deception" ∈ folders0)). vm_compute. exact I.
  - split; [vm_compute; discriminate|]. vm_compute. constructor; [by left|]. constructor; [by left|]. constructor; [by right|constructor].
  - exact order0.
Defined.
End Routes.
