(* ===== verification/WebAuth.v ===== *)
(** * The gate of the console

    Models [src/orchestrator/interface/web/middleware/security.ts]: who a
    request comes from ([resolveClientIp]), its authentication ([auth]) by
    session cookie with CSRF token, master token or API key, the role check
    ([requireRole]), the actor recorded in the audit trail ([getActor]); with the order [web_adapter.tsx] and
    [routes/registry.ts] put them in, and the login and logout handlers of
    [routes/ui--login/handlers.ts].  The rate limiter, the sessions and the API
    keys are the ones of [RateLimit], [Session] and [ApiKeys]; the blacklist,
    the configuration and the HMACs are parameters. *)

From S2P Require Import Prelude Result JsString Net Cidr Canonical Schemas Kv Session ApiKeys RateLimit Mesh.

Module WebAuth.
Import JsString.

(** ** Requests *)

(** A header, cookie or form field that is missing is [None]. *)
Record Request := mkRequest {
  path : jsstr;
  method : jsstr;
  directIp : option jsstr;           (* remoteAddr.hostname *)
  forwardedFor : option jsstr;       (* X-Forwarded-For *)
  sessionCookie : option jsstr;      (* session_token *)
  csrfHeader : option jsstr;         (* X-CT-Token *)
  contentType : option jsstr;
  csrfField : option jsstr;          (* csrfToken of the parsed form, {} when parsing fails *)
  authHeader : option jsstr;         (* Authorization *)
  apiKeyHeader : option jsstr;       (* X-Api-Key *)
  userAgent : option jsstr;
}.

(** A value that is present and not the empty string. *)
Definition present (o : option jsstr) : option jsstr := match o with Some (c :: s) => Some (c :: s) | _ => None end.

Definition resolveClientIp (directIp forwardedFor : option jsstr) (trustedProxies : jsstr) : jsstr :=
  let unproxied := default (js "unknown") (present directIp) in
  match present forwardedFor, present directIp with
  | Some forwarded, Some direct =>
      let trusted := List.filter (fun p => negb (bool_decide (p = []))) (map Cidr.trim (split trustedProxies (js ","))) in
      if bool_decide (direct ∈ trusted)
      then default direct (present (fmap Cidr.trim (head (split forwarded (js ",")))))
      else unproxied
  | _, _ => unproxied
  end.

Definition startsApi (p : jsstr) : bool := startsWith p (js "/api/").

Definition isAuthRoute (p : jsstr) : bool :=
  bool_decide (p = js "/login") || bool_decide (p = js "/login/") || bool_decide (p = js "/logout") || bool_decide (p = js "/logout/").

Definition isPublicPath (p : jsstr) : bool :=
  bool_decide (p = js "/style.css") || startsWith p (js "/vendor/") || startsWith p (js "/assets/") || startsWith p (js "/components/").

(** [/\.(css|js|png|jpg|jpeg|svg|json|ico|woff2?|ttf|otf)$/i] *)
Definition staticSuffixes : list jsstr :=
  [js ".css"; js ".js"; js ".png"; js ".jpg"; js ".jpeg"; js ".svg"; js ".json"; js ".ico"; js ".woff"; js ".woff2"; js ".ttf"; js ".otf"].
Definition isStaticAsset (p : jsstr) : bool := existsb (endsWith (toLowerCase p)) staticSuffixes.

Definition isMutation (m : jsstr) : bool :=
  bool_decide (m = js "POST") || bool_decide (m = js "DELETE") || bool_decide (m = js "PUT") || bool_decide (m = js "PATCH").

Definition isForm (contentType : option jsstr) : bool :=
  let t := default [] contentType in
  includes t (js "application/x-www-form-urlencoded") || includes t (js "multipart/form-data").

(** The text a limiter key is, as the limiter keeps it. *)
Fixpoint keyText (s : jsstr) : string :=
  match s with [] => EmptyString | c :: s => String (Ascii.ascii_of_N (Z.to_N c)) (keyText s) end.

Section gate.
Context {St M HS IS : Type} `{SessionRepository St M} `{Repository HS ApiKeyMetadata} `{Repository IS jsstr}.
Context (sha256 : jsstr -> jsstr) (hmac : jsstr -> list Z).
Context (masterToken trustedProxies : jsstr) (blacklisted : jsstr -> bool).

(** What the handlers behind the gate see of the requester. *)
Record Ctx := mkCtx { c_role : option Role; c_session : option (Session M); c_csrf : option jsstr }.

Definition anonymous : Ctx := mkCtx None None None.

Inductive Reply :=
| Blacklisted                        (* 403 BLACK_LIST_REJECT *)
| TooMany (retryAfterMs : Z)         (* 429 *)
| CsrfMissing                        (* 403 *)
| CsrfFault                          (* 403 *)
| Unauthorized                       (* 401 *)
| RedirectLogin
| Forbidden                          (* 403, requireRole *)
| ServerError                        (* an exception *)
| Next (c : Ctx).                    (* the request goes on *)

Record World := mkWorld {
  limiter : RateLimit.Service; sessionStore : St; keys : ApiKeysService.ApiKeysService HS IS }.

Definition with_limiter (l : RateLimit.Service) (w : World) : World := mkWorld l (sessionStore w) (keys w).
Definition with_sessions (s : St) (w : World) : World := mkWorld (limiter w) s (keys w).
Definition with_keys (k : ApiKeysService.ApiKeysService HS IS) (w : World) : World := mkWorld (limiter w) (sessionStore w) k.

Definition clientIp (r : Request) : jsstr := resolveClientIp (directIp r) (forwardedFor r) trustedProxies.

(** The CSRF check of a request with the session [x]. *)
Definition csrfCheck (r : Request) (x : Session M) : option Reply :=
  if isMutation (method r) then
    let check token :=
      match token with
      | Some t =>
          if bool_decide (csrfToken x = []) then Some CsrfFault
          else if Compare.secureCompare hmac (Some t) (Some (csrfToken x)) then None else Some CsrfFault
      | None => Some CsrfFault
      end in
    match present (csrfHeader r) with
    | Some t => check (Some t)
    | None => if isForm (contentType r) then check (present (csrfField r)) else Some CsrfMissing
    end
  else None.

(** The credentials other than a session. *)
Definition tokens (w : World) (r : Request) (now : Z) : World * Reply :=
  let refused := if startsApi (path r) then Unauthorized else RedirectLogin in
  let byKey :=
    match present (apiKeyHeader r) with
    | None => (w, refused)
    | Some k =>
        match ApiKeysService.validateApiKey sha256 hmac (keys w) (Some k) now with
        | (ks, ok (Some role)) => (with_keys ks w, Next (mkCtx (Some role) None (Some k)))
        | (ks, _) => (with_keys ks w, refused)
        end
    end in
  match authHeader r with
  | Some h =>
      if startsWith h (js "Bearer ") then
        let token := Cidr.trim (drop 7 h) in
        if Compare.secureCompare hmac (Some token) (Some masterToken)
        then (w, Next (mkCtx (Some admin) None (Some token)))
        else byKey
      else byKey
  | None => byKey
  end.

(** [auth] from the session on. *)
Definition credentials (w : World) (r : Request) (now seen : Z) : World * Reply :=
  match present (sessionCookie r) with
  | None => tokens w r now
  | Some sid =>
      match SessionService.validateSession (sessionStore w) sid now seen with
      | (s, Rejected _) => (with_sessions s w, ServerError)
      | (s, Resolved (inr _)) => tokens (with_sessions s w) r now
      | (s, Resolved (inl x)) =>
          (with_sessions s w,
           match csrfCheck r x with
           | Some refusal => refusal
           | None => Next (mkCtx (Some (Session.role x)) (Some x) (Some (csrfToken x)))
           end)
      end
  end.

(** The rate limit of [auth]: only the API is limited. *)
Definition rateCheck (w : World) (r : Request) (now : Z) : World * option RateLimit.RateLimitStatus :=
  if startsApi (path r) then
    let '(l, st) := RateLimit.checkLimit (keyText (clientIp r)) 500 60000 now (limiter w) in (with_limiter l w, Some st)
  else (w, None).

(** [auth()] at clock [now]; a session it accepts is seen at [seen]. *)
Definition auth (w : World) (r : Request) (now seen : Z) : World * Reply :=
  if blacklisted (clientIp r) then (w, Blacklisted)
  else
    let '(w, limited) := rateCheck w r now in
    match limited with
    | Some (RateLimit.Build_RateLimitStatus false _ _ retryAfterMs) => (w, TooMany retryAfterMs)
    | _ =>
        if isAuthRoute (path r) then (w, Next anonymous)
        else if isStaticAsset (path r) && isPublicPath (path r) then (w, Next anonymous)
        else credentials w r now seen
    end.

(** [requireRole(...allowedRoles)] *)
Definition requireRole (allowedRoles : list Role) (c : Ctx) : Reply :=
  match c_role c with
  | Some role => if bool_decide (role ∈ allowedRoles) then Next c else Forbidden
  | None => Forbidden
  end.

Definition guarded (allowedRoles : list Role) (a : World * Reply) : World * Reply :=
  match a with (w, Next c) => (w, requireRole allowedRoles c) | _ => a end.

(** ** The actor of the audit trail *)

Record Actor := mkActor { actor_id : jsstr; actor_role : jsstr; actor_ip : jsstr; actor_agent : option jsstr }.

(** [getActor]: a session has no [name]. *)
Definition getActor (r : Request) (c : Ctx) : Actor :=
  match c_session c with
  | Some x => mkActor (Session.id x) (role_text (Session.role x)) (clientIp r) (userAgent r)
  | None =>
      let role := match c_role c with Some role => role_text role | None => js "anonymous" end in
      mkActor (if bool_decide (c_role c = Some admin) then js "MASTER_TOKEN" else js "ANONYMOUS") role (clientIp r) (userAgent r)
  end.

(** ** Who gets through *)

Definition public (r : Request) : bool := isAuthRoute (path r) || (isStaticAsset (path r) && isPublicPath (path r)).

(** The request's cookie names a session that is stored and has not expired. *)
Definition live_session (w : World) (r : Request) (now : Z) (x : Session M) : Prop :=
  exists sid, present (sessionCookie r) = Some sid /\ sessions (sessionStore w) !! sid = Some x /\ now <= expiresAt x.

(** The token that a state-changing request carries: the header, or the field
    of a form when there is no header. *)
Definition carries (r : Request) (t : jsstr) : Prop :=
  present (csrfHeader r) = Some t \/
  present (csrfHeader r) = None /\ isForm (contentType r) = true /\ present (csrfField r) = Some t.

Definition csrf_ok (r : Request) (x : Session M) : Prop :=
  isMutation (method r) = true -> csrfToken x <> [] /\ exists t, carries r t /\ hmac t = hmac (csrfToken x).

Definition bearer (r : Request) (t : jsstr) : Prop :=
  exists rest, authHeader r = Some (js "Bearer " ++ rest) /\ t = Cidr.trim rest.

Definition is_master (r : Request) : Prop := exists t, bearer r t /\ hmac t = hmac masterToken.

(** What a request may do, for the API keys that [ops] has created and not revoked. *)
Inductive grant (ops : list ApiKeysService.op) (w : World) (r : Request) (now seen : Z) : Ctx -> Prop :=
| by_nothing : public r = true -> grant ops w r now seen anonymous
| by_session x : public r = false -> live_session w r now x -> csrf_ok r x ->
    grant ops w r now seen
      (mkCtx (Some (Session.role x)) (Some (SessionService.seen_at seen x)) (Some (csrfToken x)))
| by_master t : public r = false -> (forall x, ~ live_session w r now x) -> bearer r t -> hmac t = hmac masterToken ->
    grant ops w r now seen (mkCtx (Some admin) None (Some t))
| by_key k role : public r = false -> (forall x, ~ live_session w r now x) -> ~ is_master r ->
    present (apiKeyHeader r) = Some k -> ApiKeysService.accepts sha256 hmac (ApiKeysService.live ops) k = Some role ->
    grant ops w r now seen (mkCtx (Some role) None (Some k)).

Lemma compare_iff a b : Compare.secureCompare hmac (Some a) (Some b) = true <-> hmac a = hmac b.
Proof. unfold Compare.secureCompare. cbn [default]. by rewrite andb_true_r, Compare.secureCompareBytes_eq. Qed.

Lemma csrfCheck_iff r x : csrfCheck r x = None <-> csrf_ok r x.
Proof.
  unfold csrfCheck, csrf_ok, carries. destruct (isMutation (method r)); [|naive_solver].
  assert (forall t, (if bool_decide (csrfToken x = []) then Some CsrfFault
    else if Compare.secureCompare hmac (Some t) (Some (csrfToken x)) then None else Some CsrfFault) = None <->
    csrfToken x <> [] /\ hmac t = hmac (csrfToken x)) as Ht.
  { intros t. case_bool_decide; [naive_solver|]. rewrite <-compare_iff. destruct (Compare.secureCompare _ _ _); naive_solver. }
  destruct (present (csrfHeader r)) as [t|]; [rewrite Ht; naive_solver|].
  destruct (isForm _); [|naive_solver]. destruct (present (csrfField r)) as [t|]; [rewrite Ht; naive_solver|naive_solver].
Qed.

Lemma bearer_iff r t : bearer r t <-> exists h, authHeader r = Some h /\ startsWith h (js "Bearer ") = true /\ t = Cidr.trim (drop 7 h).
Proof.
  unfold bearer. split.
  - intros (rest & E & ->). exists (js "Bearer " ++ rest). split_and!; [done|apply startsWith_app|].
    by change 7%nat with (length (js "Bearer ")); rewrite drop_app_length.
  - intros (h & E & [rest ->]%startsWith_spec & ->). exists rest. split; [done|].
    by change 7%nat with (length (js "Bearer ")); rewrite drop_app_length.
Qed.

Lemma bearer_inj r t t' : bearer r t -> bearer r t' -> t = t'.
Proof. intros (x & E & ->) (y & E' & ->). rewrite E in E'. injection E' as E'. by subst. Qed.

Lemma is_master_dec r : {is_master r} + {~ is_master r}.
Proof.
  destruct (authHeader r) as [h|] eqn:E.
  - destruct (startsWith h (js "Bearer ")) eqn:Es.
    + destruct (Compare.secureCompare hmac (Some (Cidr.trim (drop 7 h))) (Some masterToken)) eqn:Ec.
      * left. exists (Cidr.trim (drop 7 h)). split; [apply bearer_iff; by exists h|by apply compare_iff].
      * right. intros (t & (h' & E' & _ & ->)%bearer_iff & Ht). simplify_eq. apply compare_iff in Ht. congruence.
    + right. intros (t & (h' & E' & Es' & _)%bearer_iff & _). simplify_eq. congruence.
  - right. intros (t & (h' & E' & _)%bearer_iff & _). congruence.
Qed.

Context (sha256_nonempty : forall s, sha256 s <> []).

Lemma tokens_iff ops w r now c : ApiKeysService.holds sha256 ops (keys w) ->
  snd (tokens w r now) = Next c <->
  (exists t, bearer r t /\ hmac t = hmac masterToken /\ c = mkCtx (Some admin) None (Some t)) \/
  ~ is_master r /\ exists k role, present (apiKeyHeader r) = Some k /\
    ApiKeysService.accepts sha256 hmac (ApiKeysService.live ops) k = Some role /\ c = mkCtx (Some role) None (Some k).
Proof.
  intros Hh. unfold tokens. set (byKey := match present (apiKeyHeader r) with Some _ => _ | None => _ end).
  assert (snd byKey = Next c <-> exists k role, present (apiKeyHeader r) = Some k /\
    ApiKeysService.accepts sha256 hmac (ApiKeysService.live ops) k = Some role /\ c = mkCtx (Some role) None (Some k)) as Hk.
  { subst byKey. destruct (apiKeyHeader r) as [[|ch k]|]; cbn [present].
    1,3: split; [destruct (startsApi _); done|naive_solver].
    pose proof (ApiKeysService.validate_accepts sha256 hmac sha256_nonempty ops (keys w) (ch :: k) now Hh ltac:(done)) as Hv.
    unfold ApiKeysService.validateApiKey. destruct (ApiKeysService.validateApiKey_ _ _ _ _ _) as [ks o]. cbn [snd] in Hv. subst o.
    cbn [withTelemetry]. destruct (ApiKeysService.accepts _ _ _ _) as [role|] eqn:Ea; cbn [snd].
    - split; [intros [= <-]; by exists (ch :: k), role|]. intros (k' & role' & ? & Ea' & ->). simplify_eq. done.
    - split; [by destruct (startsApi _)|]. intros (k' & role' & ? & ? & ->). simplify_eq. }
  destruct (is_master_dec r) as [(t & Hb & Ht)|Hn].
  - pose proof Hb as (h & -> & -> & Et)%bearer_iff. rewrite <-Et, (proj2 (compare_iff _ _) Ht). cbn [snd].
    split; [intros [= <-]; left; by exists t|].
    intros [(t' & Hb' & _ & ->)|[Hm _]]; [by rewrite (bearer_inj _ _ _ Hb Hb')|]. destruct Hm. by exists t.
  - assert (snd (match authHeader r with
      | Some h => if startsWith h (js "Bearer ") then
          if Compare.secureCompare hmac (Some (Cidr.trim (drop 7 h))) (Some masterToken)
          then (w, Next (mkCtx (Some admin) None (Some (Cidr.trim (drop 7 h))))) else byKey else byKey
      | None => byKey end) = snd byKey) as ->.
    { destruct (authHeader r) as [h|] eqn:E; [|done]. destruct (startsWith h _) eqn:Es; [|done].
      destruct (Compare.secureCompare _ _ _) eqn:Ec; [|done]. destruct Hn. exists (Cidr.trim (drop 7 h)).
      split; [apply bearer_iff; by exists h|by apply compare_iff]. }
    rewrite Hk. split; [by right|]. intros [(t & Hb & Ht & _)|[_ ?]]; [|done]. destruct Hn. by exists t.
Qed.

Lemma no_live_cookie w r now : present (sessionCookie r) = None -> forall x, ~ live_session w r now x.
Proof. intros E x (sid & Es & _). congruence. Qed.

(** Under the session lookup, what [credentials] grants. *)
Lemma credentials_iff ops w r now seen c : ApiKeysService.holds sha256 ops (keys w) -> writable (sessionStore w) ->
  public r = false -> snd (credentials w r now seen) = Next c <-> grant ops w r now seen c.
Proof.
  intros Hh Hw Hp. unfold credentials.
  assert (forall s, (forall x, ~ live_session w r now x) -> snd (tokens (with_sessions s w) r now) = Next c <-> grant ops w r now seen c) as Ht.
  { intros s Hno. rewrite (tokens_iff ops) by done. split.
    - intros [(t & Hb & Hm & ->)|(Hm & k & role & Hk & Ha & ->)]; [by apply by_master|by apply by_key].
    - intros []; [congruence|naive_solver|left; by eexists|right; split; [done|by eexists _, _]]. }
  destruct (present (sessionCookie r)) as [sid|] eqn:Es.
  2:{ specialize (Ht (sessionStore w) (no_live_cookie w r now Es)). by destruct w. }
  unfold SessionService.validateSession, SessionService.validateSession_with. rewrite getById_view.
  destruct (sessions (sessionStore w) !! sid) as [x|] eqn:Ex.
  2:{ cbn [snd]. apply Ht. intros x (sid' & ? & ? & _). congruence. }
  destruct (Z.ltb_spec (expiresAt x) now) as [Hlt|Hle].
  - destruct (delete_ok (sessionStore w) sid Hw) as (s' & -> & _). apply Ht.
    intros x' (sid' & ? & ? & ?). assert (x' = x) as -> by congruence. lia.
  - assert (live_session w r now x) as Hx by (by exists sid). clear Ht.
    destruct (save_ok (sessionStore w) (SessionService.seen_at seen x) Hw) as (s' & -> & _). cbn [snd].
    pose proof (csrfCheck_iff r (SessionService.seen_at seen x)) as Hc. split.
    + destruct (csrfCheck r _) as [refusal|] eqn:Ec.
      * intros ->. exfalso. clear - Ec. unfold csrfCheck in Ec. repeat case_match; congruence.
      * intros [= <-]. apply by_session; [done..|]. by apply Hc.
    + intros Hg. destruct Hg as [?|x0 _ Hx0 Hok|t _ Hno|k role _ Hno]; [congruence| |exfalso; by apply (Hno x)..].
      assert (x0 = x) as -> by (destruct Hx as (? & ? & ? & _), Hx0 as (? & ? & ? & _); congruence).
      by rewrite (proj2 Hc).
Qed.

Definition within_limit (w : World) (r : Request) (now : Z) : Prop :=
  startsApi (path r) = true ->
  RateLimit.allowed (RateLimit.checkLimit (keyText (clientIp r)) 500 60000 now (limiter w)).2 = true.

Lemma grant_limiter ops l w r now seen c : grant ops (with_limiter l w) r now seen c <-> grant ops w r now seen c.
Proof. split; intros []; econstructor; eauto. Qed.

(** The routes of [auth] after the limit. *)
Lemma routes_iff ops w r now seen c : ApiKeysService.holds sha256 ops (keys w) -> writable (sessionStore w) ->
  snd (if isAuthRoute (path r) then (w, Next anonymous)
       else if isStaticAsset (path r) && isPublicPath (path r) then (w, Next anonymous)
       else credentials w r now seen) = Next c <-> grant ops w r now seen c.
Proof.
  intros Hh Hw. destruct (public r) eqn:Ep.
  - assert ((if isAuthRoute (path r) then (w, Next anonymous)
       else if isStaticAsset (path r) && isPublicPath (path r) then (w, Next anonymous)
       else credentials w r now seen) = (w, Next anonymous)) as ->.
    { unfold public in Ep. destruct (isAuthRoute _); [done|]. by destruct (_ && _). }
    split; [intros [= <-]; by apply by_nothing|]. by intros []; [|congruence..].
  - rewrite <-(credentials_iff ops w r now seen c Hh Hw Ep). unfold public in Ep.
    apply orb_false_iff in Ep as [-> ->]. done.
Qed.

(** C9: The gate lets a request through, with the role, session and token it
    attaches, exactly when its client is not blacklisted, an API request is
    within its rate limit, and the grant is due: a login page or public asset
    as nobody; the stored, unexpired session of the cookie, with the token of
    that session on a state-changing request; without such a session the
    master token as administrator; without both an API key that was issued and
    not revoked, with the role it was issued for. *)
Theorem auth_exact ops w r now seen c :
  ApiKeysService.holds sha256 ops (keys w) -> writable (sessionStore w) ->
  snd (auth w r now seen) = Next c <->
  blacklisted (clientIp r) = false /\ within_limit w r now /\ grant ops w r now seen c.
Proof.
  intros Hh Hw. unfold auth, rateCheck, within_limit. destruct (blacklisted _); [naive_solver|].
  destruct (startsApi (path r)) eqn:Ea; [|rewrite routes_iff by done; naive_solver].
  destruct (RateLimit.checkLimit _ _ _ _ _) as [l [[] n R retry]]; cbn [snd RateLimit.allowed]; [|naive_solver].
  rewrite (routes_iff ops (with_limiter l w) r now seen c) by done. rewrite grant_limiter. naive_solver.
Qed.

Lemma auth_grants ops w r now seen c : ApiKeysService.holds sha256 ops (keys w) -> writable (sessionStore w) ->
  snd (auth w r now seen) = Next c -> grant ops w r now seen c.
Proof.
  intros Hh Hw. unfold auth, rateCheck. destruct (blacklisted _); [done|].
  destruct (startsApi (path r)); [|by apply routes_iff].
  destruct (RateLimit.checkLimit _ _ _ _ _) as [l [[] n R retry]]; [|done].
  intros Hs. by apply (grant_limiter ops l), routes_iff.
Qed.

(** ** Routes behind the gate *)

Lemma api_not_public p : startsApi p = true -> isAuthRoute p = false /\ isPublicPath p = false.
Proof.
  intros [rest ->]%startsWith_spec. split; [|reflexivity].
  unfold isAuthRoute. rewrite !bool_decide_eq_false_2; [done|..]; intros E; discriminate E.
Qed.

(** A route of the API runs only for a requester that has one of the roles
    the route names and was authenticated by a session, the master token or
    an API key: nothing of the API is public. *)
Theorem api_roles_enforced ops w r now seen roles c :
  ApiKeysService.holds sha256 ops (keys w) -> writable (sessionStore w) -> startsApi (path r) = true ->
  snd (guarded roles (auth w r now seen)) = Next c ->
  exists role, c_role c = Some role /\ role ∈ roles /\
    ((exists x, live_session w r now x /\ role = Session.role x /\ csrf_ok r x) \/
     (is_master r /\ role = admin) \/
     (exists k, present (apiKeyHeader r) = Some k /\
        ApiKeysService.accepts sha256 hmac (ApiKeysService.live ops) k = Some role)).
Proof.
  intros Hh Hw Ha. unfold guarded. destruct (auth w r now seen) as [w' reply] eqn:E. destruct reply as [| | | | | | | |c']; try done.
  assert (snd (auth w r now seen) = Next c') as Hs by (by rewrite E).
  apply (auth_grants ops) in Hs as Hg; [|done..].
  cbn [snd]. unfold requireRole. destruct (c_role c') as [role|] eqn:Er; [|done].
  case_bool_decide as Hin; [|done]. intros [= <-]. exists role. split_and!; [done..|].
  destruct (api_not_public _ Ha) as [H1' H2'].
  destruct Hg as [Hp|x _ Hx Hc|t _ _ Hb Ht|k role' _ _ _ Hk Hacc]; cbn [c_role] in Er; simplify_eq/=.
  - left. by exists x.
  - right. left. split; [by exists t|done].
  - right. right. by exists k.
Qed.

(** ** The rate limit, end to end *)

(** Requests, and what else the limiter does: its other users, its flushes and
    the writes that settle. *)
Inductive traffic := TRequest (r : Request) (now seen : Z) | TLimiter (e : RateLimit.event).

Definition entry : Type := Request * option RateLimit.RateLimitStatus * Reply.

Definition serve1 (w : World) (x : traffic) : World * list entry :=
  match x with
  | TRequest r now seen =>
      let '(w', reply) := auth w r now seen in
      (w', [(r, if blacklisted (clientIp r) then None else snd (rateCheck w r now), reply)])
  | TLimiter e => (with_limiter (RateLimit.step (limiter w) e).1 w, [])
  end.

Fixpoint serve (w : World) (xs : list traffic) : World * list entry :=
  match xs with
  | [] => (w, [])
  | x :: xs => let '(w', es) := serve1 w x in let '(w'', es') := serve w' xs in (w'', es ++ es')
  end.

(** The calls of the limiter. *)
Definition limiter_event (x : traffic) : list RateLimit.event :=
  match x with
  | TRequest r now _ =>
      if blacklisted (clientIp r) then [] else
      if startsApi (path r) then [RateLimit.Check (keyText (clientIp r)) 500 60000 now] else []
  | TLimiter e => [e]
  end.

Definition own_status (e : entry) : option (string * RateLimit.RateLimitStatus) :=
  pair (keyText (clientIp e.1.1)) <$> e.1.2.

Lemma tokens_limiter w r now : limiter (tokens w r now).1 = limiter w.
Proof.
  unfold tokens. set (byKey := match present (apiKeyHeader r) with Some _ => _ | None => _ end).
  assert (limiter byKey.1 = limiter w) as Hk.
  { subst byKey. destruct (present _); [|done]. by destruct (ApiKeysService.validateApiKey _ _ _ _ _) as [? [[]|]]. }
  repeat case_match; done.
Qed.

Lemma credentials_limiter w r now seen : limiter (credentials w r now seen).1 = limiter w.
Proof.
  unfold credentials. destruct (present _); [|apply tokens_limiter].
  destruct (SessionService.validateSession _ _ _ _) as [s [[]|]]; [done|apply (tokens_limiter (with_sessions s w))|done].
Qed.

Lemma auth_limiter w r now seen : limiter (auth w r now seen).1 =
  if blacklisted (clientIp r) then limiter w else limiter (rateCheck w r now).1.
Proof.
  unfold auth. destruct (blacklisted _); [done|]. destruct (rateCheck w r now) as [w' o].
  assert (limiter (if isAuthRoute (path r) then (w', Next anonymous)
       else if isStaticAsset (path r) && isPublicPath (path r) then (w', Next anonymous)
       else credentials w' r now seen).1 = limiter w') as Hr.
  { destruct (isAuthRoute _); [done|]. destruct (_ && _); [done|]. apply credentials_limiter. }
  destruct o as [[[] ? ? ?]|]; done.
Qed.

Lemma serve1_limiter w x : limiter (serve1 w x).1 = (RateLimit.run (limiter w) (limiter_event x)).1 /\
  omap own_status (serve1 w x).2 `sublist_of` (RateLimit.run (limiter w) (limiter_event x)).2.
Proof.
  destruct x as [r now seen|e]; cbn [serve1 limiter_event].
  - pose proof (auth_limiter w r now seen) as Hl. destruct (auth w r now seen) as [w' reply]. cbn [fst snd] in *. rewrite Hl.
    unfold rateCheck. destruct (blacklisted _); [done|]. destruct (startsApi _); [|done].
    cbn [RateLimit.run RateLimit.step]. destruct (RateLimit.checkLimit _ _ _ _ _) as [l st]. done.
  - cbn [RateLimit.run]. destruct (RateLimit.step (limiter w) e) as [l rs] eqn:E. split; [done|]. apply sublist_nil_l.
Qed.

Lemma run_app s es es' : RateLimit.run s (es ++ es') =
  let '(s1, rs) := RateLimit.run s es in let '(s2, rs') := RateLimit.run s1 es' in (s2, rs ++ rs').
Proof.
  revert s. induction es as [|e es IH]; intros s; cbn [RateLimit.run app]; [by destruct (RateLimit.run s es')|].
  destruct (RateLimit.step s e) as [s0 r]. rewrite IH. destruct (RateLimit.run s0 es) as [s1 rs].
  destruct (RateLimit.run s1 es') as [s2 rs']. by rewrite app_assoc.
Qed.

Lemma serve_limiter xs : forall w,
  omap own_status (serve w xs).2 `sublist_of` (RateLimit.run (limiter w) (flat_map limiter_event xs)).2.
Proof.
  induction xs as [|x xs IH]; intros w; cbn [serve flat_map]; [done|]. destruct (serve1_limiter w x) as [Hl Hs].
  rewrite run_app. destruct (serve1 w x) as [w' es]. specialize (IH w'). destruct (serve w' xs) as [w'' es'].
  destruct (RateLimit.run (limiter w) (limiter_event x)) as [l rs]. cbn [fst snd] in *. subst l.
  destruct (RateLimit.run (limiter w') _) as [l' rs']. cbn [snd] in *. rewrite omap_app. by apply sublist_app.
Qed.

Definition is_next (reply : Reply) : bool := match reply with Next _ => true | _ => false end.

Lemma serve_allowed xs : forall w, Forall (fun e : entry => is_next e.2 = true -> forall st, e.1.2 = Some st -> RateLimit.allowed st = true)
  (serve w xs).2.
Proof.
  induction xs as [|x xs IH]; intros w; cbn [serve]; [constructor|].
  assert (Forall (fun e : entry => is_next e.2 = true -> forall st, e.1.2 = Some st -> RateLimit.allowed st = true) (serve1 w x).2) as H1x.
  { destruct x as [r now seen|e]; cbn [serve1]; [|constructor]. destruct (auth w r now seen) as [w' reply] eqn:E.
    constructor; [|constructor]. cbn [fst snd]. intros Hn st. unfold auth in E. destruct (blacklisted _); [done|].
    destruct (rateCheck w r now) as [w1 o]. cbn [snd]. intros ->. destruct st as [[] n R retry]; [done|].
    injection E as _ <-. done. }
  destruct (serve1 w x) as [w' es]. specialize (IH w'). destruct (serve w' xs) as [w'' es']. by apply Forall_app.
Qed.

(** The requests of the peer [d] that got through in the window ending at [R]. *)
Definition passed (d : jsstr) (R : Z) (e : entry) : bool :=
  bool_decide (directIp e.1.1 = Some d) && match e.1.2 with Some st => RateLimit.st_resetAt st =? R | None => false end && is_next e.2.

Definition proxies : list jsstr := List.filter (fun p => negb (bool_decide (p = []))) (map Cidr.trim (split trustedProxies (js ","))).

Lemma untrusted_ip d f : d <> [] -> d ∉ proxies -> resolveClientIp (Some d) f trustedProxies = d.
Proof.
  intros Hd Hn. unfold resolveClientIp. fold proxies. destruct d as [|c d]; [done|]. cbn [present].
  destruct (present f); [|done]. by rewrite bool_decide_eq_false_2.
Qed.

Lemma passed_admitted d R es : d <> [] -> d ∉ proxies ->
  Forall (fun e : entry => is_next e.2 = true -> forall st, e.1.2 = Some st -> RateLimit.allowed st = true) es ->
  Z.of_nat (count (passed d R) es) <= RateLimit.admitted (keyText d) R (omap own_status es).
Proof.
  intros Hd Hn. unfold RateLimit.admitted. induction 1 as [|[[r o] reply] es He _ IH]; [done|].
  rewrite count_cons. unfold passed at 1. cbn [fst snd] in *. cbn [omap list_omap]. unfold own_status at 1. cbn [fst snd].
  destruct o as [st|]; cbn [fmap option_fmap option_map]; [|rewrite andb_false_r; exact IH]. cbn [List.filter].
  case_bool_decide as Hr; cbn [andb]; [|case_match; cbn [length]; lia].
  unfold clientIp. rewrite Hr, untrusted_ip by done. unfold RateLimit.in_window at 1. cbn [fst snd].
  rewrite bool_decide_eq_true_2 by done. cbn [andb]. destruct (_ =? R); cbn [andb]; [|lia].
  destruct (is_next reply) eqn:Er; [|case_match; cbn [length]; lia]. rewrite (He eq_refl st eq_refl). cbn [length]. lia.
Qed.

Lemma filter_sublist_length {A} (P : A -> bool) (l k : list A) : l `sublist_of` k -> (length (List.filter P l) <= length (List.filter P k))%nat.
Proof. induction 1 as [|x l k _ IH|x l k _ IH]; simpl; [done|destruct (P x); simpl; lia|destruct (P x); simpl; lia]. Qed.

(** C10: A client gets at most 500 requests through to the API in any one minute
    window, whatever its other headers say: unless the peer is a trusted proxy
    its own address is the key, so that a forged X-Forwarded-For buys nothing;
    for every interleaving of requests of all clients with the limiter's own
    flushes, writes and other users, on a clock that does not go back. *)
Theorem api_rate_bounded w xs d R start :
  d <> [] -> d ∉ proxies -> limiter w = RateLimit.new ->
  RateLimit.well_timed start (keyText d) 500 (flat_map limiter_event xs) ->
  Z.of_nat (count (passed d R) (serve w xs).2) <= 500.
Proof.
  intros Hd Hn Hw Ht. etrans; [apply passed_admitted; [done..|apply serve_allowed]|].
  pose proof (serve_limiter xs w) as Hs. rewrite Hw in Hs.
  destruct (RateLimit.window_run _ _ _ _ _ _ Ht (RateLimit.window_new _ _ start)) as [now' Hinv].
  pose proof (RateLimit.win_adm _ _ _ _ _ Hinv R) as Ha. cbn [app] in Ha. unfold RateLimit.admitted in *.
  pose proof (filter_sublist_length (fun e => RateLimit.in_window (keyText d) R e && RateLimit.allowed e.2) _ _ Hs). lia.
Qed.

(** ** The audit trail's actor *)

(** The actor that the audit trail records for a request with a session is
    the session's id, which is the secret of the cookie: whoever reads the
    trail holds a credential. *)
Theorem actor_is_cookie ops w r now seen c x : ApiKeysService.holds sha256 ops (keys w) -> writable (sessionStore w) ->
  SessionService.keyed (sessionStore w) ->
  snd (auth w r now seen) = Next c -> c_session c = Some x -> sessionCookie r = Some (actor_id (getActor r c)).
Proof.
  intros Hh Hw Hk Hs Hx. apply (auth_grants ops) in Hs; [|done..].
  destruct Hs as [|x' _ (sid & Hc & Hl & _) _| |]; cbn [c_session] in Hx; try done.
  unfold getActor. cbn [c_session actor_id]. apply (Hk sid) in Hl. cbn. rewrite Hl. unfold present in Hc. by repeat case_match.
Qed.

(** ** Logging in and out *)

(** The clock, the session's random id and its token. *)
Inductive LoginReply := LimitedLogin (retryAfterMs : Z) | InvalidToken | SessionFailed | LoggedIn (cookie : jsstr).

Definition isTokenValid (w : World) (token : option jsstr) (now : Z) : World * option Role :=
  if Compare.secureCompare hmac token (Some masterToken) then (w, Some admin)
  else
    match ApiKeysService.validateApiKey sha256 hmac (keys w) token now with
    | (ks, ok r) => (with_keys ks w, r)
    | (ks, err _) => (with_keys ks w, None)
    end.

Definition cookieSecurityAttrs (disableHttps : bool) : jsstr := if disableHttps then [] else js "Secure; ".

(** [postLoginHandler]; [name] is the session's metadata for a role. *)
Definition postLogin (ttlHours cookieHours : Z) (disableHttps : bool) (name : Role -> M)
    (w : World) (directIp forwardedFor token : option jsstr) (uuid csrf : jsstr) (now : Z) : World * LoginReply :=
  let ip := resolveClientIp directIp forwardedFor trustedProxies in
  let '(l, st) := RateLimit.checkLimit (keyText (js "login:" ++ ip)) 10 60000 now (limiter w) in
  let w := with_limiter l w in
  if RateLimit.allowed st then
    match isTokenValid w token now with
    | (w, None) => (w, InvalidToken)
    | (w, Some role) =>
        match SessionService.createSession ttlHours (sessionStore w) uuid csrf now (role_text role) role (Some (name role)) with
        | (s, Rejected _) => (with_sessions s w, SessionFailed)
        | (s, Resolved x) =>
            (with_sessions s w,
             if bool_decide (Session.id x = []) then SessionFailed
             else LoggedIn (js "session_token=" ++ Session.id x ++ js "; Path=/; HttpOnly; SameSite=Strict; "
                            ++ cookieSecurityAttrs disableHttps ++ js "Max-Age=" ++ decimal (cookieHours * 3600)))
        end
    end
  else (w, LimitedLogin (RateLimit.retryAfterMs st)).

(** [logoutHandler] *)
Definition logout (w : World) (cookie : option jsstr) : World * bool :=
  match present cookie with
  | None => (w, true)
  | Some sid =>
      match SessionService.revokeSession (sessionStore w) sid with
      | (s, Resolved _) => (with_sessions s w, true)
      | (s, Rejected _) => (with_sessions s w, false)
      end
  end.

Lemma isTokenValid_limiter l w token now :
  (isTokenValid (with_limiter l w) token now).2 = (isTokenValid w token now).2 /\
  sessionStore (isTokenValid (with_limiter l w) token now).1 = sessionStore w.
Proof.
  unfold isTokenValid. destruct (Compare.secureCompare _ _ _); [done|]. cbn [keys with_limiter].
  by destruct (ApiKeysService.validateApiKey _ _ _ _ _) as [ks []].
Qed.

(** A login makes a session that works and ends: after a successful login
    the cookie is the session of the token's role, exactly for the configured
    lifetime, and after the logout it is no session at any time. *)
Theorem login_logout_roundtrip ttlHours cookieHours https name w d f token uuid csrf now w' cookie :
  writable (sessionStore w) ->
  postLogin ttlHours cookieHours https name w d f token uuid csrf now = (w', LoggedIn cookie) ->
  exists role, (isTokenValid w token now).2 = Some role /\
  (forall r now', sessionCookie r = Some uuid ->
     (now' <= now + SessionService.ttl ttlHours <-> exists x, live_session w' r now' x /\ Session.role x = role)) /\
  (forall r now' x, sessionCookie r = Some uuid -> ~ live_session (logout w' (Some uuid)).1 r now' x).
Proof.
  intros Hw. unfold postLogin. destruct (RateLimit.checkLimit _ _ _ _ _) as [l st]. destruct (RateLimit.allowed st); [|done].
  destruct (isTokenValid_limiter l w token now) as [Hr Hs]. rewrite <-Hr.
  destruct (isTokenValid _ token now) as [w1 [role|]]; [|done]. cbn [fst snd] in *. unfold SessionService.createSession.
  set (x := mkSession _ _ _ _ _ _ _ _). rewrite <-Hs in Hw. destruct (save_ok (sessionStore w1) x Hw) as (s & -> & Hw' & Es).
  case_bool_decide as Hid; [done|]. intros [= <- _]. exists role. change (Session.id x) with uuid in Hid, Es.
  assert (forall r, sessionCookie r = Some uuid -> present (sessionCookie r) = Some uuid) as Hp.
  { intros r ->. by destruct uuid. }
  assert (sessions s !! uuid = Some x) as Hx by (by rewrite Es, lookup_insert_eq).
  split; [done|]. split.
  - intros r now' Hc. unfold live_session. cbn [sessionStore with_sessions]. split.
    + intros Hle. exists x. split; [|done]. exists uuid. by rewrite Hp.
    + intros (y & (sid & E & Ey & Hle) & _). rewrite Hp in E by done. injection E as <-. rewrite Hx in Ey. by injection Ey as <-.
  - intros r now' y Hc. unfold logout. assert (present (Some uuid) = Some uuid) as -> by (by destruct uuid).
    unfold SessionService.revokeSession. cbn [sessionStore with_sessions].
    destruct (delete_ok s uuid Hw') as (s' & -> & _ & Ed). intros (sid & E & Ey & _). rewrite Hp in E by done. simplify_eq.
    cbn [fst sessionStore with_sessions] in Ey. by rewrite Ed, lookup_delete_eq in Ey.
Qed.
End gate.
End WebAuth.
