(* ===== verification/MeshWeb.v ===== *)
(** * The mesh over HTTP

    Models the peers' gate ([meshAuth] of [middleware/security.ts], behind the
    global middleware of [web_adapter.tsx] and before the role check of
    [routes/registry.ts]), the handlers of [/api/mesh/sync] and [/api/mesh/ping]
    under [interface/web/routes], and the messages [domain/orchestration/mesh.ts]
    sends them ([broadcastBlock] ... [broadcastAuditVerification],
    [sendSyncInternal], the probe of [probeNode]), so that a message can be
    followed from its sender to what the receiver does with it. *)

From S2P Require Import Prelude Result JsMap JsString Net Cidr Base64 Canonical Schemas Kv Session ApiKeys RateLimit Mesh WebAuth.

Module MeshWeb.
Import JsString Canonical WebAuth.

(** A request to a mesh route: its headers and its JSON body, if it parses. *)
Record MeshRequest := mkMeshRequest {
  base : Request;
  m_signature : option jsstr;        (* X-Mesh-Signature *)
  m_psk : option jsstr;              (* X-Mesh-Secret *)
}.

Section web.
#[local] Set Default Proof Using "Type".
Context `{JsNumber}.
Context {St M HS IS : Type} `{SessionRepository St M} `{Repository HS ApiKeyMetadata} `{Repository IS jsstr}.
Context (sha256 : jsstr -> jsstr) (hmac : jsstr -> list Z).
Context (masterToken trustedProxies : jsstr) (blacklisted : jsstr -> bool).
Context (mac : jsstr -> jsstr -> list Z).         (* HMAC by secret and text *)

Notation World := (@World St HS IS).
Notation Ctx := (@Ctx M).
Notation Reply := (@Reply M).
Notation auth := (WebAuth.auth sha256 hmac masterToken trustedProxies blacklisted).

Definition peer_ctx : Ctx := mkCtx (Some mesh_peer) None None.

(** [meshAuth(meshSecret)]; [cfg] is the mesh manager's.  A body that does not
    parse is [None]; the JSON value [null] counts as none. *)
Definition meshAuth (cfg : Mesh.Config) (w : World) (r : MeshRequest) (body : option jval) (now seen : Z) : World * Reply :=
  let fallThrough := auth w (base r) now seen in
  match Mesh.setting (Mesh.meshSecret cfg) with
  | None => fallThrough
  | Some secret =>
      if match present (m_psk r) with Some psk => Compare.secureCompare hmac (Some psk) (Some secret) | None => false end
      then (w, Next peer_ctx)
      else
        match present (m_signature r), body with
        | None, _ | _, None | _, Some JNull => fallThrough
        | Some sig, Some payload =>
            match Mesh.verifySignature mac cfg payload sig None with
            | Resolved true => (w, Next peer_ctx)
            | Resolved false => fallThrough
            | Rejected _ => (w, ServerError)
            end
        end
  end.

(** The middleware of [web_adapter.tsx]: what goes on to the routes. *)
Definition skipsAuth (p : jsstr) : bool :=
  bool_decide (p = js "/login") || bool_decide (p = js "/logout") || startsWith p (js "/assets/") || startsWith p (js "/vendor/")
  || bool_decide (p = js "/style.css") || startsWith p (js "/api/mesh/").

Definition globalGate (w : World) (r : Request) (now seen : Z) : World * Reply :=
  if skipsAuth (path r) then (w, Next anonymous) else auth w r now seen.

(** A mesh route as [registerApiRoutes] mounts it. *)
Definition meshRoute (roles : list Role) (cfg : Mesh.Config) (w : World) (r : MeshRequest) (body : option jval) (now seen : Z)
  : World * Reply :=
  match globalGate w (base r) now seen with
  | (w, Next _) => guarded roles (meshAuth cfg w r body now seen)
  | refused => refused
  end.

Definition sync_roles : list Role := [admin; operator; viewer; mesh_peer].

(** ** What a peer sends *)

(** The messages of the [broadcast...] methods. *)
Inductive Gossip :=
| GBlock (ip : jsstr) (ts : num)
| GQuarantine (target : jsstr) (ts : num)
| GThreatHash (hash source : jsstr) (ts : num)
| GLockdown (ts : num)
| GAudit (event : jval) (fromAudit : option bool)
| GAuditVerify (lastHash : jsstr) (eventCount : num).

Definition gossipFields (nodeId : jsstr) (g : Gossip) : list (jsstr * jval) :=
  match g with
  | GBlock ip ts => [(js "type", JStr (js "GOSSIP_BLOCK"));
      (js "data", JObj [(js "ip", JStr ip); (js "sourceNode", JStr nodeId); (js "timestamp", JNum ts)])]
  | GQuarantine target ts => [(js "type", JStr (js "GOSSIP_QUARANTINE"));
      (js "data", JObj [(js "target", JStr target); (js "sourceNode", JStr nodeId); (js "timestamp", JNum ts)])]
  | GThreatHash hash source ts => [(js "type", JStr (js "GOSSIP_THREAT_HASH"));
      (js "data", JObj [(js "hash", JStr hash); (js "sourceNode", JStr source); (js "timestamp", JNum ts)])]
  | GLockdown ts => [(js "type", JStr (js "GOSSIP_LOCKDOWN"));
      (js "data", JObj [(js "sourceNode", JStr nodeId); (js "timestamp", JNum ts)])]
  | GAudit event fromAudit => [(js "type", JStr (js "GOSSIP_AUDIT")); (js "data", event)]
      ++ match fromAudit with Some b => [(js "fromAudit", JBool b)] | None => [] end
  | GAuditVerify lastHash eventCount => [(js "type", JStr (js "GOSSIP_AUDIT_VERIFY"));
      (js "data", JObj [(js "lastHash", JStr lastHash); (js "eventCount", JNum eventCount); (js "node", JStr nodeId)])]
  end.

(** [sendSyncInternal]: the body and its signature.  The gossip manager has
    added the hop count, the padding is random. *)
Definition wireBody (fields : list (jsstr * jval)) (hops : option num) (padding : jsstr) : jval :=
  JObj (fields ++ match hops with Some h => [(js "hops", JNum h)] | None => [] end ++ [(js "_p", JStr padding)]).

(** The trust root signs with the key of the node by writing the key's name and
    the text ([SignProxy] of [agents/trustroot/src/main.rs]). *)
Definition signProxy (keys : list jsstr) (nodeId text : jsstr) : option jsstr :=
  if bool_decide (nodeId ∈ keys) then Some (js "p-sig:" ++ (js "node-key-" ++ nodeId) ++ js ":" ++ text) else None.

Definition sendSync (keys : list jsstr) (cfg : Mesh.Config) (body : jval) : settled (option jsstr) CanonError :=
  match Mesh.setting (Mesh.meshSecret cfg) with
  | None => Resolved None
  | Some _ => match Mesh.signPayload mac (signProxy keys) cfg body with Resolved s => Resolved (Some s) | Rejected e => Rejected e end
  end.

(** ** The handler of [/api/mesh/sync] *)

Inductive Action :=
| ABlock (ip : jval)                 (* firewall.blockIp *)
| AThreat (payload : jval)           (* audit.logEvent, MESH_THREAT *)
| ASyncEvents (events : jval)        (* audit.syncEvents *)
| ALockdown (payload : jval)         (* mediator.broadcastEvent, MESH_LOCKDOWN *)
| ARequestSync (node : option jval). (* mesh.requestAuditSync *)

Inductive SyncReply :=
| STooMany (retryAfterMs : Z) | SInvalidSignature | SMissingSignature | SStale | SException
| SCatchUp                           (* events with a proof, a full sync, or no events *)
| SSnapshot | SSuccess.

Context (is_zero : num -> bool).                  (* 0, -0 and NaN *)
Context (asText : jval -> jsstr).                 (* String(v), for a value that is not a string *)
Context (tooOld : Z -> jval -> bool).             (* Math.abs(now - v) > 300000 *)
Context (fewerThan : jval -> bool).               (* the local count < v *)
Context (gateway : option jsstr).

Definition text (v : jval) : jsstr := match v with JStr s => s | _ => asText v end.

Definition typeIs (payload : jval) (t : jsstr) : bool :=
  match Mesh.field payload (js "type") with Some (JStr s) => bool_decide (s = t) | _ => false end.

Definition truthyField (payload : jval) (k : jsstr) : option jval :=
  let v := Mesh.field payload k in if Mesh.truthy v is_zero then v else None.

(** The effects of an accepted message, in order.  A hash has [slice] when it
    is a text or a list; the other condition of [GOSSIP_AUDIT_VERIFY] follows
    from the comparison of the counts. *)
Definition actions (payload : jval) : list Action * bool :=
  let block := if typeIs payload (js "GOSSIP_BLOCK") then
      match truthyField payload (js "ip") with
      | Some ip => if Net.isValidIP (text ip) && negb (Net.isCriticalInfrastructure gateway (text ip)) then [ABlock ip] else []
      | None => []
      end else [] in
  let '(threat, thrown) := if typeIs payload (js "GOSSIP_THREAT_HASH") then
      match truthyField payload (js "hash") with
      | Some (JStr _) | Some (JArr _) => ([AThreat payload], false)
      | Some _ => ([], true)
      | None => ([], false)
      end else ([], false) in
  let sync := if typeIs payload (js "GOSSIP_AUDIT") then
      match truthyField payload (js "events") with Some es => [ASyncEvents es] | None => [] end else [] in
  let lockdown := if typeIs payload (js "GOSSIP_LOCKDOWN") then [ALockdown payload] else [] in
  let verify := if typeIs payload (js "GOSSIP_AUDIT_VERIFY") then
      match Mesh.field payload (js "count") with
      | Some n => if fewerThan n then [ARequestSync (Mesh.field payload (js "sourceNode"))] else []
      | None => []
      end else [] in
  (block ++ threat ++ sync ++ lockdown ++ verify, thrown).

Definition replyOf (payload : jval) : SyncReply :=
  if typeIs payload (js "MERKLE_CATCH_UP") then SCatchUp
  else if typeIs payload (js "FETCH_STATE") then SSnapshot
  else SSuccess.

(** The handler. *)
Definition sync (cfg : Mesh.Config) (w : World) (r : MeshRequest) (body : option jval) (now : Z) : World * list Action * SyncReply :=
  let ip := clientIp trustedProxies (base r) in
  let '(l, st) := RateLimit.checkLimit (keyText (js "mesh_sync:" ++ ip)) 100 1000 now (limiter w) in
  let w := with_limiter l w in
  if RateLimit.allowed st then
    match body with
    | None => (w, [], SException)
    | Some payload =>
        let authentic :=
          match present (m_signature r) with
          | Some sig =>
              match Mesh.verifySignature mac cfg payload sig None with
              | Resolved true => None
              | Resolved false => Some SInvalidSignature
              | Rejected _ => Some SException
              end
          | None => match Mesh.setting (Mesh.meshSecret cfg) with Some _ => Some SMissingSignature | None => None end
          end in
        match authentic with
        | Some refused => (w, [], refused)
        | None =>
            match payload with
            | JNull => (w, [], SException)
            | _ =>
                match truthyField payload (js "timestamp") with
                | Some ts => if tooOld now ts then (w, [], SStale) else
                    let '(acts, thrown) := actions payload in (w, acts, if thrown then SException else replyOf payload)
                | None => let '(acts, thrown) := actions payload in (w, acts, if thrown then SException else replyOf payload)
                end
            end
        end
    end
  else (w, [], STooMany (RateLimit.retryAfterMs st)).

(** ** The handler of [/api/mesh/ping] *)

Inductive PingReply := BadTimestamp | UnauthorizedProbe | AuthenticationRequired | PingException | Pong (body : jval) (signature : jsstr).

Context (num_of : Z -> num).

Definition probePayload (target : jsstr) (ts : Z) : jval := JObj [(js "target", JStr target); (js "ts", JNum (num_of ts))].

(** [probeNode]'s signature for the probe of [address]. *)
Definition probeSignature (cfg : Mesh.Config) (address : jsstr) (ts : Z) : settled jsstr CanonError :=
  match Mesh.setting (Mesh.meshSecret cfg) with
  | None => Resolved (js "unsigned")
  | Some secret => Mesh.signWithSecret mac (probePayload address ts) secret
  end.

Definition ping (keys : list jsstr) (cfg : Mesh.Config) (production : bool) (remote : option jsstr) (ts sig : option jsstr) (now : Z) : PingReply :=
  let address := default (js "unknown") (present remote) in
  let pong :=
    let payload := JObj [(js "success", JBool true); (js "nodeId", JStr (Mesh.nodeId cfg)); (js "timestamp", JNum (num_of now))] in
    match Mesh.signPayload mac (signProxy keys) cfg payload with Resolved s => Pong payload s | Rejected _ => PingException end in
  match present ts, present sig with
  | Some ts, Some sig =>
      match Cidr.parseInt ts with
      | None => BadTimestamp
      | Some n =>
          match Mesh.verifySignature mac cfg (probePayload address n) sig None with
          | Resolved true => pong
          | Resolved false => UnauthorizedProbe
          | Rejected _ => PingException
          end
      end
  | _, _ => if production then AuthenticationRequired else pong
  end.

(** The handshake of [validateAndRegisterNode] sends neither [ts] nor [sig]. *)
Lemma handshake_refused_in_production keys cfg remote now : ping keys cfg true remote None None now = AuthenticationRequired.
Proof. done. Qed.

(** ** From the sender to the effect *)

Lemma lookupField_app a b k : Mesh.lookupField (a ++ b) k = match Mesh.lookupField a k with Some v => Some v | None => Mesh.lookupField b k end.
Proof. induction a as [|[k' v] a IH]; simpl; [done|]. by case_bool_decide. Qed.

(** The fields a message has on the wire: those of its payload, the hop count
    and the padding. *)
Lemma wire_field fields hops padding k : k <> js "hops" -> k <> js "_p" ->
  Mesh.field (wireBody fields hops padding) k = Mesh.lookupField fields k.
Proof.
  intros Hh Hp. unfold wireBody, Mesh.field. rewrite !lookupField_app. destruct (Mesh.lookupField fields k); [done|].
  assert (Mesh.lookupField [(js "_p", JStr padding)] k = None) as E
    by (cbn [Mesh.lookupField]; by rewrite bool_decide_eq_false_2 by congruence).
  rewrite E. destruct hops; [|done]. cbn [Mesh.lookupField]. by rewrite bool_decide_eq_false_2 by congruence.
Qed.

Lemma wire_actions nodeId g hops padding : let body := wireBody (gossipFields nodeId g) hops padding in
  truthyField body (js "timestamp") = None /\
  actions body = (match g with GLockdown _ => [ALockdown body] | _ => [] end, false).
Proof.
  intros body. subst body. unfold actions, truthyField, typeIs. rewrite !wire_field by discriminate.
  destruct g as [| | | |e []|]; split; reflexivity.
Qed.

(** Of everything the mesh manager broadcasts only a lockdown has an effect
    on its peers: blocks, quarantines, threat hashes, audit events and audit
    verifications carry their content under [data], the handler reads it
    elsewhere and does nothing, whoever sent it and whatever the request's
    signature; and since the time stamp is read elsewhere too no message is
    ever stale. *)
Theorem gossip_without_effect nodeId g hops padding cfg w r now w' acts reply :
  sync cfg w r (Some (wireBody (gossipFields nodeId g) hops padding)) now = (w', acts, reply) ->
  (acts <> [] -> exists ts, g = GLockdown ts) /\ reply <> SStale.
Proof.
  unfold sync. destruct (RateLimit.checkLimit _ _ _ _ _) as [l st]. destruct (RateLimit.allowed st); [|intros [= <- <- <-]; by split].
  set (authentic := match present (m_signature r) with Some _ => _ | None => _ end).
  assert (authentic <> Some SStale) as Hs by (subst authentic; repeat case_match; congruence).
  destruct authentic as [refused|]; [intros [= <- <- <-]; split; [done|congruence]|].
  pose proof (wire_actions nodeId g hops padding) as [Et Ea]. cbv zeta in *. rewrite Et, Ea.
  unfold wireBody at 1. intros [= <- <- <-]. split; [intros Hn; destruct g; try done; by eexists|].
  unfold replyOf. repeat case_match; congruence.
Qed.

(** ** Whose messages are let in *)

(** A request that has no credential of the console. *)
Definition bare (r : Request) : Prop := sessionCookie r = None /\ authHeader r = None /\ apiKeyHeader r = None.

Lemma bare_refused w r now seen c : bare r -> startsApi (path r) = true -> snd (auth w r now seen) <> Next c.
Proof.
  intros (E1 & E2 & E3) Ha. unfold WebAuth.auth, rateCheck. rewrite Ha. destruct (blacklisted _); [done|].
  destruct (RateLimit.checkLimit _ _ _ _ _) as [l [[] n R retry]]; [|done]. destruct (api_not_public _ Ha) as [-> ->].
  rewrite andb_false_r. unfold credentials, tokens. rewrite E1, E2, E3. cbn [present]. by rewrite Ha.
Qed.

Definition mesh_path (r : MeshRequest) : Prop := startsWith (path (base r)) (js "/api/mesh/") = true.

Lemma mesh_path_api r : mesh_path r -> startsApi (path (base r)) = true.
Proof. unfold mesh_path, startsApi. intros [rest ->]%startsWith_spec. reflexivity. Qed.

Lemma meshRoute_gate roles cfg w r body now seen : mesh_path r ->
  meshRoute roles cfg w r body now seen = guarded roles (meshAuth cfg w r body now seen).
Proof. intros Hp. unfold meshRoute, globalGate, skipsAuth. rewrite Hp, orb_true_r. done. Qed.

Lemma signProxy_is_proxy keys nodeId t : nodeId ∈ keys -> signProxy keys nodeId t = Some (Mesh.proxySignature nodeId (Some t)).
Proof. intros Hk. unfold signProxy. by rewrite bool_decide_eq_true_2. Qed.

Lemma proxy_inj i j t : Mesh.proxySignature i t = Mesh.proxySignature j t -> i = j.
Proof.
  unfold Mesh.proxySignature. generalize (default (js "undefined") t). intros u E. apply app_inv_head in E.
  by apply app_inv_tail in E.
Qed.

(** What the receiver makes of a signature in TPM-resident mode. *)
Lemma verify_proxy cfg payload i t : Mesh.tpmMode cfg = true -> canonical payload = Resolved t ->
  Mesh.verifySignature mac cfg payload (Mesh.proxySignature i t) None = Resolved (bool_decide (i = Mesh.nodeId cfg)).
Proof.
  intros Hm Hc. unfold Mesh.verifySignature. rewrite Hm, Hc.
  assert (startsWith (Mesh.proxySignature i t) (js "p-sig:") = true) as ->.
  { unfold Mesh.proxySignature. change (js "p-sig:node-key-") with (js "p-sig:" ++ js "node-key-"). rewrite <-app_assoc. apply startsWith_app. }
  cbn [andb Mesh.setting default]. f_equal. apply bool_decide_ext. split; [apply proxy_inj|by intros ->].
Qed.

(** C40: In the TPM-resident mode the peers' gate is the wrong way round: the
    receiver checks a signature against its own id, so that every message a
    peer signs with its own key is refused, while anybody who knows the
    receiver's id writes a signature that is accepted as a peer's. *)
Theorem tpm_gate_inverted keys sender receiver w r body sig t now seen :
  mesh_path r -> bare (base r) -> m_psk r = None -> m_signature r = Some sig ->
  Mesh.tpmMode sender = true -> Mesh.tpmMode receiver = true -> Mesh.nodeId sender ∈ keys ->
  Mesh.nodeId sender <> Mesh.nodeId receiver -> Mesh.setting (Mesh.meshSecret receiver) <> None ->
  canonical body = Resolved (Some t) -> body <> JNull ->
  (sendSync keys sender body = Resolved (Some sig) -> forall c, snd (meshRoute sync_roles receiver w r (Some body) now seen) <> Next c) /\
  (sig = Mesh.proxySignature (Mesh.nodeId receiver) (Some t) ->
   snd (meshRoute sync_roles receiver w r (Some body) now seen) = Next peer_ctx).
Proof.
  intros Hp Hb Hpsk Hsig Hts Htr Hk Hne Hsec Hc Hnull. rewrite meshRoute_gate by done. unfold meshAuth.
  destruct (Mesh.setting (Mesh.meshSecret receiver)) as [secret|] eqn:Es; [|done]. rewrite Hpsk. cbn [present].
  assert (forall i, present (Some (Mesh.proxySignature i (Some t))) = Some (Mesh.proxySignature i (Some t))) as Hpr by done.
  rewrite Hsig. split.
  - unfold sendSync. destruct (Mesh.setting (Mesh.meshSecret sender)); [|done]. unfold Mesh.signPayload.
    rewrite Hts, Hc. cbn [default]. rewrite signProxy_is_proxy by done. cbn [default]. intros [= <-] c.
    rewrite Hpr, verify_proxy, bool_decide_eq_false_2 by done.
    assert (forall (X : Type) (a b : X), match body with JNull => a | _ => b end = b) as -> by (by destruct body).
    pose proof (bare_refused w (base r) now seen) as Hno. unfold guarded.
    destruct (WebAuth.auth _ _ _ _ _ _ _ _ _) as [w' reply]. cbn [snd] in Hno.
    destruct reply as [| | | | | | | |c']; try done. by destruct (Hno c' Hb (mesh_path_api r Hp)).
  - intros ->. rewrite Hpr, verify_proxy, bool_decide_eq_true_2 by done. by destruct body.
Qed.

(** With the shared secret (and no TPM-resident keys) the mesh recognises
    its own: every message a peer signs is let in as a peer's, and its
    signature passes the handler's own check. *)
Theorem secret_peer_accepted keys sender receiver secret w r body sig now seen :
  (forall s t, Base64.bytes_ok (mac s t) /\ mac s t <> []) ->
  mesh_path r -> m_signature r = Some sig ->
  Mesh.tpmMode sender = false -> Mesh.tpmMode receiver = false -> secret <> [] ->
  Mesh.meshSecret sender = Some secret -> Mesh.meshSecret receiver = Some secret ->
  sendSync keys sender body = Resolved (Some sig) -> body <> JNull ->
  snd (meshRoute sync_roles receiver w r (Some body) now seen) = Next peer_ctx /\
  Mesh.verifySignature mac receiver body sig None = Resolved true.
Proof.
  intros Hmac Hp Hsig Hts Htr Hne Hs Hr. unfold sendSync, Mesh.signPayload. rewrite Hs, Hts.
  destruct secret as [|c secret]; [done|]. cbn [Mesh.setting].
  destruct (Mesh.signWithSecret mac body (c :: secret)) as [s|] eqn:E; [|done]. intros [= ->] Hnull.
  assert (Mesh.verifySignature mac receiver body sig None = Resolved true) as Hv.
  { unfold Mesh.verifySignature. rewrite Htr, Hr. cbn [andb Mesh.setting]. f_equal.
    apply (Mesh.secret_signature_verifies mac); [apply Hmac|done]. }
  split; [|done]. rewrite meshRoute_gate by done. unfold meshAuth. rewrite Hr. cbn [Mesh.setting].
  destruct (match present (m_psk r) with Some _ => _ | None => _ end); [done|]. rewrite Hsig.
  assert (present (Some sig) = Some sig) as ->.
  { unfold Mesh.signWithSecret in E. destruct (canonical body) as [t|]; [|done]. injection E as <-.
    destruct (Hmac (c :: secret) (default [] t)) as [_ Hn]. by destruct (mac _ _) as [|x [|y [|z l]]]. }
  rewrite Hv. by destruct body.
Qed.

End web.
End MeshWeb.
