(* ===== verification/WebExamples.v ===== *)
(** * Concrete requests

    A console with one session, one API key and a rate limiter, and two mesh
    nodes, on which the theorems about the gate are used. *)

From S2P Require Import Prelude Result JsMap JsString Net Cidr Base64 Canonical Schemas Kv Session ApiKeys RateLimit Mesh MeshSync WebAuth MeshWeb.

Module WebExamples.
Import JsString WebAuth MeshWeb.

Definition store0 : SessionExamples.store_type :=
  SessionService.run 1 SessionExamples.empty_store (take 1 SessionExamples.ops).
Definition keys0 : ApiKeysService.ApiKeysService ApiKeyExamples.hs ApiKeyExamples.is_ :=
  ApiKeysService.run ApiKeyExamples.sha0 ApiKeyExamples.hmac0 ApiKeyExamples.service0 ApiKeyExamples.ops0.
Definition world0 : World (St := SessionExamples.store_type) := mkWorld RateLimit.new store0 keys0.

Lemma keys0_hold : ApiKeysService.holds ApiKeyExamples.sha0 ApiKeyExamples.ops0 keys0.
Proof.
  apply ApiKeysService.holds_run.
  - exact ApiKeyExamples.sha0_nonempty.
  - repeat split.
  - exact ApiKeyExamples.ops0_ok.
  - apply (bool_decide_unpack (NoDup (ApiKeysService.hashes ApiKeyExamples.sha0 ApiKeyExamples.ops0))). vm_compute. exact I.
Qed.

Definition request0 (m : jsstr) (cookie csrf : option jsstr) (forwarded : option jsstr) : Request :=
  mkRequest (js "/api/agents") m (Some (js "10.1.1.1")) forwarded cookie csrf None None None None None.
Definition good0 : Request := request0 (js "POST") (Some (js "s1")) (Some (js "c1")) None.
Definition black0 (ip : jsstr) : bool := bool_decide (ip = js "6.6.6.6").
Notation W0 := (@World SessionExamples.store_type ApiKeyExamples.hs ApiKeyExamples.is_).
Notation R0 := (@Reply jsstr).
Definition auth0 (w : W0) (r : Request) (now seen : Z) : W0 * R0 :=
  auth ApiKeyExamples.sha0 ApiKeyExamples.hmac0 (js "master") (js "10.9.9.9") black0 w r now seen.
Definition ctx0 : Ctx (M := jsstr) := mkCtx (Some operator) (Some (SessionService.seen_at 8 SessionExamples.alice)) (Some (js "c1")).

Lemma good0_passes : snd (auth0 world0 good0 7 8) = Next ctx0.
Proof. vm_compute. reflexivity. Qed.

Lemma store0_ok : writable store0 /\ SessionService.keyed store0.
Proof.
  apply (SessionService.run_spec 1); [reflexivity|]. unfold SessionService.keyed. apply map_Forall_empty.
Qed.

Lemma auth_exact_witness : black0 (js "10.1.1.1") = false /\ within_limit (js "10.9.9.9") world0 good0 7 /\
  grant ApiKeyExamples.sha0 ApiKeyExamples.hmac0 (js "master") ApiKeyExamples.ops0 world0 good0 7 8 ctx0.
Proof.
  apply (auth_exact ApiKeyExamples.sha0 ApiKeyExamples.hmac0 (js "master") (js "10.9.9.9") black0
    ApiKeyExamples.sha0_nonempty ApiKeyExamples.ops0 world0 good0 7 8 ctx0 keys0_hold (proj1 store0_ok)).
  exact good0_passes.
Defined.

Lemma api_roles_enforced_witness : exists role, c_role ctx0 = Some role /\ role ∈ [admin; operator] /\
  ((exists x, live_session world0 good0 7 x /\ role = Session.role x /\ csrf_ok ApiKeyExamples.hmac0 good0 x) \/
   (is_master ApiKeyExamples.hmac0 (js "master") good0 /\ role = admin) \/
   (exists k, present (apiKeyHeader good0) = Some k /\
      ApiKeysService.accepts ApiKeyExamples.sha0 ApiKeyExamples.hmac0 (ApiKeysService.live ApiKeyExamples.ops0) k = Some role)).
Proof.
  apply (api_roles_enforced ApiKeyExamples.sha0 ApiKeyExamples.hmac0 (js "master") (js "10.9.9.9") black0
    ApiKeyExamples.sha0_nonempty ApiKeyExamples.ops0 world0 good0 7 8 [admin; operator] ctx0 keys0_hold (proj1 store0_ok) eq_refl).
  vm_compute. reflexivity.
Defined.

(** Two requests that claim to come from elsewhere, with a flush between them. *)
Definition traffic0 : list traffic :=
  [TRequest (request0 (js "GET") (Some (js "s1")) None (Some (js "1.2.3.4"))) 7 8; TLimiter (RateLimit.Flush 9);
   TRequest (request0 (js "GET") (Some (js "s1")) None (Some (js "5.6.7.8"))) 10 11].
Definition serve0 : list (entry (M := jsstr)) :=
  (serve ApiKeyExamples.sha0 ApiKeyExamples.hmac0 (js "master") (js "10.9.9.9") black0 world0 traffic0).2.

Lemma api_rate_bounded_witness : count (passed (js "10.1.1.1") 60007) serve0 = 2%nat /\
  Z.of_nat (count (passed (js "10.1.1.1") 60007) serve0) <= 500.
Proof.
  split; [vm_compute; reflexivity|].
  apply (api_rate_bounded ApiKeyExamples.sha0 ApiKeyExamples.hmac0 (js "master") (js "10.9.9.9") black0
    world0 traffic0 (js "10.1.1.1") 60007 0); [discriminate| |reflexivity|].
  - apply (bool_decide_unpack (js "10.1.1.1" ∉ proxies (js "10.9.9.9"))). vm_compute. exact I.
  - vm_compute. repeat split; discriminate.
Defined.

Lemma actor_is_cookie_witness : sessionCookie good0 = Some (actor_id (getActor (js "10.9.9.9") good0 ctx0)).
Proof.
  apply (actor_is_cookie ApiKeyExamples.sha0 ApiKeyExamples.hmac0 (js "master") (js "10.9.9.9") black0
    ApiKeyExamples.sha0_nonempty ApiKeyExamples.ops0 world0 good0 7 8 ctx0 (SessionService.seen_at 8 SessionExamples.alice)
    keys0_hold (proj1 store0_ok) (proj2 store0_ok)); [exact good0_passes|reflexivity].
Defined.

Definition login0 : W0 * LoginReply :=
  postLogin ApiKeyExamples.sha0 ApiKeyExamples.hmac0 (js "master") (js "10.9.9.9") 1 24 false (fun _ => js "n") world0
    (Some (js "10.1.1.1")) None (Some (js "master")) (js "u7") (js "t7") 50.
Definition cookie0 : jsstr := js "session_token=u7; Path=/; HttpOnly; SameSite=Strict; Secure; Max-Age=86400".

Lemma login0_works : login0.2 = LoggedIn cookie0.
Proof. vm_compute. reflexivity. Qed.

Lemma login_logout_roundtrip_witness : exists role,
  (isTokenValid ApiKeyExamples.sha0 ApiKeyExamples.hmac0 (js "master") world0 (Some (js "master")) 50).2 = Some role /\
  (forall r now', sessionCookie r = Some (js "u7") ->
     (now' <= 50 + SessionService.ttl 1 <-> exists x, live_session login0.1 r now' x /\ Session.role x = role)) /\
  (forall r now' x, sessionCookie r = Some (js "u7") -> ~ live_session (logout login0.1 (Some (js "u7"))).1 r now' x).
Proof.
  apply (login_logout_roundtrip ApiKeyExamples.sha0 ApiKeyExamples.hmac0 (js "master") (js "10.9.9.9") 1 24 false (fun _ => js "n") world0
    (Some (js "10.1.1.1")) None (Some (js "master")) (js "u7") (js "t7") 50 login0.1 cookie0 (proj1 store0_ok)).
  rewrite <-login0_works. exact (surjective_pairing login0).
Defined.

(** ** Two nodes of a mesh *)

Import Canonical CanonicalInt.

Definition node_a : Mesh.Config := Mesh.mkConfig (js "alpha") 8000 (Some (js "secret")) false None.
Definition node_b : Mesh.Config := Mesh.mkConfig (js "beta") 8000 (Some (js "secret")) false None.
Definition tpm_a : Mesh.Config := Mesh.mkConfig (js "alpha") 8000 (Some (js "secret")) true None.
Definition tpm_b : Mesh.Config := Mesh.mkConfig (js "beta") 8000 (Some (js "secret")) true None.
Definition mac0 : jsstr -> jsstr -> list Z := MeshExamples.hmac0.

Definition block0 : Gossip (H := int_number) := GBlock (js "6.6.6.6") 3.
Definition fields0 : list (jsstr * jval) := gossipFields (js "alpha") block0.
Definition body0 : jval := wireBody fields0 (Some 1) (js "xyz").
Definition text0 : jsstr := match canonical body0 with Resolved (Some t) => t | _ => [] end.
Definition sent0 (keys : list jsstr) (cfg : Mesh.Config) : jsstr :=
  match sendSync mac0 keys cfg body0 with Resolved (Some s) => s | _ => [] end.
Definition mesh_request0 (sig : jsstr) : MeshRequest :=
  mkMeshRequest (mkRequest (js "/api/mesh/sync") (js "POST") (Some (js "10.0.0.8")) None None None None None None None None) (Some sig) None.
Definition route0 (cfg : Mesh.Config) (sig : jsstr) : W0 * R0 :=
  meshRoute ApiKeyExamples.sha0 ApiKeyExamples.hmac0 (js "master") (js "10.9.9.9") black0 mac0 sync_roles cfg world0
    (mesh_request0 sig) (Some body0) 7 8.

Lemma tpm_gate_inverted_witness :
  (forall c, (route0 tpm_b (sent0 [js "alpha"] tpm_a)).2 <> Next c) /\
  (route0 tpm_b (Mesh.proxySignature (js "beta") (Some text0))).2 = Next peer_ctx.
Proof.
  split.
  - apply (tpm_gate_inverted ApiKeyExamples.sha0 ApiKeyExamples.hmac0 (js "master") (js "10.9.9.9") black0 mac0 [js "alpha"]
      tpm_a tpm_b world0 (mesh_request0 (sent0 [js "alpha"] tpm_a)) body0 (sent0 [js "alpha"] tpm_a) text0 7 8);
      [reflexivity|repeat split|reflexivity|reflexivity|reflexivity|reflexivity|by left|discriminate|discriminate|vm_compute; reflexivity|discriminate|vm_compute; reflexivity].
  - apply (tpm_gate_inverted ApiKeyExamples.sha0 ApiKeyExamples.hmac0 (js "master") (js "10.9.9.9") black0 mac0 [js "alpha"]
      tpm_a tpm_b world0 (mesh_request0 (Mesh.proxySignature (js "beta") (Some text0))) body0 (Mesh.proxySignature (js "beta") (Some text0)) text0 7 8);
      [reflexivity|repeat split|reflexivity|reflexivity|reflexivity|reflexivity|by left|discriminate|discriminate|vm_compute; reflexivity|discriminate|reflexivity].
Defined.

Lemma secret_peer_accepted_witness : (route0 node_b (sent0 [] node_a)).2 = Next peer_ctx /\
  Mesh.verifySignature mac0 node_b body0 (sent0 [] node_a) None = Resolved true.
Proof.
  apply (secret_peer_accepted ApiKeyExamples.sha0 ApiKeyExamples.hmac0 (js "master") (js "10.9.9.9") black0 mac0 []
    node_a node_b (js "secret") world0 (mesh_request0 (sent0 [] node_a)) body0 (sent0 [] node_a) 7 8);
    [exact MeshExamples.hmac0_bytes|reflexivity|reflexivity|reflexivity|reflexivity|discriminate|reflexivity|reflexivity|vm_compute; reflexivity|discriminate].
Defined.

Definition handled0 : W0 * list Action * SyncReply :=
  sync (H := int_number) (js "10.9.9.9") mac0 MeshExamples.zero0 (fun _ => []) (fun _ _ => false) (fun _ => true) None node_b world0
    (mesh_request0 (sent0 [] node_a)) (Some body0) 7.

Lemma handled0_reply : handled0.2 = SSuccess.
Proof. vm_compute. reflexivity. Qed.

Lemma gossip_without_effect_witness : handled0.2 = SSuccess /\ (handled0.1.2 <> [] -> exists ts, block0 = GLockdown ts) /\
  SSuccess <> SStale.
Proof.
  split; [exact handled0_reply|].
  apply (gossip_without_effect (H := int_number) (js "10.9.9.9") mac0 MeshExamples.zero0 (fun _ => []) (fun _ _ => false) (fun _ => true) None
    (js "alpha") block0 (Some (1 : num (JsNumber := int_number))) (js "xyz") node_b world0 (mesh_request0 (sent0 [] node_a)) 7 handled0.1.1 handled0.1.2).
  exact (eq_trans (surjective_pairing handled0) (eq_trans (f_equal (fun p => (p, handled0.2)) (surjective_pairing handled0.1))
    (f_equal (pair (handled0.1.1, handled0.1.2)) handled0_reply))).
Defined.

(** A probe of another node is refused: it is signed for the probed address and
    checked for the prober's. *)
Definition mac1 (s t : jsstr) : list Z := map (fun c => c mod 256) t.
Lemma probe0_refused : ping (H := int_number) mac1 MeshExamples.num0 [] node_b false (Some (js "10.0.0.8")) (Some (js "77"))
  (match probeSignature (H := int_number) mac1 MeshExamples.num0 node_a (js "10.0.0.9") 77 with Resolved s => Some s | Rejected _ => None end) 80
  = UnauthorizedProbe.
Proof. vm_compute. reflexivity. Qed.
End WebExamples.
