(* ===== verification/Pki.v ===== *)
(** * The mesh's certificates and secrets

    Models [src/orchestrator/domain/identity/mesh_auth.ts] (the root CA, the
    node certificates, their encryption at rest, the overlap of two mesh
    secrets) and [rotation_service.ts].  AES-GCM under the PBKDF2 key, UTF-8,
    the TPM and openssl are parameters; every call of them takes the next tick,
    so that no two answers need agree.  The secret of the encryption is read
    anew at every use, as [getPkiSecret] does: from the TPM, which holds what
    was last sealed and may fail to give it back, and else from the
    environment, with an attempt to seal it.  One clock reading and one
    environment serve an operation. *)

From S2P Require Import Prelude Result JsMap JsString Base64.

Module Pki.
Import JsString.

Record CertPair := mkPair { cert : jsstr; key : jsstr; timestamp : Z }.
Record EncryptedCertPair := mkEncrypted {
  e_cert : jsstr; encryptedKey : jsstr; iv : jsstr; salt : jsstr; e_timestamp : Z }.

Inductive PkiError := NoPkiSecret | SizeExceeded | InvalidBase64 | TpmThrew | CaFailed | IssueFailed.

Record Pki := mkPki {
  ca : option EncryptedCertPair;               (* mesh/pki/root_ca_v5 *)
  prevCa : option EncryptedCertPair;           (* mesh/pki/prev_root_ca *)
  nodeCerts : list (jsstr * EncryptedCertPair);(* mesh/pki/nodes_v3/... *)
  sealedSecret : option jsstr;                 (* PKI_SECRET in the TPM *)
  tick : nat;
}.

Definition with_ca (e : EncryptedCertPair) (s : Pki) : Pki :=
  mkPki (Some e) (prevCa s) (nodeCerts s) (sealedSecret s) (tick s).
Definition with_prev (e : EncryptedCertPair) (s : Pki) : Pki :=
  mkPki (ca s) (Some e) (nodeCerts s) (sealedSecret s) (tick s).
Definition with_node (i : jsstr) (e : EncryptedCertPair) (s : Pki) : Pki :=
  mkPki (ca s) (prevCa s) (JsMap.set (nodeCerts s) i e) (sealedSecret s) (tick s).
Definition with_sealed (x : jsstr) (s : Pki) : Pki :=
  mkPki (ca s) (prevCa s) (nodeCerts s) (Some x) (tick s).
Definition next (s : Pki) : Pki := mkPki (ca s) (prevCa s) (nodeCerts s) (sealedSecret s) (S (tick s)).

(** What becomes of a call of the TPM: it throws, it fails, it is done.  A
    seal that fails is only logged. *)
Inductive Answer := Throws | Fails | Does.

(** A text as a condition: the empty one does not count. *)
Definition truthy (x : option jsstr) : option jsstr :=
  match x with Some (c :: rest) => Some (c :: rest) | _ => None end.

Section pki.
(** PKI_SECRET of the environment; what becomes of each unseal and seal (with
    the reading of the PCRs before it); AES-GCM by secret, salt and iv. *)
Context (envSecret : option jsstr) (unseals seals : nat -> Answer).
Context (random : nat -> list Z * list Z).       (* salt and iv *)
Context (aesEncrypt : jsstr -> list Z -> list Z -> list Z -> list Z).
Context (aesDecrypt : jsstr -> list Z -> list Z -> list Z -> option (list Z)).
Context (utf8 : jsstr -> list Z) (utf8Decode : list Z -> jsstr).
(** The TPM's answers (certificate and key), and openssl's; [hasTpm] and
    [bypass] (ALLOW_HARDWARE_BYPASS) say which are asked. *)
Context (hasTpm bypass : bool).
Context (tpmCA : nat -> option (jsstr * option jsstr)).
Context (tpmIssue : nat -> jsstr -> jsstr -> jsstr -> option (jsstr * jsstr)).
Context (openssl : nat -> jsstr -> option (jsstr * jsstr)).
Context (now : Z).

(** ** Encryption at rest *)

(** [getPkiSecret]: the sealed secret, else that of the environment, which is
    then sealed. *)
Definition secretOfEnv (s : Pki) : Pki * Result jsstr PkiError :=
  match truthy envSecret with
  | None => (s, err NoPkiSecret)
  | Some x =>
      if hasTpm then
        match seals (tick s) with
        | Throws => (next s, err TpmThrew)
        | Fails => (next s, ok x)
        | Does => (with_sealed x (next s), ok x)
        end
      else (s, ok x)
  end.

Definition getPkiSecret (s : Pki) : Pki * Result jsstr PkiError :=
  if hasTpm then
    match unseals (tick s) with
    | Throws => (next s, err TpmThrew)
    | Fails => secretOfEnv (next s)
    | Does => match truthy (sealedSecret s) with Some x => (next s, ok x) | None => secretOfEnv (next s) end
    end
  else secretOfEnv s.

Definition encryptCertPair (s : Pki) (p : CertPair) : Pki * Result EncryptedCertPair PkiError :=
  if (32768 <? Z.of_nat (length (cert p))) || (32768 <? Z.of_nat (length (key p))) then (s, err SizeExceeded)
  else
    let '(salt, iv) := random (tick s) in
    match getPkiSecret (next s) with
    | (s, err x) => (s, err x)
    | (s, ok secret) =>
        (s, ok (mkEncrypted (cert p) (Base64.btoa (aesEncrypt secret salt iv (utf8 (key p))))
                  (Base64.btoa iv) (Base64.btoa salt) (timestamp p)))
    end.

(** The salt, the iv and the ciphertext of a stored pair, and what a secret
    makes of them. *)
Definition decoded (e : EncryptedCertPair) : option (list Z * list Z * list Z) :=
  match Base64.atob (salt e), Base64.atob (iv e), Base64.atob (encryptedKey e) with
  | Some saltBytes, Some ivBytes, Some ciphertext => Some (saltBytes, ivBytes, ciphertext)
  | _, _, _ => None
  end.

Definition opened (secret : jsstr) (e : EncryptedCertPair) (d : list Z * list Z * list Z) : option CertPair :=
  let '(saltBytes, ivBytes, ciphertext) := d in
  match aesDecrypt secret saltBytes ivBytes ciphertext with
  | Some bytes => Some (mkPair (e_cert e) (utf8Decode bytes) (e_timestamp e))
  | None => None
  end.

(** [decryptCertPair]; [null] is [None].  The texts are decoded before the
    secret is read, and only the decryption is caught. *)
Definition decryptCertPair (s : Pki) (e : EncryptedCertPair) : Pki * Result (option CertPair) PkiError :=
  match decoded e with
  | None => (s, err InvalidBase64)
  | Some d =>
      match getPkiSecret s with
      | (s, err x) => (s, err x)
      | (s, ok secret) => (s, ok (opened secret e d))
      end
  end.

(** ** Making certificates *)

Definition generateSelfSignedCA (s : Pki) : Pki * Result CertPair PkiError :=
  let byOpenssl (s : Pki) : Pki * Result CertPair PkiError :=
    if bypass then
      (next s, match openssl (tick s) (js "MeshRootCA") with Some (c, k) => ok (mkPair c k now) | None => err CaFailed end)
    else (s, err CaFailed) in
  if hasTpm then
    match tpmCA (tick s) with
    | Some (c, k) => (next s, ok (mkPair c (default [] k) now))
    | None => if bypass then byOpenssl (next s) else (next s, err CaFailed)
    end
  else byOpenssl s.

(** [nodeId.replace(/[^a-zA-Z0-9\.\-]/g, "")] *)
Definition safe_char (c : Z) : bool :=
  ((97 <=? c) && (c <=? 122)) || ((65 <=? c) && (c <=? 90)) || is_digit c || (c =? 46) || (c =? 45).
Definition safeNodeId (i : jsstr) : jsstr := List.filter safe_char i.

(** [issueNodeCert], given [getRootCA]; no result is out of fuel. *)
Definition issueNodeCert (getRootCA : Pki -> option (Pki * Result CertPair PkiError)) (s : Pki) (i : jsstr)
  : option (Pki * Result CertPair PkiError) :=
  match getRootCA s with
  | None => None
  | Some (s, err e) => Some (s, err e)
  | Some (s, ok root) =>
      let byOpenssl (s : Pki) : option (Pki * Result CertPair PkiError) :=
        if bypass then
          Some (next s, match openssl (tick s) (safeNodeId i) with Some (c, k) => ok (mkPair c k now) | None => err IssueFailed end)
        else Some (s, err IssueFailed) in
      if hasTpm then
        match tpmIssue (tick s) (safeNodeId i) (cert root) (key root) with
        | Some (c, k) => Some (next s, ok (mkPair c k now))
        | None => if bypass then byOpenssl (next s) else Some (next s, err IssueFailed)
        end
      else byOpenssl s
  end.

(** [rotateCert]: a failure is a value. *)
Definition rotateCert (getRootCA : Pki -> option (Pki * Result CertPair PkiError)) (s : Pki) (i : jsstr)
  : option (Pki * Result CertPair PkiError) :=
  match issueNodeCert getRootCA s i with
  | None => None
  | Some (s, err e) => Some (s, err e)
  | Some (s, ok p) =>
      match encryptCertPair s p with
      | (s, err e) => Some (s, err e)
      | (s, ok e) => Some (with_node i e s, ok p)
      end
  end.

(** The loop of [rotateAllNodeCerts]; the result of each rotation is not
    looked at. *)
Fixpoint rotateAll (getRootCA : Pki -> option (Pki * Result CertPair PkiError)) (s : Pki) (ids : list jsstr) : option Pki :=
  match ids with
  | [] => Some s
  | i :: ids => match rotateCert getRootCA s i with Some (s, _) => rotateAll getRootCA s ids | None => None end
  end.

Definition rotateAllNodeCerts (getRootCA : Pki -> option (Pki * Result CertPair PkiError)) (s : Pki) : option Pki :=
  rotateAll getRootCA s (JsMap.keys (nodeCerts s)).

Definition thirtyDays : Z := 30 * 24 * 60 * 60 * 1000.

(** The part of [getRootCA] that makes a new CA. *)
Definition regenerate (getRootCA : Pki -> option (Pki * Result CertPair PkiError)) (s : Pki)
  : option (Pki * Result CertPair PkiError) :=
  let entry := ca s in
  let s := match entry with Some e => with_prev e s | None => s end in
  match generateSelfSignedCA s with
  | (s, err e) => Some (s, err e)
  | (s, ok root) =>
      match encryptCertPair s root with
      | (s, err e) => Some (s, err e)
      | (s, ok e) =>
          let s := with_ca e s in
          match entry with
          | Some _ => match rotateAllNodeCerts getRootCA s with Some s => Some (s, ok root) | None => None end
          | None => Some (s, ok root)
          end
      end
  end.

(** [getRootCA] calls itself through [rotateAllNodeCerts]. *)
Fixpoint getRootCA (fuel : nat) (s : Pki) : option (Pki * Result CertPair PkiError) :=
  match fuel with
  | O => None
  | S fuel =>
      match ca s with
      | Some e =>
          if now - thirtyDays <? e_timestamp e then
            match decryptCertPair s e with
            | (s, err x) => Some (s, err x)
            | (s, ok (Some p)) => Some (s, ok p)
            | (s, ok None) => regenerate (getRootCA fuel) s
            end
          else regenerate (getRootCA fuel) s
      | None => regenerate (getRootCA fuel) s
      end
  end.

(** [rotateRootCAKey] *)
Definition rotateRootCAKey (fuel : nat) (s : Pki) : option (Pki * Result CertPair PkiError) :=
  let s := match ca s with Some e => with_prev e s | None => s end in
  match generateSelfSignedCA s with
  | (s, err e) => Some (s, err e)
  | (s, ok root) =>
      match encryptCertPair s root with
      | (s, err e) => Some (s, err e)
      | (s, ok e) => match rotateAllNodeCerts (getRootCA fuel) (with_ca e s) with Some s => Some (s, ok root) | None => None end
      end
  end.

(** [getTrustedCerts] *)
Definition getTrustedCerts (fuel : nat) (s : Pki) : option (Pki * list jsstr) :=
  match getRootCA fuel s with
  | None => None
  | Some (s, r) =>
      Some (s, match r with ok root => [cert root] | err _ => [] end
               ++ match prevCa s with Some e => [e_cert e] | None => [] end)
  end.

(** [generateNodeCert] *)
Definition generateNodeCert (fuel : nat) (s : Pki) (i : jsstr) : option (Pki * Result CertPair PkiError) :=
  match JsMap.get (nodeCerts s) i with
  | Some e =>
      match decryptCertPair s e with
      | (s, err x) => Some (s, err x)
      | (s, ok (Some p)) => Some (s, ok p)
      | (s, ok None) => rotateCert (getRootCA fuel) s i
      end
  | None => rotateCert (getRootCA fuel) s i
  end.

(** ** Encryption *)

(** What is relied on: random bytes, encoded texts and ciphertexts are bytes,
    and decryption under the same secret, salt and iv undoes encryption. *)
Context (random_bytes : forall n, Base64.bytes_ok (random n).1 /\ Base64.bytes_ok (random n).2).
Context (utf8_bytes : forall s, Base64.bytes_ok (utf8 s)).
Context (aes_bytes : forall secret salt iv p, Base64.bytes_ok p -> Base64.bytes_ok (aesEncrypt secret salt iv p)).
Context (aes_inverse : forall secret salt iv p, Base64.bytes_ok p -> aesDecrypt secret salt iv (aesEncrypt secret salt iv p) = Some p).

(** The pair as it comes back from the store. *)
Definition stored (p : CertPair) : CertPair := mkPair (cert p) (utf8Decode (utf8 (key p))) (timestamp p).

(** A secret opens what is stored. *)
Definition opens (x : jsstr) (e : EncryptedCertPair) (p : CertPair) : Prop :=
  exists d, decoded e = Some d /\ opened x e d = Some p.

(** Nothing of the store but the sealed secret changes when a secret is read. *)
Definition same_store (s s' : Pki) : Prop := ca s' = ca s /\ prevCa s' = prevCa s /\ nodeCerts s' = nodeCerts s.

Lemma secret_store s s' r : getPkiSecret s = (s', r) -> same_store s s'.
Proof using Type. unfold getPkiSecret, secretOfEnv. intros E. repeat case_match; by simplify_eq. Qed.

Lemma encrypt_inv s p s' r : encryptCertPair s p = (s', r) ->
  s' = s /\ r = err SizeExceeded \/ exists x, getPkiSecret (next s) = (s', x) /\
    forall e, r = ok e -> exists y, x = ok y /\ e_cert e = cert p /\ e_timestamp e = timestamp p /\ opens y e (stored p).
Proof.
  unfold encryptCertPair. destruct (_ || _); [by intros [= <- <-]; left|]. destruct (random_bytes (tick s)) as [Hs Hi].
  destruct (random (tick s)) as [sa i]. cbn [fst snd] in *. destruct (getPkiSecret (next s)) as [s1 [y|x]] eqn:E;
    intros [= <- <-]; right; eexists; (split; [reflexivity|]); [|done]. intros e [= <-]. exists y. split_and!; [done..|].
  unfold opens, decoded, opened. cbn [salt iv encryptedKey e_cert e_timestamp]. rewrite !Base64.atob_btoa by auto.
  eexists. split; [reflexivity|]. cbn. by rewrite aes_inverse.
Qed.

Lemma encrypt_store s p s' r : encryptCertPair s p = (s', r) -> same_store s s'.
Proof. intros [[-> _]|(x & E & _)]%encrypt_inv; [done|]. by apply secret_store in E. Qed.

Lemma generate_keeps s s' r : generateSelfSignedCA s = (s', r) ->
  same_store s s' /\ sealedSecret s' = sealedSecret s /\ forall p, r = ok p -> timestamp p = now.
Proof using Type.
  unfold generateSelfSignedCA, same_store. intros E. repeat case_match; simplify_eq; split_and!; try done; intros p [= <-]; done.
Qed.

(** ** The recursion *)

(** What every step of an operation keeps: a property of the stored CA and the
    sealed secret that a read of the secret does not break. *)
Record kept (I : Pki -> Prop) : Prop := mkKept {
  kept_same : forall s s', ca s' = ca s -> sealedSecret s' = sealedSecret s -> I s -> I s';
  kept_read : forall s s' r, getPkiSecret s = (s', r) -> I s -> I s' }.

Lemma kept_encrypt I s p s' r : kept I -> encryptCertPair s p = (s', r) -> I s -> I s'.
Proof.
  intros [Hs Hr] [[-> _]|(x & E & _)]%encrypt_inv; [done|]. intros Hi. eapply Hr; [exact E|]. by eapply Hs, Hi.
Qed.

Definition answers (I : Pki -> Prop) (g : Pki -> option (Pki * Result CertPair PkiError)) : Prop :=
  forall s, I s -> exists s' r, g s = Some (s', r) /\ I s'.

Lemma rotateCert_answers I g i : kept I -> answers I g -> answers I (fun s => rotateCert g s i).
Proof.
  intros Hk Hg s Hi. pose proof Hk as [Hs _]. unfold rotateCert.
  assert (exists s1 r1, issueNodeCert g s i = Some (s1, r1) /\ I s1) as (s1 & r1 & -> & H1).
  { unfold issueNodeCert. destruct (Hg s Hi) as (s0 & r0 & -> & H0). assert (I (next s0)) by by eapply Hs, H0.
    assert (I (next (next s0))) by by eapply Hs, H0. repeat case_match; by eexists _, _. }
  destruct r1 as [p|x]; [|by eexists _, _]. destruct (encryptCertPair s1 p) as [s2 r2] eqn:E.
  pose proof (kept_encrypt I _ _ _ _ Hk E H1) as H2. destruct r2 as [e|x]; eexists _, _; (split; [reflexivity|]); [|done].
  by eapply Hs, H2.
Qed.

Lemma rotateAll_answers I g ids : kept I -> answers I g ->
  forall s, I s -> exists s', rotateAll g s ids = Some s' /\ I s'.
Proof.
  intros Hk Hg. induction ids as [|i ids IH]; intros s Hi; cbn [rotateAll]; [by exists s|].
  destruct (rotateCert_answers I g i Hk Hg s Hi) as (s1 & r & -> & H1). by apply IH.
Qed.

(** From [K] a new CA is made and stored, in [J], which the nested calls keep. *)
Lemma regenerate_answers (K J : Pki -> Prop) g : kept K -> kept J -> answers J g -> (forall s, J s -> K s) ->
  (forall s p s' e, K s -> timestamp p = now -> encryptCertPair s p = (s', ok e) -> J (with_ca e s')) ->
  answers K (regenerate g).
Proof.
  intros Hk Hj Hg Hsub Hnew s Hs. unfold regenerate. set (s0 := match ca s with Some e => with_prev e s | None => s end).
  assert (K s0) as H0 by (unfold s0; destruct (ca s) eqn:E; [by eapply (kept_same _ Hk), Hs|done]).
  destruct (generateSelfSignedCA s0) as [s1 r1] eqn:Eg. apply generate_keeps in Eg as ((E1 & _) & E2 & Et).
  assert (K s1) as H1 by by eapply (kept_same _ Hk), H0. destruct r1 as [p|x]; [|by eexists _, _].
  destruct (encryptCertPair s1 p) as [s2 r2] eqn:Ee. pose proof (kept_encrypt K _ _ _ _ Hk Ee H1) as H2.
  destruct r2 as [e|x]; [|by eexists _, _]. pose proof (Hnew _ _ _ _ H1 (Et p eq_refl) Ee) as H3.
  destruct (ca s); [|eexists _, _; by split; [|apply Hsub]]. unfold rotateAllNodeCerts.
  destruct (rotateAll_answers J g (JsMap.keys (nodeCerts (with_ca e s2))) Hj Hg _ H3) as (s4 & -> & H4).
  eexists _, _. by split; [|apply Hsub].
Qed.

Lemma getRootCA_answers K n : kept K -> answers K (regenerate (getRootCA n)) -> answers K (getRootCA (S n)).
Proof.
  intros Hk Hg s Hs. cbn [getRootCA]. destruct (ca s) as [e|]; [|by apply Hg]. destruct (_ <? _); [|by apply Hg].
  unfold decryptCertPair. destruct (decoded e) as [d|]; [|by eexists _, _].
  destruct (getPkiSecret s) as [s1 r] eqn:E. pose proof (kept_read _ Hk _ _ _ E Hs) as H1.
  destruct r as [y|x]; [|by eexists _, _]. destruct (opened y e d); [by eexists _, _|by apply Hg].
Qed.

(** Only one secret can be read. *)
Definition settled (x : jsstr) (s : Pki) : Prop :=
  (forall y, truthy envSecret = Some y -> y = x) /\
  (hasTpm = true -> forall y, truthy (sealedSecret s) = Some y -> y = x).

(** The stored CA is from now and this secret opens it. *)
Definition readable (x : jsstr) (s : Pki) : Prop :=
  exists e p, ca s = Some e /\ e_timestamp e = now /\ opens x e p.

Lemma truthy_self x y : truthy x = Some y -> truthy (Some y) = Some y.
Proof using Type. destruct x as [[|c r]|]; cbn; [done| |done]. by intros [= <-]. Qed.

Lemma settled_read x s s' r : settled x s -> getPkiSecret s = (s', r) -> settled x s' /\ forall y, r = ok y -> y = x.
Proof using Type.
  intros [He Ht]. unfold getPkiSecret, secretOfEnv. intros E.
  assert (forall y, truthy envSecret = Some y -> settled x (with_sealed y (next (next s))) /\ settled x (with_sealed y (next s))) as Hw.
  { intros y Ey. pose proof (truthy_self _ _ Ey) as Es. split; (split; [done|]); cbn [sealedSecret with_sealed];
      rewrite Es; intros _ z [= <-]; by apply He. }
  assert (forall t, sealedSecret t = sealedSecret s -> settled x t) as Hsame by (intros t Es; split; [done|by rewrite Es]).
  repeat case_match; simplify_eq; (split; [first [by apply Hsame | by apply Hw]|]); intros z [=]; subst; auto.
Qed.

Lemma settled_kept x : kept (settled x).
Proof using Type.
  split; [|intros s s' r E Hs; by apply (settled_read x s s' r)]. intros s s' _ E [He Ht]. split; [done|]. by rewrite E.
Qed.

Lemma settled_readable_kept x : kept (fun s => settled x s /\ readable x s).
Proof using Type.
  split.
  - intros s s' Ec Es [Hs (e & p & E & H)]. split; [by eapply (kept_same _ (settled_kept x)), Hs|]. exists e, p. by rewrite Ec.
  - intros s s' r E [Hs (e & p & Ee & H)]. split; [by eapply (kept_read _ (settled_kept x)), Hs|]. exists e, p.
    apply secret_store in E as (-> & _). done.
Qed.

(** A CA that is from now is opened, or the secret cannot be read. *)
Lemma readable_found x n s : readable x s -> exists e d p, ca s = Some e /\ opened x e d = Some p /\
  getRootCA (S n) s = match getPkiSecret s with
    | (s, err z) => Some (s, err z)
    | (s, ok y) => match opened y e d with Some p => Some (s, ok p) | None => regenerate (getRootCA n) s end end.
Proof using Type.
  intros (e & p & E & Et & d & Ed & Eo). exists e, d, p. split_and!; [done..|]. cbn [getRootCA]. rewrite E, Et.
  assert (now - thirtyDays <? now = true) as -> by (apply Z.ltb_lt; unfold thirtyDays; lia).
  unfold decryptCertPair. rewrite Ed. destruct (getPkiSecret s) as [s1 [y|z]]; [|done]. by destruct (opened y e d).
Qed.

Lemma settled_readable_answers x n : answers (fun s => settled x s /\ readable x s) (getRootCA (S n)).
Proof using Type.
  intros s [Hs Hr]. destruct (readable_found x n s Hr) as (e & d & p & _ & Eo & ->).
  destruct (getPkiSecret s) as [s1 r] eqn:E. pose proof (kept_read _ (settled_readable_kept x) _ _ _ E (conj Hs Hr)) as H1.
  apply (settled_read x) in E as [_ Hy]; [|done]. destruct r as [y|z]; [|by eexists _, _].
  rewrite (Hy y eq_refl), Eo. by eexists _, _.
Qed.

Lemma new_readable s p s' e : timestamp p = now -> encryptCertPair s p = (s', ok e) ->
  exists x, getPkiSecret (next s) = (s', ok x) /\ readable x (with_ca e s').
Proof.
  intros Et [[_ ?]|(r & E & H)]%encrypt_inv; [done|]. destruct (H e eq_refl) as (x & -> & _ & Ee & Ho).
  exists x. split; [done|]. exists e, (stored p). split_and!; [done|congruence|done].
Qed.

(** While only one secret can be read, the CA just stored is found. *)
Lemma settled_regenerates x n : answers (settled x) (regenerate (getRootCA (S n))).
Proof.
  eapply regenerate_answers; [apply settled_kept|apply settled_readable_kept|apply settled_readable_answers|by intros ? []|].
  intros s p s' e Hs Et E. apply new_readable in E as (y & E & Hr); [|done].
  apply (settled_read x) in E as [Hs' Hy]; [|by destruct Hs].
  rewrite (Hy y eq_refl) in Hr. split; [|done]. by destruct Hs'.
Qed.

Lemma settled_answers x n : answers (settled x) (getRootCA (2 + n)).
Proof. apply (getRootCA_answers _ (S n)); [apply settled_kept|apply settled_regenerates]. Qed.

(** *** A TPM that seals what it is asked to *)

Definition heard : Prop := forall n, seals n <> Fails.

Lemma heard_read s s' y : heard -> getPkiSecret s = (s', ok y) ->
  truthy (sealedSecret s) = Some y /\ sealedSecret s' = sealedSecret s \/ settled y s'.
Proof using Type.
  intros Hh E.
  assert (forall z, truthy envSecret = Some z -> forall t, settled z (with_sealed z t)) as Hw.
  { intros z Ez t. split; [congruence|]. intros _. cbn [sealedSecret with_sealed]. rewrite (truthy_self _ _ Ez). congruence. }
  unfold getPkiSecret, secretOfEnv in E. destruct hasTpm eqn:Et.
  - repeat case_match; simplify_eq; auto; by edestruct Hh.
  - case_match eqn:Ee; simplify_eq. right. split; [congruence|]. by rewrite Et.
Qed.

(** Either one secret is left, or the stored CA is under the sealed one. *)
Definition healing (s : Pki) : Prop :=
  (exists x, settled x s) \/ exists a, readable a s /\ truthy (sealedSecret s) = Some a.

Lemma healing_kept : heard -> kept healing.
Proof using Type.
  intros Hh. split.
  - intros s s' Ec Es [[x Hx]|(a & (e & p & E & H) & Ha)].
    + left. exists x. by apply (kept_same _ (settled_kept x) s).
    + right. exists a. split; [|by rewrite Es]. exists e, p. by rewrite Ec.
  - intros s s' r E [[x Hx]|(a & (e & p & Ee & H) & Ha)].
    + left. exists x. by eapply (kept_read _ (settled_kept x)), Hx.
    + pose proof (secret_store _ _ _ E) as (Ec & _). destruct r as [y|z].
      * destruct (heard_read _ _ _ Hh E) as [[_ Es]|Hs]; [|by left; exists y]. right. exists a.
        split; [|by rewrite Es]. exists e, p. by rewrite Ec.
      * right. exists a. split; [exists e, p; by rewrite Ec|]. unfold getPkiSecret, secretOfEnv in E.
        repeat case_match; by simplify_eq.
Qed.

Lemma healing_answers n : heard -> answers healing (getRootCA (2 + n)).
Proof.
  intros Hh s [[x Hx]|(a & Hr & Ha)]; change (2 + n)%nat with (S (S n)).
  - destruct (settled_answers x n s Hx) as (s' & r & E & Hs). exists s', r. split; [done|]. left. by exists x.
  - assert (healing s) as Hs by (right; by exists a). destruct (readable_found a (S n) s Hr) as (e & d & p & _ & Eo & ->).
    destruct (getPkiSecret s) as [s1 r] eqn:E. pose proof (kept_read _ (healing_kept Hh) _ _ _ E Hs) as H1.
    destruct r as [y|z]; [|by eexists _, _]. destruct (heard_read _ _ _ Hh E) as [[Ey _]|Hy].
    + assert (y = a) as -> by congruence. rewrite Eo. by eexists _, _.
    + destruct (opened y e d); [by eexists _, _|]. destruct (settled_regenerates y n s1 Hy) as (s' & r & -> & Hs').
      eexists _, _. split; [done|]. left. by exists y.
Qed.

Lemma heard_answers n s : heard -> exists s' r, getRootCA (3 + n) s = Some (s', r).
Proof.
  intros Hh. destruct (getRootCA_answers (fun _ => True) (2 + n)) with (s := s) as (s' & r & E & _); [done| |done|by exists s', r].
  apply (regenerate_answers _ healing); [done|by apply healing_kept|by apply healing_answers|done|].
  intros s0 p s1 e _ Et E. apply new_readable in E as (y & E & Hr); [|done].
  destruct (heard_read _ _ _ Hh E) as [[Ey Es]|Hy].
  - right. exists y. split; [done|]. cbn [sealedSecret with_ca]. by rewrite Es.
  - left. exists y. by destruct Hy.
Qed.

(** *** More levels change nothing *)

Definition extends (f g : Pki -> option (Pki * Result CertPair PkiError)) : Prop := forall s x, f s = Some x -> g s = Some x.

Lemma issue_extends f g i : extends f g -> extends (fun s => issueNodeCert f s i) (fun s => issueNodeCert g s i).
Proof using Type. intros H s x. unfold issueNodeCert. destruct (f s) as [y|] eqn:E; [|done]. by rewrite (H _ _ E). Qed.

Lemma rotateCert_extends f g i : extends f g -> extends (fun s => rotateCert f s i) (fun s => rotateCert g s i).
Proof using Type.
  intros H s x. unfold rotateCert. destruct (issueNodeCert f s i) as [y|] eqn:E; [|done]. by rewrite (issue_extends f g i H _ _ E).
Qed.

Lemma rotateAll_extends f g ids : extends f g -> forall s x, rotateAll f s ids = Some x -> rotateAll g s ids = Some x.
Proof using Type.
  intros H. induction ids as [|i ids IH]; intros s x; cbn [rotateAll]; [done|].
  destruct (rotateCert f s i) as [[s1 r]|] eqn:E; [|done]. rewrite (rotateCert_extends f g i H _ _ E). apply IH.
Qed.

Lemma regenerate_extends f g : extends f g -> extends (regenerate f) (regenerate g).
Proof using Type.
  intros H s x. unfold regenerate, rotateAllNodeCerts. destruct (generateSelfSignedCA _) as [s1 [p|z]]; [|done].
  destruct (encryptCertPair s1 p) as [s2 [e|z]]; [|done]. destruct (ca s); [|done].
  destruct (rotateAll f _ _) as [s3|] eqn:E; [|done]. by rewrite (rotateAll_extends f g _ H _ _ E).
Qed.

Lemma getRootCA_extends n m : extends (getRootCA n) (getRootCA (n + m)).
Proof using Type.
  induction n as [|n IH]; [done|]. intros s x. cbn [getRootCA Nat.add]. pose proof (regenerate_extends _ _ IH) as H.
  repeat case_match; auto.
Qed.

Lemma level_enough k n s : is_Some (getRootCA k s) -> getRootCA (k + n) s = getRootCA k s.
Proof using Type. intros [x E]. rewrite E. by apply getRootCA_extends. Qed.

(** C31: Asking for the root CA ends, although a new CA re-issues every node
    certificate, each of these asks for the root CA again, and every encryption
    and decryption reads the secret anew.  While only one secret can be read
    (the sealed one and that of the environment agree, or only one of them
    exists) two levels are enough from any stored state.  When they differ,
    and a read comes from the one or the other as the TPM answers, three levels
    are enough provided that a seal is done or throws: the first read from the
    environment seals it, and only one secret is left.  More levels change
    nothing. *)
Theorem getRootCA_terminates n s :
  ((exists x, settled x s) -> is_Some (getRootCA 2 s) /\ getRootCA (2 + n) s = getRootCA 2 s) /\
  (heard -> is_Some (getRootCA 3 s) /\ getRootCA (3 + n) s = getRootCA 3 s).
Proof.
  split.
  - intros [x Hx]. assert (is_Some (getRootCA 2 s)) as H by (destruct (settled_answers x 0 s Hx) as (s' & r & E & _); by exists (s', r)).
    split; [done|by apply level_enough].
  - intros Hh. assert (is_Some (getRootCA 3 s)) as H by (destruct (heard_answers 0 s Hh) as (s' & r & E); by exists (s', r)).
    split; [done|by apply level_enough].
Qed.

(** *** Two secrets and a TPM that does not seal *)

(** The sealed secret and that of the environment differ, a seal fails (which
    is only logged), and the TPM gives the sealed secret at each reading of the
    CA and not at each writing of it. *)
Record split_secrets (a b : jsstr) : Prop := mkSplit {
  sp_tpm : hasTpm = true;
  sp_env : truthy envSecret = Some b;
  sp_seals : forall n, seals n = Fails;
  sp_unseals : forall n, unseals n = if Z.of_nat n mod 5 =? 0 then Does else Fails;
  sp_made : forall n, exists c k, tpmCA n = Some (c, k) /\ Z.of_nat (length c) <= 32768 /\ Z.of_nat (length (default [] k)) <= 32768;
  sp_aes : forall salt iv p, aesDecrypt a salt iv (aesEncrypt b salt iv p) = None }.

(** A CA from now which the sealed secret does not open, a node, and the next
    unseal answered. *)
Definition unopened (a : jsstr) (s : Pki) : Prop :=
  nodeCerts s <> [] /\ sealedSecret s = Some a /\ Z.of_nat (tick s) mod 5 = 0 /\
  exists e d, ca s = Some e /\ now - thirtyDays < e_timestamp e /\ decoded e = Some d /\ opened a e d = None.

Lemma split_read a b s : split_secrets a b -> truthy (Some a) = Some a -> sealedSecret s = Some a ->
  getPkiSecret s = if Z.of_nat (tick s) mod 5 =? 0 then (next s, ok a) else (next (next s), ok b).
Proof using Type.
  intros [Ht He Hs Hu _ _] Ha E. unfold getPkiSecret, secretOfEnv. rewrite Ht, Hu, E, Ha, He, Hs. by destruct (_ =? _).
Qed.

Lemma tick_mod t k : Z.of_nat t mod 5 = 0 -> 0 <= k < 5 -> (Z.of_nat t + k) mod 5 = k.
Proof using Type. intros E H. rewrite Z.add_mod, E, Z.add_0_l, Z.mod_mod by lia. apply Z.mod_small. lia. Qed.

(** The CA stored in place of one that does not open does not open either. *)
Lemma split_encrypts a b s p : split_secrets a b -> truthy (Some a) = Some a -> sealedSecret s = Some a ->
  Z.of_nat (tick s) mod 5 = 2 -> Z.of_nat (length (cert p)) <= 32768 -> Z.of_nat (length (key p)) <= 32768 ->
  exists e d, encryptCertPair s p = (next (next (next s)), ok e) /\ e_timestamp e = timestamp p /\
    decoded e = Some d /\ opened a e d = None.
Proof.
  intros Hsp Ha E Et Lc Lk. unfold encryptCertPair.
  rewrite (proj2 (Z.ltb_ge _ _) Lc), (proj2 (Z.ltb_ge _ _) Lk). cbn [orb].
  destruct (random_bytes (tick s)) as [Hs Hi]. destruct (random (tick s)) as [sa i]. cbn [fst snd] in *.
  rewrite (split_read a b (next s) Hsp Ha E). cbn [tick next].
  replace (Z.of_nat (S (tick s)) mod 5) with 3 by (rewrite Nat2Z.inj_succ, <-Z.add_1_r, Z.add_mod, Et by lia; done).
  cbn [Z.eqb Pos.eqb]. eexists _, _. split; [reflexivity|]. split; [done|].
  unfold decoded, opened. cbn [salt iv encryptedKey]. rewrite !Base64.atob_btoa by auto. split; [reflexivity|].
  cbn. by rewrite (sp_aes _ _ Hsp).
Qed.

(** Nothing bounds the recursion when the two secrets differ and the TPM
    refuses to seal: if it gives the sealed secret whenever the CA is read and
    not when it is written, each nested call finds a CA that it cannot open,
    makes another one, and goes on to re-issue the node certificates, which
    asks for the CA again; no number of levels is enough. *)
Theorem split_secrets_never_return a b n : split_secrets a b -> truthy (Some a) = Some a ->
  forall s, unopened a s -> getRootCA n s = None.
Proof.
  intros Hsp Ha. induction n as [|n IH]; [done|]. intros s (Hn & Es & Et & e & d & Ec & Ee & Ed & Eo).
  cbn [getRootCA]. rewrite Ec, (proj2 (Z.ltb_lt _ _) Ee). unfold decryptCertPair. rewrite Ed.
  rewrite (split_read a b s Hsp Ha Es), Et. cbn [Z.eqb]. rewrite Eo. unfold regenerate. cbn [ca next]. rewrite Ec.
  unfold generateSelfSignedCA. rewrite (sp_tpm _ _ Hsp). cbn [tick next with_prev].
  destruct (sp_made _ _ Hsp (S (tick s))) as (c & k & -> & Lc & Lk).
  set (s2 := next (with_prev e (next s))).
  destruct (split_encrypts a b s2 (mkPair c (default [] k) now) Hsp Ha Es) as (e' & d' & -> & Ee' & Ed' & Eo'); [|done..|].
  { unfold s2. cbn [tick next with_prev]. rewrite !Nat2Z.inj_succ, <-!Z.add_1_r, <-Z.add_assoc. by apply tick_mod. }
  unfold rotateAllNodeCerts. cbn [nodeCerts with_ca next s2 with_prev]. destruct (nodeCerts s) as [|[i x] l] eqn:El; [done|].
  change (JsMap.keys ((i, x) :: l)) with (i :: JsMap.keys l). cbn [rotateAll]. unfold rotateCert, issueNodeCert. rewrite IH; [done|].
  unfold unopened, s2. cbn [nodeCerts with_ca next with_prev sealedSecret tick ca]. rewrite El. split_and!; [done|done| |].
  - rewrite !Nat2Z.inj_succ, <-!Z.add_1_r, <-!Z.add_assoc. rewrite Z.add_mod, Et by lia. done.
  - exists e', d'. split_and!; try done. rewrite Ee'. cbn [timestamp]. unfold thirtyDays. lia.
Qed.

(** ** What a rotation leaves behind *)

(** The TPM issues for this root whatever it is asked, within the size limit. *)
Definition issues_for (root : jsstr) : Prop :=
  hasTpm = true /\
  forall n i k, exists c k', tpmIssue n i root k = Some (c, k') /\ Z.of_nat (length c) <= 32768 /\ Z.of_nat (length k') <= 32768.

(** The secret of the environment is the only one, and the TPM does not throw. *)
Definition steady (x : jsstr) (s : Pki) : Prop :=
  truthy envSecret = Some x /\ settled x s /\ forall n, unseals n <> Throws /\ seals n <> Throws.

Lemma steady_read x s : steady x s -> exists s', getPkiSecret s = (s', ok x) /\ steady x s'.
Proof using Type.
  intros (He & Hs & Hn). destruct (getPkiSecret s) as [s' r] eqn:E. pose proof E as E'.
  apply (settled_read x) in E as [Hs' Hy]; [|done]. exists s'. split; [|by split_and!].
  destruct r as [y|z]; [by rewrite (Hy y)|]. unfold getPkiSecret, secretOfEnv in E'. rewrite He in E'.
  repeat case_match; simplify_eq; exfalso; first [by eapply (proj1 (Hn _)) | by eapply (proj2 (Hn _))].
Qed.

(** The stored CA is from now, and its pair is this one. *)
Definition fresh (x : jsstr) (p : CertPair) (s : Pki) : Prop :=
  steady x s /\ exists e, ca s = Some e /\ e_timestamp e = now /\ opens x e p.

Lemma fresh_same x p s s' : ca s' = ca s -> sealedSecret s' = sealedSecret s -> fresh x p s -> fresh x p s'.
Proof using Type. unfold fresh, steady, settled. intros -> ->. done. Qed.

Lemma fresh_ca x n p s : fresh x p s -> exists s', getRootCA (S n) s = Some (s', ok p) /\ same_store s s' /\ fresh x p s'.
Proof using Type.
  intros [Hs (e & E & Et & d & Ed & Eo)]. destruct (steady_read x s Hs) as (s' & Er & Hs'). exists s'.
  pose proof (secret_store _ _ _ Er) as Hst. split; [|split; [done|]].
  - cbn [getRootCA]. rewrite E, Et. assert (now - thirtyDays <? now = true) as -> by (apply Z.ltb_lt; unfold thirtyDays; lia).
    unfold decryptCertPair. by rewrite Ed, Er, Eo.
  - split; [done|]. exists e. destruct Hst as (-> & _). split_and!; [done..|by exists d].
Qed.

Definition issued_by (p : CertPair) (i : jsstr) (s : Pki) : Prop :=
  exists n c k e, tpmIssue n (safeNodeId i) (cert p) (key p) = Some (c, k) /\ JsMap.get (nodeCerts s) i = Some e /\ e_cert e = c.

Lemma rotateCert_issues x n p s i : issues_for (cert p) -> fresh x p s ->
  exists s' r, rotateCert (getRootCA (S n)) s i = Some (s', r) /\ issued_by p i s' /\ fresh x p s' /\ prevCa s' = prevCa s /\
    forall j, j <> i -> JsMap.get (nodeCerts s') j = JsMap.get (nodeCerts s) j.
Proof using Type.
  intros [Ht Hi] Hf. destruct (fresh_ca x n p s Hf) as (s1 & E1 & (_ & Ep & En) & Hf1).
  destruct (Hi (tick s1) (safeNodeId i) (key p)) as (c & k & E & Lc & Lk).
  unfold rotateCert, issueNodeCert. rewrite E1, Ht, E. unfold encryptCertPair. cbn [cert key].
  rewrite (proj2 (Z.ltb_ge _ _) Lc), (proj2 (Z.ltb_ge _ _) Lk). cbn [orb]. destruct (random _) as [sa i'].
  destruct (steady_read x (next (next s1))) as (s2 & E2 & Hs2); [by destruct Hf1|]. rewrite E2.
  apply secret_store in E2 as (Ec2 & Ep2 & En2). cbn [ca prevCa nodeCerts next] in *. eexists _, _. split; [reflexivity|]. split_and!.
  - exists (tick s1), c, k. eexists. split; [done|]. cbn [nodeCerts with_node]. by rewrite JsMap.get_set_eq.
  - split; [by destruct Hs2|]. destruct Hf1 as [_ (e & H)]. exists e. cbn [ca with_node]. by rewrite Ec2.
  - cbn [prevCa with_node]. congruence.
  - intros j Hj. cbn [nodeCerts with_node]. rewrite JsMap.get_set_ne by done. by rewrite En2, En.
Qed.

Lemma rotateAll_issues x n p ids : issues_for (cert p) -> NoDup ids -> forall s, fresh x p s ->
  exists s', rotateAll (getRootCA (S n)) s ids = Some s' /\ fresh x p s' /\ prevCa s' = prevCa s /\
    (forall i, i ∈ ids -> issued_by p i s') /\ forall j, j ∉ ids -> JsMap.get (nodeCerts s') j = JsMap.get (nodeCerts s) j.
Proof using Type.
  intros Hi. induction 1 as [|i ids Hn Hd IH]; intros s Hf; cbn [rotateAll].
  - exists s. split_and!; [done..|by intros i ?%not_elem_of_nil|done].
  - destruct (rotateCert_issues x n p s i Hi Hf) as (s1 & r & -> & (m & c & k & e & E & Eg & Ec) & Hf1 & Ep & Hj).
    destruct (IH s1 Hf1) as (s' & -> & Hf' & Ep' & Hall & Hrest). exists s'. split_and!; [done..|congruence| |].
    + intros j [->|Hin]%elem_of_cons; [|by apply Hall]. exists m, c, k, e. by rewrite Hrest.
    + intros j [Hne Hnin]%not_elem_of_cons. by rewrite Hrest, Hj.
Qed.

(** A rotation of the root key leaves the mesh able to talk: the new root is
    stored and readable, the one before it stays trusted beside it (what
    [getTrustedCerts] returns is the new and the old root), and every node that
    had a certificate has one issued by the new root; while the secret of the
    environment is the only one and the TPM issues what it is asked. *)
Theorem rotation_dual_trust x n s s' root old :
  ca s = Some old -> JsMap.wf (nodeCerts s) -> issues_for (cert root) -> steady x s ->
  rotateRootCAKey (S n) s = Some (s', ok root) ->
  (exists s'', getTrustedCerts (S n) s' = Some (s'', [cert root; e_cert old])) /\
  forall i, i ∈ JsMap.keys (nodeCerts s) -> issued_by (stored root) i s'.
Proof.
  intros Hc Hw Hi Hs. unfold rotateRootCAKey. rewrite Hc.
  destruct (generateSelfSignedCA (with_prev old s)) as [s1 [p|z]] eqn:Eg; [|done].
  apply generate_keeps in Eg as ((_ & Ep1 & En1) & Es1 & Et). specialize (Et p eq_refl).
  destruct (encryptCertPair s1 p) as [s2 [e|z]] eqn:Ee; [|done].
  pose proof (encrypt_store _ _ _ _ Ee) as (_ & Ep2 & En2).
  assert (fresh x (stored p) (with_ca e s2)) as Hf.
  { apply encrypt_inv in Ee as [[_ ?]|(r & Er & H)]; [done|]. destruct (H e eq_refl) as (y & -> & _ & Ete & Ho).
    destruct (steady_read x (next s1)) as (s3 & E3 & H3).
    - destruct Hs as (He & [Hs1 Hs2] & Hn). split; [done|]. split; [|done]. split; [done|]. cbn [sealedSecret next]. by rewrite Es1.
    - rewrite Er in E3. simplify_eq. split; [by destruct H3|]. exists e. split_and!; [done|congruence|done]. }
  unfold rotateAllNodeCerts. cbn [nodeCerts with_ca]. rewrite En2, En1. cbn [nodeCerts with_prev].
  destruct (rotateAll _ _ _) as [s4|] eqn:E4; [|done]. intros [= <- ->].
  destruct (rotateAll_issues x n (stored root) (JsMap.keys (nodeCerts s)) Hi Hw _ Hf) as (s5 & E5 & Hf5 & Ep5 & Hall & _).
  rewrite E4 in E5. injection E5 as <-. split; [|done]. destruct (fresh_ca x n _ _ Hf5) as (s6 & E6 & (_ & Ep6 & _) & _).
  exists s6. unfold getTrustedCerts. rewrite E6, Ep6, Ep5. cbn [prevCa with_ca]. by rewrite Ep2, Ep1.
Qed.
End pki.

(** ** The mesh secret and its rotation *)

(** [MESH_SECRET] of the configuration and the staged secret of the service. *)
Record Secrets := mkSecrets { primary : option jsstr; secondaryMeshSecret : option jsstr; apiToken : option jsstr }.

Definition stageSecondarySecret (secret : jsstr) (s : Secrets) : Secrets := mkSecrets (primary s) (Some secret) (apiToken s).
Definition commitSecretSwap (s : Secrets) : Secrets := mkSecrets (primary s) None (apiToken s).

Definition validateMeshSecret (s : Secrets) (provided : jsstr) : bool :=
  if bool_decide (Some provided = primary s) then true
  else match secondaryMeshSecret s with
       | Some (c :: rest) => bool_decide (provided = c :: rest)
       | _ => false
       end.

Inductive SecretType := MESH_SECRET | API_TOKEN.

(** [rotateSecret] for the new secret: what it changes before its timer, and
    what the timer does a minute later.  A failure to seal in the TPM ends it
    before either. *)
Definition rotateSecret (type : SecretType) (newSecret : jsstr) (sealed : bool) (s : Secrets) : Secrets * Result unit unit :=
  if sealed then
    match type with
    | MESH_SECRET =>
        let s := stageSecondarySecret newSecret s in
        (mkSecrets (Some newSecret) (secondaryMeshSecret s) (apiToken s), ok tt)
    | API_TOKEN => (mkSecrets (primary s) (secondaryMeshSecret s) (Some newSecret), ok tt)
    end
  else (s, err tt).

Definition rotationTimer (type : SecretType) (s : Secrets) : Secrets :=
  match type with MESH_SECRET => commitSecretSwap s | API_TOKEN => s end.

(** The rotation of the mesh secret has no overlap: from the moment it is
    made until after the timer the new secret is the only one accepted, so a
    peer that still has the old one is refused at once, not after a minute. *)
Theorem rotation_without_overlap newSecret s provided :
  let rotated := (rotateSecret MESH_SECRET newSecret true s).1 in
  (validateMeshSecret rotated provided = true <-> provided = newSecret) /\
  (validateMeshSecret (rotationTimer MESH_SECRET rotated) provided = true <-> provided = newSecret).
Proof.
  cbn. unfold validateMeshSecret. cbn. split; case_bool_decide as E; try (split; congruence).
  - destruct newSecret as [|c rest]; [split; congruence|]. by rewrite bool_decide_eq_true.
Qed.

(** ** A concrete PKI *)

Module PkiExamples.
Definition random0 (n : nat) : list Z * list Z := ([1; 2; Z.of_nat n mod 256], [7]).
Definition aesE (secret : jsstr) (salt iv p : list Z) : list Z := p.
Definition aesD (secret : jsstr) (salt iv c : list Z) : option (list Z) := Some c.
Definition ca0 (n : nat) : option (jsstr * option jsstr) := Some (js "CERT" ++ decimal (Z.of_nat n), None).
Definition issue0 (n : nat) (i root k : jsstr) : option (jsstr * jsstr) := Some (js "NODE", js "k").
Definition openssl0 (n : nat) (i : jsstr) : option (jsstr * jsstr) := None.
Definition utf0 (s : jsstr) : list Z := map (fun c => c mod 256) s.
Definition utfD (bs : list Z) : jsstr := bs.

Lemma random0_bytes n : Base64.bytes_ok (random0 n).1 /\ Base64.bytes_ok (random0 n).2.
Proof.
  unfold Base64.bytes_ok. cbn. split; repeat constructor; try lia.
  all: pose proof (Z.mod_pos_bound (Z.of_nat n) 256 ltac:(lia)); lia.
Qed.

Lemma utf0_bytes s : Base64.bytes_ok (utf0 s).
Proof. unfold Base64.bytes_ok. apply Forall_map, Forall_forall. intros c _. apply Z.mod_pos_bound. lia. Qed.

(** A CA of 40 days ago, with two nodes; a TPM that answers and seals. *)
Definition old0 : EncryptedCertPair := mkEncrypted (js "OLD") (js "AAAA") (js "AAAA") (js "AAAA") 0.
Definition pki0 : Pki := mkPki (Some old0) None [(js "n1", old0); (js "n2", old0)] None 0.
Definition does (n : nat) : Answer := Does.
Definition getRootCA0 (n : nat) (s : Pki) : option (Pki * Result CertPair PkiError) :=
  getRootCA (Some (js "s")) does does random0 aesE aesD utf0 utfD true false ca0 issue0 openssl0 3456000000 n s.
Definition rotate0 (n : nat) (s : Pki) : option (Pki * Result CertPair PkiError) :=
  rotateRootCAKey (Some (js "s")) does does random0 aesE aesD utf0 utfD true false ca0 issue0 openssl0 3456000000 n s.

Lemma getRootCA_terminates_witness :
  ((exists x, settled (Some (js "s")) true x pki0) -> is_Some (getRootCA0 2 pki0) /\ getRootCA0 (2 + 3) pki0 = getRootCA0 2 pki0) /\
  (heard does -> is_Some (getRootCA0 3 pki0) /\ getRootCA0 (3 + 3) pki0 = getRootCA0 3 pki0) /\
  settled (Some (js "s")) true (js "s") pki0 /\ heard does.
Proof.
  pose proof (getRootCA_terminates (Some (js "s")) does does random0 aesE aesD utf0 utfD true false ca0 issue0 openssl0 3456000000
    random0_bytes utf0_bytes (fun _ _ _ p h => h) (fun _ _ _ _ _ => eq_refl) 3 pki0) as [H1 H2].
  split; [exact H1|]. split; [exact H2|]. split; [|discriminate]. split; [intros y [= <-]; reflexivity|discriminate].
Defined.

(** A cipher that fails under another secret: the secret's length goes first. *)
Definition aesE1 (secret : jsstr) (salt iv p : list Z) : list Z := (Z.of_nat (length secret) mod 256) :: p.
Definition aesD1 (secret : jsstr) (salt iv c : list Z) : option (list Z) :=
  match c with x :: p => if x =? Z.of_nat (length secret) mod 256 then Some p else None | [] => None end.
Definition ca1 (n : nat) : option (jsstr * option jsstr) := Some (js "CERT", None).
Definition unseals1 (n : nat) : Answer := if Z.of_nat n mod 5 =? 0 then Does else Fails.
Definition fails (n : nat) : Answer := Fails.
Definition pki1 : Pki := mkPki (Some (mkEncrypted (js "NEW") (js "AAAA") (js "AAAA") (js "AAAA") 3456000000)) None
  [(js "n1", old0)] (Some (js "sealed")) 0.

Lemma aes1_bytes secret salt iv p : Base64.bytes_ok p -> Base64.bytes_ok (aesE1 secret salt iv p).
Proof. intros H. constructor; [apply Z.mod_pos_bound; lia|done]. Qed.

Lemma aes1_inverse secret salt iv p : Base64.bytes_ok p -> aesD1 secret salt iv (aesE1 secret salt iv p) = Some p.
Proof. intros _. cbn [aesD1 aesE1]. by rewrite Z.eqb_refl. Qed.

Lemma split_secrets_never_return_witness :
  getRootCA (Some (js "env")) unseals1 fails random0 aesE1 aesD1 utf0 utfD true false ca1 issue0 openssl0 3456000000 7 pki1 = None.
Proof.
  apply (split_secrets_never_return (Some (js "env")) unseals1 fails random0 aesE1 aesD1 utf0 utfD true false ca1 issue0 openssl0
    3456000000 random0_bytes utf0_bytes aes1_bytes (js "sealed") (js "env") 7).
  - split; [reflexivity|reflexivity|reflexivity|reflexivity| |reflexivity].
    intros n. exists (js "CERT"), None. split; [reflexivity|]. split; vm_compute; discriminate.
  - reflexivity.
  - split; [discriminate|]. split; [reflexivity|]. split; [reflexivity|]. do 2 eexists. split; [reflexivity|].
    split; [reflexivity|]. split; [vm_compute; reflexivity|reflexivity].
Defined.

Definition rotated0 : Pki := match rotate0 1 pki0 with Some (s, _) => s | None => pki0 end.

Lemma rotate0_works :
  rotateRootCAKey (Some (js "s")) does does random0 aesE aesD utf0 utfD true false ca0 issue0 openssl0 3456000000 1 pki0
  = Some (rotated0, ok (mkPair (js "CERT0") [] 3456000000)).
Proof. vm_compute. reflexivity. Qed.

Lemma rotation_dual_trust_witness :
  (exists s, getTrustedCerts (Some (js "s")) does does random0 aesE aesD utf0 utfD true false ca0 issue0 openssl0 3456000000 1 rotated0
    = Some (s, [js "CERT0"; js "OLD"])) /\
  forall i, i ∈ JsMap.keys (nodeCerts pki0) -> issued_by issue0 (stored utf0 utfD (mkPair (js "CERT0") [] 3456000000)) i rotated0.
Proof.
  apply (rotation_dual_trust (Some (js "s")) does does random0 aesE aesD utf0 utfD true false ca0 issue0 openssl0 3456000000
    random0_bytes utf0_bytes (fun _ _ _ p h => h) (fun _ _ _ _ _ => eq_refl) (js "s") 0 pki0 rotated0
    (mkPair (js "CERT0") [] 3456000000) old0).
  - reflexivity.
  - apply (bool_decide_unpack (NoDup (JsMap.keys (nodeCerts pki0)))). vm_compute. exact I.
  - split; [reflexivity|]. intros n i k. exists (js "NODE"), (js "k"). repeat split; vm_compute; discriminate.
  - split; [reflexivity|]. split; [|by intros n]. split; [intros y [= <-]; reflexivity|discriminate].
  - exact rotate0_works.
Defined.
End PkiExamples.
End Pki.
