(* ===== verification/Effects.v ===== *)
(** * Effectful operations

    An operation that awaits calls to ports and devices: the effects it
    performs, in order, and the value or the exception it ends with.  What a
    call answers may depend on everything the operation did before, so an
    operation is a function of the effects performed so far. *)

From S2P Require Import Prelude Result.

Create HintDb effects.

Module Effects.
Section act.
Context {E : Type}.

Definition act (A : Type) : Type := list E -> list E * settled A unit.

Definition ret {A} (a : A) : act A := fun _ => ([], Resolved a).

Definition bind {A B} (m : act A) (f : A -> act B) : act B := fun h =>
  match m h with
  | (fx, Rejected e) => (fx, Rejected e)
  | (fx, Resolved a) => let '(fx', r) := f a (h ++ fx) in (fx ++ fx', r)
  end.

(** [try m catch {}] with a value for the exception. *)
Definition attempt {A} (m : act A) (d : A) : act A := fun h =>
  match m h with (fx, Rejected _) => (fx, Resolved d) | r => r end.

(** A call that a device or port answers. *)
Definition ask {A} (answer : list E -> E -> settled A unit) (e : E) : act A := fun h => ([e], answer h e).

(** A call whose outcome nobody waits for. *)
Definition emit (e : E) : act unit := fun _ => ([e], Resolved tt).

(** What a device shows, without an effect. *)
Definition observe {A} (f : list E -> A) : act A := fun h => ([], Resolved (f h)).

(** [throw] *)
Definition raise {A} : act A := fun _ => ([], Rejected tt).

(** An operation that resolved did so in each of its parts. *)
Lemma bind_resolved {A B} (m : act A) (f : A -> act B) h fx b : bind m f h = (fx, Resolved b) ->
  exists fx1 a fx2, m h = (fx1, Resolved a) /\ f a (h ++ fx1) = (fx2, Resolved b) /\ fx = fx1 ++ fx2.
Proof.
  unfold bind. destruct (m h) as [fx1 [a|]]; [|done]. destruct (f a (h ++ fx1)) as [fx2 r] eqn:Ef. intros [= <- ->].
  by exists fx1, a, fx2.
Qed.

(** Where an effect comes from. *)
Lemma bind_elem {A B} (m : act A) (f : A -> act B) h e : e ∈ (bind m f h).1 ->
  e ∈ (m h).1 \/ exists fx a, m h = (fx, Resolved a) /\ e ∈ (f a (h ++ fx)).1.
Proof.
  unfold bind. destruct (m h) as [fx [a|]]; [|by left]. destruct (f a (h ++ fx)) as [fx' r] eqn:Ef. cbn [fst].
  intros [He|He]%elem_of_app; [by left|]. right. exists fx, a. by rewrite Ef.
Qed.

Lemma attempt_elem {A} (m : act A) d h e : e ∈ (attempt m d h).1 -> e ∈ (m h).1.
Proof. unfold attempt. by destruct (m h) as [fx [a|]]. Qed.

(** ** Every effect satisfies a predicate *)

Definition within {A} (P : E -> Prop) (m : act A) : Prop := forall h, Forall P (m h).1.

Lemma within_ret {A} (P : E -> Prop) (a : A) : within P (ret a).
Proof. intros h. constructor. Qed.

Lemma within_bind {A B} (P : E -> Prop) (m : act A) (f : A -> act B) :
  within P m -> (forall a, within P (f a)) -> within P (bind m f).
Proof.
  intros Hm Hf h. specialize (Hm h). unfold bind. destruct (m h) as [fx [a|e]]; [|done].
  specialize (Hf a (h ++ fx)). destruct (f a (h ++ fx)) as [fx' r]. by apply Forall_app.
Qed.

Lemma within_attempt {A} (P : E -> Prop) (m : act A) d : within P m -> within P (attempt m d).
Proof. intros Hm h. specialize (Hm h). unfold attempt. by destruct (m h) as [fx [a|e]]. Qed.

Lemma within_ask {A} (P : E -> Prop) (answer : list E -> E -> settled A unit) e : P e -> within P (ask answer e).
Proof. intros He h. by repeat constructor. Qed.

Lemma within_observe {A} (P : E -> Prop) (f : list E -> A) : within P (observe f).
Proof. intros h. constructor. Qed.

Lemma within_raise {A} (P : E -> Prop) : within P (@raise A).
Proof. intros h. constructor. Qed.

Lemma within_emit (P : E -> Prop) e : P e -> within P (emit e).
Proof. intros He h. by repeat constructor. Qed.

Lemma within_if {A} (P : E -> Prop) (b : bool) (m k : act A) :
  (b = true -> within P m) -> (b = false -> within P k) -> within P (if b then m else k).
Proof. destruct b; auto. Qed.

Lemma within_mono {A} (P Q : E -> Prop) (m : act A) : (forall e, P e -> Q e) -> within P m -> within Q m.
Proof. intros HPQ Hm h. by eapply Forall_impl. Qed.
End act.
Arguments act : clear implicits.
End Effects.

#[export] Hint Resolve Effects.within_ret Effects.within_bind Effects.within_attempt Effects.within_ask Effects.within_emit
  Effects.within_observe Effects.within_raise
  Effects.within_if : effects.

Declare Scope act_scope.
Delimit Scope act_scope with act.
Notation "'let!' x ':=' m 'in' k" := (Effects.bind m (fun x => k)) (at level 200, x pattern, m at level 100, k at level 200) : act_scope.
