(* ===== verification/Response.v ===== *)
(** * Automatic response to threats

    Models [src/orchestrator/domain/orchestration/sagas/threat_response_saga.ts]
    (what a remediation tier does, module [Saga]) and
    [src/orchestrator/domain/orchestration/autonomous_response.ts] (the scores
    that lead to a tier, module [Engine]), over the policy engine of [Policy]
    and the bounded maps of [Collections] through their contract [LruSpec].
    What the firewall, the mesh, the packet capture and the forensics answer is
    a parameter; the engine is split at its awaits. *)

From S2P Require Import Prelude Result Effects JsMap JsString Cidr Collections Policy.
From Stdlib Require Import QArith Qround.

Local Open Scope Z_scope.

(** ** The bounded map, for its clients *)

Module LruLaws.
Section laws.
Context {V : Type}.
Implicit Types (s : LruSpec.t jsstr V) (k : jsstr) (v : V).

Definition lookup s k : option V := JsMap.get (LruSpec.entries s) k.

(** Distinct keys, the order lists exactly them, within capacity. *)
Record lru_ok s : Prop := mkLruOk {
  lo_wf : JsMap.wf (LruSpec.entries s);
  lo_order : LruSpec.order s ≡ₚ JsMap.keys (LruSpec.entries s);
  lo_bound : Lru.bounded s;
}.

Lemma front_perm (l : list jsstr) k : NoDup l -> k ∈ l -> k :: base.filter (fun x => ¬ x = k) l ≡ₚ l.
Proof.
  intros Hn Hk. apply NoDup_Permutation; [|done|].
  - constructor; [|by apply NoDup_filter]. rewrite list_elem_of_filter. naive_solver.
  - intros x. rewrite elem_of_cons, list_elem_of_filter. destruct (decide (x = k)); naive_solver.
Qed.

Lemma lookup_key s k v : lookup s k = Some v -> k ∈ JsMap.keys (LruSpec.entries s).
Proof. intros E%JsMap.get_Some_elem. apply list_elem_of_fmap. by exists (k, v). Qed.

Lemma touch_ok s k v v' : lookup s k = Some v -> lru_ok s -> lru_ok (LruSpec.touch k v' s).
Proof.
  intros E [Hw Ho Hb]. pose proof (lookup_key _ _ _ E) as Hk.
  assert (JsMap.keys ((k, v') :: JsMap.delete (LruSpec.entries s) k) ≡ₚ JsMap.keys (LruSpec.entries s)) as Hp.
  { change (k :: JsMap.keys (JsMap.delete (LruSpec.entries s) k) ≡ₚ JsMap.keys (LruSpec.entries s)).
    rewrite JsMap.keys_delete. by apply front_perm. }
  split; cbn [LruSpec.touch LruSpec.entries LruSpec.order LruSpec.cap].
  - unfold JsMap.wf. by rewrite Hp.
  - by rewrite Hp.
  - by eapply Lru.bounded_touch.
Qed.

Lemma evict_ok s : lru_ok s -> lru_ok (LruSpec.evict s) /\ forall k, lookup (LruSpec.evict s) k = lookup s k \/ lookup (LruSpec.evict s) k = None.
Proof.
  intros [Hw Ho Hb]. destruct (Lru.length_evict s) as [Hc Hl]. unfold LruSpec.evict, lookup in *.
  destruct (last (LruSpec.entries s)) as [[k0 v0]|]; [|split; [done|by left]]. split.
  - split; cbn [LruSpec.entries LruSpec.order].
    + by apply JsMap.wf_delete.
    + rewrite JsMap.keys_delete. by rewrite Ho.
    + unfold Lru.bounded in *. cbn [LruSpec.entries LruSpec.cap] in *. lia.
  - intros k. cbn [LruSpec.entries]. destruct (decide (k0 = k)) as [->|Hne]; [right; apply JsMap.get_delete_eq|left].
    by apply JsMap.get_delete_ne.
Qed.

Lemma set_ok s k v : lru_ok s -> lru_ok (LruSpec.set k v s).
Proof.
  intros Hs. pose proof (Lru.bounded_step s (Lru.OSet k v) (lo_bound _ Hs)) as [Hb _]. cbn [Lru.spec_step fst] in Hb.
  revert Hb. unfold LruSpec.set. destruct (JsMap.get (LruSpec.entries s) k) eqn:E; [by intros _; eapply touch_ok|].
  set (s1 := if _ <=? _ then LruSpec.evict s else s). intros Hb.
  assert (lru_ok s1 /\ lookup s1 k = None) as [[Hw Ho _] Hk].
  { subst s1. destruct (_ <=? _); [|done]. destruct (evict_ok s Hs) as [He Hl]. split; [done|].
    destruct (Hl k) as [->|?]; done. }
  apply JsMap.get_None in Hk. split; cbn [LruSpec.entries LruSpec.order].
  - unfold JsMap.wf. by constructor.
  - change (LruSpec.order s1 ++ [k] ≡ₚ k :: JsMap.keys (LruSpec.entries s1)). rewrite Ho. by rewrite Permutation_app_comm.
  - done.
Qed.

Lemma get_ok s k : lru_ok s -> lru_ok (LruSpec.get k s).1.
Proof. intros Hs. unfold LruSpec.get. destruct (JsMap.get (LruSpec.entries s) k) eqn:E; [by eapply touch_ok|done]. Qed.

Lemma del_ok s k : lru_ok s -> lru_ok (LruSpec.del k s).1.
Proof.
  intros [Hw Ho Hb]. pose proof (Lru.bounded_step s (Lru.ODelete k) Hb) as [Hb' _]. cbn [Lru.spec_step] in Hb'.
  destruct (LruSpec.del k s) as [s' b] eqn:E. cbn [fst] in *. unfold LruSpec.del in E.
  destruct (JsMap.get (LruSpec.entries s) k); injection E as <- <-; [|done]. split; cbn [LruSpec.entries LruSpec.order].
  - by apply JsMap.wf_delete.
  - rewrite JsMap.keys_delete. by rewrite Ho.
  - done.
Qed.

Lemma lookup_get s k k' : lookup (LruSpec.get k s).1 k' = lookup s k'.
Proof.
  unfold LruSpec.get, lookup. destruct (JsMap.get (LruSpec.entries s) k) eqn:E; [|done]. cbn [fst LruSpec.touch LruSpec.entries JsMap.get].
  destruct (decide (k = k')) as [->|Hne]; [done|]. by apply JsMap.get_delete_ne.
Qed.

Lemma get_value s k : (LruSpec.get k s).2 = lookup s k.
Proof. unfold LruSpec.get, lookup. by destruct (JsMap.get (LruSpec.entries s) k). Qed.

Lemma lookup_set_eq s k v : lookup (LruSpec.set k v s) k = Some v.
Proof.
  unfold LruSpec.set, lookup. destruct (JsMap.get (LruSpec.entries s) k) eqn:E; cbn [LruSpec.touch LruSpec.entries JsMap.get]; by rewrite decide_True.
Qed.

(** Another key keeps its value, or is the one evicted for a new key. *)
Lemma lookup_set_ne s k v k' : lru_ok s -> k <> k' ->
  lookup (LruSpec.set k v s) k' = lookup s k' \/ lookup (LruSpec.set k v s) k' = None.
Proof.
  intros Hs Hne. unfold LruSpec.set. destruct (JsMap.get (LruSpec.entries s) k) eqn:E.
  - left. unfold lookup. cbn [LruSpec.touch LruSpec.entries JsMap.get]. rewrite decide_False by done. by apply JsMap.get_delete_ne.
  - unfold lookup. cbn [LruSpec.entries JsMap.get]. rewrite decide_False by done. destruct (_ <=? _); [|by left]. apply (evict_ok s Hs).
Qed.

(** A key that is there is updated in place. *)
Lemma lookup_set_present s k v v0 k' : lookup s k = Some v0 -> lookup (LruSpec.set k v s) k' = if decide (k = k') then Some v else lookup s k'.
Proof.
  unfold LruSpec.set, lookup. intros ->. cbn [LruSpec.touch LruSpec.entries JsMap.get]. destruct (decide (k = k')); [done|].
  by apply JsMap.get_delete_ne.
Qed.

Lemma lookup_del s k k' : lookup (LruSpec.del k s).1 k' = if decide (k = k') then None else lookup s k'.
Proof.
  unfold LruSpec.del, lookup. destruct (JsMap.get (LruSpec.entries s) k) eqn:E; cbn [fst LruSpec.entries].
  - destruct (decide (k = k')) as [->|Hne]; [apply JsMap.get_delete_eq|by apply JsMap.get_delete_ne].
  - by destruct (decide (k = k')) as [->|Hne].
Qed.

(** Values: a property of all values is kept by the operations. *)
Definition all_values (P : jsstr -> V -> Prop) s : Prop := forall k v, lookup s k = Some v -> P k v.

Lemma all_set P s k v : lru_ok s -> all_values P s -> P k v -> all_values P (LruSpec.set k v s).
Proof.
  intros Hs Ha Hp k' v'. destruct (decide (k = k')) as [->|Hne]; [rewrite lookup_set_eq; by intros [= <-]|].
  destruct (lookup_set_ne s k v k' Hs Hne) as [->| ->]; [apply Ha|done].
Qed.

Lemma all_get P s k : all_values P s -> all_values P (LruSpec.get k s).1.
Proof. intros Ha k' v'. rewrite lookup_get. apply Ha. Qed.

Lemma all_del P s k : all_values P s -> all_values P (LruSpec.del k s).1.
Proof. intros Ha k' v'. rewrite lookup_del. destruct (decide (k = k')); [done|apply Ha]. Qed.
End laws.
End LruLaws.

Module Saga.
Import JsString PolicyDSL Effects.

Inductive effect :=
| EAudit (source : jsstr) (tier : RemediationAction)
| ELockdown
| EBroadcastQuarantine (source : jsstr)
| EBlockIp (source : jsstr)
| EIsolateNode (node : jsstr)
| EQuarantineProcess (pid : Z)
| EProcessHash (pid : Z)
| EBroadcastHash (hash : jsstr)
| EKillLater (pid : Z)                   (* after five seconds *)
| EShadowBan (source : jsstr)
| ESyscallAllowlist (pid : Z)
| ECapture (source : jsstr)
| EProcessForensics (pid : Z).           (* not awaited *)

Inductive SagaState := PENDING | EXECUTING | COMPLETED | FAILED | ROLLED_BACK.
Inductive SagaError := PortFailed | InvalidSource | Thrown.

Notation act := (Effects.act effect).

Section saga.
Local Open Scope act_scope.
(** The success flag a port answers with, or its exception; the hash of a
    process. *)
Context (answer : list effect -> effect -> settled bool unit).
Context (processHash : list effect -> Z -> settled (option jsstr) unit).

Definition call (e : effect) : act bool := ask answer e.

Definition reply (b : bool) : act (Result unit SagaError) := ret (if b then ok tt else err PortFailed).

(** [parseInt(source)] without a radix. *)
Fixpoint hexPrefix (s : jsstr) : jsstr :=
  match s with c :: t => if is_hex c then c :: hexPrefix t else [] | [] => [] end.

Definition hexValue (c : Z) : Z := digit_val (lower c).

Definition parseIntAny (s : jsstr) : option Z :=
  let t := Cidr.trimStart s in
  let '(sign, t) := match t with 45 :: t => (-1, t) | 43 :: t => (1, t) | _ => (1, t) end in
  match t with
  | 48 :: x :: t' =>
      if (x =? 120) || (x =? 88)
      then match hexPrefix t' with [] => None | ds => Some (sign * fold_left (fun n c => n * 16 + hexValue c) ds 0) end
      else Cidr.parseInt s
  | _ => Cidr.parseInt s
  end.

Definition isAddress (source : jsstr) : bool := includes source (js ".").

Definition handleLockdown (source : jsstr) : act (Result unit SagaError) :=
  let! b := call ELockdown in reply b.

Definition handleIsolation (source : jsstr) : act (Result unit SagaError) :=
  if isAddress source then
    let! _ := call (EBroadcastQuarantine source) in
    let! b := call (EBlockIp source) in reply b
  else let! b := call (EIsolateNode (js "local")) in reply b.

(** The hash of the binary goes to the mesh; every failure is only logged. *)
Definition gossipHash (pid : Z) : act unit :=
  attempt
    (let! h := ask (fun fx _ => processHash fx pid) (EProcessHash pid) in
     match h with
     | Some (c :: h) => let! _ := call (EBroadcastHash (c :: h)) in ret tt
     | _ => ret tt
     end) tt.

Definition handleBlock (source : jsstr) : act (Result unit SagaError) :=
  if isAddress source then let! b := call (EBlockIp source) in reply b
  else
    match parseIntAny source with
    | Some pid =>
        let! _ := call (EQuarantineProcess pid) in
        let! _ := gossipHash pid in
        let! _ := emit (EKillLater pid) in
        ret (ok tt)
    | None => ret (err InvalidSource)
    end.

Definition handleShadow (source : jsstr) : act (Result unit SagaError) :=
  if isAddress source then let! b := call (EShadowBan source) in reply b
  else
    match parseIntAny source with
    | Some pid => let! b := call (ESyscallAllowlist pid) in reply b
    | None => ret (err InvalidSource)
    end.

Definition handleWatch (source : jsstr) : act (Result unit SagaError) :=
  if isAddress source then let! _ := call (ECapture source) in ret (ok tt)
  else
    match parseIntAny source with
    | Some pid => let! _ := emit (EProcessForensics pid) in ret (ok tt)
    | None => ret (ok tt)
    end.

Definition handle (source : jsstr) (tier : RemediationAction) : act (Result unit SagaError) :=
  match tier with
  | LOCKDOWN => handleLockdown source
  | ISOLATE => handleIsolation source
  | BLOCK => handleBlock source
  | SHADOW => handleShadow source
  | WATCH => handleWatch source
  | LOG => ret (ok tt)
  end.

(** [execute]: the effects, the state the saga ends in, and what the promise
    settles to.  An exception of the audit log is not caught. *)
Definition execute (source : jsstr) (tier : RemediationAction) : list effect * SagaState * settled (Result unit SagaError) unit :=
  let audit := EAudit source tier in
  match answer [] audit with
  | Rejected e => ([audit], PENDING, Rejected e)
  | Resolved _ =>
      match handle source tier [audit] with
      | (fx, Resolved (ok u)) => (audit :: fx, COMPLETED, Resolved (ok u))
      | (fx, Resolved (err e)) => (audit :: fx, FAILED, Resolved (err e))
      | (fx, Rejected _) => (audit :: fx, FAILED, Resolved (err Thrown))
      end
  end.

(** ** What the tiers touch *)

(** The effects that interfere with a host, a node or a process. *)
Definition enforcing (e : effect) : bool :=
  match e with
  | ELockdown | EBroadcastQuarantine _ | EBlockIp _ | EIsolateNode _ | EQuarantineProcess _ | EKillLater _
  | EShadowBan _ | ESyscallAllowlist _ => true
  | _ => false
  end.

(** The tiers that the engine replaces in shadow mode. *)
Definition enforcing_tier (tier : RemediationAction) : bool :=
  match tier with BLOCK | ISOLATE | LOCKDOWN => true | _ => false end.

(** What the tier SHADOW does to a source. *)
Definition shadow_measure (source : jsstr) (e : effect) : Prop :=
  e = EShadowBan source \/ exists pid, parseIntAny source = Some pid /\ e = ESyscallAllowlist pid.

(** What the tiers that are left in shadow mode may do. *)
Definition mild (source : jsstr) (tier : RemediationAction) (e : effect) : Prop :=
  enforcing e = true -> tier = SHADOW /\ shadow_measure source e.

Lemma mild_handlers source tier : enforcing_tier tier = false -> within (mild source tier) (handle source tier).
Proof.
  intros Ht. assert (forall e, enforcing e = false -> mild source tier e) as Hq by (intros e He; unfold mild; by rewrite He).
  destruct tier; try done; cbn [handle]; unfold handleShadow, handleWatch, call, reply;
    (destruct (isAddress source); [|destruct (parseIntAny source) as [pid|] eqn:Ep]);
    first [by eauto 6 with effects
          |apply within_bind; [apply within_ask; intros _; split; [done|first [by left|right; by eexists]]|by eauto with effects]].
Qed.

Lemma mild_tiers source tier : enforcing_tier tier = false -> Forall (mild source tier) (execute source tier).1.1.
Proof.
  intros Ht. unfold execute. destruct (answer [] (EAudit source tier)); [|by repeat constructor].
  pose proof (mild_handlers source tier Ht [EAudit source tier]) as Hh.
  destruct (handle source tier _) as [fx [[]|]]; cbn [fst] in *; by constructor.
Qed.

(** ** Addresses that are taken for processes *)

Lemma digits_prefix ds c rest : Forall (fun d => is_digit d = true) ds -> is_digit c = false -> Cidr.digitPrefix (ds ++ c :: rest) = ds.
Proof. intros Hd Hc. induction Hd as [|d ds Hx _ IH]; simpl; [by rewrite Hc|]. by rewrite Hx, IH. Qed.

Lemma digit_cases d : is_digit d = true ->
  d = 48 \/ d = 49 \/ d = 50 \/ d = 51 \/ d = 52 \/ d = 53 \/ d = 54 \/ d = 55 \/ d = 56 \/ d = 57.
Proof. unfold is_digit. lia. Qed.

Lemma parseInt_digit d t : is_digit d = true ->
  Cidr.parseInt (d :: t) = match Cidr.digitPrefix (d :: t) with [] => None | ds => Some (1 * parse_base 10 ds) end.
Proof. intros Hd%digit_cases. by repeat destruct Hd as [->|Hd]; subst. Qed.

Lemma parseIntAny_digit d t : is_digit d = true -> head t <> Some 120 -> head t <> Some 88 ->
  parseIntAny (d :: t) = Cidr.parseInt (d :: t).
Proof.
  intros Hd%digit_cases H1 H2. destruct Hd as [->|Hd]; [|by repeat destruct Hd as [->|Hd]; subst].
  destruct t as [|x t]; [done|]. unfold parseIntAny. change (Cidr.trimStart (48 :: x :: t)) with (48 :: x :: t).
  cbn [head] in *. assert ((x =? 120) || (x =? 88) = false) as E; [|cbv beta iota; by rewrite E].
  apply orb_false_iff. split; apply Z.eqb_neq; congruence.
Qed.

Lemma parse_colon ds rest : ds <> [] -> Forall (fun d => is_digit d = true) ds ->
  parseIntAny (ds ++ 58 :: rest) = Some (parse_base 10 ds).
Proof.
  intros Hne Hd. pose proof (digits_prefix ds 58 rest Hd eq_refl) as Hp. destruct Hd as [|d ds Hx Hd]; [done|].
  cbn [app] in *.
  assert (forall c, is_digit c = false -> c <> 58 -> head (ds ++ 58 :: rest) <> Some c) as Hhead.
  { intros c Hc Hn. destruct Hd as [|y ds Hy _]; cbn [app head]; congruence. }
  rewrite parseIntAny_digit, parseInt_digit, Hp by (done || by apply Hhead). f_equal. lia.
Qed.

(** The forensics and the gossip of a block never fail and block nothing. *)
Lemma gossip_only pid h : exists fx, gossipHash pid h = (fx, Resolved tt) /\ forall s, EBlockIp s ∉ fx.
Proof.
  assert (within (fun e => forall s, e <> EBlockIp s) (gossipHash pid)) as Hg.
  { unfold gossipHash, call. apply within_attempt, within_bind; [by apply within_ask|].
    intros [[|c t]|]; [apply within_ret| |apply within_ret]. apply within_bind; [by apply within_ask|]. intros _. apply within_ret. }
  specialize (Hg h). assert (exists fx, gossipHash pid h = (fx, Resolved tt)) as [fx E].
  { unfold gossipHash, attempt. destruct (bind _ _ h) as [fx [[]|]]; by eexists. }
  exists fx. split; [done|]. rewrite E in Hg. intros s Hs. rewrite Forall_forall in Hg. by apply (Hg _ Hs s).
Qed.

(** An IPv6 address whose first group is decimal is taken for a process: the
    BLOCK tier for it quarantines and later kills the process whose number is
    that group, blocks nothing at the firewall, and the saga completes. *)
Theorem ipv6_killed_as_process ds rest b :
  ds <> [] -> Forall (fun d => is_digit d = true) ds -> 46 ∉ rest ->
  let source := ds ++ 58 :: rest in let pid := parse_base 10 ds in
  answer [] (EAudit source BLOCK) = Resolved true ->
  answer [EAudit source BLOCK] (EQuarantineProcess pid) = Resolved b ->
  exists fx, execute source BLOCK = (fx, COMPLETED, Resolved (ok tt)) /\
    EQuarantineProcess pid ∈ fx /\ EKillLater pid ∈ fx /\ forall s, EBlockIp s ∉ fx.
Proof.
  intros Hne Hd Hr source pid Ha Hq. subst source.
  assert (isAddress (ds ++ 58 :: rest) = false) as Hadd.
  { unfold isAddress. apply includes_char_false. intros [Hin|[Hin|Hin]%elem_of_cons]%elem_of_app; [|done|done].
    rewrite Forall_forall in Hd. by specialize (Hd _ Hin). }
  unfold execute. rewrite Ha. cbn [handle]. unfold handleBlock. rewrite Hadd, parse_colon by done. fold pid.
  unfold call, bind at 1, ask. rewrite Hq. unfold bind at 1.
  pose proof (gossip_only pid ([EAudit (ds ++ 58 :: rest) BLOCK] ++ [EQuarantineProcess pid])) as (fx & -> & Hno).
  unfold bind, emit, ret. eexists. split; [reflexivity|]. cbn [app]. split_and!; [set_solver|set_solver|]. intros s. set_solver.
Qed.
End saga.
End Saga.

Module Engine.
Import JsString PolicyDSL.

(** A threat event; its severity if it is a finite number, and all its fields
    as the policy's rules see them. *)
Record ThreatEvent := mkEvent { source : jsstr; severity : option Q; fields : list (string * Value) }.

Inductive Stage :=
| AwaitLog (currentScore : Z)            (* before the policy is asked *)
| AwaitShadowLog.                        (* before the downgraded remediation *)

Record Engine := mkEngine {
  scores : LruSpec.t jsstr Z;
  history : LruSpec.t jsstr (list ThreatEvent);
  activeRemediations : LruSpec.t jsstr RemediationAction;
  policy : PolicyEngine.SecurityPolicy;
  pending : list (ThreatEvent * Stage);
}.

Definition empty_lru {V} (cap : Z) : LruSpec.t jsstr V := {| LruSpec.entries := []; LruSpec.order := []; LruSpec.cap := cap |}.

Definition new (p : PolicyEngine.SecurityPolicy) : Engine := mkEngine (empty_lru 500) (empty_lru 500) (empty_lru 500) p [].

Definition MAX_HISTORY_PER_SOURCE : nat := 20.

(** [Math.floor] of a finite positive severity, else 0. *)
Definition safeSeverity (e : ThreatEvent) : Z :=
  match severity e with
  | Some q => if Qle_bool q 0 then 0 else Qfloor q
  | None => 0
  end.

Definition lastN {A} (n : nat) (l : list A) : list A := drop (length l - n) l.

(** [evaluate] up to its log entry. *)
Definition evaluateStart (s : Engine) (e : ThreatEvent) : Engine :=
  let '(sc, cur) := LruSpec.get (source e) (scores s) in
  let currentScore := default 0 cur + safeSeverity e in
  let sc := LruSpec.set (source e) currentScore sc in
  let '(hi, past) := LruSpec.get (source e) (history s) in
  let events := default [] past ++ [e] in
  let events := if (MAX_HISTORY_PER_SOURCE <? length events)%nat then lastN MAX_HISTORY_PER_SOURCE events else events in
  let hi := LruSpec.set (source e) events hi in
  mkEngine sc hi (activeRemediations s) (policy s) (pending s ++ [(e, AwaitLog currentScore)]).

Definition tier_eqb (a b : RemediationAction) : bool :=
  match a, b with
  | LOG, LOG | WATCH, WATCH | SHADOW, SHADOW | BLOCK, BLOCK | ISOLATE, ISOLATE | LOCKDOWN, LOCKDOWN => true
  | _, _ => false
  end.

Section engine.
Context (answer : list Saga.effect -> Saga.effect -> settled bool unit).
Context (processHash : list Saga.effect -> Z -> settled (option jsstr) unit).
Context (ToString : Value -> jsstr) (coerced_lt coerced_le : Value -> Value -> bool)
        (regexp_test : Value -> jsstr -> option bool).

(** [executeRemediation] *)
Definition executeRemediation (s : Engine) (src : jsstr) (tier : RemediationAction) : Engine * list Saga.effect :=
  let '(ac, existing) := LruSpec.get src (activeRemediations s) in
  match existing with
  | Some t =>
      if tier_eqb t tier then (mkEngine (scores s) (history s) ac (policy s) (pending s), [])
      else (mkEngine (LruSpec.get src (scores s)).1 (history s) (LruSpec.set src tier ac) (policy s) (pending s),
            (Saga.execute answer processHash src tier).1.1)
  | None =>
      (mkEngine (LruSpec.get src (scores s)).1 (history s) (LruSpec.set src tier ac) (policy s) (pending s),
       (Saga.execute answer processHash src tier).1.1)
  end.

Definition with_pending (p : list (ThreatEvent * Stage)) (s : Engine) : Engine :=
  mkEngine (scores s) (history s) (activeRemediations s) (policy s) p.

Definition remove_at {A} (i : nat) (l : list A) : list A := take i l ++ drop (S i) l.

(** The [i]-th evaluation that waits goes on; a rule with an invalid pattern
    makes it reject. *)
Definition evaluateResume (s : Engine) (i : nat) : Engine * list Saga.effect :=
  match pending s !! i with
  | None => (s, [])
  | Some (e, stage) =>
      let s := with_pending (remove_at i (pending s)) s in
      match stage with
      | AwaitShadowLog => executeRemediation s (source e) WATCH
      | AwaitLog currentScore =>
          match PolicyEngine.evaluate ToString coerced_lt coerced_le regexp_test (policy s) (inject_Z currentScore)
                  (Some (JsMap.set (fields e) "currentScore" (VNum (inject_Z currentScore)))) with
          | None => (s, [])
          | Some decision =>
              if PolicyEngine.isShadowMode (policy s) && Saga.enforcing_tier (PolicyEngine.action decision)
              then (with_pending (pending s ++ [(e, AwaitShadowLog)]) s, [])
              else executeRemediation s (source e) (PolicyEngine.action decision)
          end
      end
  end.

(** The body of [decayScores] for one entry of the snapshot. *)
Definition decayOne (s : Engine) (entry : jsstr * Z) : Engine :=
  let newScore := Z.max 0 (entry.2 - 1) in
  if newScore =? 0 then
    mkEngine (LruSpec.del entry.1 (scores s)).1 (LruSpec.del entry.1 (history s)).1 (LruSpec.del entry.1 (activeRemediations s)).1
      (policy s) (pending s)
  else mkEngine (LruSpec.set entry.1 newScore (scores s)) (history s) (activeRemediations s) (policy s) (pending s).

(** [entries()] *)
Definition snapshot {V} (m : LruSpec.t jsstr V) : list (jsstr * V) :=
  omap (fun k => pair k <$> JsMap.get (LruSpec.entries m) k) (LruSpec.order m).

Definition decayScores (s : Engine) : Engine := fold_left decayOne (snapshot (scores s)) s.

Definition resetScore (s : Engine) (src : jsstr) : Engine :=
  mkEngine (LruSpec.del src (scores s)).1 (LruSpec.del src (history s)).1 (LruSpec.del src (activeRemediations s)).1
    (policy s) (pending s).

(** [evaluateSocketFlow]: a flow with a numeric threat score of at least 85. *)
Definition evaluateSocketFlow (s : Engine) (remoteIp : jsstr) (threatScore : option Q) (fs : list (string * Value)) : Engine :=
  match threatScore with
  | Some q => if bool_decide (remoteIp = []) || negb (Qle_bool 85 q) then s else evaluateStart s (mkEvent remoteIp (Some q) fs)
  | None => s
  end.

(** ** Runs *)

Inductive input :=
| IEvent (e : ThreatEvent)
| IFlow (remoteIp : jsstr) (threatScore : option Q) (fs : list (string * Value))
| IResume (i : nat)
| IDecay
| IReset (src : jsstr)
| IPolicy (u : PolicyEngine.PartialPolicy)
| IShadow (b : bool).

Definition with_policy (p : PolicyEngine.SecurityPolicy) (s : Engine) : Engine :=
  mkEngine (scores s) (history s) (activeRemediations s) p (pending s).

Definition step (s : Engine) (i : input) : Engine * list Saga.effect :=
  match i with
  | IEvent e => (evaluateStart s e, [])
  | IFlow ip q fs => (evaluateSocketFlow s ip q fs, [])
  | IResume i => evaluateResume s i
  | IDecay => (decayScores s, [])
  | IReset src => (resetScore s src, [])
  | IPolicy u => (with_policy (PolicyEngine.updatePolicy u (policy s)) s, [])
  | IShadow b => (with_policy (PolicyEngine.setShadowMode b (policy s)) s, [])
  end.

Fixpoint run (s : Engine) (ins : list input) : Engine * list Saga.effect :=
  match ins with
  | [] => (s, [])
  | i :: ins => let '(s', fx) := step s i in let '(s'', fx') := run s' ins in (s'', fx ++ fx')
  end.

(** ** Shadow mode *)

(** Nothing in the run leaves shadow mode. *)
Definition keeps_shadow (i : input) : bool :=
  match i with
  | IShadow b => b
  | IPolicy u => default true (PolicyEngine.u_shadowMode u)
  | _ => true
  end.

Lemma remediate_policy s src tier : policy (executeRemediation s src tier).1 = policy s /\
  pending (executeRemediation s src tier).1 = pending s.
Proof.
  unfold executeRemediation. destruct (LruSpec.get src (activeRemediations s)) as [ac [t|]]; [|done]. by destruct (tier_eqb t tier).
Qed.

Lemma remediate_mild s src tier : Saga.enforcing_tier tier = false ->
  Forall (Saga.mild src tier) (executeRemediation s src tier).2.
Proof.
  intros Ht. unfold executeRemediation. pose proof (Saga.mild_tiers answer processHash src tier Ht) as Hm.
  destruct (LruSpec.get src (activeRemediations s)) as [ac [t|]]; [|done]. destruct (tier_eqb t tier); [constructor|done].
Qed.

Lemma decay_policy s : policy (decayScores s) = policy s /\ pending (decayScores s) = pending s.
Proof.
  unfold decayScores. generalize (snapshot (scores s)). intros l. revert s. induction l as [|x l IH]; intros s; cbn [fold_left]; [done|].
  destruct (IH (decayOne s x)) as [-> ->]. unfold decayOne. by destruct (_ =? 0).
Qed.

Lemma start_policy s e : policy (evaluateStart s e) = policy s.
Proof. unfold evaluateStart. destruct (LruSpec.get _ (scores s)), (LruSpec.get _ (history s)). done. Qed.

(** The evaluation that [i] resumes is one for which the policy decides SHADOW. *)
Definition shadow_decision (s : Engine) (i : input) (src : jsstr) : Prop :=
  exists n e score d, i = IResume n /\ pending s !! n = Some (e, AwaitLog score) /\ source e = src /\
    PolicyEngine.evaluate ToString coerced_lt coerced_le regexp_test (policy s) (inject_Z score)
      (Some (JsMap.set (fields e) "currentScore" (VNum (inject_Z score)))) = Some d /\
    PolicyEngine.action d = SHADOW.

Lemma step_shadow s i : PolicyEngine.shadowMode (policy s) = true -> keeps_shadow i = true ->
  PolicyEngine.shadowMode (policy (step s i).1) = true /\
  Forall (fun f => Saga.enforcing f = true -> exists src, shadow_decision s i src /\ Saga.shadow_measure src f) (step s i).2.
Proof.
  intros Hs Hk. destruct i as [e|ip q fs|i| |src|u|b]; cbn [step fst snd].
  - by rewrite start_policy.
  - split; [|done]. unfold evaluateSocketFlow. destruct q; [|done]. destruct (_ || _); [done|]. by rewrite start_policy.
  - unfold evaluateResume. destruct (pending s !! i) as [[e [score|]]|] eqn:Ei; [| |done].
    + cbn [policy with_pending]. destruct (PolicyEngine.evaluate _ _ _ _ _ _ _) as [d|] eqn:Ed; [|done].
      unfold PolicyEngine.isShadowMode. rewrite Hs. cbn [andb]. destruct (Saga.enforcing_tier (PolicyEngine.action d)) eqn:E; [done|].
      rewrite (proj1 (remediate_policy _ _ _)). split; [done|].
      eapply Forall_impl; [by apply remediate_mild|]. intros f Hf He. destruct (Hf He) as [Ha Hm].
      exists (source e). split; [|done]. by exists i, e, score, d.
    + rewrite (proj1 (remediate_policy _ _ _)). split; [done|].
      eapply Forall_impl; [by apply (remediate_mild _ (source e) WATCH)|]. intros f Hf He. by destruct (Hf He).
  - by rewrite (proj1 (decay_policy s)).
  - done.
  - split; [|done]. cbn [policy with_policy]. unfold PolicyEngine.updatePolicy, PolicyEngine.sortThresholds, PolicyEngine.set_thresholds, PolicyEngine.spread.
    cbn [PolicyEngine.shadowMode]. cbn [keeps_shadow] in Hk. destruct (PolicyEngine.u_shadowMode u); cbn [default] in *; done.
  - done.
Qed.

(** C12: In shadow mode the only measures taken are those of the tier SHADOW.
    In every run of events, resumed evaluations, decays, resets and policy
    updates that does not leave the mode, in any interleaving and whatever
    the policy decides, nothing blocks, isolates, locks down, quarantines or
    kills; an effect that interferes with a host or a process at all is a
    shadow ban or a list of system calls for a source whose evaluation the
    policy decided as SHADOW at that point of the run. *)
Theorem shadow_mode_confined s ins : PolicyEngine.shadowMode (policy s) = true -> forallb keeps_shadow ins = true ->
  Forall (fun f => Saga.enforcing f = true -> exists before i after src,
    ins = before ++ i :: after /\ shadow_decision (run s before).1 i src /\ Saga.shadow_measure src f) (run s ins).2.
Proof.
  revert s. induction ins as [|i ins IH]; intros s Hs Hk; cbn [run]; [constructor|].
  apply andb_true_iff in Hk as [Hi Hk]. destruct (step_shadow s i Hs Hi) as [Hs' Hf]. destruct (step s i) as [s' fx] eqn:Es.
  specialize (IH s' Hs' Hk). destruct (run s' ins) as [s'' fx'] eqn:Er. apply Forall_app. split.
  - eapply Forall_impl; [exact Hf|]. intros f Hd He. destruct (Hd He) as (src & ? & ?). by exists [], i, ins, src.
  - eapply Forall_impl; [exact IH|]. intros f Hd He. destruct (Hd He) as (before & j & after & src & -> & Hdec & Hm).
    exists (i :: before), j, after, src. split_and!; [done| |done]. cbn [run]. rewrite Es. by destruct (run s' before).
Qed.

(** ** The state stays well formed *)

Definition history_ok (src : jsstr) (es : list ThreatEvent) : Prop :=
  (1 <= length es <= MAX_HISTORY_PER_SOURCE)%nat /\ Forall (fun e => source e = src) es.

Record engine_ok (s : Engine) : Prop := mkEngineOk {
  eo_scores : LruLaws.lru_ok (scores s);
  eo_history : LruLaws.lru_ok (history s);
  eo_active : LruLaws.lru_ok (activeRemediations s);
  eo_caps : LruSpec.cap (scores s) = 500 /\ LruSpec.cap (history s) = 500 /\ LruSpec.cap (activeRemediations s) = 500;
  eo_nonneg : LruLaws.all_values (fun _ sc => 0 <= sc) (scores s);
  eo_past : LruLaws.all_values history_ok (history s);
}.

Lemma safeSeverity_nonneg e : 0 <= safeSeverity e.
Proof.
  unfold safeSeverity. destruct (severity e) as [q|]; [|done]. destruct (Qle_bool q 0) eqn:E; [done|].
  assert (0 <= q)%Q as Hq. { apply Qnot_lt_le. intros Hlt. apply Qlt_le_weak, Qle_bool_iff in Hlt. congruence. }
  apply Qfloor_resp_le in Hq. exact Hq.
Qed.

Lemma cap_keeps {V} (m : LruSpec.t jsstr V) k v : LruSpec.cap (LruSpec.set k v m) = LruSpec.cap m /\
  LruSpec.cap (LruSpec.get k m).1 = LruSpec.cap m /\ LruSpec.cap (LruSpec.del k m).1 = LruSpec.cap m.
Proof.
  unfold LruSpec.set, LruSpec.get, LruSpec.del. destruct (JsMap.get (LruSpec.entries m) k); [done|].
  cbn [LruSpec.cap]. split; [|done]. destruct (_ <=? _); [apply Lru.length_evict|done].
Qed.

Lemma lastN_length {A} n (l : list A) : length (lastN n l) = Nat.min n (length l).
Proof. unfold lastN. rewrite length_drop. lia. Qed.

Lemma extend_history src es e : (length es <= MAX_HISTORY_PER_SOURCE)%nat -> Forall (fun e => source e = src) es -> source e = src ->
  history_ok src (if (MAX_HISTORY_PER_SOURCE <? length (es ++ [e]))%nat then lastN MAX_HISTORY_PER_SOURCE (es ++ [e]) else es ++ [e]).
Proof.
  intros Hl Hf He. assert (Forall (fun e => source e = src) (es ++ [e])) as Hf' by (apply Forall_app; split; [done|by constructor]).
  assert (length (es ++ [e]) = S (length es)) as Hlen by (rewrite length_app; simpl; lia).
  destruct (Nat.ltb_spec MAX_HISTORY_PER_SOURCE (length (es ++ [e]))) as [Hgt|Hle].
  - split; [|by apply Forall_drop]. rewrite lastN_length. unfold MAX_HISTORY_PER_SOURCE in *. lia.
  - split; [lia|done].
Qed.

Lemma start_ok s e : engine_ok s -> engine_ok (evaluateStart s e).
Proof.
  intros [Hs Hh Ha (C1 & C2 & C3) Hn Hp]. unfold evaluateStart.
  pose proof (LruLaws.get_ok (scores s) (source e) Hs) as Hs1. pose proof (LruLaws.get_value (scores s) (source e)) as Vs.
  pose proof (LruLaws.all_get _ _ (source e) Hn) as Hn1. destruct (cap_keeps (scores s) (source e) 0) as (_ & Cs & _).
  pose proof (LruLaws.get_ok (history s) (source e) Hh) as Hh1. pose proof (LruLaws.get_value (history s) (source e)) as Vh.
  pose proof (LruLaws.all_get _ _ (source e) Hp) as Hp1. destruct (cap_keeps (history s) (source e) []) as (_ & Ch & _).
  destruct (LruSpec.get (source e) (scores s)) as [sc cur], (LruSpec.get (source e) (history s)) as [hi past]. cbn [fst snd] in *.
  pose proof (safeSeverity_nonneg e). split; cbn [scores history activeRemediations].
  - by apply LruLaws.set_ok.
  - by apply LruLaws.set_ok.
  - done.
  - rewrite !(proj1 (cap_keeps _ _ _)). split_and!; congruence.
  - apply LruLaws.all_set; [done..|]. subst cur. destruct (LruLaws.lookup (scores s) (source e)) as [v|] eqn:E; cbn [default]; [|lia].
    specialize (Hn _ _ E). cbv beta in Hn. change (id v) with v. lia.
  - apply LruLaws.all_set; [done..|]. subst past. destruct (LruLaws.lookup (history s) (source e)) as [es|] eqn:E; cbn [default].
    + destruct (Hp _ _ E) as [Hl Hf]. change (id es) with es. by apply extend_history; [lia|..].
    + apply (extend_history (source e) []); [simpl; lia|constructor|done].
Qed.

Lemma remediate_ok s src tier : engine_ok s -> engine_ok (executeRemediation s src tier).1.
Proof.
  intros [Hs Hh Ha (C1 & C2 & C3) Hn Hp]. unfold executeRemediation.
  pose proof (LruLaws.get_ok (activeRemediations s) src Ha) as Ha1. destruct (cap_keeps (activeRemediations s) src LOG) as (_ & Ca & _).
  pose proof (LruLaws.get_ok (scores s) src Hs) as Hs1. pose proof (LruLaws.all_get _ _ src Hn) as Hn1. destruct (cap_keeps (scores s) src 0) as (_ & Cs & _).
  destruct (LruSpec.get src (activeRemediations s)) as [ac existing]. cbn [fst] in *.
  assert (engine_ok (mkEngine (LruSpec.get src (scores s)).1 (history s) (LruSpec.set src tier ac) (policy s) (pending s))) as Hset.
  { split; cbn [scores history activeRemediations]; try done; [by apply LruLaws.set_ok|].
    rewrite (proj1 (cap_keeps ac src tier)). split_and!; congruence. }
  destruct existing as [t|]; [|done]. destruct (tier_eqb t tier); [|done]. split; cbn [fst scores history activeRemediations]; try done.
  rewrite Ca. done.
Qed.

Lemma reset_engine_ok s src : engine_ok s -> engine_ok (resetScore s src).
Proof.
  intros [Hs Hh Ha (C1 & C2 & C3) Hn Hp]. split; cbn [scores history activeRemediations resetScore]; auto using LruLaws.del_ok, LruLaws.all_del.
  rewrite (proj2 (proj2 (cap_keeps (scores s) src 0))), (proj2 (proj2 (cap_keeps (history s) src []))),
    (proj2 (proj2 (cap_keeps (activeRemediations s) src LOG))). done.
Qed.

Lemma decayOne_ok s x : engine_ok s -> engine_ok (decayOne s x).
Proof.
  intros Hok. unfold decayOne. destruct (Z.eqb_spec (Z.max 0 (x.2 - 1)) 0); [by apply (reset_engine_ok s x.1)|].
  destruct Hok as [Hs Hh Ha (C1 & C2 & C3) Hn Hp]. split; cbn [scores history activeRemediations]; try done.
  - by apply LruLaws.set_ok.
  - rewrite (proj1 (cap_keeps _ _ _)). done.
  - apply LruLaws.all_set; [done..|]. lia.
Qed.

Lemma decay_ok s : engine_ok s -> engine_ok (decayScores s).
Proof.
  unfold decayScores. generalize (snapshot (scores s)). intros l. revert s.
  induction l as [|x l IH]; intros s Hs; cbn [fold_left]; [done|]. by apply IH, decayOne_ok.
Qed.

Lemma engine_step_ok s i : engine_ok s -> engine_ok (step s i).1.
Proof.
  intros Hok. destruct i as [e|ip q fs|i| |src|u|b]; cbn [step fst].
  - by apply start_ok.
  - unfold evaluateSocketFlow. destruct q; [|done]. destruct (_ || _); [done|by apply start_ok].
  - unfold evaluateResume. assert (forall p, engine_ok (with_pending p s)) as Hp by (intros p; by destruct Hok).
    destruct (pending s !! i) as [[e []]|]; [|by apply remediate_ok|done].
    destruct (PolicyEngine.evaluate _ _ _ _ _ _ _) as [d|]; [|apply Hp]. destruct (_ && _); [by destruct Hok|by apply remediate_ok].
  - by apply decay_ok.
  - by apply reset_engine_ok.
  - by destruct Hok.
  - by destruct Hok.
Qed.

Lemma empty_ok {V} : LruLaws.lru_ok (@empty_lru V 500).
Proof. split; [constructor|done|unfold Lru.bounded; cbn; lia]. Qed.

Lemma new_ok p : engine_ok (new p).
Proof. split; cbn [new scores history activeRemediations]; auto using empty_ok; by intros k v [=]. Qed.

Lemma run_engine_ok ins : forall s, engine_ok s -> engine_ok (run s ins).1.
Proof.
  induction ins as [|i ins IH]; intros s Hs; cbn [run]; [done|].
  apply (engine_step_ok s i) in Hs. destruct (step s i) as [s' fx]. specialize (IH s' Hs). by destruct (run s' ins).
Qed.

(** C13: The engine's tables stay well formed whatever happens, in any order: at
    most 500 sources each, every score a non-negative integer, every history
    between one and twenty events, all of its own source. *)
Theorem engine_well_formed p ins : engine_ok (run (new p) ins).1.
Proof. apply run_engine_ok, new_ok. Qed.

(** ** Decay *)

Lemma snapshot_elem {V} (m : LruSpec.t jsstr V) k v : LruLaws.lru_ok m -> (k, v) ∈ snapshot m <-> LruLaws.lookup m k = Some v.
Proof.
  intros [_ Ho _]. unfold snapshot. rewrite list_elem_of_omap. split.
  - intros (k' & _ & E). unfold LruLaws.lookup. destruct (JsMap.get (LruSpec.entries m) k') eqn:Eg; [|done]. by simplify_eq/=.
  - intros E. exists k. split; [rewrite Ho; by eapply LruLaws.lookup_key|]. unfold LruLaws.lookup in E. by rewrite E.
Qed.

Lemma snapshot_nodup {V} (m : LruSpec.t jsstr V) : LruLaws.lru_ok m -> NoDup (snapshot m).*1.
Proof.
  intros [Hw Ho _]. unfold snapshot. assert (NoDup (LruSpec.order m)) as Hn by (by rewrite Ho). clear Ho.
  induction Hn as [|k ks Hk _ IH]; [constructor|]. cbn [omap list_omap]. destruct (JsMap.get (LruSpec.entries m) k) as [v|]; [|done].
  cbn [fmap option_fmap option_map list_fmap]. constructor; [|done]. intros ([k' v'] & Ek & Hin)%list_elem_of_fmap. cbn [fst] in Ek. subst k'.
  apply list_elem_of_omap in Hin as (x & Hx & E). destruct (JsMap.get _ x); [|done]. by simplify_eq/=.
Qed.

(** What the decay does to the score of one source, and to what is kept of it. *)
Definition decayed (o : option Z) : option Z := match o with Some v => if v <=? 1 then None else Some (v - 1) | None => None end.
Definition survives (o : option Z) : bool := match o with Some v => negb (v <=? 1) | None => true end.

Lemma decay_fold l : forall s, engine_ok s -> NoDup l.*1 -> (forall k v, (k, v) ∈ l -> LruLaws.lookup (scores s) k = Some v) ->
  let s' := fold_left decayOne l s in forall k,
  LruLaws.lookup (scores s') k = (if decide (k ∈ l.*1) then decayed (LruLaws.lookup (scores s) k) else LruLaws.lookup (scores s) k) /\
  LruLaws.lookup (history s') k =
    (if decide (k ∈ l.*1) then if survives (LruLaws.lookup (scores s) k) then LruLaws.lookup (history s) k else None
     else LruLaws.lookup (history s) k) /\
  LruLaws.lookup (activeRemediations s') k =
    (if decide (k ∈ l.*1) then if survives (LruLaws.lookup (scores s) k) then LruLaws.lookup (activeRemediations s) k else None
     else LruLaws.lookup (activeRemediations s) k).
Proof.
  induction l as [|[x v] l IH]; intros s Hs Hn Hl s' k; subst s'; cbn [fold_left].
  { by rewrite !decide_False by apply not_elem_of_nil. }
  rewrite fmap_cons in Hn. apply NoDup_cons in Hn as [Hx Hn]. cbn [fst] in Hx. pose proof (Hl x v ltac:(by left)) as Ex.
  assert (forall k, LruLaws.lookup (scores (decayOne s (x, v))) k = if decide (x = k) then decayed (Some v) else LruLaws.lookup (scores s) k) as S1.
  { intros k'. unfold decayOne, decayed. cbn [fst snd]. destruct (Z.eqb_spec (Z.max 0 (v - 1)) 0), (Z.leb_spec v 1); try lia; cbn [scores].
    - apply LruLaws.lookup_del.
    - rewrite (LruLaws.lookup_set_present _ _ _ _ _ Ex). destruct (decide _); [f_equal; lia|done]. }
  assert (forall k, LruLaws.lookup (history (decayOne s (x, v))) k =
      (if decide (x = k) then if survives (Some v) then LruLaws.lookup (history s) k else None else LruLaws.lookup (history s) k) /\
    LruLaws.lookup (activeRemediations (decayOne s (x, v))) k =
      (if decide (x = k) then if survives (Some v) then LruLaws.lookup (activeRemediations s) k else None
       else LruLaws.lookup (activeRemediations s) k)) as S2.
  { intros k'. unfold decayOne, survives. cbn [fst snd]. destruct (Z.eqb_spec (Z.max 0 (v - 1)) 0), (Z.leb_spec v 1); try lia;
      cbn [history activeRemediations negb]; rewrite ?LruLaws.lookup_del; by destruct (decide (x = k')). }
  destruct (IH (decayOne s (x, v)) (decayOne_ok _ _ Hs) Hn) with (k := k) as (I1 & I2 & I3).
  { intros k' v' Hin. rewrite S1. destruct (decide (x = k')) as [->|]; [|by apply Hl; right].
    destruct Hx. apply list_elem_of_fmap. by exists (k', v'). }
  rewrite I1, I2, I3, S1, (proj1 (S2 k)), (proj2 (S2 k)). clear I1 I2 I3. rewrite fmap_cons. cbn [fst].
  destruct (decide (x = k)) as [->|Hne].
  - rewrite !(decide_False (P := k ∈ l.*1)), !(decide_True (P := k ∈ k :: l.*1)), Ex by (done || by left). done.
  - destruct (decide (k ∈ l.*1)) as [Hin|Hin].
    + by rewrite !(decide_True (P := k ∈ x :: l.*1)) by (by right).
    + by rewrite !(decide_False (P := k ∈ x :: l.*1)) by (intros [|]%elem_of_cons; congruence).
Qed.

(** The decay takes one point from every source: a score of one or less is
    cleared together with the source's history and active remediation, so that
    the next event starts it afresh, and everything else is as before. *)
Theorem decay_exact s k : engine_ok s -> let s' := decayScores s in
  LruLaws.lookup (scores s') k = decayed (LruLaws.lookup (scores s) k) /\
  LruLaws.lookup (history s') k = (if survives (LruLaws.lookup (scores s) k) then LruLaws.lookup (history s) k else None) /\
  LruLaws.lookup (activeRemediations s') k =
    (if survives (LruLaws.lookup (scores s) k) then LruLaws.lookup (activeRemediations s) k else None).
Proof.
  intros Hs s'. pose proof (eo_scores _ Hs) as Hl.
  destruct (decay_fold (snapshot (scores s)) s Hs (snapshot_nodup _ Hl)) with (k := k) as (E1 & E2 & E3).
  { intros k' v'. by apply snapshot_elem. }
  subst s'. unfold decayScores. rewrite E1, E2, E3. destruct (decide _) as [|Hn]; [done|].
  assert (LruLaws.lookup (scores s) k = None) as ->; [|done].
  destruct (LruLaws.lookup (scores s) k) as [v|] eqn:E; [|done]. destruct Hn. apply list_elem_of_fmap. exists (k, v).
  split; [done|]. by apply snapshot_elem.
Qed.
End engine.
End Engine.

Module ResponseExamples.
Import JsString PolicyDSL Engine.

Definition yes0 (h : list Saga.effect) (e : Saga.effect) : settled bool unit := Resolved true.
Definition hash0 (h : list Saga.effect) (pid : Z) : settled (option jsstr) unit := Resolved (Some (js "feed")).
Definition text0 (v : Value) : jsstr := [].
Definition less0 (a b : Value) : bool := false.
Definition regexp0 (v : Value) (s : jsstr) : option bool := None.

Lemma ipv6_killed_as_process_witness : exists fx,
  Saga.execute yes0 hash0 (js "2001:db8::1") BLOCK = (fx, Saga.COMPLETED, Resolved (ok tt)) /\
  Saga.EQuarantineProcess 2001 ∈ fx /\ Saga.EKillLater 2001 ∈ fx /\ forall s, Saga.EBlockIp s ∉ fx.
Proof.
  apply (Saga.ipv6_killed_as_process yes0 hash0 (js "2001") (js "db8::1") true);
    [discriminate|by repeat constructor| |reflexivity|reflexivity].
  apply (bool_decide_unpack (46 ∉ js "db8::1")). vm_compute. exact I.
Defined.

(** In shadow mode a source over the blocking threshold is only watched. *)
Definition flood0 (q : Q) : ThreatEvent := mkEvent (js "6.6.6.6") (Some q) [].
Definition shadow0 : Engine := Engine.new (PolicyEngine.new None None None).
Definition inputs0 : list input := [IEvent (flood0 40); IEvent (flood0 30); IResume 0; IResume 0; IResume 0; IDecay].
Definition run0 : Engine * list Saga.effect := Engine.run yes0 hash0 text0 less0 less0 regexp0 shadow0 inputs0.

Lemma shadow_run_effects : run0.2 = [Saga.EAudit (js "6.6.6.6") SHADOW; Saga.EShadowBan (js "6.6.6.6");
  Saga.EAudit (js "6.6.6.6") WATCH; Saga.ECapture (js "6.6.6.6")].
Proof. vm_compute. reflexivity. Qed.

Lemma shadow_mode_confined_witness :
  Forall (fun f => Saga.enforcing f = true -> exists before i after src,
    inputs0 = before ++ i :: after /\
    shadow_decision text0 less0 less0 regexp0 (Engine.run yes0 hash0 text0 less0 less0 regexp0 shadow0 before).1 i src /\
    Saga.shadow_measure src f) run0.2.
Proof. apply (shadow_mode_confined yes0 hash0 text0 less0 less0 regexp0 shadow0 inputs0); vm_compute; reflexivity. Defined.

Lemma decay_exact_witness : LruLaws.lookup (scores run0.1) (js "6.6.6.6") = Some 69 /\
  LruLaws.lookup (scores (decayScores run0.1)) (js "6.6.6.6") = decayed (LruLaws.lookup (scores run0.1) (js "6.6.6.6")).
Proof.
  split; [vm_compute; reflexivity|].
  apply (decay_exact run0.1 (js "6.6.6.6")).
  apply run_engine_ok, new_ok.
Defined.
End ResponseExamples.

