(* ===== verification/Firewall.v ===== *)
(** * The firewall

    Models [src/orchestrator/infrastructure/system/protection/firewall/firewall.ts]
    ([FirewallManager]: the set of blocked addresses, the enforcement records in
    the KV store, the connectivity guard) over
    [providers/ubuntu_firewall.ts] ([UbuntuFirewallProvider]), which reaches the
    kernel through the sentinel sidecar, whose commands [Schemas] vets, or
    through [ufw] and [kill], which [Executor] vets.  The manager is cut at its
    awaits; what the sidecar, the spawned programs and the ping answer is a
    parameter.  A process id is an integer or [NaN] ([None]). *)

From S2P Require Import Prelude Result Effects JsSet JsMap JsString JsSort Regex Net Paths Schemas ExecPolicy Executor Canonical.
From Stdlib Require Import QArith.

Local Open Scope Z_scope.

Module Firewall.
Import JsString Regex Net Paths Schemas ExecPolicy Executor Effects.

Record CommandResult := mkResult { succeeded : bool; message : option jsstr }.
Definition failed : CommandResult := mkResult false None.

Inductive effect :=
| ESentinel (request : Json)                       (* a command the sidecar manager accepted *)
| ESpawn (program : jsstr) (args : list jsstr)     (* a process the executor started *)
| EPing (ip : jsstr)                               (* of the connectivity guard *)
| ELogNetwork (ip : jsstr)
| EBroadcastBlock (ip : jsstr)
| EBroadcastLockdown
| EResync.

Notation act := (Effects.act effect).

(** An enforcement record: [reason] is always MANUAL_BLOCK here. *)
Record Enforcement := mkEnforcement { expiresAt : Z; committedAt : Z }.

(** What an operation waits for: the network log, the KV store, the five
    seconds of the connectivity guard. *)
Inductive Stage :=
| SBlockLogged (ip : jsstr)
| SBlockStored (ip : jsstr) (record : Enforcement)
| SShadowLogged (ip : jsstr)
| SUnblockStored (ip : jsstr)
| SCheck.

Record Manager := mkManager {
  blockedIps : list jsstr;                         (* a [Set]: first insertion first *)
  kv : bool;                                       (* [setKv] was called *)
  store : list (jsstr * Enforcement);              (* the records under ["enforcement"] *)
  connectivityCheckInProgress : bool;
  pending : list Stage;
}.

Definition with_blocked (b : list jsstr) (s : Manager) : Manager :=
  mkManager b (kv s) (store s) (connectivityCheckInProgress s) (pending s).
Definition with_store (m : list (jsstr * Enforcement)) (s : Manager) : Manager :=
  mkManager (blockedIps s) (kv s) m (connectivityCheckInProgress s) (pending s).
Definition with_checking (b : bool) (s : Manager) : Manager := mkManager (blockedIps s) (kv s) (store s) b (pending s).
Definition with_pending (p : list Stage) (s : Manager) : Manager :=
  mkManager (blockedIps s) (kv s) (store s) (connectivityCheckInProgress s) p.

(** A manager of a new process on a store. *)
Definition boot (m : list (jsstr * Enforcement)) : Manager := mkManager [] false m false [].

Section firewall.
Local Open Scope act_scope.

Context `{StdPath} `{Zod} (basename : jsstr -> jsstr) (JSON_parse : jsstr -> option Json).
(** GATEWAY_IP, whether the orchestrator runs as root, its own process id, the
    id of a sidecar command, the path of a memory dump, PILOT_CHECKIN_IP and
    PILOT_MODE. *)
Context (gateway : option jsstr) (root : bool) (ownPid : Z) (uuid dumpPath checkInIp : jsstr) (isPilot : bool).
(** Whether the sentinel runs, whether its circuit breaker is closed, and the
    answers, each after the effects so far. *)
Context (running closed : list effect -> bool) (answer : list effect -> effect -> settled CommandResult unit).

(** ** The provider *)

(** [SidecarManager.sendCommand("sentinel", cmd)]: refused by an open breaker or
    an invalid request, and every exception becomes a failed result. *)
Definition sendCommand (request : Json) : act CommandResult :=
  let! b := observe closed in
  if b && validateRequest gateway "sentinel" request then attempt (ask answer (ESentinel request)) failed else ret failed.

(** [SystemExecutor.execute]: refusals and exceptions are failed results. *)
Definition execute (cmd : jsstr) (args : list jsstr) : act CommandResult :=
  match spawned basename JSON_parse root cmd args with
  | Some (program, argv) => attempt (ask answer (ESpawn program argv)) failed
  | None => ret failed
  end.

Definition command (type : string) (fields : list (string * Json)) : Json :=
  JObj (("type", JStr (js type)) :: fields ++ [("id", JStr uuid)])%string.
Definition ipCommand (type : string) (ip : jsstr) : Json := command type [("ip", JStr ip)]%string.

(** A [NaN] is refused by [z.number()] as [null] is. *)
Definition number (pid : option Z) : Json := match pid with Some z => JNum (inject_Z z) | None => JNull end.
Definition pidCommand (type : string) (pid : option Z) : Json := command type [("pid", number pid)]%string.
Definition pidText (pid : option Z) : jsstr := match pid with Some z => decimal z | None => js "NaN" end.

Definition isSentinelAvailable : act bool := if isAllowedSidecar "sentinel" then observe running else ret false.

Definition isSentinelActive : act bool :=
  let! b := isSentinelAvailable in
  if b then
    let! status := sendCommand (command "GET_STATUS" []) in
    ret (succeeded status && bool_decide (message status = Some (js "Active")))
  else ret false.

(** The sentinel when it is active and succeeds, the program otherwise. *)
Definition orElse (request : Json) (cmd : jsstr) (args : list jsstr) : act CommandResult :=
  let! active := isSentinelActive in
  let! res := (if active then sendCommand request else ret failed) in
  if succeeded res then ret res else execute cmd args.

Definition provider_blockIp (ip : jsstr) : act CommandResult :=
  orElse (ipCommand "BLOCK_IP" ip) (js "ufw") [js "deny"; js "from"; ip].

Definition provider_shadowBanIp (ip : jsstr) : act CommandResult :=
  let! active := isSentinelActive in
  let! res := (if active then sendCommand (ipCommand "SHADOW_BAN" ip) else ret failed) in
  if succeeded res then ret res else provider_blockIp ip.

Definition provider_unblockIp (ip : jsstr) : act CommandResult :=
  orElse (ipCommand "UNBLOCK_IP" ip) (js "ufw") [js "delete"; js "deny"; js "from"; ip].

(** [pid <= 1 || pid === Deno.pid]; both are false of [NaN]. *)
Definition protectedPid (pid : option Z) : bool := match pid with Some z => (z <=? 1) || (z =? ownPid) | None => false end.

Definition provider_signal (type : string) (signal : jsstr) (pid : option Z) : act CommandResult :=
  if protectedPid pid then ret failed
  else
    let! available := isSentinelAvailable in
    if available then sendCommand (pidCommand type pid) else execute (js "kill") [signal; pidText pid].

Definition provider_killProcess : option Z -> act CommandResult := provider_signal "KillProcess" (js "-9").
Definition provider_quarantineProcess : option Z -> act CommandResult := provider_signal "QuarantineProcess" (js "-19").

Definition provider_enforce (type : string) (pid : option Z) : act CommandResult :=
  let! available := isSentinelAvailable in
  if available then sendCommand (pidCommand type pid) else ret failed.

Definition provider_dumpProcessForensics (pid : option Z) : act CommandResult :=
  let! available := isSentinelAvailable in
  if available then sendCommand (command "DumpProcess" [("pid", number pid); ("path", JStr dumpPath)]%string)
  else execute (js "gcore") [js "-o"; dumpPath; pidText pid].

Definition provider_lockdown : act CommandResult :=
  orElse (command "LOCKDOWN" []) (js "ufw") [js "default"; js "deny"; js "incoming"].

Definition portText (port : Z) (protocol : jsstr) : jsstr := decimal port ++ js "/" ++ protocol.
Definition portCommand (type : string) (port : Z) (protocol : jsstr) : Json :=
  command type [("port", JNum (inject_Z port)); ("protocol", JStr protocol)]%string.

Definition provider_allowPort (port : Z) (protocol : jsstr) : act CommandResult :=
  orElse (portCommand "ALLOW_PORT" port protocol) (js "ufw") [js "allow"; portText port protocol].
Definition provider_denyPort (port : Z) (protocol : jsstr) : act CommandResult :=
  orElse (portCommand "DENY_PORT" port protocol) (js "ufw") [js "deny"; portText port protocol].

Definition provider_flushRules : act CommandResult :=
  orElse (command "FLUSH_RULES" []) (js "ufw") [js "--force"; js "reset"].

(** ** The manager *)

(** [verifyConnectivity] up to its five seconds. *)
Definition verifyStart (s : Manager) : Manager :=
  if connectivityCheckInProgress s then s
  else if isPilot then with_pending (pending s ++ [SCheck]) (with_checking true s) else s.

(** What follows a successful change of the rules. *)
Definition afterChange (s : Manager) (r : list effect * settled CommandResult unit) : Manager * list effect :=
  (match r.2 with Resolved res => if succeeded res then verifyStart s else s | Rejected _ => s end, r.1).

Definition flushRules (s : Manager) (h : list effect) : Manager * list effect :=
  (with_blocked [] s, (provider_flushRules h).1).

(** The rest of [verifyConnectivity]; an exception of the ping is only printed. *)
Definition verifyEnd (s : Manager) (h : list effect) : Manager * list effect :=
  match answer h (EPing checkInIp) with
  | Resolved res =>
      if succeeded res then (with_checking false s, [EPing checkInIp])
      else let '(s, fx) := flushRules s (h ++ [EPing checkInIp]) in (with_checking false s, EPing checkInIp :: fx ++ [EResync])
  | Rejected _ => (with_checking false s, [EPing checkInIp])
  end.

Definition blockIp (s : Manager) (ip : jsstr) : Manager * list effect :=
  if isValidIP ip
  then (with_pending (pending s ++ [SBlockLogged ip]) (with_blocked (set_add ip (blockedIps s)) s), [ELogNetwork ip])
  else (s, []).

Definition shadowBanIp (s : Manager) (ip : jsstr) : Manager * list effect :=
  if isValidIP ip then (with_pending (pending s ++ [SShadowLogged ip]) s, [ELogNetwork ip]) else (s, []).

Definition unblockIp (s : Manager) (ip : jsstr) (h : list effect) : Manager * list effect :=
  if isValidIP ip then
    let s := with_blocked (set_delete ip (blockedIps s)) s in
    if kv s then (with_pending (pending s ++ [SUnblockStored ip]) s, [])
    else (s, (provider_unblockIp ip h).1)
  else (s, []).

(** The continuation of an awaited promise, at the time [now]; a write to the
    store has happened when its promise resolves. *)
Definition resume (s : Manager) (st : Stage) (now : Z) (h : list effect) : Manager * list effect :=
  match st with
  | SBlockLogged ip =>
      let day := 24 * 60 * 60 * 1000 in
      if kv s then (with_pending (pending s ++ [SBlockStored ip (mkEnforcement (now + day) now)]) s, [EBroadcastBlock ip])
      else let '(s, fx) := afterChange s (provider_blockIp ip (h ++ [EBroadcastBlock ip])) in (s, EBroadcastBlock ip :: fx)
  | SBlockStored ip record => afterChange (with_store (JsMap.set (store s) ip record) s) (provider_blockIp ip h)
  | SShadowLogged ip =>
      let '(s, fx) := afterChange s (provider_shadowBanIp ip (h ++ [EBroadcastBlock ip])) in (s, EBroadcastBlock ip :: fx)
  | SUnblockStored ip => (with_store (JsMap.delete (store s) ip) s, (provider_unblockIp ip h).1)
  | SCheck => verifyEnd s h
  end.

(** [kv.list]: in the order of the keys. *)
Definition listing (m : list (jsstr * Enforcement)) : list jsstr := map fst (stable_sort Canonical.key_lt m).

(** The hydration of [setKv]; a failed block is only logged.  The source runs
    up to fifty of them at a time, here one follows the other. *)
Fixpoint blockAll (ips : list jsstr) : act unit :=
  match ips with
  | [] => ret tt
  | ip :: ips => let! _ := attempt (provider_blockIp ip) failed in blockAll ips
  end.

Definition setKv (s : Manager) (h : list effect) : Manager * list effect :=
  let ips := List.filter isValidIP (listing (store s)) in
  (mkManager (fold_left (fun b ip => set_add ip b) ips (blockedIps s)) true (store s) (connectivityCheckInProgress s) (pending s),
   (blockAll ips h).1).

(** [killProcess]: a failed dump does not stop the kill. *)
Definition killProcess (pid : option Z) : act CommandResult :=
  let! _ := attempt (provider_dumpProcessForensics pid) failed in provider_killProcess pid.

Definition lockdown : act CommandResult :=
  let! _ := emit EBroadcastLockdown in provider_lockdown.

Inductive input :=
| IBlock (ip : jsstr) | IShadow (ip : jsstr) | IUnblock (ip : jsstr)
| IKill (pid : option Z) | IQuarantine (pid : option Z) | IEnforce (pid : option Z) | IUnenforce (pid : option Z)
| ILockdown | IAllowPort (port : Z) (protocol : jsstr) | IDenyPort (port : Z) (protocol : jsstr)
| IFlush | ISetKv
| IResume (i : nat) (resolved : bool) (now : Z).   (* an awaited promise settles *)

Definition step (s : Manager) (i : input) (h : list effect) : Manager * list effect :=
  match i with
  | IBlock ip => blockIp s ip
  | IShadow ip => shadowBanIp s ip
  | IUnblock ip => unblockIp s ip h
  | IKill pid => (s, (killProcess pid h).1)
  | IQuarantine pid => (s, (provider_quarantineProcess pid h).1)
  | IEnforce pid => (s, (provider_enforce "ENFORCE_PID" pid h).1)
  | IUnenforce pid => (s, (provider_enforce "UNENFORCE_PID" pid h).1)
  | ILockdown => (s, (lockdown h).1)
  | IAllowPort p proto => (s, (provider_allowPort p proto h).1)
  | IDenyPort p proto => (s, (provider_denyPort p proto h).1)
  | IFlush => flushRules s h
  | ISetKv => setKv s h
  | IResume i resolved now =>
      match pending s !! i with
      | Some st =>
          let s := with_pending (take i (pending s) ++ drop (S i) (pending s)) s in
          match st with SCheck => resume s st now h | _ => if resolved then resume s st now h else (s, []) end
      | None => (s, [])
      end
  end.

Fixpoint run (s : Manager) (ins : list input) (h : list effect) : Manager * list effect :=
  match ins with
  | [] => (s, [])
  | i :: ins => let '(s, fx) := step s i h in let '(s, fx') := run s ins (h ++ fx) in (s, fx ++ fx')
  end.

(** [getEnforcementLedger]: every address blocked in memory or on record. *)
Definition getEnforcementLedger (s : Manager) : list (jsstr * option Enforcement) :=
  let records := if kv s then List.filter (fun e => isValidIP e.1) (stable_sort Canonical.key_lt (store s)) else [] in
  let ips := uniq (blockedIps s ++ map fst records) in
  stable_sort (fun a b => default 0 (committedAt <$> b.2) <? default 0 (committedAt <$> a.2))
    (map (fun ip => (ip, JsMap.get records ip)) ips).
(** ** What reaches the system *)

(** The process runs [cmd], itself or under sudo. *)
Definition runs (cmd program : jsstr) (argv : list jsstr) : Prop :=
  program = cmd \/ program = js "sudo" /\ argv !! 1%nat = Some cmd.

Definition killing (request : Json) : bool := type_in ["KillProcess"; "QuarantineProcess"]%string request.

(** No protected process is killed or suspended, and every address is valid. *)
Definition safe (e : effect) : Prop :=
  match e with
  | ELogNetwork ip | EBroadcastBlock ip => isValidIP ip = true
  | ESentinel request =>
      (killing request = true -> exists z, prop request "pid" = Some (JNum (inject_Z z)) /\ 1 < z /\ z <> ownPid) /\
      forall ip, prop request "ip" = Some (JStr ip) -> isValidIP ip = true
  | ESpawn program argv =>
      (runs (js "kill") program argv -> exists pre signal z, argv = pre ++ [signal; decimal z] /\ 1 < z /\ z <> ownPid) /\
      (runs (js "ufw") program argv -> forall pre ip, argv = pre ++ [js "from"; ip] -> isValidIP ip = true)
  | _ => True
  end.

Lemma within_send P request :
  (validateRequest gateway "sentinel" request = true -> P (ESentinel request)) -> within P (sendCommand request).
Proof.
  intros HP. apply within_bind; [apply within_observe|]. intros b. apply within_if; [|intros _; apply within_ret].
  intros [_ Hv]%andb_true_iff. by apply within_attempt, within_ask, HP.
Qed.

Lemma within_execute P cmd args :
  (forall program argv, spawned basename JSON_parse root cmd args = Some (program, argv) -> P (ESpawn program argv)) ->
  within P (execute cmd args).
Proof.
  intros HP. unfold execute. destruct (spawned _ _ _ _ _) as [[program argv]|] eqn:E; [|apply within_ret].
  by apply within_attempt, within_ask, HP.
Qed.

(** A valid request carries a valid address, if any. *)
Lemma sentinel_ip request ip :
  validateRequest gateway "sentinel" request = true -> prop request "ip" = Some (JStr ip) -> isValidIP ip = true.
Proof.
  intros Hv Hip. unfold validateRequest in Hv. change (schema_of gateway "sentinel") with (Some (SentinelRequestSchema gateway)) in Hv.
  unfold SentinelRequestSchema in Hv. rewrite zod_refine in Hv. apply andb_true_iff in Hv as [Hv _].
  eapply (object_field _ _ "ip") in Hv; [|simpl; tauto]. rewrite Hip in Hv. apply optional_field in Hv as [Hv|Hv]; [done|].
  apply refined_string in Hv as (s & [= <-] & Hs). done.
Qed.

Lemma sentinel_nan type : validateRequest gateway "sentinel" (pidCommand type None) = false.
Proof.
  apply not_true_is_false. intros Hv. unfold validateRequest in Hv.
  change (schema_of gateway "sentinel") with (Some (SentinelRequestSchema gateway)) in Hv.
  unfold SentinelRequestSchema in Hv. rewrite zod_refine in Hv. apply andb_true_iff in Hv as [Hv _].
  eapply (object_field _ _ "pid") in Hv; [|simpl; tauto]. rewrite zod_optional in Hv. simpl in Hv.
  unfold PidSchema in Hv. by rewrite !zod_check, zod_number in Hv.
Qed.
Lemma safe_send request : killing request = false -> within safe (sendCommand request).
Proof. intros Hk. apply within_send. intros Hv. split; [by rewrite Hk|]. intros ip. by apply sentinel_ip. Qed.

Lemma safe_ufw args :
  (forall pre ip, args = pre ++ [js "from"; ip] -> isValidIP ip = true) -> (2 <= length args)%nat ->
  within safe (execute (js "ufw") args).
Proof.
  intros Ha Hl. apply within_execute. intros program argv (_ & _ & Hs)%spawned_valid. split.
  - intros [E|[E E']]; destruct Hs as [[-> ->]|[-> ->]]; try discriminate E; try discriminate E'.
  - intros _ pre ip E. destruct Hs as [[-> ->]|[-> ->]]; [by apply (Ha pre)|].
    destruct pre as [|x [|y pre]]; simplify_eq/=; try lia. by apply (Ha pre).
Qed.

Lemma kill_digits signal text argv program :
  spawned basename JSON_parse root (js "kill") [signal; text] = Some (program, argv) ->
  matches (Seq (opt (lit "-")) (plus (cls "0-9"))) text = true /\ exists pre, argv = pre ++ [signal; text].
Proof.
  intros (_ & (policy & Hp & Hs & _)%validateArguments_ok & Ha)%spawned_valid. split.
  - assert (policy_of JSON_parse (js "kill") = Some (only KILL_SCHEMA)) as E by reflexivity.
    destruct Hp as [Hp|[Hp _]]; [|congruence]. rewrite E in Hp. injection Hp as <-. simpl in Hs. unfold KILL_SCHEMA, matching in Hs.
    rewrite zod_check, zod_array in Hs. simpl in Hs. rewrite !zod_check, !zod_string in Hs. simpl in Hs.
    rewrite !andb_true_iff in Hs. tauto.
  - destruct Ha as [[_ ->]|[_ ->]]; [by exists []|by exists [js "-n"; js "kill"]].
Qed.

Lemma safe_kill signal pid : protectedPid pid = false -> within safe (execute (js "kill") [signal; pidText pid]).
Proof.
  intros Hp. apply within_execute. intros program argv Hs. pose proof Hs as [Hm [pre ->]]%kill_digits.
  destruct pid as [z|]; [|by vm_compute in Hm]. cbn [protectedPid] in Hp. split; [|].
  - intros _. exists pre, signal, z. split; [done|]. lia.
  - intros Hr. apply spawned_valid in Hs as (_ & _ & [[-> E]|[-> E]]); destruct Hr as [Hr|[Hr Hr']]; try discriminate Hr.
    rewrite E in Hr'. discriminate Hr'.
Qed.

Lemma safe_available : within safe isSentinelAvailable.
Proof. unfold isSentinelAvailable. destruct (isAllowedSidecar _); [apply within_observe|apply within_ret]. Qed.

Lemma safe_active : within safe isSentinelActive.
Proof.
  apply within_bind; [apply safe_available|]. intros [|]; [|apply within_ret].
  apply within_bind; [by apply safe_send|]. intros res. apply within_ret.
Qed.

Lemma safe_orElse request args : killing request = false ->
  (forall pre ip, args = pre ++ [js "from"; ip] -> isValidIP ip = true) -> (2 <= length args)%nat ->
  within safe (orElse request (js "ufw") args).
Proof.
  intros Hk Ha Hl. apply within_bind; [apply safe_active|]. intros active. apply within_bind.
  - destruct active; [by apply safe_send|apply within_ret].
  - intros res. apply within_if; intros _; [apply within_ret|by apply safe_ufw].
Qed.

(** The only address among the arguments of a program. *)
Ltac only_from := let pre := fresh in let E := fresh in
  intros pre ? E; repeat (destruct pre as [|? pre]; [simplify_eq/=; done|]; simplify_eq/=).

Lemma safe_block ip : isValidIP ip = true -> within safe (provider_blockIp ip).
Proof. intros Hv. apply safe_orElse; [done|only_from|simpl; lia]. Qed.

Lemma safe_unblock ip : isValidIP ip = true -> within safe (provider_unblockIp ip).
Proof. intros Hv. apply safe_orElse; [done|only_from|simpl; lia]. Qed.

Lemma safe_shadow ip : isValidIP ip = true -> within safe (provider_shadowBanIp ip).
Proof.
  intros Hv. apply within_bind; [apply safe_active|]. intros active. apply within_bind.
  - destruct active; [by apply safe_send|apply within_ret].
  - intros res. apply within_if; intros _; [apply within_ret|by apply safe_block].
Qed.

Lemma safe_signal type signal pid : within safe (provider_signal type signal pid).
Proof.
  unfold provider_signal. apply within_if; [intros _; apply within_ret|]. intros Hp.
  apply within_bind; [apply safe_available|]. intros [|]; [|by apply safe_kill].
  apply within_send. destruct pid as [z|]; [|by rewrite sentinel_nan]. intros Hv. cbn [protectedPid] in Hp. split.
  - intros _. exists z. split; [done|lia].
  - intros ip. by apply sentinel_ip.
Qed.

Lemma safe_dump pid : within safe (provider_dumpProcessForensics pid).
Proof.
  apply within_bind; [apply safe_available|]. intros [|]; [by apply safe_send|].
  apply within_execute. intros program argv (_ & _ & [[-> ->]|[-> ->]])%spawned_valid; split; intros [E|[E E']];
    try discriminate E; try discriminate E'.
Qed.
(** ** The manager's state *)

Definition stage_ip (st : Stage) : option jsstr :=
  match st with
  | SBlockLogged ip | SBlockStored ip _ | SShadowLogged ip | SUnblockStored ip => Some ip
  | SCheck => None
  end.

Record manager_ok (s : Manager) : Prop := mkManagerOk {
  mo_valid : Forall (fun ip => isValidIP ip = true) (blockedIps s);
  mo_nodup : NoDup (blockedIps s);
  mo_store : JsMap.wf (store s);
  mo_pending : Forall (fun st => forall ip, stage_ip st = Some ip -> isValidIP ip = true) (pending s);
}.

Lemma hydrate_elem (ips : list jsstr) : forall l x, x ∈ fold_left (fun b ip => set_add ip b) ips l <-> x ∈ ips \/ x ∈ l.
Proof. induction ips as [|i ips IH]; intros l x; simpl; [set_solver|]. rewrite IH, set_add_elem. set_solver. Qed.

Lemma hydrate_nodup (ips : list jsstr) : forall l, NoDup l -> NoDup (fold_left (fun b ip => set_add ip b) ips l).
Proof. induction ips as [|i ips IH]; intros l Hl; simpl; [done|]. by apply IH, set_add_nodup. Qed.

Lemma safe_blockAll ips : Forall (fun ip => isValidIP ip = true) ips -> within safe (blockAll ips).
Proof.
  induction 1 as [|ip ips Hv _ IH]; [apply within_ret|]. apply within_bind; [by apply within_attempt, safe_block|]. by intros _.
Qed.

Lemma verifyStart_ok s : manager_ok s -> manager_ok (verifyStart s).
Proof.
  intros [Hv Hn Hw Hp]. unfold verifyStart. destruct (connectivityCheckInProgress s); [done|].
  destruct isPilot; split; try done. simpl. apply Forall_app. by repeat constructor.
Qed.

Lemma afterChange_ok s r : manager_ok s -> Forall safe r.1 ->
  manager_ok (afterChange s r).1 /\ Forall safe (afterChange s r).2.
Proof.
  intros Hs Hr. unfold afterChange. split; [|done]. destruct r.2; [|done]. cbn [fst]. destruct (succeeded a); [by apply verifyStart_ok|done].
Qed.

Lemma push_ok s st : manager_ok s -> (forall ip, stage_ip st = Some ip -> isValidIP ip = true) ->
  manager_ok (with_pending (pending s ++ [st]) s).
Proof. intros [Hv Hn Hw Hp] Hst. split; try done. simpl. apply Forall_app. by repeat constructor. Qed.

Lemma flush_ok s h : manager_ok s -> manager_ok (flushRules s h).1 /\ Forall safe (flushRules s h).2.
Proof.
  intros [Hv Hn Hw Hp]. split; [split; try done; constructor|]. apply safe_orElse; [done|only_from|simpl; lia].
Qed.

Lemma resume_ok s st now h : manager_ok s -> (forall ip, stage_ip st = Some ip -> isValidIP ip = true) ->
  manager_ok (resume s st now h).1 /\ Forall safe (resume s st now h).2.
Proof.
  intros Hs Hst. destruct st as [ip|ip record|ip|ip|]; cbn [resume stage_ip] in *.
  - specialize (Hst ip eq_refl). destruct (kv s).
    + split; [apply push_ok; [done|by intros ? [= <-]]|by repeat constructor].
    + pose proof (afterChange_ok s _ Hs (safe_block ip Hst (h ++ [EBroadcastBlock ip]))) as [H1 H2].
      destruct (afterChange s _) as [s' fx]. split; [done|]. by constructor.
  - apply afterChange_ok; [|by apply safe_block, Hst]. destruct Hs. split; try done. simpl. by apply JsMap.wf_set.
  - specialize (Hst ip eq_refl). pose proof (afterChange_ok s _ Hs (safe_shadow ip Hst (h ++ [EBroadcastBlock ip]))) as [H1 H2].
    destruct (afterChange s _) as [s' fx]. split; [done|]. by constructor.
  - split; [|by apply safe_unblock, Hst]. destruct Hs. split; try done. simpl. by apply JsMap.wf_delete.
  - unfold verifyEnd. assert (forall s, manager_ok s -> manager_ok (with_checking false s)) as Hc by (by intros ? []).
    destruct (answer _ _) as [res|]; [destruct (succeeded res)|]; try (split; [by apply Hc|by repeat constructor]).
    pose proof (flush_ok s (h ++ [EPing checkInIp]) Hs) as [H1 H2]. destruct (flushRules s _) as [s' fx].
    split; [by apply Hc|]. constructor; [done|]. apply Forall_app. by repeat constructor.
Qed.

Lemma step_safe s i h : manager_ok s -> manager_ok (step s i h).1 /\ Forall safe (step s i h).2.
Proof.
  intros Hs. destruct i as [ip|ip|ip|pid|pid|pid|pid| |p proto|p proto| | |i resolved now]; cbn [step].
  - unfold blockIp. destruct (isValidIP ip) eqn:Hv; [|done]. split; [|by repeat constructor].
    apply (push_ok (with_blocked (set_add ip (blockedIps s)) s)); [|by intros ? [= <-]]. destruct Hs as [Hb Hn Hw Hp]. split; try done.
    + apply Forall_forall. intros x [->|Hx]%set_add_elem; [done|]. by eapply Forall_forall in Hb.
    + by apply set_add_nodup.
  - unfold shadowBanIp. destruct (isValidIP ip) eqn:Hv; [|done]. split; [|by repeat constructor].
    apply push_ok; [done|by intros ? [= <-]].
  - unfold unblockIp. destruct (isValidIP ip) eqn:Hv; [|done].
    assert (manager_ok (with_blocked (set_delete ip (blockedIps s)) s)) as Hd.
    { destruct Hs as [Hb Hn Hw Hp]. split; try done; [|by apply set_delete_nodup].
      apply Forall_forall. intros x [_ Hx]%set_delete_elem. by eapply Forall_forall in Hb. }
    cbn [kv with_blocked]. destruct (kv s); [split; [apply push_ok; [done|by intros ? [= <-]]|done]|]. split; [done|by apply safe_unblock].
  - split; [done|]. apply within_bind; [apply within_attempt, safe_dump|]. intros _. apply safe_signal.
  - split; [done|]. apply safe_signal.
  - split; [done|]. apply within_bind; [apply safe_available|]. intros [|]; [by apply safe_send|apply within_ret].
  - split; [done|]. apply within_bind; [apply safe_available|]. intros [|]; [by apply safe_send|apply within_ret].
  - split; [done|]. apply within_bind; [by apply within_emit|]. intros _. apply safe_orElse; [done|only_from|simpl; lia].
  - split; [done|]. apply safe_orElse; [done|only_from|simpl; lia].
  - split; [done|]. apply safe_orElse; [done|only_from|simpl; lia].
  - by apply flush_ok.
  - unfold setKv. set (ips := List.filter isValidIP (listing (store s))). assert (Forall (fun ip => isValidIP ip = true) ips) as Hi.
    { apply Forall_forall. intros x Hx. apply list_elem_of_In, filter_In in Hx. by destruct Hx. }
    split; [|by apply safe_blockAll]. destruct Hs as [Hb Hn Hw Hp]. split; try done.
    + apply Forall_forall. intros x [Hx|Hx]%hydrate_elem; [by eapply Forall_forall in Hi|by eapply Forall_forall in Hb].
    + by apply hydrate_nodup.
  - destruct (pending s !! i) as [st|] eqn:Ei; [|done].
    assert (manager_ok (with_pending (take i (pending s) ++ drop (S i) (pending s)) s)) as Hs'.
    { destruct Hs as [Hb Hn Hw Hp]. split; try done. simpl. apply Forall_app. split; [by apply Forall_take|by apply Forall_drop]. }
    pose proof (resume_ok _ st now h Hs') as Hr.
    assert (forall ip, stage_ip st = Some ip -> isValidIP ip = true) as Hst by (by eapply Forall_lookup in Ei; [|apply (mo_pending _ Hs)]).
    destruct st; try (destruct resolved); try done; by apply Hr.
Qed.

(** C14: whatever operators, playbooks, peers and the store ask, in any order and
    with any answers: the firewall never kills or suspends process 0, 1 or the
    orchestrator itself, no matter which of the two ways it takes; every
    address it blocks, unblocks or announces is syntactically valid, also when
    the records in the store are poisoned; and no address is listed twice. *)
Theorem firewall_safe m ins h : JsMap.wf m ->
  let '(s, fx) := run (boot m) ins h in manager_ok s /\ Forall safe fx.
Proof.
  intros Hm. assert (manager_ok (boot m)) as Hb by (split; [constructor|constructor|done|constructor]).
  revert Hb. generalize (boot m). clear Hm. revert h. induction ins as [|i ins IH]; intros h s Hs; cbn [run]; [by split|].
  pose proof (step_safe s i h Hs) as [Hs' Hf]. destruct (step s i h) as [s' fx]. specialize (IH (h ++ fx) s' Hs').
  destruct (run s' ins (h ++ fx)) as [s'' fx']. destruct IH. split; [done|]. by apply Forall_app.
Qed.
(** ** What ufw accepts *)

Definition ufw_arg (arg : jsstr) : bool := matches (plus (cls "0-9a-zA-Z./-")) arg.
Definition ufw_verb (args : list jsstr) : bool :=
  nth_ok 0 (matches (ExecPolicy.words ["status"; "enable"; "disable"; "allow"; "deny"; "delete"; "default"; "reload"; "reset"])) args.

Lemma ufw_schema args : safeParse UFW_SCHEMA (Some (JArr (map JStr args))) =
  forallb ufw_arg args && (length args <=? 5)%nat && ufw_verb args.
Proof.
  unfold UFW_SCHEMA, superRefine, matching. rewrite zod_refine, zod_check, zod_array. cbn [check_ok].
  rewrite length_map, as_strings_map. f_equal. f_equal. induction args as [|a args IH]; [done|]. cbn [map forallb].
  by rewrite IH, zod_check, zod_string.
Qed.

Lemma ufw_policy : policy_of JSON_parse (js "ufw") = Some (only UFW_SCHEMA).
Proof. reflexivity. Qed.

(** The class of the arguments has no shell metacharacter. *)
Lemma ufw_arg_plain arg : ufw_arg arg = true -> contains META arg = false.
Proof.
  intros (_ & Hall)%matches_lang%lang_plus_cls. apply contains_false. eapply Forall_impl; [exact Hall|]. intros c Hc Hin.
  assert (forallb (fun m => negb (in_class (ranges (js "0-9a-zA-Z./-")) m)) META = true) as Hm by reflexivity.
  rewrite forallb_forall in Hm. specialize (Hm c ltac:(by apply list_elem_of_In)). simpl in Hc, Hm. by rewrite Hc in Hm.
Qed.

(** The executor starts ufw exactly on the arguments of its policy. *)
Lemma ufw_spawned args : basename (js "ufw") = js "ufw" ->
  match spawned basename JSON_parse root (js "ufw") args with
  | Some (program, argv) => runs (js "ufw") program argv /\ exists pre, argv = pre ++ args
  | None => True
  end /\
  (is_Some (spawned basename JSON_parse root (js "ufw") args) <->
   forallb ufw_arg args && (length args <=? 5)%nat && ufw_verb args = true).
Proof.
  intros Hb. split.
  { destruct (spawned _ _ _ _ _) as [[program argv]|] eqn:E; [|done].
    apply spawned_valid in E as (_ & _ & [[-> ->]|[-> ->]]).
    - split; [by left|by exists []].
    - split; [right; by split|by exists [js "-n"; js "ufw"]]. }
  unfold spawned, validateArguments. rewrite ufw_policy, Hb. cbn [schema only]. rewrite ufw_schema.
  change (isWhitelisted basename (js "ufw")) with true. cbn [negb].
  destruct (forallb ufw_arg args && _ && _) eqn:E; [|split; [by intros [? ?]|done]]. cbn [negb].
  split; [done|]. intros _. apply andb_true_iff in E as [[E _]%andb_true_iff _].
  assert (validateEach JSON_parse (only UFW_SCHEMA) (js "ufw")
            (listed PATH_SENSITIVE_COMMANDS (js "ufw") || listed PATH_SENSITIVE_COMMANDS (js "ufw")) args = None) as ->.
  { induction args as [|a args IH]; [done|]. cbn [forallb] in E. apply andb_true_iff in E as [Ea E]. cbn [validateEach].
    unfold validateArgument. cbn [find blockedStrings only schemaOwnsArgumentValidation]. rewrite (ufw_arg_plain _ Ea), andb_false_r.
    by apply IH. }
  destruct (_ && _); eauto.
Qed.

(** ** Success means enforcement *)

(** The effect that cuts the address off. *)
Definition cuts_off (ip : jsstr) (e : effect) : Prop :=
  match e with
  | ESentinel request => request = ipCommand "BLOCK_IP" ip
  | ESpawn program argv => runs (js "ufw") program argv /\ exists pre, argv = pre ++ [js "deny"; js "from"; ip]
  | _ => False
  end.

Lemma send_success request h fx res : sendCommand request h = (fx, Resolved res) -> succeeded res = true ->
  fx = [ESentinel request] /\ answer h (ESentinel request) = Resolved res.
Proof.
  unfold sendCommand, bind, observe. rewrite app_nil_r. destruct (closed h && _); unfold attempt, ask, ret; [|by intros [= <- <-]].
  destruct (answer h _) as [r|] eqn:E; intros [= <- <-]; [done|done].
Qed.

(** A block that the firewall reports as done is enforced: the sentinel
    accepted it, or ufw was started with the deny rule for the address and
    succeeded. *)
Theorem block_success_enforced ip h fx res : basename (js "ufw") = js "ufw" ->
  provider_blockIp ip h = (fx, Resolved res) -> succeeded res = true ->
  exists e h', e ∈ fx /\ cuts_off ip e /\ answer h' e = Resolved res.
Proof.
  intros Hb (fx1 & active & fx2 & _ & E & ->)%bind_resolved Hs. apply bind_resolved in E as (fx3 & res2 & fx4 & E2 & E & ->).
  destruct (succeeded res2) eqn:Hs2.
  - injection E as <- <-. destruct active; [|by injection E2 as _ <-].
    apply send_success in E2 as [-> Ha]; [|done]. eexists (ESentinel (ipCommand "BLOCK_IP" ip)), _.
    rewrite !elem_of_app. split; [right; left; by left|]. split; [reflexivity|exact Ha].
  - unfold execute in E. pose proof (ufw_spawned [js "deny"; js "from"; ip] Hb) as [Hsp _].
    destruct (spawned _ _ _ _ _) as [[program argv]|]; [|by injection E as _ <-]. unfold attempt, ask in E.
    destruct (answer _ (ESpawn program argv)) as [r|] eqn:Ea; injection E as <- <-; [|done].
    eexists (ESpawn program argv), _. rewrite !elem_of_app. split; [do 2 right; by left|]. split; [exact Hsp|exact Ea].
Qed.
(** ** When the sentinel does not do it *)

Lemma active_resolves h : exists fx b, isSentinelActive h = (fx, Resolved b) /\
  Forall (fun e => e = ESentinel (command "GET_STATUS" [])) fx.
Proof.
  unfold isSentinelActive, isSentinelAvailable, bind at 1. change (isAllowedSidecar "sentinel") with true. cbn [observe].
  destruct (running h); [|by exists [], false]. unfold sendCommand, bind, observe, attempt, ask, ret.
  destruct (closed _ && _); [|by exists [], false]. destruct (answer _ _); eexists _, _; (split; [reflexivity|]); by repeat constructor.
Qed.

(** A request the sentinel's schema refuses goes to the program. *)
Lemma orElse_refused request cmd args h : validateRequest gateway "sentinel" request = false ->
  exists fx, orElse request cmd args h = (fx ++ (execute cmd args (h ++ fx)).1, (execute cmd args (h ++ fx)).2).
Proof.
  intros Hv. destruct (active_resolves h) as (fx & b & E & _). exists fx. unfold orElse, bind at 1. rewrite E.
  assert ((if b then sendCommand request else ret failed) (h ++ fx) = ([], Resolved failed)) as E2.
  { destruct b; [|done]. unfold sendCommand, bind, observe. by rewrite Hv, andb_false_r. }
  unfold bind. rewrite E2. cbn [succeeded failed]. rewrite app_nil_r. by destruct (execute cmd args (h ++ fx)).
Qed.

Lemma orElse_absent request cmd args h : (forall h, running h = false) -> orElse request cmd args h = execute cmd args h.
Proof.
  intros Hr. unfold orElse, isSentinelActive, isSentinelAvailable, bind, observe, ret.
  change (isAllowedSidecar "sentinel") with true. cbv beta iota. rewrite Hr. cbn [succeeded failed app]. rewrite !app_nil_r.
  by destruct (execute cmd args h).
Qed.

Lemma execute_started cmd args program argv h : spawned basename JSON_parse root cmd args = Some (program, argv) ->
  ESpawn program argv ∈ (execute cmd args h).1.
Proof. intros E. unfold execute. rewrite E. unfold attempt, ask. destruct (answer _ _); by left. Qed.

(** The schema of the sentinel refuses critical infrastructure, and the fallback
    blocks it all the same. *)
Lemma critical_cut_off ip h : basename (js "ufw") = js "ufw" -> ip ∈ CRITICAL_IPS -> ip <> js "::1" ->
  exists e, e ∈ (provider_blockIp ip h).1 /\ cuts_off ip e.
Proof.
  intros Hb Hip Hne. assert (validateRequest gateway "sentinel" (ipCommand "BLOCK_IP" ip) = false) as Hv.
  { apply not_true_is_false. intros Hv.
    destruct (block_spares_critical gateway "sentinel" "BLOCK_IP" (ipCommand "BLOCK_IP" ip)) as (ip' & E & _ & Hn & _);
      [simpl; tauto|done|reflexivity|]. by injection E as <-. }
  destruct (orElse_refused _ (js "ufw") [js "deny"; js "from"; ip] h Hv) as [fx E]. unfold provider_blockIp. rewrite E. cbn [fst].
  destruct (ufw_spawned [js "deny"; js "from"; ip] Hb) as [Hsp [_ Hs]].
  assert (is_Some (spawned basename JSON_parse root (js "ufw") [js "deny"; js "from"; ip])) as [[program argv] Es].
  { apply Hs. unfold CRITICAL_IPS in Hip. repeat (apply elem_of_cons in Hip as [->|Hip]; [vm_compute; reflexivity || done|]).
    by apply not_elem_of_nil in Hip. }
  rewrite Es in Hsp. exists (ESpawn program argv). split; [|exact Hsp]. apply elem_of_app. right. by apply execute_started.
Qed.

(** An IPv6 address is not an argument that ufw's policy accepts. *)
Lemma ipv6_refused ip h : basename (js "ufw") = js "ufw" -> (forall h, running h = false) -> 58 ∈ ip ->
  provider_blockIp ip h = ([], Resolved failed).
Proof.
  intros Hb Hr Hc. unfold provider_blockIp. rewrite orElse_absent by done. unfold execute.
  destruct (spawned _ _ _ _ _) as [[program argv]|] eqn:E; [|done].
  destruct (ufw_spawned [js "deny"; js "from"; ip] Hb) as [_ [Hs _]]. specialize (Hs (mk_is_Some _ _ E)). cbn [forallb] in Hs.
  rewrite !andb_true_iff in Hs. destruct Hs as [[(_ & _ & Hs & _) _] _].
  apply matches_lang, lang_plus_cls in Hs as [_ Hs]. rewrite Forall_forall in Hs. by apply Hs in Hc.
Qed.

Lemma flush_refused h : basename (js "ufw") = js "ufw" -> (forall h, running h = false) ->
  provider_flushRules h = ([], Resolved failed).
Proof.
  intros Hb Hr. unfold provider_flushRules. rewrite orElse_absent by done. unfold execute.
  destruct (spawned _ _ _ _ _) as [[program argv]|] eqn:E; [|done].
  destruct (ufw_spawned [js "--force"; js "reset"] Hb) as [_ [Hs _]]. specialize (Hs (mk_is_Some _ _ E)). by vm_compute in Hs.
Qed.

(** Without the sentinel the rollback of the connectivity guard rolls nothing
    back: when the check after a change fails, the list of blocked addresses
    is emptied, but ufw's policy refuses [--force reset], so every rule
    stays, and so does every record that the next start enforces again. *)
Theorem rollback_keeps_rules s i now h res :
  basename (js "ufw") = js "ufw" -> (forall h, running h = false) -> pending s !! i = Some SCheck ->
  answer h (EPing checkInIp) = Resolved res -> succeeded res = false ->
  let '(s', fx) := step s (IResume i true now) h in
  fx = [EPing checkInIp; EResync] /\ blockedIps s' = [] /\ store s' = store s /\ connectivityCheckInProgress s' = false.
Proof.
  intros Hb Hr Hi Ha Hs. cbn [step]. rewrite Hi. cbn [resume]. unfold verifyEnd. rewrite Ha, Hs. unfold flushRules.
  by rewrite flush_refused.
Qed.
(** ** Records and restarts *)

Lemma listing_elem m ip : ip ∈ listing m <-> ip ∈ JsMap.keys m.
Proof. unfold listing, JsMap.keys. by rewrite <- (stable_sort_perm Canonical.key_lt m) at 2. Qed.

(** The address is cut off by the effects: the sentinel accepted the block, or
    ufw was started with the deny rule. *)
Definition enforced (ip : jsstr) (fx : list effect) : Prop :=
  (exists h res, ESentinel (ipCommand "BLOCK_IP" ip) ∈ fx /\
     answer h (ESentinel (ipCommand "BLOCK_IP" ip)) = Resolved res /\ succeeded res = true) \/
  (exists program argv, ESpawn program argv ∈ fx /\ cuts_off ip (ESpawn program argv)).

Lemma enforced_cuts ip fx : enforced ip fx -> exists e, e ∈ fx /\ cuts_off ip e.
Proof. intros [(h & res & Hin & _)|(p & a & Hin & Hc)]; [by exists (ESentinel (ipCommand "BLOCK_IP" ip))|eauto]. Qed.

Lemma enforced_mono ip fx fx' : fx ⊆ fx' -> enforced ip fx -> enforced ip fx'.
Proof using Type. intros Hs [(h & res & Hin & ?)|(p & a & Hin & ?)]; [left; exists h, res|right; exists p, a]; (split; [by apply Hs|done]). Qed.

Lemma send_resolves request h : exists fx res, sendCommand request h = (fx, Resolved res).
Proof. unfold sendCommand, bind, observe, attempt, ask, ret. destruct (closed _ && _); [|eauto]. destruct (answer _ _); eauto. Qed.

Lemma ufw_denies ip h : basename (js "ufw") = js "ufw" -> ufw_arg ip = true ->
  enforced ip (execute (js "ufw") [js "deny"; js "from"; ip] h).1.
Proof.
  intros Hb Hip. right. destruct (ufw_spawned [js "deny"; js "from"; ip] Hb) as [Hsp [_ Hs]].
  destruct Hs as [[program argv] Es]; [cbn [forallb]; by rewrite Hip|]. rewrite Es in Hsp.
  exists program, argv. split; [by apply execute_started|exact Hsp].
Qed.

(** A block of an address in ufw's alphabet, as every IPv4 address is, is
    enforced one way or the other. *)
Lemma block_enforces ip h : basename (js "ufw") = js "ufw" -> ufw_arg ip = true -> enforced ip (provider_blockIp ip h).1.
Proof.
  intros Hb Hip. unfold provider_blockIp, orElse. destruct (active_resolves h) as (fx & b & E & _).
  unfold bind at 1. rewrite E. set (send := if b then _ else _).
  assert (exists fx2 res, send (h ++ fx) = (fx2, Resolved res) /\ (succeeded res = true -> enforced ip fx2)) as (fx2 & res & E2 & Hr).
  { subst send. destruct b; [|by exists [], failed]. destruct (send_resolves (ipCommand "BLOCK_IP" ip) (h ++ fx)) as (fx2 & res & E2).
    exists fx2, res. split; [done|]. intros Hs. destruct (send_success _ _ _ _ E2 Hs) as [-> Ha]. left. exists (h ++ fx), res. split_and!; [set_solver|done..]. }
  unfold bind at 1. rewrite E2. destruct (succeeded res).
  - unfold ret. cbn [fst]. eapply enforced_mono; [|by apply Hr]. set_solver.
  - pose proof (ufw_denies ip ((h ++ fx) ++ fx2) Hb Hip) as He. destruct (execute _ _ _) as [fx3 r]. cbn [fst] in *.
    eapply enforced_mono; [|exact He]. set_solver.
Qed.

(** Without the sentinel a shadow ban is a block. *)
Lemma shadow_enforces ip h : basename (js "ufw") = js "ufw" -> (forall h, running h = false) -> ufw_arg ip = true ->
  enforced ip (provider_shadowBanIp ip h).1.
Proof.
  intros Hb Hr Hip. pose proof (block_enforces ip h Hb Hip) as He.
  unfold provider_shadowBanIp, isSentinelActive, isSentinelAvailable, bind, observe, ret.
  change (isAllowedSidecar "sentinel") with true. cbv beta iota. rewrite Hr. cbn [succeeded failed app]. rewrite !app_nil_r.
  by destruct (provider_blockIp ip h).
Qed.

Lemma others_spared x y : x <> y -> within (fun e => ~ cuts_off x e) (provider_blockIp y).
Proof.
  intros Hne. apply within_bind; [|intros b; apply within_bind; [|intros res; apply within_if; intros _; [apply within_ret|]]].
  - intros h. destruct (active_resolves h) as (fx & b & -> & Hf). cbn [fst]. eapply Forall_impl; [exact Hf|]. by intros e ->.
  - destruct b; [|apply within_ret]. apply within_send. intros _ [=]. congruence.
  - apply within_execute. intros program argv (_ & _ & Hs)%spawned_valid [_ [pre E]].
    assert (exists pre, argv = pre ++ [js "deny"; js "from"; y]) as [pre' E'].
    { destruct Hs as [[_ ->]|[_ ->]]; [by exists []|by exists [js "-n"; js "ufw"]]. }
    rewrite E' in E. rewrite !(app_assoc _ [js "deny"; js "from"] [_] : _ ++ [js "deny"; js "from"; _] = _) in E.
    apply app_inj_tail in E as [_ E]. congruence.
Qed.

Lemma blockAll_cons ip ips h : exists h', (blockAll (ip :: ips) h).1 = (provider_blockIp ip h).1 ++ (blockAll ips h').1.
Proof.
  cbn [blockAll]. unfold bind, attempt. destruct (provider_blockIp ip h) as [fx [res|]]; exists (h ++ fx);
    by destruct (blockAll ips (h ++ fx)).
Qed.

Lemma blockAll_spares x ips : x ∉ ips -> within (fun e => ~ cuts_off x e) (blockAll ips).
Proof.
  intros Hx h. revert h. induction ips as [|y ips IH]; intros h; [constructor|]. destruct (blockAll_cons y ips h) as [h' ->].
  apply Forall_app. split; [apply others_spared; set_solver|apply IH; set_solver].
Qed.

Lemma blockAll_enforces ip ips h : basename (js "ufw") = js "ufw" -> ufw_arg ip = true -> ip ∈ ips -> enforced ip (blockAll ips h).1.
Proof.
  intros Hb Hip Hin. revert h. induction ips as [|y ips IH]; intros h; [set_solver|]. destruct (blockAll_cons y ips h) as [h' ->].
  apply elem_of_cons in Hin as [->|Hin].
  - eapply enforced_mono; [|by apply (block_enforces y h)]. set_solver.
  - eapply enforced_mono; [|by apply (IH Hin h')]. set_solver.
Qed.

(** What a new process does to the system when it finds the store. *)
Definition restart (s : Manager) (h : list effect) : list effect := (setKv (boot (store s)) h).2.

Lemma restart_spares s h x : ~ (isValidIP x = true /\ x ∈ JsMap.keys (store s)) -> Forall (fun e => ~ cuts_off x e) (restart s h).
Proof.
  intros Hx. apply blockAll_spares. cbn [boot store]. intros [Hin Hv]%list_elem_of_In%filter_In. apply Hx. split; [done|].
  by apply listing_elem, list_elem_of_In.
Qed.

Lemma restart_exact s h x : basename (js "ufw") = js "ufw" -> ufw_arg x = true ->
  enforced x (restart s h) <-> isValidIP x = true /\ x ∈ JsMap.keys (store s).
Proof.
  intros Hb Hx. split.
  - intros (e & Hin & Hc)%enforced_cuts. destruct (decide (isValidIP x = true /\ x ∈ JsMap.keys (store s))) as [|Hn]; [done|].
    pose proof (restart_spares s h x Hn) as Hf. rewrite Forall_forall in Hf. by destruct (Hf e).
  - intros [Hv Hk]. apply blockAll_enforces; [done..|]. apply list_elem_of_In, filter_In. split; [|done].
    by apply list_elem_of_In, listing_elem.
Qed.

Lemma last_pending {A} (l : list A) x : (l ++ [x]) !! length l = Some x /\ take (length l) (l ++ [x]) ++ drop (S (length l)) (l ++ [x]) = l.
Proof.
  split; [by apply list_lookup_middle|]. rewrite take_app_length. replace (S (length l)) with (length (l ++ [x])) by (rewrite length_app; simpl; lia).
  by rewrite drop_all, app_nil_r.
Qed.

Lemma keys_get (m : list (jsstr * Enforcement)) x : x ∈ JsMap.keys m <-> is_Some (JsMap.get m x).
Proof. rewrite <- not_eq_None_Some, JsMap.get_None. destruct (decide (x ∈ JsMap.keys m)); tauto. Qed.

(** The complete run of a block. *)
Lemma block_run s ip t t' h : kv s = true -> isValidIP ip = true -> let n := length (pending s) in
  exists h' e, let s1 := mkManager (set_add ip (blockedIps s)) true (JsMap.set (store s) ip e) (connectivityCheckInProgress s) (pending s) in
  run s [IBlock ip; IResume n true t; IResume n true t'] h =
    ((afterChange s1 (provider_blockIp ip h')).1, [ELogNetwork ip; EBroadcastBlock ip] ++ (provider_blockIp ip h').1).
Proof.
  intros Hk Hv n. subst n. cbn [run step]. unfold blockIp. rewrite Hv. cbn [fst snd pending with_pending with_blocked].
  destruct (last_pending (pending s) (SBlockLogged ip)) as [-> ->]. cbn [resume kv with_pending with_blocked]. rewrite Hk.
  cbn [pending with_pending with_blocked]. set (e := mkEnforcement _ _).
  destruct (last_pending (pending s) (SBlockStored ip e)) as [-> ->]. cbn [resume]. set (h' := _ ++ [EBroadcastBlock ip]).
  exists h', e. unfold with_store, with_pending, with_blocked. cbn [blockedIps kv store connectivityCheckInProgress pending]. rewrite Hk.
  unfold afterChange. cbn [fst snd app]. by rewrite app_nil_r.
Qed.

(** The complete run of a shadow ban. *)
Lemma shadow_run s ip t h : isValidIP ip = true -> let n := length (pending s) in
  exists h', (provider_shadowBanIp ip h').1 ⊆ (run s [IShadow ip; IResume n true t] h).2.
Proof.
  intros Hv n. subst n. cbn [run step]. unfold shadowBanIp. rewrite Hv. cbn [fst snd pending with_pending].
  destruct (last_pending (pending s) (SShadowLogged ip)) as [-> ->]. cbn [resume afterChange fst snd].
  exists ((h ++ [ELogNetwork ip]) ++ [EBroadcastBlock ip]). set_solver.
Qed.

Lemma afterChange_kept s r : let s' := (afterChange s r).1 in blockedIps s' = blockedIps s /\ kv s' = kv s /\ store s' = store s.
Proof.
  unfold afterChange. cbn [fst]. destruct r.2 as [res|]; [|done]. destruct (succeeded res); [|done].
  unfold verifyStart. by destruct (connectivityCheckInProgress s), isPilot.
Qed.

Lemma unblock_store s ip t h : kv s = true -> isValidIP ip = true -> let n := length (pending s) in
  store (run s [IUnblock ip; IResume n true t] h).1 = JsMap.delete (store s) ip.
Proof.
  intros Hk Hv n. subst n. cbn [run step]. unfold unblockIp. rewrite Hv. cbn [kv with_blocked]. rewrite Hk. cbn [pending with_pending with_blocked].
  by destruct (last_pending (pending s) (SUnblockStored ip)) as [-> ->].
Qed.

(** C15: a block survives a restart until it is lifted.  After a completed block
    a new process on the same store cuts the address off again: the sentinel
    accepts the block or ufw is started with the deny rule.  After the unblock
    nothing that a new process does cuts it off.  Every other address is cut
    off by the restart exactly when it was before.  The addresses are those
    in the alphabet of ufw's policy, IPv4 among them. *)
Theorem enforcement_survives_restart s ip t t' t'' h h' :
  basename (js "ufw") = js "ufw" -> kv s = true -> isValidIP ip = true -> ufw_arg ip = true ->
  let n := length (pending s) in
  let blocked := (run s [IBlock ip; IResume n true t; IResume n true t'] h).1 in
  let lifted := (run blocked [IUnblock ip; IResume (length (pending blocked)) true t''] h).1 in
  enforced ip (restart blocked h') /\
  Forall (fun e => ~ cuts_off ip e) (restart lifted h') /\
  forall x, x <> ip -> ufw_arg x = true ->
    (enforced x (restart blocked h') <-> enforced x (restart s h')) /\ (enforced x (restart lifted h') <-> enforced x (restart s h')).
Proof.
  intros Hb Hk Hv Ha n blocked lifted. destruct (block_run s ip t t' h Hk Hv) as (h1 & e & E). fold n in E.
  assert (kv blocked = true /\ store blocked = JsMap.set (store s) ip e) as [Hk' Es].
  { subst blocked. rewrite E. cbn [fst]. match goal with |- context [afterChange ?a ?b] => by destruct (afterChange_kept a b) as (_ & -> & ->) end. }
  pose proof (unblock_store blocked ip t'' h Hk' Hv : store lifted = _) as El.
  split_and!.
  - apply restart_exact; [done..|]. split; [done|]. by rewrite keys_get, Es, JsMap.get_set_eq.
  - apply restart_spares. rewrite keys_get, El, JsMap.get_delete_eq. by intros [_ [? ?]].
  - intros x Hx Hax. rewrite !restart_exact, !keys_get, El, JsMap.get_delete_ne, Es, JsMap.get_set_ne by done. done.
Qed.

(** Without the sentinel an IPv6 address is recorded as blocked and never cut
    off: the manager lists it and the store keeps it, but no process is
    started, because ufw's policy has no colon. *)
Theorem ipv6_never_cut_off s ip t t' h :
  basename (js "ufw") = js "ufw" -> (forall h, running h = false) -> isValidIP ip = true -> 58 ∈ ip -> kv s = true ->
  let n := length (pending s) in
  let '(s', fx) := run s [IBlock ip; IResume n true t; IResume n true t'] h in
  ip ∈ blockedIps s' /\ ip ∈ JsMap.keys (store s') /\ fx = [ELogNetwork ip; EBroadcastBlock ip].
Proof.
  intros Hb Hr Hv Hc Hk n. destruct (block_run s ip t t' h Hk Hv) as (h1 & e & E). fold n in E. rewrite E, ipv6_refused by done.
  cbn [afterChange fst snd failed succeeded app]. split_and!; [apply set_add_elem; by left| |done].
  rewrite keys_get. cbn [store]. by rewrite JsMap.get_set_eq.
Qed.

(** ** The ledger for the console *)

(** Every address that is blocked in memory or on record is listed, once. *)
Theorem ledger_exact s : NoDup (getEnforcementLedger s).*1 /\
  forall ip, ip ∈ (getEnforcementLedger s).*1 <->
    ip ∈ blockedIps s \/ kv s = true /\ isValidIP ip = true /\ ip ∈ JsMap.keys (store s).
Proof.
  set (records := if kv s then List.filter (fun e => isValidIP e.1) (stable_sort Canonical.key_lt (store s)) else []).
  assert ((getEnforcementLedger s).*1 ≡ₚ uniq (blockedIps s ++ map fst records)) as Hp.
  { unfold getEnforcementLedger. rewrite stable_sort_perm, <- list_fmap_compose. rewrite (list_fmap_ext _ id) by done. by rewrite list_fmap_id. }
  rewrite Hp. split; [apply uniq_NoDup|]. intros ip. rewrite Hp, uniq_elem, elem_of_app.
  apply or_iff_compat_l. subst records. destruct (kv s); [|set_solver]. unfold JsMap.keys. rewrite !list_elem_of_fmap. split.
  - intros ([x e] & -> & [Hin Hv]%list_elem_of_In%filter_In). apply list_elem_of_In in Hin. rewrite stable_sort_elem in Hin.
    split_and!; [done|done|]. by exists (x, e).
  - intros (_ & Hv & [x e] & -> & Hin). exists (x, e). split; [done|]. apply list_elem_of_In, filter_In. split; [|done].
    by apply list_elem_of_In, stable_sort_elem.
Qed.
End firewall.
End Firewall.
