(* ===== verification/Playbook.v ===== *)
(** * Playbooks and automatic blocking

    Models [src/orchestrator/domain/orchestration/playbook_service.ts]
    ([PlaybookService]: the handlers of the events, the threat scores of the
    nodes and the manual playbooks) and
    [src/orchestrator/domain/protection/auto_block_service.ts]
    ([AutoBlockService]), and puts the second in front of the [Firewall].  A
    field of a payload is what the code reads of it: absent or not a string is
    [None], the empty string where only truthiness matters.  The threat scores
    are touched by one synchronous call per handler, so a handler is one step;
    what the ports answer is a parameter. *)

From S2P Require Import Prelude Result Effects JsMap JsString Collections Policy Net Paths Schemas Response Firewall.
From Stdlib Require Import QArith.

Local Open Scope Z_scope.

Module Playbook.
Import JsString Net Effects.

(** ** The events *)

Record HoneypotPayload := mkHoneypot { hp_type : option jsstr; source_ip : option jsstr; hp_ip : option jsstr }.
Record EbpfPayload := mkEbpf {
  comm : jsstr; syscall : jsstr; eb_ip : option jsstr; eb_pid : option Z; anomalyScore : Q; intent : option jsstr }.
Record ThreatPayload := mkThreat { nodeId : option jsstr; severity : option jsstr; th_path : jsstr }.

Inductive Event :=
| HONEYPOT (p : HoneypotPayload)
| DRIFT_PROCESS (path action : jsstr)
| EBPF_CRITICAL (p : EbpfPayload)
| THREAT (p : ThreatPayload)
| ARTIFACT_FOUND (indicator : jsstr) (path : option jsstr)
| ES_EXEC (path : jsstr)
| ETW_PROCESS (command_line : jsstr)
| EXFIL_ALERT (pid : option Z).

(** What the handlers ask of the other services. *)
Inductive effect :=
| PBlockIp (ip : jsstr)
| PEnforcePid (pid : Z)
| PQuarantineProcess (pid : Z)
| PKillProcess (pid : option Z)
| PLockdown
| PIsolateNode (node : jsstr)
| PCapture (filter : jsstr)
| PQuarantineFile (path : jsstr)
| PShadowProtocol
| PNotify.

Notation act := (Effects.act effect).

(** The ports the service locator has. *)
Record Ports := mkPorts { pcap : bool; firewall : bool; antivirus : bool; notifications : bool; mesh : bool; shadowProtocol : bool }.

Definition truthy (s : jsstr) : bool := negb (bool_decide (s = [])).
Definition nonempty (o : option jsstr) : option jsstr := match o with Some (c :: s) => Some (c :: s) | _ => None end.

Section playbook.
Local Open Scope act_scope.

Context (gateway : option jsstr) (ports : Ports) (answer : list effect -> effect -> settled bool unit).

Definition call (present : bool) (e : effect) : act bool := if present then ask answer e else ret true.

(** ** PlaybookService *)

Definition Scores : Type := list (jsstr * Z).
Definition ISOLATION_THRESHOLD : Z := 5.

Definition updateThreatScore (s : Scores) (node : jsstr) (inc : Z) : Scores * list effect :=
  let score := default 0 (JsMap.get s node) + inc in
  let s := JsMap.set s node score in
  if ISOLATION_THRESHOLD <=? score then (JsMap.set s node 0, if mesh ports then [PIsolateNode node] else []) else (s, []).

Definition onHoneypot (s : Scores) (p : HoneypotPayload) (h : list effect) : Scores * list effect :=
  if bool_decide (hp_type p = Some (js "PortAccess")) then
    match nonempty (source_ip p) with
    | Some ip =>
        if negb (isValidIP ip) || isCriticalInfrastructure gateway ip then (s, [])
        else
          let '(s, fx) := updateThreatScore s (js "local") 1 in
          let rest : act bool :=
            let! _ := attempt (call (pcap ports) (PCapture ip)) true in
            attempt (let! _ := call (firewall ports) (PBlockIp ip) in call (notifications ports) PNotify) true in
          (s, fx ++ (rest (h ++ fx)).1)
    | None => (s, [])
    end
  else (s, []).

(** A failed notification ends the handler before the score. *)
Definition onDrift (s : Scores) (path action : jsstr) (h : list effect) : Scores * list effect :=
  if truthy path && truthy action then
    match call (notifications ports) PNotify h with
    | (fx, Resolved _) => let '(s, fx') := updateThreatScore s (js "local") 2 in (s, fx ++ fx')
    | (fx, Rejected _) => (s, fx)
    end
  else (s, []).

Definition onEbpf (s : Scores) (p : EbpfPayload) (h : list effect) : Scores * list effect :=
  if truthy (comm p) && truthy (syscall p) && bool_decide (syscall p = js "ptrace") then
    let quarantine : act bool :=
      attempt
        (let! _ := call (firewall ports) (PKillProcess (eb_pid p)) in
         let! _ := call (shadowProtocol ports) PShadowProtocol in
         call (notifications ports) PNotify) true in
    let fx := (quarantine h).1 in
    let '(s, fx') := updateThreatScore s (js "local") 3 in (s, fx ++ fx')
  else (s, []).

Definition onThreat (s : Scores) (p : ThreatPayload) : Scores * list effect :=
  if bool_decide (severity p = Some (js "HIGH")) || bool_decide (severity p = Some (js "CRITICAL")) || truthy (th_path p)
  then updateThreatScore s (default (js "local") (nodeId p)) 1 else (s, []).

Definition executeArtifactContainment (path : option jsstr) : act bool :=
  let! _ := (match path with Some p => call (antivirus ports) (PQuarantineFile p) | None => ret true end) in
  let! _ := call (mesh ports) (PIsolateNode (js "local")) in
  let! _ := attempt (call (pcap ports) (PCapture [])) true in
  call (notifications ports) PNotify.

Definition onEvent (s : Scores) (e : Event) (h : list effect) : Scores * list effect :=
  match e with
  | HONEYPOT p => onHoneypot s p h
  | DRIFT_PROCESS path action => onDrift s path action h
  | EBPF_CRITICAL p => onEbpf s p h
  | THREAT p => onThreat s p
  | ARTIFACT_FOUND indicator path => if truthy indicator then (s, (executeArtifactContainment path h).1) else (s, [])
  | ES_EXEC path =>
      if truthy path && (includes path (js "curl") || includes path (js "wget")) then updateThreatScore s (js "local") 1 else (s, [])
  | ETW_PROCESS line =>
      if truthy line && includes line (js "powershell -enc") then updateThreatScore s (js "local") 2 else (s, [])
  | EXFIL_ALERT _ => (s, [])
  end.

Definition runPlaybook (name : jsstr) : act bool :=
  if bool_decide (name = js "Emergency Isolation") then
    let! _ := call (mesh ports) (PIsolateNode (js "local")) in call (notifications ports) PNotify
  else if bool_decide (name = js "Force Lockdown") then call (firewall ports) PLockdown
  else ret false.

Fixpoint run (s : Scores) (es : list Event) (h : list effect) : Scores * list effect :=
  match es with
  | [] => (s, [])
  | e :: es => let '(s, fx) := onEvent s e h in let '(s, fx') := run s es (h ++ fx) in (s, fx ++ fx')
  end.

(** ** AutoBlockService *)

Definition executeBlock (ip : jsstr) : act bool := attempt (ask answer (PBlockIp ip)) false.

Definition executeIsolation (pid : Z) : act bool :=
  attempt (let! b := ask answer (PEnforcePid pid) in if b then ret true else ask answer (PQuarantineProcess pid)) false.

(** [typeof x === "number"] and truthy. *)
Definition livePid (pid : option Z) : option Z := match pid with Some 0 => None | _ => pid end.

(** The double nearest to 0.8. *)
Definition anomalyLimit : Q := 3602879701896397 # 4503599627370496.

(** The address of a trigger: [source_ip] if it is a string, else [ip]. *)
Definition triggerIp (p : HoneypotPayload) : option jsstr :=
  nonempty (match source_ip p with Some s => Some s | None => hp_ip p end).

Definition autoBlock (e : Event) : act bool :=
  match e with
  | HONEYPOT p => match triggerIp p with Some ip => executeBlock ip | None => ret true end
  | EBPF_CRITICAL p =>
      let! _ := (match nonempty (eb_ip p) with Some ip => executeBlock ip | None => ret true end) in
      match livePid (eb_pid p) with
      | Some pid =>
          if negb (Qle_bool (anomalyScore p) anomalyLimit) || bool_decide (is_Some (nonempty (intent p))) then executeIsolation pid else ret true
      | None => ret true
      end
  | EXFIL_ALERT pid => match livePid pid with Some pid => executeIsolation pid | None => ret true end
  | _ => ret true
  end.

(** ** What the playbooks block *)

Definition spares (e : effect) : Prop :=
  match e with PBlockIp ip => isValidIP ip = true /\ isCriticalInfrastructure gateway ip = false | _ => True end.

Lemma within_call P present e : P e -> within P (call present e).
Proof. intros He. apply within_if; intros _; [by apply within_ask|apply within_ret]. Qed.

Lemma update_spares s node inc : Forall spares (updateThreatScore s node inc).2.
Proof. unfold updateThreatScore. destruct (_ <=? _); [|constructor]. destruct (mesh ports); by repeat constructor. Qed.

Lemma onEvent_spares s e h : Forall spares (onEvent s e h).2.
Proof.
  pose proof (update_spares s) as Hu. destruct e as [p|path action|p|p|indicator path|path|line|pid]; cbn [onEvent].
  - unfold onHoneypot. case_bool_decide; [|constructor]. destruct (nonempty _) as [ip|]; [|constructor].
    destruct (negb (isValidIP ip) || isCriticalInfrastructure gateway ip) eqn:E; [constructor|]. specialize (Hu (js "local") 1).
    destruct (updateThreatScore s _ _) as [s' fx]. apply Forall_app. split; [done|]. apply orb_false_iff in E as [E1 E2].
    apply within_bind; [by apply within_attempt, within_call|]. intros _. apply within_attempt, within_bind; [|intros _; by apply within_call].
    apply within_call. split; [by destruct (isValidIP ip)|done].
  - unfold onDrift. destruct (_ && _); [|constructor]. pose proof (within_call spares (notifications ports) PNotify I h) as Hn.
    destruct (call _ _ h) as [fx [b|]]; [|done]. specialize (Hu (js "local") 2). destruct (updateThreatScore s _ _). by apply Forall_app.
  - unfold onEbpf. destruct (_ && _); [|constructor]. set (q := attempt _ _). assert (within spares q) as Hq.
    { apply within_attempt, within_bind; [by apply within_call|]. intros _. apply within_bind; [by apply within_call|]. intros _. by apply within_call. }
    specialize (Hu (js "local") 3). destruct (updateThreatScore s _ _). apply Forall_app. split; [apply Hq|done].
  - unfold onThreat. destruct (_ || _); [apply Hu|constructor].
  - destruct (truthy indicator); [|constructor].
    apply within_bind; [destruct path; [by apply within_call|apply within_ret]|]. intros _.
    apply within_bind; [by apply within_call|]. intros _. apply within_bind; [by apply within_attempt, within_call|]. intros _. by apply within_call.
  - destruct (_ && _); [apply Hu|constructor].
  - destruct (_ && _); [apply Hu|constructor].
  - constructor.
Qed.

(** ** Threat scores *)

Definition scores_ok (s : Scores) : Prop := forall node v, JsMap.get s node = Some v -> 0 <= v < ISOLATION_THRESHOLD.

Lemma update_get s node inc : let '(s', fx) := updateThreatScore s node inc in
  forall n, JsMap.get s' n =
    if decide (n = node) then Some (let v := default 0 (JsMap.get s node) + inc in if ISOLATION_THRESHOLD <=? v then 0 else v)
    else JsMap.get s n.
Proof.
  unfold updateThreatScore. destruct (_ <=? _); intros n; destruct (decide (n = node)) as [->|Hn];
    rewrite ?JsMap.get_set_eq, ?JsMap.get_set_ne by congruence; try done.
Qed.

Lemma update_ok s node inc : 0 <= inc -> scores_ok s -> scores_ok (updateThreatScore s node inc).1.
Proof.
  intros Hi Hs n v. pose proof (update_get s node inc) as Hg. destruct (updateThreatScore s node inc) as [s' fx]. cbn [fst].
  rewrite Hg. destruct (decide (n = node)); [|by apply Hs]. intros [= <-].
  assert (0 <= default 0 (JsMap.get s node)) by (destruct (JsMap.get s node) eqn:E; [by apply Hs in E as []|done]).
  destruct (Z.leb_spec ISOLATION_THRESHOLD (default 0 (JsMap.get s node) + inc)); unfold ISOLATION_THRESHOLD in *; lia.
Qed.

Lemma onEvent_ok s e h : scores_ok s -> scores_ok (onEvent s e h).1.
Proof.
  intros Hs. pose proof (fun n i Hi => update_ok s n i Hi Hs) as Hu. destruct e as [p|path action|p|p|indicator path|path|line|pid]; cbn [onEvent].
  - unfold onHoneypot. case_bool_decide; [|done]. destruct (nonempty _) as [ip|]; [|done]. destruct (_ || _); [done|].
    specialize (Hu (js "local") 1 ltac:(lia)). by destruct (updateThreatScore s _ _).
  - unfold onDrift. destruct (_ && _); [|done]. destruct (call _ _ h) as [fx [b|]]; [|done].
    specialize (Hu (js "local") 2 ltac:(lia)). by destruct (updateThreatScore s _ _).
  - unfold onEbpf. destruct (_ && _); [|done]. specialize (Hu (js "local") 3 ltac:(lia)). by destruct (updateThreatScore s _ _).
  - unfold onThreat. destruct (_ || _); [by apply Hu|done].
  - by destruct (truthy indicator).
  - destruct (_ && _); [by apply Hu|done].
  - destruct (_ && _); [by apply Hu|done].
  - done.
Qed.

(** Over any sequence of events the playbooks block only syntactically valid
    addresses that are not critical infrastructure, and every threat score
    stays below the isolation threshold. *)
Theorem playbooks_spare_critical es h :
  let '(s, fx) := run [] es h in scores_ok s /\ Forall spares fx.
Proof.
  assert (scores_ok []) as H0 by done. revert H0. generalize (@nil (jsstr * Z)) as s. revert h.
  induction es as [|e es IH]; intros h s Hs; cbn [run]; [by split; [|constructor]|].
  pose proof (onEvent_ok s e h Hs) as Hs'. pose proof (onEvent_spares s e h) as Hf. destruct (onEvent s e h) as [s' fx].
  specialize (IH (h ++ fx) s' Hs'). destruct (run s' es (h ++ fx)) as [s'' fx']. destruct IH. split; [done|]. by apply Forall_app.
Qed.
End playbook.
End Playbook.

(** ** Automatic blocks against the firewall *)

Module AutoBlock.
Import JsString Net Paths Schemas Executor Effects Playbook.

Section autoblock.
Context `{StdPath} `{Zod} (basename : jsstr -> jsstr) (JSON_parse : jsstr -> option Json).
Context (gateway : option jsstr) (root : bool) (ownPid : Z) (uuid dumpPath checkInIp : jsstr) (isPilot : bool).
Context (running closed : list Firewall.effect -> bool) (device : list Firewall.effect -> Firewall.effect -> settled Firewall.CommandResult unit).
Context (ports : Ports) (answer : list effect -> effect -> settled bool unit).

Notation fw_run := (Firewall.run basename JSON_parse gateway root ownPid uuid dumpPath checkInIp isPilot running closed device).

(** C38: the automatic response does cut off critical infrastructure.  A honeypot
    event that names a public resolver or the loopback address (the source of
    a datagram is forged easily) is ignored by the playbook, but the
    auto-block service hands it to the firewall, which only checks its
    syntax; the sentinel's schema refuses it, and the fallback installs the
    deny rule with ufw whatever state the sentinel is in. *)
Theorem autoblock_cuts_off_critical p ip s t t' h h' :
  basename (js "ufw") = js "ufw" -> ip ∈ CRITICAL_IPS -> ip <> js "::1" -> source_ip p = Some ip -> Firewall.kv s = true ->
  (autoBlock answer (HONEYPOT p) h).1 = [PBlockIp ip] /\
  (onHoneypot gateway ports answer [] p h).2 = [] /\
  let n := length (Firewall.pending s) in
  exists e, e ∈ (fw_run s [Firewall.IBlock ip; Firewall.IResume n true t; Firewall.IResume n true t'] h').2 /\ Firewall.cuts_off uuid ip e.
Proof.
  intros Hb Hc Hne Hp Hk. assert (isValidIP ip = true /\ exists c r, ip = c :: r) as [Hv (c & r & Er)].
  { unfold CRITICAL_IPS in Hc. repeat (apply elem_of_cons in Hc as [->|Hc]; [split; [vm_compute; reflexivity|by eexists _, _]|]).
    by apply not_elem_of_nil in Hc. }
  assert (nonempty (Some ip) = Some ip) as Hn by (by rewrite Er). split_and!.
  - cbn [autoBlock]. unfold triggerIp. rewrite Hp, Hn. unfold executeBlock, attempt, ask. by destruct (answer _ _).
  - unfold onHoneypot. case_bool_decide; [|done]. rewrite Hp, Hn. assert (isCriticalInfrastructure gateway ip = true) as ->.
    { apply critical_infrastructure_iff. by left. }
    by rewrite orb_true_r.
  - intros n. edestruct (Firewall.block_run basename JSON_parse gateway root ownPid uuid dumpPath checkInIp isPilot running closed device s ip t t' h' Hk Hv)
      as (h1 & e & E). fold n in E. rewrite E. cbn [snd].
    edestruct (Firewall.critical_cut_off basename JSON_parse gateway root uuid running closed device ip h1) as (e1 & Hin & Hcut); [done..|].
    exists e1. split; [|done]. apply elem_of_app. by right.
Qed.
End autoblock.
End AutoBlock.

(** ** Shadow mode *)

(** The response engine in front of the firewall. *)
Module ShadowMode.
Import JsString Net Paths Schemas Executor Effects PolicyDSL.

Section shadow.
Context `{StdPath} `{Zod} (basename : jsstr -> jsstr) (JSON_parse : jsstr -> option Json).
Context (gateway : option jsstr) (root : bool) (ownPid : Z) (uuid dumpPath checkInIp : jsstr) (isPilot : bool).
Context (running closed : list Firewall.effect -> bool) (device : list Firewall.effect -> Firewall.effect -> settled Firewall.CommandResult unit).
Context (answer : list Saga.effect -> Saga.effect -> settled bool unit) (processHash : list Saga.effect -> Z -> settled (option jsstr) unit).
Context (ToString : Value -> jsstr) (coerced_lt coerced_le : Value -> Value -> bool) (regexp_test : Value -> jsstr -> option bool).

Notation engine_step := (Engine.step answer processHash ToString coerced_lt coerced_le regexp_test).
Notation shadow_decision := (Engine.shadow_decision ToString coerced_lt coerced_le regexp_test).
Notation fw_run := (Firewall.run basename JSON_parse gateway root ownPid uuid dumpPath checkInIp isPilot running closed device).

(** C39: shadow mode does cut hosts off.  When the policy decides SHADOW for an
    IPv4 source, shadow mode changes nothing: the engine asks the firewall for
    a shadow ban, and without a running sentinel that is the deny rule of ufw
    for the address. *)
Theorem shadow_mode_still_blocks s i src fw t h :
  basename (js "ufw") = js "ufw" -> (forall h, running h = false) ->
  Saga.isAddress src = true -> isValidIP src = true -> Firewall.ufw_arg src = true ->
  PolicyEngine.shadowMode (Engine.policy s) = true -> shadow_decision s i src ->
  (LruSpec.get src (Engine.activeRemediations s)).2 <> Some SHADOW -> answer [] (Saga.EAudit src SHADOW) = Resolved true ->
  Saga.EShadowBan src ∈ (engine_step s i).2 /\
  Firewall.enforced uuid device src (fw_run fw [Firewall.IShadow src; Firewall.IResume (length (Firewall.pending fw)) true t] h).2.
Proof.
  intros Hb Hr Hadd Hv Hu Hs (n & e & score & d & -> & Ei & <- & Ed & Ha) Hact Haud. split.
  - cbn [Engine.step]. unfold Engine.evaluateResume. rewrite Ei. cbn [Engine.policy Engine.with_pending]. rewrite Ed, Ha, andb_false_r.
    assert (Saga.EShadowBan (Engine.source e) ∈ (Saga.execute answer processHash (Engine.source e) SHADOW).1.1) as Hban.
    { unfold Saga.execute. rewrite Haud. cbn [Saga.handle]. unfold Saga.handleShadow. rewrite Hadd. unfold Saga.call, bind, ask.
      destruct (answer _ (Saga.EShadowBan _)) as [b|]; [|cbn [fst]; set_solver]. unfold Saga.reply, ret. destruct b; cbn [fst app]; set_solver. }
    unfold Engine.executeRemediation. cbn [Engine.activeRemediations Engine.with_pending].
    destruct (LruSpec.get _ (Engine.activeRemediations s)) as [ac [t0|]]; [|exact Hban]. cbn [snd] in Hact.
    destruct (Engine.tier_eqb t0 SHADOW) eqn:Et; [|exact Hban]. by destruct t0.
  - destruct (Firewall.shadow_run basename JSON_parse gateway root ownPid uuid dumpPath checkInIp isPilot running closed device fw _ t h Hv) as [h' Hsub].
    eapply Firewall.enforced_mono; [exact Hsub|]. by apply Firewall.shadow_enforces.
Qed.
End shadow.
End ShadowMode.

Module PlaybookExamples.
Import JsString Net Paths Schemas Effects Playbook AutoBlock.

#[local] Instance plain_paths : StdPath :=
  {| normalize := fun p => p; join_path := fun a b => a ++ js "/" ++ b; resolve := fun p => p;
     dirname := fun p => p; realPathSync := fun p => Some p |}.

Definition base0 (p : jsstr) : jsstr := p.
Definition json0 (s : jsstr) : option Json := None.
Definition never (h : list Firewall.effect) : bool := false.
Definition accepts0 (h : list Firewall.effect) (e : Firewall.effect) : settled Firewall.CommandResult unit := Resolved (Firewall.mkResult true None).
Definition offline0 (h : list Firewall.effect) (e : Firewall.effect) : settled Firewall.CommandResult unit := Resolved Firewall.failed.
Definition yes0 (h : list effect) (e : effect) : settled bool unit := Resolved true.
Definition ports0 : Ports := mkPorts true true true true true true.
Definition attached0 : Firewall.Manager := Firewall.mkManager [] true [] false [].
Definition ping0 : HoneypotPayload := mkHoneypot (Some (js "PortAccess")) (Some (js "8.8.8.8")) None.

Notation fw_run0 := (Firewall.run base0 json0 None true 4242 (js "u") (js "d") (js "8.8.8.8") false never never accepts0).

Lemma autoblock_cuts_off_critical_witness :
  (autoBlock yes0 (HONEYPOT ping0) []).1 = [PBlockIp (js "8.8.8.8")] /\
  (onHoneypot None ports0 yes0 [] ping0 []).2 = [] /\
  exists e, e ∈ (fw_run0 attached0 [Firewall.IBlock (js "8.8.8.8"); Firewall.IResume 0 true 1; Firewall.IResume 0 true 2] []).2 /\
    Firewall.cuts_off (js "u") (js "8.8.8.8") e.
Proof.
  apply (autoblock_cuts_off_critical base0 json0 None true 4242 (js "u") (js "d") (js "8.8.8.8") false never never accepts0 ports0 yes0
    ping0 (js "8.8.8.8") attached0 1 2 [] []); [reflexivity| |discriminate|reflexivity|reflexivity].
  apply (bool_decide_unpack (js "8.8.8.8" ∈ CRITICAL_IPS)). vm_compute. exact I.
Defined.

(** A restart on a poisoned record, and kills of protected processes: their memory
    is dumped, but they are spared. *)
Definition poisoned0 : list (jsstr * Firewall.Enforcement) :=
  [(js "6.6.6.6", Firewall.mkEnforcement 1 1); (js "rm -rf", Firewall.mkEnforcement 1 1)].
Definition abuse0 : list Firewall.input :=
  [Firewall.ISetKv; Firewall.IKill (Some 1); Firewall.IKill (Some 4242); Firewall.IKill None; Firewall.IQuarantine (Some 77)].

Lemma abuse_run : (fw_run0 (Firewall.boot poisoned0) abuse0 []).2 =
  [Firewall.ESpawn (js "ufw") [js "deny"; js "from"; js "6.6.6.6"]; Firewall.ESpawn (js "gcore") [js "-o"; js "d"; js "1"];
   Firewall.ESpawn (js "gcore") [js "-o"; js "d"; js "4242"]; Firewall.ESpawn (js "gcore") [js "-o"; js "d"; js "NaN"];
   Firewall.ESpawn (js "kill") [js "-19"; js "77"]].
Proof. vm_compute. reflexivity. Qed.

Lemma firewall_safe_witness : JsMap.wf poisoned0 /\
  Forall (Firewall.safe 4242) (fw_run0 (Firewall.boot poisoned0) abuse0 []).2.
Proof.
  assert (JsMap.wf poisoned0) as Hw by (unfold JsMap.wf; apply (bool_decide_unpack _); vm_compute; exact I).
  split; [exact Hw|].
  pose proof (Firewall.firewall_safe base0 json0 None true 4242 (js "u") (js "d") (js "8.8.8.8") false never never accepts0 poisoned0 abuse0 [] Hw) as H.
  destruct (fw_run0 (Firewall.boot poisoned0) abuse0 []) as [s fx]. exact (proj2 H).
Defined.

Lemma block_success_enforced_witness : exists e h',
  e ∈ [Firewall.ESpawn (js "ufw") [js "deny"; js "from"; js "6.6.6.6"]] /\ Firewall.cuts_off (js "u") (js "6.6.6.6") e /\
  accepts0 h' e = Resolved (Firewall.mkResult true None).
Proof.
  apply (Firewall.block_success_enforced base0 json0 None true (js "u") never never accepts0 (js "6.6.6.6") []); reflexivity.
Defined.

Lemma rollback_keeps_rules_witness :
  let s := Firewall.mkManager [js "6.6.6.6"] true poisoned0 true [Firewall.SCheck] in
  let '(s', fx) := Firewall.step base0 json0 None true 4242 (js "u") (js "d") (js "8.8.8.8") true never never offline0 s (Firewall.IResume 0 true 5) [] in
  fx = [Firewall.EPing (js "8.8.8.8"); Firewall.EResync] /\ Firewall.blockedIps s' = [] /\ Firewall.store s' = poisoned0 /\
  Firewall.connectivityCheckInProgress s' = false.
Proof.
  apply (Firewall.rollback_keeps_rules base0 json0 None true 4242 (js "u") (js "d") (js "8.8.8.8") true never never offline0
    (Firewall.mkManager [js "6.6.6.6"] true poisoned0 true [Firewall.SCheck]) 0 5 [] Firewall.failed); reflexivity.
Defined.

Lemma enforcement_survives_restart_witness :
  let blocked := (fw_run0 attached0 [Firewall.IBlock (js "6.6.6.6"); Firewall.IResume 0 true 1; Firewall.IResume 0 true 2] []).1 in
  Firewall.enforced (js "u") accepts0 (js "6.6.6.6") (Firewall.restart base0 json0 None true (js "u") never never accepts0 blocked []).
Proof.
  exact (proj1 (Firewall.enforcement_survives_restart base0 json0 None true 4242 (js "u") (js "d") (js "8.8.8.8") false never never accepts0
    attached0 (js "6.6.6.6") 1 2 3 [] [] eq_refl eq_refl ltac:(vm_compute; reflexivity) ltac:(vm_compute; reflexivity))).
Defined.

Lemma ipv6_never_cut_off_witness :
  let '(s', fx) := fw_run0 attached0 [Firewall.IBlock (js "2001:db8::1"); Firewall.IResume 0 true 1; Firewall.IResume 0 true 2] [] in
  js "2001:db8::1" ∈ Firewall.blockedIps s' /\
  js "2001:db8::1" ∈ JsMap.keys (Firewall.store s') /\
  fx = [Firewall.ELogNetwork (js "2001:db8::1"); Firewall.EBroadcastBlock (js "2001:db8::1")].
Proof.
  apply (Firewall.ipv6_never_cut_off base0 json0 None true 4242 (js "u") (js "d") (js "8.8.8.8") false never never accepts0 attached0
    (js "2001:db8::1") 1 2 []); [reflexivity|reflexivity|vm_compute; reflexivity| |reflexivity].
  apply (bool_decide_unpack (58 ∈ js "2001:db8::1")). vm_compute. exact I.
Defined.
(** A source of score 40 in shadow mode. *)
Definition shadowed0 : Engine.Engine := Engine.evaluateStart ResponseExamples.shadow0 (ResponseExamples.flood0 40).

Lemma shadow_mode_still_blocks_witness :
  Saga.EShadowBan (js "6.6.6.6") ∈ (Engine.step ResponseExamples.yes0 ResponseExamples.hash0 ResponseExamples.text0 ResponseExamples.less0
    ResponseExamples.less0 ResponseExamples.regexp0 shadowed0 (Engine.IResume 0)).2 /\
  Firewall.enforced (js "u") accepts0 (js "6.6.6.6") (fw_run0 attached0 [Firewall.IShadow (js "6.6.6.6"); Firewall.IResume 0 true 1] []).2.
Proof.
  apply (ShadowMode.shadow_mode_still_blocks base0 json0 None true 4242 (js "u") (js "d") (js "8.8.8.8") false never never accepts0
    ResponseExamples.yes0 ResponseExamples.hash0 ResponseExamples.text0 ResponseExamples.less0 ResponseExamples.less0 ResponseExamples.regexp0
    shadowed0 (Engine.IResume 0) (js "6.6.6.6") attached0 1 []); try (vm_compute; reflexivity); [|vm_compute; discriminate].
  eexists 0%nat, _, _, _. split_and!; vm_compute; reflexivity.
Defined.
End PlaybookExamples.
