(* ===== verification/SidecarIpc.v ===== *)
(** * Talking to the sidecars

    Models the message side of
    [src/orchestrator/infrastructure/runtime/sidecar_manager.ts]
    ([startResponseReader]: the framing of what a sidecar prints;
    [handleIpcLine]: the nesting limit and the routing of a response;
    [rawSendCommand]: the queue on a sidecar's standard input, the waiters and
    the timeouts) with [ipc_coordinator.ts] (waiters and event handlers) and the
    time stamps of [heartbeat_monitor.ts].  The streaming UTF-8 decoder,
    [JSON.parse], the redaction of secrets and the shared-memory ring are
    parameters or inputs. *)

From S2P Require Import Prelude Result JsMap JsString Cidr Net Paths Schemas.

Module Ipc.
Import JsString Paths Schemas.

(** ** The nesting limit *)

Definition MAX_DEPTH : Z := 8.

Record Scan := mkScan { depth : Z; maxSeenDepth : Z; inString : bool; escaped : bool }.

(** The loop over the characters; the [continue]s come before the [break]. *)
Fixpoint scan (st : Scan) (s : jsstr) : Scan :=
  match s with
  | [] => st
  | c :: s =>
      if escaped st then scan (mkScan (depth st) (maxSeenDepth st) (inString st) false) s
      else if c =? 92 then scan (mkScan (depth st) (maxSeenDepth st) (inString st) true) s
      else if c =? 34 then scan (mkScan (depth st) (maxSeenDepth st) (negb (inString st)) false) s
      else
        let st' :=
          if inString st then st
          else if (c =? 123) || (c =? 91)
          then mkScan (depth st + 1) (Z.max (maxSeenDepth st) (depth st + 1)) (inString st) (escaped st)
          else if (c =? 125) || (c =? 93)
          then mkScan (depth st - 1) (maxSeenDepth st) (inString st) (escaped st)
          else st in
        if MAX_DEPTH <? depth st' then st' else scan st' s
  end.

Definition tooDeep (s : jsstr) : bool :=
  let st := scan (mkScan 0 0 false false) s in (MAX_DEPTH <? depth st) || (MAX_DEPTH <? maxSeenDepth st).

(** ** Framing *)

Definition MAX_BUFFER_SIZE : Z := 10 * 1024 * 1024.
Definition MAX_LINE_LENGTH : Z := 1024 * 1024.

(** One read: the number of bytes, what the decoder makes of them, and what it
    makes of them when they are truncated to the size of the buffer. *)
Record Chunk := mkChunk { bytes : Z; decoded : jsstr; decodedSafe : jsstr }.

Definition overflows (buffer : jsstr) (c : Chunk) : bool := MAX_BUFFER_SIZE <? Z.of_nat (length buffer) + bytes c.

(** The complete lines, and the rest that stays in the buffer. *)
Definition readChunk (buffer : jsstr) (c : Chunk) : list jsstr * jsstr :=
  let buffer := if overflows buffer c then decodedSafe c else buffer ++ decoded c in
  let lines := split buffer [10] in (removelast lines, List.last lines []).

Fixpoint readAll (buffer : jsstr) (cs : list Chunk) : list jsstr * jsstr :=
  match cs with
  | [] => ([], buffer)
  | c :: cs => let '(ls, buffer) := readChunk buffer c in let '(ls', buffer) := readAll buffer cs in (ls ++ ls', buffer)
  end.

(** ** Commands *)

Inductive Outcome :=
| Answered (data : Json)
| TimedOut
| Broken.                                          (* the pipe threw *)

(** [Writing] is the wait for the pipe to take the request, [Sent] the race
    between the response and the timer. *)
Inductive Phase := Queued | Writing | Sent | Done (o : Outcome).

(** What happens when the lock is granted: an exception, the shared memory
    takes the request at once, or it is given to the pipe. *)
Inductive Grant := Threw | Shared | Piped.

Record Command := mkCommand {
  c_name : string; c_id : jsstr; c_request : Json;
  prevLock : option nat;                           (* the command whose lock this one awaits *)
  response : option Json;                          (* the waiter was resolved *)
  timedOut : bool;                                 (* the timer fired *)
  phase : Phase;
}.

Record Coordinator := mkCoordinator {
  commands : list Command;
  stdinLocks : list (string * nat);                (* the last command of each sidecar *)
  responseWaiters : list ((string * jsstr) * nat);
  eventHandlers : list (string * list nat);
  lastHeartbeat : list (string * Z);
  buffers : list (string * jsstr);
}.

Definition with_commands (cs : list Command) (s : Coordinator) : Coordinator :=
  mkCoordinator cs (stdinLocks s) (responseWaiters s) (eventHandlers s) (lastHeartbeat s) (buffers s).
Definition with_waiters (ws : list ((string * jsstr) * nat)) (s : Coordinator) : Coordinator :=
  mkCoordinator (commands s) (stdinLocks s) ws (eventHandlers s) (lastHeartbeat s) (buffers s).
Definition with_heartbeats (hs : list (string * Z)) (s : Coordinator) : Coordinator :=
  mkCoordinator (commands s) (stdinLocks s) (responseWaiters s) (eventHandlers s) hs (buffers s).
Definition with_buffers (bs : list (string * jsstr)) (s : Coordinator) : Coordinator :=
  mkCoordinator (commands s) (stdinLocks s) (responseWaiters s) (eventHandlers s) (lastHeartbeat s) bs.

Inductive effect :=
| EWrite (i : nat)                                 (* the request of command [i] goes to the sidecar *)
| EHandle (handler : nat) (data : Json)
| ELog (name : string) (message : jsstr)           (* a log line of the sidecar *)
| EHang (name : string).                           (* no heartbeat for thirty seconds *)

Definition new : Coordinator := mkCoordinator [] [] [] [] [] [].

Section ipc.
Context `{StdPath} `{Zod} (gateway : option jsstr).
Context (JSON_parse : jsstr -> option Json) (redact : jsstr -> jsstr).
(** [String(data.message || "")] of a log line. *)
Context (logMessage : Json -> jsstr).

Definition recordHeartbeat (name : string) (now : Z) (s : Coordinator) : Coordinator :=
  with_heartbeats (JsMap.set (lastHeartbeat s) name now) s.

Definition onEvent (name : string) (handler : nat) (s : Coordinator) : Coordinator :=
  mkCoordinator (commands s) (stdinLocks s) (responseWaiters s)
    (JsMap.set (eventHandlers s) name (default [] (JsMap.get (eventHandlers s) name) ++ [handler])) (lastHeartbeat s) (buffers s).

Definition emitEvent (name : string) (data : Json) (s : Coordinator) : list effect :=
  map (fun handler => EHandle handler data) (default [] (JsMap.get (eventHandlers s) name)).

Definition update (i : nat) (f : Command -> Command) (s : Coordinator) : Coordinator :=
  match commands s !! i with Some c => with_commands (<[i := f c]> (commands s)) s | None => s end.

Definition removeWaiter (name : string) (id : jsstr) (s : Coordinator) : Coordinator :=
  with_waiters (JsMap.delete (responseWaiters s) (name, id)) s.

(** The [finally] of [rawSendCommand]: the timer is cleared with the phase. *)
Definition finish (i : nat) (o : Outcome) (s : Coordinator) : Coordinator :=
  match commands s !! i with
  | Some c =>
      removeWaiter (c_name c) (c_id c)
        (with_commands (<[i := mkCommand (c_name c) (c_id c) (c_request c) (prevLock c) (response c) (timedOut c) (Done o)]> (commands s)) s)
  | None => s
  end.

(** [rawSendCommand] of a running sidecar up to the wait for the lock. *)
Definition send (name : string) (id : jsstr) (request : Json) (now : Z) (s : Coordinator) : Coordinator :=
  let s := recordHeartbeat name now s in
  if validateRequest gateway name request then
    let i := length (commands s) in
    mkCoordinator (commands s ++ [mkCommand name id request (JsMap.get (stdinLocks s) name) None false Queued])
      (JsMap.set (stdinLocks s) name i) (JsMap.set (responseWaiters s) (name, id) i)
      (eventHandlers s) (lastHeartbeat s) (buffers s)
  else s.

Definition released (s : Coordinator) (lock : option nat) : bool :=
  match lock with
  | None => true
  | Some j => match commands s !! j with Some (mkCommand _ _ _ _ _ _ (Done _)) => true | _ => false end
  end.

Definition with_phase (p : Phase) (c : Command) : Command :=
  mkCommand (c_name c) (c_id c) (c_request c) (prevLock c) (response c) (timedOut c) p.

(** [Promise.race]: both may have been decided already. *)
Definition race (i : nat) (s : Coordinator) : Coordinator :=
  match commands s !! i with
  | Some c =>
      match response c, timedOut c with
      | Some r, _ => finish i (Answered r) s
      | None, true => finish i TimedOut s
      | None, false => update i (with_phase Sent) s
      end
  | None => s
  end.

(** The lock is free: the request goes to the sidecar. *)
Definition write (i : nat) (how : Grant) (s : Coordinator) : Coordinator * list effect :=
  match commands s !! i with
  | Some c =>
      match phase c with
      | Queued =>
          if negb (released s (prevLock c)) then (s, [])
          else match how with
               | Threw => (finish i Broken s, [])
               | Shared => (race i s, [EWrite i])
               | Piped => (update i (with_phase Writing) s, [EWrite i])
               end
      | _ => (s, [])
      end
  | None => (s, [])
  end.

(** The promise of [writer.write] settles; only then does the race start. *)
Definition written (i : nat) (taken : bool) (s : Coordinator) : Coordinator :=
  match commands s !! i with
  | Some c => match phase c with Writing => if taken then race i s else finish i Broken s | _ => s end
  | None => s
  end.

(** The timer of a command fires. *)
Definition timeout (i : nat) (s : Coordinator) : Coordinator :=
  match commands s !! i with
  | Some c =>
      let s' := removeWaiter (c_name c) (c_id c)
        (update i (fun c => mkCommand (c_name c) (c_id c) (c_request c) (prevLock c) (response c) true (phase c)) s) in
      match phase c with
      | Queued | Writing => s'
      | Sent => finish i TimedOut s'
      | Done _ => s
      end
  | None => s
  end.

(** [waiter.resolve] *)
Definition resolve (i : nat) (data : Json) (s : Coordinator) : Coordinator :=
  match commands s !! i with
  | Some c =>
      let s' := update i (fun c => mkCommand (c_name c) (c_id c) (c_request c) (prevLock c) (Some data) (timedOut c) (phase c)) s in
      match phase c with Sent => finish i (Answered data) s' | _ => s' end
  | None => s
  end.

(** The id of a response, if it is truthy. *)
Definition responseId (data : Json) : option jsstr := match prop data "id" with Some (JStr (c :: t)) => Some (c :: t) | _ => None end.

Definition handleIpcLine (name : string) (trimmed : jsstr) (now : Z) (s : Coordinator) : Coordinator * list effect :=
  let s := recordHeartbeat name now s in
  if tooDeep trimmed then (s, [])
  else
    match JSON_parse (redact trimmed) with
    | None => (s, [])
    | Some data =>
        if validateResponse data then
          match responseId data with
          | Some id =>
              match JsMap.get (responseWaiters s) (name, id) with
              | Some i => (removeWaiter name id (resolve i data s), emitEvent name data s)
              | None => (s, emitEvent name data s)
              end
          | None => (s, emitEvent name data s)
          end
        else (s, [])
    end.

Fixpoint handleIpcLines (name : string) (ls : list jsstr) (now : Z) (s : Coordinator) : Coordinator * list effect :=
  match ls with
  | [] => (s, [])
  | l :: ls => let '(s, fx) := handleIpcLine name l now s in let '(s, fx') := handleIpcLines name ls now s in (s, fx ++ fx')
  end.

Definition MAX_LOG_MSG_LENGTH : nat := 16384.
Definition truncateLog (m : jsstr) : jsstr :=
  if (MAX_LOG_MSG_LENGTH <? length m)%nat then take MAX_LOG_MSG_LENGTH m ++ js "... [TRUNCATED]" else m.

(** One line of a sidecar; [ring] is what the shared memory holds then. *)
Definition handleLine (name : string) (ring : list jsstr) (line : jsstr) (now : Z) (s : Coordinator) : Coordinator * list effect :=
  if MAX_LINE_LENGTH <? Z.of_nat (length line) then (s, [])
  else
    let trimmed := Cidr.trim line in
    match trimmed with
    | [] => (s, [])
    | _ =>
        let isHeartbeat := bool_decide (trimmed = js "HEARTBEAT") in
        let s := if isHeartbeat || (startsWith trimmed (js "{") && includes trimmed (34 :: js "type" ++ [34] ++ js ":" ++ [34] ++ js "HEARTBEAT" ++ [34]))
                 then recordHeartbeat name now s else s in
        if isHeartbeat then (s, [])
        else if startsWith trimmed (js "SHMEM_UPDATE:") then handleIpcLines name ring now s
        else
          match (if startsWith trimmed (js "[LOG] ") then JSON_parse (drop 6 trimmed) else None) with
          | Some logData => (s, [ELog name (truncateLog (logMessage logData))])
          | None => handleIpcLine name trimmed now s
          end
    end.

Fixpoint handleLines (name : string) (ring : list jsstr) (ls : list jsstr) (now : Z) (s : Coordinator) : Coordinator * list effect :=
  match ls with
  | [] => (s, [])
  | l :: ls => let '(s, fx) := handleLine name ring l now s in let '(s, fx') := handleLines name ring ls now s in (s, fx ++ fx')
  end.

(** [HEARTBEAT_TIMEOUT]: who is silent is reported once. *)
Definition checkHeartbeats (active : list string) (now : Z) (s : Coordinator) : Coordinator * list effect :=
  let silent := List.filter (fun e => bool_decide (e.1 ∈ active) && (30000 <? now - e.2)) (lastHeartbeat s) in
  (with_heartbeats (fold_left (fun m e => JsMap.delete m e.1) silent (lastHeartbeat s)) s, map (fun e => EHang e.1) silent).

Inductive input :=
| ISend (name : string) (id : jsstr) (request : Json) (now : Z)
| IWrite (i : nat) (how : Grant)
| IWritten (i : nat) (taken : bool)
| ITimeout (i : nat)
| IRead (name : string) (chunk : Chunk) (ring : list jsstr) (now : Z)
| IOnEvent (name : string) (handler : nat)
| ICheck (active : list string) (now : Z).

Definition step (s : Coordinator) (i : input) : Coordinator * list effect :=
  match i with
  | ISend name id request now => (send name id request now s, [])
  | IWrite i how => write i how s
  | IWritten i taken => (written i taken s, [])
  | ITimeout i => (timeout i s, [])
  | IRead name chunk ring now =>
      let '(ls, rest) := readChunk (default [] (JsMap.get (buffers s) name)) chunk in
      handleLines name ring ls now (with_buffers (JsMap.set (buffers s) name rest) s)
  | IOnEvent name handler => (onEvent name handler s, [])
  | ICheck active now => checkHeartbeats active now s
  end.

Fixpoint run (s : Coordinator) (ins : list input) : Coordinator * list effect :=
  match ins with
  | [] => (s, [])
  | i :: ins => let '(s, fx) := step s i in let '(s, fx') := run s ins in (s, fx ++ fx')
  end.
End ipc.
(** ** The limit counts the nesting *)

(** The inside of a string literal. *)
Inductive body : jsstr -> Prop :=
| body_nil : body []
| body_plain c b : c <> 34 -> c <> 92 -> body b -> body (c :: b)
| body_escape c b : body b -> body (92 :: c :: b).

(** A text of balanced brackets and string literals, as every JSON text is, and
    how deep its brackets nest. *)
Inductive nested : Z -> jsstr -> Prop :=
| nested_nil : nested 0 []
| nested_char c t d : c ∉ [34; 92; 123; 125; 91; 93] -> nested d t -> nested d (c :: t)
| nested_string b t d : body b -> nested d t -> nested d (34 :: b ++ 34 :: t)
| nested_group o c t1 d1 t2 d2 : (o = 123 /\ c = 125) \/ (o = 91 /\ c = 93) ->
    nested d1 t1 -> nested d2 t2 -> nested (Z.max (d1 + 1) d2) (o :: t1 ++ c :: t2).

Lemma nested_nonneg d t : nested d t -> 0 <= d.
Proof. induction 1; lia. Qed.

Lemma scan_body b : body b -> forall k m r, k <= MAX_DEPTH ->
  scan (mkScan k m true false) (b ++ r) = scan (mkScan k m true false) r.
Proof.
  induction 1 as [|c b H1 H2 _ IH|c b _ IH]; intros k m r Hk; cbn [app scan escaped inString depth maxSeenDepth]; [done| |by apply IH].
  rewrite (proj2 (Z.eqb_neq _ _) H1), (proj2 (Z.eqb_neq _ _) H2). cbn [depth]. destruct (Z.ltb_spec MAX_DEPTH k); [lia|]. by apply IH.
Qed.

Lemma scan_nested d t : nested d t -> forall k m r, 0 <= k <= MAX_DEPTH -> k <= m ->
  (k + d <= MAX_DEPTH -> scan (mkScan k m false false) (t ++ r) = scan (mkScan k (Z.max m (k + d)) false false) r) /\
  (MAX_DEPTH < k + d -> MAX_DEPTH < depth (scan (mkScan k m false false) (t ++ r))).
Proof.
  induction 1 as [|c t d Hc _ IH|b t d Hb _ IH|o c t1 d1 t2 d2 Hoc H1 IH1 H2 IH2]; intros k m r Hk Hm.
  - split; [|lia]. intros _. by rewrite Z.add_0_r, Z.max_l by lia.
  - assert (forall x, x ∈ [34; 92; 123; 125; 91; 93] -> (c =? x) = false) as Hx by (intros x Hx; apply Z.eqb_neq; set_solver).
    cbn [app scan escaped inString depth maxSeenDepth]. rewrite !Hx by set_solver. cbn [orb depth].
    destruct (Z.ltb_spec MAX_DEPTH k); [lia|]. by apply IH.
  - cbn [app scan escaped inString depth maxSeenDepth negb Z.eqb Pos.eqb]. rewrite <- app_assoc. rewrite scan_body by (done || lia).
    cbn [app scan escaped inString depth maxSeenDepth negb Z.eqb Pos.eqb]. by apply IH.
  - pose proof (nested_nonneg _ _ H1). pose proof (nested_nonneg _ _ H2).
    assert (forall r, scan (mkScan k m false false) (o :: r) =
      if MAX_DEPTH <? k + 1 then mkScan (k + 1) (Z.max m (k + 1)) false false else scan (mkScan (k + 1) (Z.max m (k + 1)) false false) r) as Ho.
    { intros r'. by destruct Hoc as [[-> ->]|[-> ->]]. }
    assert (forall m r, scan (mkScan (k + 1) m false false) (c :: r) = scan (mkScan k m false false) r) as Hclose.
    { intros m' r'. destruct Hoc as [[-> ->]|[-> ->]]; cbn [scan escaped inString depth maxSeenDepth Z.eqb Pos.eqb orb];
        rewrite Z.add_simpl_r; (destruct (Z.ltb_spec MAX_DEPTH k); [lia|done]). }
    rewrite <- app_comm_cons, <- app_assoc, Ho, <- app_comm_cons. destruct (Z.ltb_spec MAX_DEPTH (k + 1)); [split; [lia|done]|].
    destruct (IH1 (k + 1) (Z.max m (k + 1)) (c :: t2 ++ r) ltac:(lia) ltac:(lia)) as [In1 Out1].
    destruct (Z.le_gt_cases (k + 1 + d1) MAX_DEPTH) as [Hd1|Hd1]; [|split; [lia|intros _; by apply Out1]].
    rewrite In1, Hclose by done. destruct (IH2 k (Z.max (Z.max m (k + 1)) (k + 1 + d1)) r ltac:(lia) ltac:(lia)) as [In2 Out2].
    split; intros Hd; [|apply Out2; lia]. rewrite In2 by lia. f_equal. f_equal. lia.
Qed.

(** C30: the scan of an incoming line is exact: on every balanced text, string
    literals and escapes included, it rejects exactly the texts whose
    brackets nest deeper than eight levels, so brackets inside strings
    neither trip the limit nor hide a deeper structure. *)
Theorem depth_limit_exact d t : nested d t -> tooDeep t = true <-> MAX_DEPTH < d.
Proof.
  intros Hn. destruct (scan_nested d t Hn 0 0 [] ltac:(unfold MAX_DEPTH; lia) ltac:(lia)) as [Hin Hout].
  rewrite app_nil_r, Z.add_0_l in *. unfold tooDeep. destruct (Z.le_gt_cases d MAX_DEPTH) as [Hd|Hd].
  - rewrite Hin by done. cbn [scan depth maxSeenDepth]. unfold MAX_DEPTH in *. split; [|lia].
    pose proof (nested_nonneg _ _ Hn). intros [?%Z.ltb_lt|?%Z.ltb_lt]%orb_true_iff; lia.
  - specialize (Hout Hd). split; [done|]. intros _. apply orb_true_iff. left. by apply Z.ltb_lt.
Qed.

(** ** Framing does not depend on the reads *)

(** No read overflows the buffer. *)
Fixpoint fits (buffer : jsstr) (cs : list Chunk) : bool :=
  match cs with [] => true | c :: cs => negb (overflows buffer c) && fits (readChunk buffer c).2 cs end.

Lemma split_nonempty s : split s [10] <> [].
Proof. apply split_go_nonempty. Qed.

Lemma last_piece s : forall acc, 10 ∉ acc -> 10 ∉ List.last (split_go [10] 0 acc s) [].
Proof.
  induction s as [|c s IH]; intros acc Ha; cbn [split_go]; [cbn [List.last]; by rewrite list_elem_of_In, <- in_rev, <- list_elem_of_In|].
  rewrite startsWith_char. destruct (Z.eqb_spec 10 c) as [<-|Hc]; cbn [length Nat.sub]; [|apply IH; set_solver].
  destruct (split_go [10] 0 [] s) as [|x l] eqn:E; [by apply split_go_nonempty in E|]. cbn [List.last].
  specialize (IH [] (not_elem_of_nil _)). by rewrite E in IH.
Qed.

Lemma split_go_acc p : 10 ∉ p -> forall acc t, split_go [10] 0 (rev p ++ acc) t = split_go [10] 0 acc (p ++ t).
Proof.
  induction p as [|x p IH]; intros Hp acc t; [done|]. cbn [rev app split_go]. rewrite startsWith_char.
  destruct (Z.eqb_spec 10 x) as [<-|Hx]; [destruct Hp; by left|]. rewrite <- app_assoc. by apply IH; set_solver.
Qed.

(** Splitting resumes where a complete line ended. *)
Lemma split_go_resume t s : forall acc, split_go [10] 0 acc (s ++ t) =
  removelast (split_go [10] 0 acc s) ++ split_go [10] 0 (rev (List.last (split_go [10] 0 acc s) [])) t.
Proof.
  induction s as [|c s IH]; intros acc; cbn [app split_go].
  - cbn [removelast List.last app]. by rewrite rev_involutive.
  - rewrite !startsWith_char. destruct (10 =? c); cbn [length Nat.sub]; [|apply IH].
    rewrite IH. by destruct (split_go [10] 0 [] s) eqn:E; [apply split_go_nonempty in E|].
Qed.

Lemma split_resume s t : split (s ++ t) [10] = removelast (split s [10]) ++ split (List.last (split s [10]) [] ++ t) [10].
Proof.
  unfold split. rewrite split_go_resume. f_equal. pose proof (last_piece s [] (not_elem_of_nil _)) as Hl.
  by rewrite <- (split_go_acc _ Hl [] t), app_nil_r.
Qed.

(** Framing does not depend on how the pipe cuts the output: as long as no
    read overflows the buffer, the lines that are handled, followed by the
    rest in the buffer, are the lines of the whole output. *)
Theorem framing_exact cs : fits [] cs = true ->
  let '(ls, rest) := readAll [] cs in ls ++ [rest] = split (concat (map decoded cs)) [10].
Proof.
  assert (forall cs b, fits b cs = true -> let '(ls, rest) := readAll b cs in 10 ∉ b -> ls ++ [rest] = split (b ++ concat (map decoded cs)) [10]) as Hgen.
  { clear cs. induction cs as [|c cs IH]; intros b; cbn [fits readAll map concat].
    - intros _ Hb. rewrite app_nil_r, split_none; [done|]. by apply includes_char_false.
    - intros [Ho Hf]%andb_true_iff. apply negb_true_iff in Ho. unfold readChunk in *. rewrite Ho in *. cbn [snd] in Hf.
      specialize (IH _ Hf). destruct (readAll _ cs) as [ls rest]. intros Hb. rewrite <- app_assoc, IH.
      + by rewrite app_assoc, (split_resume (b ++ decoded c)).
      + apply last_piece, not_elem_of_nil. }
  intros Hf. specialize (Hgen cs [] Hf). destruct (readAll [] cs). apply Hgen, not_elem_of_nil.
Qed.

(** ** One command at a time *)

Section commands.
Context `{StdPath} `{Zod} (gateway : option jsstr) (JSON_parse : jsstr -> option Json) (redact : jsstr -> jsstr) (logMessage : Json -> jsstr).
Notation step := (step gateway JSON_parse redact logMessage).
Notation run := (run gateway JSON_parse redact logMessage).

(** What a command is, apart from how far it has got. *)
Definition same (c d : Command) : Prop :=
  c_name d = c_name c /\ c_id d = c_id c /\ c_request d = c_request c /\ prevLock d = prevLock c.

(** The command moved on by itself, or only its promises did. *)
Definition quiet (c d : Command) : Prop :=
  same c d /\ (phase d = phase c \/ phase c = Sent /\ exists o, phase d = Done o).

Record lock_ok (s : Coordinator) : Prop := mkLockOk {
  lo_last : forall name, match JsMap.get (stdinLocks s) name with
    | Some j => (exists c, commands s !! j = Some c /\ c_name c = name) /\
                forall i c, commands s !! i = Some c -> c_name c = name -> (i <= j)%nat
    | None => forall i c, commands s !! i = Some c -> c_name c <> name
    end;
  lo_prev : forall i c, commands s !! i = Some c -> match prevLock c with
    | Some j => (j < i)%nat /\ (exists d, commands s !! j = Some d /\ c_name d = c_name c) /\
                forall k d, (k < i)%nat -> commands s !! k = Some d -> c_name d = c_name c -> (k <= j)%nat
    | None => forall k d, (k < i)%nat -> commands s !! k = Some d -> c_name d <> c_name c
    end;
  lo_phase : forall i c j, commands s !! i = Some c -> phase c <> Queued -> prevLock c = Some j ->
    exists d o, commands s !! j = Some d /\ phase d = Done o;
}.

Lemma quiet_refl c : quiet c c.
Proof. split; [done|by left]. Qed.

Lemma quiet_all l : Forall2 quiet l l.
Proof. induction l; constructor; auto using quiet_refl. Qed.

Lemma quiet_insert l i c d : l !! i = Some c -> quiet c d -> Forall2 quiet l (<[i := d]> l).
Proof.
  intros Hi Hq. apply Forall2_same_length_lookup. split; [by rewrite length_insert|]. intros j x y Hx Hy.
  destruct (decide (i = j)) as [<-|Hne].
  - rewrite list_lookup_insert_eq in Hy by (by eapply lookup_lt_Some). by simplify_eq.
  - rewrite list_lookup_insert_ne in Hy by done. simplify_eq. apply quiet_refl.
Qed.

(** Commands whose locks did not move keep the discipline. *)
Lemma quiet_ok s s' : stdinLocks s' = stdinLocks s -> Forall2 quiet (commands s) (commands s') -> lock_ok s -> lock_ok s'.
Proof.
  intros Hl Hq [H1 H2 H3].
  assert (forall i d, commands s' !! i = Some d -> exists c, commands s !! i = Some c /\ quiet c d) as Hback.
  { intros i d Hd. destruct (Forall2_lookup_r _ _ _ _ _ Hq Hd) as (c & Hc & Hcd). eauto. }
  assert (forall i c, commands s !! i = Some c -> exists d, commands s' !! i = Some d /\ quiet c d) as Hforth.
  { intros i c Hc. destruct (Forall2_lookup_l _ _ _ _ _ Hq Hc) as (d & Hd & Hcd). eauto. }
  split.
  - intros name. specialize (H1 name). rewrite Hl. destruct (JsMap.get (stdinLocks s) name) as [j|].
    + destruct H1 as [(c & Hc & <-) Hmax]. split.
      * destruct (Hforth _ _ Hc) as (d & Hd & (Hn & _) & _). by exists d.
      * intros i d (c' & Hc' & (Hn & _) & _)%Hback E. eapply Hmax; [done|congruence].
    + intros i d (c' & Hc' & (Hn & _) & _)%Hback. rewrite Hn. by eapply H1.
  - intros i d (c & Hc & (Hn & _ & _ & Hp) & _)%Hback. specialize (H2 _ _ Hc). rewrite Hp, Hn. destruct (prevLock c) as [j|].
    + destruct H2 as (Hji & (e & He & Hen) & Hmax). split_and!; [done| |].
      * destruct (Hforth _ _ He) as (e' & He' & (Hn' & _) & _). exists e'. by rewrite Hn'.
      * intros k x Hk (x' & Hx' & (Hnx & _) & _)%Hback E. eapply Hmax; [done..|congruence].
    + intros k x Hk (x' & Hx' & (Hnx & _) & _)%Hback. rewrite Hnx. by eapply H2.
  - intros i d j (c & Hc & (_ & _ & _ & Hp) & Hph)%Hback Hnq Hj. rewrite Hp in Hj.
    destruct (H3 _ _ j Hc) as (e & o & He & Heo); [destruct Hph as [<-|[-> _]]; done|done|].
    destruct (Hforth _ _ He) as (e' & He' & _ & Hpe). destruct Hpe as [E|[E _]]; [|congruence]. exists e', o. split; [done|congruence].
Qed.

Definition tame (s s' : Coordinator) : Prop := stdinLocks s' = stdinLocks s /\ Forall2 quiet (commands s) (commands s').

Lemma tame_refl s : tame s s.
Proof. split; [done|apply quiet_all]. Qed.

#[local] Instance quiet_trans : Transitive quiet.
Proof.
  intros c d e [(A1 & A2 & A3 & A4) P1] [(B1 & B2 & B3 & B4) P2]. split; [by repeat split; congruence|].
  destruct P1 as [P1|(P1 & o & P1')], P2 as [P2|(P2 & o' & P2')]; try congruence.
  - left. congruence.
  - right. split; [congruence|by exists o'].
  - right. split; [done|]. exists o. congruence.
Qed.

Lemma tame_trans s1 s2 s3 : tame s1 s2 -> tame s2 s3 -> tame s1 s3.
Proof. intros [A1 A2] [B1 B2]. split; [congruence|]. by etrans. Qed.

Lemma tame_ok s s' : tame s s' -> lock_ok s -> lock_ok s'.
Proof. intros [A B]. by apply quiet_ok. Qed.

Lemma update_tame i f s : (forall c, quiet c (f c)) -> tame s (update i f s).
Proof.
  intros Hf. unfold update. destruct (commands s !! i) as [c|] eqn:E; [|apply tame_refl]. split; [done|]. by apply quiet_insert with c.
Qed.

Lemma finish_tame i o s c : commands s !! i = Some c -> phase c = Sent -> tame s (finish i o s).
Proof.
  intros E Hp. unfold finish. rewrite E. split; [done|]. apply quiet_insert with c; [done|]. split; [done|]. right. split; [done|by exists o].
Qed.

Lemma update_lookup i f s c : commands s !! i = Some c -> commands (update i f s) !! i = Some (f c).
Proof. intros E. unfold update. rewrite E. simpl. apply list_lookup_insert_eq. by eapply lookup_lt_Some. Qed.

Lemma resolve_tame i data s : tame s (resolve i data s).
Proof.
  unfold resolve. destruct (commands s !! i) as [c|] eqn:E; [|apply tame_refl].
  set (f := fun c => mkCommand _ _ _ _ _ _ _). assert (tame s (update i f s)) as Hu by (apply update_tame; intros d; split; [done|by left]).
  destruct (phase c) eqn:Ep; try done. eapply tame_trans; [exact Hu|]. eapply finish_tame; [by apply update_lookup|done].
Qed.

Lemma timeout_tame i s : tame s (timeout i s).
Proof.
  unfold timeout. destruct (commands s !! i) as [c|] eqn:E; [|apply tame_refl].
  set (f := fun c => mkCommand _ _ _ _ _ _ _). assert (tame s (update i f s)) as Hu by (apply update_tame; intros d; split; [done|by left]).
  destruct (phase c) eqn:Ep; [done|done| |apply tame_refl]. eapply tame_trans; [exact Hu|].
  eapply (finish_tame i _ (removeWaiter _ _ (update i f s))); [by apply update_lookup|done].
Qed.

Lemma ipcLine_tame name l now s : tame s (handleIpcLine JSON_parse redact name l now s).1.
Proof.
  unfold handleIpcLine. assert (tame s (recordHeartbeat name now s)) as Hr by (split; [done|apply quiet_all]).
  destruct (tooDeep l); [done|]. destruct (JSON_parse _) as [data|]; [|done]. destruct (validateResponse data); [|done].
  destruct (responseId data) as [id|]; [|done]. destruct (JsMap.get _ _) as [i|]; [|done]. cbn [fst].
  eapply tame_trans; [exact Hr|]. pose proof (resolve_tame i data (recordHeartbeat name now s)) as [A B]. by split.
Qed.

Lemma ipcLines_tame name ls now : forall s, tame s (handleIpcLines JSON_parse redact name ls now s).1.
Proof.
  induction ls as [|l ls IH]; intros s; cbn [handleIpcLines]; [apply tame_refl|]. pose proof (ipcLine_tame name l now s) as Hl.
  destruct (handleIpcLine _ _ _ _ _ _) as [s' fx]. specialize (IH s'). destruct (handleIpcLines _ _ _ _ _ _). by eapply tame_trans.
Qed.

Lemma line_tame name ring l now s : tame s (handleLine JSON_parse redact logMessage name ring l now s).1.
Proof.
  unfold handleLine. destruct (_ <? _); [apply tame_refl|]. destruct (Cidr.trim l) as [|c t]; [apply tame_refl|].
  set (s1 := if _ || _ then _ else _). assert (tame s s1) as H1 by (subst s1; destruct (_ || _); [split; [done|apply quiet_all]|apply tame_refl]).
  case_bool_decide; [done|]. destruct (startsWith _ (js "SHMEM_UPDATE:")); [eapply tame_trans; [exact H1|apply ipcLines_tame]|].
  destruct (if startsWith _ _ then _ else _); [done|]. eapply tame_trans; [exact H1|apply ipcLine_tame].
Qed.

Lemma lines_tame name ring ls now : forall s, tame s (handleLines JSON_parse redact logMessage name ring ls now s).1.
Proof.
  induction ls as [|l ls IH]; intros s; cbn [handleLines]; [apply tame_refl|]. pose proof (line_tame name ring l now s) as Hl.
  destruct (handleLine _ _ _ _ _ _ _ _) as [s' fx]. specialize (IH s'). destruct (handleLines _ _ _ _ _ _ _ _). by eapply tame_trans.
Qed.

(** ** The two steps that touch the locks *)

Lemma send_ok name id request now s : lock_ok s -> lock_ok (send gateway name id request now s).
Proof.
  intros Hs. unfold send. assert (lock_ok (recordHeartbeat name now s)) as Hr by (eapply tame_ok; [|exact Hs]; split; [done|apply quiet_all]).
  destruct (validateRequest _ _ _); [|done]. cbn [commands stdinLocks recordHeartbeat with_heartbeats].
  set (n := length (commands s)). destruct Hs as [H1 H2 H3].
  assert (forall i c, (commands s ++ [mkCommand name id request (JsMap.get (stdinLocks s) name) None false Queued]) !! i = Some c ->
    (i < n)%nat /\ commands s !! i = Some c \/ i = n /\ c = mkCommand name id request (JsMap.get (stdinLocks s) name) None false Queued) as Hcase.
  { intros i c [Hi|[Hi Hc]]%lookup_app_Some; [left; split; [by eapply lookup_lt_Some|done]|].
    apply list_lookup_singleton_Some in Hc as [Hc <-]. right. split; [|done]. subst n. lia. }
  assert (forall i c, commands s !! i = Some c -> (i < n)%nat) as Hlt by (intros i c Hi; by eapply lookup_lt_Some).
  split; cbn [commands stdinLocks].
  - intros m. destruct (decide (m = name)) as [->|Hm].
    + rewrite JsMap.get_set_eq. split.
      * eexists. split; [by apply list_lookup_middle|done].
      * intros i c [[Hi _]|[-> _]]%Hcase _; lia.
    + rewrite JsMap.get_set_ne by done. specialize (H1 m). destruct (JsMap.get (stdinLocks s) m) as [j|].
      * destruct H1 as [(c & Hc & Hcn) Hmax]. split; [exists c; split; [by apply lookup_app_l_Some|done]|].
        intros i d [[_ Hd]|[_ ->]]%Hcase E; [by eapply Hmax|by cbn in E].
      * intros i d [[_ Hd]|[_ ->]]%Hcase; [by eapply H1|by cbn].
  - intros i c [[Hi Hc]|[-> ->]]%Hcase.
    + specialize (H2 _ _ Hc). destruct (prevLock c) as [j|].
      * destruct H2 as (Hj & (d & Hd & Hdn) & Hmax). split_and!; [done|exists d; split; [by apply lookup_app_l_Some|done]|].
        intros k e Hk [[_ He]|[-> _]]%Hcase E; [by eapply Hmax|lia].
      * intros k e Hk [[_ He]|[-> _]]%Hcase; [by eapply H2|lia].
    + cbn [prevLock c_name]. specialize (H1 name). destruct (JsMap.get (stdinLocks s) name) as [j|].
      * destruct H1 as [(c & Hc & Hcn) Hmax]. split_and!; [by eapply Hlt|exists c; split; [by apply lookup_app_l_Some|done]|].
        intros k e Hk [[_ He]|[-> _]]%Hcase E; [by eapply Hmax|lia].
      * intros k e Hk [[_ He]|[-> _]]%Hcase; [by eapply H1|lia].
  - intros i c j [[Hi Hc]|[-> ->]]%Hcase Hp Hj; [|done]. destruct (H3 _ _ _ Hc Hp Hj) as (d & o & Hd & Hdo).
    exists d, o. split; [by apply lookup_app_l_Some|done].
Qed.

(** A queued command whose lock is free moves on, and so does one whose request
    is being written. *)
Lemma advance_ok s s' i c d : lock_ok s -> commands s !! i = Some c -> same c d ->
  (phase c = Queued /\ released s (prevLock c) = true) \/ phase c = Writing ->
  stdinLocks s' = stdinLocks s -> commands s' = <[i := d]> (commands s) -> lock_ok s'.
Proof.
  intros [H1 H2 H3] Hi Hcd Hq El Ec. pose proof (lookup_lt_Some _ _ _ Hi) as Hlen.
  assert (forall k e, commands s' !! k = Some e -> exists e', commands s !! k = Some e' /\ same e' e /\ (k = i \/ e' = e)) as Hback.
  { intros k e. rewrite Ec. destruct (decide (k = i)) as [->|Hne].
    - rewrite list_lookup_insert_eq by done. intros [= <-]. exists c. auto.
    - rewrite list_lookup_insert_ne by done. intros He. exists e. by repeat split; auto. }
  assert (forall k e, commands s !! k = Some e -> exists e', commands s' !! k = Some e' /\ same e e' /\ (k = i \/ e' = e)) as Hforth.
  { intros k e He. rewrite Ec. destruct (decide (k = i)) as [->|Hne].
    - rewrite list_lookup_insert_eq by done. simplify_eq. exists d. auto.
    - rewrite list_lookup_insert_ne by done. exists e. by repeat split; auto. }
  split.
  - intros name. specialize (H1 name). rewrite El. destruct (JsMap.get (stdinLocks s) name) as [j|].
    + destruct H1 as [(x & Hx & <-) Hmax]. split; [destruct (Hforth _ _ Hx) as (x' & Hx' & (Hn & _) & _); by exists x'|].
      intros k e (e' & He' & (Hn & _) & _)%Hback E. eapply Hmax; [done|congruence].
    + intros k e (e' & He' & (Hn & _) & _)%Hback. rewrite Hn. by eapply H1.
  - intros k e (e' & He' & (Hn & _ & _ & Hp) & _)%Hback. specialize (H2 _ _ He'). rewrite Hp, Hn. destruct (prevLock e') as [j|].
    + destruct H2 as (Hj & (x & Hx & Hxn) & Hmax). split_and!; [done|destruct (Hforth _ _ Hx) as (x' & Hx' & (Hn' & _) & _); exists x'; by rewrite Hn'|].
      intros m y Hm (y' & Hy' & (Hny & _) & _)%Hback E. eapply Hmax; [done..|congruence].
    + intros m y Hm (y' & Hy' & (Hny & _) & _)%Hback. rewrite Hny. by eapply H2.
  - intros k e j (e' & He' & (_ & _ & _ & Hp) & Hk)%Hback Hnq Hj. rewrite Hp in Hj.
    assert (exists x o, commands s !! j = Some x /\ phase x = Done o) as (x & o & Hx & Hxo).
    { destruct Hk as [->| ->]; [|by eapply H3]. rewrite Hi in He'. injection He' as <-.
      destruct Hq as [[_ Hr]|Hw]; [|eapply (H3 i); [done|congruence|done]]. rewrite Hj in Hr. cbn [released] in Hr.
      destruct (commands s !! j) as [[? ? ? ? ? ? []]|]; try done. by eexists _, _. }
    destruct (Hforth _ _ Hx) as (x' & Hx' & _ & [->| ->]); [simplify_eq; destruct Hq as [[? _]|?]; congruence|by exists x, o].
Qed.

Lemma finish_ok i o s c : lock_ok s -> commands s !! i = Some c ->
  (phase c = Queued /\ released s (prevLock c) = true) \/ phase c = Writing -> lock_ok (finish i o s).
Proof. intros Hs E Hq. unfold finish. rewrite E. eapply (advance_ok s _ i c); [done|done| |exact Hq|done|cbn; reflexivity]. done. Qed.

Lemma phase_ok i p s c : lock_ok s -> commands s !! i = Some c ->
  (phase c = Queued /\ released s (prevLock c) = true) \/ phase c = Writing -> lock_ok (update i (with_phase p) s).
Proof. intros Hs E Hq. unfold update. rewrite E. eapply (advance_ok s _ i c); [done|done| |exact Hq|done|cbn; reflexivity]. done. Qed.

Lemma race_ok i s c : lock_ok s -> commands s !! i = Some c ->
  (phase c = Queued /\ released s (prevLock c) = true) \/ phase c = Writing -> lock_ok (race i s).
Proof.
  intros Hs E Hq. unfold race. rewrite E. destruct (response c); [by eapply finish_ok|].
  destruct (timedOut c); [by eapply finish_ok|by eapply phase_ok].
Qed.

Lemma write_ok i how s : lock_ok s -> lock_ok (write i how s).1.
Proof.
  intros Hs. unfold write. destruct (commands s !! i) as [c|] eqn:E; [|done]. destruct (phase c) eqn:Ep; [|done..].
  destruct (released s (prevLock c)) eqn:Er; [|done]. cbn [negb].
  destruct how; [eapply finish_ok|eapply race_ok|eapply phase_ok]; try done; by left.
Qed.

Lemma written_ok i taken s : lock_ok s -> lock_ok (written i taken s).
Proof.
  intros Hs. unfold written. destruct (commands s !! i) as [c|] eqn:E; [|done]. destruct (phase c) eqn:Ep; try done.
  destruct taken; [eapply race_ok|eapply finish_ok]; try done; by right.
Qed.

Lemma step_lock_ok s i : lock_ok s -> lock_ok (step s i).1.
Proof.
  intros Hs. destruct i as [name id request now|i how|i taken|i|name chunk ring now|name handler|active now]; cbn [Ipc.step].
  - by apply send_ok.
  - by apply write_ok.
  - by apply written_ok.
  - eapply tame_ok; [apply timeout_tame|done].
  - destruct (readChunk _ _) as [ls rest]. eapply tame_ok; [apply lines_tame|]. eapply tame_ok; [|exact Hs]. split; [done|apply quiet_all].
  - eapply tame_ok; [|exact Hs]. split; [done|apply quiet_all].
  - eapply tame_ok; [|exact Hs]. split; [done|apply quiet_all].
Qed.

Lemma new_lock_ok : lock_ok new.
Proof. split; try done. Qed.

Lemma run_lock_ok ins : forall s, lock_ok s -> lock_ok (run s ins).1.
Proof.
  induction ins as [|i ins IH]; intros s Hs; cbn [Ipc.run]; [done|]. apply (step_lock_ok s i) in Hs.
  destruct (step s i) as [s' fx]. specialize (IH s' Hs). by destruct (run s' ins).
Qed.

(** Once a command has been written, every earlier one is finished. *)
Lemma done_before s i : lock_ok s -> forall c, commands s !! i = Some c -> phase c <> Queued ->
  forall k d, (k < i)%nat -> commands s !! k = Some d -> c_name d = c_name c -> exists o, phase d = Done o.
Proof.
  intros Hs. induction i as [i IH] using lt_wf_ind. intros c Hc Hp k d Hk Hd Hn. pose proof (lo_prev _ Hs _ _ Hc) as Hprev.
  destruct (prevLock c) as [j|] eqn:Ej; [|by destruct (Hprev k d Hk Hd)]. destruct Hprev as (Hji & (e & He & Hen) & Hmax).
  destruct (lo_phase _ Hs _ _ _ Hc Hp Ej) as (e' & o & He' & Ho). simplify_eq. specialize (Hmax k d Hk Hd Hn).
  destruct (decide (k = j)) as [->|Hkj]; [simplify_eq; by exists o|].
  eapply (IH j Hji e); [done|congruence| |done|congruence]. lia.
Qed.

(** The request was handed to the sidecar and the call has not returned. *)
Definition in_flight (c : Command) : bool := match phase c with Writing | Sent => true | _ => false end.

(** C24: a sidecar has at most one command in flight: over any interleaving of
    senders, writes, responses and timeouts two commands that are being or
    have been written and are not finished belong to different sidecars, and
    the commands of one sidecar are written in the order they were sent. *)
Theorem stdin_exclusive ins : let s := (run new ins).1 in
  (forall i j c d, commands s !! i = Some c -> commands s !! j = Some d -> in_flight c = true -> in_flight d = true -> c_name c = c_name d -> i = j) /\
  forall i j c d, (i < j)%nat -> commands s !! i = Some c -> commands s !! j = Some d -> c_name c = c_name d ->
    phase d <> Queued -> exists o, phase c = Done o.
Proof.
  intros s. pose proof (run_lock_ok ins new new_lock_ok : lock_ok s) as Hs.
  assert (forall c, in_flight c = true -> phase c <> Queued /\ forall o, phase c <> Done o) as Hf
    by (intros c; unfold in_flight; by destruct (phase c)). split.
  - intros i j c d Hi Hj [Hc Hc']%Hf [Hd Hd']%Hf Hn. destruct (lt_eq_lt_dec i j) as [[Hlt|Heq]|Hlt]; [|done|].
    + destruct (done_before s j Hs d Hj Hd i c Hlt Hi Hn) as [o ?]. by destruct (Hc' o).
    + destruct (done_before s i Hs c Hi Hc j d Hlt Hj (eq_sym Hn)) as [o ?]. by destruct (Hd' o).
  - intros i j c d Hlt Hi Hj Hn Hp. by eapply (done_before s j Hs d Hj Hp i c).
Qed.

(** ** Every command finishes *)

Definition is_done (c : Command) : bool := match phase c with Done _ => true | _ => false end.

(** Only command [i] changes, and it stays the same command. *)
Definition local_at (i : nat) (s s' : Coordinator) : Prop :=
  length (commands s') = length (commands s) /\ (forall k, k <> i -> commands s' !! k = commands s !! k).

Lemma local_refl i s : local_at i s s.
Proof. by split. Qed.

Lemma insert_local i d s s' : commands s' = <[i := d]> (commands s) -> local_at i s s'.
Proof. unfold local_at. intros ->. split; [apply length_insert|]. intros k Hk. by rewrite list_lookup_insert_ne. Qed.

Lemma insert_phase i c d s s' : commands s !! i = Some c -> commands s' = <[i := d]> (commands s) -> commands s' !! i = Some d.
Proof. intros E ->. apply list_lookup_insert_eq. by eapply lookup_lt_Some. Qed.

Lemma finish_commands i o s c : commands s !! i = Some c ->
  commands (finish i o s) = <[i := mkCommand (c_name c) (c_id c) (c_request c) (prevLock c) (response c) (timedOut c) (Done o)]> (commands s).
Proof. intros E. unfold finish. by rewrite E. Qed.

(** Its timer finishes a command whose request was taken. *)
Lemma timeout_finishes i s c : commands s !! i = Some c -> phase c <> Queued -> phase c <> Writing ->
  local_at i s (timeout i s) /\ exists d, commands (timeout i s) !! i = Some d /\ is_done d = true.
Proof.
  intros E Hp Hw. unfold timeout. rewrite E. destruct (phase c) eqn:Ep; [done|done| |].
  - unfold update. rewrite E. set (s1 := removeWaiter _ _ _).
    assert (commands s1 !! i = Some (mkCommand (c_name c) (c_id c) (c_request c) (prevLock c) (response c) true (phase c))) as E1
      by (apply list_lookup_insert_eq; by eapply lookup_lt_Some).
    assert (commands (finish i TimedOut s1) =
      <[i := mkCommand (c_name c) (c_id c) (c_request c) (prevLock c) (response c) true (Done TimedOut)]> (commands s)) as Hf
      by (rewrite (finish_commands _ _ _ _ E1); apply list_insert_insert_eq).
    split; [exact (insert_local _ _ _ _ Hf)|]. eexists. split; [exact (insert_phase _ _ _ _ _ E Hf)|done].
  - split; [apply local_refl|]. exists c. split; [done|]. unfold is_done. by rewrite Ep.
Qed.

Lemma update_local i f s c : commands s !! i = Some c -> local_at i s (update i f s) /\ commands (update i f s) !! i = Some (f c).
Proof. intros E. split; [|by apply update_lookup]. unfold update. rewrite E. by eapply insert_local. Qed.

(** The race is open or decided. *)
Lemma race_local i s c : commands s !! i = Some c ->
  local_at i s (race i s) /\ exists d, commands (race i s) !! i = Some d /\ phase d <> Queued /\ phase d <> Writing.
Proof.
  intros E. unfold race. rewrite E.
  assert (forall o, local_at i s (finish i o s) /\ exists d, commands (finish i o s) !! i = Some d /\ phase d <> Queued /\ phase d <> Writing) as Hf.
  { intros o. pose proof (finish_commands i o s c E) as Hc. split; [exact (insert_local _ _ _ _ Hc)|]. eexists. split; [exact (insert_phase _ _ _ _ _ E Hc)|done]. }
  destruct (response c); [apply Hf|]. destruct (timedOut c); [apply Hf|].
  destruct (update_local i (with_phase Sent) s c E) as [Hl Hd]. split; [done|]. by eexists.
Qed.

Lemma local_trans i s1 s2 s3 : local_at i s1 s2 -> local_at i s2 s3 -> local_at i s1 s3.
Proof. intros [L1 O1] [L2 O2]. split; [congruence|]. intros k Hk. by rewrite O2, O1. Qed.

(** When the turn of a command has come and the pipe takes its request, the
    command waits for its answer or is done. *)
Lemma write_taken i s c : commands s !! i = Some c -> released s (prevLock c) = true -> let s' := written i true (write i Piped s).1 in
  local_at i s s' /\ exists d, commands s' !! i = Some d /\ phase d <> Queued /\ phase d <> Writing.
Proof.
  intros E Hr s'. subst s'. unfold write. rewrite E, Hr. cbn [negb]. destruct (phase c) eqn:Ep; cbn [fst].
  - destruct (update_local i (with_phase Writing) s c E) as [Hl Hd]. unfold written. rewrite Hd. cbn [phase with_phase].
    destruct (race_local i _ _ Hd) as [Hl' Hd']. split; [by eapply local_trans|done].
  - unfold written. rewrite E, Ep. by apply race_local with c.
  - unfold written. rewrite E, Ep. split; [apply local_refl|]. exists c. by rewrite Ep.
  - unfold written. rewrite E, Ep. split; [apply local_refl|]. exists c. by rewrite Ep.
Qed.

(** The lock of each command is granted, the pipe takes its request, then its
    timer fires, in the order of the queue. *)
Definition drain (n : nat) : list input := flat_map (fun i => [IWrite i Piped; IWritten i true; ITimeout i]) (seq 0 n).

Lemma run_commands_app ins ins' : forall s, (run s (ins ++ ins')).1 = (run (run s ins).1 ins').1.
Proof.
  induction ins as [|i ins IH]; intros s; cbn [app Ipc.run]; [done|]. destruct (step s i) as [s1 fx]. specialize (IH s1).
  destruct (run s1 (ins ++ ins')), (run s1 ins). done.
Qed.

Lemma drain_done n s : lock_ok s -> (n <= length (commands s))%nat -> let s' := (run s (drain n)).1 in
  length (commands s') = length (commands s) /\ forall i c, (i < n)%nat -> commands s' !! i = Some c -> is_done c = true.
Proof.
  intros Hs. induction n as [|n IH]; intros Hn s'; [by split; [|lia]|]. subst s'. destruct IH as [Hlen Hdone]; [lia|].
  unfold drain. rewrite seq_S, flat_map_app, run_commands_app. change (flat_map _ (seq 0 n)) with (drain n).
  pose proof (run_lock_ok (drain n) s Hs) as Hs1. set (s1 := (run s (drain n)).1) in *. cbn [flat_map app Nat.add Ipc.run Ipc.step].
  destruct (lookup_lt_is_Some_2 (commands s1) n ltac:(lia)) as [c Hc].
  assert (released s1 (prevLock c) = true) as Hr.
  { pose proof (lo_prev _ Hs1 _ _ Hc) as Hp. destruct (prevLock c) as [j|]; [|done]. destruct Hp as (Hj & (d & Hd & _) & _).
    cbn [released]. rewrite Hd. specialize (Hdone _ _ Hj Hd). unfold is_done in Hdone. by destruct d as [? ? ? ? ? ? []]. }
  destruct (write_taken n s1 c Hc Hr) as ((L1 & O1) & d & Hd & Hdq & Hdw). destruct (write n Piped s1) as [s2 fx]. cbn [fst] in *.
  destruct (timeout_finishes n _ d Hd Hdq Hdw) as ((L2 & O2) & e & He & Hed). split; [lia|]. intros i x Hi Hx.
  destruct (decide (i = n)) as [->|Hne]; [by simplify_eq|]. rewrite O2, O1 in Hx by done. apply (Hdone i); [lia|done].
Qed.

(** C29: An agent that takes its commands and never answers delays the queue but
    cannot block it: whatever happened before, granting the locks, having the
    pipe take the requests and firing the timers, in the order of the queue,
    leaves every command finished. *)
Theorem commands_drain ins : let s := (run new ins).1 in
  Forall (fun c => is_done c = true) (commands (run s (drain (length (commands s)))).1).
Proof.
  intros s. destruct (drain_done (length (commands s)) s (run_lock_ok ins new new_lock_ok) (le_n _)) as [Hl Hd].
  apply Forall_lookup. intros i c Hi. apply (Hd i); [|done]. rewrite <- Hl. by eapply lookup_lt_Some.
Qed.

(** ** A request that is not taken *)

Definition is_writing (i : nat) (s : Coordinator) : Prop := exists c, commands s !! i = Some c /\ phase c = Writing.

Definition not_taken (i : nat) (x : input) : bool := match x with IWritten j _ => negb (j =? i)%nat | _ => true end.

Lemma tame_writing i s s' : tame s s' -> is_writing i s -> is_writing i s'.
Proof.
  intros [_ Hq] (c & Hc & Hp). destruct (Forall2_lookup_l _ _ _ _ _ Hq Hc) as (d & Hd & _ & Hpd). exists d.
  split; [done|]. destruct Hpd as [|[? _]]; congruence.
Qed.

Lemma local_writing i k s s' : local_at k s s' -> k <> i -> is_writing i s -> is_writing i s'.
Proof. intros [_ Ho] Hne (c & Hc & Hp). exists c. split; [|done]. by rewrite Ho. Qed.

Lemma finish_local i o s : local_at i s (finish i o s).
Proof.
  unfold finish. destruct (commands s !! i) eqn:E; [|apply local_refl]. by eapply insert_local.
Qed.

Lemma write_writing i k how s : is_writing i s -> is_writing i (write k how s).1.
Proof.
  intros Hw. unfold write. destruct (commands s !! k) as [c|] eqn:E; [|done]. destruct (phase c) eqn:Ep; try done. destruct (negb _); [done|].
  assert (k <> i) as Hne by (intros ->; destruct Hw as (d & Hd & Hpd); congruence).
  destruct how; (eapply (local_writing i k); [|exact Hne|exact Hw]).
  - apply finish_local.
  - exact (proj1 (race_local k s c E)).
  - exact (proj1 (update_local k (with_phase Writing) s c E)).
Qed.

Lemma step_writing s i x : not_taken i x = true -> is_writing i s -> is_writing i (step s x).1.
Proof.
  intros Hx Hw. destruct x as [name id request now|k how|k taken|k|name chunk ring now|name handler|active now]; cbn [Ipc.step fst].
  - unfold send. destruct (validateRequest _ _ _); [|done]. destruct Hw as (c & Hc & Hp). exists c. split; [|done]. by apply lookup_app_l_Some.
  - by apply write_writing.
  - cbn [not_taken] in Hx. apply negb_true_iff, Nat.eqb_neq in Hx. unfold written. destruct (commands s !! k) as [c|] eqn:E; [|done].
    destruct (phase c); try done. eapply (local_writing i k); [|exact Hx|exact Hw]. destruct taken; [exact (proj1 (race_local k s c E))|apply finish_local].
  - eapply tame_writing; [apply timeout_tame|done].
  - destruct (readChunk _ _) as [ls rest]. eapply tame_writing; [apply lines_tame|]. exact Hw.
  - exact Hw.
  - exact Hw.
Qed.

Lemma run_writing ins : forall s i, forallb (not_taken i) ins = true -> is_writing i s -> is_writing i (run s ins).1.
Proof.
  induction ins as [|x ins IH]; intros s i Hi Hw; cbn [Ipc.run forallb] in *; [done|]. apply andb_true_iff in Hi as [Hx Hi].
  apply (step_writing s i x Hx) in Hw. destruct (step s x) as [s1 fx]. specialize (IH s1 i Hi Hw). by destruct (run s1 ins).
Qed.

(** An agent that stops reading its input blocks its queue for good: while the
    pipe does not take a request, neither the timer of the command nor
    anything else ends it, and every later command for the agent, remediation
    included, waits unwritten. *)
Theorem stalled_write_blocks ins ins' i j c d : let s := (run new ins).1 in let s' := (run s ins').1 in
  is_writing i s -> forallb (not_taken i) ins' = true ->
  commands s' !! i = Some c -> commands s' !! j = Some d -> (i < j)%nat -> c_name d = c_name c ->
  phase c = Writing /\ phase d = Queued.
Proof.
  intros s s' Hw Hi Hc Hd Hij Hn. destruct (run_writing ins' s i Hi Hw) as (c' & Hc' & Hp). fold s' in Hc'. simplify_eq. split; [done|].
  destruct (phase d) eqn:Ep; try done;
    (destruct (done_before s' j (run_lock_ok ins' s (run_lock_ok ins new new_lock_ok)) d Hd ltac:(congruence) i c Hij Hc (eq_sym Hn)); congruence).
Qed.

(** The timer of a command runs while the command still waits for its turn:
    when it fires then, the waiter is dropped and the command stays queued;
    it is written to the agent all the same when its turn comes, and
    reported to the caller as timed out. *)
Theorem queued_timeout_still_written s i c : commands s !! i = Some c -> phase c = Queued -> response c = None ->
  released s (prevLock c) = true -> prevLock c <> Some i ->
  let '(s', fx) := run s [ITimeout i; IWrite i Piped; IWritten i true] in
  fx = [EWrite i] /\ exists d, commands s' !! i = Some d /\ same c d /\ phase d = Done TimedOut.
Proof.
  intros E Hp Hresp Hr Hne. cbn [Ipc.run Ipc.step]. unfold timeout. rewrite E, Hp. unfold update at 1. rewrite E.
  set (s1 := removeWaiter _ _ _). set (c1 := mkCommand _ _ _ _ _ true _) in s1.
  assert (commands s1 !! i = Some c1) as E1 by (apply list_lookup_insert_eq; by eapply lookup_lt_Some).
  assert (released s1 (prevLock c1) = true) as Hr1.
  { cbn [prevLock c1]. destruct (prevLock c) as [j|]; [|done]. cbn [released] in *. subst s1. cbn [removeWaiter with_waiters with_commands commands].
    rewrite list_lookup_insert_ne by congruence. done. }
  unfold write. rewrite E1, Hr1. cbn [c1 phase negb]. rewrite Hp. destruct (update_local i (with_phase Writing) s1 c1 E1) as [_ E2].
  unfold written. rewrite E2. cbn [with_phase phase]. unfold race. rewrite E2. cbn [with_phase c1 response timedOut]. rewrite Hresp. split; [done|].
  eexists. split; [eapply insert_phase; [exact E2|by apply finish_commands]|done].
Qed.

(** ** A response reaches the command it names *)

Definition genuine (c : Command) (data : Json) : Prop := responseId data = Some (c_id c) /\ validateResponse data = true.

Record replies_ok (s : Coordinator) : Prop := mkRepliesOk {
  ro_waiter : forall name id i, JsMap.get (responseWaiters s) (name, id) = Some i ->
    exists c, commands s !! i = Some c /\ c_name c = name /\ c_id c = id;
  ro_answer : Forall (fun c => (forall r, response c = Some r -> genuine c r) /\ (forall r, phase c = Done (Answered r) -> genuine c r)) (commands s);
}.

Lemma replies_insert s s' i c d : replies_ok s -> commands s !! i = Some c -> same c d ->
  (forall r, response d = Some r -> genuine d r) -> (forall r, phase d = Done (Answered r) -> genuine d r) ->
  commands s' = <[i := d]> (commands s) ->
  (forall k j, JsMap.get (responseWaiters s') k = Some j -> JsMap.get (responseWaiters s) k = Some j) -> replies_ok s'.
Proof.
  intros [Hw Ha] E (Hn & Hid & _) Hr Hp Ec Hws. split.
  - intros name id j (x & Hx & Hxn & Hxi)%Hws%Hw. rewrite Ec. destruct (decide (j = i)) as [->|Hne].
    + simplify_eq. exists d. split; [apply list_lookup_insert_eq; by eapply lookup_lt_Some|done].
    + rewrite list_lookup_insert_ne by done. by exists x.
  - rewrite Ec. by apply Forall_insert.
Qed.

Lemma replies_same s s' : replies_ok s -> commands s' = commands s -> responseWaiters s' = responseWaiters s -> replies_ok s'.
Proof. intros [Hw Ha] Ec Ew. split; [by rewrite Ec, Ew|by rewrite Ec]. Qed.

Lemma get_remove name id s k j : JsMap.get (responseWaiters (removeWaiter name id s)) k = Some j -> JsMap.get (responseWaiters s) k = Some j.
Proof.
  unfold removeWaiter. cbn [responseWaiters with_waiters]. destruct (decide (k = (name, id))) as [->|Hne];
    [by rewrite JsMap.get_delete_eq|by rewrite JsMap.get_delete_ne by done].
Qed.

Lemma replies_remove name id s : replies_ok s -> replies_ok (removeWaiter name id s).
Proof. intros [Hw Ha]. split; [|done]. intros n k i Hi%get_remove. by apply Hw. Qed.

Lemma update_replies i f s : replies_ok s -> (forall c, same c (f c)) ->
  (forall c, commands s !! i = Some c -> (forall r, response (f c) = Some r -> genuine (f c) r) /\ (forall r, phase (f c) = Done (Answered r) -> genuine (f c) r)) ->
  replies_ok (update i f s).
Proof.
  intros Hs Hsame Hf. unfold update. destruct (commands s !! i) as [c|] eqn:E; [|done]. destruct (Hf c eq_refl) as [H1 H2].
  by eapply (replies_insert s _ i c (f c)).
Qed.

Lemma finish_replies i o s : replies_ok s -> (forall c r, commands s !! i = Some c -> o = Answered r -> genuine c r) -> replies_ok (finish i o s).
Proof.
  intros Hs Ho. unfold finish. destruct (commands s !! i) as [c|] eqn:E; [|done]. apply replies_remove.
  destruct (proj1 (Forall_lookup _ _) (ro_answer _ Hs) _ _ E) as [H1 H2].
  eapply (replies_insert s _ i c); [done|done| | | |reflexivity|done].
  - done.
  - exact H1.
  - intros r [= ->]. by apply (Ho c).
Qed.

Lemma answer_of s i c : replies_ok s -> commands s !! i = Some c ->
  (forall r, response c = Some r -> genuine c r) /\ (forall r, phase c = Done (Answered r) -> genuine c r).
Proof. intros Hs E. exact (proj1 (Forall_lookup _ _) (ro_answer _ Hs) _ _ E). Qed.

Lemma timeout_replies i s : replies_ok s -> replies_ok (timeout i s).
Proof.
  intros Hs. unfold timeout. destruct (commands s !! i) as [c|] eqn:E; [|done]. set (s1 := removeWaiter _ _ _).
  assert (replies_ok s1) as H1 by (apply replies_remove, update_replies; [done|done|intros d Hd; exact (answer_of s i d Hs Hd)]).
  destruct (phase c); [done|done| |done]. by apply finish_replies.
Qed.

Lemma resolve_replies i data s c : replies_ok s -> commands s !! i = Some c -> genuine c data -> replies_ok (resolve i data s).
Proof.
  intros Hs E Hg. unfold resolve. rewrite E. set (f := fun c => mkCommand _ _ _ _ _ _ _).
  assert (replies_ok (update i f s)) as H1.
  { apply update_replies; [done|done|]. intros d Hd. simplify_eq. split; [by intros r [= <-]|]. exact (proj2 (answer_of s i _ Hs E)). }
  destruct (phase c); try done. apply finish_replies; [done|]. intros d r Hd [= <-]. rewrite (update_lookup i f s c E) in Hd. by injection Hd as <-.
Qed.

Lemma ipcLine_replies name l now s : replies_ok s -> replies_ok (handleIpcLine JSON_parse redact name l now s).1.
Proof.
  intros Hs. unfold handleIpcLine. assert (replies_ok (recordHeartbeat name now s)) as Hr by (by eapply replies_same).
  destruct (tooDeep l); [done|]. destruct (JSON_parse _) as [data|]; [|done]. destruct (validateResponse data) eqn:Ev; [|done].
  destruct (responseId data) as [id|] eqn:Ei; [|done]. destruct (JsMap.get _ _) as [i|] eqn:Ew; [|done]. cbn [fst].
  destruct (ro_waiter _ Hr _ _ _ Ew) as (c & Hc & <- & <-). by apply replies_remove, resolve_replies with c.
Qed.

Lemma ipcLines_replies name ls now : forall s, replies_ok s -> replies_ok (handleIpcLines JSON_parse redact name ls now s).1.
Proof.
  induction ls as [|l ls IH]; intros s Hs; cbn [handleIpcLines]; [done|]. apply (ipcLine_replies name l now) in Hs.
  destruct (handleIpcLine _ _ _ _ _ _) as [s' fx]. specialize (IH s' Hs). by destruct (handleIpcLines _ _ _ _ _ _).
Qed.

Lemma line_replies name ring l now s : replies_ok s -> replies_ok (handleLine JSON_parse redact logMessage name ring l now s).1.
Proof.
  intros Hs. unfold handleLine. destruct (_ <? _); [done|]. destruct (Cidr.trim l) as [|c t]; [done|].
  set (s1 := if _ || _ then _ else _). assert (replies_ok s1) as H1 by (subst s1; destruct (_ || _); [by eapply replies_same|done]).
  case_bool_decide; [done|]. destruct (startsWith _ (js "SHMEM_UPDATE:")); [by apply ipcLines_replies|].
  destruct (if startsWith _ _ then _ else _); [done|]. by apply ipcLine_replies.
Qed.

Lemma lines_replies name ring ls now : forall s, replies_ok s -> replies_ok (handleLines JSON_parse redact logMessage name ring ls now s).1.
Proof.
  induction ls as [|l ls IH]; intros s Hs; cbn [handleLines]; [done|]. apply (line_replies name ring l now) in Hs.
  destruct (handleLine _ _ _ _ _ _ _ _) as [s' fx]. specialize (IH s' Hs). by destruct (handleLines _ _ _ _ _ _ _ _).
Qed.

Lemma send_replies name id request now s : replies_ok s -> replies_ok (send gateway name id request now s).
Proof.
  intros Hs. unfold send. assert (replies_ok (recordHeartbeat name now s)) as Hr by (by eapply replies_same).
  destruct (validateRequest _ _ _); [|done]. destruct Hs as [Hw Ha]. split; cbn [commands responseWaiters recordHeartbeat with_heartbeats].
  - intros n k i. destruct (decide ((n, k) = (name, id))) as [[= -> ->]|Hne].
    + rewrite JsMap.get_set_eq. intros [= <-]. eexists. split; [by apply list_lookup_middle|done].
    + rewrite JsMap.get_set_ne by congruence. intros (c & Hc & Hcn)%Hw. exists c. split; [by apply lookup_app_l_Some|done].
  - apply Forall_app. split; [done|]. by repeat constructor.
Qed.

Lemma phase_replies i p s : replies_ok s -> (forall r, p <> Done (Answered r)) -> replies_ok (update i (with_phase p) s).
Proof.
  intros Hs Hp. apply update_replies; [done|done|]. intros d Hd. split; [exact (proj1 (answer_of s i d Hs Hd))|].
  cbn [phase with_phase]. intros r E. by destruct (Hp r).
Qed.

Lemma race_replies i s : replies_ok s -> replies_ok (race i s).
Proof.
  intros Hs. unfold race. destruct (commands s !! i) as [c|] eqn:E; [|done]. destruct (response c) as [r|] eqn:Er; [|destruct (timedOut c)].
  - apply finish_replies; [done|]. intros d r' Hd [= <-]. simplify_eq. exact (proj1 (answer_of s i _ Hs E) _ Er).
  - by apply finish_replies.
  - by apply phase_replies.
Qed.

Lemma write_replies i how s : replies_ok s -> replies_ok (write i how s).1.
Proof.
  intros Hs. unfold write. destruct (commands s !! i) as [c|] eqn:E; [|done]. destruct (phase c) eqn:Ep; [|done..].
  destruct (negb (released _ _)); [done|]. destruct how; [by apply finish_replies|by apply race_replies|by apply phase_replies].
Qed.

Lemma written_replies i taken s : replies_ok s -> replies_ok (written i taken s).
Proof.
  intros Hs. unfold written. destruct (commands s !! i) as [c|]; [|done]. destruct (phase c); try done.
  destruct taken; [by apply race_replies|by apply finish_replies].
Qed.

Lemma step_replies s i : replies_ok s -> replies_ok (step s i).1.
Proof.
  intros Hs. destruct i as [name id request now|i how|i taken|i|name chunk ring now|name handler|active now]; cbn [Ipc.step].
  - by apply send_replies.
  - by apply write_replies.
  - by apply written_replies.
  - by apply timeout_replies.
  - destruct (readChunk _ _) as [ls rest]. apply lines_replies. by eapply replies_same.
  - by eapply replies_same.
  - by eapply replies_same.
Qed.

Lemma run_replies ins : forall s, replies_ok s -> replies_ok (run s ins).1.
Proof.
  induction ins as [|i ins IH]; intros s Hs; cbn [Ipc.run]; [done|]. apply (step_replies s i) in Hs.
  destruct (step s i) as [s' fx]. specialize (IH s' Hs). by destruct (run s' ins).
Qed.

(** A command is answered by its own reply: over any interleaving, the data
    a command returns with is a message that passed the response schema and
    carries the id of that very command. *)
Theorem answered_by_own_reply ins c data : c ∈ commands (run new ins).1 -> phase c = Done (Answered data) ->
  responseId data = Some (c_id c) /\ validateResponse data = true.
Proof.
  intros [i Hi]%list_elem_of_lookup Hp. assert (replies_ok new) as Hn by (split; [done|constructor]).
  exact (proj2 (answer_of _ _ _ (run_replies ins new Hn) Hi) _ Hp).
Qed.
End commands.

(** ** Witnesses *)

#[local] Instance plain_paths : StdPath :=
  {| normalize := fun p => p; join_path := fun a b => a ++ js "/" ++ b; Paths.resolve := fun p => p;
     dirname := fun p => p; realPathSync := fun p => Some p |}.

Lemma depth_limit_exact_witness : nested 1 (js "{x}") /\ (tooDeep (js "{x}") = true <-> MAX_DEPTH < 1).
Proof.
  assert (nested 1 (js "{x}")) as Hn.
  { apply (nested_group 123 125 [120] 0 [] 0); [by left| |constructor]. apply nested_char; [|constructor].
    apply (bool_decide_eq_true_1 (120 ∉ [34; 92; 123; 125; 91; 93])). reflexivity. }
  split; [exact Hn|exact (depth_limit_exact 1 _ Hn)].
Defined.

Definition two_reads : list Chunk := [mkChunk 3 (js "a" ++ [10] ++ js "b") []; mkChunk 3 (js "c" ++ [10] ++ js "d") []].

Lemma framing_exact_witness : fits [] two_reads = true /\
  (let '(ls, rest) := readAll [] two_reads in ls ++ [rest] = split (concat (map decoded two_reads)) [10]).
Proof. split; [vm_compute; reflexivity|]. apply (framing_exact two_reads). vm_compute. reflexivity. Defined.

Definition reply : Json := JObj [("id", JStr (js "7")); ("success", JBool true)].
Definition parse_reply (s : jsstr) : option Json := if bool_decide (s = js "ok") then Some reply else None.
Definition block : Json := JObj [("id", JStr (js "7")); ("type", JStr (js "BlockIp")); ("ip", JStr (js "203.0.113.7"))].
Definition queued : Coordinator := send None "enforcer" (js "7") block 0 new.
Definition queued_block : Command := mkCommand "enforcer" (js "7") block None None false Queued.

Lemma queued_timeout_still_written_witness : commands queued !! 0%nat = Some queued_block /\
  let '(s', fx) := run None parse_reply id (fun _ => []) queued [ITimeout 0; IWrite 0 Piped; IWritten 0 true] in
  fx = [EWrite 0] /\ exists d, commands s' !! 0%nat = Some d /\ same queued_block d /\ phase d = Done TimedOut.
Proof.
  split; [vm_compute; reflexivity|].
  apply (queued_timeout_still_written None parse_reply id (fun _ => []) queued 0 queued_block); vm_compute; done.
Defined.

Definition exchange : list input :=
  [ISend "enforcer" (js "7") block 0; IWrite 0 Piped; IWritten 0 true; IRead "enforcer" (mkChunk 3 (js "ok" ++ [10]) []) [] 1].
Definition answered : Command := mkCommand "enforcer" (js "7") block None (Some reply) false (Done (Answered reply)).

Lemma answered_by_own_reply_witness : commands (run None parse_reply id (fun _ => []) new exchange).1 = [answered] /\
  responseId reply = Some (c_id answered) /\ validateResponse reply = true.
Proof.
  split; [vm_compute; reflexivity|]. apply (answered_by_own_reply None parse_reply id (fun _ => []) exchange answered reply); [|reflexivity].
  replace (commands _) with [answered] by (vm_compute; reflexivity). apply list_elem_of_here.
Defined.

(** The agent never reads; its timers fire. *)
Definition stalled0 : list input := [ISend "enforcer" (js "7") block 0; IWrite 0 Piped].
Definition waiting0 : list input := [ISend "enforcer" (js "8") block 0; ITimeout 0; IWrite 1 Piped; ITimeout 1; IWrite 1 Piped].

Lemma stalled_write_blocks_witness :
  let s' := (run None parse_reply id (fun _ => []) (run None parse_reply id (fun _ => []) new stalled0).1 waiting0).1 in
  exists c d, commands s' !! 0%nat = Some c /\ commands s' !! 1%nat = Some d /\ phase c = Writing /\ phase d = Queued.
Proof.
  eexists _, _. split; [vm_compute; reflexivity|]. split; [vm_compute; reflexivity|].
  apply (stalled_write_blocks None parse_reply id (fun _ => []) stalled0 waiting0 0 1);
    [eexists; split; vm_compute; reflexivity|reflexivity|vm_compute; reflexivity|vm_compute; reflexivity|lia|reflexivity].
Defined.
End Ipc.
