(* ===== verification/Launch.v ===== *)
(** * Starting an agent

    Models how the orchestrator finds, verifies and starts a sidecar:
    [src/orchestrator/infrastructure/runtime/sidecar_registry.ts]
    ([SIDECAR_REGISTRY]), [sidecar_repository.ts] ([loadManifest],
    [findBinary]), [integrity_manager.ts] ([verifyAndHeal]),
    [sidecar_spawner.ts] ([spawn]) and the closure of [getPersistentSidecar] in
    [sidecar_manager.ts] that puts them together.  The programs it calls go
    through the executor policies of [Executor].  The file system, the native
    library, the signature check and the outcome of a program are parameters,
    each of which may depend on the effects performed so far. *)

From S2P Require Import Prelude Result Effects JsString Regex Cidr Net Paths Schemas ExecPolicy Executor.
From Stdlib Require Import QArith.

Local Open Scope Z_scope.

Module Launch.
Import JsString Paths Schemas ExecPolicy Executor Effects.

(** ** The registry *)

Record SidecarConfig := mkSidecar {
  sc_name : string; persistent : bool; privileged : bool; critical : bool;
  binaryName : option jsstr; capabilities : option jsstr; cpu : option jsstr; memory : option jsstr;
}.

Definition agent (name : string) (privileged critical : bool) (capabilities : string) : SidecarConfig :=
  mkSidecar name true privileged critical (Some (js name)) (match js capabilities with [] => None | c => Some c end) None None.

Definition SIDECAR_REGISTRY : list SidecarConfig :=
  [agent "tunnel" true false "cap_net_admin+ep";
   agent "enforcer" true true "cap_net_admin,cap_kill+ep";
   mkSidecar "mesh" true true false None (Some (js "cap_net_bind_service+ep")) None None;
   mkSidecar "analyzer" true false false (Some (js "analyzer")) None (Some (js "40%")) (Some (js "1024M"));
   agent "decoy" true false "";
   mkSidecar "sentinel" true true true (Some (js "sentinel")) (Some (js "cap_sys_admin,cap_net_admin,cap_sys_resource+ep"))
     (Some (js "15%")) (Some (js "256M"));
   agent "watchfile" true true "";
   agent "netcap" true false "cap_net_raw,cap_net_admin+ep";
   agent "trustroot" true true "";
   agent "sentinel-darwin" true false "";
   agent "telemetry-win" true false "";
   agent "enforcer-win" true false ""].

(** [SIDECAR_REGISTRY[name]] *)
Definition registered (name : string) : option SidecarConfig := find (fun c => bool_decide (sc_name c = name)) SIDECAR_REGISTRY.

Definition PERSISTENT_SIDECARS : list string := map sc_name (List.filter persistent SIDECAR_REGISTRY).

(** ** Configuration, manifest and devices *)

Record Config := mkConfig { getEnv : jsstr -> option jsstr; devMode : bool }.

Record FileInfo := mkInfo { isFile : bool; mode : option Z }.

Inductive effect :=
| ESpawn (program : jsstr) (argv : list jsstr)              (* through the executor *)
| EMemfd (name : string) (path : jsstr)                     (* a file is loaded into a sealed memory file *)
| EExec (program : jsstr) (args : list jsstr) (env : list (string * jsstr))   (* the agent starts *)
| EError (type : string) (name : string).                   (* a SYSTEM_ERROR event *)

(** [toUpperCase] on the ASCII letters. *)
Definition upper (c : Z) : Z := if (97 <=? c) && (c <=? 122) then c - 32 else c.

Definition nonempty (o : option jsstr) : option jsstr := match o with Some (c :: s) => Some (c :: s) | _ => None end.

Section launch.
Local Open Scope act_scope.

Context `{StdPath} `{Zod} (basename : jsstr -> jsstr) (JSON_parse : jsstr -> option Json).
(** The configuration; [Deno.uid() === 0], [Deno.build.os], [Deno.build.arch],
    [Deno.pid], the presence of systemd and the default interface. *)
Context (config : Config) (root linux windows : bool) (arch : string) (ownPid : Z) (systemd : bool) (interface : jsstr).
(** The native hash of a file ([null] without the library), [Deno.stat],
    [Deno.realPath] (exceptions are [None]), whether [Deno.readFile] succeeds,
    the descriptor of a sealed copy, and the answers of programs. *)
Context (ffiHash : list effect -> jsstr -> option jsstr) (stat : list effect -> jsstr -> option FileInfo)
        (realPath : list effect -> jsstr -> option jsstr) (readable : list effect -> jsstr -> bool)
        (memfd : list effect -> string -> jsstr -> Z) (answer : list effect -> effect -> settled (bool * jsstr) unit)
        (started : list effect -> effect -> settled unit unit).
(** The Ed25519 check of a manifest's signature under the developer's key;
    [None] when it throws. *)
Context (verify : Json -> option Json -> option bool).

Definition production : bool := bool_decide (getEnv config (js "ENVIRONMENT") = Some (js "production")).

(** [SystemExecutor.execute]: refusals and exceptions are failed results. *)
Definition execute (cmd : jsstr) (args : list jsstr) : act effect (bool * jsstr) :=
  match spawned basename JSON_parse root cmd args with
  | Some (program, argv) => attempt (ask answer (ESpawn program argv)) (false, [])
  | None => ret (false, [])
  end.

(** ** The manifest *)

(** Neither [null] nor [undefined]. *)
Definition present (v : option Json) : option Json := match v with Some JNull => None | _ => v end.
Definition isText (v : option Json) (t : jsstr) : bool := match v with Some (JStr s) => bool_decide (s = t) | _ => false end.

Definition signatureVerified (data : Json) : bool :=
  match prop data "signature" with
  | Some sig => truthy (Some sig) && negb (isText (Some sig) (js "unsigned")) && default false (verify sig (prop data "sidecars"))
  | None => false
  end.

(** [loadManifest]: what it reads, the manifest afterwards, and whether it threw. *)
Definition loadManifest (content : option jsstr) (manifest : option Json) : option Json * settled unit unit :=
  match present (content ≫= JSON_parse) with
  | None => (manifest, if production then Rejected tt else Resolved tt)
  | Some data =>
      (Some data, if negb (signatureVerified data) && production && negb (truthy (prop data "upgrade_token")) then Rejected tt else Resolved tt)
  end.

(** [manifest?.sidecars?.[name]?.architectures[arch]?.hash]; [None] when it throws. *)
Definition manifestHash (manifest : option Json) (name : string) : option (option Json) :=
  match present (manifest ≫= fun m => prop m "sidecars") ≫= fun s => present (prop s name) with
  | None => Some None
  | Some entry =>
      match present (prop entry "architectures") with
      | None => None
      | Some archs => Some (present (prop archs arch) ≫= fun a => prop a "hash")
      end
  end.

(** ** Integrity *)

Definition calculateHash (path : jsstr) : act effect (option jsstr) :=
  let! h := observe (fun h => ffiHash h path) in
  match nonempty h with
  | Some hash => ret (Some hash)
  | None =>
      let! (success, stdout) := execute (js "sha256sum") [path] in
      ret (if success && negb (bool_decide (stdout = [])) then Some (Cidr.trim (List.hd [] (split stdout (js " ")))) else None)
  end.

(** [hash === goldenHash] *)
Definition sameHash (hash : option jsstr) (golden : option Json) : bool :=
  match hash, golden with Some h, Some (JStr g) => bool_decide (h = g) | _, _ => false end.

Definition goldenPath (name : string) : jsstr := js "./volume/storage/agents/golden/" ++ js name.

Definition healFromGolden (name : string) (binPath : jsstr) (golden : option Json) : act effect bool :=
  let! info := observe (fun h => stat h (goldenPath name)) in
  match info with
  | Some i =>
      if isFile i then
        let! _ := execute (js "cp") [js "-p"; goldenPath name; binPath] in
        let! healed := calculateHash binPath in ret (sameHash healed golden)
      else ret false
  | None => ret false
  end.

Definition verifyAndHeal (name : string) (binPath : jsstr) (manifest : option Json) (force : bool) : act effect bool :=
  let! current := calculateHash binPath in
  match nonempty current, force with
  | None, false => ret false
  | _, _ =>
      match manifestHash manifest name with
      | None => raise
      | Some mh =>
          let golden :=
            if production then mh
            else if truthy mh then mh else option_map JStr (getEnv config (js "CTS_HASH_" ++ map upper (js name))) in
          if production && negb (truthy mh) then ret false
          else if negb force && (negb (truthy golden) || sameHash current golden) then ret true
          else healFromGolden name binPath golden
      end
  end.

(** ** The binary *)

Definition candidates (name : string) : list jsstr :=
  let binName := default (js name) (registered name ≫= fun c => nonempty (binaryName c)) in
  let file := binName ++ (if windows then js ".exe" else []) in
  List.filter (fun p => negb (bool_decide (p = [])))
    ([default [] (getEnv config (js "CTS_BINARY_" ++ map upper (js name)));
      js "/opt/cts/bin/" ++ file; js "/usr/local/bin/cts-" ++ file; js "./agents/" ++ file; js "./bin/agents/" ++ file]
     ++ if devMode config
        then [js "./src/agents/target/release/" ++ file; js "./src/agents/target/debug/" ++ file;
              js "./target/release/" ++ file; js "./target/debug/" ++ file]
        else []).

Definition firstFile (h : list effect) (paths : list jsstr) : option jsstr :=
  List.fold_right (fun p rest =>
    match stat h p with
    | Some i => if isFile i then match realPath h p with Some r => Some r | None => rest end else rest
    | None => rest
    end) None paths.

Definition findBinary (name : string) : act effect (option jsstr) := observe (fun h => firstFile h (candidates name)).

(** ** Spawning *)

Definition SECURE_SPAWN : jsstr := js "/var/lib/cts/scripts/secure_spawn.sh".
Definition installed (name : string) : jsstr := js "/var/lib/cts/bin/" ++ js name.

(** A file, and on Unix one with an execute bit when the mode is known. *)
Definition runnable (i : FileInfo) : bool :=
  isFile i && (windows || match mode i with Some m => (m =? 0) || negb (Z.land m 73 =? 0) | None => true end).

Definition execPathOf (name : string) (binPath : jsstr) : act effect jsstr :=
  if devMode config then ret binPath
  else
    let caps := default [] (registered name ≫= capabilities) in
    let! (success, _) := execute SECURE_SPAWN [js name; binPath; caps; js "none"] in
    if success then ret (installed name)
    else if production then raise else ret binPath.

(** The sealed copy in memory, when it can be made. *)
Definition sealed (name : string) (execPath : jsstr) : act effect jsstr :=
  if linux && negb (devMode config) then
    let! canRead := observe (fun h => readable h execPath) in
    if canRead then
      let! _ := emit (EMemfd name execPath) in
      let! fd := observe (fun h => memfd h name execPath) in
      ret (if 0 <=? fd then js "/proc/" ++ decimal ownPid ++ js "/fd/" ++ decimal fd else execPath)
    else ret execPath
  else ret execPath.

Definition scopeArgs (name : string) (execPath : jsstr) : list jsstr :=
  let c := registered name in
  [js "--scope"; js "--quiet";
   js "-p"; js "CPUQuota=" ++ default (js "25%") (c ≫= fun c => nonempty (cpu c));
   js "-p"; js "MemoryMax=" ++ default (js "512M") (c ≫= fun c => nonempty (memory c));
   js "-p"; js "MemorySwapMax=0"; js "-p"; js "TasksMax=100"; js "-p"; js "ProtectProc=invisible";
   js "-p"; js "ProcSubset=pid"; js "-p"; js "PrivateTmp=yes"; js "-p"; js "PrivateDevices=yes";
   js "-p"; js "NoNewPrivileges=yes"; execPath].

Definition spawn (name : string) (binPath : jsstr) (env : list (string * jsstr)) : act effect unit :=
  let! info := observe (fun h => stat h binPath) in
  match info with
  | Some i =>
      if runnable i then
        let! execPath := execPathOf name binPath in
        let! execPath := sealed name execPath in
        if linux && root && systemd then ask started (EExec (js "systemd-run") (scopeArgs name execPath) env)
        else ask started (EExec execPath [] env)
      else raise
  | None => raise
  end.

Definition getSidecarEnv (name : string) : list (string * jsstr) :=
  [("CTS_SIDECAR_NAME", js name); ("RUST_LOG", js "info")]%string
  ++ (if bool_decide (name ∈ ["sentinel"; "netcap"]%string) then [("CTS_IFACE", interface)]%string else [])
  ++ match nonempty (getEnv config (js "MESH_SECRET")) with Some s => [("CTS_MESH_SECRET", s)]%string | None => [] end
  ++ (if bool_decide (name = "netcap"%string) then [("CTS_CAPTURE_DIR", js "./volume/storage/captures")]%string else []).

(** The closure of [getPersistentSidecar]: whether there is a child. *)
Definition tryStart (manifest : option Json) (name : string) : act effect bool :=
  let! bin := findBinary name in
  match bin with
  | None => let! _ := emit (EError "SIDECAR_NOT_FOUND" name) in ret false
  | Some binPath =>
      let! healthy := (if devMode config then ret true else verifyAndHeal name binPath manifest false) in
      if healthy then let! _ := spawn name binPath (getSidecarEnv name) in ret true
      else ret false
  end.

Definition startSidecar (manifest : option Json) (name : string) : act effect bool := fun h =>
  match tryStart manifest name h with
  | (fx, Rejected _) => (fx ++ [EError "SIDECAR_SPAWN_FAILED" name], Resolved false)
  | r => r
  end.
(** ** What a start does *)

Definition exec (e : effect) : Prop := match e with EExec _ _ _ => True | _ => False end.
Definition quiet (e : effect) : Prop := ~ exec e.

Lemma quiet_execute cmd args : within quiet (execute cmd args).
Proof. unfold execute. destruct (spawned _ _ _ _ _) as [[program argv]|]; [apply within_attempt, within_ask; by intros []|apply within_ret]. Qed.

Lemma quiet_hash path : within quiet (calculateHash path).
Proof.
  apply within_bind; [apply within_observe|]. intros o. destruct (nonempty o); [apply within_ret|].
  apply within_bind; [apply quiet_execute|]. intros [b out]. apply within_ret.
Qed.

Lemma quiet_heal name binPath golden : within quiet (healFromGolden name binPath golden).
Proof.
  apply within_bind; [apply within_observe|]. intros [i|]; [|apply within_ret]. destruct (isFile i); [|apply within_ret].
  apply within_bind; [apply quiet_execute|]. intros _. apply within_bind; [apply quiet_hash|]. intros hash. apply within_ret.
Qed.

Lemma quiet_verify name binPath manifest force : within quiet (verifyAndHeal name binPath manifest force).
Proof.
  apply within_bind; [apply quiet_hash|]. intros current.
  assert (within quiet match manifestHash manifest name with
    | None => raise
    | Some mh =>
        let golden := if production then mh else if truthy mh then mh else option_map JStr (getEnv config (js "CTS_HASH_" ++ map upper (js name))) in
        if production && negb (truthy mh) then ret false
        else if negb force && (negb (truthy golden) || sameHash current golden) then ret true
        else healFromGolden name binPath golden
    end) as Hw.
  { destruct (manifestHash manifest name) as [mh|]; [|apply within_raise]. cbv zeta. destruct (_ && _); [apply within_ret|].
    destruct (_ && _); [apply within_ret|apply quiet_heal]. }
  destruct (nonempty current), force; try exact Hw. apply within_ret.
Qed.

Lemma exec_not_quiet {A} (m : act effect A) h e : within quiet m -> exec e -> e ∉ (m h).1.
Proof. intros Hw He Hin. exact (proj1 (Forall_forall _ _) (Hw h) e Hin He). Qed.

(** What a passed check has seen in production. *)
Lemma verified name binPath manifest h fx : production = true -> verifyAndHeal name binPath manifest false h = (fx, Resolved true) ->
  exists g h', h `prefix_of` h' /\ manifestHash manifest name = Some (Some (JStr g)) /\ (calculateHash binPath h').2 = Resolved (Some g).
Proof.
  intros Hp Hv. apply bind_resolved in Hv as (fx1 & current & fx2 & Hc & Hv & ->). rewrite Hp in Hv.
  assert (forall o g, sameHash o g = true -> exists s, o = Some s /\ g = Some (JStr s)) as Hsame.
  { intros [o|] [[]|]; cbn; try done. intros <-%bool_decide_eq_true. eauto. }
  destruct (nonempty current) eqn:En; [|by injection Hv]. destruct (manifestHash manifest name) as [mh|]; [|done]. cbn [andb negb] in Hv.
  destruct (truthy mh) eqn:Et; [|done]. cbn [negb orb] in Hv. destruct (sameHash current mh) eqn:Es.
  - destruct (Hsame _ _ Es) as (g & -> & ->). exists g, h. by rewrite Hc.
  - apply bind_resolved in Hv as (fx3 & info & fx4 & Hi & Hv & ->). destruct info as [i|]; [|done]. destruct (isFile i); [|done].
    apply bind_resolved in Hv as (fx5 & res & fx6 & Hr & Hv & ->). apply bind_resolved in Hv as (fx7 & healed & fx8 & Hh & Hv & ->).
    injection Hv as _ Hv. destruct (Hsame _ _ Hv) as (g & -> & ->). eexists g, _. split; [|split; [done|by rewrite Hh]].
    rewrite <- !app_assoc. by eexists.
Qed.

(** The provisioning script refuses an empty argument. *)
Lemma secure_spawn_policy : policy_of JSON_parse SECURE_SPAWN = Some (only (matching (Regex.plus (cls "a-z0-9,._+/-")) 4)).
Proof. reflexivity. Qed.

Lemma secure_spawn_nonempty args r : spawned basename JSON_parse root SECURE_SPAWN args = Some r -> [] ∉ args.
Proof.
  destruct r as [program argv]. intros (_ & Hv & _)%spawned_valid Hin.
  destruct (validateArguments_ok _ _ _ _ Hv) as (policy & Hp & Hs & _). rewrite secure_spawn_policy in Hp.
  destruct Hp as [[= <-]|[? _]]; [|done]. cbn [schema only] in Hs. unfold matching in Hs. rewrite zod_check, zod_array in Hs.
  apply andb_true_iff in Hs as [Hs _]. rewrite forallb_forall in Hs. specialize (Hs (JStr []) ltac:(by apply in_map, list_elem_of_In)).
  by rewrite zod_check, zod_string in Hs.
Qed.

Lemma execute_success cmd args h fx out : execute cmd args h = (fx, Resolved (true, out)) ->
  exists program argv, spawned basename JSON_parse root cmd args = Some (program, argv) /\ fx = [ESpawn program argv] /\
    answer h (ESpawn program argv) = Resolved (true, out).
Proof.
  unfold execute. destruct (spawned _ _ _ _ _) as [[program argv]|]; [|done]. unfold attempt, ask.
  destruct (answer h (ESpawn program argv)) as [r|] eqn:Ea; [|done]. intros [= <- ->]. eauto.
Qed.

Definition provisioned (name : string) (bin caps : jsstr) : Prop :=
  exists program argv h out, spawned basename JSON_parse root SECURE_SPAWN [js name; bin; caps; js "none"] = Some (program, argv) /\
    answer h (ESpawn program argv) = Resolved (true, out).

(** In production the path comes from the provisioning script. *)
Lemma execPath_production name bin h fx p : production = true -> devMode config = false -> execPathOf name bin h = (fx, Resolved p) ->
  p = installed name /\ exists caps, (registered name ≫= capabilities) = Some caps /\ provisioned name bin caps.
Proof.
  unfold execPathOf. intros Hp -> Hx. apply bind_resolved in Hx as (fx1 & [success out] & fx2 & He & Hx & ->).
  destruct success; [|by rewrite Hp in Hx]. injection Hx as _ <-. split; [done|].
  apply execute_success in He as (program & argv & Hs & _ & Ha). pose proof (secure_spawn_nonempty _ _ Hs) as Hn.
  destruct (registered name ≫= capabilities) as [caps|]; [|destruct Hn; cbn; set_solver]. exists caps. split; [done|].
  by exists program, argv, h, out.
Qed.

(** The file that is started: the path itself or its sealed copy. *)
Definition image (path target : jsstr) : Prop := target = path \/ exists fd, 0 <= fd /\ target = js "/proc/" ++ decimal ownPid ++ js "/fd/" ++ decimal fd.

Lemma sealed_image name p h fx t : sealed name p h = (fx, Resolved t) -> image p t.
Proof.
  unfold sealed. destruct (linux && negb (devMode config)); [|intros [= _ <-]; by left]. intros Hx.
  apply bind_resolved in Hx as (fx1 & canRead & fx2 & _ & Hx & ->). destruct canRead; [|injection Hx as _ <-; by left].
  apply bind_resolved in Hx as (fx3 & [] & fx4 & _ & Hx & ->). apply bind_resolved in Hx as (fx5 & fd & fx6 & _ & Hx & ->).
  injection Hx as _ <-. destruct (Z.leb_spec 0 fd); [right; by exists fd|by left].
Qed.

Lemma quiet_execPath name bin : within quiet (execPathOf name bin).
Proof.
  unfold execPathOf. destruct (devMode config); [apply within_ret|]. apply within_bind; [apply quiet_execute|]. intros [[] out]; [apply within_ret|].
  destruct production; [apply within_raise|apply within_ret].
Qed.

Lemma quiet_sealed name p : within quiet (sealed name p).
Proof.
  unfold sealed. destruct (_ && _); [|apply within_ret]. apply within_bind; [apply within_observe|]. intros []; [|apply within_ret].
  apply within_bind; [apply within_emit; by intros []|]. intros _. apply within_bind; [apply within_observe|]. intros fd. apply within_ret.
Qed.

(** Where the start of an agent comes from. *)
Lemma spawn_exec name bin env h program args env' : EExec program args env' ∈ (spawn name bin env h).1 ->
  exists h1 fx1 p, execPathOf name bin h1 = (fx1, Resolved p) /\ env' = env /\
    exists t, image p t /\ (program = js "systemd-run" /\ args = scopeArgs name t \/ program = t /\ args = []).
Proof.
  intros Hin. apply bind_elem in Hin as [Hin|(fx0 & info & E & Hin)]; [by apply (exec_not_quiet _ _ _ (within_observe _ _)) in Hin|].
  destruct info as [i|]; [|by inversion Hin]. destruct (runnable i); [|by inversion Hin].
  apply bind_elem in Hin as [Hin|(fx1 & p & Hp & Hin)]; [by apply (exec_not_quiet _ _ _ (quiet_execPath _ _)) in Hin|].
  apply bind_elem in Hin as [Hin|(fx2 & t & Ht & Hin)]; [by apply (exec_not_quiet _ _ _ (quiet_sealed _ _)) in Hin|].
  exists (h ++ fx0), fx1, p. split; [done|]. apply sealed_image in Ht.
  destruct (linux && root && systemd); apply list_elem_of_singleton in Hin; injection Hin as -> -> ->; (split; [done|]); exists t; split; auto.
Qed.

Lemma start_exec manifest name h program args env : devMode config = false -> EExec program args env ∈ (startSidecar manifest name h).1 ->
  exists bin fx, firstFile h (candidates name) = Some bin /\ verifyAndHeal name bin manifest false h = (fx, Resolved true) /\
    EExec program args env ∈ (spawn name bin (getSidecarEnv name) (h ++ fx)).1.
Proof.
  intros Hd Hin. assert (EExec program args env ∈ (tryStart manifest name h).1) as Ht.
  { unfold startSidecar in Hin. destruct (tryStart manifest name h) as [fx [b|]]; [done|]. cbn [fst] in *.
    apply elem_of_app in Hin as [Hin|Hin%list_elem_of_singleton]; [done|discriminate]. }
  clear Hin. unfold tryStart, findBinary in Ht. rewrite Hd in Ht.
  apply bind_elem in Ht as [Ht|(fx0 & bin & E & Ht)]; [by inversion Ht|]. injection E as <- <-. rewrite app_nil_r in Ht.
  destruct (firstFile h (candidates name)) as [bin|]; [|].
  - apply bind_elem in Ht as [Ht|(fx & healthy & Hv & Ht)]; [by apply (exec_not_quiet _ _ _ (quiet_verify _ _ _ _)) in Ht|].
    destruct healthy; [|by inversion Ht]. apply bind_elem in Ht as [Ht|(fx' & [] & _ & Ht)]; [by exists bin, fx|by inversion Ht].
  - apply bind_elem in Ht as [Ht|(fx & [] & _ & Ht)]; [by apply list_elem_of_singleton in Ht|by inversion Ht].
Qed.

(** C16: in production an agent is only started from a vetted image: when the
    orchestrator creates the process of an agent, the first binary of the
    search path had, at some point after the request, exactly the hash the
    manifest gives for it, the provisioning script accepted it with the
    capabilities of the registry, and what is executed is the installed copy
    or its sealed copy in memory, possibly inside a systemd scope. *)
Theorem production_spawn_guarded manifest name h program args env : production = true -> devMode config = false ->
  EExec program args env ∈ (startSidecar manifest name h).1 ->
  exists bin g h' caps,
    firstFile h (candidates name) = Some bin /\
    manifestHash manifest name = Some (Some (JStr g)) /\ h `prefix_of` h' /\ (calculateHash bin h').2 = Resolved (Some g) /\
    (registered name ≫= capabilities) = Some caps /\ provisioned name bin caps /\
    (exists t, image (installed name) t /\ (program = js "systemd-run" /\ args = scopeArgs name t \/ program = t /\ args = [])) /\
    env = getSidecarEnv name.
Proof.
  intros Hp Hd (bin & fx & Hf & Hv & Hin)%start_exec; [|done]. destruct (verified _ _ _ _ _ Hp Hv) as (g & h' & Hpre & Hm & Hh).
  destruct (spawn_exec _ _ _ _ _ _ _ Hin) as (h1 & fx1 & p & Hx & -> & Himg). destruct (execPath_production _ _ _ _ _ Hp Hd Hx) as (-> & caps & Hc & Hprov).
  exists bin, g, h', caps. by split_and!.
Qed.

(** An agent without capabilities is never started in production: the
    policy of the provisioning script refuses the empty argument that stands
    for no capabilities, so analyzer, decoy, watchfile and trustroot, two of
    them marked critical, cannot run. *)
Theorem capless_never_started manifest name h program args env : production = true -> devMode config = false ->
  name ∈ ["analyzer"; "decoy"; "watchfile"; "trustroot"]%string -> EExec program args env ∉ (startSidecar manifest name h).1.
Proof.
  intros Hp Hd Hn (bin & fx & _ & _ & Hin)%start_exec; [|done].
  destruct (spawn_exec _ _ _ _ _ _ _ Hin) as (h1 & fx1 & p & Hx & _). destruct (execPath_production _ _ _ _ _ Hp Hd Hx) as (_ & caps & Hc & _).
  repeat (apply elem_of_cons in Hn as [->|Hn]; [by vm_compute in Hc|]). by apply not_elem_of_nil in Hn.
Qed.

(** ** Healing *)

Lemma cp_policy : policy_of JSON_parse (js "cp") = Some (only CP_SCHEMA).
Proof. reflexivity. Qed.

(** A copy onto a path outside the jails is refused. *)
Lemma cp_refused src dst : validatePath dst SYSTEM_JAILS = false -> is_flag dst = false ->
  spawned basename JSON_parse root (js "cp") [js "-p"; src; dst] = None.
Proof.
  intros Hv Hf. destruct (spawned _ _ _ _ _) as [[program argv]|] eqn:E; [|done]. apply spawned_valid in E as (_ & Ha & _).
  destruct (validateArguments_ok _ _ _ _ Ha) as (policy & Hp & Hs & _). rewrite cp_policy in Hp. destruct Hp as [[= <-]|[? _]]; [|done].
  cbn [schema only] in Hs. unfold CP_SCHEMA, superRefine in Hs. rewrite zod_refine, as_strings_map in Hs. apply andb_true_iff in Hs as [_ Hs].
  unfold cp_args in Hs. apply andb_true_iff in Hs as [_ Hs]. rewrite forallb_forall in Hs.
  assert (In dst (List.filter (fun a => negb (is_flag a)) [js "-p"; src; dst])) as Hin.
  { apply filter_In. split; [cbn; tauto|by rewrite Hf]. }
  specialize (Hs dst Hin). cbv beta in Hs. congruence.
Qed.

(** A tampered binary outside the jails is not healed: the copy of the
    golden image onto it is refused by the executor before anything is
    started, so as long as its hash stays wrong the check fails without an
    effect.  The first two places the orchestrator looks for an agent,
    /opt/cts/bin and /usr/local/bin, are such paths. *)
Theorem unhealable_outside_jails name bin manifest force c h : production = true ->
  validatePath bin SYSTEM_JAILS = false -> is_flag bin = false -> c <> [] ->
  (forall h, ffiHash h bin = Some c) -> manifestHash manifest name <> Some (Some (JStr c)) -> manifestHash manifest name <> None ->
  verifyAndHeal name bin manifest force h = ([], Resolved false).
Proof.
  intros Hp Hj Hf Hc Hh Hm Hn.
  assert (forall h, calculateHash bin h = ([], Resolved (Some c))) as Hcalc.
  { intros h'. unfold calculateHash, bind, observe. rewrite Hh. cbn [app]. by destruct c. }
  assert (forall mh, manifestHash manifest name = Some mh -> sameHash (Some c) mh = false) as Hs.
  { intros [[]|] E; cbn; try done. apply bool_decide_eq_false. congruence. }
  assert (forall mh h, manifestHash manifest name = Some mh -> healFromGolden name bin mh h = ([], Resolved false)) as Hheal.
  { intros mh h' E. unfold healFromGolden, bind at 1, observe. destruct (stat h' _) as [i|]; [|done]. destruct (isFile i); [|done].
    unfold bind at 1. unfold execute. rewrite cp_refused by done. cbn [ret]. rewrite !app_nil_r. unfold bind. rewrite Hcalc. cbn [ret app]. by rewrite (Hs _ E). }
  unfold verifyAndHeal, bind. rewrite Hcalc, !app_nil_r, Hp. destruct (nonempty (Some c)) eqn:En; [|by destruct c].
  destruct (manifestHash manifest name) as [mh|] eqn:E; [|done]. cbn [andb]. destruct (truthy mh); [|done]. cbn [negb orb].
  rewrite (Hs _ eq_refl), andb_false_r. rewrite (Hheal mh h eq_refl). done.
Qed.

(** ** The manifest *)

(** Outside development a manifest is accepted exactly when it parses and its
    signature verifies under the developer's key or it carries any upgrade
    token at all, which nothing checks; a manifest that is refused is kept
    all the same, where healing and rotation read it. *)
Theorem manifest_accepted_exact content manifest : production = true ->
  let '(manifest', outcome) := loadManifest content manifest in
  (outcome = Resolved tt <-> exists data, (content ≫= JSON_parse) = Some data /\ data <> JNull /\
     (signatureVerified data = true \/ truthy (prop data "upgrade_token") = true)) /\
  (forall data, (content ≫= JSON_parse) = Some data -> data <> JNull -> manifest' = Some data).
Proof.
  intros Hp. unfold loadManifest. rewrite Hp. destruct (content ≫= JSON_parse) as [data|]; [|split; [|done]; split; [done|by intros (d & ? & _)]].
  assert (data = JNull \/ data <> JNull /\ present (Some data) = Some data) as [->|[Hd ->]]; [destruct data; auto|..].
  { cbn [present]. split; [split; [done|]; by intros (d & [= <-] & ? & _)|]. by intros d [= <-]. }
  split; [|by intros d [= <-] _]. rewrite andb_true_r. split.
  - intros Ho. exists data. split_and!; [done..|]. destruct (signatureVerified data), (truthy _); auto; done.
  - intros (d & [= <-] & _ & [-> | ->]); [done|]. by rewrite andb_false_r.
Qed.

(** ** The search path *)

(** The binary of an agent is the first regular file of the search path
    that resolves, and the files before it are missing, are no regular files
    or do not resolve. *)
Theorem find_binary_first h name bin : firstFile h (candidates name) = Some bin <->
  exists before p after i, candidates name = before ++ p :: after /\ stat h p = Some i /\ isFile i = true /\ realPath h p = Some bin /\
    Forall (fun q => forall i, stat h q = Some i -> isFile i = true -> realPath h q = None) before.
Proof.
  generalize (candidates name) as paths. intros paths. induction paths as [|q paths IH]; cbn [firstFile List.fold_right].
  { split; [done|]. by intros ([|] & p & after & i & [=] & _). }
  destruct (match stat h q with Some i => if isFile i then realPath h q else None | None => None end) as [r|] eqn:Eq.
  - destruct (stat h q) as [i|] eqn:Es; [|done]. destruct (isFile i) eqn:Ef; [|done]. rewrite Eq. split.
    + intros [= <-]. by exists [], q, paths, i.
    + intros ([|b before] & p & after & j & [= -> ->] & Hs & Hf & Hr & Hb); [congruence|]. inversion Hb as [|? ? Hq]; subst. specialize (Hq i Es Ef). congruence.
  - transitivity (firstFile h paths = Some bin).
    { unfold firstFile. destruct (stat h q) as [i|]; [|done]. destruct (isFile i); [|done]. by rewrite Eq. }
    rewrite IH. split.
    + intros (before & p & after & i & -> & Hs & Hf & Hr & Hb). exists (q :: before), p, after, i. split_and!; try done. constructor; [|done].
      intros j Hj Hjf. by rewrite Hj, Hjf in Eq.
    + intros ([|b before] & p & after & i & [= -> ->] & Hs & Hf & Hr & Hb); [by rewrite Hs, Hf, Hr in Eq|].
      inversion Hb; subst. by exists before, p, after, i.
Qed.
End launch.
End Launch.

(** ** Concrete starts *)

Module LaunchExamples.
Import JsString Paths Schemas ExecPolicy Executor Effects Launch.

#[local] Instance plain_paths : StdPath :=
  {| normalize := fun p => p; join_path := fun a b => a ++ js "/" ++ b; resolve := fun p => p;
     dirname := fun p => p; realPathSync := fun p => Some p |}.

Definition basename1 (p : jsstr) : jsstr := p.
Definition json1 (s : jsstr) : option Json :=
  if bool_decide (s = js "m") then Some (JObj [("upgrade_token", JStr (js "x"))]%string) else None.
Definition config1 : Config := mkConfig (fun k => if bool_decide (k = js "ENVIRONMENT") then Some (js "production") else None) false.
Definition hash1 (h : list effect) (p : jsstr) : option jsstr := Some (js "aa").
Definition stat1 (h : list effect) (p : jsstr) : option FileInfo := Some (mkInfo true (Some 493)).
Definition real1 (h : list effect) (p : jsstr) : option jsstr := Some p.
Definition readable1 (h : list effect) (p : jsstr) : bool := true.
Definition memfd1 (h : list effect) (n : string) (p : jsstr) : Z := 7.
Definition answer1 (h : list effect) (e : effect) : settled (bool * jsstr) unit := Resolved (true, []).
Definition started1 (h : list effect) (e : effect) : settled unit unit := Resolved tt.
Definition verify1 (sig : Json) (sidecars : option Json) : option bool := Some false.
Definition manifest1 (name : string) (hash : jsstr) : option Json :=
  Some (JObj [("sidecars", JObj [(name, JObj [("architectures", JObj [("x86_64", JObj [("hash", JStr hash)])])])])]%string).

Notation start1 := (startSidecar basename1 json1 config1 true true false "x86_64" 1 false (js "eth0") hash1 stat1 real1 readable1 memfd1 answer1 started1).
Notation verify_heal1 := (verifyAndHeal basename1 json1 config1 true "x86_64" hash1 stat1 answer1).

Definition env1 : list (string * jsstr) := getSidecarEnv config1 (js "eth0") "sentinel".

Lemma production_spawn_guarded_witness :
  EExec (js "/proc/1/fd/7") [] env1 ∈ (start1 (manifest1 "sentinel" (js "aa")) "sentinel" []).1 /\
  exists bin g h' caps,
    firstFile stat1 real1 [] (candidates config1 false "sentinel") = Some bin /\
    manifestHash "x86_64" (manifest1 "sentinel" (js "aa")) "sentinel" = Some (Some (JStr g)) /\ [] `prefix_of` h' /\
    (calculateHash basename1 json1 true hash1 answer1 bin h').2 = Resolved (Some g) /\
    (registered "sentinel" ≫= capabilities) = Some caps /\ provisioned basename1 json1 true answer1 "sentinel" bin caps /\
    (exists t, image 1 (installed "sentinel") t /\
       (js "/proc/1/fd/7" = js "systemd-run" /\ [] = scopeArgs "sentinel" t \/ js "/proc/1/fd/7" = t /\ ([] : list jsstr) = [])) /\
    env1 = getSidecarEnv config1 (js "eth0") "sentinel".
Proof.
  assert (EExec (js "/proc/1/fd/7") [] env1 ∈ (start1 (manifest1 "sentinel" (js "aa")) "sentinel" []).1) as Hin.
  { replace (start1 (manifest1 "sentinel" (js "aa")) "sentinel" []).1 with
      ([ESpawn SECURE_SPAWN [js "sentinel"; js "/opt/cts/bin/sentinel"; js "cap_sys_admin,cap_net_admin,cap_sys_resource+ep"; js "none"];
        EMemfd "sentinel" (installed "sentinel"); EExec (js "/proc/1/fd/7") [] env1]) by (vm_compute; reflexivity).
    set_solver. }
  split; [exact Hin|]. apply (production_spawn_guarded basename1 json1 config1 true true false "x86_64" 1 false (js "eth0")
    hash1 stat1 real1 readable1 memfd1 answer1 started1 (manifest1 "sentinel" (js "aa")) "sentinel" [] (js "/proc/1/fd/7") [] env1);
    [reflexivity|reflexivity|exact Hin].
Defined.

Lemma capless_never_started_witness :
  firstFile stat1 real1 [] (candidates config1 false "watchfile") = Some (js "/opt/cts/bin/watchfile") /\
  EExec (js "/proc/1/fd/7") [] env1 ∉ (start1 (manifest1 "watchfile" (js "aa")) "watchfile" []).1.
Proof.
  split; [vm_compute; reflexivity|]. apply (capless_never_started basename1 json1 config1 true true false "x86_64" 1 false (js "eth0")
    hash1 stat1 real1 readable1 memfd1 answer1 started1 (manifest1 "watchfile" (js "aa")) "watchfile" []); [reflexivity|reflexivity|set_solver].
Defined.

Lemma unhealable_outside_jails_witness :
  verify_heal1 "sentinel" (js "/opt/cts/bin/sentinel") (manifest1 "sentinel" (js "bb")) false [] = ([], Resolved false).
Proof.
  apply (unhealable_outside_jails basename1 json1 config1 true "x86_64" hash1 stat1 answer1 "sentinel" (js "/opt/cts/bin/sentinel")
    (manifest1 "sentinel" (js "bb")) false (js "aa") []); try (vm_compute; reflexivity); vm_compute; discriminate.
Defined.

Lemma manifest_accepted_exact_witness :
  let '(manifest', outcome) := loadManifest json1 config1 verify1 (Some (js "m")) None in
  (outcome = Resolved tt <-> exists data, (Some (js "m") ≫= json1) = Some data /\ data <> JNull /\
     (signatureVerified verify1 data = true \/ truthy (prop data "upgrade_token") = true)) /\
  (forall data, (Some (js "m") ≫= json1) = Some data -> data <> JNull -> manifest' = Some data).
Proof. apply (manifest_accepted_exact json1 config1 verify1 (Some (js "m")) None). reflexivity. Defined.
End LaunchExamples.
