(* ===== verification/Supervisor.v ===== *)
(** * Supervising the agents

    Models the life cycle side of
    [src/orchestrator/infrastructure/runtime/sidecar_manager.ts]
    ([getPersistentSidecar], [stopSidecar], [shutdown], [handleSidecarExit] and
    the [finally] of [startResponseReader]) with the tables of
    [sidecar_spawner.ts].  The manager is cut at its awaits, so that a run is
    any interleaving of requests, completed spawns, exits, closed pipes and
    timers.  Finding, checking and spawning the binary is [Launch]; here a spawn
    that was begun completes with a process or without one.  A process is
    named by its number in the order of creation. *)

From S2P Require Import Prelude Result JsSet JsMap Schemas Launch.

Local Open Scope Z_scope.

Module Supervisor.
Import Schemas.

Record Proc := mkProc { p_name : string; p_alive : bool; p_reader : bool }.

Inductive Kind := Restart | Reset | Forget.
Record Timer := mkTimer { t_kind : Kind; t_name : string; t_due : Z }.

Record RestartInfo := mkInfo { count : Z; lastRestart : Z }.

Record Fleet := mkFleet {
  persistentProcesses : list (string * nat);
  procs : list Proc;
  spawningPromises : list (string * bool);         (* [false]: a promise that was settled before it was stored *)
  expectedExits : list string;
  unsupportedSidecars : list string;
  trippedSidecars : list string;
  restartCounts : list (string * RestartInfo);
  timers : list Timer;
  stopping : list (string * nat);                  (* [stopSidecar] awaits the exit *)
  closing : list string;                           (* what [shutdown] has still to stop *)
  isShuttingDown : bool;
  config : bool;
  manifestFailed : bool;                           (* [manifestPromise] was rejected *)
}.

Definition new : Fleet := mkFleet [] [] [] [] [] [] [] [] [] [] false false false.

Definition with_table (t : list (string * nat)) (s : Fleet) : Fleet :=
  mkFleet t (procs s) (spawningPromises s) (expectedExits s) (unsupportedSidecars s) (trippedSidecars s) (restartCounts s)
    (timers s) (stopping s) (closing s) (isShuttingDown s) (config s) (manifestFailed s).
Definition with_procs (p : list Proc) (s : Fleet) : Fleet :=
  mkFleet (persistentProcesses s) p (spawningPromises s) (expectedExits s) (unsupportedSidecars s) (trippedSidecars s) (restartCounts s)
    (timers s) (stopping s) (closing s) (isShuttingDown s) (config s) (manifestFailed s).
Definition with_spawning (p : list (string * bool)) (s : Fleet) : Fleet :=
  mkFleet (persistentProcesses s) (procs s) p (expectedExits s) (unsupportedSidecars s) (trippedSidecars s) (restartCounts s)
    (timers s) (stopping s) (closing s) (isShuttingDown s) (config s) (manifestFailed s).
Definition with_expected (x : list string) (s : Fleet) : Fleet :=
  mkFleet (persistentProcesses s) (procs s) (spawningPromises s) x (unsupportedSidecars s) (trippedSidecars s) (restartCounts s)
    (timers s) (stopping s) (closing s) (isShuttingDown s) (config s) (manifestFailed s).
Definition with_tripped (x : list string) (s : Fleet) : Fleet :=
  mkFleet (persistentProcesses s) (procs s) (spawningPromises s) (expectedExits s) (unsupportedSidecars s) x (restartCounts s)
    (timers s) (stopping s) (closing s) (isShuttingDown s) (config s) (manifestFailed s).
Definition with_restarts (x : list (string * RestartInfo)) (s : Fleet) : Fleet :=
  mkFleet (persistentProcesses s) (procs s) (spawningPromises s) (expectedExits s) (unsupportedSidecars s) (trippedSidecars s) x
    (timers s) (stopping s) (closing s) (isShuttingDown s) (config s) (manifestFailed s).
Definition with_timers (x : list Timer) (s : Fleet) : Fleet :=
  mkFleet (persistentProcesses s) (procs s) (spawningPromises s) (expectedExits s) (unsupportedSidecars s) (trippedSidecars s) (restartCounts s)
    x (stopping s) (closing s) (isShuttingDown s) (config s) (manifestFailed s).
Definition with_stopping (x : list (string * nat)) (s : Fleet) : Fleet :=
  mkFleet (persistentProcesses s) (procs s) (spawningPromises s) (expectedExits s) (unsupportedSidecars s) (trippedSidecars s) (restartCounts s)
    (timers s) x (closing s) (isShuttingDown s) (config s) (manifestFailed s).
Definition with_closing (x : list string) (b : bool) (s : Fleet) : Fleet :=
  mkFleet (persistentProcesses s) (procs s) (spawningPromises s) (expectedExits s) (unsupportedSidecars s) (trippedSidecars s) (restartCounts s)
    (timers s) (stopping s) x b (config s) (manifestFailed s).

(** ** Operations *)

Inductive effect :=
| ESpawn (name : string)                           (* the closure of [getPersistentSidecar] begins its work *)
| EKill (pid : nat)
| ECrashLoop (name : string) (critical : bool).

(** What [getPersistentSidecar] answers at once, [Waits] for a promise. *)
Inductive Answer := Throws | Null | Child (pid : nat) | Waits.

(** [getPersistentSidecar] after the await of the manifest.  Without a
    configuration the closure ends, and clears its entry, before the entry is
    made. *)
Definition getPersistentSidecar (name : string) (s : Fleet) : Fleet * Answer * list effect :=
  if manifestFailed s then (s, Throws, [])
  else if negb (isAllowedSidecar name) then (s, Throws, [])
  else if bool_decide (name ∈ unsupportedSidecars s) then (s, Null, [])
  else if bool_decide (name ∈ trippedSidecars s) then (s, Null, [])
  else
    match JsMap.get (persistentProcesses s) name with
    | Some pid => (s, Child pid, [])
    | None =>
        match JsMap.get (spawningPromises s) name with
        | Some true => (s, Waits, [])
        | Some false => (s, Null, [])
        | None => if config s then (with_spawning (JsMap.set (spawningPromises s) name true) s, Waits, [ESpawn name])
                  else (with_spawning (JsMap.set (JsMap.delete (spawningPromises s) name) name false) s, Null, [])
        end
    end.

(** The closure ends, with a process or without. *)
Definition spawnEnded (name : string) (success : bool) (s : Fleet) : Fleet :=
  match JsMap.get (spawningPromises s) name with
  | Some true =>
      let s := with_spawning (JsMap.delete (spawningPromises s) name) s in
      if success then with_table (JsMap.set (persistentProcesses s) name (length (procs s)))
                   (with_procs (procs s ++ [mkProc name true true]) s)
      else s
  | _ => s
  end.

Definition MAX_RETRY_ATTEMPTS : Z := 5.
Definition COOLOFF_WINDOW : Z := 600000.

Definition getRestartInfo (name : string) (s : Fleet) : RestartInfo := default (mkInfo 0 0) (JsMap.get (restartCounts s) name).

Definition isCritical (name : string) : bool := match Launch.registered name with Some c => Launch.critical c | None => false end.

Definition handleSidecarExit (name : string) (now jitter : Z) (s : Fleet) : Fleet * list effect :=
  if isShuttingDown s || bool_decide (name ∈ expectedExits s) then (with_expected (set_delete name (expectedExits s)) s, [])
  else if bool_decide (name ∈ unsupportedSidecars s) then (s, [])
  else
    let info := getRestartInfo name s in
    let n := if 300000 <? now - lastRestart info then 0 else count info in
    if n <? MAX_RETRY_ATTEMPTS then
      (with_timers (timers s ++ [mkTimer Restart name (now + 2 ^ n * 1000)])
         (with_restarts (JsMap.set (restartCounts s) name (mkInfo (n + 1) now)) s), [])
    else
      (with_timers (timers s ++ [mkTimer Reset name (now + COOLOFF_WINDOW + jitter)]) (with_tripped (set_add name (trippedSidecars s)) s),
       [ECrashLoop name (isCritical name)]).

(** [child.status.then]: the process has ended. *)
Definition exited (pid : nat) (now jitter : Z) (s : Fleet) : Fleet * list effect :=
  match procs s !! pid with
  | Some (mkProc name true reader) =>
      handleSidecarExit name now jitter
        (with_table (JsMap.delete (persistentProcesses s) name) (with_procs (<[pid := mkProc name false reader]> (procs s)) s))
  | _ => (s, [])
  end.

(** The [finally] of the reader of a process's output. *)
Definition readerEnded (pid : nat) (s : Fleet) : Fleet :=
  match procs s !! pid with
  | Some (mkProc name alive true) =>
      with_table (JsMap.delete (persistentProcesses s) name) (with_procs (<[pid := mkProc name alive false]> (procs s)) s)
  | _ => s
  end.

(** [stopSidecar] up to its await. *)
Definition stopSidecar (name : string) (s : Fleet) : Fleet * list effect :=
  match JsMap.get (persistentProcesses s) name with
  | Some pid => (with_stopping (stopping s ++ [(name, pid)]) (with_expected (set_add name (expectedExits s)) s), [EKill pid])
  | None => (s, [])
  end.

Definition is_alive (s : Fleet) (pid : nat) : bool := match procs s !! pid with Some p => p_alive p | None => false end.

(** The [finally] of [stopSidecar]: the process has ended, or a signal threw. *)
Definition stopped (i : nat) (threw : bool) (now : Z) (s : Fleet) : Fleet :=
  match stopping s !! i with
  | Some (name, pid) =>
      if is_alive s pid && negb threw then s
      else with_timers (timers s ++ [mkTimer Forget name (now + 100)])
             (with_table (JsMap.delete (persistentProcesses s) name) (with_stopping (take i (stopping s) ++ drop (S i) (stopping s)) s))
  | None => s
  end.

Definition backoff (t : Timer) : bool := match t_kind t with Forget => false | _ => true end.

(** [shutdown] and, on a signal, the cleanup handler, which leaves the timers. *)
Definition shutdown (signal : bool) (s : Fleet) : Fleet :=
  let s := if signal then s else with_timers (List.filter (fun t => negb (backoff t)) (timers s)) s in
  with_closing (JsMap.keys (persistentProcesses s)) true s.

(** The next agent of the loop of [shutdown]. *)
Definition closeNext (s : Fleet) : Fleet * list effect :=
  match closing s with
  | name :: rest => stopSidecar name (with_closing rest (isShuttingDown s) s)
  | [] => (s, [])
  end.

Definition fire (k : nat) (now : Z) (s : Fleet) : Fleet * list effect :=
  match timers s !! k with
  | Some t =>
      if now <? t_due t then (s, [])
      else
        let s := with_timers (take k (timers s) ++ drop (S k) (timers s)) s in
        match t_kind t with
        | Restart => if isShuttingDown s then (s, []) else let '(s, _, fx) := getPersistentSidecar (t_name t) s in (s, fx)
        | Reset => (with_restarts (JsMap.delete (restartCounts s) (t_name t)) (with_tripped (set_delete (t_name t) (trippedSidecars s)) s), [])
        | Forget => (with_expected (set_delete (t_name t) (expectedExits s)) s, [])
        end
  | None => (s, [])
  end.

(** [spawner.markUnsupported] *)
Definition markUnsupported (name : string) (s : Fleet) : Fleet :=
  mkFleet (persistentProcesses s) (procs s) (spawningPromises s) (expectedExits s) (set_add name (unsupportedSidecars s)) (trippedSidecars s)
    (restartCounts s) (timers s) (stopping s) (closing s) (isShuttingDown s) (config s) (manifestFailed s).

Definition setConfig (s : Fleet) : Fleet :=
  mkFleet (persistentProcesses s) (procs s) (spawningPromises s) (expectedExits s) (unsupportedSidecars s) (trippedSidecars s)
    (restartCounts s) (timers s) (stopping s) (closing s) (isShuttingDown s) true (manifestFailed s).

Definition manifestLoaded (success : bool) (s : Fleet) : Fleet :=
  mkFleet (persistentProcesses s) (procs s) (spawningPromises s) (expectedExits s) (unsupportedSidecars s) (trippedSidecars s)
    (restartCounts s) (timers s) (stopping s) (closing s) (isShuttingDown s) (config s) (negb success).

Inductive input :=
| IGet (name : string)
| ISpawned (name : string) (success : bool)
| IExit (pid : nat) (now jitter : Z)
| IReader (pid : nat)
| IStop (name : string)
| IStopped (i : nat) (threw : bool) (now : Z)
| ITimer (k : nat) (now : Z)
| IUnsupported (name : string)
| IShutdown (signal : bool)
| IClose
| IConfig
| IManifest (success : bool).

Definition step (s : Fleet) (i : input) : Fleet * list effect :=
  match i with
  | IGet name => let '(s, _, fx) := getPersistentSidecar name s in (s, fx)
  | ISpawned name success => (spawnEnded name success s, [])
  | IExit pid now jitter => exited pid now jitter s
  | IReader pid => (readerEnded pid s, [])
  | IStop name => stopSidecar name s
  | IStopped i threw now => (stopped i threw now s, [])
  | ITimer k now => fire k now s
  | IUnsupported name => (markUnsupported name s, [])
  | IShutdown signal => (shutdown signal s, [])
  | IClose => closeNext s
  | IConfig => (setConfig s, [])
  | IManifest success => (manifestLoaded success s, [])
  end.

Fixpoint run (s : Fleet) (ins : list input) : Fleet * list effect :=
  match ins with
  | [] => (s, [])
  | i :: ins => let '(s, fx) := step s i in let '(s, fx') := run s ins in (s, fx ++ fx')
  end.
(** ** The backoff *)

(** The agent crashes at the given times, each with the jitter of a trip. *)
Fixpoint crashes (name : string) (ts : list (Z * Z)) (s : Fleet) : Fleet :=
  match ts with [] => s | (t, j) :: ts => crashes name ts (handleSidecarExit name t j s).1 end.

(** No five minutes pass between two crashes. *)
Fixpoint paced (last : Z) (ts : list (Z * Z)) : bool :=
  match ts with [] => true | (t, _) :: ts => (t - last <=? 300000) && paced t ts end.

Definition scheduled (name : string) (i : nat) (c : Z * Z) : Timer :=
  if (i <? 5)%nat then mkTimer Restart name (c.1 + 2 ^ Z.of_nat i * 1000) else mkTimer Reset name (c.1 + 600000 + c.2).

Definition watched (name : string) (s : Fleet) : bool :=
  negb (isShuttingDown s) && negb (bool_decide (name ∈ expectedExits s)) && negb (bool_decide (name ∈ unsupportedSidecars s)).

(** One crash of a watched agent. *)
Lemma crash_step name t j s n : watched name s = true -> (n <= 5)%nat ->
  (if 300000 <? t - lastRestart (getRestartInfo name s) then 0 else count (getRestartInfo name s)) = Z.of_nat n ->
  let s' := (handleSidecarExit name t j s).1 in
  watched name s' = true /\ timers s' = timers s ++ [scheduled name n (t, j)] /\
  (if (n <? 5)%nat then getRestartInfo name s' = mkInfo (Z.of_nat (S n)) t /\ trippedSidecars s' = trippedSidecars s
   else restartCounts s' = restartCounts s /\ name ∈ trippedSidecars s').
Proof.
  intros Hw Hn Hc s'. subst s'. unfold handleSidecarExit, watched in *.
  apply andb_true_iff in Hw as [[Hs He]%andb_true_iff Hu]. apply negb_true_iff in Hs, He, Hu. rewrite Hs, He, Hu. cbn [orb].
  rewrite Hc. change MAX_RETRY_ATTEMPTS with 5. unfold scheduled. cbn [fst snd]. destruct (Nat.ltb_spec n 5) as [Hlt|Hge].
  - rewrite (proj2 (Z.ltb_lt _ _)) by lia. cbn. rewrite Hs, He, Hu. split_and!; try done.
    unfold getRestartInfo. cbn. rewrite JsMap.get_set_eq. cbn. f_equal. lia.
  - rewrite (proj2 (Z.ltb_ge _ _)) by lia. cbn. rewrite Hs, He, Hu. split_and!; try done. apply set_add_elem. by left.
Qed.

Lemma crash_schedule name ts : forall s n, watched name s = true -> (n + length ts <= 6)%nat ->
  match ts with
  | (t, _) :: ts => (if 300000 <? t - lastRestart (getRestartInfo name s) then 0 else count (getRestartInfo name s)) = Z.of_nat n /\ paced t ts = true
  | [] => True
  end ->
  timers (crashes name ts s) = timers s ++ imap (fun i => scheduled name (n + i)) ts /\
  (name ∈ trippedSidecars (crashes name ts s) <-> name ∈ trippedSidecars s \/ (n + length ts = 6 /\ ts <> [])%nat).
Proof.
  induction ts as [|[t j] ts IH]; intros s n Hw Hn Hc; cbn [crashes length] in *; [rewrite app_nil_r; split; [done|]; tauto|].
  destruct Hc as [Hc Hp]. destruct (crash_step name t j s n Hw ltac:(lia) Hc) as (Hw' & Ht & Hi).
  set (s' := (handleSidecarExit name t j s).1) in *. rewrite imap_cons, Nat.add_0_r.
  assert (imap ((fun i => scheduled name (n + i)) ∘ S) ts = imap (fun i => scheduled name (S n + i)) ts) as ->.
  { apply imap_ext. intros i x _. cbn. f_equal. lia. }
  destruct (IH s' (S n) Hw') as [IHt IHr]; [lia| |].
  { destruct ts as [|[t' j'] ts]; [done|]. cbn [length paced] in *. destruct (Nat.ltb_spec n 5) as [_|?]; [|lia].
    apply andb_true_iff in Hp as [Hgap%Z.leb_le Hp]. destruct Hi as [-> _]. cbn [lastRestart count].
    rewrite (proj2 (Z.ltb_ge _ _)) by lia. done. }
  rewrite IHt, Ht, <- app_assoc. split; [done|]. rewrite IHr. destruct (Nat.ltb_spec n 5) as [Hlt|Hge].
  - destruct Hi as [_ ->]. split; [intros [?|[? ?]]; [by left|right; split; [lia|done]]|].
    intros [?|[? _]]; [by left|right]. split; [lia|]. intros ->. cbn in *. lia.
  - destruct Hi as [_ Htr]. split; [|auto]. intros _. right. split; [|done]. destruct ts; cbn in *; lia.
Qed.

(** C18: the backoff of a crash loop: when an agent nobody stopped crashes up to
    six times with less than five minutes between two crashes, the first
    five schedule restarts after 1, 2, 4, 8 and 16 seconds, and the sixth
    trips the breaker for ten minutes and its jitter instead; no other
    number of crashes trips it. *)
Theorem crash_backoff name t j ts s : watched name s = true -> JsMap.get (restartCounts s) name = None ->
  name ∉ trippedSidecars s -> (length ts <= 5)%nat -> paced t ts = true ->
  timers (crashes name ((t, j) :: ts) s) = timers s ++ imap (scheduled name) ((t, j) :: ts) /\
  (name ∈ trippedSidecars (crashes name ((t, j) :: ts) s) <-> length ts = 5%nat).
Proof.
  intros Hw Hg Ht Hl Hp. destruct (crash_schedule name ((t, j) :: ts) s 0 Hw ltac:(cbn; lia)) as [A B].
  { unfold getRestartInfo. rewrite Hg. cbn. by destruct (_ <? _). }
  split; [done|]. rewrite B. cbn. split; [intros [?|[? _]]; [done|lia]|]. intros ->. by right.
Qed.

(** ** A tripped agent stays down *)

(** The input comes in the ten minutes after [t]. *)
Definition soon (t : Z) (i : input) : bool :=
  match i with
  | IExit _ now jitter => (t <=? now) && (0 <=? jitter)
  | ITimer _ now => now <? t + COOLOFF_WINDOW
  | _ => true
  end.

(** The breaker of [name] is open until [until]. *)
Definition open_until (name : string) (until : Z) (s : Fleet) : Prop :=
  name ∈ trippedSidecars s /\ Forall (fun t => t_kind t = Reset -> t_name t = name -> until <= t_due t) (timers s).

Lemma open_frame name until s s' : open_until name until s -> trippedSidecars s' = trippedSidecars s ->
  (forall t, t ∈ timers s' -> t ∈ timers s \/ t_kind t <> Reset) -> open_until name until s'.
Proof.
  intros [Ht Hall] E Hin. split; [by rewrite E|]. rewrite Forall_forall in *. intros t [?|?]%Hin; [auto|done].
Qed.

Lemma get_tripped name m s s' a fx : name ∈ trippedSidecars s -> getPersistentSidecar m s = (s', a, fx) ->
  trippedSidecars s' = trippedSidecars s /\ timers s' = timers s /\ ESpawn name ∉ fx.
Proof.
  intros Ht. unfold getPersistentSidecar. repeat case_match; intros [= <- <- <-]; split_and!; try done; try apply not_elem_of_nil.
  intros [= ->]%list_elem_of_singleton. by apply bool_decide_eq_false in H2.
Qed.

Lemma exit_open name t m now j s : open_until name (t + COOLOFF_WINDOW) s -> t <= now -> 0 <= j ->
  open_until name (t + COOLOFF_WINDOW) (handleSidecarExit m now j s).1 /\ ESpawn name ∉ (handleSidecarExit m now j s).2.
Proof.
  intros [Ht Hall] Hnow Hj. unfold handleSidecarExit.
  destruct (_ || _); [by repeat split; try apply not_elem_of_nil|]. case_bool_decide; [by repeat split; try apply not_elem_of_nil|].
  set (n := if 300000 <? _ then 0 else _). destruct (n <? MAX_RETRY_ATTEMPTS); cbn [fst snd].
  - split; [|apply not_elem_of_nil]. split; [done|]. apply Forall_app. split; [done|]. by repeat constructor.
  - split; [|by intros [=]%list_elem_of_singleton]. split; [apply set_add_elem; by right|]. apply Forall_app. split; [done|].
    repeat constructor. intros _ _. cbn. lia.
Qed.

Lemma elem_of_remove {A} (l : list A) k x : x ∈ take k l ++ drop (S k) l -> x ∈ l.
Proof. intros [H|H]%elem_of_app; (eapply elem_of_sublist; [exact H|]); [apply sublist_take|apply sublist_drop]. Qed.

Lemma stop_open name until m s : open_until name until s -> open_until name until (stopSidecar m s).1 /\ ESpawn name ∉ (stopSidecar m s).2.
Proof.
  intros Ho. unfold stopSidecar. destruct (JsMap.get _ _); [|split; [done|apply not_elem_of_nil]].
  split; [eapply open_frame; [exact Ho|done|by left]|by intros [=]%list_elem_of_singleton].
Qed.

Lemma fire_open name t k now s : open_until name (t + COOLOFF_WINDOW) s -> now < t + COOLOFF_WINDOW ->
  open_until name (t + COOLOFF_WINDOW) (fire k now s).1 /\ ESpawn name ∉ (fire k now s).2.
Proof.
  intros Ho Hnow. unfold fire. destruct (timers s !! k) as [tm|] eqn:Ek; [|split; [done|apply not_elem_of_nil]].
  destruct (Z.ltb_spec now (t_due tm)); [split; [done|apply not_elem_of_nil]|].
  set (s1 := with_timers _ s). assert (open_until name (t + COOLOFF_WINDOW) s1) as H1.
  { eapply open_frame; [exact Ho|done|]. intros x Hx. left. exact (elem_of_remove _ _ _ Hx). }
  destruct (t_kind tm) eqn:Et.
  - destruct (isShuttingDown s1); [split; [done|apply not_elem_of_nil]|]. destruct (getPersistentSidecar (t_name tm) s1) as [[s2 a] fx] eqn:Eg.
    destruct (get_tripped name _ _ _ _ _ (proj1 H1) Eg) as (E1 & E2 & Hfx). split; [|done].
    eapply open_frame; [exact H1|done|]. cbn [fst]. rewrite E2. by left.
  - split; [|apply not_elem_of_nil]. destruct H1 as [Ht Hall]. split; [|done]. apply set_delete_elem. split; [|done]. intros ->.
    destruct Ho as [_ Ho]. pose proof (proj1 (Forall_lookup _ _) Ho _ _ Ek Et eq_refl). lia.
  - split; [|apply not_elem_of_nil]. by eapply open_frame; [exact H1|done|by left].
Qed.

Lemma step_open name t s i : open_until name (t + COOLOFF_WINDOW) s -> soon t i = true ->
  open_until name (t + COOLOFF_WINDOW) (step s i).1 /\ ESpawn name ∉ (step s i).2.
Proof.
  intros Ho Hi. assert (forall s', trippedSidecars s' = trippedSidecars s -> (forall x, x ∈ timers s' -> x ∈ timers s \/ t_kind x <> Reset) ->
    open_until name (t + COOLOFF_WINDOW) s' /\ ESpawn name ∉ []) as Hframe.
  { intros s' E1 E2. split; [by eapply open_frame|apply not_elem_of_nil]. }
  destruct i as [m|m b|pid now j|pid|m|i b now|k now|m|b| | |b]; cbn [step soon] in *; try (by apply Hframe; auto).
  - destruct (getPersistentSidecar m s) as [[s2 a] fx] eqn:Eg. destruct (get_tripped name _ _ _ _ _ (proj1 Ho) Eg) as (E1 & E2 & Hfx).
    split; [|done]. eapply open_frame; [exact Ho|done|]. cbn [fst]. rewrite E2. by left.
  - apply Hframe; unfold spawnEnded; destruct (JsMap.get _ _) as [[]|]; try (destruct b); auto.
  - unfold exited. destruct (procs s !! pid) as [[m [] r]|]; [|by apply Hframe; auto..].
    apply andb_true_iff in Hi as [?%Z.leb_le ?%Z.leb_le]. apply exit_open; [|done..]. eapply open_frame; [exact Ho|done|by left].
  - apply Hframe; unfold readerEnded; destruct (procs s !! pid) as [[m al []]|]; auto.
  - by apply stop_open.
  - apply Hframe; unfold stopped; destruct (stopping s !! i) as [[m pid]|]; auto; destruct (_ && _); auto.
    cbn. intros x [?|Hx%list_elem_of_singleton]%elem_of_app; [by left|subst x; by right].
  - apply Z.ltb_lt in Hi. by apply fire_open.
  - apply Hframe; [by destruct b|]. intros x. unfold shutdown. destruct b; cbn; [auto|]. rewrite list_elem_of_In, filter_In. intros [Hx _]. left. by apply list_elem_of_In.
  - unfold closeNext. destruct (closing s) as [|m rest]; [by apply Hframe; auto|]. apply stop_open. eapply open_frame; [exact Ho|done|by left].
Qed.

(** The breaker holds: once the sixth crash of an agent has tripped it, and
    no reset from an earlier trip is pending, nothing that happens in the
    next ten minutes (requests, other crashes, timers, stops) starts that
    agent again or closes the breaker. *)
Theorem breaker_holds name t j s s' ins : Forall (fun x => t_kind x = Reset -> t_name x <> name) (timers s) -> 0 <= j ->
  handleSidecarExit name t j s = (s', [ECrashLoop name (isCritical name)]) -> forallb (soon t) ins = true ->
  name ∈ trippedSidecars (run s' ins).1 /\ ESpawn name ∉ (run s' ins).2.
Proof.
  intros Hno Hj Hx Hins. assert (open_until name (t + COOLOFF_WINDOW) s') as Ho.
  { unfold handleSidecarExit in Hx. destruct (_ || _); [done|]. case_bool_decide; [done|]. destruct (_ <? _) in Hx; [done|]. injection Hx as <-.
    split; [apply set_add_elem; by left|]. apply Forall_app. split; [|by repeat constructor; cbn; lia].
    eapply Forall_impl; [exact Hno|]. cbn. intros x Hn Hk Hnm. by destruct (Hn Hk). }
  clear Hx Hno. revert s' Ho. induction ins as [|i ins IH]; intros s' Ho; cbn [run forallb] in *.
  - split; [apply Ho|apply not_elem_of_nil].
  - apply andb_true_iff in Hins as [Hi Hins]. destruct (step_open name t s' i Ho Hi) as [Ho' Hfx].
    destruct (step s' i) as [s1 fx]. specialize (IH Hins s1 Ho'). destruct (run s1 ins) as [s2 fx']. destruct IH as [IH1 IH2].
    split; [done|]. cbn [snd] in *. by intros [?|?]%elem_of_app.
Qed.

(** ** One process per agent *)















(** ** Restarts and races *)

(** Nothing keeps [name] from being started. *)
Definition startable (name : string) (s : Fleet) : Prop :=
  manifestFailed s = false /\ isAllowedSidecar name = true /\ name ∉ unsupportedSidecars s /\ name ∉ trippedSidecars s /\
  JsMap.get (spawningPromises s) name = None /\ config s = true.

Lemma get_starts name s : startable name s -> JsMap.get (persistentProcesses s) name = None ->
  getPersistentSidecar name s = (with_spawning (JsMap.set (spawningPromises s) name true) s, Waits, [ESpawn name]).
Proof.
  intros (H1 & H2 & H3 & H4 & H5 & H6) Ht. unfold getPersistentSidecar. rewrite H1, H2. cbn [negb].
  rewrite !bool_decide_eq_false_2 by done. by rewrite Ht, H5, H6.
Qed.

(** A crashed agent comes back: when the process of an agent nobody stopped
    ends and its retries are not used up, firing the timer this schedules
    starts the agent again, at most sixteen seconds after the crash. *)
Theorem crash_restarts s pid reader name now j n : procs s !! pid = Some (mkProc name true reader) -> watched name s = true -> startable name s ->
  (if 300000 <? now - lastRestart (getRestartInfo name s) then 0 else count (getRestartInfo name s)) = Z.of_nat n -> (n < 5)%nat ->
  exists due, now < due <= now + 16000 /\ (run s [IExit pid now j; ITimer (length (timers s)) due]).2 = [ESpawn name].
Proof.
  intros Hp Hw Hs Hn Hlt. exists (now + 2 ^ Z.of_nat n * 1000). assert (0 < 2 ^ Z.of_nat n <= 2 ^ 4) as Hpow.
  { split; [apply Z.pow_pos_nonneg; lia|apply Z.pow_le_mono_r; lia]. } split; [lia|].
  cbn [run step]. unfold exited. rewrite Hp. unfold handleSidecarExit, watched in *.
  apply andb_true_iff in Hw as [[W1 W2]%andb_true_iff W3]. apply negb_true_iff in W1, W2, W3.
  cbn [isShuttingDown expectedExits unsupportedSidecars with_table with_procs]. rewrite W1, W2, W3. cbn [orb].
  change (getRestartInfo name (with_table _ _)) with (getRestartInfo name s). rewrite Hn, (proj2 (Z.ltb_lt _ _)) by (unfold MAX_RETRY_ATTEMPTS; lia).
  unfold fire. cbn [timers with_timers with_restarts with_table with_procs]. rewrite list_lookup_middle by done. cbn [t_due].
  rewrite (proj2 (Z.ltb_ge _ _)) by lia. cbn [t_kind isShuttingDown with_timers with_restarts with_table with_procs]. rewrite W1. cbn [t_name].
  rewrite get_starts; [done| |].
  - exact Hs.
  - cbn. apply JsMap.get_delete_eq.
Qed.

(** A late reader makes an orphan: when the output of an ended process of
    an agent closes only after its successor is registered, the successor
    loses its table entry; it keeps running, and the next request starts a
    second process beside it. *)
Theorem late_reader_orphans s old pid name reader : procs s !! old = Some (mkProc name false true) ->
  procs s !! pid = Some (mkProc name true reader) -> startable name s ->
  let '(s', fx) := run s [IReader old; IGet name; ISpawned name true] in
  fx = [ESpawn name] /\ is_alive s' pid = true /\ is_alive s' (length (procs s)) = true /\
  JsMap.get (persistentProcesses s') name = Some (length (procs s)) /\ pid <> length (procs s).
Proof.
  intros Ho Hp Hs. assert (old <> pid) as Hne by congruence. pose proof (lookup_lt_Some _ _ _ Hp) as Hlt.
  cbn [run step]. unfold readerEnded. rewrite Ho. rewrite get_starts; [|exact Hs|apply JsMap.get_delete_eq].
  unfold spawnEnded. cbn [spawningPromises with_spawning with_table with_procs]. rewrite JsMap.get_set_eq.
  cbn [persistentProcesses procs with_spawning with_table with_procs]. rewrite length_insert. unfold is_alive.
  cbn [procs with_table with_procs with_spawning persistentProcesses]. split_and!.
  - done.
  - rewrite lookup_app_l by (rewrite length_insert; done). by rewrite list_lookup_insert_ne, Hp.
  - rewrite list_lookup_middle; [done|by rewrite length_insert].
  - apply JsMap.get_set_eq.
  - lia.
Qed.

(** A start survives the shutdown: a spawn that is under way when the fleet
    is shut down completes into a live, registered process that the shutdown
    never signals, however long its loop runs. *)
Theorem start_survives_shutdown s name n : JsMap.get (spawningPromises s) name = Some true -> JsMap.get (persistentProcesses s) name = None ->
  (forall m q, JsMap.get (persistentProcesses s) m = Some q -> (q < length (procs s))%nat) ->
  let '(s', fx) := run s (IShutdown false :: ISpawned name true :: repeat IClose n) in
  JsMap.get (persistentProcesses s') name = Some (length (procs s)) /\ is_alive s' (length (procs s)) = true /\ EKill (length (procs s)) ∉ fx.
Proof.
  intros Hsp Hn Hwf. cbn [run step]. unfold spawnEnded. cbn [spawningPromises shutdown with_closing with_timers]. rewrite Hsp.
  match goal with |- context [run ?x (repeat IClose n)] => set (s1 := x) end.
  assert (closing s1 = JsMap.keys (persistentProcesses s)) as Hc by done.
  assert (name ∉ closing s1) as Hnc by (rewrite Hc; by apply JsMap.get_None).
  assert (persistentProcesses s1 = JsMap.set (persistentProcesses s) name (length (procs s))) as Ht by done.
  assert (is_alive s1 (length (procs s)) = true) as Ha.
  { unfold is_alive. subst s1. cbn. by rewrite list_lookup_middle. }
  clearbody s1. clear Hc. revert s1 Hnc Ht Ha. induction n as [|n IH]; intros s1 Hnc Ht Ha; cbn [repeat run step].
  { rewrite Ht. split_and!; [apply JsMap.get_set_eq|done|apply not_elem_of_nil]. }
  unfold closeNext, stopSidecar. destruct (closing s1) as [|m rest] eqn:Ec.
  { specialize (IH s1 ltac:(by rewrite Ec) Ht Ha). by destruct (run s1 (repeat IClose n)). }
  apply not_elem_of_cons in Hnc as [Hm Hnc]. cbn [persistentProcesses with_closing]. destruct (JsMap.get _ m) as [q|] eqn:Eq.
  - match goal with |- context [run ?x (repeat IClose n)] => specialize (IH x Hnc Ht Ha); destruct (run x (repeat IClose n)) as [s2 fx] end.
    destruct IH as (A & B & C). split_and!; [done|done|]. cbn [app]. apply not_elem_of_cons. split; [|done]. intros [= E].
    rewrite Ht, JsMap.get_set_ne in Eq by done. specialize (Hwf _ _ Eq). lia.
  - match goal with |- context [run ?x (repeat IClose n)] => specialize (IH x Hnc Ht Ha); by destruct (run x (repeat IClose n)) as [s2 fx] end.
Qed.

(** ** A request before the configuration *)

(** The settled promise is stored, and no process is. *)
Definition stuck (name : string) (s : Fleet) : Prop :=
  JsMap.get (spawningPromises s) name = Some false /\ JsMap.get (persistentProcesses s) name = None.

Lemma stuck_get name m s : stuck name s -> let '(s', _, fx) := getPersistentSidecar m s in stuck name s' /\ ESpawn name ∉ fx.
Proof.
  intros [H1 H2]. unfold getPersistentSidecar. destruct (decide (m = name)) as [->|Hne].
  - rewrite H1, H2. by repeat case_match; simplify_eq; split; try apply not_elem_of_nil.
  - repeat case_match; simplify_eq; split; try done; try apply not_elem_of_nil.
    + split; [|done]. cbn. by rewrite JsMap.get_set_ne.
    + by intros [= ->]%list_elem_of_singleton.
    + split; [|done]. cbn. by rewrite JsMap.get_set_ne, JsMap.get_delete_ne.
Qed.

Lemma get_delete_none {A} (m : list (string * A)) k x : JsMap.get m x = None -> JsMap.get (JsMap.delete m k) x = None.
Proof. destruct (decide (k = x)) as [->|Hne]; [by rewrite JsMap.get_delete_eq|by rewrite JsMap.get_delete_ne]. Qed.

Lemma stuck_stop name m s : stuck name s -> stuck name (stopSidecar m s).1 /\ ESpawn name ∉ (stopSidecar m s).2.
Proof.
  intros Hs. unfold stopSidecar. destruct (JsMap.get _ m); (split; [done|]); [by intros [=]%list_elem_of_singleton|apply not_elem_of_nil].
Qed.

Lemma stuck_exit name m now j s : stuck name s ->
  stuck name (handleSidecarExit m now j s).1 /\ ESpawn name ∉ (handleSidecarExit m now j s).2.
Proof.
  intros Hs. unfold handleSidecarExit. destruct (_ || _); [split; [done|apply not_elem_of_nil]|]. case_bool_decide; [split; [done|apply not_elem_of_nil]|].
  destruct (_ <? _); (split; [done|]); [apply not_elem_of_nil|by intros [=]%list_elem_of_singleton].
Qed.

Lemma stuck_step name s i : stuck name s -> stuck name (step s i).1 /\ ESpawn name ∉ (step s i).2.
Proof.
  intros Hs. pose proof (not_elem_of_nil (ESpawn name)) as Hnil. destruct Hs as [H1 H2].
  destruct i as [m|m b|pid now j|pid|m|i b now|k now|m|b| | |b]; cbn [step]; try (by repeat split).
  - pose proof (stuck_get name m s (conj H1 H2)) as Hg. by destruct (getPersistentSidecar m s) as [[s' a] fx].
  - split; [|done]. cbn [fst]. unfold spawnEnded. destruct (JsMap.get (spawningPromises s) m) as [[]|] eqn:E; [|done..].
    assert (m <> name) as Hne by congruence. assert (JsMap.get (JsMap.delete (spawningPromises s) m) name = Some false) as Hd by (by rewrite JsMap.get_delete_ne).
    destruct b; split; cbn; try done. by rewrite JsMap.get_set_ne.
  - unfold exited. destruct (procs s !! pid) as [[m [] r]|]; [|by repeat split..]. apply stuck_exit. split; [done|]. cbn. by apply get_delete_none.
  - split; [|done]. cbn [fst]. unfold readerEnded. destruct (procs s !! pid) as [[m al []]|]; [|by repeat split..]. split; [done|]. cbn. by apply get_delete_none.
  - by apply stuck_stop.
  - split; [|done]. cbn [fst]. unfold stopped. destruct (stopping s !! i) as [[m pid]|]; [|by repeat split]. destruct (_ && _); [by repeat split|].
    split; [done|]. cbn. by apply get_delete_none.
  - unfold fire. destruct (timers s !! k) as [t|]; [|by repeat split]. destruct (_ <? _); [by repeat split|]. set (s1 := with_timers _ s).
    destruct (t_kind t); [|by repeat split..]. destruct (isShuttingDown s1); [by repeat split|].
    pose proof (stuck_get name (t_name t) s1 (conj H1 H2)) as Hg. by destruct (getPersistentSidecar (t_name t) s1) as [[s' a] fx].
  - split; [|done]. cbn [fst]. unfold shutdown. by destruct b.
  - unfold closeNext. destruct (closing s) as [|m rest]; [by repeat split|]. by apply stuck_stop.
Qed.

(** A request before the configuration disables an agent for good: the
    closure ends and clears its entry before the entry is stored, so the
    settled promise stays, and no later request, timer or configuration ever
    starts the agent. *)
Theorem early_request_disables name ins : isAllowedSidecar name = true -> ESpawn name ∉ (run new (IGet name :: ins)).2.
Proof.
  intros Ha. cbn [run step]. assert (getPersistentSidecar name new = (with_spawning [(name, false)] new, Null, [])) as ->.
  { unfold getPersistentSidecar. by rewrite Ha. }
  assert (stuck name (with_spawning [(name, false)] new)) as Hs.
  { split; [|done]. exact (JsMap.get_set_eq [] name false). }
  revert Hs. generalize (with_spawning [(name, false)] new). induction ins as [|i ins IH]; intros s Hs; cbn [run]; [apply not_elem_of_nil|].
  destruct (stuck_step name s i Hs) as [Hs' Hfx]. destruct (step s i) as [s1 fx]. specialize (IH s1 Hs'). destruct (run s1 ins) as [s2 fx'].
  cbn [snd app] in *. by intros [?|?]%elem_of_app.
Qed.

(** ** Concrete fleets *)

Definition running : Fleet := (run new [IConfig; IGet "sentinel"; ISpawned "sentinel" true]).1.

Lemma crash_backoff_witness :
  timers (crashes "sentinel" [(0, 7); (1000, 7); (3000, 7); (7000, 7); (15000, 7); (31000, 7)] running) =
    timers running ++ imap (scheduled "sentinel") [(0, 7); (1000, 7); (3000, 7); (7000, 7); (15000, 7); (31000, 7)] /\
  ("sentinel"%string ∈ trippedSidecars (crashes "sentinel" [(0, 7); (1000, 7); (3000, 7); (7000, 7); (15000, 7); (31000, 7)] running) <-> 5%nat = 5%nat).
Proof.
  apply (crash_backoff "sentinel" 0 7 [(1000, 7); (3000, 7); (7000, 7); (15000, 7); (31000, 7)] running);
    [reflexivity|reflexivity|apply not_elem_of_nil|vm_compute; lia|reflexivity].
Defined.

Definition looping : Fleet := crashes "sentinel" [(0, 7); (1000, 7); (3000, 7); (7000, 7); (15000, 7)] running.

Lemma breaker_holds_witness : exists s',
  handleSidecarExit "sentinel" 31000 7 looping = (s', [ECrashLoop "sentinel" true]) /\
  "sentinel"%string ∈ trippedSidecars (run s' [IGet "sentinel"; ITimer 0 600000; IGet "sentinel"]).1 /\
  ESpawn "sentinel" ∉ (run s' [IGet "sentinel"; ITimer 0 600000; IGet "sentinel"]).2.
Proof.
  eexists. split; [vm_compute; reflexivity|].
  eapply (breaker_holds "sentinel" 31000 7 looping); [|lia|vm_compute; reflexivity|reflexivity].
  apply Forall_forall. intros x Hx Hk. replace (timers looping) with
    [mkTimer Restart "sentinel" 1000; mkTimer Restart "sentinel" 3000; mkTimer Restart "sentinel" 7000; mkTimer Restart "sentinel" 15000;
     mkTimer Restart "sentinel" 31000] in Hx by (vm_compute; reflexivity).
  repeat (apply elem_of_cons in Hx as [->|Hx]; [discriminate Hk|]). by apply not_elem_of_nil in Hx.
Defined.



Lemma running_startable : startable "sentinel" running.
Proof. repeat split; apply not_elem_of_nil. Qed.

Lemma crash_restarts_witness : exists due, 0 < due <= 0 + 16000 /\
  (run running [IExit 0 0 7; ITimer (length (timers running)) due]).2 = [ESpawn "sentinel"].
Proof.
  apply (crash_restarts running 0 true "sentinel" 0 7 0); [reflexivity|reflexivity|exact running_startable|reflexivity|lia].
Defined.

(** The first process has crashed and its output is still open. *)
Definition succeeded : Fleet :=
  (run new [IConfig; IGet "sentinel"; ISpawned "sentinel" true; IExit 0 0 7; ITimer 0 1000; ISpawned "sentinel" true]).1.

Lemma late_reader_orphans_witness :
  let '(s', fx) := run succeeded [IReader 0; IGet "sentinel"; ISpawned "sentinel" true] in
  fx = [ESpawn "sentinel"] /\ is_alive s' 1 = true /\ is_alive s' 2 = true /\
  JsMap.get (persistentProcesses s') "sentinel"%string = Some 2%nat /\ 1%nat <> 2%nat.
Proof.
  apply (late_reader_orphans succeeded 0 1 "sentinel" true); [vm_compute; reflexivity|vm_compute; reflexivity|].
  repeat split; try (vm_compute; reflexivity); vm_compute; apply not_elem_of_nil.
Defined.

Definition starting : Fleet := (run new [IConfig; IGet "sentinel"]).1.

Lemma start_survives_shutdown_witness :
  let '(s', fx) := run starting (IShutdown false :: ISpawned "sentinel" true :: repeat IClose 3) in
  JsMap.get (persistentProcesses s') "sentinel"%string = Some 0%nat /\ is_alive s' 0 = true /\ EKill 0 ∉ fx.
Proof. apply (start_survives_shutdown starting "sentinel" 3); [reflexivity|reflexivity|]. intros m q Hq. discriminate Hq. Defined.

Lemma early_request_disables_witness : ESpawn "sentinel" ∉ (run new [IGet "sentinel"; IConfig; IGet "sentinel"]).2.
Proof. apply (early_request_disables "sentinel" [IConfig; IGet "sentinel"]). reflexivity. Defined.
End Supervisor.
