(* ===== verification/Causal.v ===== *)
(** * The causal graph

    Models [src/orchestrator/domain/analysis/causal_graph_service.ts]
    ([reconstructGraph]: the processes below a root, the nodes, the three
    indexes and the edges).  The records of the forensic search are an input;
    the parser of dates and the collation of [localeCompare] are parameters.
    A node is known by its position among the nodes. *)

From S2P Require Import Prelude Result JsSet JsMap JsString JsSort.

Local Open Scope Z_scope.

Module Causal.
Import JsString.

(** ** Data *)

Record ForensicRecord := mkRecord {
  pid : Z; ppid : option Z; comm : jsstr; syscall : jsstr; timestamp : jsstr; path : option jsstr; port : option Z;
}.

Inductive NodeType := PROCESS | NETWORK | FILE.

Record CausalNode := mkNode { n_id : jsstr; n_type : NodeType; label : jsstr; record : ForensicRecord }.

#[export] Instance NodeType_eq_dec : EqDecision NodeType.
Proof. solve_decision. Defined.

Definition truthy (o : option jsstr) : bool := match o with Some (_ :: _) => true | _ => false end.

Definition getRecordId (r : ForensicRecord) : jsstr := decimal (pid r) ++ js "-" ++ timestamp r ++ js "-" ++ syscall r.

Definition determineType (r : ForensicRecord) : NodeType :=
  if bool_decide (syscall r = js "connect") || match port r with Some p => negb (p =? 0) | None => false end then NETWORK
  else if truthy (path r) || bool_decide (syscall r = js "openat") then FILE
  else PROCESS.

Definition nodeOf (r : ForensicRecord) : CausalNode :=
  mkNode (getRecordId r) (determineType r) (comm r ++ js " (" ++ decimal (pid r) ++ js ") - " ++ syscall r) r.

Section causal.
(** [new Date(s).getTime()], [None] for an invalid date, and
    [a.localeCompare(b) < 0]. *)
Context (date : jsstr -> option Z) (localeLt : jsstr -> jsstr -> bool).

(** ** The records below a root *)

Definition grow (included : list Z) (r : ForensicRecord) : list Z :=
  match ppid r with
  | Some q => if bool_decide (q ∈ included) then set_add (pid r) included else included
  | None => included
  end.

Definition byTime (records : list ForensicRecord) : list ForensicRecord :=
  stable_sort (fun a b => localeLt (timestamp a) (timestamp b)) records.

Definition below (rootPid : option Z) (records : list ForensicRecord) : list ForensicRecord :=
  match rootPid with
  | None | Some 0 => records
  | Some root =>
      let included := fold_left grow (byTime records) [root] in
      List.filter (fun r => bool_decide (pid r ∈ included)) records
  end.

(** ** Nodes: the first record of each id *)

Definition addNode (nodes : list CausalNode) (r : ForensicRecord) : list CausalNode :=
  if existsb (fun n => bool_decide (n_id n = getRecordId r)) nodes then nodes else nodes ++ [nodeOf r].

Definition allNodes (records : list ForensicRecord) : list CausalNode := fold_left addNode records [].

(** ** Indexes *)

Definition push {K} `{EqDecision K} (m : list (K * list nat)) (k : K) (i : nat) : list (K * list nat) :=
  JsMap.set m k (default [] (JsMap.get m k) ++ [i]).

Record Indexes := mkIndexes { ppidIndex : list (Z * list nat); pidIndex : list (Z * list nat); pathIndex : list (jsstr * list nat) }.

Definition index (ix : Indexes) (e : nat * CausalNode) : Indexes :=
  let '(i, n) := e in
  mkIndexes
    (match ppid (record n) with Some q => push (ppidIndex ix) q i | None => ppidIndex ix end)
    (push (pidIndex ix) (pid (record n)) i)
    (match n_type n, path (record n) with PROCESS, Some (c :: p) => push (pathIndex ix) (c :: p) i | _, _ => pathIndex ix end).

Definition numbered (nodes : list CausalNode) : list (nat * CausalNode) := imap pair nodes.

Definition indexes (nodes : list CausalNode) : Indexes := fold_left index (numbered nodes) (mkIndexes [] [] []).

(** ** Edges *)

(** [new Date(child) < new Date(parent)], false when one is invalid. *)
Definition earlier (child parent : CausalNode) : bool :=
  match date (timestamp (record child)), date (timestamp (record parent)) with Some c, Some p => c <? p | _, _ => false end.

Definition isCausallyRelated (parent child : CausalNode) : bool :=
  if earlier child parent then false
  else if bool_decide (Some (pid (record parent)) = ppid (record child)) then true
  else if bool_decide (n_type parent = PROCESS) && bool_decide (n_type child = NETWORK) && (pid (record parent) =? pid (record child)) then true
  else bool_decide (n_type parent = FILE) && bool_decide (n_type child = PROCESS) && bool_decide (path (record parent) = path (record child)).

Definition addAll (js : list nat) (candidates : list nat) : list nat := fold_left (fun c j => set_add j c) js candidates.

Definition typeAt (nodes : list CausalNode) (j : nat) : option NodeType := n_type <$> nodes !! j.

Definition candidates (nodes : list CausalNode) (ix : Indexes) (node : CausalNode) : list nat :=
  let c := addAll (default [] (JsMap.get (ppidIndex ix) (pid (record node)))) [] in
  let c := if bool_decide (n_type node = PROCESS)
           then addAll (List.filter (fun j => negb (bool_decide (typeAt nodes j = Some PROCESS))) (default [] (JsMap.get (pidIndex ix) (pid (record node))))) c
           else c in
  match n_type node, path (record node) with
  | FILE, Some (x :: p) => addAll (default [] (JsMap.get (pathIndex ix) (x :: p))) c
  | _, _ => c
  end.

(** The [children] and [parents] of the nodes. *)
Record Graph := mkGraph { children : list (list jsstr); parents : list (list jsstr) }.

Definition link (i j : nat) (node child : CausalNode) (g : Graph) : Graph :=
  mkGraph (alter (fun l => l ++ [n_id child]) i (children g)) (alter (fun l => l ++ [n_id node]) j (parents g)).

Definition linkOne (nodes : list CausalNode) (i : nat) (node : CausalNode) (g : Graph) (j : nat) : Graph :=
  if (i =? j)%nat then g
  else match nodes !! j with
       | Some child => if isCausallyRelated node child then link i j node child g else g
       | None => g
       end.

Definition linkNode (nodes : list CausalNode) (ix : Indexes) (g : Graph) (e : nat * CausalNode) : Graph :=
  fold_left (linkOne nodes e.1 e.2) (candidates nodes ix e.2) g.

Definition edges (nodes : list CausalNode) : Graph :=
  fold_left (linkNode nodes (indexes nodes)) (numbered nodes) (mkGraph (map (fun _ => []) nodes) (map (fun _ => []) nodes)).

Definition reconstructGraph (rootPid : option Z) (records : list ForensicRecord) : list CausalNode * Graph :=
  let nodes := allNodes (below rootPid records) in (nodes, edges nodes).
End causal.
(** ** The nodes *)

Lemma existsb_id nodes x : existsb (fun n => bool_decide (n_id n = x)) nodes = true <-> x ∈ map n_id nodes.
Proof.
  rewrite existsb_exists, list_elem_of_In, in_map_iff. split; intros (n & H1 & H2); exists n.
  - apply bool_decide_eq_true in H2. auto.
  - split; [done|]. by apply bool_decide_eq_true.
Qed.

Definition genuine (n : CausalNode) : Prop := n = nodeOf (record n).

Lemma fold_addNode records : forall nodes, NoDup (map n_id nodes) -> Forall genuine nodes ->
  NoDup (map n_id (fold_left addNode records nodes)) /\ Forall genuine (fold_left addNode records nodes).
Proof.
  induction records as [|r records IH]; intros nodes Hd Hg; cbn [fold_left]; [done|]. apply IH; unfold addNode.
  - destruct (existsb _ nodes) eqn:E; [done|]. rewrite map_app. apply NoDup_app. split_and!; [done| |apply NoDup_singleton].
    intros x Hx ->%list_elem_of_singleton. apply not_true_iff_false in E. by apply E, existsb_id.
  - destruct (existsb _ nodes); [done|]. apply Forall_app. split; [done|]. by repeat constructor.
Qed.

Lemma allNodes_ok records : NoDup (map n_id (allNodes records)) /\ Forall genuine (allNodes records).
Proof. apply fold_addNode; constructor. Qed.

(** The node of an id is that of its first record. *)
Lemma addNode_find records x : forall nodes,
  List.find (fun n => bool_decide (n_id n = x)) (fold_left addNode records nodes) =
  match List.find (fun n => bool_decide (n_id n = x)) nodes with
  | Some n => Some n
  | None => nodeOf <$> List.find (fun r => bool_decide (getRecordId r = x)) records
  end.
Proof.
  induction records as [|r records IH]; intros nodes; cbn [fold_left List.find fmap option_fmap option_map]; [by destruct (List.find _ nodes)|].
  rewrite IH. unfold addNode. destruct (existsb _ nodes) eqn:E.
  - destruct (List.find _ nodes) eqn:Ef; [done|]. case_bool_decide as Hr; [|done].
    apply existsb_exists in E as (n & Hn & En%bool_decide_eq_true). pose proof (List.find_none _ _ Ef n Hn) as Hx. cbn in Hx.
    apply bool_decide_eq_false in Hx. congruence.
  - rewrite find_snoc. destruct (List.find _ nodes); [done|]. cbn [n_id nodeOf]. by case_bool_decide.
Qed.

(** A process record has no path. *)
Lemma process_pathless n : genuine n -> n_type n = PROCESS -> truthy (path (record n)) = false.
Proof.
  intros ->. cbn. unfold determineType. destruct (_ || _); [done|]. destruct (truthy _); [done|]. done.
Qed.

(** ** The indexes *)

Lemma push_get {K} `{EqDecision K} (m : list (K * list nat)) k i k' j :
  j ∈ default [] (JsMap.get (push m k i) k') <-> j ∈ default [] (JsMap.get m k') \/ (k = k' /\ j = i).
Proof.
  unfold push. destruct (decide (k = k')) as [<-|Hne].
  - rewrite JsMap.get_set_eq. cbn. set_solver.
  - rewrite JsMap.get_set_ne by done. naive_solver.
Qed.

Lemma fold_ppid es : forall ix q j, j ∈ default [] (JsMap.get (ppidIndex (fold_left index es ix)) q) <->
  j ∈ default [] (JsMap.get (ppidIndex ix) q) \/ exists n, (j, n) ∈ es /\ ppid (record n) = Some q.
Proof.
  induction es as [|[i n] es IH]; intros ix q j; cbn [fold_left]; [set_solver|]. rewrite IH. cbn [index ppidIndex].
  assert (j ∈ default [] (JsMap.get match ppid (record n) with Some q0 => push (ppidIndex ix) q0 i | None => ppidIndex ix end q) <->
    j ∈ default [] (JsMap.get (ppidIndex ix) q) \/ (j = i /\ ppid (record n) = Some q)) as ->.
  { destruct (ppid (record n)) as [q0|]; [rewrite push_get|]; naive_solver. }
  setoid_rewrite elem_of_cons. naive_solver.
Qed.

Lemma fold_pid es : forall ix q j, j ∈ default [] (JsMap.get (pidIndex (fold_left index es ix)) q) <->
  j ∈ default [] (JsMap.get (pidIndex ix) q) \/ exists n, (j, n) ∈ es /\ pid (record n) = q.
Proof.
  induction es as [|[i n] es IH]; intros ix q j; cbn [fold_left]; [set_solver|]. rewrite IH. cbn [index pidIndex].
  rewrite push_get. setoid_rewrite elem_of_cons. naive_solver.
Qed.

(** No record is both a process and has a path, so this index stays empty. *)
Lemma fold_path es : Forall (fun e => genuine e.2) es -> forall ix, pathIndex (fold_left index es ix) = pathIndex ix.
Proof.
  induction 1 as [|[i n] es Hn _ IH]; intros ix; cbn [fold_left]; [done|]. rewrite IH. cbn [index pathIndex].
  destruct (n_type n) eqn:Et; try done. pose proof (process_pathless n Hn Et). by destruct (path (record n)) as [[|]|].
Qed.

Lemma numbered_elem nodes j n : (j, n) ∈ numbered nodes <-> nodes !! j = Some n.
Proof.
  unfold numbered. rewrite list_elem_of_lookup. setoid_rewrite list_lookup_imap. split.
  - intros [k Hk]. destruct (nodes !! k) as [x|] eqn:E; [|done]. by injection Hk as <- <-.
  - intros E. exists j. by rewrite E.
Qed.

Lemma addAll_elem l : forall c x, x ∈ addAll l c <-> x ∈ c \/ x ∈ l.
Proof.
  unfold addAll. induction l as [|y l IH]; intros c x; cbn [fold_left]; [set_solver|]. rewrite IH, set_add_elem. set_solver.
Qed.

(** The candidates of a node. *)
Lemma candidates_elem nodes node j : Forall genuine nodes -> j ∈ candidates nodes (indexes nodes) node <->
  exists n, nodes !! j = Some n /\ (ppid (record n) = Some (pid (record node)) \/
    n_type node = PROCESS /\ n_type n <> PROCESS /\ pid (record n) = pid (record node)).
Proof.
  intros Hg. set (c1 := addAll (default [] (JsMap.get (ppidIndex (indexes nodes)) (pid (record node)))) []).
  assert (j ∈ c1 <-> exists n, nodes !! j = Some n /\ ppid (record n) = Some (pid (record node))) as H1.
  { subst c1. rewrite addAll_elem. unfold indexes. rewrite fold_ppid. setoid_rewrite numbered_elem. cbn. set_solver. }
  assert (candidates nodes (indexes nodes) node = if bool_decide (n_type node = PROCESS)
    then addAll (List.filter (fun j => negb (bool_decide (typeAt nodes j = Some PROCESS))) (default [] (JsMap.get (pidIndex (indexes nodes)) (pid (record node))))) c1
    else c1) as ->.
  { unfold candidates. fold c1. assert (pathIndex (indexes nodes) = []) as ->.
    { unfold indexes. rewrite fold_path; [done|]. apply Forall_forall. intros [k n] Hk%numbered_elem. by apply (proj1 (Forall_lookup _ _) Hg k). }
    destruct (n_type node); try done. by destruct (path (record node)) as [[|]|]. }
  case_bool_decide as Ht.
  - rewrite addAll_elem, H1, list_elem_of_In, filter_In, <- list_elem_of_In. unfold indexes. rewrite fold_pid. setoid_rewrite numbered_elem.
    rewrite negb_true_iff, bool_decide_eq_false. unfold typeAt. split.
    + intros [(n & Hn & ?)|[[Hx|(n & Hn & Hp)] Hty]]; [by exists n; auto|by apply not_elem_of_nil in Hx|]. exists n. rewrite Hn in Hty. cbn in Hty.
      split; [done|]. right. split_and!; [done| |done]. intros E. by rewrite E in Hty.
    + intros (n & Hn & [?|(_ & Hty & ?)]); [by left; exists n|]. right. rewrite Hn. cbn. split; [|congruence]. right. by exists n.
  - rewrite H1. naive_solver.
Qed.

(** ** The edges *)

Definition lists (m : list (list jsstr)) (k : nat) (x : jsstr) : Prop := exists l, m !! k = Some l /\ x ∈ l.

Lemma lists_alter m i y k x : lists (alter (fun l => l ++ [y]) i m) k x <-> lists m k x \/ (k = i /\ (i < length m)%nat /\ x = y).
Proof.
  unfold lists. destruct (decide (k = i)) as [->|Hne].
  - rewrite list_lookup_alter_eq. destruct (m !! i) as [l|] eqn:E; cbn.
    + pose proof (lookup_lt_Some _ _ _ E). split; [intros (? & [= <-] & [?|?]%elem_of_app)|]; [by left; exists l|right; set_solver|].
      intros [(? & [= <-] & ?)|(_ & _ & ->)]; eexists; (split; [done|]); set_solver.
    + apply lookup_ge_None in E. split; [by intros (? & ? & _)|]. intros [(? & ? & _)|(_ & ? & _)]; [done|lia].
  - rewrite list_lookup_alter_ne by done. naive_solver.
Qed.

Section edges.
Context (date : jsstr -> option Z).

(** A file and a process, neither with a path: [undefined === undefined]. *)
Definition both_pathless (parent child : CausalNode) : Prop :=
  ppid (record child) <> Some (pid (record parent)) /\
  n_type parent = FILE /\ n_type child = PROCESS /\ truthy (path (record parent)) = false /\ truthy (path (record child)) = false.

Definition sized (nodes : list CausalNode) (g : Graph) : Prop :=
  length (children g) = length nodes /\ length (parents g) = length nodes.

(** The edge of [i] to [j], where [node] is at [i]. *)
Definition linked (nodes : list CausalNode) (i j : nat) (node child : CausalNode) : Prop :=
  i <> j /\ nodes !! j = Some child /\ isCausallyRelated date node child = true.

Lemma linkOne_ok nodes i node g j : sized nodes g -> nodes !! i = Some node ->
  sized nodes (linkOne date nodes i node g j) /\
  (forall k x, lists (children (linkOne date nodes i node g j)) k x <->
    lists (children g) k x \/ (k = i /\ exists c, linked nodes i j node c /\ x = n_id c)) /\
  (forall k x, lists (parents (linkOne date nodes i node g j)) k x <->
    lists (parents g) k x \/ (k = j /\ x = n_id node /\ exists c, linked nodes i j node c)).
Proof.
  intros [Hc Hp] Hi. pose proof (lookup_lt_Some _ _ _ Hi) as Hlt. unfold linkOne, linked. destruct (Nat.eqb_spec i j) as [<-|Hne]; [split; [by split|split; intros; naive_solver]|].
  destruct (nodes !! j) as [c|] eqn:Ej; [|split; [by split|split; intros; naive_solver]]. pose proof (lookup_lt_Some _ _ _ Ej).
  destruct (isCausallyRelated date node c) eqn:Er.
  - unfold sized, link. cbn [children parents]. rewrite !length_alter. split; [done|].
    split; intros k x; rewrite lists_alter, ?Hc, ?Hp; (split; (intros [?|Hx]; [by left|right])).
    + destruct Hx as (-> & _ & ->). split; [done|]. by exists c.
    + destruct Hx as (-> & c' & (_ & [= <-] & _) & ->). done.
    + destruct Hx as (-> & _ & ->). split_and!; [done|done|]. by exists c.
    + by destruct Hx as (-> & -> & _).
  - split; [by split|]. split; intros k x; (split; [by left|]).
    + intros [?|(_ & c' & (_ & [= <-] & ?) & _)]; [done|congruence].
    + intros [?|(_ & _ & c' & _ & [= <-] & ?)]; [done|congruence].
Qed.

Lemma linkAll_ok nodes i node js : nodes !! i = Some node -> forall g, sized nodes g ->
  let g' := fold_left (linkOne date nodes i node) js g in
  sized nodes g' /\
  (forall k x, lists (children g') k x <-> lists (children g) k x \/ (k = i /\ exists j c, j ∈ js /\ linked nodes i j node c /\ x = n_id c)) /\
  (forall k x, lists (parents g') k x <-> lists (parents g) k x \/ (k ∈ js /\ x = n_id node /\ exists c, linked nodes i k node c)).
Proof.
  intros Hi. induction js as [|j js IH]; intros g Hg g'; subst g'; cbn [fold_left]; [split_and!; [apply Hg..| |]; set_solver|].
  destruct (linkOne_ok nodes i node g j Hg Hi) as (Hs & Hc & Hp). destruct (IH _ Hs) as (Hs' & Hc' & Hp'). split_and!; [apply Hs'..| |].
  - intros k x. rewrite Hc', Hc. split.
    + intros [[?|(-> & c & Hl & ->)]|(-> & j' & c & Hj & Hl & ->)]; [by left|right; split; [done|]..].
      * exists j, c. split_and!; [apply list_elem_of_here|done|done].
      * exists j', c. split_and!; [by apply list_elem_of_further|done|done].
    + intros [?|(-> & j' & c & [->|Hj]%elem_of_cons & Hl & ->)]; [by left; left|left; right; split; [done|]; by exists c|].
      right. split; [done|]. by exists j', c.
  - intros k x. rewrite Hp', Hp. split.
    + intros [[?|(-> & -> & Hl)]|(Hk & -> & Hl)]; [by left|right; split_and!; [apply list_elem_of_here|done|done]|].
      right. split_and!; [by apply list_elem_of_further|done|done].
    + intros [?|([->|Hk]%elem_of_cons & -> & Hl)]; [by left; left|by left; right|by right].
Qed.

Lemma linkNodes_ok nodes ix es : (forall i n, (i, n) ∈ es -> nodes !! i = Some n) -> forall g, sized nodes g ->
  let g' := fold_left (linkNode date nodes ix) es g in
  (forall k x, lists (children g') k x <-> lists (children g) k x \/
     exists node j c, (k, node) ∈ es /\ j ∈ candidates nodes ix node /\ linked nodes k j node c /\ x = n_id c) /\
  (forall k x, lists (parents g') k x <-> lists (parents g) k x \/
     exists i node c, (i, node) ∈ es /\ k ∈ candidates nodes ix node /\ linked nodes i k node c /\ x = n_id node).
Proof.
  induction es as [|[i n] es IH]; intros Hes g Hg g'; subst g'; cbn [fold_left]; [set_solver|].
  assert (nodes !! i = Some n) as Hi by (apply Hes; set_solver).
  destruct (linkAll_ok nodes i n (candidates nodes ix n) Hi g Hg) as (Hs & Hc & Hp).
  change (linkNode date nodes ix g (i, n)) with (fold_left (linkOne date nodes i n) (candidates nodes ix n) g).
  destruct (IH ltac:(intros; apply Hes; set_solver) _ Hs) as [Hc' Hp']. split; intros k x.
  - rewrite Hc', Hc. split.
    + intros [[?|(-> & j & c & Hj & Hl & ->)]|(m & j & c & Hm & Hj & Hl & ->)]; [by left|right..].
      * exists n, j, c. split_and!; [apply list_elem_of_here|done..].
      * exists m, j, c. split_and!; [by apply list_elem_of_further|done..].
    + intros [?|(m & j & c & [[= -> ->]|Hm]%elem_of_cons & Hj & Hl & ->)]; [by left; left|left; right; split; [done|]; by exists j, c|].
      right. by exists m, j, c.
  - rewrite Hp', Hp. split.
    + intros [[?|(Hk & -> & c & Hl)]|(l & m & c & Hm & Hk & Hl & ->)]; [by left|right..].
      * exists i, n, c. split_and!; [apply list_elem_of_here|done..].
      * exists l, m, c. split_and!; [by apply list_elem_of_further|done..].
    + intros [?|(l & m & c & [[= -> ->]|Hm]%elem_of_cons & Hk & Hl & ->)]; [by left; left|left; right; split_and!; [done..|by exists c]|].
      right. by exists l, m, c.
Qed.

Lemma edges_listed nodes :
  (forall k x, lists (children (edges date nodes)) k x <-> exists node j c, nodes !! k = Some node /\
     j ∈ candidates nodes (indexes nodes) node /\ linked nodes k j node c /\ x = n_id c) /\
  (forall k x, lists (parents (edges date nodes)) k x <-> exists i node c, nodes !! i = Some node /\
     k ∈ candidates nodes (indexes nodes) node /\ linked nodes i k node c /\ x = n_id node).
Proof.
  set (g0 := mkGraph (map (fun _ => []) nodes) (map (fun _ => []) nodes)).
  assert (forall k x, ~ lists (map (fun _ : CausalNode => []) nodes) k x) as Hempty.
  { intros k x (l & Hl & Hx). rewrite list_lookup_fmap in Hl. destruct (nodes !! k); [|done]. injection Hl as <-. by apply not_elem_of_nil in Hx. }
  destruct (linkNodes_ok nodes (indexes nodes) (numbered nodes) ltac:(by intros ? ? ?%numbered_elem) g0) as [Hc Hp].
  { split; cbn; by rewrite length_map. }
  change (edges date nodes) with (fold_left (linkNode date nodes (indexes nodes)) (numbered nodes) g0).
  setoid_rewrite numbered_elem in Hc. setoid_rewrite numbered_elem in Hp.
  split; intros k x; [rewrite Hc|rewrite Hp]; cbn [g0 children parents]; (split; [by intros [?%Hempty|?]|by right]).
Qed.

(** What the test asks and the candidates leave out. *)
Lemma related_candidate a b : genuine b -> isCausallyRelated date a b = true ->
  (ppid (record b) = Some (pid (record a)) \/ n_type a = PROCESS /\ n_type b <> PROCESS /\ pid (record b) = pid (record a)) <->
  ~ both_pathless a b.
Proof.
  intros Hb. unfold isCausallyRelated, both_pathless. destruct (earlier date b a); [done|].
  case_bool_decide as H1; [split; [intros _ (? & _); congruence|by left]|].
  destruct (bool_decide (n_type a = PROCESS) && _ && _) eqn:E2.
  - rewrite !andb_true_iff, !bool_decide_eq_true, Z.eqb_eq in E2. destruct E2 as [[Ha Hn] Hp]. rewrite Ha, Hn.
    intros _. split; [intros _; naive_solver|]. intros _. by right.
  - rewrite !andb_true_iff, !bool_decide_eq_true. intros [[Ha Hn] Hp]. rewrite Ha, Hn, Hp.
    pose proof (process_pathless b Hb Hn) as Ht. split; [naive_solver|]. intros Hx. exfalso. apply Hx. by split_and!.
Qed.
End edges.

(** C35: The nodes of the graph are the ids of the records, each once, with its
    first record; and the indexed construction of the edges makes none up and
    loses one kind only.  One node is listed as a child of another, and the
    other as its parent, exactly when the two differ and [isCausallyRelated]
    holds of them, except for a file and a process that both have no path:
    the test takes their missing paths as equal, and the index of paths does
    not. *)
Theorem graph_exact date localeLt rootPid records : let '(nodes, g) := reconstructGraph date localeLt rootPid records in
  NoDup (map n_id nodes) /\
  (forall x, List.find (fun n => bool_decide (n_id n = x)) nodes =
     nodeOf <$> List.find (fun r => bool_decide (getRecordId r = x)) (below localeLt rootPid records)) /\
  forall i j a b, nodes !! i = Some a -> nodes !! j = Some b ->
  (lists (children g) i (n_id b) <-> i <> j /\ isCausallyRelated date a b = true /\ ~ both_pathless a b) /\
  (lists (parents g) j (n_id a) <-> i <> j /\ isCausallyRelated date a b = true /\ ~ both_pathless a b).
Proof.
  unfold reconstructGraph. destruct (allNodes_ok (below localeLt rootPid records)) as [Hd Hg]. split; [done|].
  split; [by intros x; apply (addNode_find _ x [])|]. set (nodes := allNodes _) in *. intros i j a b Hi Hj.
  assert (forall k l c d, nodes !! k = Some c -> nodes !! l = Some d -> n_id c = n_id d -> k = l) as Hinj.
  { intros k l c d Hk Hl E. eapply NoDup_lookup; [exact Hd|..]; rewrite list_lookup_fmap; [by rewrite Hk|by rewrite Hl; cbn; rewrite E]. }
  assert (genuine b) as Hb by (by apply (proj1 (Forall_lookup _ _) Hg j)). destruct (edges_listed date nodes) as [Hc Hp].
  assert (j ∈ candidates nodes (indexes nodes) a /\ isCausallyRelated date a b = true <->
    isCausallyRelated date a b = true /\ ~ both_pathless a b) as Hx.
  { rewrite (candidates_elem nodes a j Hg). split.
    - intros [(n & Hn & Hx) Hr]. simplify_eq. split; [done|]. by apply related_candidate with date.
    - intros [Hr Hn]. split; [|done]. exists b. split; [done|]. by apply related_candidate with date. }
  rewrite Hc, Hp. split; rewrite <-Hx; split.
  - intros (n & k & c & Hn & Hcand & (Hne & Hk & Hr) & E). simplify_eq. assert (j = k) as <- by (by eapply Hinj). by simplify_eq.
  - intros (Hne & Hcand & Hr). by exists a, j, b.
  - intros (k & n & c & Hn & Hcand & (Hne & Hk & Hr) & E). simplify_eq. assert (i = k) as <- by (by eapply Hinj). by simplify_eq.
  - intros (Hne & Hcand & Hr). by exists i, a, b.
Qed.

(** ** The processes below a root *)

(** A chain of records, each started by the process of one before it. *)
Inductive descends (root : Z) : list ForensicRecord -> Z -> Prop :=
| descends_root l : descends root l root
| descends_step l1 r l2 q : ppid r = Some q -> descends root l1 q -> descends root (l1 ++ r :: l2) (pid r).

Lemma descends_app root l l' p : descends root l p -> descends root (l ++ l') p.
Proof. intros [l0|l1 r l2 q Hq Hd]; [constructor|]. rewrite <- app_assoc. by apply (descends_step _ _ _ (l2 ++ l') q). Qed.

Lemma descends_snoc root l r p : descends root (l ++ [r]) p <->
  descends root l p \/ (p = pid r /\ exists q, ppid r = Some q /\ descends root l q).
Proof.
  split.
  - intros Hd. remember (l ++ [r]) as l' eqn:E. destruct Hd as [l0|l1 r' l2 q Hq Hd]; [left; constructor|].
    destruct l2 as [|r2 l2 _] using rev_ind.
    + apply app_inj_tail in E as [-> ->]. right. split; [done|]. by exists q.
    + rewrite app_comm_cons, app_assoc in E. apply app_inj_tail in E as [<- _]. left. by apply (descends_step _ _ _ _ q).
  - intros [Hd|(-> & q & Hq & Hd)]; [by apply descends_app|]. by apply (descends_step _ _ _ [] q).
Qed.

Lemma grow_elem included r p : p ∈ grow included r <-> p ∈ included \/ (p = pid r /\ exists q, ppid r = Some q /\ q ∈ included).
Proof.
  unfold grow. destruct (ppid r) as [q|]; [|naive_solver]. case_bool_decide; [rewrite set_add_elem|]; naive_solver.
Qed.

Lemma included_exact root l p : p ∈ fold_left grow l [root] <-> descends root l p.
Proof.
  revert p. induction l as [|r l IH] using rev_ind; intros p.
  - cbn. rewrite list_elem_of_singleton. split; [intros ->; constructor|]. intros Hd. remember [] as l' eqn:E. destruct Hd as [|[]]; done.
  - rewrite fold_left_app. cbn [fold_left]. rewrite grow_elem, descends_snoc. setoid_rewrite IH. done.
Qed.

(** Asking for the graph of a process keeps exactly the records of the
    process and of its descendants, where a descendant is reached by a chain
    of records, in the order of their time stamps, each started by the
    process of an earlier one. *)
Theorem descendants_exact localeLt root records r : root <> 0 ->
  r ∈ below localeLt (Some root) records <-> r ∈ records /\ descends root (byTime localeLt records) (pid r).
Proof.
  intros Hr. assert (below localeLt (Some root) records = List.filter (fun r => bool_decide (pid r ∈ fold_left grow (byTime localeLt records) [root])) records) as ->
    by (by destruct root).
  rewrite !list_elem_of_In, filter_In, bool_decide_eq_true, included_exact. done.
Qed.

(** ** A concrete graph *)

Definition shell : ForensicRecord := mkRecord 7 (Some 1) (js "sh") (js "execve") (js "1") None None.
Definition curl : ForensicRecord := mkRecord 8 (Some 7) (js "curl") (js "execve") (js "2") None None.
Definition call : ForensicRecord := mkRecord 8 (Some 7) (js "curl") (js "connect") (js "3") None (Some 443).
Definition other : ForensicRecord := mkRecord 9 (Some 2) (js "cron") (js "execve") (js "2") None None.
Definition date0 (s : jsstr) : option Z := match s with [c] => Some c | _ => None end.
Definition lt0 (a b : jsstr) : bool := match a, b with [x], [y] => x <? y | _, _ => false end.

Lemma descendants_exact_witness :
  call ∈ below lt0 (Some 7) [shell; curl; call; other] <->
  call ∈ [shell; curl; call; other] /\ descends 7 (byTime lt0 [shell; curl; call; other]) (pid call).
Proof. apply (descendants_exact lt0 7 [shell; curl; call; other] call). lia. Defined.

(** Comparing every pair would link this opening of a file, whose path is not
    recorded, to an unrelated process; the graph does not. *)
Definition opening : ForensicRecord := mkRecord 5 (Some 1) (js "vi") (js "openat") (js "1") None None.

Example pathless_unlinked : isCausallyRelated date0 (nodeOf opening) (nodeOf other) = true /\
  children (reconstructGraph date0 lt0 None [opening; other]).2 = [[]; []].
Proof. vm_compute. done. Qed.

Example attack_graph : let '(nodes, g) := reconstructGraph date0 lt0 (Some 7) [shell; curl; call; other] in
  map record nodes = [shell; curl; call] /\
  children g = [[getRecordId curl; getRecordId call]; [getRecordId call]; []] /\
  parents g = [[]; [getRecordId shell]; [getRecordId shell; getRecordId curl]].
Proof. vm_compute. done. Qed.
End Causal.
