(* ===== verification/ProcessTree.v ===== *)
(** * The process tree

    Models [src/orchestrator/domain/analysis/process_tracker.ts]
    ([ProcessTracker]): the tree of the processes seen, its updates, the
    verdict on shells, the cleanup of dead processes and the search for ghosts.
    The methods are cut at their awaits; what the process table answers is an
    input. *)

From S2P Require Import Prelude Result JsMap JsString.

Local Open Scope Z_scope.

Module ProcessTree.
Import JsString.

(** ** Data *)

Record ProcessNode := mkNode { n_pid : Z; n_ppid : Z; n_comm : jsstr; children : list Z; isGhost : bool }.

Definition with_children (f : list Z -> list Z) (n : ProcessNode) : ProcessNode :=
  mkNode (n_pid n) (n_ppid n) (n_comm n) (f (children n)) (isGhost n).

Definition Tree : Type := list (Z * ProcessNode).

Definition shells : list jsstr := map js ["bash"; "sh"; "dash"; "zsh"; "python"; "perl"; "php"; "ruby"]%string.
Definition suspiciousParents : list jsstr := map js ["nginx"; "apache2"; "node"; "python"; "php-fpm"; "clamscan"]%string.

(** Mutating the node that a key holds. *)
Definition modify (t : Tree) (p : Z) (f : ProcessNode -> ProcessNode) : Tree :=
  match JsMap.get t p with Some n => JsMap.set t p (f n) | None => t end.

Definition remove (pid : Z) (l : list Z) : list Z := List.filter (fun c => negb (c =? pid)) l.
Definition push (pid : Z) (l : list Z) : list Z := if bool_decide (pid ∈ l) then l else l ++ [pid].

(** ** Updates *)

Definition updateNode (t : Tree) (pid ppid : Z) (comm : jsstr) (ghost : bool) : Tree :=
  match JsMap.get t pid with
  | Some node =>
      let t := if negb (n_ppid node =? ppid) && (0 <? n_ppid node) then modify t (n_ppid node) (with_children (remove pid)) else t in
      modify t pid (fun n => mkNode (n_pid n) ppid comm (children n) (ghost || isGhost n))
  | None => JsMap.set t pid (mkNode pid ppid comm [] ghost)
  end.

Definition updateProcess (t : Tree) (pid ppid : Z) (comm : jsstr) (ghost : bool) : Tree :=
  let t := updateNode t pid ppid comm ghost in
  if 0 <? ppid then modify t ppid (with_children (push pid)) else t.

(** ** Shells *)

(** What the process table says of a process; a parent of [0] is none. *)
Record Info := mkInfo { i_ppid : Z; i_comm : jsstr }.

Definition suspicious (comm : jsstr) : bool := existsb (fun p => includes comm p) suspiciousParents.

Definition parentOf (stats : option Info) : option Z :=
  match stats with Some i => if i_ppid i =? 0 then None else Some (i_ppid i) | None => None end.

(** [analyzeEvent] up to the question about the parent. *)
Definition analyzeStart (t : Tree) (pid : Z) (comm : jsstr) (stats : option Info) : Tree :=
  match parentOf stats with Some ppid => updateProcess t pid ppid comm false | None => t end.

(** The rest, with the answer about the parent. *)
Definition analyzeEnd (t : Tree) (comm : jsstr) (stats : option Info) (active : list Z) (parent : option Info) : Tree * bool :=
  if bool_decide (comm ∈ shells) then
    match parentOf stats with
    | Some ppid =>
        match parent with
        | Some i => (updateProcess t ppid (i_ppid i) (i_comm i) false, suspicious (i_comm i))
        | None => (t, negb (bool_decide (ppid ∈ active)) &&
                      match JsMap.get t ppid with Some cached => suspicious (n_comm cached) | None => false end)
        end
    | None => (t, false)
    end
  else (t, false).

(** ** Cleanup *)

Definition drop_dead (t : Tree) (pid : Z) : Tree :=
  let t := match JsMap.get t pid with
           | Some node => if 0 <? n_ppid node then modify t (n_ppid node) (with_children (remove pid)) else t
           | None => t
           end in
  JsMap.delete t pid.

Definition cleanup (alive : Z -> bool) (t : Tree) : Tree :=
  fold_left drop_dead (List.filter (fun pid => negb (alive pid)) (JsMap.keys t)) t.

(** ** Ghosts *)

Definition ghostName (comm : jsstr) : jsstr := js "[[GHOST_PROCESS:" ++ comm ++ js "]]".

Definition haunt (n : ProcessNode) : ProcessNode := mkNode (n_pid n) (n_ppid n) (ghostName (n_comm n)) (children n) true.

Definition ghostly (active : list Z) (alive : Z -> bool) (ownPid : Z) (t : Tree) (pid : Z) : bool :=
  negb (bool_decide (pid ∈ active)) && negb (pid =? ownPid) && alive pid &&
  match JsMap.get t pid with Some n => negb (isGhost n) | None => false end.

Definition scanOne (active : list Z) (alive : Z -> bool) (ownPid : Z) (s : Tree * list Z) (pid : Z) : Tree * list Z :=
  let '(t, ghosts) := s in if ghostly active alive ownPid t pid then (modify t pid haunt, ghosts ++ [pid]) else (t, ghosts).

(** The first half of [scanForGhosts]; the second half is a sequence of updates. *)
Definition scanForGhosts (active : list Z) (alive : Z -> bool) (ownPid : Z) (t : Tree) : Tree * list Z :=
  fold_left (scanOne active alive ownPid)
    (JsMap.keys t) (t, []).

(** Active processes that the tree does not know. *)
Definition missed (active : list Z) (ownPid : Z) (t : Tree) : list Z :=
  List.filter (fun pid => negb (JsMap.has t pid) && negb (pid =? ownPid)) active.

(** ** Steps *)

Inductive input :=
| IUpdate (pid ppid : Z) (comm : jsstr)
| IAnalyze (pid : Z) (comm : jsstr) (stats : option Info)
| IParent (comm : jsstr) (stats : option Info) (active : list Z) (parent : option Info)
| ICleanup (alive : Z -> bool)
| IGhosts (active : list Z) (alive : Z -> bool) (ownPid : Z).

Definition step (t : Tree) (i : input) : Tree :=
  match i with
  | IUpdate pid ppid comm => updateProcess t pid ppid comm false
  | IAnalyze pid comm stats => analyzeStart t pid comm stats
  | IParent comm stats active parent => (analyzeEnd t comm stats active parent).1
  | ICleanup alive => cleanup alive t
  | IGhosts active alive ownPid => (scanForGhosts active alive ownPid t).1
  end.

Definition run (t : Tree) (ins : list input) : Tree := fold_left step ins t.

(** ** The children of a node are its children *)

Record tree_ok (t : Tree) : Prop := mkTreeOk {
  to_wf : JsMap.wf t;
  to_key : forall p n, JsMap.get t p = Some n -> n_pid n = p;
  to_nodup : forall p n, JsMap.get t p = Some n -> NoDup (children n);
  to_child : forall p n c, JsMap.get t p = Some n -> c ∈ children n -> 0 < p /\ exists m, JsMap.get t c = Some m /\ n_ppid m = p;
}.

Lemma modify_get t p f q : JsMap.get (modify t p f) q = if bool_decide (p = q) then f <$> JsMap.get t q else JsMap.get t q.
Proof.
  unfold modify. case_bool_decide as E; [subst q|]; destruct (JsMap.get t p) as [n|] eqn:Ep; try done.
  - by rewrite JsMap.get_set_eq.
  - by rewrite JsMap.get_set_ne.
Qed.

Lemma modify_wf t p f : JsMap.wf t -> JsMap.wf (modify t p f).
Proof. unfold modify. destruct (JsMap.get t p); [apply JsMap.wf_set|done]. Qed.

Lemma remove_elem pid l c : c ∈ remove pid l <-> c ∈ l /\ c <> pid.
Proof. unfold remove. rewrite !list_elem_of_In, filter_In, negb_true_iff, Z.eqb_neq. done. Qed.

Lemma remove_nodup pid l : NoDup l -> NoDup (remove pid l).
Proof. rewrite !NoDup_ListNoDup. apply List.NoDup_filter. Qed.

Lemma push_elem pid l c : c ∈ push pid l <-> c = pid \/ c ∈ l.
Proof. unfold push. case_bool_decide; set_solver. Qed.

Lemma push_nodup pid l : NoDup l -> NoDup (push pid l).
Proof. unfold push. intros Hl. case_bool_decide; [done|]. apply NoDup_app. split_and!; [done|set_solver|apply NoDup_singleton]. Qed.

(** Nodes changed in place, none of which moves or gains a child. *)
Lemma shrink_ok t t' : tree_ok t -> JsMap.wf t' ->
  (forall p, match JsMap.get t p, JsMap.get t' p with
    | Some n, Some n' => n_pid n' = n_pid n /\ n_ppid n' = n_ppid n /\ NoDup (children n') /\ (forall c, c ∈ children n' -> c ∈ children n)
    | None, None => True
    | _, _ => False
    end) -> tree_ok t'.
Proof.
  intros [H1 H2 H3 H4] Hwf Hrel.
  assert (forall p n', JsMap.get t' p = Some n' -> exists n, JsMap.get t p = Some n /\ n_pid n' = n_pid n /\ n_ppid n' = n_ppid n /\
    NoDup (children n') /\ (forall c, c ∈ children n' -> c ∈ children n)) as Hback.
  { intros p n' Hp. specialize (Hrel p). rewrite Hp in Hrel. destruct (JsMap.get t p) as [n|]; [|done]. by exists n. }
  split; [done|..].
  - intros p n' (n & Hn & E & _)%Hback. rewrite E. by apply H2.
  - intros p n' (n & Hn & _ & _ & Hd & _)%Hback. done.
  - intros p n' c (n & Hn & _ & _ & _ & Hsub)%Hback Hc. destruct (H4 _ _ _ Hn (Hsub _ Hc)) as (Hp & m & Hm & E). split; [done|].
    specialize (Hrel c). rewrite Hm in Hrel. destruct (JsMap.get t' c) as [m'|]; [|done]. exists m'. split; [done|]. destruct Hrel as (_ & -> & _). done.
Qed.

Lemma remove_ok t p pid : tree_ok t -> tree_ok (modify t p (with_children (remove pid))).
Proof.
  intros Ht. eapply shrink_ok; [exact Ht|apply modify_wf, Ht|]. intros q. rewrite modify_get.
  case_bool_decide; subst; destruct (JsMap.get t q) as [n|] eqn:E; cbn; try done; split_and!; try done.
  - apply remove_nodup. by eapply to_nodup.
  - intros c [? _]%remove_elem. done.
  - by eapply to_nodup.
Qed.

(** After [remove], nobody lists [pid] any more. *)
Definition unlisted (t : Tree) (pid : Z) : Prop := forall p n, JsMap.get t p = Some n -> pid ∉ children n.

Lemma remove_unlisted t pid node : tree_ok t -> JsMap.get t pid = Some node ->
  unlisted (if 0 <? n_ppid node then modify t (n_ppid node) (with_children (remove pid)) else t) pid.
Proof.
  intros Ht Hn p n Hp Hin. destruct (Z.ltb_spec 0 (n_ppid node)) as [Hlt|Hle].
  - rewrite modify_get in Hp. case_bool_decide as E.
    + subst p. destruct (JsMap.get t (n_ppid node)); [|done]. injection Hp as <-. cbn in Hin. by apply remove_elem in Hin as [_ ?].
    + destruct (to_child _ Ht _ _ _ Hp Hin) as (_ & m & Hm & Em). congruence.
  - destruct (to_child _ Ht _ _ _ Hp Hin) as (Hpos & m & Hm & Em). rewrite Hn in Hm. injection Hm as <-. lia.
Qed.

(** A node nobody lists may move. *)
Lemma move_ok t pid f : tree_ok t -> unlisted t pid -> (forall n, n_pid (f n) = n_pid n /\ children (f n) = children n) ->
  tree_ok (modify t pid f).
Proof.
  intros [H1 H2 H3 H4] Hu Hf.
  assert (forall p n', JsMap.get (modify t pid f) p = Some n' -> exists n, JsMap.get t p = Some n /\ n_pid n' = n_pid n /\ children n' = children n) as Hback.
  { intros p n'. rewrite modify_get. case_bool_decide; [|eauto]. destruct (JsMap.get t p) as [n|]; [|done]. intros [= <-]. exists n. split; [done|apply Hf]. }
  split; [by apply modify_wf|..].
  - intros p n' (n & Hn & -> & _)%Hback. by apply H2.
  - intros p n' (n & Hn & _ & ->)%Hback. by eapply H3.
  - intros p n' c (n & Hn & _ & ->)%Hback Hc. destruct (H4 _ _ _ Hn Hc) as (Hp & m & Hm & E). split; [done|]. exists m.
    split; [|done]. rewrite modify_get, bool_decide_eq_false_2; [done|]. intros <-. exact (Hu _ _ Hn Hc).
Qed.

Lemma insert_ok t pid node : tree_ok t -> JsMap.get t pid = None -> n_pid node = pid -> children node = [] -> tree_ok (JsMap.set t pid node).
Proof.
  intros [H1 H2 H3 H4] Hnone Hp Hc.
  assert (forall p n, JsMap.get (JsMap.set t pid node) p = Some n -> p = pid /\ n = node \/ p <> pid /\ JsMap.get t p = Some n) as Hback.
  { intros p n. destruct (decide (pid = p)) as [<-|Hne]; [rewrite JsMap.get_set_eq; intros [= <-]; by left|].
    rewrite JsMap.get_set_ne by done. by right. }
  split; [by apply JsMap.wf_set|..].
  - intros p n [[-> ->]|[_ Hn]]%Hback; [done|by apply H2].
  - intros p n [[-> ->]|[_ Hn]]%Hback; [rewrite Hc; constructor|by eapply H3].
  - intros p n c [[-> ->]|[_ Hn]]%Hback Hin; [rewrite Hc in Hin; by apply not_elem_of_nil in Hin|].
    destruct (H4 _ _ _ Hn Hin) as (Hpos & m & Hm & E). split; [done|]. exists m. split; [|done]. rewrite JsMap.get_set_ne; [done|congruence].
Qed.

Lemma adopt_ok t pid ppid : tree_ok t -> 0 < ppid -> (exists m, JsMap.get t pid = Some m /\ n_ppid m = ppid) ->
  tree_ok (modify t ppid (with_children (push pid))).
Proof.
  intros [H1 H2 H3 H4] Hpos (m & Hm & Em).
  assert (forall c x, JsMap.get t c = Some x -> exists y, JsMap.get (modify t ppid (with_children (push pid))) c = Some y /\ n_ppid y = n_ppid x) as Hforth.
  { intros c x Hx. rewrite modify_get, Hx. case_bool_decide; eexists; by split. }
  split; [by apply modify_wf|..].
  - intros p n. rewrite modify_get. case_bool_decide; [|apply H2]. destruct (JsMap.get t p) as [x|] eqn:E; [|done]. intros [= <-]. cbn; by apply H2.
  - intros p n. rewrite modify_get. case_bool_decide; [|apply H3]. destruct (JsMap.get t p) as [x|] eqn:E; [|done]. intros [= <-]. by eapply push_nodup, H3.
  - intros p n c. rewrite modify_get. case_bool_decide as E; [subst p; destruct (JsMap.get t ppid) as [x|] eqn:Ex; [|done]; intros [= <-]|intros Hn Hc].
    + cbn. intros [->|Hc]%push_elem.
      * split; [done|]. destruct (Hforth _ _ Hm) as (y & Hy & Ey). exists y. split; [done|congruence].
      * destruct (H4 _ _ _ Ex Hc) as (_ & z & Hz & Ez). split; [done|]. destruct (Hforth _ _ Hz) as (y & Hy & Ey). exists y. split; [done|congruence].
    + destruct (H4 _ _ _ Hn Hc) as (Hp & z & Hz & Ez). split; [done|]. destruct (Hforth _ _ Hz) as (y & Hy & Ey). exists y. split; [done|congruence].
Qed.

Lemma updateNode_ok t pid ppid comm ghost : tree_ok t ->
  tree_ok (updateNode t pid ppid comm ghost) /\ exists m, JsMap.get (updateNode t pid ppid comm ghost) pid = Some m /\ n_ppid m = ppid.
Proof.
  intros Ht. unfold updateNode. destruct (JsMap.get t pid) as [node|] eqn:E; [|].
  2:{ split; [by apply insert_ok|]. rewrite JsMap.get_set_eq. by eexists. }
  set (t1 := if _ && _ then _ else t). set (f := fun n => mkNode _ ppid comm _ _).
  assert (is_Some (JsMap.get t1 pid)) as [x Hx].
  { subst t1. destruct (_ && _); [|by eexists]. rewrite modify_get, E. case_bool_decide; by eexists. }
  split; [|exists (f x); rewrite modify_get, bool_decide_eq_true_2, Hx by done; done].
  destruct (Z.eqb_spec (n_ppid node) ppid) as [Heq|Hne]; cbn [negb andb] in t1.
  - eapply shrink_ok; [exact Ht|apply modify_wf, Ht|]. intros p. rewrite modify_get. subst t1.
    case_bool_decide; subst; destruct (JsMap.get t p) as [n|] eqn:Ep; cbn; try done; (split_and!; try done).
    + congruence.
    + by eapply to_nodup.
    + by eapply to_nodup.
  - assert (tree_ok t1) as H1 by (subst t1; destruct (_ <? _); [by apply remove_ok|done]).
    apply move_ok; [done| |done]. exact (remove_unlisted t pid node Ht E).
Qed.

Lemma update_tree_ok t pid ppid comm ghost : tree_ok t -> tree_ok (updateProcess t pid ppid comm ghost).
Proof.
  intros Ht. unfold updateProcess. destruct (updateNode_ok t pid ppid comm ghost Ht) as [Hu Hm].
  destruct (Z.ltb_spec 0 ppid); [by apply adopt_ok|done].
Qed.

Lemma absent_unlisted t pid : tree_ok t -> JsMap.get t pid = None -> unlisted t pid.
Proof. intros Ht Hn p n Hp Hin. destruct (to_child _ Ht _ _ _ Hp Hin) as (_ & m & Hm & _). congruence. Qed.

Lemma delete_tree_ok t pid : tree_ok t -> unlisted t pid -> tree_ok (JsMap.delete t pid).
Proof.
  intros [H1 H2 H3 H4] Hu.
  assert (forall p n, JsMap.get (JsMap.delete t pid) p = Some n -> p <> pid /\ JsMap.get t p = Some n) as Hback.
  { intros p n. destruct (decide (pid = p)) as [<-|Hne]; [by rewrite JsMap.get_delete_eq|by rewrite JsMap.get_delete_ne]. }
  split; [by apply JsMap.wf_delete|..].
  - intros p n [_ Hn]%Hback. by apply H2.
  - intros p n [_ Hn]%Hback. by eapply H3.
  - intros p n c [_ Hn]%Hback Hc. destruct (H4 _ _ _ Hn Hc) as (Hp & m & Hm & E). split; [done|]. exists m. split; [|done].
    rewrite JsMap.get_delete_ne; [done|]. intros <-. exact (Hu _ _ Hn Hc).
Qed.

Lemma drop_dead_ok t pid : tree_ok t -> tree_ok (drop_dead t pid).
Proof.
  intros Ht. unfold drop_dead. destruct (JsMap.get t pid) as [node|] eqn:E.
  - apply delete_tree_ok; [destruct (_ <? _); [by apply remove_ok|done]|by apply remove_unlisted].
  - apply delete_tree_ok; [done|by apply absent_unlisted].
Qed.

Lemma haunt_ok t pid : tree_ok t -> tree_ok (modify t pid haunt).
Proof.
  intros Ht. eapply shrink_ok; [exact Ht|apply modify_wf, Ht|]. intros p. rewrite modify_get.
  case_bool_decide; subst; destruct (JsMap.get t p) as [n|] eqn:E; cbn; try done; (split_and!; try done); by eapply to_nodup.
Qed.

Lemma scan_ok active alive ownPid l : forall t ghosts, tree_ok t ->
  tree_ok (fold_left (scanOne active alive ownPid) l (t, ghosts)).1.
Proof. induction l as [|pid l IH]; intros t ghosts Ht; cbn [fold_left scanOne]; [done|]. destruct (ghostly _ _ _ _ _); apply IH; [by apply haunt_ok|done]. Qed.

Lemma step_tree_ok t i : tree_ok t -> tree_ok (step t i).
Proof.
  intros Ht. destruct i as [pid ppid comm|pid comm stats|comm stats active parent|alive|active alive ownPid]; cbn [step].
  - by apply update_tree_ok.
  - unfold analyzeStart. destruct (parentOf stats); [by apply update_tree_ok|done].
  - unfold analyzeEnd. case_bool_decide; [|done]. destruct (parentOf stats); [|done]. destruct parent; [by apply update_tree_ok|done].
  - unfold cleanup. generalize (List.filter (fun pid => negb (alive pid)) (JsMap.keys t)). intros l. revert t Ht.
    induction l as [|pid l IH]; intros t Ht; cbn [fold_left]; [done|]. by apply IH, drop_dead_ok.
  - by apply scan_ok.
Qed.

(** The tree stays a tree of processes: over any interleaving of updates,
    analyses, cleanups and ghost scans, a process that a node lists as its
    child is in the tree, has that node as its parent, and is listed once;
    so no dead or moved process lingers in a list of children. *)
Theorem process_tree_sound ins : tree_ok (run [] ins).
Proof.
  assert (tree_ok []) as H0 by (split; [constructor|done..]). revert H0. generalize (@nil (Z * ProcessNode)).
  unfold run. induction ins as [|i ins IH]; intros t Ht; cbn [fold_left]; [done|]. by apply IH, step_tree_ok.
Qed.

(** ** Ghosts are found once *)

Lemma ghostly_other active alive ownPid t p pid : p <> pid ->
  ghostly active alive ownPid (modify t p haunt) pid = ghostly active alive ownPid t pid.
Proof. intros Hne. unfold ghostly. by rewrite modify_get, (bool_decide_eq_false_2 (p = pid)). Qed.

Lemma ghostly_self active alive ownPid t pid : ghostly active alive ownPid (modify t pid haunt) pid = false.
Proof. unfold ghostly. rewrite modify_get, (bool_decide_eq_true_2 (pid = pid)) by done. destruct (JsMap.get t pid); cbn; by rewrite andb_false_r. Qed.

Lemma scan_spec active alive ownPid l : NoDup l -> forall t ghosts,
  let r := fold_left (scanOne active alive ownPid) l (t, ghosts) in
  r.2 = ghosts ++ List.filter (ghostly active alive ownPid t) l /\
  (forall pid, ghostly active alive ownPid r.1 pid = ghostly active alive ownPid t pid && negb (bool_decide (pid ∈ l))) /\ JsMap.keys r.1 = JsMap.keys t.
Proof.
  induction 1 as [|p l Hp Hl IH]; intros t ghosts r; subst r; cbn [fold_left scanOne List.filter].
  { rewrite app_nil_r. split_and!; try done. intros pid. rewrite (bool_decide_eq_false_2 (pid ∈ [])) by apply not_elem_of_nil. by rewrite andb_true_r. }
  destruct (ghostly active alive ownPid t p) eqn:E.
  - destruct (IH (modify t p haunt) (ghosts ++ [p])) as (A & B & C). rewrite A, C, <- app_assoc. split_and!.
    + cbn [app]. f_equal. f_equal. apply filter_ext_in. intros x Hx. apply ghostly_other. intros <-. apply Hp. by apply list_elem_of_In.
    + intros pid. rewrite B. destruct (decide (p = pid)) as [<-|Hne].
      * rewrite ghostly_self. rewrite (bool_decide_eq_true_2 (p ∈ p :: l)) by apply list_elem_of_here. by rewrite andb_false_r.
      * rewrite ghostly_other by done. f_equal. f_equal. apply bool_decide_ext. rewrite elem_of_cons. naive_solver.
    + unfold modify. destruct (JsMap.get t p) as [n|] eqn:Eg; [|done]. rewrite JsMap.keys_set. unfold JsMap.has. by rewrite Eg.
  - destruct (IH t ghosts) as (A & B & C). split_and!; [done| |done]. intros pid. rewrite B. destruct (decide (p = pid)) as [<-|Hne].
    + by rewrite E.
    + f_equal. f_equal. apply bool_decide_ext. rewrite elem_of_cons. naive_solver.
Qed.

(** A ghost scan reports exactly the processes of the tree that the process
    table hides although they are alive, except the orchestrator itself and
    ghosts reported before; and a second scan right after it reports nothing. *)
Theorem ghosts_exact active alive ownPid (t : Tree) : JsMap.wf t ->
  let '(t', ghosts) := scanForGhosts active alive ownPid t in
  (forall pid, pid ∈ ghosts <-> exists n, JsMap.get t pid = Some n /\ isGhost n = false /\ pid ∉ active /\ pid <> ownPid /\ alive pid = true) /\
  (scanForGhosts active alive ownPid t').2 = [].
Proof.
  intros Hwf. unfold scanForGhosts. destruct (scan_spec active alive ownPid (JsMap.keys t) Hwf t []) as (A & B & C).
  destruct (fold_left (scanOne active alive ownPid) (JsMap.keys t) (t, [])) as [t' ghosts]. cbn [fst snd] in *. split.
  - intros pid. rewrite A, list_elem_of_In, app_nil_l, filter_In, <- list_elem_of_In. unfold ghostly.
    rewrite !andb_true_iff, !negb_true_iff, bool_decide_eq_false, Z.eqb_neq. split.
    + intros (Hk & ((Ha & Ho) & Hal) & Hg). destruct (JsMap.get t pid) as [n|]; [|done]. exists n. apply negb_true_iff in Hg. by split_and!.
    + intros (n & Hn & Hg & Ha & Ho & Hal). rewrite Hn, Hg. split_and!; try done. apply JsMap.get_Some_elem in Hn. apply list_elem_of_fmap. by exists (pid, n).
  - destruct (scan_spec active alive ownPid (JsMap.keys t') ltac:(by rewrite C) t' []) as (A' & _). rewrite A'. cbn [app].
    rewrite C. clear -B. assert (forall l, (forall x, x ∈ l -> x ∈ JsMap.keys t) -> List.filter (ghostly active alive ownPid t') l = []) as Hl; [|by apply Hl].
    induction l as [|x l IH]; intros Hx; cbn [List.filter]; [done|]. rewrite B, (bool_decide_eq_true_2 (x ∈ JsMap.keys t)) by (apply Hx, list_elem_of_here).
    rewrite andb_false_r. apply IH. intros y Hy. by apply Hx, list_elem_of_further.
Qed.

(** ** A concrete tree *)

Definition tree0 : Tree := run [] [IUpdate 1 0 (js "init"); IUpdate 7 1 (js "sh"); IUpdate 8 7 (js "x"); IUpdate 8 1 (js "x")].

Lemma ghosts_exact_witness : (scanForGhosts [1; 7] (fun _ => true) 1 tree0).2 = [8] /\
  let '(t', ghosts) := scanForGhosts [1; 7] (fun _ => true) 1 tree0 in
  (forall pid, pid ∈ ghosts <-> exists n, JsMap.get tree0 pid = Some n /\ isGhost n = false /\ pid ∉ [1; 7] /\ pid <> 1 /\ (fun _ => true) pid = true) /\
  (scanForGhosts [1; 7] (fun _ => true) 1 t').2 = [].
Proof.
  split; [vm_compute; reflexivity|]. apply (ghosts_exact [1; 7] (fun _ => true) 1 tree0).
  unfold JsMap.wf. replace (JsMap.keys tree0) with [1; 7; 8] by (vm_compute; reflexivity).
  apply (bool_decide_eq_true_1 (NoDup [1; 7; 8])). reflexivity.
Defined.
End ProcessTree.
