(* ===== verification/Behavior.v ===== *)
(** * Behavioural analysis

    Models [src/orchestrator/domain/analysis/behavioral_analyzer.ts]
    ([BehavioralAnalyzer]): connection traces and their regularity, system call
    frequencies and sequences, the intent signatures, the anomaly score and the
    persisted baselines.  Numbers are exact rationals where the source computes
    with floating-point numbers; [Date.now()] is an input. *)

From S2P Require Import Prelude Result JsMap JsString.
From Stdlib Require Import QArith Qminmax Lqa.

Local Open Scope Z_scope.

Module Behavior.
Import JsString.

(** ** State *)

Record ConnectionTrace := mkTrace { t_timestamp : Z; delta : Z }.
Record Sequence := mkSequence { syscalls : list jsstr; lastUpdate : Z }.

Record Analyzer := mkAnalyzer {
  traces : list (jsstr * list ConnectionTrace);
  syscallFrequencies : list (jsstr * list (jsstr * Z));
  slidingWindow : list (jsstr * list Q);
  syscallSequences : list (Z * Sequence);
  isLearningMode : bool;
}.

Definition new : Analyzer := mkAnalyzer [] [] [] [] false.

Definition with_traces (x : list (jsstr * list ConnectionTrace)) (s : Analyzer) : Analyzer :=
  mkAnalyzer x (syscallFrequencies s) (slidingWindow s) (syscallSequences s) (isLearningMode s).
Definition with_windows (x : list (jsstr * list Q)) (s : Analyzer) : Analyzer :=
  mkAnalyzer (traces s) (syscallFrequencies s) x (syscallSequences s) (isLearningMode s).

(** [push], then [shift] when the array is longer than [n]. *)
Definition bounded_push {A} (n : nat) (l : list A) (x : A) : list A :=
  let l := l ++ [x] in if (n <? length l)%nat then tail l else l.

(** ** Connections *)

Definition track (ip : jsstr) (now : Z) (s : Analyzer) : Analyzer :=
  let trace := default [] (JsMap.get (traces s) ip) in
  let d := match last trace with Some l => now - t_timestamp l | None => 0 end in
  with_traces (JsMap.set (traces s) ip (bounded_push 50 trace (mkTrace now d))) s.

Definition qsum (l : list Q) : Q := fold_left Qplus l (0 # 1).
Definition qmean (l : list Q) : Q := (qsum l / inject_Z (Z.of_nat (length l)))%Q.

Definition entropyOf (deltas : list Q) : Q :=
  let mean := qmean deltas in
  let variance := qmean (map (fun b => (b - mean) * (b - mean))%Q deltas) in
  let normalizationFactor := Qmax 1000 (mean * 2) in
  if Qeq_bool variance 0 then 0%Q else Qmin (variance / normalizationFactor) 1.

(** [analyze]: the new state, the probability of a bot and the entropy. *)
Definition analyze (ip : jsstr) (s : Analyzer) : Analyzer * (Q * Q) :=
  match JsMap.get (traces s) ip with
  | Some trace =>
      if (length trace <? 5)%nat then (s, (0, 1)%Q)
      else
        let current := entropyOf (map (fun t => inject_Z (delta t)) (tail trace)) in
        let window := bounded_push 5 (default [] (JsMap.get (slidingWindow s) ip)) current in
        let avg := qmean window in
        (with_windows (JsMap.set (slidingWindow s) ip window) s, (Qmax 0 (Qmin 1 (1 - avg)), avg))
  | None => (s, (0, 1)%Q)
  end.

(** ** System calls *)

Definition trackSyscall (pid : Z) (comm syscall : jsstr) (now : Z) (s : Analyzer) : Analyzer :=
  let freqMap := default [] (JsMap.get (syscallFrequencies s) comm) in
  let data := default (mkSequence [] now) (JsMap.get (syscallSequences s) pid) in
  mkAnalyzer (traces s)
    (JsMap.set (syscallFrequencies s) comm (JsMap.set freqMap syscall (default 0 (JsMap.get freqMap syscall) + 1)))
    (slidingWindow s)
    (JsMap.set (syscallSequences s) pid (mkSequence (bounded_push 10 (syscalls data) syscall) now))
    (isLearningMode s).

Record Signature := mkSignature { sig_name : string; sig_sequence : list jsstr; weight : Q }.

Definition signature (name : string) (a b c : string) (w : Q) : Signature := mkSignature name [js a; js b; js c] w.

Definition INTENT_SIGNATURES : list Signature :=
  [signature "SHELLCODE_INJECT" "mmap" "mprotect" "ptrace" 1;
   signature "CREDENTIAL_HARVEST" "openat" "read" "connect" (8 # 10);
   signature "EXFIL_STAGING" "socket" "connect" "write" (7 # 10);
   signature "RECONNAISSANCE" "getuid" "getgid" "uname" (5 # 10);
   signature "PERSISTENCE_SETUP" "openat" "write" "chmod" (6 # 10)].

Definition MAX_NOISE : nat := 2.

(** The loop over the sequence for one signature. *)
Fixpoint matchLoop (sig : list jsstr) (sigIdx noise : nat) (sequence : list jsstr) : bool :=
  match sequence with
  | [] => false
  | syscall :: rest =>
      let '(sigIdx, noise) :=
        if bool_decide (sig !! sigIdx = Some syscall) then (S sigIdx, noise)
        else if (0 <? sigIdx)%nat then (sigIdx, S noise) else (sigIdx, noise) in
      let '(sigIdx, noise) := if (MAX_NOISE <? noise)%nat then (0%nat, 0%nat) else (sigIdx, noise) in
      if (sigIdx =? length sig)%nat then true else matchLoop sig sigIdx noise rest
  end.

Definition getIntentVerdict (pid : Z) (s : Analyzer) : option (string * Q) :=
  match JsMap.get (syscallSequences s) pid with
  | Some data =>
      match find (fun sig => matchLoop (sig_sequence sig) 0 0 (syscalls data)) INTENT_SIGNATURES with
      | Some sig => Some (sig_name sig, weight sig)
      | None => None
      end
  | None => None
  end.

Definition getSyscallAnomalyScore (comm syscall : jsstr) (s : Analyzer) : Q :=
  if isLearningMode s then 0%Q
  else
    match JsMap.get (syscallFrequencies s) comm with
    | Some freqMap =>
        let total := fold_left Z.add (map snd freqMap) 0 in
        let count := default 0 (JsMap.get freqMap syscall) in
        if total =? 0 then 0%Q
        else
          let smoothed := (inject_Z (count + 1) / inject_Z (total + 10))%Q in
          Qmin (Qmax 0 (1 - smoothed * 5)) 1
    | None => 0%Q
    end.

(** ** Purge *)

Definition STALE_THRESHOLD : Z := 3600000.
Definition SEQUENCE_TTL : Z := 900000.

Definition staleTrace (now : Z) (trace : list ConnectionTrace) : bool :=
  match last trace with Some l => STALE_THRESHOLD <? now - t_timestamp l | None => false end.

Definition purgeStaleData (now : Z) (s : Analyzer) : Analyzer :=
  let dead := map fst (List.filter (fun e => staleTrace now e.2) (traces s)) in
  let old := map fst (List.filter (fun e => SEQUENCE_TTL <? now - lastUpdate e.2) (syscallSequences s)) in
  mkAnalyzer (fold_left JsMap.delete dead (traces s)) (syscallFrequencies s) (fold_left JsMap.delete dead (slidingWindow s))
    (fold_left JsMap.delete old (syscallSequences s)) (isLearningMode s).

(** ** Baselines *)

(** [serialized[comm] = ...]: assigning to [__proto__] creates no property. *)
Definition assign (o : list (jsstr * list (jsstr * Z))) (e : jsstr * list (jsstr * Z)) : list (jsstr * list (jsstr * Z)) :=
  if bool_decide (e.1 = js "__proto__") then o else JsMap.set o e.1 e.2.

Definition persistBaselines (s : Analyzer) : list (jsstr * list (jsstr * Z)) := fold_left assign (syscallFrequencies s) [].

Definition loadBaselines (data : list (jsstr * list (jsstr * Z))) (s : Analyzer) : Analyzer :=
  mkAnalyzer (traces s) (fold_left (fun m e => JsMap.set m e.1 e.2) data (syscallFrequencies s))
    (slidingWindow s) (syscallSequences s) (isLearningMode s).

Definition setLearningMode (enabled : bool) (s : Analyzer) : Analyzer :=
  mkAnalyzer (traces s) (syscallFrequencies s) (slidingWindow s) (syscallSequences s) enabled.

Inductive input :=
| ITrack (ip : jsstr) (now : Z)
| IAnalyze (ip : jsstr)
| ISyscall (pid : Z) (comm syscall : jsstr) (now : Z)
| IPurge (now : Z)
| ILoad (data : list (jsstr * list (jsstr * Z)))
| ILearn (enabled : bool).

Definition step (s : Analyzer) (i : input) : Analyzer :=
  match i with
  | ITrack ip now => track ip now s
  | IAnalyze ip => (analyze ip s).1
  | ISyscall pid comm syscall now => trackSyscall pid comm syscall now s
  | IPurge now => purgeStaleData now s
  | ILoad data => loadBaselines data s
  | ILearn enabled => setLearningMode enabled s
  end.

Definition run (s : Analyzer) (ins : list input) : Analyzer := fold_left step ins s.

(** ** Intent signatures *)

(** The signature is spread over consecutive calls, with at most two others
    among them. *)
Definition spread (sig seg : list jsstr) : Prop := sig `sublist_of` seg /\ (length seg <= length sig + MAX_NOISE)%nat.

(** The attempt under way: [p] are the calls since its first match. *)
Definition attempt_ok (sig : list jsstr) (idx noise : nat) (p : list jsstr) : Prop :=
  (idx < length sig)%nat /\ length p = (idx + noise)%nat /\ (idx = 0%nat -> p = []) /\ (noise <= MAX_NOISE)%nat /\ take idx sig `sublist_of` p.

Lemma matchLoop_sound sig sequence : forall idx noise p, attempt_ok sig idx noise p -> matchLoop sig idx noise sequence = true ->
  exists pre seg post, p ++ sequence = pre ++ seg ++ post /\ spread sig seg.
Proof.
  induction sequence as [|x rest IH]; intros idx noise p (Hi & Hl & H0 & Hn & Hs) Hm; cbn [matchLoop] in Hm; [done|].
  assert (forall idx' noise' q, attempt_ok sig idx' noise' q -> (exists pre, p ++ [x] = pre ++ q) -> matchLoop sig idx' noise' rest = true ->
    exists pre seg post, p ++ x :: rest = pre ++ seg ++ post /\ spread sig seg) as Hgo.
  { intros idx' noise' q Hq [pre Hpre] Hm'. destruct (IH _ _ _ Hq Hm') as (pre' & seg & post & E & Hseg).
    exists (pre ++ pre'), seg, post. split; [|done]. rewrite <- app_assoc, <- E, app_assoc, <- Hpre, <- app_assoc. done. }
  case_bool_decide as Hx.
  - assert (take (S idx) sig `sublist_of` p ++ [x]) as Hs'.
    { rewrite (take_S_r _ _ _ Hx). by apply sublist_app. }
    assert ((MAX_NOISE <? noise)%nat = false) as E by (apply Nat.ltb_ge; done). rewrite E in Hm.
    destruct (Nat.eqb_spec (S idx) (length sig)) as [Hend|Hne].
    + exists [], (p ++ [x]), rest. rewrite app_nil_l, <- app_assoc. split; [done|]. split.
      * by rewrite Hend, firstn_all in Hs'.
      * rewrite length_app. cbn. lia.
    + apply (Hgo (S idx) noise (p ++ [x])); [|by exists []|done]. split_and!; [lia|rewrite length_app; cbn; lia|done|done|done].
  - destruct (Nat.ltb_spec 0 idx) as [Hpos|Hz].
    + destruct (Nat.ltb_spec MAX_NOISE (S noise)) as [Hmany|Hfew]; cbn [Nat.eqb] in Hm.
      * destruct (length sig) as [|n] eqn:El; [lia|]. apply (Hgo 0%nat 0%nat []); [|exists (p ++ [x]); by rewrite app_nil_r|done].
        unfold attempt_ok. rewrite El. split_and!; [lia|done|done|unfold MAX_NOISE; lia|apply sublist_nil_l].
      * rewrite (proj2 (Nat.eqb_neq idx (length sig))) in Hm by lia.
        apply (Hgo idx (S noise) (p ++ [x])); [|by exists []|done]. split_and!; [done|rewrite length_app; cbn; lia|lia|lia|].
        by apply sublist_inserts_r.
    + assert (idx = 0%nat) as -> by lia. rewrite (H0 eq_refl) in *. cbn in Hl. subst noise. rewrite (proj2 (Nat.ltb_ge MAX_NOISE 0)) in Hm by (unfold MAX_NOISE; lia).
      rewrite (proj2 (Nat.eqb_neq 0 (length sig))) in Hm by lia. apply (Hgo 0%nat 0%nat []); [|exists [x]; by rewrite app_nil_r|done].
      split_and!; [lia|done|done|unfold MAX_NOISE; lia|apply sublist_nil_l].
Qed.

(** A verdict is never made up: when the analyzer reports an intent, the
    calls of one of its signatures occur in order among the last ten calls of
    the process, with at most two other calls between the first and the
    last. *)
Theorem intent_sound pid s name w : getIntentVerdict pid s = Some (name, w) ->
  exists sig data pre seg post, sig ∈ INTENT_SIGNATURES /\ sig_name sig = name /\ weight sig = w /\
    JsMap.get (syscallSequences s) pid = Some data /\ syscalls data = pre ++ seg ++ post /\ spread (sig_sequence sig) seg.
Proof.
  unfold getIntentVerdict. destruct (JsMap.get (syscallSequences s) pid) as [data|]; [|done]. destruct (find _ _) as [sig|] eqn:E; [|done]. intros [= <- <-].
  apply find_some in E as [Hin Hm]. apply list_elem_of_In in Hin.
  destruct (matchLoop_sound (sig_sequence sig) (syscalls data) 0 0 []) as (pre & seg & post & Eq & Hs); [|done|by exists sig, data, pre, seg, post].
  split_and!; [|done|done|unfold MAX_NOISE; lia|apply sublist_nil_l].
  assert (Forall (fun x => length (sig_sequence x) = 3%nat) INTENT_SIGNATURES) as Hl by (by repeat constructor).
  rewrite (proj1 (Forall_forall _ _) Hl sig Hin). lia.
Qed.

Lemma sublist_cons_ne {A} (x y : A) l k : x <> y -> x :: l `sublist_of` y :: k -> x :: l `sublist_of` k.
Proof. intros Hne Hs. inversion Hs; subst; [done|done]. Qed.

Lemma sublist_cons_inv {A} (x : A) l k : x :: l `sublist_of` x :: k -> l `sublist_of` k.
Proof. intros Hs. inversion Hs; subst; [done|]. etrans; [|eassumption]. by apply sublist_cons. Qed.

Lemma matchLoop_complete sig post seg : forall idx noise, (0 < idx < length sig)%nat -> drop idx sig `sublist_of` seg ->
  (noise + length seg <= length (drop idx sig) + MAX_NOISE)%nat -> matchLoop sig idx noise (seg ++ post) = true.
Proof.
  induction seg as [|x seg IH]; intros idx noise Hi Hs Hn.
  { apply sublist_nil_r, (f_equal length) in Hs. rewrite length_drop in Hs. cbn in Hs. lia. }
  destruct (lookup_lt_is_Some_2 sig idx ltac:(lia)) as [y Hy]. rewrite (drop_S _ _ _ Hy) in Hs, Hn. cbn [app matchLoop length] in *.
  pose proof (sublist_length _ _ Hs) as Hlen. cbn in Hlen. case_bool_decide as Hx.
  - rewrite Hy in Hx. injection Hx as ->. apply sublist_cons_inv in Hs. rewrite (proj2 (Nat.ltb_ge MAX_NOISE noise)) by lia.
    destruct (Nat.eqb_spec (S idx) (length sig)); [done|]. apply IH; [lia|done|lia].
  - rewrite (proj2 (Nat.ltb_lt 0 idx)) by lia. assert (y <> x) as Hyx by congruence. apply sublist_cons_ne in Hs; [|done].
    pose proof (sublist_length _ _ Hs) as Hlen'. cbn in Hlen'. rewrite (proj2 (Nat.ltb_ge MAX_NOISE (S noise))) by lia.
    rewrite (proj2 (Nat.eqb_neq idx (length sig))) by lia. apply IH; [lia|by rewrite (drop_S _ _ _ Hy)|rewrite (drop_S _ _ _ Hy); cbn; lia].
Qed.

Lemma matchLoop_skip sig a pre rest : sig !! 0%nat = Some a -> a ∉ pre -> matchLoop sig 0 0 (pre ++ rest) = matchLoop sig 0 0 rest.
Proof.
  intros Ha. induction pre as [|x pre IH]; intros Hp; [done|]. apply not_elem_of_cons in Hp as [Hx Hp]. cbn [app matchLoop].
  rewrite bool_decide_eq_false_2 by congruence. cbn [Nat.ltb Nat.leb MAX_NOISE]. destruct sig as [|b sig]; [done|]. cbn [length Nat.eqb]. by apply IH.
Qed.

(** The first attempt is never missed: when the calls of a signature occur
    among the recorded calls with at most two others between them, and the
    signature's first call was not seen before that, the analyzer reports an
    intent. *)
Theorem intent_detected pid s data sig a rest pre seg post : JsMap.get (syscallSequences s) pid = Some data -> sig ∈ INTENT_SIGNATURES ->
  sig_sequence sig = a :: rest -> syscalls data = pre ++ (a :: seg) ++ post -> a ∉ pre -> rest `sublist_of` seg -> (length seg <= 4)%nat ->
  getIntentVerdict pid s <> None.
Proof.
  intros Hd Hin Hsig Hseq Hpre Hsub Hlen. unfold getIntentVerdict. rewrite Hd. destruct (find _ _) eqn:E; [done|].
  pose proof (find_none _ _ E sig ltac:(by apply list_elem_of_In)) as Hf. exfalso. clear E.
  assert (length (sig_sequence sig) = 3%nat) as H3.
  { assert (Forall (fun x => length (sig_sequence x) = 3%nat) INTENT_SIGNATURES) as Hl by (by repeat constructor). by apply (proj1 (Forall_forall _ _) Hl sig). }
  rewrite Hseq, Hsig, (matchLoop_skip _ a) in Hf by done. rewrite Hsig in H3. injection H3 as H3. cbn [app matchLoop] in Hf.
  rewrite bool_decide_eq_true_2 in Hf by done. cbn [Nat.ltb Nat.leb MAX_NOISE length] in Hf. rewrite H3 in Hf. cbn [Nat.eqb] in Hf.
  rewrite matchLoop_complete in Hf; [done|cbn; lia|done|rewrite length_drop; cbn [length]; unfold MAX_NOISE; lia].
Qed.

(** A detour hides an attack: when the first call of a signature occurs,
    then two other calls, then the whole signature without a gap, the
    attempt that is given up swallows the new first call and the signature
    is not recognised. *)
Theorem detour_evades a b c x y : a <> b -> a <> c -> x <> b -> y <> b ->
  matchLoop [a; b; c] 0 0 [a; x; y; a; b; c] = false /\ spread [a; b; c] [a; b; c].
Proof.
  intros Hab Hac Hx Hy. split; [|split; [done|cbn; lia]].
  assert (forall u v : jsstr, u <> v -> bool_decide (Some u = Some v) = false) as Hne by (intros u v Huv; apply bool_decide_eq_false_2; congruence).
  cbn [matchLoop lookup list_lookup]. rewrite bool_decide_eq_true_2 by done.
  cbn [Nat.ltb Nat.leb MAX_NOISE Nat.eqb length matchLoop lookup list_lookup].
  repeat (rewrite Hne by congruence; cbn [Nat.ltb Nat.leb MAX_NOISE Nat.eqb length matchLoop lookup list_lookup]). done.
Qed.

(** ** Bounded tables and scores in range *)

Definition unit_interval (q : Q) : Prop := (0 <= q)%Q /\ (q <= 1)%Q.

Record analyzer_ok (s : Analyzer) : Prop := mkAnalyzerOk {
  ao_traces : forall ip l, JsMap.get (traces s) ip = Some l -> (1 <= length l <= 50)%nat;
  ao_windows : forall ip l, JsMap.get (slidingWindow s) ip = Some l -> (1 <= length l <= 5)%nat /\ Forall unit_interval l;
  ao_sequences : forall pid d, JsMap.get (syscallSequences s) pid = Some d -> (1 <= length (syscalls d) <= 10)%nat;
}.

Lemma bounded_push_length {A} n (l : list A) x : (1 <= n)%nat -> (length l <= n)%nat -> (1 <= length (bounded_push n l x) <= n)%nat.
Proof.
  intros Hn Hl. unfold bounded_push. destruct (Nat.ltb_spec n (length (l ++ [x]))) as [H|H]; rewrite ?length_app in *; cbn in *; [|lia].
  destruct l as [|y l]; cbn in *; [lia|]. rewrite length_app. cbn. lia.
Qed.

Lemma bounded_push_forall {A} (P : A -> Prop) n l x : Forall P l -> P x -> Forall P (bounded_push n l x).
Proof.
  intros Hl Hx. unfold bounded_push. assert (Forall P (l ++ [x])) as H by (apply Forall_app; split; [done|by repeat constructor]).
  destruct (_ <? _)%nat; [|done]. destruct (l ++ [x]); [done|]. by inversion H.
Qed.

Lemma fold_delete_get {K V} `{EqDecision K} (ks : list K) : forall (m : list (K * V)) k v,
  JsMap.get (fold_left JsMap.delete ks m) k = Some v -> JsMap.get m k = Some v.
Proof.
  induction ks as [|x ks IH]; intros m k v Hk; cbn [fold_left] in Hk; [done|]. apply IH in Hk.
  destruct (decide (x = k)) as [->|Hne]; [by rewrite JsMap.get_delete_eq in Hk|by rewrite JsMap.get_delete_ne in Hk].
Qed.

Lemma qsum_range l : forall a n, Forall unit_interval l -> (0 <= a)%Q -> (a <= inject_Z n)%Q ->
  (0 <= fold_left Qplus l a)%Q /\ (fold_left Qplus l a <= inject_Z (n + Z.of_nat (length l)))%Q.
Proof.
  induction l as [|x l IH]; intros a n Hl H0 Hn; cbn [fold_left].
  - rewrite Z.add_0_r. done.
  - inversion Hl as [|? ? [Hx0 Hx1] Hl']; subst. destruct (IH (a + x)%Q (n + 1) Hl') as [A B]; [lra|rewrite inject_Z_plus; change (inject_Z 1) with 1%Q; lra|].
    split; [done|]. cbn [length]. by replace (n + Z.of_nat (S (length l))) with (n + 1 + Z.of_nat (length l)) by lia.
Qed.

Lemma qmean_range l : l <> [] -> Forall unit_interval l -> unit_interval (qmean l).
Proof.
  intros Hne Hl. unfold qmean, qsum. destruct (qsum_range l (0 # 1) 0 Hl) as [A B]; [lra|apply Qle_refl|]. cbn [Z.add] in B.
  assert (0 < inject_Z (Z.of_nat (length l)))%Q as Hpos.
  { change 0%Q with (inject_Z 0). rewrite <- Zlt_Qlt. destruct l; [done|]. cbn [length]. lia. }
  split.
  - apply Qle_shift_div_l; [done|]. by rewrite Qmult_0_l.
  - apply Qle_shift_div_r; [done|]. by rewrite Qmult_1_l.
Qed.

Lemma qsum_nonneg l : forall a, Forall (fun q => 0 <= q)%Q l -> (0 <= a)%Q -> (0 <= fold_left Qplus l a)%Q.
Proof. induction l as [|x l IH]; intros a Hl Ha; cbn [fold_left]; [done|]. inversion Hl; subst. apply IH; [done|lra]. Qed.

Lemma entropy_range deltas : unit_interval (entropyOf deltas).
Proof.
  unfold entropyOf. set (mean := qmean deltas). set (variance := qmean _). destruct (Qeq_bool variance 0); [split; lra|].
  assert (0 < Qmax 1000 (mean * 2))%Q as Hpos by (pose proof (Q.le_max_l 1000 (mean * 2)); lra).
  assert (0 <= variance)%Q as Hv.
  { subst variance. unfold qmean, qsum. apply Qmult_le_0_compat; [|apply Qinv_le_0_compat; change 0%Q with (inject_Z 0); rewrite <- Zle_Qle; lia].
    apply qsum_nonneg; [|lra]. apply List.Forall_forall. intros q (b & <- & _)%in_map_iff. cbv beta. generalize (b - mean)%Q. intros r. nra. }
  split; [|apply Q.le_min_r]. apply Q.min_glb; [|lra]. apply Qle_shift_div_l; [done|]. by rewrite Qmult_0_l.
Qed.

Lemma analyze_ok ip s : analyzer_ok s -> analyzer_ok (analyze ip s).1.
Proof.
  intros [H1 H2 H3]. unfold analyze. destruct (JsMap.get (traces s) ip) as [trace|]; [|done]. destruct (_ <? _)%nat; [done|].
  split; cbn [fst with_windows traces slidingWindow syscallSequences]; [done| |done]. intros ip' l. destruct (decide (ip = ip')) as [<-|Hne].
  - rewrite JsMap.get_set_eq. intros [= <-]. destruct (JsMap.get (slidingWindow s) ip) as [w|] eqn:E.
    + change (default [] (Some w)) with w. destruct (H2 _ _ E) as [Hl Hf]. split; [apply bounded_push_length; lia|apply bounded_push_forall; [done|apply entropy_range]].
    + split; [cbn; lia|]. constructor; [apply entropy_range|constructor].
  - rewrite JsMap.get_set_ne by done. apply H2.
Qed.

Lemma step_analyzer_ok s i : analyzer_ok s -> analyzer_ok (step s i).
Proof.
  intros Hs. pose proof Hs as [H1 H2 H3]. destruct i as [ip now|ip|pid comm call now|now|data|b]; cbn [step].
  - unfold track. split; [|done|done]. cbn [traces with_traces]. intros ip' l. destruct (decide (ip = ip')) as [<-|Hne].
    + rewrite JsMap.get_set_eq. intros [= <-]. apply bounded_push_length; [lia|].
      destruct (JsMap.get (traces s) ip) as [t|] eqn:E; cbn; [apply (H1 _ _ E)|lia].
    + rewrite JsMap.get_set_ne by done. apply H1.
  - by apply analyze_ok.
  - split; [done|done|]. cbn [syscallSequences trackSyscall]. intros pid' d. destruct (decide (pid = pid')) as [<-|Hne].
    + rewrite JsMap.get_set_eq. intros [= <-]. cbn [syscalls]. apply bounded_push_length; [lia|].
      destruct (JsMap.get (syscallSequences s) pid) as [t|] eqn:E; cbn; [apply (H3 _ _ E)|lia].
    + rewrite JsMap.get_set_ne by done. apply H3.
  - split; cbn [traces slidingWindow syscallSequences purgeStaleData]; intros k v Hk%fold_delete_get; [by eapply H1|by eapply H2|by eapply H3].
  - by split.
  - by split.
Qed.

Lemma run_analyzer_ok ins : forall s, analyzer_ok s -> analyzer_ok (run s ins).
Proof. unfold run. induction ins as [|i ins IH]; intros s Hs; cbn [fold_left]; [done|]. by apply IH, step_analyzer_ok. Qed.

(** What the analyzer keeps of an address or a process is bounded, and its
    verdicts are probabilities: over any sequence of events no trace exceeds
    fifty connections, no window five scores and no sequence ten calls, and
    the entropy and the bot probability it reports lie between zero and one
    and sum to one. *)
Theorem analysis_bounded ins ip : let s := run new ins in
  (forall ip l, JsMap.get (traces s) ip = Some l -> (length l <= 50)%nat) /\
  (forall ip l, JsMap.get (slidingWindow s) ip = Some l -> (length l <= 5)%nat) /\
  (forall pid d, JsMap.get (syscallSequences s) pid = Some d -> (length (syscalls d) <= 10)%nat) /\
  let '(bot, entropy) := (analyze ip s).2 in unit_interval bot /\ unit_interval entropy /\ (bot + entropy == 1)%Q.
Proof.
  intros s. assert (analyzer_ok s) as Hs by (apply run_analyzer_ok; by split). pose proof (analyze_ok ip s Hs) as [_ Hw _]. destruct Hs as [H1 H2 H3].
  split_and!; [intros k l Hk; apply (H1 _ _ Hk)|intros k l Hk; apply (H2 _ _ Hk)|intros k l Hk; apply (H3 _ _ Hk)|].
  unfold analyze in *. destruct (JsMap.get (traces s) ip) as [trace|]; [|cbn; repeat split; lra]. destruct (_ <? _)%nat; [cbn; repeat split; lra|].
  cbn [fst snd with_windows slidingWindow] in *. set (window := bounded_push 5 _ _) in *. specialize (Hw ip window). rewrite JsMap.get_set_eq in Hw.
  destruct (Hw eq_refl) as [Hl Hf]. assert (unit_interval (qmean window)) as [Ha Hb] by (apply qmean_range; [intros E; rewrite E in Hl; cbn in Hl; lia|done]).
  assert (Qmax 0 (Qmin 1 (1 - qmean window)) == 1 - qmean window)%Q as E.
  { rewrite Q.min_r, Q.max_r by lra. reflexivity. }
  split_and!; [split; rewrite E; lra|done|rewrite E; lra].
Qed.

(** ** Baselines *)

(** Learned baselines survive a restart: what one analyzer persists another
    loads, so every command has the frequencies it had; except a command
    named __proto__, whose baseline the assignment to a plain object drops. *)
Theorem baselines_roundtrip s comm : JsMap.wf (syscallFrequencies s) ->
  JsMap.get (syscallFrequencies (loadBaselines (persistBaselines s) new)) comm =
    if bool_decide (comm = js "__proto__") then None else JsMap.get (syscallFrequencies s) comm.
Proof.
  intros Hwf.
  assert (forall (l : list (jsstr * list (jsstr * Z))) m k, JsMap.wf l ->
    JsMap.get (fold_left (fun m e => JsMap.set m e.1 e.2) l m) k = match JsMap.get l k with Some v => Some v | None => JsMap.get m k end) as Hload.
  { induction l as [|[k v] l IH]; intros m k' Hl; cbn [fold_left JsMap.get]; [done|]. inversion Hl as [|? ? Hk Hl']; subst. rewrite IH by done. cbn [fst snd].
    case_decide as E; subst.
    - destruct (JsMap.get l k') eqn:El; [|apply JsMap.get_set_eq]. apply JsMap.get_Some_elem in El. destruct Hk. apply list_elem_of_fmap. by exists (k', l0).
    - by rewrite JsMap.get_set_ne by done. }
  assert (forall (l m : list (jsstr * list (jsstr * Z))), JsMap.wf m -> JsMap.wf (fold_left assign l m)) as Hpw.
  { induction l as [|e l IH]; intros m Hm; cbn [fold_left]; [done|]. apply IH. unfold assign. case_bool_decide; [done|by apply JsMap.wf_set]. }
  assert (forall (l m : list (jsstr * list (jsstr * Z))) k, JsMap.wf l -> JsMap.get (fold_left assign l m) k =
    if bool_decide (k = js "__proto__") then JsMap.get m k else match JsMap.get l k with Some v => Some v | None => JsMap.get m k end) as Hstore.
  { induction l as [|[k v] l IH]; intros m k' Hl; cbn [fold_left JsMap.get]; [by case_bool_decide|]. inversion Hl as [|? ? Hk Hl']; subst. rewrite IH by done.
    unfold assign. cbn [fst snd]. case_bool_decide as Ek'; [subst|].
    - case_bool_decide; [done|]. by rewrite JsMap.get_set_ne by done.
    - case_decide as E; [subst k'|].
      + rewrite bool_decide_eq_false_2 by done. destruct (JsMap.get l k) eqn:El; [|apply JsMap.get_set_eq].
        apply JsMap.get_Some_elem in El. destruct Hk. apply list_elem_of_fmap. by exists (k, l0).
      + destruct (JsMap.get l k'); [done|]. case_bool_decide; [done|]. by rewrite JsMap.get_set_ne by done. }
  unfold loadBaselines, persistBaselines. cbn [syscallFrequencies new]. rewrite Hload by (apply Hpw; constructor). rewrite Hstore by done. cbn [JsMap.get].
  case_bool_decide; [done|]. by destruct (JsMap.get (syscallFrequencies s) comm).
Qed.

(** ** Concrete runs *)

Definition inject0 : Analyzer :=
  run new [ISyscall 7 (js "sh") (js "read") 0; ISyscall 7 (js "sh") (js "mmap") 1; ISyscall 7 (js "sh") (js "read") 2;
           ISyscall 7 (js "sh") (js "mprotect") 3; ISyscall 7 (js "sh") (js "ptrace") 4].

Lemma intent_sound_witness : exists sig data pre seg post, sig ∈ INTENT_SIGNATURES /\ sig_name sig = "SHELLCODE_INJECT"%string /\ weight sig = 1%Q /\
  JsMap.get (syscallSequences inject0) 7 = Some data /\ syscalls data = pre ++ seg ++ post /\ spread (sig_sequence sig) seg.
Proof. apply (intent_sound 7 inject0 "SHELLCODE_INJECT" 1). vm_compute. reflexivity. Defined.

Lemma intent_detected_witness : getIntentVerdict 7 inject0 <> None.
Proof.
  apply (intent_detected 7 inject0 (mkSequence (map js ["read"; "mmap"; "read"; "mprotect"; "ptrace"]%string) 4)
    (signature "SHELLCODE_INJECT" "mmap" "mprotect" "ptrace" 1) (js "mmap") [js "mprotect"; js "ptrace"] [js "read"] [js "read"; js "mprotect"; js "ptrace"] []).
  - vm_compute. reflexivity.
  - apply list_elem_of_here.
  - reflexivity.
  - reflexivity.
  - apply (bool_decide_eq_true_1 (js "mmap" ∉ [js "read"])). reflexivity.
  - apply sublist_cons, sublist_skip, sublist_skip. constructor.
  - cbn. lia.
Defined.

Lemma detour_evades_witness :
  matchLoop [js "mmap"; js "mprotect"; js "ptrace"] 0 0 [js "mmap"; js "read"; js "read"; js "mmap"; js "mprotect"; js "ptrace"] = false /\
  spread [js "mmap"; js "mprotect"; js "ptrace"] [js "mmap"; js "mprotect"; js "ptrace"].
Proof. apply (detour_evades (js "mmap") (js "mprotect") (js "ptrace") (js "read") (js "read")); discriminate. Defined.

Lemma baselines_roundtrip_witness :
  JsMap.get (syscallFrequencies (loadBaselines (persistBaselines inject0) new)) (js "sh") =
    if bool_decide (js "sh" = js "__proto__") then None else JsMap.get (syscallFrequencies inject0) (js "sh").
Proof.
  apply (baselines_roundtrip inject0 (js "sh")). unfold JsMap.wf. replace (JsMap.keys (syscallFrequencies inject0)) with [js "sh"] by (vm_compute; reflexivity).
  apply NoDup_singleton.
Defined.
End Behavior.
