(* ===== verification/WsHub.v ===== *)
(** * The event stream

    Models [src/orchestrator/interface/web/ws_handler.ts] (the connected
    clients, [broadcast] with its filter by role, the limits on connections and
    messages) and the gate of the stream in
    [src/orchestrator/interface/web/web_adapter.tsx] (the middleware of
    [/api/ws/events]).  A client is a number; parsing of URLs and JSON, the
    token check and the session store are parameters or inputs. *)

From S2P Require Import Prelude Result JsSet JsMap JsString Cidr.

Local Open Scope Z_scope.

Module WsHub.
Import JsString.

(** ** The gate *)

Record Upgrade := mkUpgrade {
  origin : option jsstr; host : option jsstr; subProtocols : option jsstr;
  query_token : option jsstr; query_csrf : option jsstr; authorization : option jsstr; cookie : option jsstr;
}.

Inductive Gate := OriginMismatch | InvalidOrigin | Unauthorized | Granted (role : string).

Definition nonempty (o : option jsstr) : option jsstr := match o with Some (c :: s) => Some (c :: s) | _ => None end.
Definition or_else {A} (a b : option A) : option A := match a with Some _ => a | None => b end.

Section gate.
(** [new URL(o).host], [None] when it throws; [isTokenValid]; the role of a
    session that validates; SINGLE_NODE, ALLOW_HARDWARE_BYPASS or ENVIRONMENT
    switch the bypass on. *)
Context (urlHost : jsstr -> option jsstr) (isTokenValid : jsstr -> option string) (sessionRole : jsstr -> option string) (isDevOrBypass : bool).

(** [s.replace(p, "")] on a string that starts with [p], and in general the
    first occurrence. *)
Fixpoint strip (p s : jsstr) : jsstr :=
  if startsWith s p then drop (length p) s else match s with c :: t => c :: strip p t | [] => [] end.

Definition subProtocolToken (r : Upgrade) : option jsstr :=
  match subProtocols r with
  | Some h => option_map (strip (js "cts-auth-")) (find (fun p => startsWith p (js "cts-auth-")) (map Cidr.trim (split h (js ","))))
  | None => None
  end.

Definition originCheck (r : Upgrade) : option Gate :=
  match nonempty (origin r), nonempty (host r) with
  | Some o, Some h => match urlHost o with None => Some InvalidOrigin | Some oh => if bool_decide (oh = h) then None else Some OriginMismatch end
  | _, _ => None
  end.

Definition tokenOf (r : Upgrade) : option jsstr :=
  or_else (nonempty (query_token r)) (or_else (nonempty (query_csrf r))
    (or_else (nonempty (subProtocolToken r)) (nonempty (option_map (strip (js "Bearer ")) (authorization r))))).

Definition roleOf (r : Upgrade) : option string :=
  or_else (tokenOf r ≫= isTokenValid) (or_else (nonempty (cookie r) ≫= sessionRole) (if isDevOrBypass then Some "viewer"%string else None)).

Definition gate (r : Upgrade) : Gate :=
  match originCheck r with
  | Some g => g
  | None => match roleOf r with Some role => Granted role | None => Unauthorized end
  end.
End gate.

(** ** The clients *)

Definition MAX_CONNECTIONS : nat := 100.

Record Meta := mkMeta { count : Z; resetAt : Z; role : string }.

Record Hub := mkHub { clients : list nat; clientMetadata : list (nat * Meta); initialised : bool }.

Definition new : Hub := mkHub [] [] false.

Record BroadcastData := mkData {
  type : string; subType : option string; message : option jsstr; caller : option string; fromEventBus : bool;
}.

Inductive effect :=
| EPublish (type : string) (message : jsstr)
| ESend (client : nat) (d : BroadcastData)
| EGreet (client : nat)
| EPong (client : nat)
| EClose (client : nat) (code : Z)
| EAudit (d : BroadcastData)
| ENotify (type : string).

Definition validEvents : list string :=
  ["INFO"; "WARN"; "BLOCK"; "CRITICAL"; "THREAT"; "HONEYPOT"; "METRIC_UPDATE"; "UI_BROADCAST"; "NETWORK_LOG"; "AUDIT_EVENT"]%string.

Definition isEventName (t : string) : bool := bool_decide (t ∈ validEvents).

(** What viewers do not get. *)
Definition sensitive (d : BroadcastData) : bool := bool_decide (type d = "CRITICAL"%string) || String.prefix "ADMIN" (type d).

Definition noise : list string := ["METRICS_UPDATE"; "DEBUG"; "UI_UPDATE"; "PING"]%string.
Definition audited (d : BroadcastData) : bool := negb (bool_decide (type d ∈ noise)) && negb (bool_decide (subType d = Some "METRICS_UPDATE"%string)).

Definition roleAt (s : Hub) (c : nat) : string :=
  match JsMap.get (clientMetadata s) c with Some m => if bool_decide (role m = ""%string) then "viewer" else role m | None => "viewer" end.

(** The loop of [broadcast]; a client whose [send] throws is dropped. *)
Definition deliver (throws : nat -> bool) (d : BroadcastData) (s : Hub) (c : nat) : Hub * list effect :=
  if bool_decide (roleAt s c = "viewer"%string) && sensitive d then (s, [])
  else if throws c then (mkHub (set_delete c (clients s)) (clientMetadata s) (initialised s), [])
  else (s, [ESend c d]).

Fixpoint deliverAll (throws : nat -> bool) (d : BroadcastData) (s : Hub) (cs : list nat) : Hub * list effect :=
  match cs with
  | [] => (s, [])
  | c :: cs => let '(s, fx) := deliver throws d s c in let '(s, fx') := deliverAll throws d s cs in (s, fx ++ fx')
  end.

Definition broadcast (throws : nat -> bool) (d : BroadcastData) (s : Hub) : Hub * list effect :=
  if negb (initialised s) then (s, [])
  else
    let fromBus := bool_decide (caller d = Some "EVENTBUS"%string) || fromEventBus d in
    let published := if negb (bool_decide (type d = ""%string)) && negb fromBus && isEventName (type d) then [EPublish (type d) (default [] (message d))] else [] in
    let '(s, sent) := deliverAll throws d s (clients s) in
    (s, published ++ sent ++ if audited d then [EAudit d; ENotify (type d)] else []).

Definition onOpen (c : nat) (r : string) (now : Z) (s : Hub) : Hub * list effect :=
  if (MAX_CONNECTIONS <=? length (clients s))%nat then (s, [EClose c 1013])
  else (mkHub (set_add c (clients s)) (JsMap.set (clientMetadata s) c (mkMeta 0 (now + 1000) r)) (initialised s), [EGreet c]).

(** What a client sends: a ping, another JSON text, or something else. *)
Inductive Payload := Ping | Other | Malformed.

Definition answer (c : nat) (p : Payload) : list effect := match p with Ping => [EPong c] | Other => [] | Malformed => [EClose c 1003] end.

Definition onMessage (c : nat) (p : Payload) (now : Z) (s : Hub) : Hub * list effect :=
  match JsMap.get (clientMetadata s) c with
  | Some m =>
      let m := if resetAt m <? now then mkMeta 1 (now + 1000) (role m) else mkMeta (count m + 1) (resetAt m) (role m) in
      let s := mkHub (clients s) (JsMap.set (clientMetadata s) c m) (initialised s) in
      if 50 <? count m then (s, [EClose c 1008]) else (s, answer c p)
  | None => (s, answer c p)
  end.

Definition onClose (c : nat) (s : Hub) : Hub := mkHub (set_delete c (clients s)) (JsMap.delete (clientMetadata s) c) (initialised s).

Inductive input :=
| IInit
| IOpen (c : nat) (r : string) (now : Z)
| IMessage (c : nat) (p : Payload) (now : Z)
| IClose (c : nat)
| IBroadcast (throws : nat -> bool) (d : BroadcastData).

Definition step (s : Hub) (i : input) : Hub * list effect :=
  match i with
  | IInit => (mkHub (clients s) (clientMetadata s) true, [])
  | IOpen c r now => onOpen c r now s
  | IMessage c p now => onMessage c p now s
  | IClose c => (onClose c s, [])
  | IBroadcast throws d => broadcast throws d s
  end.

Fixpoint run (s : Hub) (ins : list input) : Hub * list effect :=
  match ins with
  | [] => (s, [])
  | i :: ins => let '(s, fx) := step s i in let '(s, fx') := run s ins in (s, fx ++ fx')
  end.

(** ** Who receives what *)

(** Every known client came through the door with its role. *)
Definition admitted (P : nat -> string -> Prop) (s : Hub) : Prop := forall c m, JsMap.get (clientMetadata s) c = Some m -> P c (role m).

Lemma deliverAll_ok P throws d cs : forall s, admitted P s ->
  admitted P (deliverAll throws d s cs).1 /\
  (forall c d', ESend c d' ∈ (deliverAll throws d s cs).2 -> sensitive d' = true -> exists r, P c r /\ r <> "viewer"%string).
Proof.
  induction cs as [|c cs IH]; intros s Hs; cbn [deliverAll]; [split; [done|]; intros c d' Hin; by apply not_elem_of_nil in Hin|].
  assert (admitted P (deliver throws d s c).1 /\
    (forall c' d', ESend c' d' ∈ (deliver throws d s c).2 -> sensitive d' = true -> exists r, P c' r /\ r <> "viewer"%string)) as [H1 H2].
  { unfold deliver. destruct (_ && sensitive d) eqn:E; [split; [done|]; intros c' d' Hin; by apply not_elem_of_nil in Hin|].
    destruct (throws c); (split; [done|]); [intros c' d' Hin; by apply not_elem_of_nil in Hin|].
    intros c' d' [= -> ->]%list_elem_of_singleton Hsens. rewrite Hsens, andb_true_r in E. apply bool_decide_eq_false in E. unfold roleAt in E.
    destruct (JsMap.get (clientMetadata s) c) as [m|] eqn:Em; [|done]. exists (role m). split; [by apply Hs|]. case_bool_decide; [done|done]. }
  destruct (deliver throws d s c) as [s1 fx]. destruct (IH s1 H1) as [H3 H4]. destruct (deliverAll throws d s1 cs) as [s2 fx']. cbn [fst snd] in *.
  split; [done|]. intros c' d' [?|?]%elem_of_app; eauto.
Qed.

Lemma step_admitted P s i : admitted P s -> (forall c r now, i = IOpen c r now -> P c r) ->
  admitted P (step s i).1 /\
  (forall c d, ESend c d ∈ (step s i).2 -> sensitive d = true -> exists r, P c r /\ r <> "viewer"%string).
Proof.
  intros Hs Hi. assert (forall c d, ESend c d ∉ []) as Hnil by (intros c d; apply not_elem_of_nil).
  assert (forall x c d, ESend c d ∈ [x] -> x = ESend c d) as Hone by (intros x c d Hx%list_elem_of_singleton; done).
  destruct i as [|c r now|c p now|c|throws d]; cbn [step].
  - split; [done|]. intros c d Hin. by apply Hnil in Hin.
  - unfold onOpen. destruct (_ <=? _)%nat; (split; [|intros c' d' Hin; by apply Hone in Hin]); [done|]. intros c' m. cbn.
    destruct (decide (c = c')) as [<-|Hne]; [rewrite JsMap.get_set_eq; intros [= <-]; by eapply Hi|rewrite JsMap.get_set_ne by done; apply Hs].
  - unfold onMessage. assert (forall c' d', ESend c' d' ∉ answer c p) as Ha by (intros c' d' Hin; destruct p; cbn in Hin; [by apply Hone in Hin|by apply Hnil in Hin|by apply Hone in Hin]).
    destruct (JsMap.get (clientMetadata s) c) as [m|] eqn:Em; [|split; [done|]; intros c' d' Hin; by apply Ha in Hin].
    set (m' := if resetAt m <? now then _ else _). assert (role m' = role m) as Er by (subst m'; by destruct (_ <? _)).
    destruct (50 <? count m'); (split; [|intros c' d' Hin; first [by apply Hone in Hin|by apply Ha in Hin]]); intros c' x; cbn;
      (destruct (decide (c = c')) as [<-|Hne]; [rewrite JsMap.get_set_eq; intros [= <-]; rewrite Er; by apply Hs|rewrite JsMap.get_set_ne by done; apply Hs]).
  - split; [|intros c' d' Hin; by apply Hnil in Hin]. intros c' m. cbn. destruct (decide (c = c')) as [<-|Hne]; [by rewrite JsMap.get_delete_eq|].
    rewrite JsMap.get_delete_ne by done. apply Hs.
  - unfold broadcast. destruct (initialised s); cbn [negb]; [|split; [done|]; intros c' d' Hin; by apply Hnil in Hin].
    destruct (deliverAll_ok P throws d (clients s) s Hs) as [H1 H2]. destruct (deliverAll throws d s (clients s)) as [s1 sent]. split; [done|]. cbn [fst snd] in *.
    intros c' d' [Hin|[Hin|Hin]%elem_of_app]%elem_of_app; [|by eapply H2|].
    + destruct (_ && _) in Hin; [by apply Hone in Hin|by apply Hnil in Hin].
    + destruct (audited d); [|by apply Hnil in Hin]. apply elem_of_cons in Hin as [?|Hin]; [done|by apply Hone in Hin].
Qed.

Lemma run_admitted P ins : forall s, admitted P s -> (forall c r now, IOpen c r now ∈ ins -> P c r) ->
  forall c d, ESend c d ∈ (run s ins).2 -> sensitive d = true -> exists r, P c r /\ r <> "viewer"%string.
Proof.
  induction ins as [|i ins IH]; intros s Hs Hins c d; cbn [run]; [intros Hin; by apply not_elem_of_nil in Hin|].
  destruct (step_admitted P s i Hs) as [H1 H2]; [intros; subst; eapply Hins, list_elem_of_here|]. destruct (step s i) as [s1 fx].
  specialize (IH s1 H1 ltac:(intros; by eapply Hins, list_elem_of_further) c d). destruct (run s1 ins) as [s2 fx']. cbn [fst snd] in *.
  intros [?|?]%elem_of_app; eauto.
Qed.

(** C19: a stranger never sees a sensitive event: when every connection came
    through the gate of the stream, a client without a valid token and
    without a live session, even one that the single-node bypass lets in, is
    never sent a critical or an administrative event, whatever is broadcast
    and however clients come, talk and go. *)
Theorem stranger_shielded urlHost isTokenValid sessionRole bypass (request : nat -> Upgrade) ins c d :
  (forall c r now, IOpen c r now ∈ ins -> gate urlHost isTokenValid sessionRole bypass (request c) = Granted r) ->
  (tokenOf (request c) ≫= isTokenValid) = None -> (nonempty (cookie (request c)) ≫= sessionRole) = None -> sensitive d = true ->
  ESend c d ∉ (run new ins).2.
Proof.
  intros Hgate Ht Hc Hd Hin.
  destruct (run_admitted (fun c r => gate urlHost isTokenValid sessionRole bypass (request c) = Granted r) ins new) with c d as (r & Hr & Hv); try done.
  unfold gate in Hr. destruct (originCheck urlHost (request c)) eqn:Eo; [subst; unfold originCheck in Eo; by repeat case_match|]. unfold roleOf in Hr. rewrite Ht, Hc in Hr. cbn in Hr. destruct bypass; [|done]. by injection Hr as <-.
Qed.

(** ** Limits *)

(** The stream serves at most a hundred clients, each once, however they
    connect and disconnect. *)
Theorem connections_bounded ins : let s := (run new ins).1 in (length (clients s) <= MAX_CONNECTIONS)%nat /\ NoDup (clients s).
Proof.
  assert (forall x (l : list nat), (length (set_delete x l) <= length l)%nat) as Hdel.
  { intros x l. unfold set_delete. induction l as [|y l IH]; cbn [List.filter]; [done|]. destruct (negb _); cbn [length]; lia. }
  assert (forall throws d cs s, (length (clients (deliverAll throws d s cs).1) <= length (clients s))%nat /\
    (NoDup (clients s) -> NoDup (clients (deliverAll throws d s cs).1))) as Hcast.
  { intros throws d. induction cs as [|c cs IH]; intros s; cbn [deliverAll]; [done|]. unfold deliver. pose proof (Hdel c (clients s)).
    destruct (_ && _); [specialize (IH s); by destruct (deliverAll throws d s cs)|]. destruct (throws c); [|specialize (IH s); by destruct (deliverAll throws d s cs)].
    match goal with |- context [deliverAll throws d ?x cs] => specialize (IH x); destruct (deliverAll throws d x cs) as [s2 fx] end.
    destruct IH as [A B]. cbn [fst clients] in *. split; [lia|]. intros Hn. by apply B, set_delete_nodup. }
  assert (forall i s, (length (clients s) <= MAX_CONNECTIONS)%nat /\ NoDup (clients s) ->
    (length (clients (step s i).1) <= MAX_CONNECTIONS)%nat /\ NoDup (clients (step s i).1)) as Hstep.
  { intros i s [Hl Hn]. destruct i as [|c r now|c p now|c|throws d]; cbn [step]; [done| | | |].
    - unfold onOpen. destruct (Nat.leb_spec MAX_CONNECTIONS (length (clients s))); [done|]. cbn. split; [|by apply set_add_nodup].
      unfold set_add. case_bool_decide; [done|]. rewrite length_app. cbn. lia.
    - unfold onMessage. destruct (JsMap.get _ c); [|done]. by destruct (50 <? _).
    - cbn. pose proof (Hdel c (clients s)). split; [lia|by apply set_delete_nodup].
    - unfold broadcast. destruct (negb _); [done|]. destruct (Hcast throws d (clients s) s) as [A B]. destruct (deliverAll throws d s (clients s)) as [s1 sent].
      cbn [fst] in *. split; [lia|auto]. }
  assert (forall ins s, (length (clients s) <= MAX_CONNECTIONS)%nat /\ NoDup (clients s) ->
    (length (clients (run s ins).1) <= MAX_CONNECTIONS)%nat /\ NoDup (clients (run s ins).1)) as Hrun.
  { clear ins. induction ins as [|i ins IH]; intros s Hs; cbn [run]; [done|]. apply (Hstep i) in Hs. destruct (step s i) as [s1 fx]. specialize (IH s1 Hs).
    by destruct (run s1 ins). }
  apply Hrun. split; [cbn; unfold MAX_CONNECTIONS; lia|constructor].
Qed.

(** A flood is cut off: of the pings a client sends within one window of the
    limiter exactly the first fifty, counting what it sent before, are
    answered, and every later one closes the connection. *)
Theorem flood_cut_off c ts : forall s m, JsMap.get (clientMetadata s) c = Some m -> 0 <= count m -> Forall (fun t => t <= resetAt m) ts ->
  let k := Nat.min (length ts) (Z.to_nat (50 - count m)) in
  (run s (map (IMessage c Ping) ts)).2 = repeat (EPong c) k ++ repeat (EClose c 1008) (length ts - k).
Proof.
  induction ts as [|t ts IH]; intros s m Hm Hc Hts; [done|]. inversion Hts as [|? ? Ht Hts']; subst. cbn [map run step]. unfold onMessage. rewrite Hm.
  rewrite (proj2 (Z.ltb_ge (resetAt m) t)) by done. cbn [count resetAt role length].
  set (s1 := mkHub _ (JsMap.set (clientMetadata s) c (mkMeta (count m + 1) (resetAt m) (role m))) _).
  assert (JsMap.get (clientMetadata s1) c = Some (mkMeta (count m + 1) (resetAt m) (role m))) as H1 by apply JsMap.get_set_eq.
  specialize (IH s1 _ H1 ltac:(cbn; lia) Hts'). cbn [count] in IH. destruct (Z.ltb_spec 50 (count m + 1)) as [Hgt|Hle].
  - destruct (run s1 (map (IMessage c Ping) ts)) as [s2 fx]. cbn [snd answer] in *. rewrite IH.
    replace (Z.to_nat (50 - (count m + 1))) with 0%nat by lia. replace (Z.to_nat (50 - count m)) with 0%nat by lia.
    rewrite !Nat.min_0_r, !Nat.sub_0_r. done.
  - destruct (run s1 (map (IMessage c Ping) ts)) as [s2 fx]. cbn [snd answer] in *. rewrite IH.
    replace (Z.to_nat (50 - count m)) with (S (Z.to_nat (50 - (count m + 1)))) by lia. rewrite <- Nat.succ_min_distr. done.
Qed.

(** ** Concrete connections *)

Definition stranger0 : Upgrade := mkUpgrade None None None None None None None.
Definition admin0 : Upgrade := mkUpgrade None None None (Some (js "t")) None None None.
Definition request0 (c : nat) : Upgrade := match c with 0%nat => stranger0 | _ => admin0 end.
Definition token0 (t : jsstr) : option string := if bool_decide (t = js "t") then Some "admin"%string else None.
Definition alarm0 : BroadcastData := mkData "CRITICAL" None None None false.
Definition session0 : list input :=
  [IInit; IOpen 0 "viewer" 0; IOpen 1 "admin" 0; IBroadcast (fun _ => false) alarm0].

Lemma stranger_shielded_witness : ESend 1 alarm0 ∈ (run new session0).2 /\ ESend 0 alarm0 ∉ (run new session0).2.
Proof.
  split.
  - replace (run new session0).2 with [EGreet 0; EGreet 1; EPublish "CRITICAL" []; ESend 1 alarm0; EAudit alarm0; ENotify "CRITICAL"] by (vm_compute; reflexivity).
    set_solver.
  - apply (stranger_shielded (fun _ => None) token0 (fun _ => None) true request0 session0 0 alarm0); [|reflexivity..].
    intros c r now Hin. unfold session0 in Hin.
    apply elem_of_cons in Hin as [?|Hin]; [done|]. apply elem_of_cons in Hin as [[= -> -> ->]|Hin]; [reflexivity|].
    apply elem_of_cons in Hin as [[= -> -> ->]|Hin]; [reflexivity|]. by apply list_elem_of_singleton in Hin.
Defined.

Lemma flood_cut_off_witness :
  (run (run new [IOpen 0 "viewer" 0]).1 (map (IMessage 0 Ping) (repeat 5 60))).2 = repeat (EPong 0) 50 ++ repeat (EClose 0 1008) 10.
Proof.
  apply (flood_cut_off 0 (repeat 5 60) (run new [IOpen 0 "viewer" 0]).1 (mkMeta 0 1000 "viewer")); [reflexivity|cbn; lia|].
  apply List.Forall_forall. intros x Hx%repeat_spec. subst x. cbn. lia.
Defined.
End WsHub.
