(* ===== verification/Correlation.v ===== *)
(** * Correlation of events into kill chains

    Models [src/orchestrator/domain/analysis/correlation_service.ts]
    ([CorrelationService]).  Every audit event names subjects (addresses,
    processes, files); the service keeps a node per subject and a kill chain
    per correlation, to which the node's events are mapped stage by stage.
    [processEvent] awaits after each subject, so the calls for several events
    interleave subject by subject: a [Piece] is the code between two awaits,
    and the theorems hold for every sequence of pieces.  Risk scores are
    rationals; [half x] is [Math.pow(0.5, x)], [date] reads a timestamp (no
    value is NaN), [upper] and [lower] are the case mappings of the runtime,
    and a piece carries the clock and the identifiers it would draw.  A stage
    holds the identifiers of its nodes. *)

From Stdlib Require Import QArith Qminmax Sorted.
From S2P Require Import Prelude Result JsMap JsString JsSort Canonical Kv Timeline AuditChain.
Open Scope Z_scope.

Module Correlation.
Import JsString Canonical Audit.

Inductive SubjectType := IP | PROCESS | ARTIFACT | WEB_ACTION.

#[export] Instance SubjectType_eq_dec : EqDecision SubjectType.
Proof. solve_decision. Defined.

Section correlation.
Context `{JsNumber}.

Record CorrelationNode := mkNode {
  n_id : jsstr; n_type : SubjectType; n_value : jsstr; firstSeen : jsstr; lastSeen : jsstr;
  events : list AuditEvent; riskScore : Q; n_correlationId : option jsstr; n_pid : option num }.

Inductive Stage := Reconnaissance | Weaponization | Delivery | Exploitation | Installation | CommandAndControl | ActionsOnObjectives.

Definition Stage_eqb (a b : Stage) : bool :=
  match a, b with
  | Reconnaissance, Reconnaissance | Weaponization, Weaponization | Delivery, Delivery | Exploitation, Exploitation
  | Installation, Installation | CommandAndControl, CommandAndControl | ActionsOnObjectives, ActionsOnObjectives => true
  | _, _ => false
  end.

Record KillChain := mkChain {
  c_id : jsstr; subject : jsstr; stages : Stage -> list jsstr; overallRisk : Q; lastActivity : jsstr; isConfirmedBreach : bool }.

Record Service := mkService { activeNodes : list (jsstr * CorrelationNode); killChains : list (jsstr * KillChain) }.

Definition new : Service := mkService [] [].

Definition ATTACK_BURST_WINDOW_MS : Z := 60000.
Definition RISK_DECAY_HALFLIFE_MS : positive := 3600000.
Definition MAX_NODES_PER_SUBJECT : nat := 100.
Definition CRITICAL_RISK_THRESHOLD : Q := inject_Z 80.

Context (half : Q -> Q) (date : jsstr -> option Z) (upper lower : jsstr -> jsstr).

(** ** Reading an event *)

Definition prop (e : AuditEvent) (k : string) : jval :=
  match data e with
  | Some (JObj fields) => default JUndefined (JsMap.get fields (js k))
  | _ => JUndefined
  end.

Definition text (v : jval) : option jsstr := match v with JStr s => Some s | _ => None end.

(** [String(v || "")] *)
Fixpoint toText (v : jval) : jsstr :=
  match v with
  | JUndefined => js "undefined" | JNull => js "null"
  | JBool b => js (if b then "true" else "false")
  | JNum n => num_text n | JStr s => s
  | JArr items => join [44] (map (fun x => match x with JUndefined | JNull => [] | _ => toText x end) items)
  | JObj _ => js "[object Object]"
  end.

Definition truthy (v : jval) : bool :=
  match v with
  | JUndefined | JNull | JBool false | JStr [] => false
  | JNum n => negb (bool_decide (num_text n = js "0"))
  | _ => true
  end.

Definition textOr (v : jval) : jsstr := if truthy v then toText v else [].

(** ** Subjects *)

Definition subject_of (t : SubjectType) (prefix : string) (o : option jsstr) : list (SubjectType * jsstr) :=
  match o with Some s => [(t, js prefix ++ s)] | None => [] end.

Definition typeName (t : SubjectType) : jsstr := js (match t with IP => "IP" | PROCESS => "PROCESS" | ARTIFACT => "ARTIFACT" | WEB_ACTION => "WEB_ACTION" end).

Definition subjectKey (s : SubjectType * jsstr) : jsstr := typeName s.1 ++ js ":" ++ s.2.

(** The first occurrence of each key is kept. *)
Fixpoint dedupe (seen : list jsstr) (l : list (SubjectType * jsstr)) : list (SubjectType * jsstr) :=
  match l with
  | [] => []
  | s :: l => if bool_decide (subjectKey s ∈ seen) then dedupe seen l else s :: dedupe (subjectKey s :: seen) l
  end.

Definition extractSubjects (e : AuditEvent) : list (SubjectType * jsstr) :=
  dedupe [] (subject_of IP "" (text (prop e "ip")) ++ subject_of IP "" (text (prop e "remote_ip"))
    ++ subject_of IP "" (match actor e with Some a => match a_ip a with [] => None | ip => Some ip end | None => None end)
    ++ subject_of PROCESS "pid:" (match prop e "pid" with JNum n => Some (num_text n) | _ => None end)
    ++ subject_of PROCESS "comm:" (text (prop e "comm"))
    ++ subject_of ARTIFACT "" (text (prop e "path")) ++ subject_of ARTIFACT "" (text (prop e "file_path"))
    ++ subject_of ARTIFACT "sha256:" (text (prop e "hash"))).

(** ** Risk *)

Definition oneOf (s : jsstr) (l : list string) : bool := existsb (fun x => bool_decide (s = js x)) l.
Definition isSyscall (e : AuditEvent) (l : list string) : bool :=
  match prop e "syscall" with JStr s => oneOf s l | _ => false end.

Definition shells : list string := ["nc"; "netcat"; "ncat"; "curl"; "wget"; "sh"; "bash"; "python"; "perl"]%string.

Definition calculateRisk (e : AuditEvent) : Z :=
  let t := type_ e in
  let msg := upper (message e) in
  let kernel := oneOf t ["SYSCALL_EVENT"; "SECURITY"] in
  if kernel && isSyscall e ["ptrace"] then 35
  else if kernel && isSyscall e ["memfd_create"] then 30
  else if kernel && isSyscall e ["execve"] && oneOf (lower (textOr (prop e "comm"))) shells then 25
  else if kernel && isSyscall e ["finit_module"; "init_module"]%string then 40
  else if oneOf t ["EXFIL_ALERT"] then 40
  else if oneOf t ["CANARY_TRIGGER"] then 50
  else if oneOf t ["FILE_ALERT"] && includes msg (js "DENIED") then 45
  else if oneOf t ["MALWARE_DETECTION"; "ROOTKIT_DETECTION"]%string then 60
  else if oneOf t ["HONEYPOT_TRIGGER"] then 40
  else 1.

(** ** Stages *)

(** The stages to which [mapEventToStage] adds the node. *)
Definition maps_to (e : AuditEvent) (st : Stage) : bool :=
  let t := type_ e in
  let msg := upper (message e) in
  let comm := lower (textOr (prop e "comm")) in
  let syscall := lower (textOr (prop e "syscall")) in
  match st with
  | Reconnaissance => oneOf t ["SCAN_RESULT"; "NETWORK_DISCOVERY"]%string
  | Weaponization => (oneOf syscall ["execve"] && oneOf comm ["nc"; "curl"; "wget"; "python"]%string) || oneOf t ["MALWARE_DETECTION"]
  | Delivery => oneOf t ["HONEYPOT_TRIGGER"; "CANARY_TRIGGER"; "PHISHING_DETECTION"]%string
  | Exploitation => oneOf syscall ["ptrace"; "memfd_create"; "unshare"]%string || oneOf t ["EXPLOIT_PAYLOAD"]
  | Installation => (oneOf t ["FILE_ALERT"] && includes msg (js "DENIED")) || oneOf t ["PERSISTENCE_DETECTION"]
                    || oneOf syscall ["finit_module"; "init_module"]%string
  | CommandAndControl => oneOf t ["EXFIL_ALERT"] || (oneOf t ["BEHAVIORAL_ANOMALY"] && includes msg (js "BEACON"))
  | ActionsOnObjectives => includes msg (js "EXFIL") || oneOf t ["SELF_DESTRUCT"; "RANSOMWARE_TRIGGER"]%string
  end.

Definition add (id : jsstr) (l : list jsstr) : list jsstr := if bool_decide (id ∈ l) then l else l ++ [id].

Definition mapEventToStage (s : Stage -> list jsstr) (id : jsstr) (e : AuditEvent) : Stage -> list jsstr :=
  fun st => if maps_to e st then add id (s st) else s st.

(** ** Processing *)

(** One subject of one event: [now] was read when the call began, and the two
    identifiers are used if a node or a chain is made. *)
Record Piece := mkPiece { p_now : Z; p_event : AuditEvent; p_subject : SubjectType * jsstr; nodeId : jsstr; chainId : jsstr }.

Definition chainKey (n : CorrelationNode) : jsstr :=
  match n_correlationId n with Some (c :: s) => c :: s | _ => n_value n end.

Definition findNode (s : Service) (p : Piece) : CorrelationNode :=
  match JsMap.get (activeNodes s) (p_subject p).2 with
  | Some n => n
  | None => mkNode (nodeId p) (p_subject p).1 (p_subject p).2 (timestamp (p_event p)) (timestamp (p_event p)) [] (0 # 1)
              (correlationId (p_event p)) (match prop (p_event p) "pid" with JNum n => Some n | _ => None end)
  end.

(** [elapsed] and the halving of the risk. *)
Definition decayed (now : Z) (n : CorrelationNode) : Q :=
  match date (lastSeen n) with
  | Some t => if (0 <? now - t) && negb (Qle_bool (riskScore n) (0 # 1))
              then Qmult (riskScore n) (half (now - t # RISK_DECAY_HALFLIFE_MS)) else riskScore n
  | None => riskScore n
  end.

Definition burstMultiplier (n : CorrelationNode) (e : AuditEvent) : Q :=
  match date (timestamp e), date (firstSeen n) with
  | Some t, Some t0 => if (t - t0 <? ATTACK_BURST_WINDOW_MS) && (0 <? t - t0) then (3 # 2) else (1 # 1)
  | _, _ => (1 # 1)
  end.

Definition keepLast (l : list AuditEvent) : list AuditEvent := if (MAX_NODES_PER_SUBJECT <? length l)%nat then tl l else l.

Definition updateNode (now : Z) (e : AuditEvent) (n : CorrelationNode) : CorrelationNode :=
  mkNode (n_id n) (n_type n) (n_value n) (firstSeen n) (timestamp e) (keepLast (events n ++ [e]))
    (decayed now n + inject_Z (calculateRisk e) * burstMultiplier n e)%Q (n_correlationId n) (n_pid n).

Definition findChain (s : Service) (p : Piece) (key : jsstr) : KillChain :=
  default (mkChain (chainId p) key (fun _ => []) (0 # 1) (timestamp (p_event p)) false) (JsMap.get (killChains s) key).

Definition nonempty (l : list jsstr) : bool := match l with [] => false | _ => true end.

Definition updateKillChain (c : KillChain) (n : CorrelationNode) (e : AuditEvent) : KillChain :=
  let st := mapEventToStage (stages c) (n_id n) e in
  let breach := nonempty (st Exploitation) && nonempty (st CommandAndControl) in
  mkChain (c_id c) (subject c) st (if breach then inject_Z 100 else Qmin (inject_Z 100) (riskScore n)) (timestamp e)
    (isConfirmedBreach c || breach).

(** The verdict that is logged. *)
Definition verdict (c : KillChain) : option bool :=
  if Qle_bool CRITICAL_RISK_THRESHOLD (overallRisk c) then Some (isConfirmedBreach c) else None.

Definition step (s : Service) (p : Piece) : Service :=
  let n := updateNode (p_now p) (p_event p) (findNode s p) in
  let nodes := JsMap.set (activeNodes s) (p_subject p).2 n in
  let key := chainKey n in
  mkService nodes (JsMap.set (killChains s) key (updateKillChain (findChain s p key) n (p_event p))).

Definition run (s : Service) (ps : list Piece) : Service := fold_left step ps s.

(** A call that is not interleaved with others; [ids] supplies identifiers. *)
Definition processEvent (now : Z) (ids : nat -> jsstr * jsstr) (e : AuditEvent) (s : Service) : Service :=
  run s (imap (fun i sub => mkPiece now e sub (ids i).1 (ids i).2) (extractSubjects e)).

Definition riskier (a b : KillChain) : bool := negb (Qle_bool (overallRisk a) (overallRisk b)).

Definition getKillChains (s : Service) : list KillChain := stable_sort riskier (map snd (killChains s)).

(** ** Where the events of a subject go *)

(** A subject's events go to the chain that its first event named. *)
Definition routed (ps : list Piece) (p : Piece) : jsstr :=
  match find (fun q => bool_decide ((p_subject q).2 = (p_subject p).2)) ps with
  | Some q => match correlationId (p_event q) with Some (c :: s) => c :: s | _ => (p_subject p).2 end
  | None => (p_subject p).2
  end.

Definition reached (ps : list Piece) (k : jsstr) (st : Stage) : Prop :=
  exists p, p ∈ ps /\ routed ps p = k /\ maps_to (p_event p) st = true.

Lemma run_snoc s ps p : run s (ps ++ [p]) = step (run s ps) p.
Proof. unfold run. by rewrite fold_left_app. Qed.

Lemma routed_snoc ps p q : q ∈ ps -> routed (ps ++ [p]) q = routed ps q.
Proof.
  intros Hq. unfold routed. rewrite find_snoc. destruct (find _ ps) eqn:E; [done|].
  apply find_none with (x := q) in E; [|by apply list_elem_of_In]. by rewrite bool_decide_eq_false in E.
Qed.

Lemma reached_snoc ps p k st : reached (ps ++ [p]) k st <->
  reached ps k st \/ (routed (ps ++ [p]) p = k /\ maps_to (p_event p) st = true).
Proof.
  unfold reached. split.
  - intros (q & Hq & Hk & Hm). apply elem_of_app in Hq as [Hq|Hq%list_elem_of_singleton].
    + left. exists q. by rewrite <-(routed_snoc ps p q Hq).
    + subst q. by right.
  - intros [(q & Hq & Hk & Hm)|[Hk Hm]].
    + exists q. rewrite routed_snoc by done. set_solver.
    + exists p. set_solver.
Qed.

(** The node of a subject remembers its first event. *)
Definition node_ok (ps : list Piece) (v : jsstr) (o : option CorrelationNode) : Prop :=
  match o, find (fun q => bool_decide ((p_subject q).2 = v)) ps with
  | Some n, Some q => n_value n = v /\ n_correlationId n = correlationId (p_event q)
      /\ (0 <= riskScore n)%Q /\ (length (events n) <= MAX_NODES_PER_SUBJECT)%nat
  | None, None => True
  | _, _ => False
  end.

(** [Math.pow(0.5, x)] is neither negative nor, for a positive [x], above one. *)
Hypothesis half_range : forall x, (0 < x)%Q -> (0 <= half x <= 1)%Q.

Lemma decayed_range now n : (0 <= riskScore n)%Q -> (0 <= decayed now n <= riskScore n)%Q.
Proof.
  intros Hr. unfold decayed. destruct (date _) as [t|]; [|split; [done|apply Qle_refl]].
  destruct (_ && _) eqn:E; [|split; [done|apply Qle_refl]]. apply andb_true_iff in E as [E _]. apply Z.ltb_lt in E.
  destruct (half_range (now - t # RISK_DECAY_HALFLIFE_MS)) as [H0 H1]; [unfold Qlt; simpl; lia|].
  split; [by apply Qmult_le_0_compat|]. rewrite <-(Qmult_1_r (riskScore n)) at 2.
  rewrite !(Qmult_comm (riskScore n)). by apply Qmult_le_compat_r.
Qed.

Lemma calculateRisk_pos e : 1 <= calculateRisk e.
Proof. unfold calculateRisk. repeat case_match; lia. Qed.

Lemma updated_risk now e n : (0 <= riskScore n)%Q -> (0 <= riskScore (updateNode now e n))%Q.
Proof.
  intros Hr. cbn [updateNode riskScore]. apply (Qle_trans _ (0 + 0)); [discriminate|]. apply Qplus_le_compat; [by apply decayed_range|].
  apply Qmult_le_0_compat; [unfold Qle; simpl; pose proof (calculateRisk_pos e); lia|]. unfold burstMultiplier. by repeat case_match.
Qed.

Lemma keepLast_length l e : (length l <= MAX_NODES_PER_SUBJECT)%nat -> (length (keepLast (l ++ [e])) <= MAX_NODES_PER_SUBJECT)%nat.
Proof.
  intros Hl. unfold keepLast. assert (length (l ++ [e]) = S (length l)) as E by (rewrite length_app; simpl; lia).
  destruct (Nat.ltb_spec MAX_NODES_PER_SUBJECT (length (l ++ [e]))); [|lia]. destruct (l ++ [e]); simpl in *; lia.
Qed.

Lemma nodes_ok ps : forall v, node_ok ps v (JsMap.get (activeNodes (run new ps)) v).
Proof.
  induction ps as [|p ps IH] using rev_ind; intros v; [done|]. rewrite run_snoc. unfold node_ok. rewrite find_snoc.
  cbn [step activeNodes]. specialize (IH v). unfold node_ok in IH.
  destruct (decide ((p_subject p).2 = v)) as [<-|Hv].
  - rewrite JsMap.get_set_eq, bool_decide_true by done. unfold findNode.
    destruct (JsMap.get _ _) as [n|], (find _ ps) as [q|]; try done.
    + destruct IH as (H1 & H2 & H3 & H4). split_and!; [done|done|by apply updated_risk|by apply keepLast_length].
    + split_and!; [done|done|by apply updated_risk|by apply keepLast_length; simpl; lia].
  - rewrite JsMap.get_set_ne, bool_decide_false by done. by destruct (JsMap.get _ _), (find _ ps).
Qed.

(** The chain a piece updates. *)
Definition keyAt (s : Service) (p : Piece) : jsstr := chainKey (updateNode (p_now p) (p_event p) (findNode s p)).

Lemma keyAt_routed ps p : keyAt (run new ps) p = routed (ps ++ [p]) p.
Proof.
  unfold keyAt, routed, chainKey. cbn [updateNode n_correlationId n_value]. rewrite find_snoc, bool_decide_true by done.
  pose proof (nodes_ok ps (p_subject p).2) as Hn. unfold node_ok in Hn. unfold findNode.
  destruct (JsMap.get _ _) as [n|], (find _ ps) as [q|]; try done. destruct Hn as (-> & -> & _). done.
Qed.

(** ** Chains *)

Record chain_ok (ps : list Piece) (k : jsstr) (c : KillChain) : Prop := mkChainOk {
  co_subject : subject c = k;
  co_stage : forall st, stages c st <> [] <-> reached ps k st;
  co_breach : isConfirmedBreach c = true <-> stages c Exploitation <> [] /\ stages c CommandAndControl <> [];
  co_full : isConfirmedBreach c = true -> overallRisk c = inject_Z 100;
  co_range : (0 <= overallRisk c <= inject_Z 100)%Q;
}.

Definition chains_ok (ps : list Piece) (k : jsstr) (o : option KillChain) : Prop :=
  match o with Some c => chain_ok ps k c | None => forall p, p ∈ ps -> routed ps p <> k end.

Lemma nonempty_true l : nonempty l = true <-> l <> [].
Proof. by destruct l. Qed.

Lemma mapped_stage s id e st : mapEventToStage s id e st <> [] <-> s st <> [] \/ maps_to e st = true.
Proof.
  unfold mapEventToStage, add. destruct (maps_to e st); [|naive_solver].
  case_bool_decide; destruct (s st); naive_solver set_solver.
Qed.

Lemma updateKillChain_ok ps p n c : chain_ok ps (routed (ps ++ [p]) p) c -> (0 <= riskScore n)%Q ->
  chain_ok (ps ++ [p]) (routed (ps ++ [p]) p) (updateKillChain c n (p_event p)).
Proof.
  intros [Hs Hst Hb Hf Hr] Hn. unfold updateKillChain. set (st := mapEventToStage _ _ _).
  assert (forall t, st t <> [] <-> reached (ps ++ [p]) (routed (ps ++ [p]) p) t) as Hst'.
  { intros t. unfold st. rewrite mapped_stage, reached_snoc, Hst. naive_solver. }
  assert (isConfirmedBreach c || (nonempty (st Exploitation) && nonempty (st CommandAndControl)) = true <->
          st Exploitation <> [] /\ st CommandAndControl <> []) as Hb'.
  { rewrite orb_true_iff, andb_true_iff, !nonempty_true, Hb. unfold st. rewrite !mapped_stage. naive_solver. }
  constructor; cbn [subject stages isConfirmedBreach overallRisk]; [done|done|done| |].
  - rewrite Hb', <-!nonempty_true. by intros [-> ->].
  - destruct (_ && _); [by split|]. split; [by apply Q.min_glb|apply Q.le_min_l].
Qed.

Lemma chains_are_ok ps : forall k, chains_ok ps k (JsMap.get (killChains (run new ps)) k).
Proof.
  induction ps as [|p ps IH] using rev_ind; intros k; [by intros p Hp%elem_of_nil|]. rewrite run_snoc.
  cbn [step killChains]. fold (keyAt (run new ps) p). rewrite keyAt_routed. set (key := routed _ p). specialize (IH k).
  destruct (decide (key = k)) as [<-|Hk].
  - rewrite JsMap.get_set_eq. simpl. apply updateKillChain_ok.
    + fold key. unfold findChain. destruct (JsMap.get _ _) as [c|]; [done|]. simpl in *.
      constructor; simpl; [done| | | |by split]; [|split; [done|naive_solver]|done].
      intros st. split; [done|]. intros (q & Hq & Hr & _). by destruct (IH q Hq).
    + apply updated_risk. pose proof (nodes_ok ps (p_subject p).2) as Hn. unfold node_ok in Hn. unfold findNode.
      destruct (JsMap.get (activeNodes _) _) as [n|], (find _ ps); try done. naive_solver.
  - rewrite JsMap.get_set_ne by done. destruct (JsMap.get _ _) as [c|]; simpl in *.
    + destruct IH as [Hs Hst Hb Hf Hr]. constructor; try done. intros st. rewrite Hst, reached_snoc. naive_solver.
    + intros q [Hq|Hq%list_elem_of_singleton]%elem_of_app; [rewrite routed_snoc by done; by apply IH|by subst q].
Qed.

(** C22: a breach is confirmed exactly when it happened: however the calls for
    several events interleave, a kill chain is confirmed if and only if some
    event mapped to it was an exploitation and some event mapped to it was
    command and control, in whichever order and over whichever subjects; from
    then on its risk stays at 100, and otherwise it lies between 0 and 100. *)
Theorem breach_exact ps k c : JsMap.get (killChains (run new ps)) k = Some c ->
  (isConfirmedBreach c = true <-> reached ps k Exploitation /\ reached ps k CommandAndControl)
  /\ (isConfirmedBreach c = true -> overallRisk c = inject_Z 100)
  /\ (0 <= overallRisk c <= inject_Z 100)%Q.
Proof.
  intros Hc. pose proof (chains_are_ok ps k) as Hk. rewrite Hc in Hk. destruct Hk as [_ Hst Hb Hf Hr].
  rewrite <-!Hst. done.
Qed.

(** No event is without a chain. *)
Lemma routed_somewhere ps p : p ∈ ps -> JsMap.get (killChains (run new ps)) (routed ps p) <> None.
Proof. intros Hp E. pose proof (chains_are_ok ps (routed ps p)) as Hk. rewrite E in Hk. by apply (Hk p). Qed.

Lemma sorted_before {A} (R : A -> A -> Prop) l i j x y : StronglySorted R l -> (i < j)%nat -> l !! i = Some x -> l !! j = Some y -> R x y.
Proof.
  intros Hl. revert i j. induction Hl as [|a l Hl IH Ha]; intros i j Hij Hx Hy; [done|].
  destruct i as [|i], j as [|j]; try lia; simpl in *; [|by apply (IH i j); [lia|..]].
  simplify_eq. rewrite Forall_forall in Ha. apply Ha. by eapply list_elem_of_lookup_2.
Qed.

#[local] Instance riskier_strict : StrictWeak riskier.
Proof.
  unfold riskier. constructor.
  - intros a b Hab%negb_true_iff. apply negb_false_iff. apply Qle_bool_iff.
    apply Qlt_le_weak, Qnot_le_lt. intros E%Qle_bool_iff. congruence.
  - intros a b c H1%negb_false_iff%Qle_bool_iff H2%negb_false_iff%Qle_bool_iff. apply negb_false_iff, Qle_bool_iff. by eapply Qle_trans.
Qed.

Lemma get_of_elem {K V} `{EqDecision K} (m : list (K * V)) v : JsMap.wf m -> v ∈ map snd m -> exists k, JsMap.get m k = Some v.
Proof. intros Hw ([k w] & -> & Hv)%list_elem_of_fmap. exists k. by apply JsMap.elem_get. Qed.

Lemma chains_wf ps : JsMap.wf (killChains (run new ps)).
Proof. induction ps as [|p ps IH] using rev_ind; [constructor|]. rewrite run_snoc. by apply JsMap.wf_set. Qed.

(** Confirmed breaches lead the report: in the list the dashboard gets, no
    chain of lower risk stands before a confirmed breach, and the list holds
    the chains the service knows, each once. *)
Theorem breaches_reported_first ps : let report := getKillChains (run new ps) in
  report ≡ₚ map snd (killChains (run new ps)) /\
  forall i j c d, (i < j)%nat -> report !! i = Some c -> report !! j = Some d -> isConfirmedBreach d = true ->
    (overallRisk c == inject_Z 100)%Q.
Proof.
  unfold getKillChains. split; [apply stable_sort_perm|]. intros i j c d Hij Hc Hd Hb.
  assert (forall e, e ∈ stable_sort riskier (map snd (killChains (run new ps))) -> exists k, chain_ok ps k e) as Hok.
  { intros e He. apply stable_sort_elem, get_of_elem in He as [k Hk]; [|apply chains_wf]. exists k.
    pose proof (chains_are_ok ps k) as H1. by rewrite Hk in H1. }
  destruct (Hok c) as [k1 [_ _ _ _ [_ Hr]]]; [by eapply list_elem_of_lookup_2|].
  destruct (Hok d) as [k2 [_ _ _ Hf _]]; [by eapply list_elem_of_lookup_2|].
  pose proof (sorted_before _ _ i j c d (stable_sort_ordered riskier _) Hij Hc Hd) as Ho.
  unfold in_order, riskier in Ho. apply negb_false_iff, Qle_bool_iff in Ho. rewrite (Hf Hb) in Ho. by apply Qle_antisym.
Qed.

(** ** The node of a subject *)

(** A burst is only seen in the first minute of a subject's life: once a
    minute has passed since its first event, no event of the subject is ever
    weighted, however close together they come. *)
Theorem late_bursts_unweighted n e t t0 : date (timestamp e) = Some t -> date (firstSeen n) = Some t0 ->
  ATTACK_BURST_WINDOW_MS <= t - t0 -> burstMultiplier n e = (1 # 1).
Proof. intros Ht Ht0 Hw. unfold burstMultiplier. rewrite Ht, Ht0. unfold ATTACK_BURST_WINDOW_MS in *. crush_if. Qed.

End correlation.

(** ** An intrusion *)

Import CanonicalInt.

Definition half0 (_ : Q) : Q := 1 # 2.
Definition date0 (s : jsstr) : option Z := match s with [c] => Some (c * 1000) | _ => None end.

Definition event0 (ts ty : string) (corr : option jsstr) (fields : list (jsstr * jval)) : AuditEvent (H := int_number) :=
  mkEvent [] (js ts) (js ty) None None [] None (Some (JObj fields)) [] [] None corr.

Definition exploit0 := event0 "a" "EXPLOIT_PAYLOAD" (Some (js "c1")) [(js "ip", JStr (js "6.6.6.6")); (js "comm", JStr (js "sh"))].
Definition exfil0 := event0 "b" "EXFIL_ALERT" None [(js "comm", JStr (js "sh"))].

Definition pieces0 : list (Piece (H := int_number)) :=
  [mkPiece 97000 exploit0 (IP, js "6.6.6.6") (js "n1") (js "k1"); mkPiece 98000 exfil0 (PROCESS, js "comm:sh") (js "n2") (js "k2");
   mkPiece 97000 exploit0 (PROCESS, js "comm:sh") (js "n3") (js "k3")].

Definition after0 : Service (H := int_number) := run half0 date0 toLowerCase toLowerCase new pieces0.

Lemma half0_range x : (0 < x)%Q -> (0 <= half0 x <= 1)%Q.
Proof. by split. Qed.

Lemma breach_exact_witness : (fun c => isConfirmedBreach c) <$> JsMap.get (killChains after0) (js "comm:sh") = Some true /\
  reached toLowerCase toLowerCase pieces0 (js "comm:sh") CommandAndControl /\
  ~ reached toLowerCase toLowerCase pieces0 (js "c1") CommandAndControl.
Proof.
  destruct (JsMap.get (killChains after0) (js "comm:sh")) as [c|] eqn:E1; [|by vm_compute in E1].
  destruct (JsMap.get (killChains after0) (js "c1")) as [d|] eqn:E2; [|by vm_compute in E2].
  pose proof (breach_exact half0 date0 toLowerCase toLowerCase half0_range pieces0 _ c E1) as [H1 _].
  pose proof (breach_exact half0 date0 toLowerCase toLowerCase half0_range pieces0 _ d E2) as [H2 _].
  assert (isConfirmedBreach c = true) as Hc by (vm_compute in E1; injection E1 as <-; reflexivity).
  assert (isConfirmedBreach d = false) as Hd by (vm_compute in E2; injection E2 as <-; reflexivity).
  split_and!; [by rewrite <-Hc|by apply H1|]. intros H3. assert (isConfirmedBreach d = true) by (apply H2; split; [|done];
    exists (mkPiece 97000 exploit0 (IP, js "6.6.6.6") (js "n1") (js "k1")); split; [left|by vm_compute]). congruence.
Defined.

Lemma breaches_reported_first_witness : map (fun c => isConfirmedBreach c) (getKillChains after0) = [true; false] /\
  getKillChains after0 ≡ₚ map snd (killChains after0).
Proof.
  split; [by vm_compute|]. apply (breaches_reported_first half0 date0 toLowerCase toLowerCase half0_range pieces0).
Defined.

Lemma late_bursts_unweighted_witness : burstMultiplier date0 (mkNode (js "n") IP (js "6.6.6.6") [1] [1] [] 0 None None) (event0 "a" "X" None []) = (1 # 1).
Proof. apply (late_bursts_unweighted date0 _ _ 97000 1000); [reflexivity|reflexivity|]. unfold ATTACK_BURST_WINDOW_MS. lia. Defined.
End Correlation.
