(* ===== verification/Canary.v ===== *)
(** * Canary files

    Models [src/orchestrator/domain/protection/canary_service.ts]
    ([CanaryService]): bait files with a master copy under the service's own
    directory, projected to realistic paths by hard links.  The file system is
    a map from names to inodes and from inodes to content, so that a hard link
    is sharing; names are absolute, [resolve] is the path library's.  Each
    system call may fail: an [Outcome] says which do.  Deploying one token is
    one step; [Deno.link] refuses an existing name before it looks at the
    device.  Directories are not inodes and log lines are left out. *)

From S2P Require Import Prelude JsMap JsString.
From stdpp Require Import gmap.
Open Scope Z_scope.

Module Canary.
Import JsString.

(** ** The file system *)

Record Fs := mkFs { names : gmap jsstr nat; contents : gmap nat jsstr; next : nat }.

Definition with_names (f : gmap jsstr nat -> gmap jsstr nat) (w : Fs) : Fs := mkFs (f (names w)) (contents w) (next w).

Definition unlink (p : jsstr) (w : Fs) : Fs := with_names (delete p) w.

(** [Deno.writeTextFile]: an existing file keeps its inode. *)
Definition write (p text : jsstr) (w : Fs) : Fs :=
  match names w !! p with
  | Some i => mkFs (names w) (<[i := text]> (contents w)) (next w)
  | None => mkFs (<[p := next w]> (names w)) (<[next w := text]> (contents w)) (S (next w))
  end.

Definition link (old new : jsstr) (w : Fs) : Fs :=
  match names w !! old with Some i => with_names (<[new := i]>) w | None => w end.

Definition textAt (w : Fs) (p : jsstr) : option jsstr := i ← names w !! p; contents w !! i.

(** [Deno.remove(dir, { recursive: true })]; [survives] are the names a failed
    removal leaves behind. *)
Definition removeTree (dir : jsstr) (survives : jsstr -> bool) (w : Fs) : Fs :=
  with_names (base.filter (fun e => startsWith e.1 (dir ++ js "/") = false \/ survives e.1 = true)) w.

(** ** The service *)

Record CanaryToken := mkToken { t_id : jsstr; projectionPath : jsstr; masterPath : jsstr; description : jsstr; triggered : bool }.

Record Service := mkService { tokens : list CanaryToken; lastInternalOp : list (jsstr * Z) }.

Definition MASTER_DIR : jsstr := js "./volume/deception/bait".

Definition chars : jsstr := js "abcdefghijklmnopqrstuvwxyz0123456789".

(** [draws] are the values of [secureRandomInt(0, chars.length - 1)]. *)
Definition generateRandomString (draws : list nat) : jsstr := map (fun i => default 0 (chars !! i)) draws.

Definition masterFor (id suffix : jsstr) : jsstr := MASTER_DIR ++ js "/" ++ id ++ js "_" ++ suffix.

Definition baitFiles : list (jsstr * jsstr * jsstr) :=
  [(js "fin_01", js "./vault_credentials.xlsx", js "Fake financial credentials");
   (js "aws_01", js "./.aws/config", js "Fake cloud infrastructure config");
   (js "ssh_01", js "./.ssh/id_ed25519_production", js "Fake production SSH key");
   (js "k8s_01", js "./.kube/config", js "Fake Kubernetes cluster config");
   (js "env_01", js "./deployment_secrets.env", js "Fake CI/CD environment secrets")].

(** The constructor; [suffix i] is the random string of the [i]th token. *)
Definition new (suffix : nat -> jsstr) : Service :=
  mkService (imap (fun i '(id, path, desc) => mkToken id path (masterFor id (suffix i)) desc false) baitFiles) [].

Definition content (t : CanaryToken) (serial : jsstr) : jsstr :=
  js "DECEPTION_TOKEN: " ++ description t ++ [10] ++ js "SERIAL: " ++ serial ++ [10] ++ js "DO NOT DELETE" ++ [10].

Inductive LinkResult := Linked | CrossDevice | LinkFailed.

Record Outcome := mkOutcome { writes : bool; stats : bool; links : LinkResult; copies : bool; serial : jsstr }.

Inductive effect := EWatch (path : jsstr) | EAudit (path process : jsstr).

Section canary.
Context (resolve : jsstr -> jsstr) (production : bool).

Definition projection (t : CanaryToken) : jsstr := resolve (projectionPath t).
Definition master (t : CanaryToken) : jsstr := resolve (masterPath t).

(** Both [stat] calls: [None] is an exception, [Some true] the same inode. *)
Definition sameFile (o : Outcome) (t : CanaryToken) (w : Fs) : option bool :=
  match names w !! projection t, names w !! master t with
  | Some i, Some j => if stats o then Some (bool_decide (i = j)) else None
  | _, _ => None
  end.

(** What [Deno.link] does: an existing name is an error. *)
Definition linkResult (o : Outcome) (t : CanaryToken) (w : Fs) : LinkResult :=
  match names w !! projection t with Some _ => LinkFailed | None => links o end.

(** One round of the loop of [start]. *)
Definition deploy (o : Outcome) (t : CanaryToken) (w : Fs) : Fs * list effect :=
  if negb (writes o) then (w, []) else
  let w := write (master t) (content t (serial o)) w in
  if negb production then (w, []) else
  match sameFile o t w with
  | Some true => (w, [EWatch (projection t)])
  | Some false => (w, [])
  | None =>
      match linkResult o t w with
      | Linked => (link (master t) (projection t) w, [EWatch (projection t)])
      | CrossDevice => if copies o then (write (projection t) (default [] (textAt w (master t))) w, [EWatch (projection t)]) else (w, [])
      | LinkFailed => (w, [])
      end
  end.

(** [deploySingle]: no copy across devices, and a token that is already linked
    is not watched. *)
Definition deploySingle (o : Outcome) (t : CanaryToken) (w : Fs) : Fs * list effect :=
  if negb (writes o) then (w, []) else
  let w := write (master t) (content t (serial o)) w in
  if negb production then (w, []) else
  match sameFile o t w with
  | Some _ => (w, [])
  | None =>
      match linkResult o t w with
      | Linked => (link (master t) (projection t) w, [EWatch (projection t)])
      | _ => (w, [])
      end
  end.

Fixpoint deployAll (os : nat -> Outcome) (i : nat) (ts : list CanaryToken) (w : Fs) : Fs * list effect :=
  match ts with
  | [] => (w, [])
  | t :: ts => let '(w, es) := deploy (os i) t w in let '(w, es') := deployAll os (S i) ts w in (w, es ++ es')
  end.

Definition start (survives : jsstr -> bool) (os : nat -> Outcome) (s : Service) (w : Fs) : Fs * list effect :=
  deployAll os 0 (tokens s) (removeTree (resolve MASTER_DIR) survives w).

Definition registerToken (o : Outcome) (id path desc suffix : jsstr) (s : Service) (w : Fs) : Service * Fs * list effect :=
  let t := mkToken id path (masterFor id suffix) desc false in
  let '(w, es) := deploySingle o t w in (mkService (tokens s ++ [t]) (lastInternalOp s), w, es).

(** The hourly aging: only the time of the internal operation matters here. *)
Definition age (now : Z) (s : Service) : Service :=
  mkService (tokens s) (fold_left (fun m t => JsMap.set m (projection t) now) (tokens s) (lastInternalOp s)).

Definition trigger (t : CanaryToken) : CanaryToken := mkToken (t_id t) (projectionPath t) (masterPath t) (description t) true.

(** The loop of [handleFileAccess]. *)
Fixpoint triggerFirst (path process : jsstr) (ts : list CanaryToken) : list CanaryToken * option effect :=
  match ts with
  | [] => ([], None)
  | t :: ts => if bool_decide (path = projection t) then (trigger t :: ts, Some (EAudit (projectionPath t) process))
               else let '(ts, e) := triggerFirst path process ts in (t :: ts, e)
  end.

Definition INTERNAL : jsstr := js "system:internal".

Definition suppressed (now : Z) (path process : jsstr) (s : Service) : bool :=
  bool_decide (process = INTERNAL) && (now - default 0 (JsMap.get (lastInternalOp s) path) <? 5000).

Definition handleFileAccess (now : Z) (accessedPath process : jsstr) (s : Service) : Service * bool * list effect :=
  let path := resolve accessedPath in
  if suppressed now path process s then (s, false, []) else
  match triggerFirst path process (tokens s) with
  | (ts, Some e) => (mkService ts (lastInternalOp s), true, [e])
  | (_, None) => (s, false, [])
  end.

(** [Deno.remove(path).catch(() => {})] for a projection and its master;
    [removes] says which calls succeed. *)
Definition removeBait (removes : jsstr -> bool) (projected : bool) (t : CanaryToken) (w : Fs) : Fs :=
  let w := if projected && removes (projection t) then unlink (projection t) w else w in
  if removes (master t) then unlink (master t) w else w.

Definition remorph (suffix : jsstr) (t : CanaryToken) : CanaryToken :=
  mkToken (t_id t) (projectionPath t) (masterFor (t_id t) suffix) (description t) false.

Definition morph (removes : jsstr -> bool) (suffix : nat -> jsstr) (survives : jsstr -> bool) (os : nat -> Outcome) (now : Z)
    (s : Service) (w : Fs) : Service * Fs * list effect :=
  let w := fold_left (fun w t => removeBait removes true t w) (tokens s) w in
  let s := mkService (imap (fun i => remorph (suffix i)) (tokens s)) (lastInternalOp (age now s)) in
  let '(w, es) := start survives os s w in (s, w, es).

Definition shutdown (removes : jsstr -> bool) (s : Service) (w : Fs) : Fs :=
  fold_left (fun w t => removeBait removes production t w) (tokens s) w.

(** ** What is not bait is left alone *)

(** A file that no token owns: its name is no master's and lies outside the
    service's directory, and no master shares its inode. *)
Record foreign (ts : list CanaryToken) (w : Fs) (p : jsstr) (i : nat) : Prop := mkForeign {
  fo_name : names w !! p = Some i;
  fo_old : (i < next w)%nat;
  fo_outside : startsWith p (resolve MASTER_DIR ++ js "/") = false;
  fo_master : Forall (fun t => master t <> p /\ names w !! master t <> Some i) ts;
}.

(** The change from [w] to [w'] does not touch the file. *)
Definition kept (ts : list CanaryToken) (p : jsstr) (i : nat) (w w' : Fs) : Prop :=
  foreign ts w' p i /\ contents w' !! i = contents w !! i.

Lemma kept_trans ts p i w1 w2 w3 : kept ts p i w1 w2 -> (foreign ts w2 p i -> kept ts p i w2 w3) -> kept ts p i w1 w3.
Proof. intros [H1 E1] H2. destruct (H2 H1) as [H3 E2]. split; [done|]. congruence. Qed.

Lemma write_kept ts w p i q text : foreign ts w p i -> names w !! q <> Some i -> q <> p -> kept ts p i w (write q text w).
Proof.
  intros [Hn Ho Hout Hm] Hq Hqp. unfold write. destruct (names w !! q) as [j|] eqn:E.
  - split; [by constructor|]. simpl. rewrite lookup_insert_ne; [done|]. congruence.
  - split; [|simpl; rewrite lookup_insert_ne; [done|lia]]. constructor; simpl; [by rewrite lookup_insert_ne|lia|done|].
    eapply Forall_impl; [exact Hm|]. intros t [H1 H2]. split; [done|]. rewrite lookup_insert. case_decide; [|done].
    intros E'. simplify_eq. lia.
Qed.

Lemma link_kept ts w p i t : foreign ts w p i -> t ∈ ts -> names w !! projection t = None -> kept ts p i w (link (master t) (projection t) w).
Proof.
  intros [Hn Ho Hout Hm] Ht Hp. unfold link. rewrite Forall_forall in Hm. destruct (Hm t Ht) as [_ Hi].
  destruct (names w !! master t) as [j|] eqn:E; [|split; [constructor; [done..|by rewrite Forall_forall]|done]].
  split; [|done]. constructor; simpl; [rewrite lookup_insert_ne; [done|congruence]|done|done|].
  apply Forall_forall. intros u Hu. destruct (Hm u Hu) as [H1 H2]. split; [done|]. rewrite lookup_insert. case_decide; congruence.
Qed.

Lemma deploy_kept ts w p i o t : foreign ts w p i -> t ∈ ts -> kept ts p i w (deploy o t w).1.
Proof.
  intros Hf Ht. unfold deploy. destruct (writes o); simpl; [|by split].
  set (w1 := write _ _ w). assert (kept ts p i w w1) as H1.
  { destruct Hf as [? ? ? Hm]. rewrite Forall_forall in Hm. apply write_kept; [by constructor; [..|apply Forall_forall]|by apply Hm|by apply Hm]. }
  destruct production; simpl; [|done]. destruct (sameFile o t w1) as [[]|]; simpl; [done|done|].
  eapply kept_trans; [exact H1|]. clear Hf. intros Hf. unfold linkResult.
  destruct (names w1 !! projection t) eqn:E; [by split|]. destruct (links o); simpl; [by apply link_kept| |by split].
  destruct (copies o); simpl; [|by split]. apply write_kept; [done|congruence|].
  intros <-. destruct Hf as [Hn _ _ _]. congruence.
Qed.

Lemma deployAll_kept ts p i os us : (forall t, t ∈ us -> t ∈ ts) -> forall k w, foreign ts w p i -> kept ts p i w (deployAll os k us w).1.
Proof.
  induction us as [|t us IH]; intros Hin k w Hf; simpl; [by split|].
  pose proof (deploy_kept ts w p i (os k) t Hf (Hin t ltac:(set_solver))) as H1. destruct (deploy (os k) t w) as [w1 es]. simpl in H1.
  assert (forall t, t ∈ us -> t ∈ ts) as Hus by set_solver. specialize (IH Hus (S k) w1).
  destruct (deployAll os (S k) us w1) as [w2 es2]. simpl in *. by eapply kept_trans.
Qed.

Lemma removeTree_kept ts w p i survives : foreign ts w p i -> kept ts p i w (removeTree (resolve MASTER_DIR) survives w).
Proof.
  intros [Hn Ho Hout Hm]. split; [|done]. constructor; simpl; [|done|done|].
  - apply map_lookup_filter_Some. simpl. auto.
  - eapply Forall_impl; [exact Hm|]. intros t [H1 H2]. split; [done|]. intros [H3 _]%map_lookup_filter_Some. done.
Qed.

(** C25: deploying bait never harms a file that is not bait: whatever system
    calls fail, starting the service leaves the name, the inode and the
    content of every other file as they were. *)
Theorem bait_spares_files s w p i survives os : foreign (tokens s) w p i ->
  let w' := (start survives os s w).1 in names w' !! p = Some i /\ contents w' !! i = contents w !! i.
Proof.
  intros Hf. unfold start. destruct (removeTree_kept (tokens s) w p i survives Hf) as [H1 E1].
  destruct (deployAll_kept (tokens s) p i os (tokens s) ltac:(done) 0 _ H1) as [[Hn _ _ _] E2]. simpl. split; [done|]. congruence.
Qed.

(** ** What happens to a file in the way *)

Lemma removeBait_gone removes projected ts w p : names w !! p = None ->
  names (fold_left (fun w t => removeBait removes projected t w) ts w) !! p = None.
Proof.
  revert w. induction ts as [|t ts IH]; intros w Hp; [done|]. simpl. apply IH. unfold removeBait, unlink.
  destruct (_ && _), (removes (master t)); simpl; rewrite ?lookup_delete; repeat case_decide; done.
Qed.

Lemma removeBait_removes removes ts t w : t ∈ ts -> removes (projection t) = true ->
  names (fold_left (fun w t => removeBait removes true t w) ts w) !! projection t = None.
Proof.
  intros Ht Hr. revert w. induction ts as [|u ts IH]; intros w; [by apply elem_of_nil in Ht|]. simpl.
  apply elem_of_cons in Ht as [<-|Ht]; [|by apply IH]. apply removeBait_gone. unfold removeBait, unlink. rewrite Hr. simpl.
  destruct (removes (master t)); simpl; rewrite ?lookup_delete; repeat case_decide; done.
Qed.

Lemma deploy_blind w o t i : names w !! projection t = Some i -> stats o = true -> (i < next w)%nat -> names w !! master t <> Some i ->
  master t <> projection t -> (deploy o t w).2 = [].
Proof.
  intros Hp Hs Hi Hm Hne. unfold deploy. destruct (writes o); [|done]. simpl. destruct production; [|done]. simpl.
  unfold sameFile, write. destruct (names w !! master t) as [j|] eqn:E; simpl.
  - rewrite Hp, E, Hs. by rewrite bool_decide_false by congruence.
  - rewrite lookup_insert_ne, Hp, lookup_insert_eq, Hs by done. by rewrite bool_decide_false by lia.
Qed.

(** Bait that is already in place is never watched again: when a file stands
    at the projection of a token and is not the token's own master (as after a
    crash, when the old link survives and the new master has a new name), the
    start deploys nothing there and asks no agent to watch it. *)
Theorem leftover_bait_blind ts w o t i : foreign ts w (projection t) i -> t ∈ ts -> stats o = true -> (deploy o t w).2 = [].
Proof.
  intros [Hn Ho Hout Hm] Ht Hs. rewrite Forall_forall in Hm. destruct (Hm t Ht) as [H1 H2]. by eapply deploy_blind.
Qed.

(** Shutting down deletes the files the start had spared: in production the
    file at a token's projection is gone afterwards, whoever's it was. *)
Theorem spared_file_deleted s w survives os removes t i : production = true -> t ∈ tokens s ->
  foreign (tokens s) w (projection t) i -> removes (projection t) = true ->
  let w' := (start survives os s w).1 in
  names w' !! projection t = Some i /\ names (shutdown removes s w') !! projection t = None.
Proof.
  intros Hp Ht Hf Hr w'. destruct (removeTree_kept (tokens s) w (projection t) i survives Hf) as [H1 _].
  destruct (deployAll_kept (tokens s) (projection t) i os (tokens s) ltac:(done) 0 _ H1) as [[Hn _ _ _] _].
  split; [done|]. unfold shutdown. rewrite Hp. by apply removeBait_removes.
Qed.

(** ** A clean deployment *)

Lemma triggerFirst_spec path process ts :
  (path ∉ map projection ts -> triggerFirst path process ts = (ts, None)) /\
  (path ∈ map projection ts -> exists l t r, ts = l ++ t :: r /\ path ∉ map projection l /\ path = projection t
     /\ triggerFirst path process ts = (l ++ trigger t :: r, Some (EAudit (projectionPath t) process))).
Proof.
  induction ts as [|t ts [IH1 IH2]]; simpl; [split; [done|set_solver]|]. case_bool_decide as E.
  - split; [set_solver|]. intros _. exists [], t, ts. split_and!; [done|set_solver|done|done].
  - split.
    + intros H. rewrite IH1 by set_solver. done.
    + intros H. destruct IH2 as (l & u & r & -> & Hl & Hu & ->); [set_solver|]. exists (t :: l), u, r. split_and!; [done|set_solver|done|done].
Qed.

Definition smooth (os : nat -> Outcome) : Prop := forall i, writes (os i) = true /\ links (os i) = Linked.

(** The token is projected: both names are one file. *)
Definition projected (w : Fs) (t : CanaryToken) : Prop := exists i, names w !! projection t = Some i /\ names w !! master t = Some i.

Lemma deploy_smooth o t w : production = true -> writes o = true -> links o = Linked -> master t <> projection t ->
  names w !! projection t = None ->
  let '(w', es) := deploy o t w in es = [EWatch (projection t)] /\ projected w' t /\
    forall q, q <> master t -> q <> projection t -> names w' !! q = names w !! q.
Proof.
  intros Hp Hw Hl Hne Habs. unfold deploy. rewrite Hw, Hp. simpl. set (w1 := write _ _ w).
  assert (names w1 !! projection t = None) as E1.
  { unfold w1, write. destruct (names w !! master t); simpl; [done|]. by rewrite lookup_insert_ne. }
  assert (exists i, names w1 !! master t = Some i) as [i E2].
  { unfold w1, write. destruct (names w !! master t) eqn:E; simpl; [eauto|]. eexists. by rewrite lookup_insert_eq. }
  assert (forall q, q <> master t -> names w1 !! q = names w !! q) as E3.
  { intros q Hq. unfold w1, write. destruct (names w !! master t); simpl; [done|]. by rewrite lookup_insert_ne. }
  unfold sameFile, linkResult. rewrite E1, Hl. split; [done|]. unfold link. rewrite E2. split.
  - exists i. simpl. rewrite lookup_insert_eq, lookup_insert_ne by done. done.
  - intros q H1 H2. simpl. rewrite lookup_insert_ne by done. by apply E3.
Qed.

Lemma deployAll_smooth os ts : production = true -> smooth os -> NoDup (map projection ts ++ map master ts) -> forall k w,
  Forall (fun t => names w !! projection t = None) ts ->
  let '(w', es) := deployAll os k ts w in es = map (fun t => EWatch (projection t)) ts /\ Forall (projected w') ts /\
    forall q, q ∉ map projection ts -> q ∉ map master ts -> names w' !! q = names w !! q.
Proof.
  intros Hp Hos. induction ts as [|t ts IH]; intros Hnd k w Habs; simpl; [by split_and!|].
  apply Forall_cons in Habs as [Ht Habs]. simpl in Hnd. apply NoDup_cons in Hnd as [Hnt Hnd].
  rewrite <-Permutation_middle in Hnd. apply NoDup_cons in Hnd as [Hmt Hnd].
  pose proof (deploy_smooth (os k) t w Hp (proj1 (Hos k)) (proj2 (Hos k)) ltac:(set_solver) Ht) as Hd.
  destruct (deploy (os k) t w) as [w1 es]. destruct Hd as (-> & [i [Hi1 Hi2]] & Hsame).
  assert (Forall (fun t => names w1 !! projection t = None) ts) as Habs'.
  { apply Forall_forall. intros u Hu. rewrite Forall_forall in Habs. assert (projection u ∈ map projection ts) by (by apply list_elem_of_fmap_2).
    rewrite Hsame by set_solver. by apply Habs. }
  specialize (IH Hnd (S k) w1 Habs'). destruct (deployAll os (S k) ts w1) as [w2 es2]. destruct IH as (-> & Hall & Hrest).
  split_and!; [done| |].
  - constructor; [|done]. exists i. rewrite !Hrest by set_solver. done.
  - intros q H1 H2. rewrite Hrest by set_solver. apply Hsame; set_solver.
Qed.

(** A clean start in production arms every canary: when the calls succeed
    and nothing stands in the way, each token is a hard link to its master and
    each projection, in order, is handed to the agent that watches files; a
    later access to any of them by a named process sounds the alarm. *)
Theorem clean_start_arms s w survives os : production = true -> smooth os ->
  NoDup (map projection (tokens s) ++ map master (tokens s)) -> Forall (fun t => names w !! projection t = None) (tokens s) ->
  let '(w', es) := start survives os s w in
  es = map (fun t => EWatch (projection t)) (tokens s) /\ Forall (projected w') (tokens s) /\
  forall t now path process, t ∈ tokens s -> resolve path = projection t -> process <> INTERNAL ->
    (handleFileAccess now path process s).1.2 = true.
Proof.
  intros Hp Hos Hnd Habs. unfold start.
  assert (Forall (fun t => names (removeTree (resolve MASTER_DIR) survives w) !! projection t = None) (tokens s)) as Habs'.
  { eapply Forall_impl; [exact Habs|]. intros t Ht. simpl. apply map_lookup_filter_None. by left. }
  pose proof (deployAll_smooth os (tokens s) Hp Hos Hnd 0%nat _ Habs') as Hd.
  destruct (deployAll os 0 (tokens s) _) as [w' es]. destruct Hd as (-> & Hall & _). split_and!; [done|done|].
  intros t now path process Ht Hpath Hproc. unfold handleFileAccess, suppressed. rewrite bool_decide_false by done. simpl.
  destruct (triggerFirst_spec (resolve path) process (tokens s)) as [_ H2].
  destruct H2 as (l & u & r & _ & _ & _ & ->); [rewrite Hpath; by apply list_elem_of_fmap_2|done].
Qed.

(** ** Access to bait *)

(** An access sounds the alarm exactly when it touches bait: unless the
    service itself may have caused it, an access to the path of a token is
    reported, as one audit event that marks the first token with that path,
    and any other access changes nothing. *)
Theorem canary_exact now path process s :
  let '(s', hit, es) := handleFileAccess now path process s in
  (hit = true <-> resolve path ∈ map projection (tokens s) /\
     ~ (process = INTERNAL /\ now - default 0 (JsMap.get (lastInternalOp s) (resolve path)) < 5000)) /\
  (hit = false -> s' = s /\ es = []) /\
  (hit = true -> exists l t r, tokens s = l ++ t :: r /\ tokens s' = l ++ trigger t :: r /\ resolve path ∉ map projection l
     /\ projection t = resolve path /\ es = [EAudit (projectionPath t) process]).
Proof.
  unfold handleFileAccess, suppressed. case_bool_decide as E1; [destruct (Z.ltb_spec (now - default 0 (JsMap.get (lastInternalOp s) (resolve path))) 5000) as [E2|E2]|];
    simpl; [naive_solver|..];
  destruct (triggerFirst_spec (resolve path) process (tokens s)) as [H1 H2];
  (destruct (decide (resolve path ∈ map projection (tokens s))) as [Hin|Hin];
   [destruct (H2 Hin) as (l & t & r & Hts & Hl & Hp & ->); split_and!; [naive_solver lia|done|naive_solver]
   |rewrite (H1 Hin); split_and!; naive_solver lia]).
Qed.

End canary.

(** ** A host *)

Definition resolve0 (p : jsstr) : jsstr := match p with 46 :: 47 :: r => js "/srv/" ++ r | _ => p end.
Definition fine0 (_ : nat) : Outcome := mkOutcome true true Linked true (js "s").
Definition service0 : Service := new (fun _ => js "abc").
Definition empty0 : Fs := mkFs ∅ ∅ 0.
Definition host0 : Fs := mkFs {[js "/srv/.kube/config" := 0%nat]} {[0%nat := js "clusters"]} 1.
Definition kube0 : CanaryToken := mkToken (js "k8s_01") (js "./.kube/config") (masterFor (js "k8s_01") (js "abc")) (js "Fake Kubernetes cluster config") false.
Definition crashed0 : Fs := (start resolve0 true (fun _ => false) fine0 (new (fun _ => js "old")) empty0).1.

Lemma host0_foreign : foreign resolve0 (tokens service0) host0 (js "/srv/.kube/config") 0.
Proof. constructor; [reflexivity|simpl; lia|reflexivity|]. repeat constructor; vm_compute; discriminate. Qed.

Lemma bait_spares_files_witness : let w' := (start resolve0 true (fun _ => false) fine0 service0 host0).1 in
  names w' !! js "/srv/.kube/config" = Some 0%nat /\ contents w' !! 0%nat = Some (js "clusters").
Proof. apply (bait_spares_files resolve0 true service0 host0 _ 0 (fun _ => false) fine0 host0_foreign). Defined.

Lemma spared_file_deleted_witness : let w' := (start resolve0 true (fun _ => false) fine0 service0 host0).1 in
  names w' !! js "/srv/.kube/config" = Some 0%nat /\ names (shutdown resolve0 true (fun _ => true) service0 w') !! js "/srv/.kube/config" = None.
Proof.
  apply (spared_file_deleted resolve0 true service0 host0 (fun _ => false) fine0 (fun _ => true) kube0 0 eq_refl).
  - vm_compute. do 3 right. left.
  - exact host0_foreign.
  - reflexivity.
Defined.

Lemma leftover_bait_blind_witness : names crashed0 !! js "/srv/.kube/config" <> None /\ (deploy resolve0 true (fine0 0) kube0 crashed0).2 = [].
Proof.
  split; [by vm_compute|]. destruct (names crashed0 !! js "/srv/.kube/config") as [i|] eqn:E; [|by vm_compute in E].
  apply (leftover_bait_blind resolve0 true (tokens service0) crashed0 (fine0 0) kube0 i).
  - vm_compute in E. injection E as <-. constructor; [by vm_compute|vm_compute; lia|by vm_compute|]. repeat constructor; vm_compute; discriminate.
  - vm_compute. do 3 right. left.
  - reflexivity.
Defined.

Lemma clean_start_arms_witness : (start resolve0 true (fun _ => false) fine0 service0 empty0).2
    = map (fun t => EWatch (projection resolve0 t)) (tokens service0) /\
  (handleFileAccess resolve0 7 (js "./.aws/config") (js "cat") service0).1.2 = true.
Proof.
  pose proof (clean_start_arms resolve0 true service0 empty0 (fun _ => false) fine0 eq_refl) as H.
  destruct (start resolve0 true (fun _ => false) fine0 service0 empty0) as [w' es].
  destruct H as (-> & _ & Ha); [by intros i| | |].
  - apply (bool_decide_unpack _). by vm_compute.
  - repeat constructor.
  - split; [done|]. apply (Ha (mkToken (js "aws_01") (js "./.aws/config") (masterFor (js "aws_01") (js "abc")) (js "Fake cloud infrastructure config") false)).
    + vm_compute. right. left.
    + reflexivity.
    + discriminate.
Defined.
End Canary.
