(* ===== verification/EventSchema.v ===== *)
(** * The schemas of events

    Models [src/orchestrator/core/event_schema.ts]: the schema of each event
    type and [validateEvent].  Schemas are data over the combinators of
    [Schemas]; what [parse] returns is the interface [ZodParse], which adds to
    [Zod] what the library documents of objects: the result has the declared
    properties and no others, unless the schema is a passthrough.
    [parse_interp] is an instance. *)

From S2P Require Import Prelude JsString Schemas.
From Stdlib Require Import QArith.
Open Scope Z_scope.

Module EventSchema.
Import JsString Schemas.

(** ** Parsing *)

(** A schema whose values come back as they are: no object inside. *)
Fixpoint flat (s : Schema) : bool :=
  match s with
  | ZString | ZNumber | ZBoolean | ZUnknown | ZEnum _ => true
  | ZObject _ => false
  | ZArray s | ZRecord s | ZOptional s | ZNullable s | ZCheck s _ | ZRefine s _ => flat s
  end.

Class ZodParse `{Zod} := {
  parse : Schema -> Json -> option Json;
  parse_fails s v : parse s v = None <-> safeParse s (Some v) = false;
  parse_strips fs v out k : parse (ZObject fs) v = Some out -> k ∉ fs.*1 -> prop out k = None;
  parse_keeps fs v out k s : NoDup fs.*1 -> parse (ZObject fs) v = Some out -> (k, s) ∈ fs -> flat s = true -> prop out k = prop v k;
  parse_object fs v out : NoDup fs.*1 -> parse (ZObject fs) v = Some out -> exists kvs, out = JObj kvs /\ NoDup kvs.*1;
}.

(** ** The schemas of the source *)

Definition isText (v : Json) : bool := match v with JStr _ => true | _ => false end.
Definition isNumber (v : Json) : bool := match v with JNum _ => true | _ => false end.
Definition isBool (v : Json) : bool := match v with JBool _ => true | _ => false end.
Definition isObject (v : Json) : bool := match v with JObj _ => true | _ => false end.

(** [z.union([...])] of types told apart by their values. *)
Definition union (fs : list (Json -> bool)) : Schema := ZRefine ZUnknown (fun v => existsb (fun f => f v) fs).

Definition opt (s : Schema) : Schema := ZOptional s.
Definition anyRecord : Schema := ZRecord ZUnknown.
Definition scalarOrRecord : Schema := union [isText; isNumber; isBool; isObject].

Definition HoneypotHitSchema : Schema :=
  ZObject [("sidecar", opt ZString);
           ("event", opt (ZObject [("type", ZString); ("src_ip", opt ZString); ("dest_port", opt ZNumber)]))]%string.

Definition DriftDetectedSchema : Schema :=
  ZObject [("resource", opt ZString); ("expected", opt scalarOrRecord); ("actual", opt scalarOrRecord);
           ("path", opt ZString); ("action", opt ZString)]%string.

Definition ChaosEventSchema : Schema := ZObject [("scenario", ZString); ("action", ZString); ("target", opt ZString)]%string.

Definition syscallFields : list (string * Schema) :=
  [("pid", ZNumber); ("ppid", opt ZNumber); ("comm", ZString); ("syscall", ZString); ("args", opt (ZArray ZString));
   ("returnValue", opt ZNumber); ("timestamp", opt ZString); ("anomalyScore", opt ZNumber); ("intent", opt ZString);
   ("ip", opt ZString)]%string.
Definition SyscallEventSchema : Schema := ZObject syscallFields.

Definition networkFields : list (string * Schema) :=
  [("source", ZString); ("destination", ZString); ("protocol", ZString); ("length", ZNumber);
   ("action", ZEnum ["ALLOW"; "BLOCK"; "REJECT"; "SHADOW_BAN"]); ("direction", ZEnum ["INBOUND"; "OUTBOUND"]);
   ("timestamp", opt ZString); ("interface", opt ZString)]%string.
Definition NetworkLogSchema : Schema := ZObject networkFields.

Definition fileDriftFields : list (string * Schema) :=
  [("path", ZString); ("action", ZString); ("comm", opt ZString); ("pid", opt ZNumber); ("hash", opt ZString);
   ("isCanary", opt ZBoolean)]%string.
Definition FileDriftSchema : Schema := ZObject fileDriftFields.

Definition GenericEventSchema : Schema :=
  ZObject [("message", opt ZString); ("data", opt anyRecord); ("correlationId", opt ZString); ("fromAudit", opt ZBoolean)]%string.

(** [.passthrough()] keeps the properties that are not declared. *)
Inductive EventType := Strip (s : Schema) | Passthrough (s : Schema).

Definition texts (ks : list string) : list (string * Schema) := map (fun k => (k, ZString)) ks.
Definition optTexts (ks : list string) : list (string * Schema) := map (fun k => (k, opt ZString)) ks.

Definition threatFields : list (string * Schema) := optTexts ["code"; "src_ip"; "message"; "severity"; "path"; "nodeId"; "correlationId"]%string.

Lemma threatFields_nodup : NoDup threatFields.*1.
Proof. apply (bool_decide_unpack _). by vm_compute. Qed.

Definition SystemEventRegistry : list (string * EventType) :=
  [("decoy", Strip HoneypotHitSchema); ("drift", Strip DriftDetectedSchema); ("chaos", Strip ChaosEventSchema);
   ("INFO", Strip GenericEventSchema); ("WARN", Strip GenericEventSchema); ("BLOCK", Strip GenericEventSchema);
   ("CRITICAL", Strip GenericEventSchema);
   ("THREAT", Strip (ZObject threatFields));
   ("HONEYPOT", Strip (ZObject (texts ["type"; "source_ip"] ++ [("port", opt (union [isNumber; isText]))]
                                ++ optTexts ["module"; "severity"; "correlationId"])));
   ("METRIC_UPDATE", Strip (ZObject [("domain", ZString); ("data", anyRecord)]));
   ("AUDIT_EVENT", Strip (ZObject (optTexts ["id"; "timestamp"] ++ texts ["type"] ++ optTexts ["severity"; "caller"]
                                   ++ texts ["message"] ++ [("data", opt anyRecord)]
                                   ++ optTexts ["hash"; "prevHash"; "hwSignature"; "correlationId"; "formatted"; "merkleRoot"])));
   ("UI_BROADCAST", Strip (ZObject [("type", ZString); ("data", anyRecord)]));
   ("AUDIT_BROADCAST", Passthrough (ZObject (texts ["id"; "timestamp"; "type"; "message"; "hash"; "prevHash"])));
   ("AUDIT_VERIFICATION", Strip (ZObject [("lastHash", ZString); ("eventCount", ZNumber); ("node", opt ZString)]));
   ("SIDECAR_ALERT", Strip (ZObject (texts ["type"; "sidecar"; "message"] ++ [("critical", opt ZBoolean); ("data", opt anyRecord)])));
   ("EBPF_SYSCALL", Strip SyscallEventSchema); ("EBPF_CRITICAL", Strip SyscallEventSchema);
   ("EBPF_STRAY_SHELL", Strip SyscallEventSchema); ("DRIFT_PROCESS", Strip FileDriftSchema); ("NETWORK_LOG", Strip NetworkLogSchema);
   ("EXFIL_ALERT", Strip (ZObject [("pid", opt ZNumber); ("source", opt ZString); ("message", opt ZString);
                                   ("bytes_count", opt ZNumber); ("correlationId", opt ZString)]));
   ("PACKET", Strip (ZObject [("timestamp", opt ZNumber); ("source", opt ZString); ("destination", opt ZString);
                              ("protocol", opt ZString); ("length", opt ZNumber); ("data", opt ZString)]));
   ("ALERT", Strip GenericEventSchema);
   ("ARTIFACT_FOUND", Strip (ZObject (optTexts ["indicator"; "path"; "severity"; "correlationId"])));
   ("ES_EXEC", Strip (ZObject [("path", opt ZString); ("pid", opt ZNumber); ("signing_id", opt ZString);
                               ("command_line", opt ZString); ("correlationId", opt ZString)]));
   ("ETW_PROCESS", Strip (ZObject [("process_name", opt ZString); ("command_line", opt ZString); ("pid", opt ZNumber);
                                   ("correlationId", opt ZString)]));
   ("EBPF_SYSCALL_BATCH", Strip (ZArray SyscallEventSchema)); ("NETWORK_LOG_BATCH", Strip (ZArray NetworkLogSchema));
   ("SYSTEM_ERROR", Strip (ZObject [("type", ZString); ("sidecar", opt ZString); ("message", opt ZString);
                                    ("critical", opt ZBoolean); ("error", opt ZString)]));
   ("LEDGER_TAMPER", Strip (ZObject (optTexts ["eventId"; "expected"; "actual"; "type"; "reason"])))]%string.

Fixpoint schemaIn (r : list (string * EventType)) (t : string) : option EventType :=
  match r with [] => None | (k, s) :: r => if bool_decide (k = t) then Some s else schemaIn r t end.

Section validate.
Context `{ZodParse}.

(** [None] is an exception. *)
Definition validateEvent (t : string) (d : Json) : option Json :=
  match schemaIn SystemEventRegistry t with
  | None => Some d
  | Some (Strip s) => parse s d
  | Some (Passthrough s) => if safeParse s (Some d) then Some d else None
  end.

Lemma parse_some s v : safeParse s (Some v) = true -> exists out, parse s v = Some out.
Proof. intros Hs. destruct (parse s v) as [out|] eqn:E; [eauto|]. apply parse_fails in E. congruence. Qed.

Lemma parse_safe s v out : parse s v = Some out -> safeParse s (Some v) = true.
Proof. intros Hp. destruct (safeParse s (Some v)) eqn:E; [done|]. apply parse_fails in E. congruence. Qed.

(** Two objects with the same declared properties are accepted alike. *)
Lemma object_ext fs a b : (forall f, f ∈ fs -> assoc a f.1 = assoc b f.1) ->
  safeParse (ZObject fs) (Some (JObj a)) = safeParse (ZObject fs) (Some (JObj b)).
Proof.
  intros Hab. rewrite !zod_object. induction fs as [|f fs IH]; simpl in *; [done|].
  rewrite (Hab f) by set_solver. rewrite IH; [done|set_solver].
Qed.
Lemma parsed_conforms fs v out : NoDup fs.*1 -> forallb (fun f => flat f.2) fs = true -> parse (ZObject fs) v = Some out ->
  safeParse (ZObject fs) (Some out) = true.
Proof.
  intros Hnd Hf Hp. pose proof (parse_safe _ _ _ Hp) as Hs. destruct (parse_object _ _ _ Hnd Hp) as (kvs & -> & _).
  assert (exists fields, v = JObj fields) as [fields ->] by (rewrite zod_object in Hs; destruct v; naive_solver).
  rewrite <-Hs. apply object_ext. intros [k s] Hin. simpl. rewrite forallb_forall in Hf.
  apply (parse_keeps fs (JObj fields) (JObj kvs) k s Hnd Hp Hin). by apply (Hf (k, s)), list_elem_of_In.
Qed.
End validate.

(** ** An instance *)

Fixpoint strip (s : Schema) (v : Json) : Json :=
  match s, v with
  | ZObject fs, JObj kvs => JObj (flat_map (fun f => match assoc kvs f.1 with Some x => [(f.1, strip f.2 x)] | None => [] end) fs)
  | ZArray s, JArr l => JArr (map (strip s) l)
  | ZRecord s, JObj kvs => JObj (map (fun f => (f.1, strip s f.2)) kvs)
  | (ZOptional s | ZNullable s | ZCheck s _ | ZRefine s _), v => strip s v
  | _, v => v
  end.

Lemma map_same {A} (f : A -> A) l : (forall x, f x = x) -> map f l = l.
Proof. intros Hf. induction l as [|x l IH]; simpl; [done|]. by rewrite Hf, IH. Qed.

Lemma flat_strip s : flat s = true -> forall v, strip s v = v.
Proof.
  induction s; simpl; intros Hf v; try done; try (by apply IHs); try (by destruct v).
  - destruct v; try done. rewrite map_same; [done|by apply IHs].
  - destruct v; try done. rewrite map_same; [done|]. intros [k x]. simpl. by rewrite IHs.
Qed.

Definition parse_with (s : Schema) (v : Json) : option Json := if interp s (Some v) then Some (strip s v) else None.

Lemma stripped_assoc fs kvs k : assoc (flat_map (fun f => match assoc kvs f.1 with Some x => [(f.1, strip f.2 x)] | None => [] end) fs) k =
  match List.find (fun f : string * Schema => bool_decide (f.1 = k)) fs with
  | Some f => strip f.2 <$> assoc kvs k
  | None => None
  end.
Proof.
  induction fs as [|[k' s] fs IH]; simpl; [done|]. case_bool_decide as E.
  - subst k'. destruct (assoc kvs k) eqn:Ek; simpl; [by rewrite bool_decide_true|]. rewrite IH.
    destruct (List.find _ fs); rewrite ?Ek; done.
  - destruct (assoc kvs k'); simpl; [by rewrite bool_decide_false|done].
Qed.

Lemma find_key fs k s : NoDup fs.*1 -> (k, s) ∈ fs -> List.find (fun f : string * Schema => bool_decide (f.1 = k)) fs = Some (k, s).
Proof.
  induction fs as [|[k' s'] fs IH]; simpl; intros Hnd Hin; [set_solver|]. apply NoDup_cons in Hnd as [Hk Hnd].
  apply elem_of_cons in Hin as [[= -> ->]|Hin]; [by rewrite bool_decide_true|]. rewrite bool_decide_false; [by apply IH|].
  intros ->. apply Hk. by apply (list_elem_of_fmap_2 fst) in Hin.
Qed.

Lemma stripped_keys kvs fs :
  (flat_map (fun f : string * Schema => match assoc kvs f.1 with Some x => [(f.1, strip f.2 x)] | None => [] end) fs).*1 `sublist_of` fs.*1.
Proof.
  induction fs as [|f fs IH]; simpl; [done|]. destruct (assoc kvs f.1); simpl; [by apply sublist_skip|by apply sublist_cons].
Qed.

#[export] Instance parse_interp : ZodParse.
Proof.
  refine {| parse := parse_with |}; unfold parse_with; cbn [safeParse zod_interp].
  - intros s v. by destruct (interp s (Some v)).
  - intros fs v out k. destruct v; try (by simpl). destruct (interp _ _); [|done]. intros [= <-] Hk. simpl. rewrite stripped_assoc.
    destruct (List.find _ fs) as [[k' s]|] eqn:E; [|done]. apply find_some in E as [Hin Hk']. simpl in Hk'. rewrite bool_decide_eq_true in Hk'. subst k'.
    destruct Hk. apply list_elem_of_In in Hin. by apply (list_elem_of_fmap_2 fst) in Hin.
  - intros fs v out k s Hnd. destruct v; try (by simpl). destruct (interp _ _); [|done]. intros [= <-] Hk Hf. simpl. rewrite stripped_assoc.
    rewrite (find_key _ _ _ Hnd Hk). simpl. destruct (assoc fields k); simpl; [|done]. by rewrite flat_strip.
  - intros fs v out Hnd. destruct v; try (by simpl). destruct (interp _ _); [|done]. intros [= <-]. simpl. eexists. split; [done|].
    eapply sublist_NoDup; [exact Hnd|apply stripped_keys].
Defined.

End EventSchema.
