(* ===== verification/Mediator.v ===== *)
(** * The event mediator

    Models [src/orchestrator/domain/analysis/event_mediator.ts]
    ([EventMediator]) and [mediators/SentinelIntegration.ts],
    [NetworkIntegration.ts], [FimIntegration.ts], [ScannerIntegration.ts]: the
    messages of the agents are unwrapped, validated, batched, analysed and
    turned into broadcasts and events.  The load-shedding guard runs when a
    message arrives, the rest after an await, so messages wait in an [inbox]
    between the two and are handled in any order; a flush that emits a batch
    of system calls continues with the network batch after another await
    ([flushing] counts the flushes in that state).  The behavioural analyser
    is [Behavior], the process tracker's answer comes from [ProcessTree], the
    canaries are [Canary].  Process ids are integers; a log line is named by
    its caller. *)

From S2P Require Import Prelude JsMap JsString Schemas EventSchema Behavior ProcessTree Canary.
From Stdlib Require Import QArith.
Open Scope Z_scope.

Module Mediator.
Import JsString Schemas EventSchema.

Inductive Severity := INFO | WARNING | ERROR.

Inductive effect :=
| EBroadcast (type : string) (severity : Severity) (data : Json)
| EEmit (type : string) (data : Json)
| EBatch (network : bool) (batch : list Json)
| ELog (caller : string)
| ECanary (e : Canary.effect).

Inductive Source := Sentinel | Netcap.

Record Mediator := mkMediator {
  syscallBatch : list Json; networkBatch : list Json; flushing : nat; inbox : list (Source * Json);
  behavioral : Behavior.Analyzer; canary : option Canary.Service; lastThrottleLog : Z }.

Definition new (b : Behavior.Analyzer) (c : option Canary.Service) : Mediator := mkMediator [] [] 0 [] b c 0.

Definition BATCH_THRESHOLD : nat := 50.
Definition MAX_QUEUE_DEPTH : nat := Z.to_nat 5000.

Definition with_batches (sys net : list Json) (fl : nat) (m : Mediator) : Mediator :=
  mkMediator sys net fl (inbox m) (behavioral m) (canary m) (lastThrottleLog m).
Definition with_inbox (x : list (Source * Json)) (m : Mediator) : Mediator :=
  mkMediator (syscallBatch m) (networkBatch m) (flushing m) x (behavioral m) (canary m) (lastThrottleLog m).
Definition with_behavioral (x : Behavior.Analyzer) (m : Mediator) : Mediator :=
  mkMediator (syscallBatch m) (networkBatch m) (flushing m) (inbox m) x (canary m) (lastThrottleLog m).
Definition with_canary (x : option Canary.Service) (m : Mediator) : Mediator :=
  mkMediator (syscallBatch m) (networkBatch m) (flushing m) (inbox m) (behavioral m) x (lastThrottleLog m).
Definition with_throttle (x : Z) (m : Mediator) : Mediator :=
  mkMediator (syscallBatch m) (networkBatch m) (flushing m) (inbox m) (behavioral m) (canary m) x.

(** ** Objects *)

Definition isObjectLike (v : Json) : bool := match v with JObj _ | JArr _ => true | _ => false end.

Definition unpackSidecar (v : Json) : Json := if isObjectLike v then v else JObj [].

Definition unwrapSidecar (v : Json) : Json :=
  let payload := unpackSidecar v in
  match prop payload "data" with Some d => if isObjectLike d then d else payload | None => payload end.

Definition setProp (v : Json) (k : string) (x : Json) : Json :=
  match v with JObj fs => JObj (JsMap.set fs k x) | _ => v end.

(** [Object.assign(event, parsed)] *)
Definition assignProps (v parsed : Json) : Json :=
  match v, parsed with
  | JObj fs, JObj ps => JObj (fold_left (fun m f => JsMap.set m f.1 f.2) ps fs)
  | _, _ => v
  end.

Definition textProp (v : Json) (k : string) : option jsstr := match prop v k with Some (JStr s) => Some s | _ => None end.
Definition numProp (v : Json) (k : string) : option Q := match prop v k with Some (JNum q) => Some q | _ => None end.
Definition isType (v : Json) (t : string) : bool := bool_decide (textProp v "type" = Some (js t)).

Definition pidOf (q : Q) : Z := Qnum q / Z.pos (Qden q).

(** ** Batches *)

(** The second half of [flushBatches]. *)
Definition flushNetwork (m : Mediator) : Mediator * list effect :=
  match networkBatch m with
  | [] => (m, [])
  | l => (with_batches (syscallBatch m) (drop MAX_QUEUE_DEPTH l) (flushing m) m, [EBatch true (take MAX_QUEUE_DEPTH l)])
  end.

Definition flushBatches (m : Mediator) : Mediator * list effect :=
  match syscallBatch m with
  | [] => flushNetwork m
  | l => (with_batches (drop MAX_QUEUE_DEPTH l) (networkBatch m) (S (flushing m)) m, [EBatch false (take MAX_QUEUE_DEPTH l)])
  end.

Definition resumeFlush (m : Mediator) : Mediator * list effect :=
  match flushing m with
  | O => (m, [])
  | S n => flushNetwork (with_batches (syscallBatch m) (networkBatch m) n m)
  end.

Definition pushSyscall (e : Json) (m : Mediator) : Mediator * list effect :=
  let m := with_batches (syscallBatch m ++ [e]) (networkBatch m) (flushing m) m in
  if (BATCH_THRESHOLD <=? length (syscallBatch m))%nat then flushBatches m else (m, []).

Definition pushNetwork (e : Json) (m : Mediator) : Mediator * list effect :=
  let m := with_batches (syscallBatch m) (networkBatch m ++ [e]) (flushing m) m in
  if (BATCH_THRESHOLD <=? length (networkBatch m))%nat then flushBatches m else (m, []).

Lemma depth_large : (BATCH_THRESHOLD < MAX_QUEUE_DEPTH)%nat.
Proof. unfold BATCH_THRESHOLD, MAX_QUEUE_DEPTH. lia. Qed.

Section mediator.
Opaque MAX_QUEUE_DEPTH.
Context `{ZodParse} (resolve : jsstr -> jsstr).

(** ** System calls *)

Record Pending := mkPending { pe_event : Json; pe_alert : bool; pe_score : Q; pe_comm : jsstr; pe_syscall : jsstr }.

Inductive Checked := Ignored | Malformed | Accepted (e : Json).

Definition checkSyscall (event : Json) : Checked :=
  if isType event "SYSCALL_EVENT" then
    match parse SyscallEventSchema event with Some parsed => Accepted (assignProps event parsed) | None => Malformed end
  else Ignored.

Definition intentText (intent : string) (comm : jsstr) : jsstr :=
  js "[INTENT_MATCH: " ++ js intent ++ js "] " ++ comm ++ js " sequence identified as malicious.".

Definition callPid (event : Json) : Z := match numProp event "pid" with Some q => pidOf q | None => 0 end.
Definition callComm (event : Json) : jsstr := default (js "unknown") (textProp event "comm").
Definition callName (event : Json) : jsstr := default (js "unknown") (textProp event "syscall").

(** The analysis after this call, and the event with the message that it
    writes into the event. *)
Definition tracked (now : Z) (event : Json) (b : Behavior.Analyzer) : Behavior.Analyzer :=
  Behavior.trackSyscall (callPid event) (callComm event) (callName event) now b.

Definition titled (event : Json) (b : Behavior.Analyzer) : Json :=
  match Behavior.getIntentVerdict (callPid event) b with
  | Some (name, _) => setProp event "message" (JStr (intentText name (callComm event)))
  | None => event
  end.

(** The batch holds the event itself, not a copy: while it waits, last, it
    shows what is written into the event. *)
Definition writeThrough (e : Json) (m : Mediator) : Mediator :=
  match syscallBatch m with
  | [] => m
  | l => with_batches (removelast l ++ [e]) (networkBatch m) (flushing m) m
  end.

(** [SentinelIntegration.handleEvent] up to the process tracker; the alert is
    pending. *)
Definition sentinelHandle (now : Z) (event : Json) (m : Mediator) : Mediator * list effect * option Pending :=
  match checkSyscall event with
  | Ignored => (m, [], None)
  | Malformed => (m, [ELog "SENTINEL:SCHEMA"], None)
  | Accepted event =>
      let '(m, es) := pushSyscall event m in
      let b := tracked now event (behavioral m) in
      let score := Behavior.getSyscallAnomalyScore (callComm event) (callName event) b in
      let alert := match Behavior.getIntentVerdict (callPid event) b with Some _ => true | None => false end
                   || bool_decide (callName event = js "ptrace") || negb (Qle_bool score (1 # 2)) in
      let event' := titled event b in
      (with_behavioral b (writeThrough event' m), es, Some (mkPending event' alert score (callComm event) (callName event)))
  end.

(** The rest, once the tracker has answered (or there is none). *)
Definition alertType (stray alert : bool) : option (string * Severity) :=
  if stray then Some ("EBPF_STRAY_SHELL"%string, WARNING) else if alert then Some ("EBPF_CRITICAL"%string, ERROR) else None.

Definition isConnect (syscall : jsstr) : bool := bool_decide (syscall = js "connect") || bool_decide (syscall = js "sys_connect").

Definition sentinelFinish (stray : bool) (p : Pending) : list effect :=
  (if isConnect (pe_syscall p) then [EBroadcast "SOCKET_FLOW" INFO (pe_event p); EEmit "SOCKET_FLOW" (pe_event p)] else [])
  ++ match alertType stray (pe_alert p) with
     | Some (t, sev) => [EBroadcast t sev (setProp (pe_event p) "anomalyScore" (JNum (pe_score p))); EEmit t (pe_event p)]
     | None => []
     end
  ++ (if stray then [ELog "SECURITY"] else []).

(** ** Network traffic *)

Definition checkNetwork (event data : Json) : option Json :=
  if isType event "NETWORK_LOG" then parse NetworkLogSchema data else Some data.

Definition EXFIL_BYTES : Q := inject_Z (1024 * 1024 * 10).

Definition networkHandle (now : Z) (event data : Json) (m : Mediator) : Mediator * list effect :=
  match checkNetwork event data with
  | None => (m, [ELog "NETWORK:SCHEMA"])
  | Some data =>
      let source := textProp data "source" in
      let isLog := isType event "NETWORK_LOG" in
      let isExfil := isType event "EXFIL_ALERT" in
      if isType event "PACKET" || isLog || isExfil then
        let t := (if isLog then "NETWORK_LOG" else if isExfil then "EXFIL_ALERT" else "PACKET")%string in
        let '(m, es) := if isLog then pushNetwork data m else (m, []) in
        let '(b, botScore) := match source with
                              | Some (c :: s) => if isLog then let b := Behavior.track (c :: s) now (behavioral m) in
                                                   let '(b, (p, _)) := Behavior.analyze (c :: s) b in (b, p) else (behavioral m, 0%Q)
                              | _ => (behavioral m, 0%Q)
                              end in
        let severity := if negb (Qle_bool botScore (4 # 5)) then WARNING else if isExfil then ERROR else INFO in
        let large := isLog && match numProp data "bytes_count" with Some n => negb (Qle_bool n EXFIL_BYTES) | None => false end in
        (with_behavioral b m,
         es ++ (if isExfil then [ELog "pcap:dissector"] else [])
            ++ EBroadcast t severity (setProp data "botScore" (JNum botScore))
            :: (if large then [ELog "pcap:exfil"; EBroadcast "EXFIL_ALERT" ERROR data] else []))
      else if isType event "SIDECAR_ALERT" then (m, [EBroadcast "ALERT" INFO data])
      else (m, [])
  end.

(** ** Files *)

Definition checkFile (payload : Json) : option Json :=
  if isType payload "FileAlert" then parse FileDriftSchema payload else Some payload.

Definition fimHandle (now : Z) (payload : Json) (m : Mediator) : Mediator * list effect :=
  match checkFile payload with
  | None => (m, [ELog "FIM:SCHEMA"])
  | Some payload =>
      if isType payload "FileAlert" then
        let path := default (js "unknown") (textProp payload "path") in
        let action := default (js "unknown") (textProp payload "action") in
        let actor := match textProp payload "comm" with Some (c :: s) => c :: s | _ => Canary.INTERNAL end in
        let '(c, isCanary, es) := match canary m with
                                  | Some c => let '(c, hit, es) := Canary.handleFileAccess resolve now path actor c in (Some c, hit, es)
                                  | None => (None, false, [])
                                  end in
        let m := with_canary c m in
        let es := map ECanary es in
        if isCanary && includes action (js "Metadata") then (m, es) else
        (m, es ++ [ELog (if isCanary then "decoy:canary" else "fim:observer");
                   EBroadcast (if isCanary then "AUDIT" else "ACTIVITY") (if isCanary then ERROR else WARNING) payload;
                   EEmit (if isCanary then "THREAT" else "DRIFT_PROCESS") payload])
      else (m, [])
  end.

(** ** Scanner and honeypots *)

Definition scannerHandle (data : Json) : list effect :=
  if isType data "ThreatDetected" || isType data "RKH_SCAN_RESULT"
  then [EBroadcast "AUDIT" ERROR data; ELog "scanner:rkhunter"; EEmit "THREAT" data] else [].

Definition decoyHandle (response : Json) : list effect :=
  let payload := unpackSidecar response in
  let event := match prop payload "data" with None | Some JNull => payload | Some d => d end in
  match textProp event "type", textProp event "source_ip" with
  | Some _, Some _ => [EBroadcast "AUDIT" ERROR event; EEmit "HONEYPOT" event]
  | _, _ => []
  end.

(** ** Locations *)

(** The test for a dotted or a colon-separated address. *)
Definition addressLike (s : jsstr) : bool :=
  negb (bool_decide (s = [])) && (forallb (fun c => is_digit c || (c =? 46)) s || forallb (fun c => is_hex c || (c =? 58)) s).

(** [a ?? b] *)
Definition coalesce (a b : option Json) : option Json := match a with None | Some JNull => b | _ => a end.

Definition located (geo : option Json) : bool :=
  match geo with
  | Some g => match prop g "lat", prop g "lon" with Some (JNum _), Some (JNum _) => true | _, _ => false end
  | None => false
  end.

(** [lookup] answers with the fields of a location that has coordinates; a
    previous [geo] that is no object counts as empty. *)
Definition enrichThreatGeo (lookup : jsstr -> option (list (string * Json))) (msg : Json) : Json :=
  if negb (isType msg "THREAT") then msg else
  match prop msg "data" with
  | Some (JObj fs) =>
      let data := JObj fs in
      let geo := prop data "geo" in
      if located geo then msg else
      match coalesce (prop data "indicator") (coalesce (prop data "source") (coalesce (prop data "ip") (prop data "src_ip"))) with
      | Some (JStr indicator) =>
          if addressLike indicator then
            match lookup indicator with
            | Some intel =>
                let base := match geo with Some (JObj g) => g | _ => [] end in
                setProp msg "data" (setProp data "geo" (JObj (fold_left (fun m f => JsMap.set m f.1 f.2) intel base)))
            | None => msg
            end
          else msg
      | _ => msg
      end
  | _ => msg
  end.

(** ** The wiring *)

Definition queued (src : Source) (m : Mediator) : nat :=
  match src with Sentinel => length (syscallBatch m) | Netcap => length (networkBatch m) end.

Definition handleThrottling (now : Z) (m : Mediator) : Mediator * list effect :=
  if 10000 <? now - lastThrottleLog m then (with_throttle now m, [ELog "EVENT_MEDIATOR:BACKPRESSURE"]) else (m, []).

(** A message arrives: it is shed, or handled later. *)
Definition arrive (src : Source) (now : Z) (response : Json) (m : Mediator) : Mediator * list effect :=
  if (MAX_QUEUE_DEPTH <? queued src m)%nat then handleThrottling now m else (with_inbox (inbox m ++ [(src, response)]) m, []).

Definition handle (k : nat) (now : Z) (m : Mediator) : Mediator * list effect * option Pending :=
  match inbox m !! k with
  | None => (m, [], None)
  | Some (src, response) =>
      let m := with_inbox (delete k (inbox m)) m in
      match src with
      | Sentinel => sentinelHandle now (unwrapSidecar response) m
      | Netcap => let event := unwrapSidecar response in (networkHandle now event (unwrapSidecar event) m, None)
      end
  end.

Inductive input :=
| IArrive (src : Source) (now : Z) (response : Json)
| IHandle (k : nat) (now : Z)
| IFinish (stray : bool) (p : Pending)
| IFile (now : Z) (response : Json)
| IScan (response : Json)
| IDecoy (response : Json)
| ITimer
| IResume.

Definition step (m : Mediator) (i : input) : Mediator * list effect :=
  match i with
  | IArrive src now response => arrive src now response m
  | IHandle k now => let '(m, es, _) := handle k now m in (m, es)
  | IFinish stray p => (m, sentinelFinish stray p)
  | IFile now response => fimHandle now (unwrapSidecar (unwrapSidecar response)) m
  | IScan response => (m, scannerHandle (unwrapSidecar (unwrapSidecar response)))
  | IDecoy response => (m, decoyHandle response)
  | ITimer => flushBatches m
  | IResume => resumeFlush m
  end.

(** What a step pushes onto a batch: an accepted call as it was published with
    the flush that its arrival made, and else with what is written into it
    while it waits. *)
Definition asBatched (now : Z) (e : Json) (m : Mediator) : Json :=
  match syscallBatch (pushSyscall e m).1 with [] => e | _ => titled e (tracked now e (behavioral m)) end.

Definition pushed (net : bool) (m : Mediator) (i : input) : list Json :=
  match i with
  | IHandle k now =>
      match inbox m !! k with
      | Some (Sentinel, r) =>
          if net then [] else
          match checkSyscall (unwrapSidecar r) with Accepted e => [asBatched now e (with_inbox (delete k (inbox m)) m)] | _ => [] end
      | Some (Netcap, r) =>
          let event := unwrapSidecar r in
          if net && isType event "NETWORK_LOG" then match parse NetworkLogSchema (unwrapSidecar event) with Some d => [d] | None => [] end else []
      | None => []
      end
  | _ => []
  end.

(** The state, the effects and what was pushed on a batch. *)
Fixpoint run (net : bool) (m : Mediator) (ins : list input) : Mediator * list effect * list Json :=
  match ins with
  | [] => (m, [], [])
  | i :: ins => let '(m', es) := step m i in let '(m'', es', ps) := run net m' ins in (m'', es ++ es', pushed net m i ++ ps)
  end.

Definition batched (net : bool) (es : list effect) : list Json :=
  mjoin (omap (fun e => match e with EBatch n l => if Bool.eqb n net then Some l else None | _ => None end) es).

Definition batch (net : bool) (m : Mediator) : list Json := if net then networkBatch m else syscallBatch m.

(** ** No telemetry is lost *)

Lemma batched_app net es es' : batched net (es ++ es') = batched net es ++ batched net es'.
Proof. unfold batched. by rewrite omap_app, join_app. Qed.

(** From [m] to [m'], emitting [es], with [ps] pushed. *)
Definition conserves (net : bool) (m : Mediator) (es : list effect) (m' : Mediator) (ps : list Json) : Prop :=
  batched net es ++ batch net m' = batch net m ++ ps.

Lemma flow_trans net m es m' ps es' m'' ps' : conserves net m es m' ps -> conserves net m' es' m'' ps' ->
  conserves net m (es ++ es') m'' (ps ++ ps').
Proof. unfold conserves. intros H1 H2. rewrite batched_app, <-app_assoc, H2, app_assoc, H1. by rewrite app_assoc. Qed.

Lemma conserves_quiet net m es m' : batched net es = [] -> batch net m' = batch net m -> conserves net m es m' [].
Proof. unfold conserves. intros -> ->. by rewrite app_nil_r. Qed.

Lemma flushNetwork_conserves net m : conserves net m (flushNetwork m).2 (flushNetwork m).1 [].
Proof.
  unfold conserves, flushNetwork, batched, batch. destruct (networkBatch m) as [|e l] eqn:E; [destruct net; simpl; by rewrite ?app_nil_r, ?E|]. rewrite <-E.
  destruct net; simpl; [|by rewrite app_nil_r]. rewrite !app_nil_r. apply take_drop.
Qed.

Lemma flushBatches_conserves net m : conserves net m (flushBatches m).2 (flushBatches m).1 [].
Proof.
  unfold flushBatches. destruct (syscallBatch m) eqn:E; [apply flushNetwork_conserves|]. rewrite <-E.
  unfold conserves, batched, batch. destruct net; simpl; [by rewrite app_nil_r|]. rewrite !app_nil_r. apply take_drop.
Qed.

Lemma resumeFlush_conserves net m : conserves net m (resumeFlush m).2 (resumeFlush m).1 [].
Proof.
  unfold resumeFlush. destruct (flushing m) as [|n]; [by apply conserves_quiet|].
  apply (flow_trans net m [] (with_batches (syscallBatch m) (networkBatch m) n m) [] _ _ []); [by apply conserves_quiet; [|destruct net]|].
  apply flushNetwork_conserves.
Qed.

Lemma push_conserves net (e : Json) (isNet : bool) m :
  conserves net m (if isNet then pushNetwork e m else pushSyscall e m).2 (if isNet then pushNetwork e m else pushSyscall e m).1
    (if Bool.eqb net isNet then [e] else []).
Proof.
  assert (forall m', batch net m' = batch net m ++ (if Bool.eqb net isNet then [e] else []) ->
            forall b : bool, conserves net m (if b then flushBatches m' else (m', [])).2 (if b then flushBatches m' else (m', [])).1
              (if Bool.eqb net isNet then [e] else [])) as Hgo.
  { intros m' Hm' b. assert (conserves net m [] m' (if Bool.eqb net isNet then [e] else [])) as H1 by done. destruct b; [|done].
    rewrite <-(app_nil_r (if Bool.eqb net isNet then [e] else [])), <-(app_nil_l (flushBatches m').2).
    eapply flow_trans; [exact H1|apply flushBatches_conserves]. }
  destruct isNet; [unfold pushNetwork|unfold pushSyscall]; apply Hgo; destruct net; simpl; by rewrite ?app_nil_r.
Qed.

Lemma pushSyscall_behavioral e m : behavioral (pushSyscall e m).1 = behavioral m.
Proof. unfold pushSyscall, flushBatches, flushNetwork. by repeat case_match. Qed.

(** What is written into the last event shows in the batch while it waits. *)
Lemma writeThrough_conserves m es m1 e e' b : conserves false m es m1 [e] ->
  conserves false m es (with_behavioral b (writeThrough e' m1)) [match syscallBatch m1 with [] => e | _ => e' end].
Proof.
  unfold conserves, writeThrough, batch. destruct (syscallBatch m1) as [|x l _] eqn:Em using rev_ind; [cbn [syscallBatch with_behavioral]; by rewrite Em|]. intros E.
  rewrite app_assoc in E. apply app_inj_tail in E as [<- ->].
  assert (l ++ [e] <> []) as Hn by (by destruct l). destruct (l ++ [e]) eqn:El; [done|]. rewrite <-El, removelast_last.
  cbn [syscallBatch with_behavioral with_batches]. by rewrite app_assoc.
Qed.

Lemma writeThrough_length e m : length (syscallBatch (writeThrough e m)) = length (syscallBatch m).
Proof.
  unfold writeThrough. destruct (syscallBatch m) as [|x l _] eqn:Em using rev_ind; [by rewrite Em|].
  assert (l ++ [x] <> []) as Hn by (by destruct l). destruct (l ++ [x]) eqn:El; [done|]. rewrite <-El.
  cbn [syscallBatch with_batches]. by rewrite removelast_last, !length_app.
Qed.

Lemma sentinelHandle_conserves net now event m :
  conserves net m (sentinelHandle now event m).1.2 (sentinelHandle now event m).1.1
    (if net then [] else match checkSyscall event with Accepted e => [asBatched now e m] | _ => [] end).
Proof.
  unfold sentinelHandle, asBatched. destruct (checkSyscall event) as [| |e]; [destruct net; by apply conserves_quiet..|].
  pose proof (push_conserves net e false m) as Hp. pose proof (pushSyscall_behavioral e m) as Hb.
  destruct (pushSyscall e m) as [m1 es]. cbn [fst snd] in *. rewrite Hb. destruct net; [|by apply writeThrough_conserves].
  cbn [Bool.eqb] in Hp. unfold conserves in *. rewrite <-Hp. unfold writeThrough. by destruct (syscallBatch m1).
Qed.

Lemma networkHandle_conserves net now event data m :
  conserves net m (networkHandle now event data m).2 (networkHandle now event data m).1
    (if net && isType event "NETWORK_LOG" then match parse NetworkLogSchema data with Some d => [d] | None => [] end else []).
Proof.
  unfold networkHandle, checkNetwork. destruct (isType event "NETWORK_LOG") eqn:El.
  - rewrite andb_true_r. destruct (parse NetworkLogSchema data) as [d|]; [|destruct net; by apply conserves_quiet].
    rewrite orb_true_r. simpl. pose proof (push_conserves net d true m) as Hp. simpl in Hp. destruct (pushNetwork d m) as [m1 es]. simpl in *.
    destruct (match textProp d "source" with Some _ => _ | None => _ end) as [b score]. simpl.
    unfold conserves in *. rewrite !batched_app. assert (forall l : bool, batched net (if l then [ELog "pcap:dissector"] else []) = []) as -> by (by intros []).
    simpl. assert (forall t sev x (l : bool) y, batched net (EBroadcast t sev x :: (if l then [ELog "pcap:exfil"; EBroadcast "EXFIL_ALERT" ERROR y] else [])) = []) as -> by (by intros ??? []).
    rewrite app_nil_r. destruct net; simpl in *; exact Hp.
  - rewrite andb_false_r. destruct (isType event "PACKET" || false || isType event "EXFIL_ALERT").
    + destruct (textProp data "source") as [[|c s]|]; simpl; destruct (isType event "EXFIL_ALERT"); apply conserves_quiet; by destruct net.
    + destruct (isType event "SIDECAR_ALERT"); by apply conserves_quiet.
Qed.

Lemma fimHandle_conserves net now payload m : conserves net m (fimHandle now payload m).2 (fimHandle now payload m).1 [].
Proof.
  unfold fimHandle. destruct (checkFile payload) as [p|]; [|by apply conserves_quiet]. destruct (isType p "FileAlert"); [|by apply conserves_quiet].
  destruct (canary m) as [c|]; [destruct (Canary.handleFileAccess _ _ _ _ _) as [[c' hit] es]|]; simpl.
  - assert (batched net (map ECanary es) = []) as He by (induction es; [done|simpl; done]).
    destruct (_ && _); apply conserves_quiet; cbn [fst snd]; rewrite ?batched_app, ?He; by destruct net, hit.
  - apply conserves_quiet; by destruct net.
Qed.

Lemma step_flow net m i : conserves net m (step m i).2 (step m i).1 (pushed net m i).
Proof.
  destruct i as [src now r|k now|stray p|now r|r|r| |]; cbn [step pushed].
  - unfold arrive, handleThrottling. repeat case_match; by apply conserves_quiet; [|destruct net].
  - unfold handle. destruct (inbox m !! k) as [[[] r]|] eqn:E; [| |by apply conserves_quiet].
    + pose proof (sentinelHandle_conserves net now (unwrapSidecar r) (with_inbox (delete k (inbox m)) m)) as Hs.
      destruct (sentinelHandle _ _ _) as [[m1 es] o]. unfold conserves in *. simpl in *. destruct net; exact Hs.
    + pose proof (networkHandle_conserves net now (unwrapSidecar r) (unwrapSidecar (unwrapSidecar r)) (with_inbox (delete k (inbox m)) m)) as Hs.
      destruct (networkHandle _ _ _ _) as [m1 es]. unfold conserves in *. simpl in *. destruct net; exact Hs.
  - apply conserves_quiet; [|done]. unfold sentinelFinish. cbn [fst snd]. rewrite !batched_app. destruct (isConnect _), stray, (pe_alert p); done.
  - apply fimHandle_conserves.
  - apply conserves_quiet; [|done]. unfold scannerHandle. by destruct (_ || _).
  - apply conserves_quiet; [|done]. unfold decoyHandle. by repeat case_match.
  - apply flushBatches_conserves.
  - apply resumeFlush_conserves.
Qed.

Lemma run_flow net ins : forall m, let '(m', es, ps) := run net m ins in conserves net m es m' ps.
Proof.
  induction ins as [|i ins IH]; intros m; simpl; [by apply conserves_quiet|]. pose proof (step_flow net m i) as Hs.
  destruct (step m i) as [m1 es]. specialize (IH m1). destruct (run net m1 ins) as [[m2 es2] ps]. simpl in Hs. by eapply flow_trans.
Qed.

(** ** The batches stay small *)

Lemma small_flush (l : list Json) : (length l <= BATCH_THRESHOLD)%nat -> drop MAX_QUEUE_DEPTH l = [].
Proof. intros Hl. apply drop_ge. pose proof depth_large. lia. Qed.

Lemma flushNetwork_syscalls m : syscallBatch (flushNetwork m).1 = syscallBatch m.
Proof. unfold flushNetwork. by destruct (networkBatch m). Qed.

Lemma flushBatches_small m : (length (syscallBatch m) <= BATCH_THRESHOLD)%nat -> syscallBatch (flushBatches m).1 = [].
Proof.
  intros Hl. unfold flushBatches. destruct (syscallBatch m) as [|e l] eqn:E; [by rewrite flushNetwork_syscalls|]. simpl. by apply small_flush.
Qed.

Lemma step_small m i : (length (syscallBatch m) < BATCH_THRESHOLD)%nat -> (length (syscallBatch (step m i).1) < BATCH_THRESHOLD)%nat.
Proof.
  intros Hl. assert (0 < BATCH_THRESHOLD)%nat as H50 by (unfold BATCH_THRESHOLD; lia).
  assert (forall m', (length (syscallBatch m') < BATCH_THRESHOLD)%nat -> (length (syscallBatch (flushBatches m').1) < BATCH_THRESHOLD)%nat) as Hf.
  { intros m' Hm'. rewrite flushBatches_small by lia. done. }
  destruct i as [src now r|k now|stray p|now r|r|r| |]; cbn [step]; [| |done| |done|done|by apply Hf|].
  - unfold arrive, handleThrottling. by repeat case_match.
  - unfold handle. destruct (inbox m !! k) as [[[] r]|]; [| |done].
    + unfold sentinelHandle. destruct (checkSyscall _) as [| |e]; [done..|]. unfold pushSyscall. cbn [with_inbox with_batches syscallBatch networkBatch flushing].
      destruct (Nat.leb_spec BATCH_THRESHOLD (length (syscallBatch m ++ [e]))) as [Hb|Hb]; cbn [fst snd syscallBatch with_behavioral];
        [|rewrite writeThrough_length; cbn [syscallBatch with_batches]; lia].
      pose proof (flushBatches_small (with_batches (syscallBatch m ++ [e]) (networkBatch m) (flushing m) (with_inbox (delete k (inbox m)) m))) as Hs.
      simpl in Hs. rewrite length_app in Hs, Hb. simpl in Hs, Hb. destruct (flushBatches _) as [m1 es]. simpl in *. rewrite writeThrough_length, Hs by lia. done.
    + unfold networkHandle. destruct (checkNetwork _ _) as [d|]; [|done]. destruct (_ || _ || _); [|by destruct (isType _ _)].
      assert (forall b : bool, (length (syscallBatch (if b then pushNetwork d (with_inbox (delete k (inbox m)) m) else (with_inbox (delete k (inbox m)) m, [])).1) < BATCH_THRESHOLD)%nat) as Hp.
      { intros []; [|done]. unfold pushNetwork. case_match; [|done]. by apply Hf. }
      specialize (Hp (isType (unwrapSidecar r) "NETWORK_LOG")). destruct (if isType _ "NETWORK_LOG" then pushNetwork _ _ else _) as [m1 es]. simpl in *.
      destruct (match textProp d "source" with Some _ => _ | None => _ end) as [b score]. done.
  - unfold fimHandle. destruct (checkFile _) as [p|]; [|done]. destruct (isType p "FileAlert"); [|done].
    destruct (canary m) as [c|]; [destruct (Canary.handleFileAccess _ _ _ _ _) as [[c' hit] es]|]; simpl; [by destruct (_ && _)|done].
  - unfold resumeFlush. destruct (flushing m); [done|]. by rewrite flushNetwork_syscalls.
Qed.

Lemma run_small net ins : forall m, (length (syscallBatch m) < BATCH_THRESHOLD)%nat -> (length (syscallBatch (run net m ins).1.1) < BATCH_THRESHOLD)%nat.
Proof.
  induction ins as [|i ins IH]; intros m Hm; simpl; [done|]. pose proof (step_small m i Hm) as Hs. destruct (step m i) as [m1 es].
  specialize (IH m1 Hs). destruct (run net m1 ins) as [[m2 es2] ps]. done.
Qed.

(** C27: telemetry is batched without loss: however arrivals, handlers, timers
    and the two halves of flushes interleave, the batches emitted so far,
    followed by what still waits, are exactly the valid events that were
    accepted, in their order (an event with the message that the analysis
    writes into it, unless its own arrival flushed it before); and at most 49 system calls ever wait, so that
    the shedding of the sentinel's messages never begins. *)
Theorem telemetry_conserved net b c ins : let '(m, es, ps) := run net (new b c) ins in
  batched net es ++ batch net m = ps /\ (length (syscallBatch m) < BATCH_THRESHOLD)%nat /\
  forall now r, inbox (arrive Sentinel now r m).1 = inbox m ++ [(Sentinel, r)].
Proof.
  pose proof (run_flow net ins (new b c)) as Hc. pose proof (run_small net ins (new b c) ltac:(simpl; unfold BATCH_THRESHOLD; lia)) as Hs.
  destruct (run net (new b c) ins) as [[m es] ps]. unfold conserves in Hc. simpl in Hs. split_and!; [by destruct net|done|].
  intros now r. unfold arrive. cbn [queued]. destruct (Nat.ltb_spec MAX_QUEUE_DEPTH (length (syscallBatch m))) as [Hlt|]; [|done].
  pose proof depth_large. lia.
Qed.

(** ** The bus accepts every batch *)

Lemma assoc_get fs k : assoc fs k = JsMap.get fs k.
Proof. induction fs as [|[k' v] fs IH]; simpl; [done|]. rewrite IH. by case_bool_decide; case_decide. Qed.

Lemma assign_assoc ps : NoDup ps.*1 -> forall fs k,
  assoc (fold_left (fun m f => JsMap.set m f.1 f.2) ps fs) k = match assoc ps k with Some v => Some v | None => assoc fs k end.
Proof.
  induction ps as [|[k' v] ps IH]; intros Hnd fs k; simpl; [done|]. apply NoDup_cons in Hnd as [Hk Hnd]. rewrite IH by done.
  rewrite !assoc_get. case_bool_decide as E.
  - subst k'. rewrite (proj2 (JsMap.get_None ps k)) by done. by rewrite JsMap.get_set_eq.
  - by rewrite JsMap.get_set_ne.
Qed.

Lemma syscallFields_nodup : NoDup syscallFields.*1.
Proof. apply (bool_decide_unpack _). by vm_compute. Qed.

Lemma networkFields_nodup : NoDup networkFields.*1.
Proof. apply (bool_decide_unpack _). by vm_compute. Qed.

Lemma accepted_conforms event e : checkSyscall event = Accepted e -> safeParse SyscallEventSchema (Some e) = true.
Proof.
  unfold checkSyscall. destruct (isType _ _); [|done]. destruct (parse SyscallEventSchema event) as [parsed|] eqn:Hp; [|done]. intros [= <-].
  pose proof (parse_safe _ _ _ Hp) as Hs. unfold SyscallEventSchema in *.
  destruct (parse_object _ _ _ syscallFields_nodup Hp) as (ps & -> & Hnd).
  assert (exists fs, event = JObj fs) as [fs ->] by (rewrite zod_object in Hs; destruct event; naive_solver).
  unfold assignProps. rewrite <-Hs. apply object_ext. intros [k s] Hin. simpl fst. rewrite assign_assoc by done.
  assert (flat s = true) as Hf.
  { assert (forallb (fun f => flat f.2) syscallFields = true) as F by reflexivity. rewrite forallb_forall in F. by apply (F (k, s)), list_elem_of_In. }
  pose proof (parse_keeps _ _ _ k s syscallFields_nodup Hp Hin Hf) as Hk. simpl in Hk. rewrite Hk. by destruct (assoc fs k).
Qed.

Definition batchSchema (net : bool) : Schema := if net then NetworkLogSchema else SyscallEventSchema.
Definition batchType (net : bool) : string := if net then "NETWORK_LOG_BATCH" else "EBPF_SYSCALL_BATCH".

(** The message that is written into an event is none of the schema's fields. *)
Lemma titled_conforms e b : safeParse SyscallEventSchema (Some e) = true -> safeParse SyscallEventSchema (Some (titled e b)) = true.
Proof.
  unfold titled. destruct (Behavior.getIntentVerdict _ _) as [[name ?]|]; [|done]. destruct e as [| | | | |fs]; try done.
  intros Hs. etransitivity; [|exact Hs]. apply object_ext. intros f Hf. rewrite !assoc_get. apply JsMap.get_set_ne.
  assert (forallb (fun f => negb (bool_decide ("message"%string = f.1))) syscallFields = true) as F by reflexivity.
  rewrite forallb_forall in F. intros E. specialize (F f (proj1 (list_elem_of_In _ _) Hf)).
  by rewrite bool_decide_eq_true_2 in F.
Qed.

Lemma pushed_conforms net m i e : e ∈ pushed net m i -> safeParse (batchSchema net) (Some e) = true.
Proof.
  destruct i as [|k now| | | | | |]; simpl; try (by intros ?%elem_of_nil). destruct (inbox m !! k) as [[[] r]|]; [| |by intros ?%elem_of_nil].
  - destruct net; [by intros ?%elem_of_nil|]. destruct (checkSyscall _) eqn:E; [by intros ?%elem_of_nil..|].
    intros ->%list_elem_of_singleton. apply accepted_conforms in E. unfold asBatched. destruct (syscallBatch _); [done|].
    by apply titled_conforms.
  - destruct net; simpl; [|by intros ?%elem_of_nil]. destruct (isType _ _); [|by intros ?%elem_of_nil].
    destruct (parse NetworkLogSchema _) as [d|] eqn:E; [|by intros ?%elem_of_nil]. intros ->%list_elem_of_singleton.
    by eapply (parsed_conforms networkFields); [exact networkFields_nodup|reflexivity|exact E].
Qed.

Lemma run_pushed_conforms net ins : forall m e, e ∈ (run net m ins).2 -> safeParse (batchSchema net) (Some e) = true.
Proof.
  induction ins as [|i ins IH]; intros m e; simpl; [by intros ?%elem_of_nil|]. destruct (step m i) as [m1 es].
  specialize (IH m1 e). destruct (run net m1 ins) as [[m2 es2] ps]. simpl in *. intros [He|He]%elem_of_app; [by eapply pushed_conforms|by apply IH].
Qed.

Lemma batch_within net es l e : EBatch net l ∈ es -> e ∈ l -> e ∈ batched net es.
Proof.
  intros Hl He. unfold batched. apply list_elem_of_join. exists l. split; [done|]. apply list_elem_of_omap. exists (EBatch net l).
  split; [done|]. by rewrite eqb_reflx.
Qed.

(** No flush ever fails: whatever the agents send, every batch handed to the
    bus passes the schema of its event type, so the emission does not throw
    and the second half of the flush always runs. *)
Theorem batches_validate net b c ins l : EBatch net l ∈ (run net (new b c) ins).1.2 -> validateEvent (batchType net) (JArr l) <> None.
Proof.
  intros Hl. pose proof (run_flow net ins (new b c)) as Hc. pose proof (run_pushed_conforms net ins (new b c)) as Hp.
  destruct (run net (new b c) ins) as [[m es] ps]. simpl in *. unfold conserves in Hc.
  assert (safeParse (ZArray (batchSchema net)) (Some (JArr l)) = true) as Hs.
  { rewrite zod_array. apply forallb_forall. intros e He%list_elem_of_In. apply Hp.
    replace ps with (batched net es ++ batch net m) by (rewrite Hc; by destruct net). apply elem_of_app. left. by eapply batch_within. }
  apply parse_some in Hs as [out Hout]. unfold validateEvent, batchType. destruct net; simpl in *; by rewrite Hout.
Qed.

(** ** Alerts *)

(** What is emitted for a call that the analysis finds critical. *)
Lemma finish_critical stray p d : EEmit "EBPF_CRITICAL" d ∈ sentinelFinish stray p <-> stray = false /\ pe_alert p = true /\ d = pe_event p.
Proof.
  unfold sentinelFinish, alertType. destruct (isConnect _), stray, (pe_alert p); simpl; rewrite ?elem_of_cons, ?elem_of_nil; naive_solver.
Qed.

(** A system call is reported as critical exactly when the analysis says so
    and it is not a stray shell's: when the calls of the process match an
    intent, the call is ptrace, or its anomaly score exceeds one half. *)
Theorem critical_class_exact now event m m' es p stray e : checkSyscall event = Accepted e -> sentinelHandle now event m = (m', es, Some p) ->
  (exists d, EEmit "EBPF_CRITICAL" d ∈ sentinelFinish stray p) <->
  stray = false /\ (Behavior.getIntentVerdict (callPid e) (behavioral m') <> None \/ pe_syscall p = js "ptrace"
    \/ (1 # 2 < Behavior.getSyscallAnomalyScore (pe_comm p) (pe_syscall p) (behavioral m'))%Q).
Proof.
  intros He. unfold sentinelHandle. rewrite He. destruct (pushSyscall e m) as [m1 es1]. intros E.
  injection E as <- _ <-. cbn [behavioral with_behavioral pe_comm pe_syscall].
  set (b := tracked _ _ _). set (score := Behavior.getSyscallAnomalyScore _ _ _).
  assert (forall q : Q, negb (Qle_bool q (1 # 2)) = true <-> (1 # 2 < q)%Q) as Hq.
  { intros q. rewrite negb_true_iff. split; [|intros Hlt; apply not_true_iff_false; intros Hle%Qle_bool_iff; by apply (Qlt_not_le _ _ Hlt)].
    intros Hf. apply Qnot_le_lt. intros Hle%Qle_bool_iff. congruence. }
  split.
  - intros [d Hd%finish_critical]. destruct Hd as (-> & Ha & _). cbn [pe_alert] in Ha. split; [done|].
    rewrite !orb_true_iff, bool_decide_eq_true, Hq in Ha. destruct Ha as [[Ha|Ha]|Ha]; [left|by right; left|by right; right].
    by destruct (Behavior.getIntentVerdict _ b).
  - intros [-> Ha]. eexists. apply finish_critical. split; [done|]. split; [|done]. cbn [pe_alert].
    rewrite !orb_true_iff, bool_decide_eq_true, Hq. destruct Ha as [Ha|[Ha|Ha]]; [|by left; right|by right].
    left. left. by destruct (Behavior.getIntentVerdict _ b).
Qed.

(** An intrusion through a web server is played down: a shell started by a
    suspicious parent is never reported as critical, whatever it calls, so the
    responses to critical events do not run for it. *)
Theorem stray_shell_downgraded p t i parent active : pe_comm p ∈ ProcessTree.shells ->
  ProcessTree.i_ppid i <> 0 -> ProcessTree.suspicious (ProcessTree.i_comm parent) = true -> forall d,
  EEmit "EBPF_CRITICAL" d ∉ sentinelFinish (ProcessTree.analyzeEnd t (pe_comm p) (Some i) active (Some parent)).2 p.
Proof.
  intros Hc Hi Hs d Hd. unfold ProcessTree.analyzeEnd, ProcessTree.parentOf in Hd. rewrite bool_decide_true in Hd by done.
  rewrite (proj2 (Z.eqb_neq _ _) Hi) in Hd. simpl in Hd. rewrite Hs in Hd. by apply finish_critical in Hd as [? _].
Qed.

(** ** Locations *)

Lemma setProp_other v k x k' : k <> k' -> prop (setProp v k x) k' = prop v k'.
Proof. intros Hk. destruct v; try done. simpl. rewrite !assoc_get. by apply JsMap.get_set_ne. Qed.

Lemma setProp_same fs k x : prop (setProp (JObj fs) k x) k = Some x.
Proof. simpl. rewrite assoc_get. apply JsMap.get_set_eq. Qed.

(** Adding a location changes nothing else: only the location inside the
    data of a threat that has none and names an address is filled in; every
    other property of the message and of its data stays as it was. *)
Theorem enrich_conservative lookup msg :
  (forall k, k <> "data"%string -> prop (enrichThreatGeo lookup msg) k = prop msg k) /\
  (forall d d' k, prop msg "data" = Some d -> prop (enrichThreatGeo lookup msg) "data" = Some d' -> k <> "geo"%string -> prop d' k = prop d k) /\
  (enrichThreatGeo lookup msg <> msg -> isType msg "THREAT" = true /\ exists d, prop msg "data" = Some d /\ located (prop d "geo") = false).
Proof.
  unfold enrichThreatGeo. destruct (isType msg "THREAT") eqn:Ht; cbn [negb]; [|naive_solver].
  destruct (prop msg "data") as [d|] eqn:Hd; [|naive_solver]. destruct d as [| | | | |fs]; try naive_solver.
  destruct (located (prop (JObj fs) "geo")) eqn:Hl; [naive_solver|].
  destruct (coalesce _ _) as [v|]; [|naive_solver]. destruct v as [| | |ind| |]; try naive_solver.
  destruct (addressLike ind); [|naive_solver]. destruct (lookup ind) as [intel|]; [|naive_solver].
  assert (exists ms, msg = JObj ms) as [ms ->] by (destruct msg; naive_solver). split_and!.
  - intros k Hk. by apply setProp_other.
  - intros d d' k [= <-] Hd' Hk. rewrite setProp_same in Hd'. injection Hd' as <-. by apply (setProp_other (JObj fs)).
  - intros _. split; [done|]. eauto.
Qed.

(** ** What never arrives *)

(** C36: no file alert is ever handled: the schema of file events does not
    declare the type, so parsing strips it and the check that follows never
    succeeds; whatever the file watcher reports, nothing is broadcast, nothing
    is emitted and no canary is triggered. *)
Theorem file_alerts_lost now response m : fimHandle now (unwrapSidecar (unwrapSidecar response)) m = (m, []) \/
  fimHandle now (unwrapSidecar (unwrapSidecar response)) m = (m, [ELog "FIM:SCHEMA"]).
Proof.
  generalize (unwrapSidecar (unwrapSidecar response)) as payload. intros payload. unfold fimHandle, checkFile.
  destruct (isType payload "FileAlert") eqn:Ht; [|rewrite Ht; by left]. destruct (parse FileDriftSchema payload) as [p|] eqn:Hp; [|by right].
  left. unfold isType, textProp. rewrite (parse_strips _ _ _ "type" Hp); [done|]. simpl. rewrite !not_elem_of_cons. split_and!; try discriminate. apply not_elem_of_nil.
Qed.

(** A large transfer never raises the exfiltration alert: the schema of
    network logs does not declare the byte count the check looks at. *)
Theorem exfiltration_unseen now event data m sev d : isType event "NETWORK_LOG" = true ->
  EBroadcast "EXFIL_ALERT" sev d ∉ (networkHandle now event data m).2.
Proof.
  intros Hl. unfold networkHandle, checkNetwork. rewrite Hl. destruct (parse NetworkLogSchema data) as [p|] eqn:Hp; [|set_solver].
  rewrite orb_true_r. simpl. assert (isType event "EXFIL_ALERT" = false) as ->.
  { unfold isType in *. rewrite bool_decide_eq_true in Hl. rewrite Hl. by apply bool_decide_eq_false. }
  assert (numProp p "bytes_count" = None) as ->.
  { unfold numProp. rewrite (parse_strips _ _ _ "bytes_count" Hp); [done|]. simpl. rewrite !not_elem_of_cons. split_and!; try discriminate. apply not_elem_of_nil. }
  assert (forall m', Forall (fun e => match e with EBatch _ _ => True | _ => False end) (flushBatches m').2) as Hf.
  { intros m'. unfold flushBatches, flushNetwork. repeat case_match; simpl; repeat constructor. }
  assert (Forall (fun e => match e with EBatch _ _ => True | _ => False end) (pushNetwork p m).2) as Hpush.
  { unfold pushNetwork. case_match; [apply Hf|constructor]. }
  destruct (pushNetwork p m) as [m1 es]. destruct (match textProp p "source" with Some _ => _ | None => _ end) as [b score]. simpl in *.
  rewrite elem_of_app, elem_of_cons, elem_of_nil. rewrite Forall_forall in Hpush. intros [He|[He|[]]]; [by apply Hpush in He|discriminate].
Qed.

End mediator.

(** ** Messages *)

Definition analyzer0 : Behavior.Analyzer := Behavior.setLearningMode false Behavior.new.

Definition text0 (s : string) : Json := JStr (js s).
Definition call0 (comm syscall : string) : Json :=
  JObj [("type", text0 "SYSCALL_EVENT"); ("pid", JNum 7); ("comm", text0 comm); ("syscall", text0 syscall)]%string.
Definition trace0 : list input := concat (repeat [IArrive Sentinel 0 (call0 "sh" "read"); IHandle 0 0] 50).

Lemma batches_validate_witness : exists l, length l = 50%nat /\ EBatch false l ∈ (run (fun p => p) false (new analyzer0 None) trace0).1.2 /\
  validateEvent "EBPF_SYSCALL_BATCH" (JArr l) <> None.
Proof.
  exists (repeat (call0 "sh" "read") 50). assert (EBatch false (repeat (call0 "sh" "read") 50) ∈ (run (fun p => p) false (new analyzer0 None) trace0).1.2) as Hin.
  { vm_compute. left. }
  split; [reflexivity|]. split; [exact Hin|]. apply (batches_validate (fun p => p) false analyzer0 None trace0 _ Hin).
Defined.

Definition handled0 : Mediator * list effect * option Pending := sentinelHandle 0 (call0 "sh" "ptrace") (new analyzer0 None).

Lemma critical_class_exact_witness : exists m' es p, handled0 = (m', es, Some p) /\ exists d, EEmit "EBPF_CRITICAL" d ∈ sentinelFinish false p.
Proof.
  destruct handled0 as [[m' es] [p|]] eqn:E; [|by vm_compute in E]. exists m', es, p. split; [reflexivity|].
  destruct (checkSyscall (call0 "sh" "ptrace")) as [| |e] eqn:Ee; [by vm_compute in Ee..|].
  apply (critical_class_exact 0 (call0 "sh" "ptrace") (new analyzer0 None) m' es p false e Ee E). split; [reflexivity|]. right. left.
  vm_compute in E. injection E as _ _ <-. reflexivity.
Defined.

Lemma stray_shell_downgraded_witness : exists m' es p, handled0 = (m', es, Some p) /\ pe_alert p = true /\ forall d,
  EEmit "EBPF_CRITICAL" d ∉ sentinelFinish (ProcessTree.analyzeEnd [] (pe_comm p) (Some (ProcessTree.mkInfo 5 (js "sh"))) []
    (Some (ProcessTree.mkInfo 1 (js "nginx")))).2 p.
Proof.
  destruct handled0 as [[m' es] [p|]] eqn:E; [|by vm_compute in E]. exists m', es, p. split; [reflexivity|].
  assert (pe_alert p = true /\ pe_comm p = js "sh") as [Ha Hc] by (vm_compute in E; injection E as _ _ <-; by split).
  split; [exact Ha|]. apply stray_shell_downgraded.
  - rewrite Hc. vm_compute. right. left.
  - discriminate.
  - reflexivity.
Defined.

Lemma exfiltration_unseen_witness : forall sev d, EBroadcast "EXFIL_ALERT" sev d ∉
  (networkHandle 0 (JObj [("type", text0 "NETWORK_LOG")])%string
    (JObj [("source", text0 "10.0.0.9"); ("destination", text0 "6.6.6.6"); ("protocol", text0 "tcp"); ("length", JNum 99999999);
           ("bytes_count", JNum 99999999); ("action", text0 "ALLOW"); ("direction", text0 "OUTBOUND")])%string (new analyzer0 None)).2.
Proof. intros sev d. apply exfiltration_unseen. reflexivity. Defined.
End Mediator.
