(* ===== verification/Notify.v ===== *)
(** * Notifications

    Models [src/orchestrator/domain/analysis/notifications.ts]
    ([NotificationService]) and [safeFetch] of
    [infrastructure/system/network.ts].  [notify] and [sendTest] iterate over
    the array of webhooks and await at every element, while webhooks are added
    (to the same array) and deleted (which replaces the array): arrays are
    objects in a heap, and a loop holds an array and an index.  The resolver
    is asked anew for every element, and [fetch] follows redirects, so a step
    carries the answers of the resolver and of the servers.  The parser of URLs
    and the text of a payload are parameters. *)

From S2P Require Import Prelude JsString Net.
Open Scope Z_scope.

Module Notify.
Import JsString Net.

Inductive Kind := slack | discord | generic.

Record WebhookConfig := mkWebhook { w_id : jsstr; name : jsstr; url : jsstr; kind : Kind; enabled : bool }.

Record Event := mkEvent { e_type : jsstr; e_message : jsstr; e_data : option jsstr }.

(** An array is a number; [current] is [this.webhooks]; [store] is the KV
    entry; [loops] are the calls of [notify] under way. *)
Record Service := mkService {
  arrays : list (list WebhookConfig); current : nat; store : option (list WebhookConfig);
  loops : list (nat * nat * Event) }.

Definition new (stored : option (list WebhookConfig)) : Service := mkService [[]] 0 stored [].

Inductive Body := Text (field : string) (text : jsstr) | Whole (e : Event).

Inductive effect :=
| EFetch (url host ip : jsstr) (body : Body)     (* the request of [safeFetch] *)
| EFollow (url : jsstr).                         (* a redirect that [fetch] follows *)

Definition arrayAt (s : Service) (a : nat) : list WebhookConfig := default [] (arrays s !! a).
Definition webhooks (s : Service) : list WebhookConfig := arrayAt s (current s).

Section notify.
Context (parseUrl : jsstr -> option URL).

(** What the resolver answers during one step, and where the server of a URL
    redirects to, if it does. *)
Record Dns := mkDns {
  dnsA : jsstr -> option (list jsstr); dnsAAAA : jsstr -> option (list jsstr); redirect : jsstr -> option jsstr }.

Definition validate (d : Dns) (u : jsstr) : Reason + jsstr := validateWebhookUrlAsync parseUrl (dnsA d) (dnsAAAA d) u.

(** [loadWebhooks] puts the stored array in place of the current one. *)
Definition loadWebhooks (s : Service) : Service :=
  match store s with
  | Some l => mkService (arrays s ++ [l]) (length (arrays s)) (store s) (loops s)
  | None => s
  end.

(** [saves] says whether the write to the store succeeds. *)
Definition saveWebhooks (saves : bool) (s : Service) : Service :=
  if saves then mkService (arrays s) (current s) (Some (webhooks s)) (loops s) else s.

Definition addWebhook (d : Dns) (saves : bool) (w : WebhookConfig) (s : Service) : Service * bool :=
  match validate d (url w) with
  | inl _ => (s, false)
  | inr _ =>
      (saveWebhooks saves (mkService (alter (fun l => l ++ [w]) (current s) (arrays s)) (current s) (store s) (loops s)), saves)
  end.

Definition deleteWebhook (saves : bool) (id : jsstr) (s : Service) : Service * bool :=
  let kept := List.filter (fun w => negb (bool_decide (w_id w = id))) (webhooks s) in
  let s' := mkService (arrays s ++ [kept]) (length (arrays s)) (store s) (loops s) in
  if (length kept =? length (webhooks s))%nat then (s', false) else (saveWebhooks saves s', true).

(** ** Sending *)

Definition bodyOf (w : WebhookConfig) (e : Event) : Body :=
  let data := default (js "{}") (e_data e) in
  match kind w with
  | slack => Text "text" (js "*[" ++ e_type e ++ js "]* " ++ e_message e ++ [10] ++ js "```" ++ data ++ js "```")
  | discord => Text "content" (js "**[" ++ e_type e ++ js "]** " ++ e_message e ++ [10] ++ js "```json" ++ [10] ++ data ++ [10] ++ js "```")
  | generic => Whole e
  end.

(** The redirects that [fetch] follows, at most twenty. *)
Fixpoint follow (n : nat) (d : Dns) (u : jsstr) : list effect :=
  match n, redirect d u with S n, Some v => EFollow v :: follow n d v | _, _ => [] end.

(** [safeFetch]: the request goes to the address, under the original host;
    [redirect] is not among the options of [fetch], so redirects are followed. *)
Definition safeFetch (d : Dns) (u ip : jsstr) (b : Body) : list effect :=
  match parseUrl u with
  | Some parsed => EFetch u (hostname parsed) (if includes ip (js ":") then js "[" ++ ip ++ js "]" else ip) b :: follow 20 d u
  | None => []
  end.

(** [dispatch], also the body of the loop of [notify]. *)
Definition dispatch (d : Dns) (w : WebhookConfig) (e : Event) : list effect :=
  match validate d (url w) with inr ((_ :: _) as ip) => safeFetch d (url w) ip (bodyOf w e) | _ => [] end.

Definition alarming (t : jsstr) : bool :=
  bool_decide (t = js "CRITICAL") || bool_decide (t = js "LEDGER_TAMPER") || startsWith t (js "DRIFT").

Definition notify (e : Event) (s : Service) : Service :=
  if alarming (e_type e) then mkService (arrays s) (current s) (store s) (loops s ++ [(current s, 0%nat, e)]) else s.

(** The next element of a loop; a loop at the end of its array is over. *)
Definition next (d : Dns) (k : nat) (s : Service) : Service * list effect :=
  match loops s !! k with
  | None => (s, [])
  | Some (a, i, e) =>
      match arrayAt s a !! i with
      | None => (mkService (arrays s) (current s) (store s) (delete k (loops s)), [])
      | Some w => (mkService (arrays s) (current s) (store s) (<[k := (a, S i, e)]> (loops s)),
                   if enabled w then dispatch d w e else [])
      end
  end.

Definition TEST (sentAt : jsstr) : Event :=
  mkEvent (js "TEST") (js "Counter-Terrorist test notification. No action required.") (Some sentAt).

(** [sendTest] on the webhooks present, with a verdict for each. *)
Definition sendTest (dns : nat -> Dns) (delivers : nat -> bool) (sentAt : jsstr) (s : Service) : list (jsstr * bool) * list effect :=
  (imap (fun i w => (name w, enabled w && delivers i && match dispatch (dns i) w (TEST sentAt) with [] => false | _ => true end)) (webhooks s),
   mjoin (imap (fun i w => if enabled w then dispatch (dns i) w (TEST sentAt) else []) (webhooks s))).

Inductive input :=
| ILoad
| IAdd (d : Dns) (saves : bool) (w : WebhookConfig)
| IDelete (saves : bool) (id : jsstr)
| INotify (e : Event)
| INext (d : Dns) (k : nat)
| ITest (dns : nat -> Dns) (delivers : nat -> bool) (sentAt : jsstr).

Definition step (s : Service) (i : input) : Service * list effect :=
  match i with
  | ILoad => (loadWebhooks s, [])
  | IAdd d saves w => ((addWebhook d saves w s).1, [])
  | IDelete saves id => ((deleteWebhook saves id s).1, [])
  | INotify e => (notify e s, [])
  | INext d k => next d k s
  | ITest dns delivers sentAt => (s, (sendTest dns delivers sentAt s).2)
  end.

Fixpoint run (s : Service) (ins : list input) : Service * list effect :=
  match ins with
  | [] => (s, [])
  | i :: ins => let '(s, es) := step s i in let '(s, es') := run s ins in (s, es ++ es')
  end.

(** ** Where requests go *)

(** The answers of the resolver during a step. *)
Definition asked (i : input) (d : Dns) : Prop :=
  match i with INext d' _ => d = d' | ITest dns _ _ => exists k, d = dns k | _ => False end.

(** The request was checked against these answers: the host of its URL is an
    https host, and the address is that host or the first of answers none of
    which [isPrivateIp] knows.  A redirect is only known to come from a server
    that answered. *)
Definition vetted (d : Dns) (e : effect) : Prop :=
  match e with
  | EFetch u host ip _ => exists parsed ip', parseUrl u = Some parsed /\ host = hostname parsed /\ protocol parsed = js "https:" /\
      ip = (if includes ip' (js ":") then js "[" ++ ip' ++ js "]" else ip') /\
      ((ip' = hostname parsed /\ isPrivateIp (toLowerCase ip') = false) \/
       (let ips := default [] (dnsA d (hostname parsed)) ++ default [] (dnsAAAA d (hostname parsed)) in
        head ips = Some ip' /\ Forall (fun r => isPrivateIp r = false) ips))
  | EFollow v => exists u, redirect d u = Some v
  end.

Lemma follow_vetted n d u x : x ∈ follow n d u -> vetted d x.
Proof.
  revert u. induction n as [|n IH]; intros u; cbn [follow]; [by intros ?%elem_of_nil|].
  destruct (redirect d u) as [v|] eqn:E; [|by intros ?%elem_of_nil]. intros [->|Hx]%elem_of_cons; [by exists u|by eapply IH].
Qed.

Lemma dispatch_vetted d w e x : x ∈ dispatch d w e -> vetted d x.
Proof.
  unfold dispatch, validate. destruct (validateWebhookUrlAsync _ _ _ _) as [|ip] eqn:E; [by intros ?%elem_of_nil|].
  destruct ip as [|c ip]; [by intros ?%elem_of_nil|]. pose proof (webhook_pinned_public _ _ _ _ _ E) as (u & Hu & Hp & Hip & _).
  unfold safeFetch. rewrite Hu. intros [->|Hx]%elem_of_cons; [|by eapply follow_vetted]. exists u, (c :: ip). split_and!; try done.
Qed.

Lemma step_hooks_vetted s i x : x ∈ (step s i).2 -> exists d, asked i d /\ vetted d x.
Proof.
  destruct i as [| | | |d k|dns delivers sentAt]; simpl; try (by intros ?%elem_of_nil).
  - unfold next. destruct (loops s !! k) as [[[a j] e]|]; [|by intros ?%elem_of_nil]. destruct (arrayAt s a !! j) as [w|]; [|by intros ?%elem_of_nil].
    simpl. destruct (enabled w); [|by intros ?%elem_of_nil]. intros Hx. exists d. split; [done|]. by eapply dispatch_vetted.
  - intros (l & Hx & Hl)%list_elem_of_join. apply elem_of_lookup_imap in Hl as (i & w & -> & Hw).
    destruct (enabled w); [|by apply elem_of_nil in Hx]. exists (dns i). split; [by exists i|]. by eapply dispatch_vetted.
Qed.

(** A change of the resolver's answers between adding a webhook and using it
    gains nothing: in any interleaving of changes to the webhooks and of
    notifications, every request that [safeFetch] addresses goes over https
    to the address that was checked at that moment, and none of the answers
    given then was one that [isPrivateIp] refuses.  Every other request is a
    redirect of a server that answered, about which nothing was checked. *)
Theorem requests_pinned ins : forall s x, x ∈ (run s ins).2 -> exists i d, i ∈ ins /\ asked i d /\ vetted d x.
Proof.
  induction ins as [|i ins IH]; intros s x; simpl; [by intros ?%elem_of_nil|]. pose proof (step_hooks_vetted s i x) as Hs.
  destruct (step s i) as [s1 es]. specialize (IH s1 x). destruct (run s1 ins) as [s2 es']. simpl in *.
  intros [Hx|Hx]%elem_of_app; [destruct (Hs Hx) as (d & Hd); exists i, d; set_solver|]. destruct (IH Hx) as (j & d & Hj & Hd). exists j, d. set_solver.
Qed.

(** A redirect leaves the checks behind: the server of an accepted webhook can
    send the notification's request anywhere, an address of the local network
    included. *)
Theorem redirect_escapes d w e s k a i ip v : loops s !! k = Some (a, i, e) -> arrayAt s a !! i = Some w -> enabled w = true ->
  validate d (url w) = inr ip -> ip <> [] -> redirect d (url w) = Some v -> EFollow v ∈ (next d k s).2.
Proof.
  intros Hk Ha He Hv Hne Hr. unfold next. rewrite Hk, Ha. cbn [snd]. rewrite He. unfold dispatch. rewrite Hv. destruct ip as [|c ip]; [done|].
  pose proof (webhook_pinned_public _ _ _ _ _ Hv) as (u & Hu & _). unfold safeFetch. rewrite Hu.
  apply elem_of_cons. right. assert (follow 20 d (url w) = EFollow v :: follow 19 d v) as -> by (cbn [follow]; by rewrite Hr). by left.
Qed.

(** ** The store *)

Lemma load_new l : webhooks (loadWebhooks (new (Some l))) = l.
Proof. done. Qed.

(** The webhooks survive a restart: when the write succeeds, what a service
    that starts on the store has is what the changed service had. *)
Theorem webhooks_survive_restart s d w id : (current s < length (arrays s))%nat ->
  (forall ip, validate d (url w) = inr ip -> webhooks (loadWebhooks (new (store (addWebhook d true w s).1))) = webhooks s ++ [w]) /\
  ((exists v, v ∈ webhooks s /\ w_id v = id) ->
     webhooks (loadWebhooks (new (store (deleteWebhook true id s).1))) = List.filter (fun v => negb (bool_decide (w_id v = id))) (webhooks s)).
Proof.
  intros Hc. split.
  - intros ip Hip. unfold addWebhook. rewrite Hip. cbn [fst saveWebhooks store]. rewrite load_new.
    unfold webhooks, arrayAt. cbn [current arrays]. destruct (lookup_lt_is_Some_2 _ _ Hc) as [l Hl]. by rewrite list_lookup_alter_eq, Hl.
  - intros (v & Hv & Hid). unfold deleteWebhook. set (kept := List.filter _ _).
    assert (length kept < length (webhooks s))%nat as Hlt.
    { apply list_elem_of_split in Hv as (l1 & l2 & E). unfold kept. rewrite E, List.filter_app, !length_app. simpl.
      rewrite bool_decide_true by done. simpl. pose proof (List.filter_length_le (fun v => negb (bool_decide (w_id v = id))) l1).
      pose proof (List.filter_length_le (fun v => negb (bool_decide (w_id v = id))) l2). lia. }
    rewrite (proj2 (Nat.eqb_neq _ _)) by lia. cbn [fst saveWebhooks store]. rewrite load_new.
    unfold webhooks at 1, arrayAt. cbn [current arrays]. rewrite lookup_app_r by lia. by rewrite Nat.sub_diag.
Qed.
End notify.

(** ** A rebinding host *)

Definition public0 : Dns := mkDns (fun _ => Some [js "203.0.113.7"]) (fun _ => None) (fun u => if bool_decide (u = js "https://hooks.example.org") then Some (js "http://10.0.0.5/") else None).
Definition private0 : Dns := mkDns (fun _ => Some [js "10.0.0.5"]) (fun _ => None) (fun _ => None).
Definition hook0 : WebhookConfig := mkWebhook (js "1") (js "ops") (js "https://hooks.example.org") generic true.
Definition alarm0 : Event := mkEvent (js "CRITICAL") (js "m") None.
Definition session0 : list input := [IAdd public0 true hook0; INotify alarm0; INext private0 0; INotify alarm0; INext public0 1].

Lemma requests_pinned_witness : exists x, head (run parse0 (new None) session0).2 = Some x /\ exists i d, i ∈ session0 /\ asked i d /\ vetted parse0 d x.
Proof.
  destruct (run parse0 (new None) session0).2 as [|x l] eqn:E; [by vm_compute in E|].
  exists x. split; [reflexivity|]. apply (requests_pinned parse0 session0 (new None)). rewrite E. left.
Defined.

Lemma redirect_escapes_witness : EFollow (js "http://10.0.0.5/") ∈
  (next parse0 public0 0 (run parse0 (new None) [IAdd public0 true hook0; INotify alarm0]).1).2.
Proof.
  apply (redirect_escapes parse0 public0 hook0 alarm0 _ 0 0 0 (js "203.0.113.7")); first [vm_compute; reflexivity|discriminate].
Defined.

Lemma webhooks_survive_restart_witness : webhooks (loadWebhooks (new (store (addWebhook parse0 public0 true hook0 (new None)).1))) = [hook0].
Proof. apply (webhooks_survive_restart parse0 (new None) public0 hook0 [] ltac:(simpl; lia)) with (ip := js "203.0.113.7"). reflexivity. Defined.
End Notify.
