(* ===== verification/Autopilot.v ===== *)
(** * Autopilot and playbook engine

    Models [src/orchestrator/domain/orchestration/autopilot_service.ts]
    ([AutopilotService], module [Autopilot]) and [playbook_engine.ts]
    ([PlaybookEngine]): what the two do with the events of the bus.  The data
    of an event is what [validateEvent] of [EventSchema] lets through.  The
    response engine, the behavioural audit, the kernel service and the process
    tracker are ports that answer or throw ([Effects]); a threat goes to
    [Engine] of [Response], whose saga [Saga] acts on its source.  Numbers are
    printed by the parameter [numText]; descriptions, log lines and health
    reports are left out. *)

From S2P Require Import Prelude Result Effects JsMap JsString Schemas EventSchema Cidr Collections Policy Response Mediator.
From Stdlib Require Import QArith.
Open Scope Z_scope.

Module Autopilot.
Import JsString Schemas EventSchema PolicyDSL Effects.

(** [textProp], [numProp] *)
Import Mediator(textProp, numProp).

(** ** Threats *)

Record Threat := mkThreat { source : jsstr; t_type : string; severity : Z }.

Inductive effect :=
| EEvaluate (t : Threat)
| EAudit (data : Json)                   (* executeBehavioralAudit: true is BLOCK_SYSCALL *)
| EBlockSyscall (data : Json)
| EScanGhosts
| EContain (indicator : jsstr)
| EHandleError (context : string).

Notation act := (Effects.act effect).

(** [a || b] of two optional texts *)
Definition orText (a : option jsstr) (b : jsstr) : jsstr := match a with Some (c :: s) => c :: s | _ => b end.

Section handlers.
Local Open Scope act_scope.
Context (answer : list effect -> effect -> settled bool unit) (ghosts : list effect -> settled (list Z) unit) (numText : Q -> jsstr).

Definition pidText (data : Json) : jsstr := orText (numText <$> numProp data "pid") (js "kernel").

Definition honeypotThreat (data : Json) : Threat :=
  mkThreat (orText (textProp data "source_ip") (orText (textProp data "ip") (js "unknown"))) "HONEYPOT_TRIGGER" 2.
Definition canaryThreat (data : Json) : Threat :=
  mkThreat (orText (textProp data "src_ip") (orText (textProp data "nodeId") (js "local"))) "CANARY_TRIGGER" 15.
Definition tamperThreat : Threat := mkThreat (js "local") "FILE_TAMPERING" 2.
Definition shellThreat (data : Json) : Threat := mkThreat (pidText data) "SUSPICIOUS_SHELL" 8.
Definition escalationThreat (data : Json) : Threat := mkThreat (pidText data) "PRIVILEGE_ESCALATION_ATTEMPT" 9.
Definition rootkitThreat : Threat := mkThreat (js "local") "ROOTKIT_DETECTION" 10.

(** [evaluate(...).catch(e => this.handleError(e, context))] *)
Definition evaluateSafely (t : Threat) (context : string) : act unit := fun h =>
  match ask answer (EEvaluate t) h with
  | (fx, Resolved _) => (fx, Resolved tt)
  | (fx, Rejected _) => (fx ++ [EHandleError context], Resolved tt)
  end.

Definition scanGhosts : act (list Z) := ask (fun h _ => ghosts h) EScanGhosts.

Definition onCritical (data : Json) : act unit :=
  let! block := ask answer (EAudit data) in
  let! _ := if block then ask answer (EBlockSyscall data) else ret true in
  let! _ := ask answer (EEvaluate (escalationThreat data)) in
  attempt (let! gs := scanGhosts in
           match gs with [] => ret tt | _ => evaluateSafely rootkitThreat "EBPF_CRITICAL_GHOST_EVAL" end) tt.

(** The periodic scan. *)
Definition onInterval : act unit := fun h =>
  match (let! gs := scanGhosts in match gs with [] => ret tt | _ => let! _ := ask answer (EEvaluate rootkitThreat) in ret tt end) h with
  | (fx, Resolved u) => (fx, Resolved u)
  | (fx, Rejected _) => (fx ++ [EHandleError "PERIODIC_GHOST_SCAN"], Resolved tt)
  end.

(** One listener's reaction to an event. *)
Definition react (event : string) (data : Json) : act unit :=
  if bool_decide (event = "HONEYPOT"%string) then evaluateSafely (honeypotThreat data) "HONEYPOT"
  else if bool_decide (event = "THREAT"%string) then evaluateSafely (canaryThreat data) "THREAT"
  else if bool_decide (event = "DRIFT_PROCESS"%string) then evaluateSafely tamperThreat "DRIFT_PROCESS"
  else if bool_decide (event = "EBPF_STRAY_SHELL"%string) then evaluateSafely (shellThreat data) "EBPF_STRAY_SHELL"
  else if bool_decide (event = "EBPF_CRITICAL"%string) then onCritical data
  else if bool_decide (event = "ARTIFACT_FOUND"%string) then
    fun h => match ask answer (EContain (orText (textProp data "indicator") (js "unknown"))) h with
             | (fx, Resolved _) => (fx, Resolved tt)
             | (fx, Rejected _) => (fx ++ [EHandleError "ARTIFACT_FOUND"], Resolved tt)
             end
  else ret tt.

(** ** Life cycle *)

(** [listeners] counts the sets of listeners on the bus: [start] adds one,
    and nothing removes it, because the results of [bus.on] are not kept. *)
Record Autopilot := mkAutopilot { wired : bool; engine : bool; isStarted : bool; lure : bool; timers : nat; listeners : nat }.

Definition new : Autopilot := mkAutopilot false false false false 0 0.

Definition setServices (s : Autopilot) : Autopilot := mkAutopilot true (engine s) (isStarted s) (lure s) (timers s) (listeners s).
Definition onInit (s : Autopilot) : Autopilot := if wired s then mkAutopilot true true (isStarted s) (lure s) (timers s) (listeners s) else s.
Definition onShutdown (s : Autopilot) : Autopilot := if wired s then mkAutopilot true (engine s) false false 0 (listeners s) else s.

(** [spawns]: the lure process could be started. *)
Definition start (spawns : bool) (s : Autopilot) : Autopilot :=
  if negb (wired s) || isStarted s then s
  else mkAutopilot true (engine s) true (lure s || spawns) (timers s + 2) (S (listeners s)).

(** The bus calls the listeners one after the other; without an engine each
    fails before it does anything. *)
Fixpoint reactAll (n : nat) (event : string) (data : Json) (h : list effect) : list effect :=
  match n with
  | O => []
  | S n => let fx := (react event data h).1 in fx ++ reactAll n event data (h ++ fx)
  end.

Definition onEvent (event : string) (data : Json) (s : Autopilot) : list effect :=
  if engine s then reactAll (listeners s) event data [] else [].

Inductive input := IServices | IInit | IStart (spawns : bool) | IShutdown.

Definition step (s : Autopilot) (i : input) : Autopilot :=
  match i with IServices => setServices s | IInit => onInit s | IStart spawns => start spawns s | IShutdown => onShutdown s end.

Definition run (s : Autopilot) (ins : list input) : Autopilot := fold_left step ins s.

(** ** The life cycle leaks listeners *)

Definition evaluations (fx : list effect) : list Threat := omap (fun e => match e with EEvaluate t => Some t | _ => None end) fx.

Lemma honeypot_evaluated data h : evaluations (react "HONEYPOT" data h).1 = [honeypotThreat data].
Proof. unfold react. simpl. unfold evaluateSafely, ask. by destruct (answer h _). Qed.

Lemma evaluations_app a b : evaluations (a ++ b) = evaluations a ++ evaluations b.
Proof. apply omap_app. Qed.

Lemma honeypot_all n data : forall h, evaluations (reactAll n "HONEYPOT" data h) = replicate n (honeypotThreat data).
Proof. induction n as [|n IH]; intros h; cbn [reactAll]; [done|]. rewrite evaluations_app, honeypot_evaluated, IH. done. Qed.

(** The starts that took effect: those while wired and stopped. *)
Fixpoint starts (s : Autopilot) (ins : list input) : nat :=
  match ins with
  | [] => 0
  | i :: ins => (match i with IStart _ => if wired s && negb (isStarted s) then 1 else 0 | _ => 0 end + starts (step s i) ins)%nat
  end.

Lemma run_listeners ins : forall s, listeners (run s ins) = (listeners s + starts s ins)%nat.
Proof.
  induction ins as [|i ins IH]; intros s; simpl; [lia|]. change (fold_left step ins (step s i)) with (run (step s i) ins). rewrite IH.
  destruct i; simpl; unfold onInit, onShutdown, start; destruct (wired s), (isStarted s); simpl; lia.
Qed.

(** Every restart of the autopilot counts every threat once more: after any
    sequence of starts and shutdowns one honeypot event is evaluated as often
    as the autopilot was started, also after it was shut down, so its score
    grows that many times as fast. *)
Theorem restarts_multiply_threats ins data : engine (run new ins) = true ->
  evaluations (onEvent "HONEYPOT" data (run new ins)) = replicate (starts new ins) (honeypotThreat data).
Proof. intros He. unfold onEvent. rewrite He, honeypot_all, run_listeners. done. Qed.

(** ** A critical system call *)

(** A critical call is audited, and blocked when the audit says so, before it
    is evaluated; but when the evaluation fails nobody looks for hidden
    processes, although every other failure is caught. *)
Theorem failed_evaluation_skips_scan data h : (forall h, exists b, answer h (EAudit data) = Resolved b) ->
  (forall h, exists b, answer h (EBlockSyscall data) = Resolved b) ->
  (forall h, answer h (EEvaluate (escalationThreat data)) = Rejected tt) ->
  EScanGhosts ∉ (onCritical data h).1 /\ (onCritical data h).2 = Rejected tt /\ EEvaluate (escalationThreat data) ∈ (onCritical data h).1.
Proof.
  intros Ha Hb He. unfold onCritical, bind, ask. destruct (Ha h) as [b ->]. destruct b.
  - destruct (Hb (h ++ [EAudit data])) as [c ->]. rewrite He. simpl. set_solver.
  - simpl. rewrite He. simpl. set_solver.
Qed.
End handlers.

(** ** Threats without an address *)

(** Threats found on the host itself are never contained: the saga rejects
    the source "local" (hidden processes, tampered files, canaries without an
    address) in the tiers that block or shadow, and performs nothing but the
    entry in the audit log. *)
Theorem local_threats_uncontained answer processHash tier : tier = BLOCK \/ tier = SHADOW ->
  answer [] (Saga.EAudit (js "local") tier) = Resolved true ->
  Saga.execute answer processHash (js "local") tier = ([Saga.EAudit (js "local") tier], Saga.FAILED, Resolved (err Saga.InvalidSource)).
Proof. intros Ht Ha. unfold Saga.execute. rewrite Ha. destruct Ht as [-> | ->]; reflexivity. Qed.

Lemma local_threats_uncontained_witness :
  Saga.execute (fun _ _ => Resolved true) (fun _ _ => Resolved None) (source rootkitThreat) BLOCK
    = ([Saga.EAudit (js "local") BLOCK], Saga.FAILED, Resolved (err Saga.InvalidSource)).
Proof. apply local_threats_uncontained; [by left|reflexivity]. Defined.

Definition cycle0 : list input := [IServices; IInit; IStart true; IShutdown; IStart true; IShutdown].

Lemma restarts_multiply_threats_witness : evaluations (onEvent (fun _ _ => Resolved true) (fun _ => Resolved []) (fun _ => []) "HONEYPOT"
    (JObj [("type", JStr (js "tcp")); ("source_ip", JStr (js "6.6.6.6"))])%string (run new cycle0))
  = replicate 2 (mkThreat (js "6.6.6.6") "HONEYPOT_TRIGGER" 2).
Proof. apply (restarts_multiply_threats (fun _ _ => Resolved true) (fun _ => Resolved []) (fun _ => []) cycle0). reflexivity. Defined.

Definition failing0 (h : list effect) (e : effect) : settled bool unit := match e with EEvaluate _ => Rejected tt | _ => Resolved true end.

Lemma failed_evaluation_skips_scan_witness : EScanGhosts ∉ (onCritical failing0 (fun _ => Resolved []) (fun _ => []) (JObj []) []).1.
Proof. apply (failed_evaluation_skips_scan failing0 (fun _ => Resolved []) (fun _ => []) (JObj []) []); intros h; [eexists; reflexivity..|reflexivity]. Defined.
End Autopilot.

(** ** The playbook engine *)

Module PlaybookEngine.
Import JsString Schemas EventSchema.
Import Mediator(textProp).

Inductive effect := EBlockIp (ip : jsstr) | ELockdown.

(** The event as a subscriber gets it. *)
Record Event := mkEvent { e_type : string; e_message : jsstr; e_data : option Json }.

Definition dataText (d : option Json) (k : string) : option jsstr := d ≫= fun d => textProp d k.
Definition hasCode (d : option Json) (c : string) : bool := bool_decide (dataText d "code" = Some (js c)).

Definition isBruteForce (e : Event) : bool :=
  bool_decide (e_type e = "THREAT"%string) && (hasCode (e_data e) "SSH_BRUTE_FORCE" || includes (e_message e) (js "SSH Brute Force")).

Definition isIntrusion (e : Event) : bool :=
  bool_decide (e_type e ∈ ["CRITICAL"; "THREAT"; "LEDGER_TAMPER"]%string) &&
  (hasCode (e_data e) "REVERSE_SHELL" || hasCode (e_data e) "EXPLOIT_ATTEMPT" || includes (e_message e) (js "Exploit")
   || includes (e_message e) (js "Reverse Shell")).

Definition isHoneypotHit (e : Event) : bool :=
  bool_decide (e_type e = "HONEYPOT"%string) &&
  (hasCode (e_data e) "CRITICAL_HONEYPOT_HIT" || bool_decide (e_message e = js "CRITICAL") || bool_decide (dataText (e_data e) "severity" = Some (js "CRITICAL"))).

Section engine.
Local Open Scope act_scope.
Context `{ZodParse} (answer : list effect -> effect -> settled bool unit).

Definition call (e : effect) : Effects.act effect unit := let! _ := Effects.ask answer e in Effects.ret tt.

Definition blockSource (fires : bool) (e : Event) (k : string) : Effects.act effect unit :=
  match (if fires then dataText (e_data e) k else None) with
  | Some (c :: ip) => call (EBlockIp (c :: ip))
  | _ => Effects.ret tt
  end.

(** The subscriber of [start]. *)
Definition handle (e : Event) : Effects.act effect unit :=
  let! _ := blockSource (isBruteForce e) e "src_ip" in
  let! _ := if isIntrusion e then call ELockdown else Effects.ret tt in
  blockSource (isHoneypotHit e) e "ip".

Lemma call_effects e h : (call e h).1 = [e].
Proof. unfold call, Effects.bind, Effects.ask. by destruct (answer h e). Qed.

(** A brute force attack that the bus reports is blocked: a threat with the
    code of a brute force attack and a source address leads to the firewall,
    through the validation of the bus, and first of all. *)
Theorem brute_force_blocked d d' msg c ip : validateEvent "THREAT" d = Some d' -> textProp d "code" = Some (js "SSH_BRUTE_FORCE") ->
  textProp d "src_ip" = Some (c :: ip) -> exists fx, (handle (mkEvent "THREAT" msg (Some d')) []).1 = EBlockIp (c :: ip) :: fx.
Proof.
  intros Hv Hc Hip. unfold validateEvent in Hv. simpl in Hv.
  assert (forall k, (k, opt ZString) ∈ threatFields -> textProp d' k = textProp d k) as Hk.
  { intros k Hk. unfold textProp. rewrite (parse_keeps _ _ _ k _ threatFields_nodup Hv Hk); reflexivity. }
  unfold handle, blockSource, isBruteForce, hasCode, dataText. cbn [e_data e_type e_message]. simpl.
  rewrite (Hk "code"%string), (Hk "src_ip"%string), Hc, Hip by (simpl; set_solver). rewrite bool_decide_true by done. simpl.
  unfold Effects.bind at 1. pose proof (call_effects (EBlockIp (c :: ip)) []) as Hcall. destruct (call _ []) as [fx [u|u]]; simpl in *; subst fx; [|eauto].
  destruct (Effects.bind _ _ _) as [fx' r]. simpl. eauto.
Qed.

(** The honeypot rule of the playbook engine never blocks anyone: the schema
    of honeypot events does not declare the address it reads, so the bus has
    removed it. *)
Theorem honeypot_rule_dead d d' msg ip : validateEvent "HONEYPOT" d = Some d' -> EBlockIp ip ∉ (handle (mkEvent "HONEYPOT" msg (Some d')) []).1.
Proof.
  intros Hv. unfold validateEvent in Hv. simpl in Hv. assert (textProp d' "ip" = None) as Hn.
  { unfold textProp. rewrite (parse_strips _ _ _ "ip" Hv); [done|]. simpl. rewrite !not_elem_of_cons. split_and!; try discriminate. apply not_elem_of_nil. }
  set (e := mkEvent _ _ _). assert (isIntrusion e = false) as Hi.
  { unfold isIntrusion. rewrite bool_decide_false; [done|]. simpl. rewrite !elem_of_cons, elem_of_nil. naive_solver discriminate. }
  unfold handle. rewrite Hi. unfold blockSource, dataText. cbn [e e_data mbind option_bind]. rewrite Hn.
  destruct (isHoneypotHit e); simpl; set_solver.
Qed.
End engine.

Lemma brute_force_blocked_witness : exists fx, (handle (fun _ _ => Resolved true) (mkEvent "THREAT" [] (validateEvent "THREAT"
    (JObj [("code", JStr (js "SSH_BRUTE_FORCE")); ("src_ip", JStr (js "6.6.6.6"))])%string)) []).1 = EBlockIp (js "6.6.6.6") :: fx.
Proof.
  destruct (validateEvent "THREAT" (JObj [("code", JStr (js "SSH_BRUTE_FORCE")); ("src_ip", JStr (js "6.6.6.6"))])%string) as [d'|] eqn:E; [|by vm_compute in E].
  apply (brute_force_blocked (fun _ _ => Resolved true) _ _ _ _ _ E); reflexivity.
Defined.

Lemma honeypot_rule_dead_witness : exists d', validateEvent "HONEYPOT" (JObj [("type", JStr (js "tcp")); ("source_ip", JStr (js "6.6.6.6"));
    ("ip", JStr (js "6.6.6.6")); ("severity", JStr (js "CRITICAL"))])%string = Some d' /\
  EBlockIp (js "6.6.6.6") ∉ (handle (fun _ _ => Resolved true) (mkEvent "HONEYPOT" [] (Some d')) []).1.
Proof.
  destruct (validateEvent "HONEYPOT" (JObj [("type", JStr (js "tcp")); ("source_ip", JStr (js "6.6.6.6")); ("ip", JStr (js "6.6.6.6"));
    ("severity", JStr (js "CRITICAL"))])%string) as [d'|] eqn:E; [|by vm_compute in E]. exists d'. split; [reflexivity|].
  apply (honeypot_rule_dead (fun _ _ => Resolved true) _ _ _ _ E).
Defined.
End PlaybookEngine.
