(* ===== verification/Health.v ===== *)
(** * Health of the subsystems

    Models [src/orchestrator/domain/analysis/health_service.ts]
    ([HealthService]): the table of subsystem states with its summaries, and
    the resource audit of the agents (reading [/proc], the quotas, the count
    of violations and the forced restart).  What [/proc] says and the clock
    are inputs; NaN is no value.  Log lines and the periodic metric are left
    out. *)

From S2P Require Import Prelude JsMap JsString Cidr.
From Stdlib Require Import QArith Qminmax.
Open Scope Z_scope.

Module Health.
Import JsString.

(** ** The table *)

Inductive SubsystemStatus := BOOTING | OPERATIONAL | DEGRADED | FAILED.

#[export] Instance SubsystemStatus_eq_dec : EqDecision SubsystemStatus.
Proof. solve_decision. Defined.

Record SubsystemHealth := mkHealth { h_name : jsstr; h_status : SubsystemStatus; lastUpdate : Z; h_error : option jsstr }.

Record Quota := mkQuota { q_cpu : Q; q_memory : Z }.

(** The counters of [sidecarStats]: the ticks may be NaN. *)
Record Service := mkService {
  states : list (jsstr * SubsystemHealth); sidecarStats : list (jsstr * (option Z * Z)); sidecarViolationCounts : list (jsstr * Z) }.

Definition new : Service := mkService [] [] [].

Definition MB : Z := 1024 * 1024.

Definition sidecarQuotas : list (jsstr * Quota) :=
  [(js "sentinel", mkQuota 5 (64 * MB)); (js "netcap", mkQuota 10 (256 * MB)); (js "decoy", mkQuota 2 (32 * MB));
   (js "analyzer", mkQuota 25 (512 * MB)); (js "watchfile", mkQuota 5 (128 * MB)); (js "tunnel", mkQuota 2 (64 * MB))].

Definition statusOf (s : jsstr) : SubsystemStatus :=
  if bool_decide (s = js "BOOTING") then BOOTING else if bool_decide (s = js "OPERATIONAL") then OPERATIONAL
  else if bool_decide (s = js "FAILED") then FAILED else DEGRADED.

Definition reportStatus (name status : jsstr) (error : option jsstr) (now : Z) (s : Service) : Service :=
  mkService (JsMap.set (states s) (toLowerCase name) (mkHealth name (statusOf status) now error)) (sidecarStats s) (sidecarViolationCounts s).

Definition statuses (s : Service) : list SubsystemStatus := map (fun e => h_status e.2) (states s).

Definition isFullyOperational (s : Service) : bool := forallb (fun x => bool_decide (x = OPERATIONAL)) (statuses s).

Definition getServiceStatus (name : jsstr) (s : Service) : option SubsystemStatus := h_status <$> JsMap.get (states s) (toLowerCase name).

Inductive Severity := SUCCESS | WARNING | DANGER.

Definition getGlobalSeverity (s : Service) : Severity :=
  if existsb (fun x => bool_decide (x = FAILED)) (statuses s) then DANGER
  else if existsb (fun x => bool_decide (x = DEGRADED) || bool_decide (x = BOOTING)) (statuses s) then WARNING
  else SUCCESS.

(** ** Reading /proc *)

Fixpoint lastIndexFrom (i last : Z) (s : jsstr) (c : Z) : Z :=
  match s with [] => last | d :: s => lastIndexFrom (i + 1) (if d =? c then i else last) s c end.

(** [s.lastIndexOf(c)], [-1] when absent *)
Definition lastIndexOf (s : jsstr) (c : Z) : Z := lastIndexFrom 0 (-1) s c.

(** The fields of [/proc/pid/stat] after the name. *)
Definition statParts (stat : jsstr) : list jsstr := split (drop (Z.to_nat (lastIndexOf stat 41 + 2)) stat) (js " ").

Fixpoint spaces (s : jsstr) : nat := match s with c :: s => if Cidr.is_space c then S (spaces s) else 0 | [] => 0 end.

(** [/VmRSS:\s+(\d+)\s+kB/] at the start of a text. *)
Definition rssHere (s : jsstr) : option jsstr :=
  if startsWith s (js "VmRSS:") then
    let s := drop 6 s in
    let n := spaces s in
    let ds := Cidr.digitPrefix (drop n s) in
    let rest := drop (length ds) (drop n s) in
    let k := spaces rest in
    if (0 <? n)%nat && negb (bool_decide (ds = [])) && (0 <? k)%nat && startsWith (drop k rest) (js "kB") then Some ds else None
  else None.

Fixpoint rssMatch (s : jsstr) : option jsstr :=
  match rssHere s with Some ds => Some ds | None => match s with [] => None | _ :: s => rssMatch s end end.

Definition rssOf (status : jsstr) : Z := match rssMatch status ≫= Cidr.parseInt with Some n => n * 1024 | None => 0 end.

Definition ticksOf (parts : list jsstr) : option Z :=
  match Cidr.parseInt (default [] (parts !! 11%nat)), Cidr.parseInt (default [] (parts !! 12%nat)) with
  | Some utime, Some stime => Some (utime + stime)
  | _, _ => None
  end.

Definition clamp (q : Q) : Q := Qmin 100 (Qmax 0 q).

(** The load since the last poll. *)
Definition cpuOf (prev : option (option Z * Z)) (ticks : option Z) (now : Z) : Q :=
  match prev with
  | Some (Some last, ts) =>
      match ticks with
      | Some t => if 0 <? now - ts then clamp (inject_Z ((t - last) * 10) / inject_Z (now - ts) * 100) else 0
      | None => 0
      end
  | _ => 0
  end.

Inductive Os := linux | darwin | windows | otherOs.

Record Usage := mkUsage { u_cpu : Q; u_rss : Z }.

Definition measure (os : Os) (name stat status : jsstr) (now : Z) (s : Service) : Service * Usage :=
  match os with
  | linux =>
      let parts := statParts stat in
      if (13 <=? length parts)%nat then
        let ticks := ticksOf parts in
        (mkService (states s) (JsMap.set (sidecarStats s) name (ticks, now)) (sidecarViolationCounts s),
         mkUsage (cpuOf (JsMap.get (sidecarStats s) name) ticks now) (rssOf status))
      else (s, mkUsage 0 (rssOf status))
  | darwin | windows => (s, mkUsage (1 # 2) (10 * MB))
  | otherOs => (s, mkUsage 0 0)
  end.

(** ** Quotas *)

Definition gtQ (a b : Q) : bool := negb (Qle_bool a b).

Definition isViolating (u : Usage) (q : Quota) : bool :=
  (gtQ (u_cpu u) (q_cpu q) && gtQ (q_cpu q) 0) || ((q_memory q <? u_rss u) && (0 <? q_memory q)).

Definition setCount (name : jsstr) (n : Z) (s : Service) : Service :=
  mkService (states s) (sidecarStats s) (JsMap.set (sidecarViolationCounts s) name n).

Definition countOf (name : jsstr) (s : Service) : Z := default 0 (JsMap.get (sidecarViolationCounts s) name).

(** The verdict on a poll: the new state and whether the agent is restarted. *)
Definition judge (name : jsstr) (violating : bool) (now : Z) (s : Service) : Service * bool :=
  if violating then
    let count := countOf name s + 1 in
    let s := reportStatus name (js "DEGRADED") (Some (js "Resource Quota Exceeded")) now (setCount name count s) in
    if 3 <=? count then (setCount name 0 s, true) else (s, false)
  else (setCount name 0 s, false).

Record Poll := mkPoll { p_os : Os; p_stat : jsstr; p_status : jsstr; p_now : Z }.

(** [auditAgentResources], with the verdict. *)
Definition auditAgentResources (name : jsstr) (p : Poll) (s : Service) : Service * (bool * bool) :=
  match JsMap.get sidecarQuotas (toLowerCase name) with
  | None => (s, (false, false))
  | Some q =>
      let '(s, u) := measure (p_os p) name (p_stat p) (p_status p) (p_now p) s in
      let '(s, restart) := judge name (isViolating u q) (p_now p) s in
      (s, (isViolating u q, restart))
  end.

Definition agents : list jsstr := map js ["sentinel"; "netcap"; "decoy"; "analyzer"; "watchfile"; "tunnel"]%string.

(** [pollAgentResources]: the running agents, in order. *)
Definition pollAgentResources (polls : jsstr -> option Poll) (s : Service) : Service * list jsstr :=
  fold_left (fun '(s, restarted) a =>
    match polls a with
    | Some p => let '(s, (_, r)) := auditAgentResources a p s in (s, if r then restarted ++ [a] else restarted)
    | None => (s, restarted)
    end) agents (s, []).

(** The polls of one agent: what each found and whether it restarted. *)
Fixpoint history (name : jsstr) (ps : list Poll) (s : Service) : Service * list (bool * bool) :=
  match ps with
  | [] => (s, [])
  | p :: ps => let '(s, v) := auditAgentResources name p s in let '(s, vs) := history name ps s in (s, v :: vs)
  end.

(** ** Summaries agree *)

Lemma statuses_cases s : forallb (fun x => bool_decide (x = OPERATIONAL)) s = true <->
  existsb (fun x => bool_decide (x = FAILED)) s = false /\ existsb (fun x => bool_decide (x = DEGRADED) || bool_decide (x = BOOTING)) s = false.
Proof. induction s as [|x s IH]; simpl; [done|]. rewrite andb_true_iff, !orb_false_iff, IH, bool_decide_eq_true, bool_decide_eq_false. destruct x; naive_solver. Qed.

(** The dashboard shows success exactly when everything is operational. *)
Lemma severity_agrees s : getGlobalSeverity s = SUCCESS <-> isFullyOperational s = true.
Proof.
  unfold getGlobalSeverity, isFullyOperational. rewrite statuses_cases.
  destruct (existsb _ (statuses s)); [naive_solver|]. destruct (existsb _ (statuses s)); naive_solver.
Qed.

(** ** The parser *)

Lemma lastIndexFrom_app c l r : forall i last, c ∉ r -> lastIndexFrom i last (l ++ c :: r) c = i + Z.of_nat (length l).
Proof.
  assert (forall r i last, c ∉ r -> lastIndexFrom i last r c = last) as Hr.
  { clear r. induction r as [|d r IH]; intros i last Hc; simpl; [done|]. rewrite (proj2 (Z.eqb_neq d c)) by set_solver. apply IH. set_solver. }
  induction l as [|d l IH]; intros i last Hc; simpl; [rewrite Z.eqb_refl, Hr by done; lia|]. rewrite IH by done. lia.
Qed.

(** The counters of an agent are read correctly whatever the agent is
    called: for any command name, also one with parentheses and blanks, the
    fields of the process's stat line are exactly those the kernel printed. *)
Theorem stat_fields_exact pid comm fields : fields <> [] -> Forall (fun f => 32 ∉ f /\ 41 ∉ f) fields ->
  statParts (pid ++ js " (" ++ comm ++ js ") " ++ join (js " ") fields) = fields.
Proof.
  intros Hne Hf. unfold statParts, lastIndexOf.
  replace (pid ++ js " (" ++ comm ++ js ") " ++ join (js " ") fields) with ((pid ++ js " (" ++ comm) ++ 41 :: 32 :: join (js " ") fields)
    by (rewrite <-!app_assoc; reflexivity).
  rewrite lastIndexFrom_app.
  - replace (Z.to_nat _) with (length (pid ++ js " (" ++ comm) + 2)%nat by lia. rewrite drop_app_add. simpl.
    apply (split_join_char 32); [done|]. eapply Forall_impl; [exact Hf|naive_solver].
  - rewrite not_elem_of_cons. split; [done|]. intros [|(p & Hp & Hc)]%(join_elem 32); [done|]. rewrite Forall_forall in Hf. naive_solver.
Qed.

(** ** Restarts *)

(** How many of the last polls in a row were violations. *)
Fixpoint streak (vs : list bool) : nat := match vs with true :: vs => S (streak vs) | _ => 0 end.

Lemma judge_count name v now s n : countOf name s = Z.of_nat (n mod 3) ->
  countOf name (judge name v now s).1 = Z.of_nat ((if v then S n else 0) mod 3) /\
  (judge name v now s).2 = v && ((S n mod 3 =? 0)%nat).
Proof.
  intros Hc. unfold judge. destruct v; [|split; [|done]; unfold countOf, setCount; cbn [fst sidecarViolationCounts]; by rewrite JsMap.get_set_eq].
  assert (n mod 3 < 3)%nat as Hlt by (apply Nat.mod_upper_bound; lia).
  assert (S n mod 3 = if (n mod 3 =? 2)%nat then 0 else S (n mod 3))%nat as ->.
  { pose proof (Nat.div_mod_eq n 3) as Hd. destruct (Nat.eqb_spec (n mod 3) 2) as [E|E].
    - symmetry. apply (Nat.mod_unique _ _ (S (n / 3))); lia.
    - symmetry. apply (Nat.mod_unique _ _ (n / 3)); lia. }
  rewrite Hc. destruct (Nat.eqb_spec (n mod 3) 2) as [E|E].
  - rewrite E. simpl. split; [|done]. unfold countOf, setCount. cbn [sidecarViolationCounts]. by rewrite JsMap.get_set_eq.
  - destruct (Z.leb_spec 3 (Z.of_nat (n mod 3) + 1)); [lia|]. simpl. split; [|done]. unfold countOf, reportStatus, setCount.
    cbn [sidecarViolationCounts]. rewrite JsMap.get_set_eq. simpl. lia.
Qed.

Lemma measure_counts os name stat status now s : sidecarViolationCounts (measure os name stat status now s).1 = sidecarViolationCounts s.
Proof. unfold measure. destruct os; [case_match; done|done..]. Qed.

Lemma audit_count name q p s n : JsMap.get sidecarQuotas (toLowerCase name) = Some q -> countOf name s = Z.of_nat (n mod 3) ->
  let '(s', (v, r)) := auditAgentResources name p s in
  countOf name s' = Z.of_nat ((if v then S n else 0) mod 3) /\ r = v && ((S n mod 3 =? 0)%nat).
Proof.
  intros Hq Hc. unfold auditAgentResources. rewrite Hq. pose proof (measure_counts (p_os p) name (p_stat p) (p_status p) (p_now p) s) as Hm.
  destruct (measure _ _ _ _ _ _) as [s1 u]. simpl in Hm.
  assert (countOf name s1 = Z.of_nat (n mod 3)) as Hc1 by (unfold countOf in *; by rewrite Hm).
  pose proof (judge_count name (isViolating u q) (p_now p) s1 n Hc1) as Hj. by destruct (judge _ _ _ _).
Qed.

Lemma history_exact name q : JsMap.get sidecarQuotas (toLowerCase name) = Some q -> forall ps s before,
  countOf name s = Z.of_nat (streak before mod 3) -> forall i v r, (history name ps s).2 !! i = Some (v, r) ->
  let upto := reverse (take (S i) (map fst (history name ps s).2)) ++ before in r = v && ((streak upto mod 3 =? 0)%nat).
Proof.
  intros Hq. induction ps as [|p ps IH]; intros s before Hc i v r; simpl; [done|].
  pose proof (audit_count name q p s _ Hq Hc) as Ha. destruct (auditAgentResources name p s) as [s1 [v1 r1]]. destruct Ha as [Hc1 Hr1].
  specialize (IH s1 (v1 :: before)). assert (countOf name s1 = Z.of_nat (streak (v1 :: before) mod 3)) as Hc2 by (by destruct v1).
  specialize (IH Hc2). destruct (history name ps s1) as [s2 vs]. simpl in *. destruct i as [|i]; simpl.
  - intros [= <- <-]. by destruct v1.
  - intros Hi. specialize (IH i v r Hi). simpl in IH. destruct vs as [|w vs]; [done|]. simpl in *.
    rewrite reverse_cons. rewrite <-app_assoc. exact IH.
Qed.

(** An agent is forced to restart exactly when it keeps violating its quota:
    over any sequence of polls from a clean count, a poll restarts the agent
    if and only if it found a violation and the violations in a row up to it
    number a multiple of three. *)
Theorem restarted_exactly name q ps s i v r : JsMap.get sidecarQuotas (toLowerCase name) = Some q -> countOf name s = 0 ->
  (history name ps s).2 !! i = Some (v, r) ->
  r = v && ((streak (reverse (take (S i) (map fst (history name ps s).2))) mod 3 =? 0)%nat).
Proof. intros Hq Hc Hi. pose proof (history_exact name q Hq ps s [] Hc i v r Hi) as Hh. simpl in Hh. by rewrite app_nil_r in Hh. Qed.

Lemma clamp_range q : (0 <= clamp q <= 100)%Q.
Proof. unfold clamp. split; [apply Q.min_glb; [discriminate|apply Q.le_max_l]|apply Q.le_min_l]. Qed.

Lemma cpu_range prev ticks now : (0 <= cpuOf prev ticks now <= 100)%Q.
Proof. unfold cpuOf. repeat case_match; try (split; discriminate). apply clamp_range. Qed.

(** ** A runaway agent *)

Definition heavy0 : Poll := mkPoll linux [] (js "VmRSS:   99999999 kB") 0.
Definition light0 : Poll := mkPoll linux [] (js "VmRSS:   1024 kB") 0.

Lemma restarted_exactly_witness : (history (js "decoy") [heavy0; light0; heavy0; heavy0; heavy0] new).2
    = [(true, false); (false, false); (true, false); (true, false); (true, true)] /\
  true = true && ((streak (reverse (take 5 (map fst (history (js "decoy") [heavy0; light0; heavy0; heavy0; heavy0] new).2))) mod 3 =? 0)%nat).
Proof.
  split; [by vm_compute|]. apply (restarted_exactly (js "decoy") (mkQuota 2 (32 * MB)) [heavy0; light0; heavy0; heavy0; heavy0] new 4); reflexivity.
Defined.

Lemma stat_fields_exact_witness : statParts (js "7" ++ js " (" ++ js "a) (b" ++ js ") " ++ join (js " ") [js "S"; js "1"]) = [js "S"; js "1"].
Proof. apply stat_fields_exact; [discriminate|]. repeat constructor; apply (bool_decide_unpack _); by vm_compute. Defined.
End Health.
