(* ===== verification/Baseline.v ===== *)
(** * The baseline of the host

    Models [src/orchestrator/domain/analysis/baseline.ts]
    ([BaselineService]): a snapshot of listening ports, processes and
    sensitive files is kept as the baseline, with lookup tables derived from
    it, and later snapshots are compared with it.  A check awaits its snapshot
    between looking for a baseline and comparing, so other operations run in
    between.  The output of [ss] or [netstat], the answers of the analyzer and
    the store are inputs; log lines and texts are left out. *)

From S2P Require Import Prelude JsMap JsSet JsString Cidr.
Open Scope Z_scope.

Module Baseline.
Import JsString.

(** ** Snapshots *)

Record ProcessSnapshot := mkProcess { pid : Z; p_name : jsstr; exe_path : jsstr; p_hash : jsstr; p_key : option jsstr }.
Record FileSnapshot := mkFile { f_path : jsstr; f_hash : jsstr; mtime : jsstr }.
Record SystemSnapshot := mkSnapshot { timestamp : jsstr; ports : list jsstr; processes : list ProcessSnapshot; files : option (list FileSnapshot) }.

Definition getProcessKey (p : ProcessSnapshot) : jsstr :=
  match p_key p with Some (c :: k) => c :: k | _ => exe_path p ++ js ":" ++ p_hash p end.

(** [trim().split(/\s+/)]; [acc] is the current word, reversed. *)
Fixpoint wordsFrom (acc : jsstr) (s : jsstr) : list jsstr :=
  match s with
  | [] => [rev acc]
  | c :: s => if Cidr.is_space c then match acc with [] => wordsFrom [] s | _ => rev acc :: wordsFrom [] s end else wordsFrom (c :: acc) s
  end.

Definition words (line : jsstr) : list jsstr := wordsFrom [] (Cidr.trim line).

(** [replace(/^\[|\]$/g, "")] *)
Definition stripBrackets (s : jsstr) : jsstr :=
  let s := match s with 91 :: s => s | _ => s end in
  match rev s with 93 :: r => rev r | _ => s end.

Definition lastBut (k : nat) (l : list jsstr) : jsstr := default [] (rev l !! k).

Definition ssPort (line : jsstr) : jsstr :=
  let parts := words line in stripBrackets (if (5 <=? length parts)%nat then lastBut 1 parts else lastBut 0 parts).

Inductive Os := linux | windows | otherOs.

Definition capturePorts (os : Os) (stdout : jsstr) : list jsstr :=
  let lines := split stdout [10] in
  match os with
  | linux => List.filter (fun p => negb (bool_decide (p = [])) && negb (bool_decide (p = js "Local")))
               (map ssPort (List.filter (fun l => includes l (js "LISTEN")) lines))
  | windows => List.filter (fun p => negb (bool_decide (p = [])))
                 (map (fun l => default [] (words l !! 1%nat)) (List.filter (fun l => includes l (js "LISTENING")) lines))
  | otherOs => []
  end.

(** The analyzer's answers: [None] when it failed or sent no array. *)
Record Capture := mkCapture { c_os : Os; c_stdout : jsstr; c_processes : option (list ProcessSnapshot); c_files : option (list FileSnapshot); c_time : jsstr }.

Definition captureSnapshot (c : Capture) : SystemSnapshot :=
  mkSnapshot (c_time c) (capturePorts (c_os c) (c_stdout c))
    (map (fun p => mkProcess (pid p) (p_name p) (exe_path p) (p_hash p) (Some (exe_path p ++ js ":" ++ p_hash p))) (default [] (c_processes c)))
    (Some (default [] (c_files c))).

(** ** The service *)

Record Service := mkService {
  currentBaseline : option SystemSnapshot; isInitialized : bool; previousProcessSet : list jsstr;
  baselineFileMap : list (jsstr * jsstr); baselinePortSet : list jsstr; baselineProcessSet : list jsstr;
  kv : option SystemSnapshot; checking : nat }.

Definition new (stored : option SystemSnapshot) : Service := mkService None false [] [] [] [] stored 0.

Definition fileMap (fs : list FileSnapshot) : list (jsstr * jsstr) := fold_left (fun m f => JsMap.set m (f_path f) (f_hash f)) fs [].
Definition setOf (l : list jsstr) : list jsstr := fold_left (fun m x => set_add x m) l [].

Definition updateCaches (b : SystemSnapshot) (s : Service) : Service :=
  mkService (currentBaseline s) (isInitialized s) (previousProcessSet s) (fileMap (default [] (files b))) (setOf (ports b))
    (setOf (map getProcessKey (processes b))) (kv s) (checking s).

Definition adopt (b : SystemSnapshot) (s : Service) : Service :=
  updateCaches b (mkService (Some b) (isInitialized s) (previousProcessSet s) (baselineFileMap s) (baselinePortSet s) (baselineProcessSet s) (kv s) (checking s)).

(** [restoreBaseline] *)
Definition restoreBaseline (s : Service) : Service := match kv s with Some b => adopt b s | None => s end.

Definition store (b : SystemSnapshot) (s : Service) : Service :=
  mkService (currentBaseline s) (isInitialized s) (previousProcessSet s) (baselineFileMap s) (baselinePortSet s) (baselineProcessSet s) (Some b) (checking s).

(** [setBaseline] once the snapshot is there; [saves]: the write succeeds. *)
Definition setBaseline (c : Capture) (saves : bool) (s : Service) : Service :=
  let b := captureSnapshot c in let s := adopt b s in if saves then store b s else s.

Definition with_checking (n : nat) (s : Service) : Service :=
  mkService (currentBaseline s) (isInitialized s) (previousProcessSet s) (baselineFileMap s) (baselinePortSet s) (baselineProcessSet s) (kv s) n.

(** [checkDrift] up to the snapshot: without a baseline it is over. *)
Definition checkStart (s : Service) : Service :=
  let s := match currentBaseline s with None => restoreBaseline s | Some _ => s end in
  match currentBaseline s with Some _ => with_checking (S (checking s)) s | None => s end.

Record Drift := mkDrift { newPorts : list jsstr; newProcs : list ProcessSnapshot; changedFiles : list FileSnapshot }.

Definition isChanged (s : Service) (f : FileSnapshot) : bool := negb (bool_decide (JsMap.get (baselineFileMap s) (f_path f) = Some (f_hash f))).
Definition isNewProc (s : Service) (p : ProcessSnapshot) : bool :=
  isInitialized s && negb (bool_decide (getProcessKey p ∈ baselineProcessSet s)) && bool_decide (getProcessKey p ∈ previousProcessSet s).

Definition drift (s : Service) (current : SystemSnapshot) : Drift :=
  mkDrift (List.filter (fun p => negb (bool_decide (p ∈ baselinePortSet s))) (ports current)) (List.filter (isNewProc s) (processes current))
    (List.filter (isChanged s) (default [] (files current))).

Inductive effect := EDriftPort (ps : list jsstr) | EDriftProcess (ps : list ProcessSnapshot) | ECriticalFile (fs : list FileSnapshot) | EDriftFile (fs : list FileSnapshot).

Definition isCritical (f : FileSnapshot) : bool :=
  includes (f_path f) (js "/etc/shadow") || includes (f_path f) (js "/etc/sudoers") || includes (f_path f) (js "authorized_keys").

Definition report (d : Drift) : list effect :=
  match newPorts d with [] => [] | l => [EDriftPort l] end
  ++ match newProcs d with [] => [] | l => [EDriftProcess l] end
  ++ match changedFiles d with
     | [] => []
     | l => match List.filter isCritical l with [] => [EDriftFile (take 10 l)] | k => [ECriticalFile k] end
     end.

(** The rest of [checkDrift]. *)
Definition checkEnd (c : Capture) (s : Service) : Service * option Drift :=
  match checking s with
  | O => (s, None)
  | S n =>
      let current := captureSnapshot c in
      (mkService (currentBaseline s) true (setOf (map getProcessKey (processes current))) (baselineFileMap s) (baselinePortSet s)
         (baselineProcessSet s) (kv s) n, Some (drift s current))
  end.

Inductive input := IRestore | ISet (c : Capture) (saves : bool) | ICheckStart | ICheckEnd (c : Capture).

Definition step (s : Service) (i : input) : Service :=
  match i with
  | IRestore => restoreBaseline s
  | ISet c saves => setBaseline c saves s
  | ICheckStart => checkStart s
  | ICheckEnd c => (checkEnd c s).1
  end.

Definition run (s : Service) (ins : list input) : Service := fold_left step ins s.

(** ** The tables agree with the baseline *)

Lemma setOf_elem l x : x ∈ setOf l <-> x ∈ l.
Proof.
  unfold setOf. assert (forall m, x ∈ fold_left (fun m x => set_add x m) l m <-> x ∈ m \/ x ∈ l) as ->; [|set_solver].
  induction l as [|y l IH]; intros m; simpl; [set_solver|]. rewrite IH, set_add_elem. set_solver.
Qed.

(** The hash the last entry of a path has. *)
Definition hashIn (fs : list FileSnapshot) (p : jsstr) : option jsstr := f_hash <$> List.find (fun f => bool_decide (f_path f = p)) (rev fs).

Lemma fileMap_get fs p : JsMap.get (fileMap fs) p = hashIn fs p.
Proof.
  unfold fileMap, hashIn. induction fs as [|f fs IH] using rev_ind; [done|]. rewrite fold_left_app, rev_app_distr. simpl.
  case_bool_decide as E; [subst p; by rewrite JsMap.get_set_eq|]. by rewrite JsMap.get_set_ne.
Qed.

(** The tables are those of the current baseline. *)
Definition caches_ok (s : Service) : Prop :=
  match currentBaseline s with
  | Some b => baselineFileMap s = fileMap (default [] (files b)) /\ baselinePortSet s = setOf (ports b)
      /\ baselineProcessSet s = setOf (map getProcessKey (processes b))
  | None => checking s = 0%nat
  end.

Lemma adopt_caches b s : caches_ok (adopt b s).
Proof. by split_and!. Qed.

Lemma step_caches s i : caches_ok s -> caches_ok (step s i).
Proof.
  intros Hs. destruct i as [|c saves| |c]; simpl.
  - unfold restoreBaseline. destruct (kv s); [apply adopt_caches|done].
  - unfold setBaseline. destruct saves; [|apply adopt_caches]. pose proof (adopt_caches (captureSnapshot c) s) as Ha. exact Ha.
  - unfold checkStart. destruct (currentBaseline s) as [b|] eqn:E; [rewrite E; unfold caches_ok in *; simpl; by rewrite E in *|].
    unfold restoreBaseline. destruct (kv s) as [b|]; [|by rewrite E]. apply (adopt_caches b s).
  - unfold checkEnd. destruct (checking s) as [|n] eqn:E; [done|]. unfold caches_ok in *. simpl. destruct (currentBaseline s); [done|]. congruence.
Qed.

Lemma run_caches stored ins : caches_ok (run (new stored) ins).
Proof.
  assert (forall s, caches_ok s -> caches_ok (run s ins)) as H; [|by apply H]. induction ins as [|i ins IH]; intros s Hs; [done|]. simpl. by apply IH, step_caches.
Qed.

(** What a check should find, from the baseline itself. *)
Definition driftFrom (b : SystemSnapshot) (before : option (list jsstr)) (current : SystemSnapshot) : Drift :=
  mkDrift (List.filter (fun p => negb (bool_decide (p ∈ ports b))) (ports current))
    (List.filter (fun p => match before with Some ks => negb (bool_decide (getProcessKey p ∈ map getProcessKey (processes b))) && bool_decide (getProcessKey p ∈ ks)
                                      | None => false end) (processes current))
    (List.filter (fun f => negb (bool_decide (hashIn (default [] (files b)) (f_path f) = Some (f_hash f)))) (default [] (files current))).

Lemma filter_same {A} (f g : A -> bool) l : (forall x, f x = g x) -> List.filter f l = List.filter g l.
Proof. intros Hfg. induction l as [|x l IH]; simpl; [done|]. by rewrite Hfg, IH. Qed.

Lemma drift_reference s b current : caches_ok s -> currentBaseline s = Some b ->
  drift s current = driftFrom b (if isInitialized s then Some (previousProcessSet s) else None) current.
Proof.
  intros Hc Hb. unfold caches_ok in Hc. rewrite Hb in Hc. destruct Hc as (Hf & Hp & Hk). unfold drift, driftFrom. f_equal.
  - apply filter_same. intros p. rewrite Hp. f_equal. apply bool_decide_ext, setOf_elem.
  - apply filter_same. intros p. unfold isNewProc. rewrite Hk. destruct (isInitialized s); [|done]. simpl. f_equal. f_equal. apply bool_decide_ext, setOf_elem.
  - apply filter_same. intros f. unfold isChanged. rewrite Hf, fileMap_get. done.
Qed.

(** Drift is found exactly: however checks, new baselines and restores
    interleave, a finished check reports the ports the baseline in force does
    not list, the files whose path or hash it does not have, and, from the
    second check on, the processes it does not know that the check before had
    seen too; the lookup tables never go stale. *)
Theorem drift_exact stored ins c d : let s := run (new stored) ins in (checkEnd c s).2 = Some d ->
  exists b, currentBaseline s = Some b /\ d = driftFrom b (if isInitialized s then Some (previousProcessSet s) else None) (captureSnapshot c).
Proof.
  intros s. pose proof (run_caches stored ins) as Hc. fold s in Hc. unfold checkEnd. destruct (checking s) as [|n] eqn:E; [done|]. intros [= <-].
  destruct (currentBaseline s) as [b|] eqn:Hb; [|unfold caches_ok in Hc; rewrite Hb in Hc; congruence].
  exists b. split; [done|]. by apply drift_reference.
Qed.

(** ** Processes that come and go *)

(** A sequence of complete checks: the drift each reports. *)
Fixpoint checks (cs : list Capture) (s : Service) : list Drift :=
  match cs with
  | [] => []
  | c :: cs => let '(s, d) := checkEnd c (checkStart s) in option_list d ++ checks cs s
  end.

Definition sees (k : jsstr) (c : Capture) : Prop := k ∈ map getProcessKey (processes (captureSnapshot c)).

Fixpoint flickers (k : jsstr) (cs : list Capture) : Prop :=
  match cs with c :: ((c' :: _) as cs') => (~ sees k c \/ ~ sees k c') /\ flickers k cs' | _ => True end.

Lemma check_step c s b : currentBaseline s = Some b -> exists s', checkEnd c (checkStart s) = (s', Some (drift s (captureSnapshot c))) /\
  currentBaseline s' = Some b /\ forall k, k ∈ previousProcessSet s' <-> sees k c.
Proof.
  intros Hb. unfold checkStart. rewrite !Hb. unfold checkEnd. simpl. eexists. split; [reflexivity|]. split; [done|]. intros k. apply setOf_elem.
Qed.

(** Malware that flickers is never reported: a process that no two
    consecutive checks see, for instance one that restarts between every
    second scan, never appears as drift, however long it is at work. *)
Theorem flickering_unreported k cs : forall s b, currentBaseline s = Some b -> k ∉ previousProcessSet s -> flickers k cs ->
  forall d p, d ∈ checks cs s -> p ∈ newProcs d -> getProcessKey p <> k.
Proof.
  assert (forall cs s b, currentBaseline s = Some b -> flickers k cs -> (forall c, head cs = Some c -> k ∈ previousProcessSet s -> ~ sees k c) ->
            forall d p, d ∈ checks cs s -> p ∈ newProcs d -> getProcessKey p <> k) as Hgo.
  { clear cs. induction cs as [|c cs IH]; intros s b Hb Hf Hh d p; cbn [checks]; [by intros ?%elem_of_nil|].
    destruct (check_step c s b Hb) as (s' & -> & Hb' & Hp'). cbn [option_list app]. intros [->|Hd]%elem_of_cons Hp.
    - simpl in Hp. apply list_elem_of_In, filter_In in Hp as [Hin Hn]. unfold isNewProc in Hn. rewrite !andb_true_iff, !bool_decide_eq_true in Hn.
      intros <-. destruct Hn as [_ Hk]. apply (Hh c); [done|done|]. unfold sees. apply list_elem_of_fmap_2. by apply list_elem_of_In.
    - apply (IH s' b Hb') with (d := d); [destruct cs; [done|by destruct Hf]| |done|done].
      intros c' Hc' Hk. apply Hp' in Hk. destruct cs as [|c2 cs]; [done|]. simpl in Hc'. simplify_eq. destruct Hf as [[Hf|Hf] _]; [done|done]. }
  intros s b Hb Hk Hf. apply (Hgo cs s b Hb Hf). done.
Qed.

(** ** The store *)

(** A baseline that was saved is in force again after a restart. *)
Lemma baseline_survives c s : let s' := restoreBaseline (new (kv (setBaseline c true s))) in
  currentBaseline s' = currentBaseline (setBaseline c true s) /\ forall cur, newPorts (drift s' cur) = newPorts (drift (setBaseline c true s) cur)
    /\ changedFiles (drift s' cur) = changedFiles (drift (setBaseline c true s) cur).
Proof. split; [done|]. intros cur. done. Qed.

(** ** A host *)

Definition sshd0 : ProcessSnapshot := mkProcess 5 (js "sshd") (js "/usr/sbin/sshd") (js "aa") None.
Definition miner0 : ProcessSnapshot := mkProcess 9 (js "x") (js "/tmp/x") (js "bb") None.
Definition clean0 : Capture := mkCapture linux (js "tcp LISTEN 0 128 0.0.0.0:22 0.0.0.0:*") (Some [sshd0]) None (js "t").
Definition infected0 : Capture := mkCapture linux (js "tcp LISTEN 0 128 0.0.0.0:22 0.0.0.0:*") (Some [sshd0; miner0]) None (js "t").
Definition host0 : Service := setBaseline clean0 true (new None).

Lemma drift_exact_witness : exists d, (checkEnd infected0 (run (new None) [ISet clean0 true; ICheckStart; ICheckEnd infected0; ICheckStart])).2 = Some d /\
  map pid (newProcs d) = [9] /\ exists b, d = driftFrom b (Some (setOf (map getProcessKey (processes (captureSnapshot infected0))))) (captureSnapshot infected0).
Proof.
  destruct (checkEnd infected0 (run (new None) [ISet clean0 true; ICheckStart; ICheckEnd infected0; ICheckStart])).2 as [d|] eqn:E; [|by vm_compute in E].
  exists d. split; [reflexivity|]. split; [vm_compute in E; injection E as <-; reflexivity|].
  destruct (drift_exact None [ISet clean0 true; ICheckStart; ICheckEnd infected0; ICheckStart] infected0 d E) as (b & _ & Hd). exists b. exact Hd.
Defined.

Lemma flickering_unreported_witness : forall d p, d ∈ checks [infected0; clean0; infected0; clean0] host0 -> p ∈ newProcs d -> getProcessKey p <> js "/tmp/x:bb".
Proof.
  apply (flickering_unreported (js "/tmp/x:bb") [infected0; clean0; infected0; clean0] host0 (captureSnapshot clean0) eq_refl).
  - apply not_elem_of_nil.
  - assert (~ sees (js "/tmp/x:bb") clean0) as H by (unfold sees; apply (bool_decide_unpack _); by vm_compute). simpl. split_and!; [by right|by left|by right|done].
Defined.
End Baseline.
