(* ===== verification/Kernel.v ===== *)
(** * Kernel hardening

    Models [src/orchestrator/domain/protection/kernel_service.ts], class
    [KernelService]: the hardening at the start, camouflage, enforcement through
    the agents, the AppArmor profiles, the forensic snapshots and the status.
    Every command goes through the modelled [Executor]: what its policies refuse
    is not started and reads as a failure, as in [execute].  What a started
    process or an agent answers is a parameter that may depend on everything
    done before; [execute] never rejects, a command to an agent may.  Log lines
    and the texts of errors are left out; the names of [Object.prototype] are
    not names of agents. *)

From S2P Require Import Prelude Result Effects JsString Regex Paths Schemas ExecPolicy Executor Cidr.
From Stdlib Require Import QArith.
Open Scope Z_scope.

Module Kernel.
Import JsString Regex Paths Schemas ExecPolicy Effects.

(** ** Data *)

Inductive Os := linux | darwin | windows | otherOs.

(** [lastHardened]; no value is the empty string it starts with. *)
Record Kernel := mkKernel { lastHardened : option jsstr }.

Definition new : Kernel := mkKernel None.

Record ExecResult := mkExec { succeeded : bool; stdout : jsstr }.

(** The commands to the agents. *)
Inductive Message :=
| GET_STATUS
| UPDATE_HOOK_CONTROL (hook_id : option Z) (enabled : bool)
| LSM_SYSCALL_ALLOWLIST (pid : Z) (allowed_syscalls : list string)
| TRUST_COMM (comm : string)
| RESTRICT_EGRESS (pid : Z) (allowed_ips : list jsstr)
| ENFORCE_PID (pid : Z) (policy : option Z) (path : option jsstr)
| UpdatePolicy (blocked_paths : list jsstr)
| AddBlockRule (ip : string) (pid : Z)
| BLOCK_SYSCALL (pid : Z) (syscall : jsstr)
| LSM_POLICY (blockedSyscalls : list jsstr) (restrictedPids : list Z).

Inductive effect :=
| ESpawn (program : jsstr) (args : list jsstr)
| ESend (agent : string) (m : Message)
| EEmit (event : string) (subject : jsstr)
| EAudit (caller : string).

Record Status := mkStatus {
  aslr : string; syncookies : string; rp_filter : string; tcp_timestamps : string;
  accept_source_route : string; icmp_echo_ignore_broadcasts : string; hardenedAt : jsstr }.

Definition allowlist : list string :=
  ["read"; "write"; "open"; "close"; "fstat"; "mmap"; "munmap"; "brk";
   "rt_sigaction"; "rt_sigprocmask"; "rt_sigreturn"; "ioctl"; "pread64";
   "pwrite64"; "access"; "pipe"; "select"; "sched_yield"; "mremap";
   "getpid"; "getuid"; "getgid"; "setuid"; "setgid"; "geteuid"; "getegid";
   "socket"; "connect"; "accept"; "sendto"; "recvfrom"; "setsockopt";
   "getsockopt"; "shutdown"; "bind"; "listen"; "getsockname"; "getpeername";
   "clone"; "execve"; "wait4"; "kill"; "fcntl"; "flock"; "fsync";
   "getdents"; "getcwd"; "chdir"; "rename"; "mkdir"; "rmdir"; "unlink";
   "chmod"; "chown"; "lchown"; "utime"; "capget"; "capset"; "prctl"]%string.

Definition params : list string :=
  ["net.ipv4.conf.all.rp_filter=1"; "net.ipv4.conf.default.rp_filter=1";
   "net.ipv4.icmp_echo_ignore_broadcasts=1"; "net.ipv4.conf.all.accept_source_route=0";
   "net.ipv4.tcp_syncookies=1"; "net.ipv4.tcp_timestamps=0"; "kernel.randomize_va_space=2"]%string.

Definition trustedComms : list string :=
  ["deno"; "enforcer"; "sentinel"; "watchfile"; "netcap"; "analyzer"; "decoy"]%string.

Definition LATENCY_THRESHOLD_NS : Q := inject_Z 50000.

Definition targetName : jsstr := js "[kworker/u64:1]".
Definition helperPath : jsstr := js "/var/lib/cts/scripts/update_comm.sh".

(** ** AppArmor profiles *)

Definition capMap : list (string * list string) :=
  [("sentinel", ["net_admin"; "sys_admin"; "sys_resource"; "sys_ptrace"; "ipc_lock"]);
   ("netcap", ["net_raw"; "net_admin"]);
   ("enforcer", ["net_admin"; "kill"]);
   ("watchfile", ["sys_admin"]);
   ("tunnel", ["net_admin"]);
   ("trustroot", ["sys_admin"; "sys_rawio"]);
   ("analyzer", ["sys_admin"; "sys_resource"]);
   ("decoy", ["net_bind_service"])]%string.

Definition capsOf (name : jsstr) : list string :=
  default ["net_admin"; "sys_admin"; "sys_resource"]%string (snd <$> List.find (fun e => bool_decide (js e.1 = name)) capMap).

Definition profileName (name : jsstr) : jsstr := js "cts-sidecar-" ++ name.

Definition exception (name : jsstr) (agent line : string) : jsstr := if bool_decide (name = js agent) then js line else [].

(** A line of the profile; [n] is the line break. *)
Definition lines (ls : list jsstr) : jsstr := join [10] ls.

Definition profile (name binaryPath : jsstr) : jsstr :=
  Cidr.trim (lines ([
    []; js "# Hardened AppArmor Profile for Sovereign Sidecar: " ++ name;
    js "# Generated by KernelService v1.0 (Strict Enforcement)"; [];
    js "profile " ++ profileName name ++ js " " ++ binaryPath ++ js " flags=(attach_disconnected) {";
    js "  #include <abstractions/base>"; js "  #include <abstractions/nameservice>"; [];
    js "  # System Permissions";
    join [10] (map (fun c => js "  capability " ++ js c ++ js ",") (capsOf name)); [];
    js "  # Deny all by default"; js "  deny /etc/passwd w,"; js "  deny /etc/shadow rw,"; js "  deny /home/** rw,";
    js "  deny /root/** rw,"; js "  deny /usr/bin/** mrx,"; js "  deny /usr/sbin/** mrx,"; js "  deny /bin/** mrx,";
    js "  deny /sbin/** mrx,"; []; js "  # Allow strictly required access"; js "  /proc/ r,"; js "  /proc/*/ r,";
    js "  /proc/*/status r,"; js "  /proc/*/comm r,"; js "  /proc/*/cmdline r,"; js "  /sys/ r,"; js "  /sys/** r,";
    js "  /var/lib/cts/bin/" ++ name ++ js " mr,"; js "  /var/lib/cts/logs/** rw,"; js "  /var/lib/cts/tmp/** rw,";
    js "  /volume/storage/agents/golden/" ++ name ++ js " r,"; []; js "  # Sidecar-specific exceptions";
    js "  " ++ exception name "netcap" "/volume/storage/captures/** rw,";
    js "  " ++ exception name "trustroot" "/dev/tpm* rw,"; [];
    js "  # Network access"; js "  network inet,"; js "  network inet6,"; js "  network raw,"; js "  network unix,";
    js "}"; []])).

(** [.replace(/'/g, "'\\''")] *)
Definition quoteUnit (c : Z) : jsstr := if c =? 39 then [39; 92; 39; 39] else [c].
Definition escapeQuotes (s : jsstr) : jsstr := flat_map quoteUnit s.

Definition secureTempDir : jsstr := js "/var/lib/cts/tmp".
Definition tempFile (name suffix : jsstr) : jsstr :=
  secureTempDir ++ js "/cts-profile-" ++ name ++ js "-" ++ suffix ++ js ".profile".

Definition writeCommand (name binaryPath suffix : jsstr) : jsstr :=
  js "umask 077 && echo '" ++ escapeQuotes (profile name binaryPath) ++ js "' > " ++ tempFile name suffix.

(** ** Operations *)

Section kernel.
Context `{StdPath} `{Zod} (basename : jsstr -> jsstr) (JSON_parse : jsstr -> option Json) (root : bool).
(** What a process prints and returns; what an agent answers ([res.success]). *)
Context (runs : list effect -> effect -> ExecResult) (sends : list effect -> effect -> settled bool unit).
(** [Deno.build.os], [Deno.pid], [STEALTH_ENABLED], [ENVIRONMENT], [GATEWAY_IP]. *)
Context (os : Os) (pid : Z) (stealth production : bool) (gateway : option jsstr).

#[local] Open Scope act_scope.
#[local] Notation act := (Effects.act effect).

Definition refused : ExecResult := mkExec false [].

Definition execute (cmd : jsstr) (args : list jsstr) : act ExecResult :=
  match Executor.spawned basename JSON_parse root cmd args with
  | None => ret refused
  | Some (p, a) => ask (fun h e => Resolved (runs h e)) (ESpawn p a)
  end.

Definition sendCommand (agent : string) (m : Message) : act bool := ask sends (ESend agent m).

Definition forEach {A} (l : list A) (f : A -> act unit) : act unit := foldr (fun x k => let! _ := f x in k) (ret tt) l.

Definition mapAll {A B} (f : A -> act B) (l : list A) : act (list B) :=
  foldr (fun x k => let! y := f x in let! ys := k in ret (y :: ys)) (ret []) l.

Definition pathExists (p : jsstr) : act bool := let! r := execute (js "ls") [p] in ret (succeeded r).

Definition camouflage : act (Result unit unit) :=
  if negb stealth then ret (ok tt)
  else
    let! found := pathExists helperPath in
    let! r := if found then execute helperPath [targetName; decimal pid]
              else execute (js "sh") [js "-c"; js "echo '" ++ targetName ++ js "' > /proc/" ++ decimal pid ++ js "/comm"] in
    ret (if succeeded r then ok tt else err tt).

Definition initializeQuietMode : act unit :=
  forEach trustedComms (fun c => attempt (let! _ := sendCommand "sentinel" (TRUST_COMM c) in ret tt) tt).

Definition trustedIps : list jsstr :=
  [js "1.1.1.1"; js "8.8.8.8"] ++ match gateway with Some (c :: g) => [c :: g] | _ => [] end.

Definition initializeSelfEnforcement : act unit :=
  attempt (let! _ := sendCommand "sentinel" (RESTRICT_EGRESS pid trustedIps) in ret tt) tt.

Definition selfProtect : act unit :=
  match os with
  | linux =>
      let! _ := sendCommand "sentinel" (LSM_SYSCALL_ALLOWLIST pid allowlist) in
      let! _ := initializeQuietMode in
      initializeSelfEnforcement
  | _ => ret tt
  end.

Definition applyParam (p : string) : act unit := let! _ := execute (js "sysctl") [js "-w"; js p] in ret tt.

Definition start (now : jsstr) (s : Kernel) : act (Kernel * Result unit unit) :=
  let! _ := selfProtect in
  let! _ := forEach params applyParam in
  let s' := mkKernel (Some now) in
  let! _ := emit (EAudit "kernel:hardening") in
  let! c := camouflage in
  ret (s', if Result.success c || production then c else ok tt).

Definition onShutdown : act (Result unit unit) :=
  let! _ := match os with
            | linux => if stealth then execute helperPath [js "deno"; decimal pid] else ret refused
            | _ => ret refused
            end in
  ret (ok tt).

(** [readSysctl]; no value is an error. *)
Definition readSysctl (param : string) : act (option jsstr) :=
  let! r := execute (js "sysctl") [js "-n"; js param] in
  ret (if succeeded r then Some (Cidr.trim (stdout r)) else None).

Definition statusParams : list string :=
  ["kernel.randomize_va_space"; "net.ipv4.tcp_syncookies"; "net.ipv4.conf.all.rp_filter"; "net.ipv4.tcp_timestamps";
   "net.ipv4.conf.all.accept_source_route"; "net.ipv4.icmp_echo_ignore_broadcasts"]%string.

Definition valueOf (o : option jsstr) : jsstr := default (js "UNKNOWN") o.

(** A chain of conditionals on the value. *)
Fixpoint reading (v : jsstr) (cases : list (string * string)) (otherwise : string) : string :=
  match cases with
  | [] => otherwise
  | (x, name) :: cases => if bool_decide (v = js x) then name else reading v cases otherwise
  end.

Definition statusOf (s : Kernel) (values : list jsstr) : option Status :=
  match values with
  | [a; c; r; t; sr; i] =>
      if forallb (fun v => bool_decide (v = js "UNKNOWN")) values then None
      else Some (mkStatus
        (reading a [("2", "STRICT"); ("1", "PARTIAL"); ("0", "DISABLED")] "UNKNOWN")
        (reading c [("1", "ENABLED"); ("0", "DISABLED")] "UNKNOWN")
        (reading r [("1", "STRICT"); ("2", "LOOSE"); ("0", "DISABLED")] "UNKNOWN")
        (reading t [("0", "DISABLED"); ("1", "ENABLED")] "UNKNOWN")
        (reading sr [("0", "BLOCKED")] "ALLOWED")
        (reading i [("1", "BLOCKED")] "ALLOWED")
        (default (js "NEVER") (lastHardened s)))%string
  | _ => None
  end.

Definition getStatus (s : Kernel) : act (option Status) :=
  let! rs := mapAll readSysctl statusParams in ret (statusOf s (map valueOf rs)).

Section metrics.
(** Whether there is a bus, whether it rejects; the hooks the sentinel reports. *)
Context (bus : bool) (emits : list effect -> effect -> settled unit unit) (hooks : list effect -> option (list (jsstr * Q))).

Definition throttleHook (h : jsstr * Q) : act unit :=
  if Qle_bool h.2 LATENCY_THRESHOLD_NS then ret tt
  else
    let! _ := sendCommand "sentinel" (UPDATE_HOOK_CONTROL (Cidr.parseInt h.1) false) in
    if bus then ask emits (EEmit "SIDECAR_ALERT" h.1) else ret tt.

Definition analyzeHookPerformance (stats : list (jsstr * Q)) : act unit := forEach stats throttleHook.

(** The call of [analyzeHookPerformance] is not awaited. *)
Definition emitMetrics (s : Kernel) : act unit :=
  if negb bus then ret tt
  else
    let! _ := getStatus s in
    let! _ := ask emits (EEmit "METRIC_UPDATE" (js "kernel")) in
    let! good := sendCommand "sentinel" GET_STATUS in
    let! stats := observe hooks in
    match stats with
    | Some stats => if good then attempt (analyzeHookPerformance stats) tt else ret tt
    | None => ret tt
    end.
End metrics.

(** *** Enforcement through the agents *)

Definition enforced (m : act bool) (caller : option string) : act (Result unit unit) :=
  let! good := m in
  if good
  then let! _ := match caller with Some c => emit (EAudit c) | None => ret tt end in ret (ok tt)
  else ret (err tt).

Definition enforceEnforcement (p policy : Z) : act (Result unit unit) :=
  match os with
  | linux => enforced (sendCommand "sentinel" (ENFORCE_PID p (Some policy) None)) (Some "ENFORCEMENT"%string)
  | darwin => enforced (sendCommand "sentinel-darwin" (UpdatePolicy [js "/proc/" ++ decimal p ++ js "/"])) (Some "ENFORCEMENT"%string)
  | windows => enforced (sendCommand "enforcer-win" (AddBlockRule "0.0.0.0/0" p)) (Some "ENFORCEMENT"%string)
  | otherOs => ret (err tt)
  end.

Definition blockSyscall (p : Z) (syscall : jsstr) : act (Result unit unit) :=
  match os with
  | linux => enforced (sendCommand "sentinel" (BLOCK_SYSCALL p syscall)) (Some "kernel:lsm"%string)
  | _ => ret (ok tt)
  end.

Definition enforceLandlockGating (p : Z) (path : jsstr) : act (Result unit unit) :=
  enforced (sendCommand "sentinel" (ENFORCE_PID p None (Some path))) None.

Definition enforceLsmPolicy (syscalls : list jsstr) (pids : list Z) : act (Result unit unit) :=
  match os with
  | linux => enforced (sendCommand "sentinel" (LSM_POLICY syscalls pids)) None
  | _ => ret (ok tt)
  end.

(** *** Profiles and snapshots *)

Definition deployAppArmorProfile (name binaryPath suffix : jsstr) : act (Result unit unit) :=
  match os with
  | linux =>
      let! _ := execute (js "mkdir") [js "-p"; secureTempDir] in
      let! _ := execute (js "chmod") [js "700"; secureTempDir] in
      let! _ := execute (js "chown") [js "root:root"; secureTempDir] in
      let temp := tempFile name suffix in
      let! outcome :=
        let! w := execute (js "sh") [js "-c"; writeCommand name binaryPath suffix] in
        if negb (succeeded w) then ret (err tt)
        else
          let! _ := execute (js "chmod") [js "600"; temp] in
          let! c := execute (js "cp") [temp; js "/etc/apparmor.d/" ++ profileName name] in
          if negb (succeeded c) then ret (err tt)
          else
            let! r := execute (js "systemctl") [js "reload"; js "apparmor"] in
            ret (if succeeded r then ok tt else err tt) in
      let! _ := execute (js "rm") [js "-f"; temp] in
      ret outcome
  | _ => ret (ok tt)
  end.

Definition probeTarget : jsstr := js "/var/lib/cts/tmp/cts_reflink_probe".

Definition checkReflinkSupport : act bool :=
  match os with
  | linux =>
      let! r := execute (js "cp") [js "--reflink=always"; js "/etc/hostname"; probeTarget] in
      if succeeded r then let! _ := execute (js "rm") [js "-f"; probeTarget] in ret true else ret false
  | _ => ret false
  end.

Definition source : jsstr := js "./volume/storage/forensics".
Definition target (timestamp : jsstr) : jsstr := js "./volume/storage/forensics_snapshot_" ++ timestamp.

Definition snapshotForensics (timestamp : jsstr) : act (Result unit unit) :=
  let! _ := execute (js "mkdir") [js "-p"; source] in
  let! hasReflink := checkReflinkSupport in
  let! r :=
    if hasReflink then execute (js "cp") [js "-p"; js "--reflink=always"; source; target timestamp]
    else
      let! r := execute (js "cp") [js "-al"; source; target timestamp] in
      if succeeded r then ret r else execute (js "cp") [js "-rp"; source; target timestamp] in
  if succeeded r then let! _ := emit (EAudit "kernel:forensics") in ret (ok tt) else ret (err tt).

(** ** Facts *)

Lemma spawned_refused cmd p args : Executor.policy_of JSON_parse cmd = Some p ->
  safeParse (schema p) (Some (JArr (map JStr args))) = false -> Executor.spawned basename JSON_parse root cmd args = None.
Proof.
  intros Hp Hs. unfold Executor.spawned, Executor.validateArguments. rewrite Hp, Hs. cbn [negb]. by case_bool_step.
Qed.

Lemma refined_false s f args : f args = false -> safeParse (superRefine s f) (Some (JArr (map JStr args))) = false.
Proof.
  intros Hf. destruct (safeParse _ _) eqn:E; [|done]. apply Executor.superRefine_ok in E. congruence.
Qed.

Lemma copy_refused args : cp_args args = false \/ (3 < length args)%nat ->
  Executor.spawned basename JSON_parse root (js "cp") args = None.
Proof.
  intros Ha. apply (spawned_refused _ (only CP_SCHEMA)); [reflexivity|]. destruct Ha as [Ha|Ha]; [by apply refined_false|].
  destruct (safeParse _ _) eqn:E; [|done]. apply Executor.strings_length in E. lia.
Qed.

Lemma reload_refused : Executor.spawned basename JSON_parse root (js "systemctl") [js "reload"; js "apparmor"] = None.
Proof. apply (spawned_refused _ (only SYSTEMCTL_SCHEMA)); [reflexivity|]. apply refined_false. vm_compute. reflexivity. Qed.

Lemma restore_refused p : Executor.spawned basename JSON_parse root helperPath [js "deno"; p] = None.
Proof.
  apply (spawned_refused _ (only (matching (Alt (seqs [lit "["; plus (cls "a-z0-9/:"); lit "]"]) (plus (cls "0-9"))) 2))); [reflexivity|].
  cbn [schema only]. unfold matching. rewrite zod_check, zod_array. cbn [map forallb].
  rewrite zod_check. assert (check_ok (Pattern (Alt (seqs [lit "["; plus (cls "a-z0-9/:"); lit "]"]) (plus (cls "0-9"))))
    (JStr (js "deno")) = false) as -> by (vm_compute; reflexivity). by rewrite andb_false_r.
Qed.

Lemma execute_refused cmd args h : Executor.spawned basename JSON_parse root cmd args = None -> execute cmd args h = ([], Resolved refused).
Proof. unfold execute. by intros ->. Qed.

(** A command never rejects. *)
Lemma execute_resolved cmd args h : exists fx r, execute cmd args h = (fx, Resolved r).
Proof. unfold execute. destruct (Executor.spawned _ _ _ _ _) as [[p a]|]; eauto. Qed.

(** An operation whose commands are all resolved, one after the other. *)
Definition resolves {A} (m : act A) (P : A -> Prop) : Prop := forall h, exists fx a, m h = (fx, Resolved a) /\ P a.

Lemma resolves_ret {A} (a : A) (P : A -> Prop) : P a -> resolves (ret a) P.
Proof. intros Ha h. by exists [], a. Qed.

Lemma resolves_bind {A B} (m : act A) (f : A -> act B) (Q : A -> Prop) (P : B -> Prop) :
  resolves m Q -> (forall a, Q a -> resolves (f a) P) -> resolves (bind m f) P.
Proof.
  intros Hm Hf h. destruct (Hm h) as (fx & a & E & Ha). destruct (Hf a Ha (h ++ fx)) as (fx' & b & E' & Hb).
  exists (fx ++ fx'), b. unfold bind. by rewrite E, E'.
Qed.

Lemma resolves_execute cmd args : resolves (execute cmd args) (fun _ => True).
Proof. intros h. destruct (execute_resolved cmd args h) as (fx & r & E). by exists fx, r. Qed.

Lemma resolves_refused cmd args : Executor.spawned basename JSON_parse root cmd args = None ->
  resolves (execute cmd args) (fun r => succeeded r = false).
Proof. intros Hs h. exists [], refused. by rewrite execute_refused. Qed.

(** C37: no forensic snapshot is ever taken: whatever the operating system
    answers, every copy command [snapshotForensics] tries is refused by the
    execution policy (four arguments where three are allowed, or a flag that
    is not on the list), so it ends with an error and audits nothing. *)
Theorem snapshot_never_succeeds timestamp : resolves (snapshotForensics timestamp) (fun r => r = err tt).
Proof.
  eapply resolves_bind; [apply resolves_execute|]. intros _ _.
  eapply (resolves_bind _ _ (fun _ => True)).
  { unfold checkReflinkSupport. destruct os; try by apply resolves_ret.
    eapply resolves_bind; [apply resolves_execute|]. intros r _. destruct (succeeded r); [|by apply resolves_ret].
    eapply resolves_bind; [apply resolves_execute|]. intros ? _. by apply resolves_ret. }
  intros b _. eapply (resolves_bind _ _ (fun r => succeeded r = false)).
  - destruct b; [apply resolves_refused, copy_refused; right; simpl; lia|].
    eapply resolves_bind; [apply resolves_refused, copy_refused; left; reflexivity|]. intros r ->.
    apply resolves_refused, copy_refused. left. reflexivity.
  - intros r ->. by apply resolves_ret.
Qed.

(** A generated AppArmor profile is never loaded: on Linux, whatever the
    operating system answers, [deployAppArmorProfile] ends with an error,
    because the policy of systemctl knows no reload. *)
Theorem apparmor_never_loaded name binaryPath suffix : os = linux ->
  resolves (deployAppArmorProfile name binaryPath suffix) (fun r => r = err tt).
Proof.
  intros Ho. unfold deployAppArmorProfile. rewrite Ho. cbv zeta. do 3 (eapply resolves_bind; [apply resolves_execute|]; intros ? _).
  eapply (resolves_bind _ _ (fun r => r = err tt)).
  - eapply resolves_bind; [apply resolves_execute|]. intros w _. destruct (succeeded w); [|by apply resolves_ret].
    eapply resolves_bind; [apply resolves_execute|]. intros ? _.
    eapply resolves_bind; [apply resolves_execute|]. intros c _. destruct (succeeded c); [|by apply resolves_ret].
    eapply resolves_bind; [apply resolves_refused, reload_refused|]. intros r ->. by apply resolves_ret.
  - intros o ->. eapply resolves_bind; [apply resolves_execute|]. intros ? _. by apply resolves_ret.
Qed.

(** The disguise outlives the service: [onShutdown] starts no process, because
    the policy of the helper script does not accept the name deno. *)
Theorem name_never_restored h : onShutdown h = ([], Resolved (ok tt)).
Proof.
  unfold onShutdown. destruct os; try reflexivity. destruct stealth; [|reflexivity].
  unfold bind. by rewrite execute_refused by apply restore_refused.
Qed.

(** When the sentinel does not take the list of system calls, [start]
    fails before any kernel parameter is set. *)
Theorem sentinel_gates_hardening now s h : os = linux ->
  sends h (ESend "sentinel" (LSM_SYSCALL_ALLOWLIST pid allowlist)) = Rejected tt ->
  exists fx, start now s h = (fx, Rejected tt) /\ forall p a, ESpawn p a ∉ fx.
Proof.
  intros Ho Hr. eexists. split; [|shelve]. unfold start, selfProtect. rewrite Ho. unfold sendCommand, bind, ask. rewrite Hr. reflexivity.
  Unshelve. intros p a. rewrite list_elem_of_singleton. done.
Qed.

(** *** The hardening itself *)

Definition setsParam (e : effect) : bool := match e with ESpawn p _ => bool_decide (p = js "sysctl") | _ => false end.

Definition quiet {A} (m : act A) : Prop := within (fun e => setsParam e = false) m.

Lemma quiet_filter {A} (m : act A) h fx r : quiet m -> m h = (fx, r) -> List.filter setsParam fx = [].
Proof.
  intros Hq E. specialize (Hq h). rewrite E in Hq. cbn [fst] in Hq. clear E. induction Hq as [|e fx' He Hq IH]; [done|].
  cbn [List.filter]. rewrite He. apply IH.
Qed.

Lemma quiet_send agent m : quiet (sendCommand agent m).
Proof. by apply within_ask. Qed.

Lemma harmless_execute cmd args : cmd <> js "sysctl" -> quiet (execute cmd args).
Proof.
  intros Hc. unfold execute. destruct (Executor.spawned _ _ _ _ _) as [[p a]|] eqn:E; [|apply within_ret].
  apply within_ask. cbn. apply bool_decide_eq_false. apply Executor.spawned_valid in E as (_ & _ & [[-> _]|[-> _]]); [done|].
  discriminate.
Qed.

Lemma quiet_selfProtect : quiet selfProtect.
Proof.
  unfold quiet, selfProtect, initializeQuietMode, initializeSelfEnforcement. destruct os; try apply within_ret.
  apply within_bind; [apply quiet_send|]. intros _. apply within_bind.
  - generalize trustedComms. intros l. unfold forEach. induction l as [|c l IH]; cbn [foldr]; [apply within_ret|].
    apply within_bind; [|done]. apply within_attempt, within_bind; [apply quiet_send|]. intros _. apply within_ret.
  - intros _. apply within_attempt, within_bind; [apply quiet_send|]. intros _. apply within_ret.
Qed.

Lemma quiet_camouflage : quiet camouflage.
Proof.
  unfold quiet, camouflage. destruct stealth; cbn [negb]; [|apply within_ret]. unfold pathExists.
  apply within_bind; [apply within_bind; [by apply harmless_execute|intros r; apply within_ret]|]. intros b.
  apply within_bind; [|intros r; apply within_ret]. destruct b; by apply harmless_execute.
Qed.

Lemma camouflage_resolves : resolves camouflage (fun _ => True).
Proof.
  unfold camouflage. destruct stealth; cbn [negb]; [|by apply resolves_ret].
  eapply (resolves_bind _ _ (fun _ => True)).
  { eapply resolves_bind; [apply resolves_execute|]. intros r _. by apply resolves_ret. }
  intros b _. eapply resolves_bind; [|intros r _; by apply resolves_ret]. destruct b; apply resolves_execute.
Qed.

Lemma sysctl_accepted p : In p params -> basename (js "sysctl") = js "sysctl" ->
  Executor.spawned basename JSON_parse root (js "sysctl") [js "-w"; js p] = Some (js "sysctl", [js "-w"; js p]).
Proof.
  intros Hp Hb. unfold Executor.spawned, Executor.validateArguments. rewrite Hb.
  assert (Executor.policy_of JSON_parse (js "sysctl") = Some (only SYSCTL_SCHEMA)) as -> by reflexivity.
  assert (safeParse (schema (only SYSCTL_SCHEMA)) (Some (JArr (map JStr [js "-w"; js p]))) = true) as ->.
  { cbn [schema only]. unfold SYSCTL_SCHEMA, superRefine, matching. rewrite zod_refine, zod_check, zod_array. cbn [map forallb].
    rewrite !zod_check, !zod_string. unfold params in Hp. repeat (destruct Hp as [<-|Hp]; [vm_compute; reflexivity|]). done. }
  unfold params in Hp. repeat (destruct Hp as [<-|Hp]; [vm_compute; reflexivity|]). done.
Qed.

Definition sysctlEffect (p : string) : effect := ESpawn (js "sysctl") [js "-w"; js p].

Lemma params_applied l : basename (js "sysctl") = js "sysctl" -> (forall p, In p l -> In p params) ->
  forall h, forEach l applyParam h = (map sysctlEffect l, Resolved tt).
Proof.
  intros Hb. unfold forEach. induction l as [|p l IH]; intros Hl h; [reflexivity|]. cbn [foldr map].
  unfold bind at 1. unfold applyParam at 1. unfold bind at 1, execute. rewrite (sysctl_accepted p); [|by apply Hl; left|done].
  cbn. rewrite IH; [done|]. intros q Hq. apply Hl. by right.
Qed.

(** A command to an agent whose failure is caught. *)
Lemma caught_resolved agent m h : exists fx, attempt (let! _ := sendCommand agent m in ret tt) tt h = (fx, Resolved tt).
Proof. unfold attempt, bind, sendCommand, ask. destruct (sends h _); by eexists. Qed.

Lemma quietMode_resolved l : forall h, exists fx,
  forEach l (fun c => attempt (let! _ := sendCommand "sentinel" (TRUST_COMM c) in ret tt) tt) h = (fx, Resolved tt).
Proof.
  clear. unfold forEach. induction l as [|c l IH]; intros h; cbn [foldr]; [by eexists|].
  unfold bind at 1. edestruct caught_resolved as [fx ->]. edestruct IH as [fx' ->]. by eexists.
Qed.

Lemma selfProtect_resolved h b : (forall h, sends h (ESend "sentinel" (LSM_SYSCALL_ALLOWLIST pid allowlist)) = Resolved b) ->
  exists fx, selfProtect h = (fx, Resolved tt).
Proof.
  intros Hs. unfold selfProtect. destruct os; [|by eexists..]. unfold bind at 1, sendCommand, ask. rewrite Hs.
  unfold bind at 1. edestruct quietMode_resolved as [fx E]. unfold initializeQuietMode, sendCommand, ask in *. rewrite E.
  edestruct caught_resolved as [fx' E']. unfold initializeSelfEnforcement. rewrite E'. by eexists.
Qed.

(** Every kernel parameter is set, in order and exactly once, whatever happens
    to the others: once the sentinel has taken the list of system calls, the
    sysctl commands of [start] are exactly the list of parameters; and
    whether or not a single one succeeded, the service records the time of
    the hardening and audits it as applied. *)
Theorem hardening_attempted now s h b : basename (js "sysctl") = js "sysctl" ->
  (forall h, sends h (ESend "sentinel" (LSM_SYSCALL_ALLOWLIST pid allowlist)) = Resolved b) ->
  exists fx r, start now s h = (fx, Resolved (mkKernel (Some now), r)) /\
    List.filter setsParam fx = map sysctlEffect params /\ EAudit "kernel:hardening" ∈ fx.
Proof.
  intros Hb Hs. destruct (selfProtect_resolved h b Hs) as [fx1 E1].
  destruct (camouflage_resolves (((h ++ fx1) ++ map sysctlEffect params) ++ [EAudit "kernel:hardening"])) as (fx2 & c & E2 & _).
  pose proof (quiet_filter _ _ _ _ quiet_selfProtect E1) as F1. pose proof (quiet_filter _ _ _ _ quiet_camouflage E2) as F2.
  eexists _, _. split_and!.
  - unfold start. unfold bind at 1. rewrite E1. unfold bind at 1. rewrite params_applied by done.
    unfold bind at 1, emit at 1. unfold bind at 1. rewrite E2. unfold ret. reflexivity.
  - rewrite !List.filter_app, F1, F2. reflexivity.
  - set_solver.
Qed.

(** *** The profile in the shell command *)

(** How a shell reads a word, inside or outside single quotes, up to a blank. *)
Fixpoint readWord (quoted : bool) (s : jsstr) : jsstr * jsstr :=
  match s with
  | [] => ([], [])
  | c :: s =>
      if quoted then if c =? 39 then readWord false s else let '(w, r) := readWord true s in (c :: w, r)
      else if c =? 39 then readWord true s
      else if c =? 32 then ([], s)
      else if c =? 92 then match s with [] => ([], []) | d :: s => let '(w, r) := readWord false s in (d :: w, r) end
      else let '(w, r) := readWord false s in (c :: w, r)
  end.

Lemma quoted_read p rest : readWord true (escapeQuotes p ++ [39; 32] ++ rest) = (p, rest).
Proof.
  unfold escapeQuotes. induction p as [|c p IH]; [reflexivity|]. cbn [flat_map]. rewrite <- app_assoc.
  remember (flat_map quoteUnit p ++ [39; 32] ++ rest) as t. unfold quoteUnit. destruct (c =? 39) eqn:E; cbn.
  - rewrite IH. by apply Z.eqb_eq in E as ->.
  - by rewrite E, IH.
Qed.

Lemma escaped_body p : Forall code_unit p -> lang (Star (Alt not_quote (lit "'\''"))) (escapeQuotes p).
Proof.
  induction 1 as [|c p Hc Hp IH]; [constructor|]. unfold escapeQuotes. cbn [flat_map]. apply LStarS; [|exact IH].
  unfold quoteUnit. destruct (c =? 39) eqn:E; [apply LAltR|apply LAltL, LCls].
  - apply matches_lang. vm_compute. reflexivity.
  - apply Z.eqb_neq in E. unfold code_unit in Hc. unfold in_class. cbn [existsb fst snd]. lia.
Qed.

(** [[a-zA-Z0-9._-]] *)
Definition nameUnit (c : Z) : Prop := in_class [(97, 122); (65, 90); (48, 57); (46, 46); (95, 95); (45, 45)] c = true.

(** The profile reaches its file unchanged: for an agent whose name has only
    letters, digits, dots, underscores and hyphens the policy of sh accepts
    the command that writes the profile, as it is and without sudo, and a
    shell that reads the command echoes exactly the profile, whatever the
    path of the binary contains. *)
Theorem profile_written name binaryPath suffix : basename (js "sh") = js "sh" -> Forall code_unit (profile name binaryPath) ->
  Forall nameUnit name -> Forall nameUnit suffix ->
  Executor.spawned basename JSON_parse root (js "sh") [js "-c"; writeCommand name binaryPath suffix]
    = Some (js "sh", [js "-c"; writeCommand name binaryPath suffix]) /\
  exists text, writeCommand name binaryPath suffix = js "umask 077 && echo '" ++ text /\
    readWord true text = (profile name binaryPath, js "> " ++ tempFile name suffix).
Proof.
  intros Hb Hu Hn Hs. split.
  - assert (matches isProfileWrite (writeCommand name binaryPath suffix) = true) as Hm.
    { apply matches_lang. unfold isProfileWrite, writeCommand, tempFile, secureTempDir. cbn [seqs].
      change (js "umask 077 && echo '") with (js "umask 077 && " ++ js "echo '").
      replace ((js "umask 077 && " ++ js "echo '") ++ escapeQuotes (profile name binaryPath) ++ js "' > " ++ js "/var/lib/cts/tmp" ++
        js "/cts-profile-" ++ name ++ js "-" ++ suffix ++ js ".profile")
        with (js "umask 077 && " ++ js "echo '" ++ escapeQuotes (profile name binaryPath) ++ js "' > /var/lib/cts/tmp/cts-profile-"
          ++ (name ++ js "-" ++ suffix) ++ js ".profile" ++ []).
      - apply LSeq; [apply LAltL, lang_str; reflexivity|]. apply LSeq; [by apply lang_str|].
        apply LSeq; [by apply escaped_body|]. apply LSeq; [by apply lang_str|].
        apply LSeq; [|apply LSeq; [by apply lang_str|constructor]]. apply lang_plus_intro; [by destruct name|].
        apply Forall_app. split; [exact Hn|]. apply Forall_app. split; [by repeat constructor|exact Hs].
      - change (js "' > /var/lib/cts/tmp/cts-profile-") with (js "' > " ++ js "/var/lib/cts/tmp" ++ js "/cts-profile-").
        by rewrite app_nil_r, <- !app_assoc. }
    assert (sh_args [js "-c"; writeCommand name binaryPath suffix] = true) as Ha.
    { unfold sh_args. rewrite Hm. by rewrite orb_true_r. }
    generalize dependent (writeCommand name binaryPath suffix). intros command _ Ha.
    unfold Executor.spawned, Executor.validateArguments. rewrite Hb.
    destruct (Executor.sh_policy JSON_parse) as (f & Hp & ->). rewrite Hp. cbn [schema schemaOwnsArgumentValidation blockedStrings].
    unfold superRefine, strings. rewrite zod_refine, zod_check, zod_array. cbn [map forallb]. rewrite !zod_string.
    change [JStr (js "-c"); JStr command] with (map JStr [js "-c"; command]). rewrite Executor.as_strings_map, Ha. reflexivity.
  - eexists. split; [unfold writeCommand; reflexivity|]. apply quoted_read.
Qed.
End kernel.

(** ** Concrete runs *)

#[local] Existing Instance Executor.plain_paths.

Definition works0 (_ : list effect) (_ : effect) : ExecResult := mkExec true (js "1").
Definition fails0 (_ : list effect) (_ : effect) : ExecResult := mkExec false [].
Definition taken0 (_ : list effect) (_ : effect) : settled bool unit := Resolved true.
Definition down0 (_ : list effect) (_ : effect) : settled bool unit := Rejected tt.

Definition deploy0 := deployAppArmorProfile Executor.base0 Executor.json0 true works0 linux (js "sentinel") (js "/opt/it's") (js "1f").

(** The profile is copied, never loaded, and its temporary file removed. *)
Lemma apparmor_never_loaded_witness : exists fx, deploy0 [] = (fx, Resolved (err tt)) /\
  ESpawn (js "cp") [tempFile (js "sentinel") (js "1f"); js "/etc/apparmor.d/cts-sidecar-sentinel"] ∈ fx.
Proof.
  destruct (apparmor_never_loaded Executor.base0 Executor.json0 true works0 linux (js "sentinel") (js "/opt/it's") (js "1f") eq_refl [])
    as (fx & r & E & ->). exists fx. split; [exact E|]. vm_compute in E. injection E as <-.
  apply list_elem_of_lookup. exists 4%nat. vm_compute. reflexivity.
Defined.

Lemma sentinel_gates_hardening_witness : exists fx, start Executor.base0 Executor.json0 true works0 down0 linux 7 true true None (js "t") new []
  = (fx, Rejected tt) /\ forall p a, ESpawn p a ∉ fx.
Proof. exact (sentinel_gates_hardening Executor.base0 Executor.json0 true works0 down0 linux 7 true true None (js "t") new [] eq_refl eq_refl). Defined.

Lemma hardening_attempted_witness : exists fx r,
  start Executor.base0 Executor.json0 false fails0 taken0 linux 7 true false None (js "t") new [] = (fx, Resolved (mkKernel (Some (js "t")), r)) /\
    List.filter setsParam fx = map sysctlEffect params /\ EAudit "kernel:hardening" ∈ fx.
Proof.
  apply (hardening_attempted Executor.base0 Executor.json0 false fails0 taken0 linux 7 true false None (js "t") new [] true).
  - vm_compute. reflexivity.
  - reflexivity.
Defined.

Lemma profile_written_witness : exists text, writeCommand (js "sentinel") (js "/opt/it's") (js "1f") = js "umask 077 && echo '" ++ text /\
  readWord true text = (profile (js "sentinel") (js "/opt/it's"), js "> " ++ tempFile (js "sentinel") (js "1f")).
Proof.
  apply (profile_written Executor.base0 Executor.json0 true).
  - vm_compute. reflexivity.
  - apply Forall_forall. assert (forallb (fun c => (0 <=? c) && (c <? 65536)) (profile (js "sentinel") (js "/opt/it's")) = true) as Ha
      by (vm_compute; reflexivity). rewrite forallb_forall in Ha. intros c Hc%list_elem_of_In. specialize (Ha c Hc).
    unfold code_unit. lia.
  - repeat constructor.
  - repeat constructor.
Defined.
End Kernel.
