(* ===== verification/Honeypot.v ===== *)
(** * Honeypots

    Models [src/orchestrator/domain/protection/honeypot_service.ts], class
    [HoneypotService]: the table of decoy modules, toggling, the rotation of
    ports, and what a hit makes the service do.  A call to the decoy agent or to
    the firewall is an effect with its answer ([Resolved false] is a refusal,
    [Rejected] an exception); the ports the random generator draws and what ss
    prints are in the script of a rotation.  The hit that reaches the bus is
    checked against the schemas of [EventSchema] and compared with what
    [Mediator] makes of the same message.  Log lines and metrics are left out. *)

From S2P Require Import Prelude Result JsMap JsString Regex Canonical Paths Schemas ExecPolicy Executor EventSchema Mesh Mediator.
From Stdlib Require Import QArith.
Open Scope Z_scope.

Module Honeypot.
Import JsString Schemas EventSchema.
Import Mediator(textProp, numProp, isType).

(** ** Modules *)

Record HoneypotModule := mkModule { m_id : jsstr; m_name : jsstr; port : Z; m_description : jsstr; active : bool }.

(** [modules], [hitCount] *)
Record Service := mkService { modules : list (jsstr * HoneypotModule); hitCount : nat }.

Definition with_active (b : bool) (m : HoneypotModule) : HoneypotModule := mkModule (m_id m) (m_name m) (port m) (m_description m) b.
Definition with_port (p : Z) (m : HoneypotModule) : HoneypotModule := mkModule (m_id m) (m_name m) p (m_description m) (active m).

Definition registerModule (m : HoneypotModule) (s : Service) : Service := mkService (JsMap.set (modules s) (m_id m) m) (hitCount s).

Definition decoy (id name : string) (p : Z) (desc : string) (on : bool) : HoneypotModule := mkModule (js id) (js name) p (js desc) on.

Definition defaults : list HoneypotModule :=
  [decoy "ssh" "SSH Decoy" 22 "Emulates an OpenSSH 8.2 server to capture brute-force attempts." true;
   decoy "redis" "Redis Decoy" 6379 "Emulates an unauthenticated Redis instance to detect RCE attempts." false;
   decoy "http" "Web Admin Decoy" 80 "Fake administration panel to detect web crawlers and exploit attempts." true;
   decoy "postgresql" "PostgreSQL Decoy" 5432 "Emulates an exposed PostgreSQL instance to capture credential brute-force." true;
   decoy "rdp" "RDP Decoy" 3389 "Fake Remote Desktop service to detect lateral movement attempts." true;
   decoy "vault" "HashiCorp Vault Decoy" 8200 "Fake Vault API to detect credential and secret theft attempts." true].

Definition new : Service := fold_left (fun s m => registerModule m s) defaults (mkService [] 0).

Definition getModules (s : Service) : list HoneypotModule := map snd (modules s).
Definition getModule (id : jsstr) (s : Service) : option HoneypotModule := JsMap.get (modules s) id.

(** The object in the map is changed in place. *)
Definition modify (f : HoneypotModule -> HoneypotModule) (id : jsstr) (s : Service) : Service :=
  match getModule id s with Some m => mkService (JsMap.set (modules s) id (f m)) (hitCount s) | None => s end.

(** ** Calls *)

Inductive Call :=
| CAllowPort (p : Z) | CDenyPort (p : Z) | CBlockIp (ip : jsstr) | CShadowBanIp (ip : jsstr)
| CToggleModule (id : jsstr) (on : bool) (p : Z) | CUpdateModule (id : jsstr) (old_port new_port : Z)
| CSabotage (ip : jsstr) (level mode : string) (latency_ms : Z)
| CCapture (file filter : jsstr) | CStopDecoy.

Inductive effect :=
| ECall (c : Call) (answer : settled bool unit)
| EHandlers (kind : string) (event : Json)
| EEmit (event : string) (data : Json).

Definition good (a : settled bool unit) : bool := match a with Resolved b => b | Rejected _ => false end.

(** [toggleModule(id, active)]; [None] is an exception of a port. *)
Record Toggle := mkToggle { t_firewall : settled bool unit; t_decoy : settled bool unit }.

Definition toggleModule (t : Toggle) (id : jsstr) (on : bool) (s : Service) : Service * list effect * option (Result unit unit) :=
  match getModule id s with
  | None => (s, [], Some (err tt))
  | Some m =>
      let s := modify (with_active on) id s in
      let fw := ECall (if on then CAllowPort (port m) else CDenyPort (port m)) (t_firewall t) in
      match t_firewall t with
      | Rejected _ => (s, [fw], None)
      | Resolved _ =>
          (s, [fw; ECall (CToggleModule id on (port m)) (t_decoy t)],
           match t_decoy t with Rejected _ => None | Resolved b => Some (if b then ok tt else err tt) end)
      end
  end.

(** The loop of [start]: an exception ends it. *)
Fixpoint startModules (ts : jsstr -> Toggle) (ids : list jsstr) (s : Service) : Service * list effect * bool :=
  match ids with
  | [] => (s, [], true)
  | id :: ids =>
      match getModule id s with
      | Some m =>
          if active m then
            let '(s, fx, r) := toggleModule (ts id) id true s in
            match r with
            | None => (s, fx, false)
            | Some _ => let '(s, fx', b) := startModules ts ids s in (s, fx ++ fx', b)
            end
          else startModules ts ids s
      | None => startModules ts ids s
      end
  end.

Definition start (sidecar : bool) (ts : jsstr -> Toggle) (s : Service) : Service * list effect * option (Result unit unit) :=
  if negb sidecar then (s, [], Some (err tt))
  else let '(s, fx, b) := startModules ts (map fst (modules s)) s in (s, fx, if b then Some (ok tt) else None).

Definition onShutdown : list effect := [ECall CStopDecoy (Resolved true)].

(** ** Rotation of the ports *)

Definition protectedPorts : list Z := [8000; 8001; 8002].
Definition camouflagePorts : list Z := [111; 515; 1024; 2049; 4000; 5000; 9000].
Definition MAX_PORT_SELECTION_ATTEMPTS : nat := 50.

(** A draw: [secureRandomBool()], the index into the camouflage ports,
    [secureRandomInt(1024, 65535)]. *)
Record Draw := mkDraw { useCamouflage : bool; camouflage : nat; random : Z }.

Definition newPort (d : Draw) : Z := if useCamouflage d then default 111 (camouflagePorts !! camouflage d) else random d.

Definition acceptable (s : Service) (p : Z) : bool :=
  negb (bool_decide (p ∈ protectedPorts)) && negb (existsb (fun m => port m =? p) (getModules s)).

(** The do-while loop: [draws] are its draws, [unused] whether ss printed
    nothing. *)
Fixpoint select (fuel : nat) (draws : nat -> Draw) (unused : nat -> bool) (i : nat) (s : Service) : option Z :=
  match fuel with
  | O => None
  | S fuel =>
      let p := newPort (draws i) in
      if acceptable s p && unused i then Some p else select fuel draws unused (S i) s
  end.

Record Script := mkScript {
  draws : nat -> Draw; unused : nat -> bool;
  updated : settled bool unit; allowed : settled bool unit; denied : settled bool unit; rolledBack : settled bool unit }.

(** One iteration of [morph]; the last value tells whether the loop goes on. *)
Definition rotate (sc : Script) (id : jsstr) (s : Service) : Service * list effect * bool :=
  match getModule id s with
  | None => (s, [], true)
  | Some m =>
      if negb (active m) then (s, [], true)
      else
        match select MAX_PORT_SELECTION_ATTEMPTS (draws sc) (unused sc) 0 s with
        | None => (s, [], true)
        | Some p =>
            let update := ECall (CUpdateModule id (port m) p) (updated sc) in
            match updated sc with
            | Rejected _ => (s, [update], false)
            | Resolved false => (s, [update], true)
            | Resolved true =>
                let allow := ECall (CAllowPort p) (allowed sc) in
                match allowed sc with
                | Rejected _ => (s, [update; allow], false)
                | Resolved true =>
                    (modify (with_port p) id s, [update; allow; ECall (CDenyPort (port m)) (denied sc)],
                     match denied sc with Rejected _ => false | Resolved _ => true end)
                | Resolved false =>
                    (s, [update; allow; ECall (CUpdateModule id p (port m)) (rolledBack sc)],
                     match rolledBack sc with Rejected _ => false | Resolved _ => true end)
                end
            end
        end
  end.

Fixpoint morphAll (scs : jsstr -> Script) (ids : list jsstr) (s : Service) : Service * list effect * bool :=
  match ids with
  | [] => (s, [], true)
  | id :: ids =>
      let '(s, fx, b) := rotate (scs id) id s in
      if b then let '(s, fx', b) := morphAll scs ids s in (s, fx ++ fx', b) else (s, fx, false)
  end.

Definition activeIds (s : Service) : list jsstr := map fst (List.filter (fun e => active e.2) (modules s)).

Definition morph (scs : jsstr -> Script) (s : Service) : Service * list effect * bool := morphAll scs (activeIds s) s.

(** ** Hits *)

Definition MAX_SESSION_BYTES : nat := Z.to_nat 16384.

Definition truncate (d : jsstr) : jsstr :=
  if (MAX_SESSION_BYTES <? length d)%nat then take MAX_SESSION_BYTES d ++ js "... [TRUNCATED]" else d.

(** [source_ip.replace(/[\.:]/g, '_')] *)
Definition safeIp (ip : jsstr) : jsstr := map (fun c => if (c =? 46) || (c =? 58) then 95 else c) ip.

Definition sabotage (ip : jsstr) (level : string) (errors : bool) (a : settled bool unit) : list effect * option (Result unit unit) :=
  let '(mode, latency) :=
    if bool_decide (level = "CRITICAL"%string) then ("DYNAMIC"%string, 5000)
    else if errors then ("ERRORS"%string, 2000) else ("JITTER"%string, 2000) in
  ([ECall (CSabotage ip level mode latency) a], match a with Rejected _ => None | Resolved b => Some (if b then ok tt else err tt) end).

Section hits.
(** [Number] of a text and of a number's text, [Date.now()] as a text, [String]
    of a value. *)
Context (Number : jsstr -> option Q) (stamp : jsstr) (toText : option Json -> jsstr).

Definition sourceOf (payload : Json) : jsstr :=
  match textProp payload "source_ip" with
  | Some ip => ip
  | None => default (js "unknown") (textProp payload "ip")
  end.

Definition portOf (payload : Json) : Json :=
  match prop payload "port" with Some (JNum q) => JNum q | Some (JStr s) => JStr s | _ => JStr (js "unknown") end.

Definition moduleAt (p : Json) (s : Service) : option HoneypotModule :=
  let n := match p with JNum q => Some q | JStr t => Number t | _ => None end in
  match n with None => None | Some q => List.find (fun m => Qeq_bool (inject_Z (port m)) q) (getModules s) end.

Definition hitEvent (payload : Json) (s : Service) : Json :=
  JObj ([("type", JStr (js "PortAccess")); ("source_ip", JStr (sourceOf payload)); ("port", portOf payload)]%string
        ++ match moduleAt (portOf payload) s with Some m => [("module"%string, JStr (m_id m))] | None => [] end).

Definition accessEvent (payload : Json) : Json :=
  JObj [("type", JStr (js "PortAccess")); ("source_ip", JStr (sourceOf payload)); ("port", portOf payload)]%string.

Definition capture (prefix : string) (ip : jsstr) (a : settled bool unit) : effect :=
  ECall (CCapture (js prefix ++ safeIp ip ++ js "_" ++ stamp ++ js ".pcap") (js "host " ++ ip)) a.

(** [handleEvent(event)]; [bus] tells whether there is a bus. *)
Definition handleEvent (bus errors : bool) (captured : settled bool unit) (event : Json) (s : Service) : Service * list effect :=
  match prop event "data" with
  | Some payload =>
      if isType payload "PortAccess" then
        let ip := sourceOf payload in
        (mkService (modules s) (S (hitCount s)),
         [EHandlers "PortAccess" (accessEvent payload)]
         ++ (if bus then [EEmit "UI_BROADCAST" (accessEvent payload); EEmit "HONEYPOT" (hitEvent payload s)]
             else ECall (CShadowBanIp ip) (Resolved true) :: (sabotage ip "HIGH" errors (Resolved true)).1)
         ++ [capture "honeypot_hit_" ip captured])
      else if isType payload "SessionData" then
        (s, [EHandlers "SessionData" (JObj [("type", JStr (js "SessionData")); ("data", JStr (truncate (toText (prop payload "data"))))]%string)])
      else (s, [])
  | None => (s, [])
  end.

(** [onWebTrigger(route, source_ip)]: the first exception ends it. *)
Definition onWebTrigger (bus errors : bool) (blocked captured sabotaged : settled bool unit) (route ip : jsstr) (s : Service)
    : Service * list effect * option (Result unit unit) :=
  let s := mkService (modules s) (S (hitCount s)) in
  let pre := EHandlers "WebAccess" (JObj [("route", JStr route); ("source_ip", JStr ip)]%string)
             :: (if bus then [EEmit "UI_BROADCAST" (JObj [("route", JStr route); ("source_ip", JStr ip)]%string)] else [])
             ++ [ECall (CBlockIp ip) blocked] in
  match blocked with
  | Rejected _ => (s, pre, None)
  | Resolved _ =>
      let pre := pre ++ [capture "web_decoy_" ip captured] in
      match captured with
      | Rejected _ => (s, pre, None)
      | Resolved _ => let '(fx, r) := sabotage ip "HIGH" errors sabotaged in (s, pre ++ fx, r)
      end
  end.

(** ** Runs *)

Inductive input :=
| IToggle (t : Toggle) (id : jsstr) (on : bool)
| IRotate (sc : Script) (id : jsstr)
| IEvent (bus errors : bool) (captured : settled bool unit) (event : Json)
| IWeb (bus errors : bool) (blocked captured sabotaged : settled bool unit) (route ip : jsstr).

Definition step (s : Service) (i : input) : Service :=
  match i with
  | IToggle t id on => (toggleModule t id on s).1.1
  | IRotate sc id => (rotate sc id s).1.1
  | IEvent bus errors captured event => (handleEvent bus errors captured event s).1
  | IWeb bus errors blocked captured sabotaged route ip => (onWebTrigger bus errors blocked captured sabotaged route ip s).1.1
  end.

Definition run (s : Service) (ins : list input) : Service := fold_left step ins s.

(** The range of [secureRandomInt(1024, 65535)]. *)
Definition draws_ok (i : input) : Prop :=
  match i with IRotate sc _ => forall k, 1024 <= random (draws sc k) <= 65535 | _ => True end.
End hits.

(** ** Ports *)

Definition port_ok (p : Z) : Prop := 1 <= p <= 65535 /\ p ∉ protectedPorts.

Record ports_ok (s : Service) : Prop := mkPortsOk {
  each_ok id m : getModule id s = Some m -> port_ok (port m);
  all_distinct i j m m' : getModule i s = Some m -> getModule j s = Some m' -> port m = port m' -> i = j }.

Lemma get_modify f id s m k : getModule id s = Some m ->
  getModule k (modify f id s) = if decide (id = k) then Some (f m) else getModule k s.
Proof.
  intros E. unfold modify. rewrite E. unfold getModule. cbn [modules]. case_decide as Ek; [subst k; apply JsMap.get_set_eq|].
  by apply JsMap.get_set_ne.
Qed.

Lemma modify_ok f id s : (forall m, port (f m) = port m) -> ports_ok s -> ports_ok (modify f id s).
Proof.
  intros Hf [He Hd]. destruct (getModule id s) as [m|] eqn:E; [|by unfold modify; rewrite E].
  constructor.
  - intros k n. rewrite (get_modify _ _ _ m) by done. case_decide as Ek; intros Hn; [|by eauto].
    injection Hn as <-. rewrite Hf. eauto.
  - intros i j n n'. rewrite !(get_modify _ _ _ m) by done. case_decide as Ei; case_decide as Ej; intros Hn Hn'; subst; [done|..];
      simplify_eq; rewrite ?Hf; eauto.
Qed.

Lemma acceptable_fresh s p : acceptable s p = true -> p ∉ protectedPorts /\ forall id m, getModule id s = Some m -> port m <> p.
Proof.
  unfold acceptable. intros [Hp Hx]%andb_true_iff. apply negb_true_iff, bool_decide_eq_false in Hp. split; [done|].
  intros id m Hm Heq. apply negb_true_iff in Hx. rewrite <- not_true_iff_false in Hx. apply Hx, existsb_exists. exists m.
  split; [|by apply Z.eqb_eq]. apply JsMap.get_Some_elem in Hm. apply in_map_iff. exists (id, m). split; [done|].
  by apply list_elem_of_In.
Qed.

Lemma select_fresh fuel ds un s p : (forall k, 1024 <= random (ds k) <= 65535) -> forall i,
  select fuel ds un i s = Some p -> port_ok p /\ forall id m, getModule id s = Some m -> port m <> p.
Proof.
  intros Hr. induction fuel as [|fuel IH]; intros i; [done|]. cbn [select].
  destruct (acceptable s (newPort (ds i)) && un i) eqn:E; [|apply IH]. intros [= <-]. apply andb_true_iff in E as [Ha _].
  destruct (acceptable_fresh _ _ Ha) as [Hp Hf]. split; [split; [|done]|done]. unfold newPort. destruct (useCamouflage (ds i)).
  - destruct (camouflagePorts !! camouflage (ds i)) as [q|] eqn:Eq; simpl; [|lia].
    assert (Forall (fun p => 1 <= p <= 65535) camouflagePorts) as Hall by (repeat constructor; lia).
    rewrite Forall_lookup in Hall. eauto.
  - specialize (Hr i). lia.
Qed.

Lemma move_port_ok p id s : port_ok p -> (forall k m, getModule k s = Some m -> port m <> p) -> ports_ok s -> ports_ok (modify (with_port p) id s).
Proof.
  intros Hp Hf [He Hd]. destruct (getModule id s) as [m|] eqn:E; [|by unfold modify; rewrite E].
  constructor.
  - intros k n. rewrite (get_modify _ _ _ m) by done. case_decide as Ek; intros Hn; [|by eauto]. by injection Hn as <-.
  - intros i j n n'. rewrite !(get_modify _ _ _ m) by done. case_decide as Ei; case_decide as Ej; intros Hn Hn'; subst; simplify_eq;
      [done|..]; cbn [port with_port]; intros Heq; [destruct (Hf _ _ Hn'); done|destruct (Hf _ _ Hn); done|eauto].
Qed.

Lemma rotate_ok sc id s : (forall k, 1024 <= random (draws sc k) <= 65535) -> ports_ok s -> ports_ok (rotate sc id s).1.1.
Proof.
  intros Hr Ho. unfold rotate. destruct (getModule id s) as [m|]; [|done]. destruct (active m); [|done]. cbn [negb].
  destruct (select _ _ _ _ _) as [p|] eqn:E; [|done]. apply select_fresh in E as [Hp Hf]; [|done].
  destruct (updated sc) as [[]|]; [|done..]. destruct (allowed sc) as [[]|]; [|done..]. by apply move_port_ok.
Qed.

Lemma toggle_ok t id on s : ports_ok s -> ports_ok (toggleModule t id on s).1.1.
Proof.
  intros Ho. unfold toggleModule. destruct (getModule id s) as [m|]; [|done]. destruct (t_firewall t); by apply modify_ok.
Qed.

Lemma web_modules stamp bus errors b c d route ip s : modules (onWebTrigger stamp bus errors b c d route ip s).1.1 = modules s.
Proof.
  unfold onWebTrigger. destruct b; [|done]. destruct c; [|done]. by destruct (sabotage ip "HIGH" errors d).
Qed.

Lemma event_modules Number stamp toText bus errors c e s : modules (handleEvent Number stamp toText bus errors c e s).1 = modules s.
Proof. unfold handleEvent. destruct (prop e "data") as [p|]; [|done]. by repeat case_bool_step. Qed.

Lemma ports_ok_modules s s' : modules s' = modules s -> ports_ok s -> ports_ok s'.
Proof. intros E [He Hd]. constructor; unfold getModule; rewrite E; [apply He|apply Hd]. Qed.

Lemma defaults_ok : ports_ok new.
Proof.
  assert (forall id m, getModule id new = Some m -> (id, port m) ∈ map (fun m => (m_id m, port m)) defaults) as Hin.
  { intros id m Hm%JsMap.get_Some_elem. apply list_elem_of_In in Hm. vm_compute in Hm.
    repeat (destruct Hm as [Hm|Hm]; [injection Hm as <- <-; apply list_elem_of_In; vm_compute; tauto|]). done. }
  assert (forallb (fun e => (1 <=? e.2) && (e.2 <=? 65535) && bool_decide (e.2 ∉ protectedPorts))
    (map (fun m => (m_id m, port m)) defaults) = true) as Hok by (vm_compute; reflexivity).
  rewrite forallb_forall in Hok. constructor.
  - intros id m Hm%Hin%list_elem_of_In%Hok. apply andb_true_iff in Hm as [Hr Hp]. apply bool_decide_eq_true in Hp.
    split; [cbn [snd] in Hr; lia|done].
  - intros i j m m' Hm%Hin Hm'%Hin Heq. rewrite <- Heq in Hm'. apply list_elem_of_In in Hm, Hm'.
    generalize dependent (port m). intros q Hm Hm'. vm_compute in Hm, Hm'.
    repeat (destruct Hm as [Hm|Hm]; [injection Hm as <- <-; repeat (destruct Hm' as [Hm'|Hm']; [by injection Hm'|]); done|]). done.
Qed.

(** Over any sequence of toggles, rotations and hits, whatever the decoy
    agent, the firewall and ss answer, no two decoys share a port, every port
    is a valid one, and none of the orchestrator's own ports is ever taken. *)
Theorem decoy_ports_safe Number stamp toText ins : Forall draws_ok ins -> ports_ok (run Number stamp toText new ins).
Proof.
  intros Hd. unfold run. assert (ports_ok new) as Ho by apply defaults_ok. revert Ho. generalize new. induction Hd as [|i ins Hi Hd IH]; intros s Ho; [done|].
  cbn [fold_left]. apply IH. destruct i; cbn [step].
  - by apply toggle_ok.
  - by apply rotate_ok.
  - eapply ports_ok_modules; [apply event_modules|done].
  - eapply ports_ok_modules; [apply web_modules|done].
Qed.

(** ** What the agent and the firewall hold *)

Record World := mkWorld { opened : list Z; listening : list (jsstr * Z) }.

(** A call that was answered with success has taken effect, another has not. *)
Definition happen (w : World) (e : effect) : World :=
  match e with
  | ECall c a =>
      if good a then
        match c with
        | CAllowPort p => mkWorld (p :: opened w) (listening w)
        | CDenyPort p => mkWorld (List.filter (fun q => negb (q =? p)) (opened w)) (listening w)
        | CUpdateModule id _ p => mkWorld (opened w) (JsMap.set (listening w) id p)
        | CToggleModule id true p => mkWorld (opened w) (JsMap.set (listening w) id p)
        | CToggleModule id false _ => mkWorld (opened w) (JsMap.delete (listening w) id)
        | _ => w
        end
      else w
  | _ => w
  end.

Definition reachable (w : World) (id : jsstr) (p : Z) : Prop := p ∈ opened w /\ JsMap.get (listening w) id = Some p.

Lemma allow_kept w p q : q ∈ opened w -> q <> p -> q ∈ List.filter (fun x => negb (x =? p)) (opened w).
Proof. intros Hq Hne. apply list_elem_of_In, filter_In. split; [by apply list_elem_of_In|]. apply negb_true_iff. by apply Z.eqb_neq. Qed.

(** A rotation never loses a decoy: if the port of the module is open and
    listened to before, then its port, the new one or the old one, is open
    and listened to afterwards, whatever fails on the way, as long as the
    agent takes back the new port where the firewall refuses it. *)
Theorem rotation_keeps_decoy sc id s w m : (forall k, 1024 <= random (draws sc k) <= 65535) ->
  getModule id s = Some m -> reachable w id (port m) ->
  (updated sc = Resolved true -> allowed sc <> Resolved true -> allowed sc = Resolved false /\ rolledBack sc = Resolved true) ->
  let '(s', fx, _) := rotate sc id s in exists m', getModule id s' = Some m' /\ reachable (fold_left happen fx w) id (port m').
Proof.
  intros Hr Hm [Ho Hl] Hback. unfold rotate. rewrite Hm. destruct (active m); cbn [negb]; [|by exists m].
  destruct (select _ _ _ _ _) as [p|] eqn:E; [|by exists m]. apply select_fresh in E as [_ Hf]; [|done].
  specialize (Hf _ _ Hm). destruct (updated sc) as [[]|u]; [|by exists m..].
  destruct (allowed sc) as [[]|]; [|..].
  - exists (with_port p m). rewrite (get_modify _ _ _ m), decide_True by done. split; [done|]. unfold reachable.
    destruct (denied sc) as [[]|]; cbn; (split; [|apply JsMap.get_set_eq]); [|by left..].
    destruct (p =? port m) eqn:Ep; [apply Z.eqb_eq in Ep; congruence|]. by left.
  - destruct (Hback eq_refl ltac:(done)) as [_ Hrb]. rewrite Hrb. exists m. split; [done|]. cbn. split; [done|apply JsMap.get_set_eq].
  - destruct (Hback eq_refl ltac:(done)) as [? _]. done.
Qed.

(** ** Hits *)

Section events.
Context `{Zod} `{!ZodParse} (Number : jsstr -> option Q) (stamp : jsstr) (toText : option Json -> jsstr).

Definition honeypotFields : list (string * Schema) :=
  texts ["type"; "source_ip"]%string ++ [("port"%string, opt (union [isNumber; isText]))] ++ optTexts ["module"; "severity"; "correlationId"]%string.

Lemma honeypot_accepts kvs t ip p : assoc kvs "type" = Some (JStr t) -> assoc kvs "source_ip" = Some (JStr ip) ->
  assoc kvs "port" = Some p -> isNumber p || isText p = true -> (assoc kvs "module" = None \/ exists m, assoc kvs "module" = Some (JStr m)) ->
  assoc kvs "severity" = None -> assoc kvs "correlationId" = None -> safeParse (ZObject honeypotFields) (Some (JObj kvs)) = true.
Proof.
  intros Ht Hi Hp Hok Hm Hs Hc. rewrite zod_object. unfold honeypotFields, texts, optTexts, opt. cbn [map app forallb fst snd].
  rewrite Ht, Hi, Hp, Hs, Hc, !zod_optional, !zod_string. unfold union. rewrite zod_refine, zod_unknown. cbn [existsb].
  rewrite orb_false_r, Hok. by destruct Hm as [->|[m ->]].
Qed.

Lemma port_scalar payload : isNumber (portOf payload) || isText (portOf payload) = true.
Proof. unfold portOf. by destruct (prop payload "port") as [[]|]. Qed.

Lemma hit_valid payload s : exists d, validateEvent "HONEYPOT" (hitEvent Number payload s) = Some d.
Proof.
  unfold validateEvent. change (schemaIn SystemEventRegistry "HONEYPOT") with (Some (Strip (ZObject honeypotFields))).
  apply parse_some. unfold hitEvent. apply (honeypot_accepts _ (js "PortAccess") (sourceOf payload) (portOf payload));
    try reflexivity; [apply port_scalar|..]; destruct (moduleAt _ _ _) as [m|]; try reflexivity; [right; by eexists|by left].
Qed.

(** One access to a decoy is reported twice: for a message that says which
    address touched which port, [HoneypotService] publishes a HONEYPOT event
    that passes validation, and the mediator, which listens to the same
    agent, publishes another one. *)
Theorem hits_reported_twice errors captured response payload ip s :
  isObject response = true -> prop response "data" = Some payload -> isType payload "PortAccess" = true ->
  textProp payload "source_ip" = Some ip ->
  (exists d d', EEmit "HONEYPOT" d ∈ (handleEvent Number stamp toText true errors captured response s).2 /\ validateEvent "HONEYPOT" d = Some d' /\
     textProp d "source_ip" = Some ip) /\
  Mediator.EEmit "HONEYPOT" payload ∈ Mediator.decoyHandle response.
Proof.
  intros Ho Hd Ht Hip. split.
  - destruct (hit_valid payload s) as [d' Hv]. exists (hitEvent Number payload s), d'. split_and!; [|done|].
    + unfold handleEvent. rewrite Hd, Ht. cbn [snd]. set_solver.
    + unfold hitEvent, sourceOf. by rewrite Hip.
  - unfold Mediator.decoyHandle, Mediator.unpackSidecar. destruct response; try done. cbn [Mediator.isObjectLike].
    rewrite Hd. unfold isType in Ht. apply bool_decide_eq_true in Ht. destruct payload; try done. rewrite Ht, Hip. set_solver.
Qed.
End events.

(** A refused toggle is kept: the module is recorded as active, and its port
    is open, although the agent did not start it. *)
Theorem refused_toggle_kept id s m : getModule id s = Some m ->
  let '(s', fx, r) := toggleModule (mkToggle (Resolved true) (Resolved false)) id true s in
  r = Some (err tt) /\ option_map active (getModule id s') = Some true /\ port m ∈ opened (fold_left happen fx (mkWorld [] [])).
Proof.
  intros Hm. unfold toggleModule. rewrite Hm. cbn. rewrite (get_modify _ _ _ m), decide_True by done. split_and!; [done..|]. by left.
Qed.

Lemma transcript_bounded d : (length (truncate d) <= MAX_SESSION_BYTES + 15)%nat.
Proof.
  unfold truncate. case_bool_step; [|apply Nat.ltb_ge in Heqb; lia]. rewrite length_app, length_take. change (length (js "... [TRUNCATED]")) with 15%nat. lia.
Qed.

(** The command that looks for a listener passes the policy of ss. *)
Lemma probe_accepted `{Paths.StdPath} `{Zod} JSON_parse root p : Executor.spawned (fun c => c) JSON_parse root (js "ss") [js "-Hlnt"; js "sport = :" ++ decimal p]
  = Some (js "ss", [js "-Hlnt"; js "sport = :" ++ decimal p]).
Proof.
  unfold Executor.spawned, Executor.validateArguments.
  change (Executor.policy_of JSON_parse (js "ss")) with (Some (ExecPolicy.only ExecPolicy.SS_SCHEMA)).
  assert (Regex.matches (Regex.Alt (Regex.Seq (Regex.opt (Regex.lit "-")) (Regex.plus (ExecPolicy.cls "tulnpaH")))
    (Regex.Seq (Regex.lit "sport = :") (Regex.plus (ExecPolicy.cls "0-9")))) (js "sport = :" ++ decimal p) = true) as Hm.
  { apply Regex.matches_lang, Regex.LAltR, Regex.LSeq; [by apply Regex.lang_str|]. destruct (CanonicalInt.decimal_head p) as (c & t & E & _).
    apply Regex.lang_plus_intro; [by rewrite E|]. eapply Forall_impl; [apply Mesh.decimal_digits|]. intros d Hd. unfold is_digit in Hd.
    change (Regex.in_class [(48, 57)] d = true). unfold Regex.in_class. cbn [existsb fst snd]. lia. }
  assert (Forall (fun c => c ∉ Executor.META) (js "sport = :" ++ decimal p)) as Hc.
  { apply Forall_app. split; [apply Executor.contains_false; reflexivity|]. eapply Forall_impl; [apply Mesh.decimal_digits|].
    intros d Hd Hin. unfold is_digit in Hd. unfold Executor.META in Hin. apply list_elem_of_In in Hin. cbn in Hin. lia. }
  apply Executor.contains_false in Hc. generalize dependent (js "sport = :" ++ decimal p). intros a Hm Hc.
  cbn [ExecPolicy.schema ExecPolicy.only]. unfold ExecPolicy.SS_SCHEMA, ExecPolicy.superRefine, ExecPolicy.strings.
  rewrite zod_refine, zod_check, zod_array, Executor.as_strings_map. cbn [forallb map]. rewrite Hm, !zod_string.
  unfold Executor.validateEach, Executor.validateArgument. cbn [ExecPolicy.blockedStrings ExecPolicy.schemaOwnsArgumentValidation ExecPolicy.only find].
  rewrite Hc. rewrite !andb_false_r. vm_compute. by destruct root.
Qed.

(** ** Concrete runs *)

Definition yes0 : settled bool unit := Resolved true.
Definition no0 : settled bool unit := Resolved false.
(** The first draw is a protected port, the second a free one. *)
Definition draws0 (i : nat) : Draw := mkDraw false 0 (if (i =? 0)%nat then 8000 else 40000).
Definition moves0 : Script := mkScript draws0 (fun _ => true) yes0 yes0 yes0 yes0.
Definition blocked0 : Script := mkScript draws0 (fun _ => true) yes0 no0 yes0 yes0.

Lemma draws0_range k : 1024 <= random (draws0 k) <= 65535.
Proof. unfold draws0. cbn. destruct (k =? 0)%nat; lia. Qed.

Lemma decoy_ports_safe_witness : let s := run (fun _ => None) [] (fun _ => []) new [IRotate moves0 (js "ssh"); IRotate blocked0 (js "http")] in
  ports_ok s /\ option_map port (getModule (js "ssh") s) = Some 40000 /\ option_map port (getModule (js "http") s) = Some 80.
Proof.
  split_and!; [|vm_compute; reflexivity..]. apply decoy_ports_safe. constructor; [|constructor; [|constructor]]; intros k; apply draws0_range.
Defined.

Lemma rotation_keeps_decoy_witness : let '(s', fx, _) := rotate blocked0 (js "ssh") new in
  exists m', getModule (js "ssh") s' = Some m' /\ reachable (fold_left happen fx (mkWorld [22] [(js "ssh", 22)])) (js "ssh") (port m').
Proof.
  apply (rotation_keeps_decoy blocked0 (js "ssh") new (mkWorld [22] [(js "ssh", 22)])
    (decoy "ssh" "SSH Decoy" 22 "Emulates an OpenSSH 8.2 server to capture brute-force attempts." true)).
  - apply draws0_range.
  - vm_compute. reflexivity.
  - split; [by left|]. vm_compute. reflexivity.
  - intros _ _. done.
Defined.

Definition hit0 : Json := JObj [("type", JStr (js "PortAccess")); ("source_ip", JStr (js "6.6.6.6")); ("port", JNum (inject_Z 22))]%string.

Lemma hits_reported_twice_witness : Mediator.EEmit "HONEYPOT" hit0 ∈ Mediator.decoyHandle (JObj [("data"%string, hit0)]).
Proof.
  apply (hits_reported_twice (fun _ => None) [] (fun _ => []) false yes0 (JObj [("data"%string, hit0)]) hit0 (js "6.6.6.6") new); vm_compute; reflexivity.
Defined.

Lemma refused_toggle_kept_witness : let '(s', fx, r) := toggleModule (mkToggle (Resolved true) (Resolved false)) (js "redis") true new in
  r = Some (err tt) /\ option_map active (getModule (js "redis") s') = Some true /\ 6379 ∈ opened (fold_left happen fx (mkWorld [] [])).
Proof.
  apply (refused_toggle_kept (js "redis") new
    (decoy "redis" "Redis Decoy" 6379 "Emulates an unauthenticated Redis instance to detect RCE attempts." false)). vm_compute. reflexivity.
Defined.
End Honeypot.
