(* ===== verification/Intel.v ===== *)
(** * Curated intelligence

    Models [src/orchestrator/domain/analysis/curated_intel_service.ts], class
    [CuratedIntelService]: reading the feeds, scoring and storing indicators,
    isolating addresses and releasing them, and the queries.  The feeds are
    processed concurrently, so a feed is a task that is advanced piece by
    piece between its awaits ([advance]), interleaved with the other tasks, the
    life cycle of the isolations, expiry in the store and the operator's calls.
    Scores are rationals; a date is a text the caller supplies; what GeoIP
    answers and the order in which the store lists its keys are parameters.
    The fetches with their breaker, log lines and messages to the user
    interface are left out. *)

From S2P Require Import Prelude JsSet JsMap JsString JsSort Regex Net Cidr Firewall.
From Stdlib Require Import QArith Qminmax.
Open Scope Z_scope.

Module Intel.
Import JsString.

(** ** Data *)

Inductive Kind := IP | URL | DOMAIN | HASH.

#[export] Instance Kind_eq_dec : EqDecision Kind.
Proof. solve_decision. Defined.

Record Geo := mkGeo { country : jsstr; isp : jsstr; asn : jsstr; isBulletproof : bool; lat : option Q; lon : option Q }.

(** What GeoIP answers; a missing field is not of the type the code tests. *)
Record Candidate := mkCandidate {
  c_country : option jsstr; c_isp : option jsstr; c_asn : option jsstr; c_bulletproof : option bool; c_lat : option Q; c_lon : option Q }.

Record IntelIndicator := mkIndicator {
  indicator : jsstr; kind : Kind; provider : string; confidence : Q; threatType : jsstr;
  firstSeen : jsstr; lastSeen : jsstr; score : Q; ttl : Z; geo : option Geo }.

Record Enforcement := mkEnforcement { reason : jsstr; expiresAt : Z; committedAt : Z }.

Record Source := mkSource { s_name : string; s_url : string; s_kind : Kind }.

Definition SOURCE_WEIGHTS : list (string * Z) :=
  [("Abuse.ch", 95); ("MalwareBazaar", 98); ("URLhaus", 95); ("GreenSnow", 90); ("TorExitNodes", 80); ("CISA_KEV", 99);
   ("Spamhaus", 98); ("FireHOL_L1", 85); ("FireHOL_L2", 60); ("AlienVault", 50); ("EmergingThreats", 80); ("OpenPhish", 90);
   ("BinaryDefense", 85); ("TalosIntelligence", 90)]%string.

Definition weightOf (name : string) : Z := default 50 (snd <$> List.find (fun e => bool_decide (e.1 = name)) SOURCE_WEIGHTS).

Definition sources : list Source :=
  [mkSource "Abuse.ch" "https://feodotracker.abuse.ch/downloads/ipblocklist.csv" IP;
   mkSource "MalwareBazaar" "https://bazaar.abuse.ch/export/csv/recent/" HASH;
   mkSource "URLhaus" "https://urlhaus.abuse.ch/downloads/csv_recent/" URL;
   mkSource "GreenSnow" "https://blocklist.greensnow.co/greensnow.txt" IP;
   mkSource "TorExitNodes" "https://check.torproject.org/torbulkexitlist" IP;
   mkSource "BinaryDefense" "https://www.binarydefense.com/banlist.txt" IP;
   mkSource "OpenPhish" "https://openphish.com/feed.txt" URL;
   mkSource "EmergingThreats" "https://rules.emergingthreats.net/fwrules/emerging-Block-IPs.txt" IP;
   mkSource "TalosIntelligence" "https://www.talosintelligence.com/documents/ip-blacklist" IP;
   mkSource "FireHOL_L1" "https://raw.githubusercontent.com/firehol/blocklist-ipsets/master/firehol_level1.netset" IP;
   mkSource "FireHOL_L2" "https://raw.githubusercontent.com/firehol/blocklist-ipsets/master/firehol_level2.netset" IP;
   mkSource "AlienVault" "https://reputation.alienvault.com/reputation.data" IP;
   mkSource "Spamhaus" "https://www.spamhaus.org/drop/drop.txt" IP].

(** ** Reading a feed *)

(** [.replace(/QUOTE/g, "")] *)
Definition unquoted (s : jsstr) : jsstr := List.filter (fun c => negb (c =? 34)) s.

Definition sha256Text (s : jsstr) : bool := (length s =? 64)%nat && forallb is_hex s.

Definition isFeed (src : Source) (name : string) : bool := bool_decide (s_name src = name).

(** The indicator and the type of threat of a line; no value skips it. *)
Definition parseLine (src : Source) (line : jsstr) : option (jsstr * jsstr) :=
  if bool_decide (line = []) || startsWith line (js "#") || (length line <? 5)%nat then None
  else
    let commas := split line (js ",") in
    if isFeed src "Abuse.ch" then
      Some (match commas with _ :: i :: _ => unquoted i | _ => Cidr.trim line end, js "Malicious Infrastructure")
    else if isFeed src "URLhaus" then
      Some (match commas with
            | _ :: _ :: i :: _ => (Cidr.trim (unquoted i), js "Malware Distribution URL")
            | _ => (Cidr.trim line, js "Malicious Infrastructure")
            end)
    else if isFeed src "MalwareBazaar" then
      match split line (js ", ") with
      | _ :: i :: _ :: _ :: _ :: _ :: _ :: _ :: family :: _ =>
          let i := Cidr.trim (unquoted i) in
          let family := Cidr.trim (unquoted family) in
          if sha256Text i then Some (i, if bool_decide (family = js "n/a") then js "Unknown Malware" else family) else None
      | _ => None
      end
    else Some (Cidr.trim line, js "Malicious Infrastructure").

(** [INTEL_ALLOWLIST] *)
Definition readAllowlist (text : jsstr) : list jsstr :=
  List.filter (fun i => negb (bool_decide (i = []))) (map Cidr.trim (split text (js ","))).

Definition allowed (allowlist : list jsstr) (i : jsstr) : bool := existsb (fun a => startsWith i a) allowlist.

(** ** State *)

(** Where the processing of a feed stands: at a line, after the lookup, after
    the firewall was asked, before the record is stored. *)
Inductive Phase :=
| AtLine
| Looked (i threat : jsstr) (existing : option IntelIndicator)
| Isolating (cur : IntelIndicator) (e : Enforcement) (i : jsstr)
| Storing (cur : IntelIndicator) (i : jsstr).

Record Task := mkTask { t_source : Source; t_lines : list jsstr; consecutiveExisting : nat; ingestCount : nat; phase : Phase }.

Record Service := mkService {
  allowlist : list jsstr; blacklist : list jsstr; stats : list (string * nat);
  threats : list (jsstr * IntelIndicator);                 (* curated_threats *)
  byType : list ((Kind * jsstr) * IntelIndicator);         (* curated_threats_by_type *)
  enforcement : list (jsstr * Enforcement);
  tasks : list Task }.

Definition new (allow : jsstr) : Service := mkService (readAllowlist allow) [] [] [] [] [] [].

Definition with_blacklist x s := mkService (allowlist s) x (stats s) (threats s) (byType s) (enforcement s) (tasks s).
Definition with_stats x s := mkService (allowlist s) (blacklist s) x (threats s) (byType s) (enforcement s) (tasks s).
Definition with_threats x y s := mkService (allowlist s) (blacklist s) (stats s) x y (enforcement s) (tasks s).
Definition with_enforcement x s := mkService (allowlist s) (blacklist s) (stats s) (threats s) (byType s) x (tasks s).
Definition with_tasks x s := mkService (allowlist s) (blacklist s) (stats s) (threats s) (byType s) (enforcement s) x.

(** [automatic] tells an isolation that a feed caused from the operator's. *)
Inductive effect := EBlockIp (automatic : bool) (ip : jsstr) | EUnblockIp (ip : jsstr) | EThreat (i : IntelIndicator) | EArtifact (i : IntelIndicator).

Definition CONSECUTIVE_THRESHOLD : nat := 50.
Definition MAX_INGEST : nat := Z.to_nat 100000.
Definition HOUR : Z := 60 * 60 * 1000.

Definition geQ (a b : Q) : bool := Qle_bool b a.

Section intel.
Context (resolve : jsstr -> option Candidate).

Definition unknown (o : option jsstr) : jsstr := default (js "unknown") o.

Definition enrich (cur : IntelIndicator) : IntelIndicator :=
  match kind cur with
  | IP =>
      match resolve (indicator cur) with
      | Some c =>
          mkIndicator (indicator cur) (kind cur) (provider cur) (confidence cur) (threatType cur) (firstSeen cur) (lastSeen cur)
            (score cur) (ttl cur)
            (Some (mkGeo (unknown (c_country c)) (unknown (c_isp c)) (unknown (c_asn c)) (default false (c_bulletproof c)) (c_lat c) (c_lon c)))
      | None => cur
      end
  | _ => cur
  end.

Definition raised (weight : Z) (q : Q) : Q := Qmin 100 (q + inject_Z weight * (1 # 2)).

(** The curated record for a line. *)
Definition curate (src : Source) (now : jsstr) (i threat : jsstr) (existing : option IntelIndicator) : IntelIndicator :=
  let weight := weightOf (s_name src) in
  enrich match existing with
         | Some e => mkIndicator (indicator e) (kind e) (provider e) (confidence e) (threatType e) (firstSeen e) now
                       (raised weight (score e)) (ttl e) (geo e)
         | None => mkIndicator i (s_kind src) (s_name src) (inject_Z weight) threat now now (inject_Z weight) 72 None
         end.

(** ** The pieces of [processSource] *)

Definition with_phase (p : Phase) (t : Task) : Task := mkTask (t_source t) (t_lines t) (consecutiveExisting t) (ingestCount t) p.

Definition lookLine (s : Service) (t : Task) : Task :=
  match t_lines t with
  | [] => t
  | line :: lines =>
      let skip := mkTask (t_source t) lines (consecutiveExisting t) (ingestCount t) AtLine in
      match parseLine (t_source t) line with
      | None => skip
      | Some (i, threat) =>
          if allowed (allowlist s) i then skip
          else
            let existing := JsMap.get (threats s) i in
            match existing with
            | Some _ =>
                let n := S (consecutiveExisting t) in
                if (CONSECUTIVE_THRESHOLD <? n)%nat then mkTask (t_source t) [] n (ingestCount t) AtLine
                else mkTask (t_source t) lines n (ingestCount t) (Looked i threat existing)
            | None => mkTask (t_source t) lines 0 (ingestCount t) (Looked i threat existing)
            end
      end
  end.

Definition isNone {A} (o : option A) : bool := match o with None => true | Some _ => false end.

Definition finished (s : Service) (t : Task) (cur : IntelIndicator) (i : jsstr) : Service * Task :=
  let n := S (ingestCount t) in
  (with_stats (JsMap.set (stats s) (s_name (t_source t)) (S (default 0%nat (JsMap.get (stats s) (s_name (t_source t))))))
     (with_threats (JsMap.set (threats s) i cur) (JsMap.set (byType s) (kind cur, i) cur) s),
   mkTask (t_source t) (if (MAX_INGEST <? n)%nat then [] else t_lines t) (consecutiveExisting t) n AtLine).

(** One piece of a task, at the time [clock] with the text [now]. *)
Definition advanceTask (clock : Z) (now : jsstr) (s : Service) (t : Task) : Service * Task * list effect :=
  match phase t with
  | AtLine => (s, lookLine s t, [])
  | Looked i threat existing =>
      let cur := curate (t_source t) now i threat existing in
      let isIp := bool_decide (kind cur = IP) in
      let found := if geQ (score cur) 85 && isIp && isNone existing then [EThreat cur] else [] in
      if geQ (score cur) 95 && isIp && isNone (JsMap.get (enforcement s) (indicator cur)) then
        let e := mkEnforcement (js "AUTO_ISOLATE: High-fidelity signal from " ++ js (s_name (t_source t))) (clock + 12 * HOUR) clock in
        (s, with_phase (Isolating cur e i) t, found ++ [EBlockIp true (indicator cur)])
      else
        (s, with_phase (Storing cur i) t,
         found ++ if geQ (score cur) 95 && bool_decide (kind cur = HASH) && isNone existing then [EArtifact cur] else [])
  | Isolating cur e i => (with_enforcement (JsMap.set (enforcement s) (indicator cur) e) s, with_phase (Storing cur i) t, [])
  | Storing cur i => let '(s, t) := finished s t cur i in (s, t, [])
  end.

Definition advance (k : nat) (clock : Z) (now : jsstr) (s : Service) : Service * list effect :=
  match tasks s !! k with
  | None => (s, [])
  | Some t => let '(s', t', fx) := advanceTask clock now s t in (with_tasks (<[k := t']> (tasks s)) s', fx)
  end.

(** A feed has been fetched. *)
Definition fetched (src : Source) (data : jsstr) (s : Service) : Service :=
  with_tasks (tasks s ++ [mkTask src (split data [10]) 0 0 AtLine]) s.

Definition sourcesToSync (p : option string) : list Source :=
  match p with Some n => List.filter (fun x => isFeed x n) sources | None => sources end.

(** ** Isolation and its life cycle *)

Definition commitIsolation (clock : Z) (ip why : jsstr) (ttlHours : Z) (s : Service) : Service * list effect :=
  (with_enforcement (JsMap.set (enforcement s) ip (mkEnforcement why (clock + ttlHours * HOUR) clock)) s, [EBlockIp false ip]).

Definition reverify (ip : jsstr) (s : Service) : bool := match JsMap.get (threats s) ip with Some t => geQ (score t) 70 | None => false end.

(** One isolation of the audit. *)
Definition processEntry (clock : Z) (s : Service) (entry : jsstr * Enforcement) : Service * list effect :=
  let '(ip, e) := entry in
  if expiresAt e <? clock then
    if reverify ip s
    then (with_enforcement (JsMap.set (enforcement s) ip (mkEnforcement (reason e) (clock + 24 * HOUR) (committedAt e))) s, [])
    else (with_enforcement (JsMap.delete (enforcement s) ip) s, [EUnblockIp ip])
  else (s, []).

Fixpoint processEntries (clock : Z) (l : list (jsstr * Enforcement)) (s : Service) : Service * list effect :=
  match l with
  | [] => (s, [])
  | x :: l => let '(s, fx) := processEntry clock s x in let '(s, fx') := processEntries clock l s in (s, fx ++ fx')
  end.

Definition processLifecycle (clock : Z) (s : Service) : Service * list effect := processEntries clock (enforcement s) s.

(** ** Recovery and queries *)

Definition percent (q : Q) : bool := Qle_bool 0 q && Qle_bool q 100.

(** [IntelIndicatorSchema], as far as a typed record can fail it. *)
Definition valid (t : IntelIndicator) : bool := percent (confidence t) && percent (score t).

Definition recover (s : Service) : Service :=
  with_blacklist (fold_left (fun b e => if valid e.2 && geQ (score e.2) 85 && bool_decide (kind e.2 = IP) then set_add (indicator e.2) b else b)
                    (threats s) (blacklist s)) s.

Definition wipeDatabase (s : Service) : Service := with_blacklist [] (with_threats [] (byType s) s).

Record Options := mkOptions { o_kind : option Kind; o_provider : option string; o_limit : nat; o_search : option jsstr }.

Definition matches (o : Options) (t : IntelIndicator) : bool :=
  match o_kind o with Some k => bool_decide (kind t = k) | None => true end
  && match o_provider o with Some p => bool_decide (provider t = p) | None => true end
  && match o_search o with Some q => includes (indicator t) q | None => true end.

(** The loop stops after the element that fills the page. *)
Fixpoint page (o : Options) (n : nat) (l : list IntelIndicator) : list IntelIndicator :=
  match l with
  | [] => []
  | t :: l =>
      if matches o t then t :: (if (o_limit o <=? S n)%nat then [] else page o (S n) l)
      else if (o_limit o <=? n)%nat then [] else page o n l
  end.

Section queries.
(** How the store lists its records. *)
Context (order : list IntelIndicator -> list IntelIndicator).

Definition listTyped (k : Kind) (s : Service) : list IntelIndicator :=
  order (map snd (List.filter (fun e => bool_decide (e.1.1 = k)) (byType s))).
Definition listAll (s : Service) : list IntelIndicator := order (map snd (threats s)).

Definition getThreats (o : Options) (s : Service) : list IntelIndicator :=
  match o_kind o, o_search o with
  | Some k, None => match page o 0 (listTyped k s) with [] => page o 0 (listAll s) | l => l end
  | _, _ => page o 0 (listAll s)
  end.

Definition getStats (s : Service) : Service * list (string * nat) :=
  match stats s with
  | [] =>
      let zero := map (fun x => (s_name x, 0%nat)) sources in
      let st := fold_left (fun m t => JsMap.set m (provider t) (S (default 0%nat (JsMap.get m (provider t))))) (listAll s) zero in
      (with_stats st s, st)
  | st => (s, st)
  end.

Fixpoint collect (k : Kind) (minScore : Q) (bound : nat) (acc : list IntelIndicator) (l : list IntelIndicator) : list IntelIndicator :=
  match l with
  | [] => acc
  | t :: l =>
      let acc := if bool_decide (kind t = k) && geQ (score t) minScore then acc ++ [t] else acc in
      if (bound <=? length acc)%nat then acc else collect k minScore bound acc l
  end.

Definition better (a b : IntelIndicator) : bool := negb (Qle_bool (score a) (score b)).

Definition getLedger (k : Kind) (minScore : Q) (limit : nat) (s : Service) : list IntelIndicator :=
  take limit (stable_sort better (collect k minScore (2 * limit) [] (listAll s))).
End queries.

(** ** Interleavings *)

Inductive input :=
| IFetched (src : Source) (data : jsstr)
| IAdvance (k : nat) (clock : Z) (now : jsstr)
| ICommit (clock : Z) (ip why : jsstr) (ttlHours : Z)
| ILifecycle (clock : Z) (entry : jsstr * Enforcement)
| IExpireThreat (i : jsstr)
| IExpireIndex (k : Kind) (i : jsstr)
| IRecover
| IWipe.

Definition step (s : Service) (i : input) : Service * list effect :=
  match i with
  | IFetched src data => (fetched src data s, [])
  | IAdvance k clock now => advance k clock now s
  | ICommit clock ip why h => commitIsolation clock ip why h s
  | ILifecycle clock entry => processEntry clock s entry
  | IExpireThreat i => (with_threats (JsMap.delete (threats s) i) (byType s) s, [])
  | IExpireIndex k i => (with_threats (threats s) (JsMap.delete (byType s) (k, i)) s, [])
  | IRecover => (recover s, [])
  | IWipe => (wipeDatabase s, [])
  end.

Fixpoint run (s : Service) (ins : list input) : Service * list effect :=
  match ins with [] => (s, []) | i :: ins => let '(s, fx) := step s i in let '(s, fx') := run s ins in (s, fx ++ fx') end.

(** ** Invariant *)

Lemma weight_range name : 50 <= weightOf name <= 99.
Proof.
  unfold weightOf. destruct (List.find _ _) as [[n w]|] eqn:E; cbn; [|lia]. apply find_some in E as [Hin _].
  assert (forallb (fun e => (50 <=? e.2) && (e.2 <=? 99)) SOURCE_WEIGHTS = true) as Hall by reflexivity.
  rewrite forallb_forall in Hall. specialize (Hall _ Hin). cbn in Hall. lia.
Qed.

Definition scored (t : IntelIndicator) : Prop := (0 <= score t <= 100)%Q.

(** A record about [i], which the allowlist of [s] does not cover. *)
Definition about (s : Service) (i : jsstr) (t : IntelIndicator) : Prop := indicator t = i /\ scored t /\ allowed (allowlist s) i = false.

Definition phase_ok (s : Service) (p : Phase) : Prop :=
  match p with
  | AtLine => True
  | Looked i _ ex => allowed (allowlist s) i = false /\ (forall e, ex = Some e -> about s i e)
  | Isolating cur _ i | Storing cur i => about s i cur
  end.

Record sound (s : Service) : Prop := mkSound {
  threats_ok i t : JsMap.get (threats s) i = Some t -> about s i t;
  index_ok k i t : JsMap.get (byType s) (k, i) = Some t -> kind t = k /\ indicator t = i;
  tasks_ok : Forall (fun t => phase_ok s (phase t)) (tasks s) }.

Lemma enrich_fields cur : indicator (enrich cur) = indicator cur /\ score (enrich cur) = score cur /\ kind (enrich cur) = kind cur.
Proof. unfold enrich. destruct (kind cur) eqn:E; [destruct (resolve _)|..]; cbn; rewrite ?E; done. Qed.

Lemma raised_range w q : 0 <= w -> (0 <= q)%Q -> (0 <= raised w q <= 100)%Q.
Proof.
  intros Hw Hq. unfold raised. split; [|apply Q.le_min_l]. apply Q.min_glb; [done|].
  apply (Qle_trans _ (0 + 0)); [done|]. apply Qplus_le_compat; [done|]. apply Qmult_le_0_compat; [|done].
  change 0%Q with (inject_Z 0). by rewrite <- Zle_Qle.
Qed.

Lemma curate_about s src now i threat ex : allowed (allowlist s) i = false -> (forall e, ex = Some e -> about s i e) ->
  about s i (curate src now i threat ex).
Proof.
  intros Ha Hex. pose proof (weight_range (s_name src)) as Hw. unfold curate, about, scored.
  destruct (enrich_fields match ex with Some e => mkIndicator (indicator e) (kind e) (provider e) (confidence e) (threatType e)
    (firstSeen e) now (raised (weightOf (s_name src)) (score e)) (ttl e) (geo e)
    | None => mkIndicator i (s_kind src) (s_name src) (inject_Z (weightOf (s_name src))) threat now now (inject_Z (weightOf (s_name src))) 72 None end)
    as (-> & -> & _).
  destruct ex as [e|]; cbn [indicator score].
  - destruct (Hex e eq_refl) as (Hi & [Hs _] & _). split_and!; [done|..]; [| |done]; apply raised_range; done || lia.
  - split_and!; [done|..]; [| |done]; change 0%Q with (inject_Z 0); change 100%Q with (inject_Z 100); rewrite <- Zle_Qle; lia.
Qed.

Lemma lookLine_ok s t : sound s -> phase_ok s (phase t) -> phase_ok s (phase (lookLine s t)).
Proof.
  intros Hs Hp. unfold lookLine. destruct (t_lines t) as [|line lines]; [done|]. destruct (parseLine _ _) as [[i th]|]; [|done].
  destruct (allowed (allowlist s) i) eqn:Ha; [done|]. destruct (JsMap.get (threats s) i) as [e|] eqn:E.
  - case_bool_step; [done|]. split; [done|]. intros e' [= <-]. by apply (threats_ok _ Hs).
  - split; [done|]. by intros e'.
Qed.

(** An element of a list that holds one value or none. *)
Ltac in_optional H :=
  match type of H with _ ∈ (if ?b then _ else _) => destruct b; [apply list_elem_of_singleton in H|apply elem_of_nil in H] end.

(** What a piece changes. *)
Lemma advanceTask_ok clock now s t : sound s -> phase_ok s (phase t) ->
  let '(s', t', fx) := advanceTask clock now s t in
  allowlist s' = allowlist s /\ tasks s' = tasks s /\ phase_ok s (phase t') /\
  (forall i u, JsMap.get (threats s') i = Some u -> about s i u) /\
  (forall k i u, JsMap.get (byType s') (k, i) = Some u -> kind u = k /\ indicator u = i) /\
  forall ip, EBlockIp true ip ∈ fx -> allowed (allowlist s) ip = false.
Proof.
  intros Hs Hp. pose proof (threats_ok s Hs) as Ht. pose proof (index_ok s Hs) as Hi. unfold advanceTask.
  destruct (phase t) as [|i th ex|cur e i|cur i] eqn:Ep.
  - split_and!; [done..| |done|done|by intros ip ?%elem_of_nil]. apply lookLine_ok; [done|]. by rewrite Ep.
  - destruct Hp as [Ha Hex]. pose proof (curate_about s (t_source t) now i th ex Ha Hex) as Hc.
    assert (indicator (curate (t_source t) now i th ex) = i) as Ei by apply Hc.
    case_bool_step; split_and!; try done; intros ip; rewrite elem_of_app; intros [Hf|Hf]; [|..].
    1, 3: by in_optional Hf.
    + apply list_elem_of_singleton in Hf as [= ->]. by rewrite Ei.
    + by in_optional Hf.
  - split_and!; try done. by intros ip ?%elem_of_nil.
  - cbn. split_and!; try done; [| |by intros ip ?%elem_of_nil].
    + intros j u. destruct (decide (i = j)) as [<-|Hne]; [rewrite JsMap.get_set_eq; by intros [= <-]|].
      rewrite JsMap.get_set_ne by done. apply Ht.
    + intros k j u. destruct (decide ((kind cur, i) = (k, j))) as [[= <- <-]|Hne].
      * rewrite JsMap.get_set_eq. intros [= <-]. split; [done|apply Hp].
      * rewrite JsMap.get_set_ne by done. apply Hi.
Qed.

Lemma sound_same s s' : allowlist s' = allowlist s -> tasks s' = tasks s ->
  (forall i u, JsMap.get (threats s') i = Some u -> about s i u) ->
  (forall k i u, JsMap.get (byType s') (k, i) = Some u -> kind u = k /\ indicator u = i) -> sound s -> sound s'.
Proof.
  intros Ea Et Ht Hi [_ _ Hk]. constructor; [|done|].
  - intros i u Hu. unfold about. rewrite Ea. by apply Ht.
  - rewrite Et. eapply Forall_impl; [exact Hk|]. intros t Hp. unfold phase_ok, about in *. by rewrite Ea.
Qed.

Lemma advance_sound k clock now s : sound s -> let '(s', fx) := advance k clock now s in
  sound s' /\ allowlist s' = allowlist s /\ forall ip, EBlockIp true ip ∈ fx -> allowed (allowlist s) ip = false.
Proof.
  intros Hs. unfold advance. destruct (tasks s !! k) as [t|] eqn:Et; [|split_and!; [done..|by intros ip ?%elem_of_nil]].
  assert (phase_ok s (phase t)) as Hp by (destruct Hs as [_ _ Hk]; rewrite Forall_lookup in Hk; eauto).
  pose proof (advanceTask_ok clock now s t Hs Hp) as Ha. destruct (advanceTask clock now s t) as [[s' t'] fx].
  destruct Ha as (Ea & Ek & Hp' & Ht & Hi & Hf). split_and!; [|done..]. constructor; cbn.
  - intros i u Hu. unfold about. cbn. rewrite Ea. by apply Ht.
  - exact Hi.
  - rewrite <- Ek. apply Forall_insert; [|unfold phase_ok, about in *; cbn; by rewrite Ea].
    rewrite Ek. eapply Forall_impl; [apply (tasks_ok _ Hs)|]. intros u Hu. unfold phase_ok, about in *. cbn. by rewrite Ea.
Qed.

Lemma processEntry_keeps clock s entry : let '(s', fx) := processEntry clock s entry in
  allowlist s' = allowlist s /\ tasks s' = tasks s /\ threats s' = threats s /\ byType s' = byType s /\ forall b ip, EBlockIp b ip ∉ fx.
Proof.
  unfold processEntry. destruct entry as [ip e]. case_bool_step; [destruct (reverify ip s)|]; cbn; split_and!; try done;
    intros b j; set_solver.
Qed.

Lemma step_sound s i : sound s -> let '(s', fx) := step s i in
  sound s' /\ allowlist s' = allowlist s /\ forall ip, EBlockIp true ip ∈ fx -> allowed (allowlist s) ip = false.
Proof.
  intros Hs. pose proof (threats_ok s Hs) as Ht. pose proof (index_ok s Hs) as Hi.
  destruct i as [src data|k clock now|clock ip why h|clock entry|i|k i| |]; cbn [step].
  - split_and!; [|done|set_solver]. constructor; [done..|]. cbn. apply Forall_app. split; [apply (tasks_ok _ Hs)|by repeat constructor].
  - apply (advance_sound k clock now s Hs).
  - split_and!; [by apply (sound_same s)|done|]. intros j Hj. set_solver.
  - pose proof (processEntry_keeps clock s entry) as Hk. destruct (processEntry clock s entry) as [s' fx].
    destruct Hk as (Ea & Et & E1 & E2 & Hf). split_and!; [|done|]; [|intros j Hj; by destruct (Hf true j)].
    apply (sound_same s); [done|done|by rewrite E1|by rewrite E2|done].
  - split_and!; [|done|set_solver]. apply (sound_same s); try done. cbn. intros j u. destruct (decide (i = j)) as [<-|Hne];
      [by rewrite JsMap.get_delete_eq|]. rewrite JsMap.get_delete_ne by done. apply Ht.
  - split_and!; [|done|set_solver]. apply (sound_same s); try done. cbn. intros k' j u.
    destruct (decide ((k, i) = (k', j))) as [<-|Hne]; [by rewrite JsMap.get_delete_eq|]. rewrite JsMap.get_delete_ne by done. apply Hi.
  - split_and!; [by apply (sound_same s)|done|set_solver].
  - split_and!; [by apply (sound_same s)|done|set_solver].
Qed.

(** C26: in any interleaving of feeds, isolations, releases, expiries, recovery and
    wipes, every stored record is about its key and has a score between 0
    and 100, every entry of the index by type is about its type and its
    indicator, and no indicator that begins with an entry of the allowlist is
    ever stored or isolated because of a feed. *)
Theorem ledger_sound allow ins : let '(s, fx) := run (new allow) ins in
  (forall i t, JsMap.get (threats s) i = Some t -> indicator t = i /\ scored t /\ allowed (readAllowlist allow) i = false) /\
  (forall k i t, JsMap.get (byType s) (k, i) = Some t -> kind t = k /\ indicator t = i) /\
  (forall ip, EBlockIp true ip ∈ fx -> allowed (readAllowlist allow) ip = false).
Proof.
  assert (forall s, sound s -> let '(s', fx) := run s ins in sound s' /\ allowlist s' = allowlist s /\
    forall ip, EBlockIp true ip ∈ fx -> allowed (allowlist s) ip = false) as Hrun.
  { induction ins as [|i ins IH]; intros s Hs; cbn [run]; [split_and!; [done..|set_solver]|].
    pose proof (step_sound s i Hs) as Hi. destruct (step s i) as [s1 fx]. destruct Hi as (Hs1 & Ea & Hf).
    specialize (IH s1 Hs1). destruct (run s1 ins) as [s2 fx']. destruct IH as (Hs2 & Ea' & Hf'). rewrite Ea in Ea', Hf'.
    split_and!; [done..|]. intros ip [?|?]%elem_of_app; auto. }
  assert (sound (new allow)) as Hnew by (by constructor).
  specialize (Hrun _ Hnew). destruct (run (new allow) ins) as [s fx]. destruct Hrun as (Hs & Ea & Hf). split_and!; [|apply Hs|exact Hf].
  intros i t Ht. pose proof (threats_ok _ Hs i t Ht) as Hab. unfold about in Hab. by rewrite Ea in Hab.
Qed.

(** ** Life cycle *)

(** What an audit makes of an isolation. *)
Definition audited (clock : Z) (s : Service) (ip : jsstr) (e : Enforcement) : option Enforcement :=
  if expiresAt e <? clock then
    if reverify ip s then Some (mkEnforcement (reason e) (clock + 24 * HOUR) (committedAt e)) else None
  else Some e.

Lemma entry_get clock s k e ip : JsMap.get (enforcement s) k = Some e -> JsMap.get (enforcement (processEntry clock s (k, e)).1) ip =
  if decide (k = ip) then audited clock s ip e else JsMap.get (enforcement s) ip.
Proof.
  intros Hk. unfold processEntry, audited. case_decide as Ek; [subst k|].
  - destruct (expiresAt e <? clock); [destruct (reverify ip s)|]; cbn; [apply JsMap.get_set_eq|apply JsMap.get_delete_eq|done].
  - destruct (expiresAt e <? clock); [destruct (reverify k s)|]; cbn; [by apply JsMap.get_set_ne|by apply JsMap.get_delete_ne|done].
Qed.

Lemma entry_unblocks clock s k e ip : EUnblockIp ip ∈ (processEntry clock s (k, e)).2 <-> k = ip /\ expiresAt e < clock /\ reverify ip s = false.
Proof.
  unfold processEntry. destruct (expiresAt e <? clock) eqn:E; [destruct (reverify k s) eqn:Er|]; cbn [snd].
  - rewrite elem_of_nil. split; [done|]. intros (-> & _ & ?). congruence.
  - rewrite list_elem_of_singleton. split; [intros [= ->]; split_and!; [done|lia|done]|by intros (-> & _)].
  - rewrite elem_of_nil. split; [done|]. intros (_ & ? & _). lia.
Qed.

Lemma entries_exact clock l : NoDup l.*1 -> forall s ip, (forall k e, (k, e) ∈ l -> JsMap.get (enforcement s) k = Some e) ->
  let '(s', fx) := processEntries clock l s in
  JsMap.get (enforcement s') ip = match JsMap.get l ip with Some e => audited clock s ip e | None => JsMap.get (enforcement s) ip end /\
  (EUnblockIp ip ∈ fx <-> exists e, JsMap.get l ip = Some e /\ expiresAt e < clock /\ reverify ip s = false).
Proof.
  induction l as [|[k e] l IH]; intros Hnd s ip Hin; cbn [processEntries].
  - split; [done|]. rewrite elem_of_nil. split; [done|]. by intros (e & ? & _).
  - cbn in Hnd. apply NoDup_cons in Hnd as [Hk Hnd]. pose proof (entry_get clock s k e) as Hg. pose proof (entry_unblocks clock s k e ip) as Hu.
    pose proof (processEntry_keeps clock s (k, e)) as Hkeep. destruct (processEntry clock s (k, e)) as [s1 fx] eqn:E1.
    destruct Hkeep as (_ & _ & Et & _ & _). cbn [fst snd] in Hg, Hu.
    assert (forall j, reverify j s1 = reverify j s) as Hr by (intros j; unfold reverify; by rewrite Et).
    assert (JsMap.get (enforcement s) k = Some e) as Hke by (apply Hin; by left).
    specialize (IH Hnd s1 ip). destruct (processEntries clock l s1) as [s2 fx'].
    assert (forall k' e', (k', e') ∈ l -> JsMap.get (enforcement s1) k' = Some e') as Hin1.
    { intros k' e' He. rewrite Hg by done. rewrite decide_False; [apply Hin; by right|]. intros ->. apply Hk.
      apply list_elem_of_fmap. by exists (k', e'). }
    specialize (IH Hin1) as [IH1 IH2]. rewrite elem_of_app, Hu, IH2, IH1, Hg by done. cbn [JsMap.get]. unfold audited. rewrite !Hr.
    case_decide as Ek; [subst ip|].
    + assert (JsMap.get l k = None) as Hn by (by apply JsMap.get_None). rewrite Hn. split; [done|].
      split; [intros [(_ & ?)|(e' & ? & _)]; [by exists e|done]|]. intros (e' & [= <-] & ?). by left.
    + split; [done|]. split; [intros [(? & _)|?]; [done|done]|by right].
Qed.

(** An audit of the isolations is exact: afterwards an address is isolated
    exactly when it was and its time has not run out or its score is still 70
    or more, in which case it gets another day; and the firewall is told to
    release exactly the others. *)
Theorem lifecycle_exact clock s ip : JsMap.wf (enforcement s) ->
  let '(s', fx) := processLifecycle clock s in
  JsMap.get (enforcement s') ip = JsMap.get (enforcement s) ip ≫= audited clock s ip /\
  (EUnblockIp ip ∈ fx <-> exists e, JsMap.get (enforcement s) ip = Some e /\ expiresAt e < clock /\ reverify ip s = false).
Proof.
  intros Hwf. unfold processLifecycle. pose proof (entries_exact clock (enforcement s) Hwf s ip) as He.
  destruct (processEntries clock (enforcement s) s) as [s' fx]. specialize (He ltac:(intros k e; by apply JsMap.elem_get)) as [H1 H2].
  split; [|done]. rewrite H1. by destruct (JsMap.get (enforcement s) ip).
Qed.

(** ** What goes wrong *)

(** A wipe leaves the index by type: whatever that index held is still
    reported when threats of the type are listed. *)
Theorem wipe_leaves_index order o k s : o_kind o = Some k -> o_search o = None -> page o 0 (listTyped order k s) <> [] ->
  getThreats order o (wipeDatabase s) = getThreats order o s.
Proof.
  intros Hk Hq Hp. unfold getThreats. rewrite Hk, Hq. change (listTyped order k (wipeDatabase s)) with (listTyped order k s).
  by destruct (page o 0 (listTyped order k s)).
Qed.

Definition listedThrice (src : Source) (now i threat : jsstr) : IntelIndicator :=
  curate src now i threat (Some (curate src now i threat (Some (curate src now i threat None)))).

(** Weights do not matter for long: an indicator that one feed lists three
    times in a row has the score 100, however little the feed is trusted, so
    an address is isolated without any second source. *)
Theorem relisting_escalates src now i threat : (score (listedThrice src now i threat) == 100)%Q.
Proof.
  unfold listedThrice, curate. repeat (rewrite (proj1 (proj2 (enrich_fields _))); cbn [score]). pose proof (weight_range (s_name src)) as Hw.
  generalize dependent (weightOf (s_name src)). intros w Hw. unfold raised. apply Q.min_l.
  destruct (Q.min_spec 100 (inject_Z w + inject_Z w * (1 # 2))) as [[_ ->]|[_ ->]]; unfold Qle, Qplus, Qmult, inject_Z; cbn; lia.
Qed.

(** An isolation is recorded although nothing was blocked: when a trusted
    feed lists something that is not an address (the column heading of a
    table, a network with a comment), the firewall refuses it without a
    trace and the service records the isolation. *)
Theorem phantom_isolation clock clock' now now' s t i threat (m : Firewall.Manager) :
  phase t = Looked i threat None -> s_kind (t_source t) = IP -> 95 <= weightOf (s_name (t_source t)) ->
  JsMap.get (enforcement s) i = None -> Net.isValidIP i = false ->
  exists t1 s2 t2 e, advanceTask clock now s t = (s, t1, [EThreat (curate (t_source t) now i threat None); EBlockIp true i]) /\
    advanceTask clock' now' s t1 = (s2, t2, []) /\ JsMap.get (enforcement s2) i = Some e /\ Firewall.blockIp m i = (m, []).
Proof.
  intros Hp Hk Hw He Hv. unfold advanceTask at 1. rewrite Hp.
  assert (indicator (curate (t_source t) now i threat None) = i /\ kind (curate (t_source t) now i threat None) = IP /\
    score (curate (t_source t) now i threat None) = inject_Z (weightOf (s_name (t_source t)))) as (Ei & Ek & Es).
  { unfold curate. edestruct enrich_fields as (-> & -> & ->). by rewrite Hk. }
  generalize dependent (curate (t_source t) now i threat None). intros cur Ei Ek Es. rewrite Ei, Ek, Es, He, bool_decide_eq_true_2 by done.
  assert (forall n, n <= 95 -> geQ (inject_Z (weightOf (s_name (t_source t)))) (inject_Z n) = true) as Hge.
  { intros n Hn. unfold geQ. apply Qle_bool_iff. rewrite <- Zle_Qle. lia. }
  change 95%Q with (inject_Z 95). change 85%Q with (inject_Z 85). rewrite !Hge by lia. cbn [andb isNone app].
  eexists _, _, _, _. split_and!.
  - reflexivity.
  - cbn. reflexivity.
  - cbn. rewrite Ei. apply JsMap.get_set_eq.
  - unfold Firewall.blockIp. by rewrite Hv.
Qed.
End intel.

(** ** Concrete runs *)

Definition nowhere0 (_ : jsstr) : option Candidate := None.
Definition feodo0 : Source := mkSource "Abuse.ch" "" IP.
Definition header0 : Task := mkTask feodo0 [] 0 0 (Looked (js "dst_ip") (js "x") None).
Definition store0 : Service := mkService [] [] [] [] [] [(js "1.2.3.4", mkEnforcement [] 10 0); (js "5.6.7.8", mkEnforcement [] 50 0)] [].
Definition known0 : IntelIndicator := mkIndicator (js "6.6.6.6") IP "GreenSnow" 90 [] [] [] 90 72 None.
Definition typed0 : Service := mkService [] [] [] [(js "6.6.6.6", known0)] [((IP, js "6.6.6.6"), known0)] [] [].

(** The heading of a table is read as an indicator. *)
Lemma heading_read : fst <$> parseLine feodo0 (js "first_seen,dst_ip,dst_port") = Some (js "dst_ip").
Proof. vm_compute. reflexivity. Qed.

Lemma phantom_isolation_witness : exists t1 s2 t2 e, advanceTask nowhere0 0 [] (new []) header0
    = (new [], t1, [EThreat (curate nowhere0 feodo0 [] (js "dst_ip") (js "x") None); EBlockIp true (js "dst_ip")]) /\
  advanceTask nowhere0 0 [] (new []) t1 = (s2, t2, []) /\ JsMap.get (enforcement s2) (js "dst_ip") = Some e /\
  Firewall.blockIp (Firewall.boot []) (js "dst_ip") = (Firewall.boot [], []).
Proof.
  apply (phantom_isolation nowhere0 0 0 [] [] (new []) header0 (js "dst_ip") (js "x") (Firewall.boot [])); try (vm_compute; reflexivity).
  vm_compute. discriminate.
Defined.

Lemma lifecycle_exact_witness : let '(s', fx) := processLifecycle 20 store0 in
  JsMap.get (enforcement s') (js "1.2.3.4") = None /\ EUnblockIp (js "1.2.3.4") ∈ fx.
Proof.
  assert (JsMap.wf (enforcement store0)) as Hwf by (apply (bool_decide_unpack _); by vm_compute).
  pose proof (lifecycle_exact nowhere0 20 store0 (js "1.2.3.4") Hwf) as He. destruct (processLifecycle 20 store0) as [s' fx]. destruct He as [-> Hu].
  split; [vm_compute; reflexivity|]. apply Hu. eexists. split_and!; [vm_compute; reflexivity|cbn; lia|vm_compute; reflexivity].
Defined.

Lemma wipe_leaves_index_witness : getThreats (fun l => l) (mkOptions (Some IP) None 50 None) (wipeDatabase typed0) = [known0].
Proof.
  rewrite (wipe_leaves_index (fun l => l) (mkOptions (Some IP) None 50 None) IP typed0); [vm_compute; reflexivity|reflexivity..|].
  vm_compute. discriminate.
Defined.
End Intel.
