(* ===== verification/Tpm.v ===== *)
(** * The hardware root of trust

    Models [src/orchestrator/infrastructure/system/protection/tpm/tpm_manager.ts],
    class [TPMManager]: sealed secrets, attestation against the golden state
    and signatures.  The trustroot agent is another program: what it answers is
    a parameter that may depend on everything asked before.  The digest of the
    registers is that of [Canonical]; the commands of macOS and Windows go
    through [Executor].  Log lines are left out. *)

From S2P Require Import Prelude Result Effects JsMap JsString JsSort Base64 Canonical Paths Schemas ExecPolicy Executor Cidr Mesh.
Open Scope Z_scope.

Module Tpm.
Import JsString Effects Paths Schemas ExecPolicy.

Inductive Os := linux | darwin | windows | otherOs.

(** A [Record<number, string>]. *)
Definition Pcrs : Type := list (Z * jsstr).

Inductive Message :=
| Seal (index : string) (data : jsstr) (auth : string) (pcrs : option Pcrs)
| Unseal (index auth : string)
| GetPcrs (indices : list Z)
| NvDefine (index : string) (size : Z) (auth : string)
| NvWrite (index : string) (data : jsstr) (auth : string)
| NvRead (index auth : string)
| Sign (data : jsstr)
| Verify (data signature : jsstr)
| GenerateSelfSignedCA (commonName : jsstr)
| IssueNodeCert (nodeId : jsstr) (caCert caKey : option jsstr)
| GenerateProxyKey (keyId : jsstr)
| SignProxy (keyId data : jsstr)
| WipeSecrets.

Inductive effect := ESend (m : Message) | ESpawn (program : jsstr) (args : list jsstr).

(** [res.success], and of [res.data] the registers, or its text field. *)
Record Answer := mkAnswer { a_success : bool; a_pcrs : Pcrs; a_text : option jsstr }.

Record ExecResult := mkExec { succeeded : bool; stdout : jsstr }.

(** [hardwareVerified] *)
Record TPMManager := mkTpm { hardwareVerified : bool }.

Definition new : TPMManager := mkTpm false.

Definition mapping : list (string * (string * string)) :=
  [("MESH_SECRET", ("0x1500001", "cts-mesh-nv-key")); ("GOLDEN_PCR_HASH", ("0x1500002", "cts-pcr-nv-key"));
   ("PKI_SECRET", ("0x1500003", "cts-pki-nv-key")); ("API_TOKEN", ("0x1500004", "cts-token-nv-key"))]%string.

(** No value is the exception. *)
Definition getIndexForSecret (name : string) : option (string * string) :=
  snd <$> List.find (fun e => bool_decide (e.1 = name)) mapping.

Definition golden : string * string := ("0x1500002", "cts-pcr-nv-key")%string.

(** [btoa] of a text; it throws on units that are no bytes. *)
Definition btoaText (s : jsstr) : option jsstr := if forallb (fun c => (0 <=? c) && (c <? 256)) s then Some (Base64.btoa s) else None.

Section tpm.
Context `{Canonical.JsNumber} (sha256 : jsstr -> jsstr).
Context (trust : list effect -> effect -> settled Answer unit).
(** [ENVIRONMENT], [ALLOW_HARDWARE_BYPASS]. *)
Context (production allowBypass : bool).

#[local] Open Scope act_scope.
#[local] Notation act := (Effects.act effect).

Definition send (m : Message) : act Answer := ask trust (ESend m).

Definition indexed {A} (name : string) (k : string -> string -> act A) : act A :=
  match getIndexForSecret name with Some (i, a) => k i a | None => raise end.

Definition sealSecret (name : string) (data : jsstr) (pcrs : option Pcrs) : act unit :=
  indexed name (fun i a => let! _ := send (Seal i data a pcrs) in ret tt).

Definition textOf (r : Answer) : option jsstr := if a_success r then a_text r else None.

Definition unsealSecret (name : string) : act (option jsstr) :=
  indexed name (fun i a => let! r := send (Unseal i a) in ret (textOf r)).

Definition mock (indices : list Z) : Pcrs := fold_left (fun m i => JsMap.set m i (js "MOCK_PCR_DATA")) indices [].

Definition getPcrs (indices : list Z) : act Pcrs := fun h =>
  if production && allowBypass then ([], Rejected tt)
  else
    let e := ESend (GetPcrs indices) in
    match trust h e with
    | Resolved r => ([e], if a_success r then Resolved (a_pcrs r) else if allowBypass then Resolved (mock indices) else Rejected tt)
    | Rejected _ => ([e], if allowBypass then Resolved (mock indices) else Rejected tt)
    end.

Definition nvDefine (i : string) (size : Z) (a : string) : act bool := let! r := send (NvDefine i size a) in ret (a_success r).
Definition nvWrite (i : string) (data : jsstr) (a : string) : act bool := let! r := send (NvWrite i data a) in ret (a_success r).
Definition nvRead (i a : string) : act (option jsstr) := let! r := send (NvRead i a) in ret (textOf r).

(** The object the registers are hashed as. *)
Definition pcrValue (p : Pcrs) : Canonical.jval := Canonical.JObj (map (fun e => (decimal e.1, Canonical.JStr e.2)) p).

Definition computePcrHash (p : Pcrs) : act jsstr :=
  match Canonical.computeHash sha256 (pcrValue p) with Resolved t => ret t | Rejected _ => raise end.

Definition DEFAULT_PCRS : list Z := [0; 1; 7].

Definition matchesGolden (current expected : Pcrs) : bool :=
  forallb (fun e => bool_decide (JsMap.get current e.1 = Some e.2)) expected.

(** The comparison of [verifyIntegrity]. *)
Definition attest (goldenPcrs : option Pcrs) : act bool :=
  let! current := getPcrs DEFAULT_PCRS in
  let! nv := nvRead golden.1 golden.2 in
  match nv with
  | Some (c :: g) => let! t := computePcrHash current in ret (bool_decide (t = c :: g))
  | _ => match goldenPcrs with Some (e :: es) => ret (matchesGolden current (e :: es)) | _ => ret false end
  end.

(** [hardwareVerified] is cleared first and set only with the result true. *)
Definition verifyIntegrity (goldenPcrs : option Pcrs) (h : list effect) : TPMManager * list effect * settled bool unit :=
  let '(fx, r) := attest goldenPcrs h in
  (mkTpm match r with Resolved b => b | Rejected _ => false end, fx, r).

Definition provisionGoldenPcrs (indices : list Z) : act bool :=
  let! current := getPcrs indices in
  let! t := computePcrHash current in
  let! _ := nvDefine golden.1 64 golden.2 in
  nvWrite golden.1 t golden.2.

Definition generateSelfSignedCA (cn : jsstr) : act Answer := send (GenerateSelfSignedCA cn).
Definition issueNodeCert (id : jsstr) (cert key : option jsstr) : act Answer := send (IssueNodeCert id cert key).
Definition generateProxyKey (id : jsstr) : act Answer := send (GenerateProxyKey id).
Definition signProxy (id data : jsstr) : act Answer := send (SignProxy id data).
Definition wipeSecrets : act Answer := send WipeSecrets.

(** ** Signatures *)

Section signatures.
Context `{StdPath} `{Zod} (basename : jsstr -> jsstr) (JSON_parse : jsstr -> option Json) (root : bool).
Context (runs : list effect -> effect -> ExecResult) (os : Os) (machineId : jsstr).

Definition execute (cmd : jsstr) (args : list jsstr) : act ExecResult :=
  match Executor.spawned basename JSON_parse root cmd args with
  | None => ret (mkExec false [])
  | Some (p, a) => ask (fun h e => Resolved (runs h e)) (ESpawn p a)
  end.

(** The text the tool printed, with its prefix, or the fallback. *)
Definition signedBy (prefix fallback : string) (data : jsstr) (cmd : jsstr) (args : jsstr -> list jsstr) : act jsstr :=
  let! printed := match btoaText data with
                  | Some b => let! r := execute cmd (args b) in ret (if succeeded r then Cidr.trim (stdout r) else [])
                  | None => ret []
                  end in
  match printed with
  | [] => match btoaText (data ++ machineId) with Some b => ret (js fallback ++ take 32 b) | None => raise end
  | _ => ret (js prefix ++ printed)
  end.

Definition signWithSEP (data : jsstr) : act jsstr :=
  signedBy "SEP_SIG:" "SEP_V_SIG:" data (js "security") (fun b => [js "cms"; js "-S"; js "-Z"; js "CTS_IDENTITY"; js "-i"; b]).

Definition ncryptScript (b : jsstr) : jsstr :=
  js "$data = [System.Convert]::FromBase64String('" ++ b ++
  js "'); $key = [Microsoft.Security.Cryptography.NCrypt]::OpenKey('CTS_KEY'); if($key) { $sig = $key.Sign($data); [Convert]::ToBase64String($sig) }".

Definition signWithNCrypt (data : jsstr) : act jsstr :=
  signedBy "NCRYPT_SIG:" "NCRYPT_V_SIG:" data (js "powershell") (fun b => [js "-Command"; ncryptScript b]).

Definition sign (data : jsstr) : act jsstr :=
  match os with
  | darwin => signWithSEP data
  | windows => signWithNCrypt data
  | _ => let! r := send (Sign data) in ret (default [] (a_text r))
  end.

Definition verifyWithHardware (signature : jsstr) : bool := startsWith signature (js "SEP_SIG:") || startsWith signature (js "NCRYPT_SIG:").

Definition verifySigned (data signature : jsstr) : act bool :=
  match os with
  | darwin | windows => ret (verifyWithHardware signature)
  | _ => let! r := send (Verify data signature) in ret (a_success r)
  end.

(** ** Facts *)

Lemma script_refused b : Executor.spawned basename JSON_parse root (js "powershell") [js "-Command"; ncryptScript b] = None.
Proof.
  unfold Executor.spawned, Executor.validateArguments.
  assert (exists p, Executor.policy_of JSON_parse (js "powershell") = Some p /\ schema p = POWERSHELL_SCHEMA) as (p & -> & ->) by (by eexists).
  destruct (safeParse POWERSHELL_SCHEMA _) eqn:E; cbn [negb]; [exfalso|by case_bool_step].
  apply Executor.superRefine_ok in E. unfold powershell_args in E. rewrite bool_decide_eq_true_2 in E by done.
  apply andb_true_iff in E as [E _]. rewrite forallb_forall in E. specialize (E (js "$")). cbn [next_of] in E.
  rewrite (proj2 (includes_spec _ _)) in E; [discriminate E; vm_compute; tauto|].
  exists [], (js "data = [System.Convert]::FromBase64String('" ++ b ++ js "'); $key = [Microsoft.Security.Cryptography.NCrypt]::OpenKey('CTS_KEY'); if($key) { $sig = $key.Sign($data); [Convert]::ToBase64String($sig) }").
  reflexivity.
Qed.

(** On Windows the hardware never signs and anybody can: every script
    [sign] hands to PowerShell is refused by the execution policy, so it
    returns the fallback, which [verify] rejects; while [verify] accepts any
    text with the right prefix for any data. *)
Theorem windows_signatures_inverted data h : os = windows ->
  (forall fx sig, sign data h = (fx, Resolved sig) -> verifySigned data sig h = ([], Resolved false)) /\
  (forall data' rest, verifySigned data' (js "NCRYPT_SIG:" ++ rest) h = ([], Resolved true)).
Proof.
  intros Ho. unfold sign, verifySigned. rewrite Ho. split.
  - intros fx sig. unfold signWithNCrypt, signedBy.
    assert (forall h, (match btoaText data with
      | Some b => let! r := execute (js "powershell") [js "-Command"; ncryptScript b] in ret (if succeeded r then Cidr.trim (stdout r) else [])
      | None => ret [] end) h = ([], Resolved [])) as Hp.
    { intros h'. destruct (btoaText data) as [b|]; [|done]. unfold execute. by rewrite script_refused. }
    unfold bind at 1. rewrite Hp. destruct (btoaText (data ++ machineId)) as [b|]; [|done]. intros [= _ <-]. reflexivity.
  - intros data' rest. unfold verifyWithHardware. rewrite startsWith_app, orb_true_r. reflexivity.
Qed.
End signatures.

(** ** Attestation *)

(** In production the registers are the agent's: whenever [getPcrs] returns in
    production, the bypass is off and the registers are what the agent
    answered; the mock values are never seen. *)
Theorem production_never_mocked indices h fx p : production = true -> getPcrs indices h = (fx, Resolved p) ->
  allowBypass = false /\ exists r, trust h (ESend (GetPcrs indices)) = Resolved r /\ a_success r = true /\ p = a_pcrs r.
Proof.
  intros Hp. unfold getPcrs. rewrite Hp. destruct allowBypass; [done|]. cbn [andb].
  destruct (trust h _) as [r|]; [|done]. destruct (a_success r) eqn:E; [|done]. intros [= _ <-]. split; [done|]. by exists r.
Qed.

Lemma pcr_clean p : Forall (fun e => Forall code_unit e.2) p -> Canonical.clean (pcrValue p).
Proof.
  induction 1 as [|e p He Hp IH]; [done|]. cbn. split; [|exact IH]. split; [|exact He].
  eapply Forall_impl; [apply Mesh.decimal_digits|]. intros c Hc. unfold is_digit in Hc. unfold code_unit. lia.
Qed.

(** The golden hash in the hardware decides, and it stands for its registers. *)
Definition sealed (h : list effect) (t : jsstr) : Prop :=
  forall h', trust (h ++ h') (ESend (NvRead golden.1 golden.2)) = Resolved (mkAnswer true [] (Some t)).

(** Neither of the two texts collides with the other under the digest. *)
Definition no_collision (p q : Pcrs) : Prop := forall t u, Canonical.canonical (pcrValue p) = Resolved t -> Canonical.canonical (pcrValue q) = Resolved u ->
  sha256 (default [] t) = sha256 (default [] u) -> t = u.

(** C20: attestation is exact: when the hardware holds the hash of the registers
    [g] and the agent reports the registers [p], the machine counts as
    verified exactly when [p] and [g] are the same registers with the same
    values, up to a collision of the digest, whatever golden values the
    configuration names. *)
Theorem attestation_exact goldenPcrs h p g t : getPcrs DEFAULT_PCRS h = ([ESend (GetPcrs DEFAULT_PCRS)], Resolved p) ->
  Canonical.computeHash sha256 (pcrValue g) = Resolved t -> t <> [] -> sealed h t ->
  (exists u, Canonical.canonical (pcrValue p) = Resolved u) -> no_collision g p ->
  Forall (fun e => Forall code_unit e.2) p -> Forall (fun e => Forall code_unit e.2) g ->
  let '(m, _, r) := verifyIntegrity goldenPcrs h in
  r = Resolved (hardwareVerified m) /\ (hardwareVerified m = true <-> Canonical.norm (pcrValue p) = Canonical.norm (pcrValue g)).
Proof.
  intros Hp Ht Hne Hs [u Hu] Hc Cp Cg. unfold Canonical.computeHash in Ht.
  destruct (Canonical.canonical (pcrValue g)) as [v|] eqn:Hv; [|done]. injection Ht as Ht.
  assert (sha256 (default [] u) = t <-> Canonical.norm (pcrValue p) = Canonical.norm (pcrValue g)) as Hiff.
  { split; intros E.
    - assert (v = u) as Evu by (apply (Hc v u Hv Hu); congruence). rewrite Evu in Hv.
      eapply Canonical.canonical_injective; [by apply pcr_clean|by apply pcr_clean|done|done|exact Hu|exact Hv].
    - assert (Canonical.canonical (pcrValue p) = Canonical.canonical (pcrValue g)) as Ec.
      { unfold Canonical.canonical. by rewrite <- Canonical.canonical_norm, E, Canonical.canonical_norm. }
      rewrite Hu, Hv in Ec. injection Ec as ->. exact Ht. }
  unfold verifyIntegrity, attest. unfold bind at 1. rewrite Hp. unfold nvRead, send, bind, ask. rewrite Hs. cbn [ret textOf a_success a_text].
  destruct t as [|c t]; [done|]. unfold computePcrHash, Canonical.computeHash. rewrite Hu. cbn.
  split; [done|]. rewrite bool_decide_eq_true. exact Hiff.
Qed.
End tpm.

(** ** Concrete runs *)

#[local] Existing Instance Executor.plain_paths.
#[local] Existing Instance CanonicalInt.int_number.

Definition digest0 (t : jsstr) : jsstr := 35 :: t.
Definition good0 : Pcrs := [(0, js "aa"); (1, js "bb"); (7, js "cc")].
Definition bad0 : Pcrs := [(0, js "aa"); (1, js "bb"); (7, js "ee")].
Definition text0 : jsstr := match Canonical.computeHash digest0 (pcrValue good0) with Resolved t => t | Rejected _ => [] end.

(** An agent that reports [p] and holds the hash of the good registers. *)
Definition agent0 (p : Pcrs) (_ : list effect) (e : effect) : settled Answer unit :=
  match e with
  | ESend (GetPcrs _) => Resolved (mkAnswer true p None)
  | ESend (NvRead _ _) => Resolved (mkAnswer true [] (Some text0))
  | _ => Resolved (mkAnswer true [] None)
  end.

Lemma production_never_mocked_witness : exists r, agent0 good0 [] (ESend (GetPcrs [0])) = Resolved r /\ a_success r = true /\ good0 = a_pcrs r.
Proof. apply (production_never_mocked (agent0 good0) true false [0] [] [ESend (GetPcrs [0])] good0); reflexivity. Defined.

Lemma attestation_exact_witness : let '(m, _, r) := verifyIntegrity digest0 (agent0 bad0) true false None [] in
  r = Resolved (hardwareVerified m) /\ (hardwareVerified m = true <-> Canonical.norm (pcrValue bad0) = Canonical.norm (pcrValue good0)).
Proof.
  apply (attestation_exact digest0 (agent0 bad0) true false None [] bad0 good0 text0).
  - reflexivity.
  - vm_compute. reflexivity.
  - vm_compute. discriminate.
  - intros h'. reflexivity.
  - eexists. vm_compute. reflexivity.
  - intros t u Ht Hu. vm_compute in Ht, Hu. injection Ht as <-. injection Hu as <-. vm_compute. discriminate.
  - do 3 (constructor; [apply CanonicalInt.js_code_units|]). constructor.
  - do 3 (constructor; [apply CanonicalInt.js_code_units|]). constructor.
Defined.

Lemma windows_signatures_inverted_witness :
  (forall fx sig, sign (agent0 good0) Executor.base0 Executor.json0 true (fun _ _ => mkExec true (js "x")) windows (js "m") (js "data") [] = (fx, Resolved sig) ->
     verifySigned (agent0 good0) windows (js "data") sig [] = ([], Resolved false)) /\
  (forall data' rest, verifySigned (agent0 good0) windows data' (js "NCRYPT_SIG:" ++ rest) [] = ([], Resolved true)).
Proof. exact (windows_signatures_inverted digest0 (agent0 good0) Executor.base0 Executor.json0 true (fun _ _ => mkExec true (js "x")) windows (js "m") (js "data") [] eq_refl). Defined.
End Tpm.
