(* ===== verification/GeoIp.v ===== *)
(** * Locations

    Models [src/orchestrator/domain/analysis/geoip_service.ts], class
    [GeoIpService]: the cache, the lookup in the local databases, whose records
    are the values that [Mmdb] decodes, and the estimate from the first octet.
    Opening a database (a file system call and [MmdbReader.open]) is an input;
    the date a result carries and the tags are left out.  Coordinates of an
    estimate are rationals, those of a record the numbers it holds. *)

From S2P Require Import Prelude Result JsMap JsString Mmdb Cidr.
From Stdlib Require Import QArith Qminmax Qround.
Open Scope Z_scope.

Module GeoIp.
Import JsString.
Import Mmdb(value, VStr, VDouble, VFloat, VMap, VNum, VNull).

(** ** Data *)

Inductive GeoPrecision := city | country | estimated.

(** A number of a record, or of an estimate. *)
Inductive Coordinate := Stored (v : value) | Computed (q : Q).

Record TacticalIntel := mkIntel {
  i_ip : jsstr; i_country : jsstr; i_city : jsstr; i_asn : jsstr; i_isp : jsstr; i_lat : Coordinate; i_lon : Coordinate;
  precision : GeoPrecision; provisional : bool; region : option string }.

(** [db.lookup], as in [Mmdb]: a miss is [null]. *)
Definition Database : Type := jsstr -> settled value Mmdb.MmdbError.

Record Service := mkService {
  cache : list (jsstr * TacticalIntel); cityDb : option Database; asnDb : option Database; dbTried : bool }.

Definition new : Service := mkService [] None None false.

(** ** Reading a record *)

Definition field (v : value) (k : string) : option value := match v with VMap fs => JsMap.get fs (js k) | _ => None end.

Fixpoint pick (v : value) (path : list string) : option jsstr :=
  match path with
  | [] => match v with VStr s => Some s | _ => None end
  | k :: path => match field v k with Some x => pick x path | None => None end
  end.

Definition isNumber (v : value) : bool := match v with VDouble _ | VFloat _ | VNum _ => true | _ => false end.

Definition numberAt (v : value) (k : string) : option value :=
  match field v k with Some x => if isNumber x then Some x else None | None => None end.

(** [a ?? b ?? ""] on texts *)
Definition orElse (a b : option jsstr) : jsstr := match a with Some s => s | None => default [] b end.

Section geoip.
(** The text of a number, and what a field that is no text reads as. *)
Context (numberText : value -> jsstr) (anyText : value -> jsstr).

Definition textField (v : value) (k : string) : option jsstr :=
  match field v k with None | Some VNull => None | Some x => Some (anyText x) end.

Definition asnOf (db : option Database) (ip : jsstr) : jsstr * jsstr :=
  match db with
  | None => ([], [])
  | Some look =>
      match look ip with
      | Resolved a =>
          (match numberAt a "autonomous_system_number" with Some n => js "AS" ++ numberText n | None => [] end,
           orElse (textField a "autonomous_system_organization") (textField a "isp"))
      | _ => ([], [])
      end
  end.

Definition queryLocalDatabase (s : Service) (ip : jsstr) : option TacticalIntel :=
  match cityDb s with
  | None => None
  | Some look =>
      match look ip with
      | Resolved rec =>
          let loc := default (VMap []) (field rec "location") in
          match numberAt loc "latitude", numberAt loc "longitude" with
          | Some lat, Some lon =>
              let c := orElse (pick rec ["country"; "iso_code"]%string) (pick rec ["country"; "country_code"]%string) in
              let town := default [] (pick rec ["city"; "names"; "en"]%string) in
              let '(a, i) := asnOf (asnDb s) ip in
              Some (mkIntel ip c town a i (Stored lat) (Stored lon) (match town with [] => country | _ => city end) false None)
          | _, _ => None
          end
      | _ => None
      end
  end.

(** ** The estimate *)

Definition octet (ip : jsstr) (k : nat) : Z := default 0 ((split ip (js ".") !! k) ≫= Cidr.parseInt).

Definition between (a b x : Z) : bool := (a <=? x) && (x <=? b).

Definition isRipe (o : Z) : bool :=
  between 62 95 o || (o =? 109) || (o =? 141) || between 176 188 o || between 193 195 o || between 212 217 o.
Definition isApnic (o : Z) : bool :=
  (o =? 1) || (o =? 14) || (o =? 27) || (o =? 36) || (o =? 39) || (o =? 42) || (o =? 49) || between 58 61 o || (o =? 101)
  || (o =? 103) || between 110 126 o || (o =? 175) || between 180 183 o || between 202 203 o || (o =? 210) || (o =? 211)
  || between 218 223 o.
Definition isLacnic (o : Z) : bool := between 177 179 o || between 186 191 o || (o =? 200) || (o =? 201).
Definition isAfrinic (o : Z) : bool := (o =? 41) || (o =? 102) || (o =? 105) || (o =? 197).

Definition regionOf (o : Z) : string * Z * Z :=
  if isRipe o then ("Europe / Eurasia"%string, 50, 15)
  else if isApnic o then ("Asia-Pacific"%string, 20, 100)
  else if isLacnic o then ("Latin America"%string, -15, -60)
  else if isAfrinic o then ("Africa"%string, 5, 20)
  else ("North America"%string, 40, -100).

(** [(x % 1000) / 1000 - 0.5]; the remainder has the sign of [x]. *)
Definition jitter (x : Z) : Q := (inject_Z (Z.rem x 1000) / 1000 - (1 # 2))%Q.

(** [Math.round(x * 10000) / 10000] *)
Definition round4 (x : Q) : Q := (inject_Z (Qfloor (x * 10000 + (1 # 2))) / 10000)%Q.

Definition clampTo (m : Z) (x : Q) : Q := Qmax (inject_Z (- m)) (Qmin (inject_Z m) x).

Definition estimate (ip : jsstr) : TacticalIntel :=
  let o2 := octet ip 1 in let o3 := octet ip 2 in let o4 := octet ip 3 in
  let '(r, lat, lon) := regionOf (octet ip 0) in
  mkIntel ip [] [] [] []
    (Computed (round4 (clampTo 85 (inject_Z lat + jitter (o2 * 31 + o3 * 17 + o4 * 7) * 16))))
    (Computed (round4 (clampTo 180 (inject_Z lon + jitter (o2 * 13 + o3 * 37 + o4 * 23) * 30))))
    estimated true (Some r).

(** ** Lookup *)

(** [loadDatabases]: what opening the two files gives. *)
Definition loadDatabases (c a : option Database) (s : Service) : Service := mkService (cache s) c a true.

Definition lookup (c a : option Database) (ip : jsstr) (s : Service) : Service * TacticalIntel :=
  match JsMap.get (cache s) ip with
  | Some r => (s, r)
  | None =>
      let s := if dbTried s then s else loadDatabases c a s in
      let r := match queryLocalDatabase s ip with Some r => r | None => estimate ip end in
      (mkService (JsMap.set (cache s) ip r) (cityDb s) (asnDb s) (dbTried s), r)
  end.

Definition hasDatabase (s : Service) : bool := match cityDb s with Some _ => true | None => false end.

Inductive input := ILoad (c a : option Database) | ILookup (c a : option Database) (ip : jsstr).

Definition step (s : Service) (i : input) : Service :=
  match i with ILoad c a => loadDatabases c a s | ILookup c a ip => (lookup c a ip s).1 end.

Definition run (s : Service) (ins : list input) : Service := fold_left step ins s.

(** ** Facts *)

Lemma rem_range x : 0 <= x -> (-(1 # 2) <= jitter x <= 1 # 2)%Q.
Proof.
  intros Hx. unfold jitter. pose proof (Z.rem_bound_pos x 1000 Hx ltac:(lia)) as Hr. generalize dependent (Z.rem x 1000). intros r Hr.
  unfold Qle, Qdiv, Qminus, Qplus, Qmult, Qinv, Qopp, inject_Z. cbn. lia.
Qed.

Lemma round4_range a b x : (inject_Z a <= x <= inject_Z b)%Q -> (inject_Z a <= round4 x <= inject_Z b)%Q.
Proof.
  intros [Ha Hb]. unfold round4.
  assert (a * 10000 <= Qfloor (x * 10000 + (1 # 2)) <= b * 10000) as Hf.
  { split.
    - rewrite <- (Qfloor_Z (a * 10000)). apply Qfloor_resp_le. rewrite inject_Z_mult.
      apply (Qle_trans _ (x * 10000)); [by apply Qmult_le_compat_r|]. rewrite <- (Qplus_0_r (x * 10000)) at 1. by apply Qplus_le_r.
    - assert (Qfloor (x * 10000 + (1 # 2)) < b * 10000 + 1); [|lia]. rewrite Zlt_Qlt. eapply Qle_lt_trans; [apply Qfloor_le|].
      rewrite inject_Z_plus, inject_Z_mult. apply (Qle_lt_trans _ (inject_Z b * inject_Z 10000 + (1 # 2))).
      + apply Qplus_le_compat; [by apply Qmult_le_compat_r|done].
      + by apply Qplus_lt_r. }
  generalize dependent (Qfloor (x * 10000 + (1 # 2))). intros n Hn. unfold Qle, Qdiv, Qmult, Qinv, inject_Z. cbn. lia.
Qed.

Lemma clampTo_range m a b x : (inject_Z a <= x <= inject_Z b)%Q -> - m <= a -> b <= m -> (inject_Z a <= clampTo m x <= inject_Z b)%Q.
Proof.
  intros [Ha Hb] Hma Hmb. unfold clampTo. rewrite Zle_Qle in Hma, Hmb. split.
  - eapply Qle_trans; [|apply Q.le_max_r]. apply Q.min_glb; [|done]. eapply Qle_trans; [exact Ha|]. by eapply Qle_trans.
  - apply Q.max_lub; [eapply Qle_trans; [exact Hma|]; by eapply Qle_trans|]. eapply Qle_trans; [apply Q.le_min_r|done].
Qed.

Lemma coordinate_range m c k j : (-(1 # 2) <= j <= 1 # 2)%Q -> 0 <= k -> - m <= c - k -> c + k <= m ->
  (inject_Z (c - k) <= round4 (clampTo m (inject_Z c + j * inject_Z (2 * k))) <= inject_Z (c + k))%Q.
Proof.
  intros [Hl Hu] Hk Hm1 Hm2. apply round4_range, clampTo_range; [|done|done].
  assert (0 <= inject_Z (2 * k))%Q as H2 by (rewrite Zle_Qle in Hk; rewrite inject_Z_mult; by apply Qmult_le_0_compat).
  pose proof (Qmult_le_compat_r _ _ _ Hl H2) as H1. pose proof (Qmult_le_compat_r _ _ _ Hu H2) as H3.
  split.
  - eapply Qle_trans; [|apply Qplus_le_r, H1]. unfold Qle, Qplus, Qmult, Qopp, inject_Z. cbn. lia.
  - eapply Qle_trans; [apply Qplus_le_r, H3|]. unfold Qle, Qplus, Qmult, inject_Z. cbn. lia.
Qed.

Lemma centroid_within o : let '(_, lat, lon) := regionOf o in -85 <= lat - 8 /\ lat + 8 <= 85 /\ -180 <= lon - 15 /\ lon + 15 <= 180.
Proof. unfold regionOf. repeat (case_bool_step; [lia|]). lia. Qed.

Definition placed (c : Coordinate) (a b : Z) : Prop := match c with Computed q => (inject_Z a <= q <= inject_Z b)%Q | Stored _ => False end.

(** An estimate is honest: it names no country, city, network or provider, is
    marked provisional, and its point lies within eight degrees of latitude
    and fifteen of longitude of the centre of the region it names. *)
Theorem estimate_honest ip : (forall k, 0 <= octet ip k) -> let e := estimate ip in let '(r, lat, lon) := regionOf (octet ip 0) in
  i_country e = [] /\ i_city e = [] /\ i_asn e = [] /\ i_isp e = [] /\ precision e = estimated /\ provisional e = true /\ region e = Some r /\
  placed (i_lat e) (lat - 8) (lat + 8) /\ placed (i_lon e) (lon - 15) (lon + 15).
Proof.
  intros Ho. pose proof (centroid_within (octet ip 0)) as Hc. unfold estimate. destruct (regionOf (octet ip 0)) as [[r lat] lon].
  destruct Hc as (H1 & H2 & H3 & H4). pose proof (Ho 1%nat) as O1. pose proof (Ho 2%nat) as O2. pose proof (Ho 3%nat) as O3.
  cbn [i_country i_city i_asn i_isp precision provisional region i_lat i_lon]. do 7 (split; [reflexivity|]). split; cbn [placed].
  - change 16%Q with (inject_Z (2 * 8)). generalize dependent (octet ip). intros o _ O1 O2 O3. apply coordinate_range; [apply rem_range; lia|lia..].
  - change 30%Q with (inject_Z (2 * 15)). generalize dependent (octet ip). intros o _ O1 O2 O3. apply coordinate_range; [apply rem_range; lia|lia..].
Qed.

(** *** What is reported as fact *)

Definition backed (db : Database) (r : TacticalIntel) : Prop := exists rec lat lon, db (i_ip r) = Resolved rec /\
  numberAt (default (VMap []) (field rec "location")) "latitude" = Some lat /\
  numberAt (default (VMap []) (field rec "location")) "longitude" = Some lon /\ i_lat r = Stored lat /\ i_lon r = Stored lon.

Definition fair (dbs : list Database) (ip : jsstr) (r : TacticalIntel) : Prop :=
  i_ip r = ip /\ (provisional r = true /\ r = estimate ip \/ provisional r = false /\ exists db, db ∈ dbs /\ backed db r).

(** The databases an input may load. *)
Definition opens (i : input) : list Database := match i with ILoad (Some d) _ | ILookup (Some d) _ _ => [d] | _ => [] end.

Definition fair_service (dbs : list Database) (s : Service) : Prop :=
  (forall ip r, JsMap.get (cache s) ip = Some r -> fair dbs ip r) /\ (forall d, cityDb s = Some d -> d ∈ dbs).

Lemma query_backed dbs s ip r : (forall d, cityDb s = Some d -> d ∈ dbs) -> queryLocalDatabase s ip = Some r -> fair dbs ip r.
Proof.
  intros Hd. unfold queryLocalDatabase. destruct (cityDb s) as [look|]; [|done]. destruct (look ip) as [rec|] eqn:El; [|done].
  destruct (numberAt _ "latitude") as [lat|] eqn:Ea; [|done]. destruct (numberAt _ "longitude") as [lon|] eqn:Eo; [|done].
  destruct (asnOf (asnDb s) ip) as [a i]. intros [= <-]. split; [done|]. right. split; [done|]. exists look. split; [by apply Hd|].
  by exists rec, lat, lon.
Qed.

Lemma estimate_fair dbs ip : fair dbs ip (estimate ip).
Proof. unfold fair, estimate. destruct (regionOf (octet ip 0)) as [[r lat] lon] eqn:E. split; [done|]. left. done. Qed.

Lemma lookup_fair dbs c a ip s : fair_service dbs s -> (forall d, c = Some d -> d ∈ dbs) ->
  fair dbs ip (lookup c a ip s).2 /\ fair_service dbs (lookup c a ip s).1.
Proof.
  intros [Hc Hd] Hn. unfold lookup. destruct (JsMap.get (cache s) ip) as [r|] eqn:E; [by split; [apply Hc|]|]. cbn [fst snd].
  set (s' := if dbTried s then s else loadDatabases c a s).
  assert (cache s' = cache s /\ forall d, cityDb s' = Some d -> d ∈ dbs) as [Ec Hd'] by (subst s'; destruct (dbTried s); done).
  assert (fair dbs ip match queryLocalDatabase s' ip with Some r => r | None => estimate ip end) as Hr.
  { destruct (queryLocalDatabase s' ip) as [r|] eqn:Eq; [by apply (query_backed dbs s')|apply estimate_fair]. }
  split; [done|]. split; [|done]. cbn [cache]. intros j r. rewrite Ec.
  destruct (decide (ip = j)) as [<-|Hne]; [rewrite JsMap.get_set_eq; by intros [= <-]|]. rewrite JsMap.get_set_ne by done. apply Hc.
Qed.

(** No location is made up: whatever was looked up and loaded before, every
    answer is about the address asked for, and it is either the estimate,
    marked provisional, or carries the coordinates that a loaded database
    holds for the address. *)
Theorem locations_backed ins c a ip : let dbs := concat (map opens (ins ++ [ILookup c a ip])) in
  fair dbs ip (lookup c a ip (run new ins)).2.
Proof.
  cbn zeta. set (dbs := concat (map opens (ins ++ [ILookup c a ip]))).
  assert (forall i d, i ∈ ins ++ [ILookup c a ip] -> d ∈ opens i -> d ∈ dbs) as Hin.
  { intros i d Hi Hd. subst dbs. apply list_elem_of_In, in_concat. exists (opens i). split; [apply in_map|]; by apply list_elem_of_In. }
  assert (forall l s, (forall i, i ∈ l -> i ∈ ins ++ [ILookup c a ip]) -> fair_service dbs s -> fair_service dbs (run s l)) as Hrun.
  { intros l. unfold run. induction l as [|i l IH]; intros s Hl Hs; [done|]. cbn [fold_left]. apply IH; [intros j Hj; apply Hl; by right|].
    assert (forall d, d ∈ opens i -> d ∈ dbs) as Ho by (intros d; apply Hin, Hl; by left).
    destruct i as [c' a'|c' a' ip']; cbn [step].
    - split; [apply Hs|]. cbn. intros d ->. apply Ho. by left.
    - apply lookup_fair; [done|]. intros d ->. apply Ho. by left. }
  apply lookup_fair.
  - apply Hrun; [intros i Hi; apply elem_of_app; by left|]. split; [intros j r; done|done].
  - intros d ->. apply (Hin (ILookup (Some d) a ip)); [apply elem_of_app; right; by left|by left].
Qed.

(** Addresses of the ranges 177-179 and 186-188, which the estimate lists as
    Latin American, are always placed in Europe, as are those of 180-183,
    which it lists as Asian. *)
Theorem ranges_shadowed o : between 177 183 o || between 186 188 o = true ->
  isLacnic o || isApnic o = true /\ regionOf o = ("Europe / Eurasia"%string, 50, 15).
Proof.
  unfold regionOf, isLacnic, isApnic, isRipe, between. intros Ho. split; [lia|].
  assert ((176 <=? o) && (o <=? 188) = true) as -> by lia. by rewrite !orb_true_r.
Qed.
End geoip.

(** ** Concrete runs *)

Lemma estimate_honest_witness : let '(r, lat, lon) := regionOf (octet (js "41.2.3.4") 0) in
  region (estimate (js "41.2.3.4")) = Some r /\ placed (i_lat (estimate (js "41.2.3.4"))) (lat - 8) (lat + 8).
Proof.
  assert (forall k, 0 <= octet (js "41.2.3.4") k) as Ho.
  { intros k. do 4 (destruct k as [|k]; [vm_compute; discriminate|]). unfold octet.
    rewrite lookup_ge_None_2; [reflexivity|]. vm_compute (length _). lia. }
  pose proof (estimate_honest (js "41.2.3.4") Ho) as He. cbn zeta in He. destruct (regionOf (octet (js "41.2.3.4") 0)) as [[r lat] lon]. tauto.
Defined.

Lemma ranges_shadowed_witness : regionOf 187 = ("Europe / Eurasia"%string, 50, 15).
Proof. apply (ranges_shadowed 187). reflexivity. Defined.
End GeoIp.
