(* ===== verification/Config.v ===== *)
(** * Configuration

    Models [src/orchestrator/core/config_schema.ts] (the schema of the
    environment and [loadConfig]),
    [src/orchestrator/infrastructure/config/env_config_provider.ts],
    [src/orchestrator/app/configuration_validator.ts] and the checks of
    [src/orchestrator/infrastructure/system/hardening_manager.ts].  The numbers
    and addresses that zod reads are parameters; a configuration is the object
    [safeParse] returns, its keys in the order of the schema.  The texts of
    errors and log lines are left out. *)

From S2P Require Import Prelude Result JsMap JsString Cidr.
Open Scope Z_scope.

(** JavaScript numbers as far as the configuration uses them. *)
Class Numbers := {
  Num : Type;
  ofZ : Z -> Num;
  (** [Number(s)]; no value is [NaN], which zod rejects *)
  coerceNumber : jsstr -> option Num;
  toNumber : jsstr -> Num;
  numString : Num -> jsstr;
  isOne : Num -> bool;
}.

Module Config.
Import JsString.

(** The process environment. *)
Definition Env : Type := list (jsstr * jsstr).
Definition env_get (e : Env) (k : string) : option jsstr := JsMap.get e (js k).

(** ** Secrets *)

Definition is_lowercase (c : Z) : bool := (97 <=? c) && (c <=? 122).
Definition is_uppercase (c : Z) : bool := (65 <=? c) && (c <=? 90).
Definition is_letter (c : Z) : bool := is_lowercase c || is_uppercase c.

(** [\W] *)
Definition nonWord (c : Z) : bool := negb (is_letter c || is_digit c || (c =? 95)).

Definition refineSecret (s : jsstr) : bool :=
  let hasLower := existsb is_lowercase s in
  let hasUpper := existsb is_uppercase s in
  let hasDigit := existsb is_digit s in
  let hasSpecial := existsb (fun c => negb (is_letter c || is_digit c)) s in
  (hasLower && hasUpper && hasDigit) || (hasLower && hasUpper && hasSpecial).

Definition SecuritySecret (s : jsstr) : bool := (32 <=? Z.of_nat (length s)) && refineSecret s.

(** ** Switches *)

Definition TRUTHY : list string := ["true"; "1"; "yes"; "on"]%string.
Definition FALSY : list string := ["false"; "0"; "no"; "off"; ""]%string.

(** No value is a rejected text. *)
Definition EnvBoolean (d : bool) (raw : option jsstr) : option bool :=
  match raw with
  | None => Some d
  | Some r =>
      let normalized := toLowerCase (Cidr.trim r) in
      if existsb (fun x => bool_decide (js x = normalized)) TRUTHY then Some true
      else if existsb (fun x => bool_decide (js x = normalized)) FALSY then Some false
      else None
  end.

(** ** The schema *)

Inductive Field :=
| Secret
| Text (d : string)
| OptionalText
| OptionalUrl
| Number (d : Z)
| Switch (d : bool)
| Choice (vs : list string) (d : string).

Definition ConfigSchema : list (string * Field) :=
  [("PORT", Number 8000); ("API_TOKEN", Secret); ("MESH_SECRET", Secret); ("ALLOWED_ORIGINS", Text "self");
   ("TLS_CERT_PATH", OptionalText); ("TLS_KEY_PATH", OptionalText); ("SESSION_TTL_HOURS", Number 24);
   ("LOG_LEVEL", Choice ["DEBUG"; "INFO"; "WARN"; "ERROR"] "INFO");
   ("ENVIRONMENT", Choice ["development"; "production"; "test"] "development");
   ("CTS_DEV_MODE", Switch false); ("STRICT_HARDWARE_INTEGRITY", Switch true);
   ("REMOTE_SYSLOG_URL", OptionalUrl); ("SYSLOG_HOST", OptionalText); ("SYSLOG_PORT", Number 514);
   ("SYSLOG_TRANSPORT", Choice ["udp"; "tcp"; "tls"] "udp"); ("SYSLOG_CA_PATH", OptionalText);
   ("INTEL_ALLOWLIST", Text "1.1.1.1,1.0.0.1,8.8.8.8,8.8.4.4,127.0.0.1,0.0.0.0,192.168.,10.,172.16.");
   ("INTEL_SYNC_INTERVAL_HOURS", Number 1);
   ("PILOT_MODE", Switch false); ("SHADOW_MODE", Switch false); ("STRICT_POLICY_ENFORCEMENT", Switch false);
   ("AUTO_RESTORE_LKG", Switch false); ("SHADOW_MODE_DURATION_HOURS", Number 24);
   ("AUDIT_RETENTION_DAYS", Number 90); ("AUDIT_MAX_EVENTS", Number 10000); ("STEALTH_ENABLED", Switch true);
   ("ALLOW_HARDWARE_BYPASS", Switch false); ("SECURE_ENVIRONMENT_TOKEN", OptionalText);
   ("SECURE_BYPASS_TOKEN", OptionalText); ("SINGLE_NODE", Switch false); ("ALLOW_SMALL_QUORUM", Switch true);
   ("GATEWAY_IP", OptionalText); ("PILOT_CHECKIN_IP", Text "8.8.8.8"); ("MESH_DOMAIN", Text "cts-mesh.internal");
   ("MESH_ALLOWED_SUBNETS", OptionalText); ("PKI_SECRET", OptionalText)]%string.

(** The values of a configuration, over the type of numbers. *)
Inductive CVal (N : Type) := CStr (s : jsstr) | CNum (n : N) | CBool (b : bool).
Arguments CStr {N} _.
Arguments CNum {N} _.
Arguments CBool {N} _.

Section config.
Context `{Numbers} (isUrl : jsstr -> bool).

(** [AppConfig]: the keys that are not [undefined]. *)
Definition AppConfig : Type := list (string * CVal Num).

(** What the schema makes of a variable: rejected, [undefined], or a value. *)
Definition readField (f : Field) (raw : option jsstr) : option (option (CVal Num)) :=
  match f, raw with
  | Secret, Some s => if SecuritySecret s then Some (Some (CStr s)) else None
  | Secret, None => None
  | Text d, _ => Some (Some (CStr (default (js d) raw)))
  | OptionalText, _ => Some (CStr <$> raw)
  | OptionalUrl, None => Some None
  | OptionalUrl, Some s => if isUrl s then Some (Some (CStr s)) else None
  | Number d, None => Some (Some (CNum (ofZ d)))
  | Number d, Some s => (fun n => Some (CNum n)) <$> coerceNumber s
  | Switch d, _ => (fun b => Some (CBool b)) <$> EnvBoolean d raw
  | Choice vs d, None => Some (Some (CStr (js d)))
  | Choice vs d, Some s => if existsb (fun x => bool_decide (js x = s)) vs then Some (Some (CStr s)) else None
  end.

Fixpoint parseFields (fs : list (string * Field)) (e : Env) : option AppConfig :=
  match fs with
  | [] => Some []
  | (k, f) :: fs =>
      match readField f (env_get e k), parseFields fs e with
      | Some v, Some c => Some (match v with Some v => (k, v) :: c | None => c end)
      | _, _ => None
      end
  end.

(** No value is the exception. *)
Definition loadConfig (e : Env) : option AppConfig := parseFields ConfigSchema e.

(** ** The provider *)

Definition field (c : AppConfig) (k : string) : option (CVal Num) := JsMap.get c k.

Definition ToString (v : CVal Num) : jsstr :=
  match v with CStr s => s | CNum n => numString n | CBool b => if b then js "true" else js "false" end.

(** [e] is the environment at the time of the call. *)
Definition getEnv (c : AppConfig) (e : Env) (k : string) : option jsstr :=
  match field c k with Some v => Some (ToString v) | None => env_get e k end.

Definition getToken (c : AppConfig) : option (CVal Num) := field c "API_TOKEN".
Definition getMeshSecret (c : AppConfig) : option (CVal Num) := field c "MESH_SECRET".

Definition getNumber (c : AppConfig) (k : string) (d : Num) : Num :=
  match field c k with
  | None => d
  | Some (CNum n) => n
  | Some (CStr s) => toNumber s
  | Some (CBool b) => ofZ (if b then 1 else 0)
  end.

Definition getBoolean (c : AppConfig) (k : string) (d : bool) : bool :=
  match field c k with
  | None => d
  | Some (CBool b) => b
  | Some (CStr s) => bool_decide (s = js "true")
  | Some (CNum n) => isOne n
  end.

(** ** The validator *)

Inductive Fault := Missing (k : string) | Short (k : string) | Simple (k : string) | NotStrict | Bypassable.

Definition requiredVars : list string :=
  ["API_TOKEN"; "PKI_SECRET"; "MESH_SECRET"; "SECURE_BYPASS_TOKEN"; "SECURE_ENVIRONMENT_TOKEN"; "ENVIRONMENT"]%string.

(** [!val] *)
Definition absent (v : option jsstr) : bool := match v with None | Some [] => true | _ => false end.

Definition complexEnough (s : jsstr) : bool :=
  existsb is_uppercase s && existsb is_lowercase s && existsb (fun c => is_digit c || nonWord c || (c =? 95)) s.

Definition validateSecret (c : AppConfig) (e : Env) (k : string) : list Fault :=
  match getEnv c e k with
  | None | Some [] => []
  | Some s => (if Z.of_nat (length s) <? 32 then [Short k] else []) ++ (if complexEnough s then [] else [Simple k])
  end.

Definition isProduction (c : AppConfig) (e : Env) : bool := bool_decide (getEnv c e "ENVIRONMENT" = Some (js "production")).

Definition validate (c : AppConfig) (e : Env) : list Fault :=
  flat_map (fun k => if absent (getEnv c e k) then [Missing k] else []) requiredVars ++
  validateSecret c e "API_TOKEN" ++ validateSecret c e "MESH_SECRET" ++ validateSecret c e "PKI_SECRET" ++
  (if isProduction c e then
     (if bool_decide (getEnv c e "STRICT_HARDWARE_INTEGRITY" = Some (js "true")) then [] else [NotStrict]) ++
     (if bool_decide (getEnv c e "ALLOW_HARDWARE_BYPASS" = Some (js "true")) then [Bypassable] else [])
   else []).

(** ** Hardening *)

(** [applyProductionHardening]: false is the exception. *)
Definition applyProductionHardening (c : AppConfig) (e : Env) : bool :=
  negb (isProduction c e) ||
  (negb (getBoolean c "CTS_DEV_MODE" false) && negb (getBoolean c "ALLOW_HARDWARE_BYPASS" false) &&
   getBoolean c "STRICT_HARDWARE_INTEGRITY" true).

(** [dropCapabilities]: what is reported, for the outcome of the system call;
    a failed one is an error in production only, and no error leaves it. *)
Inductive DropReport := NotLinux | Dropped | DropFailed.
Definition dropCapabilities (linux : bool) (c : AppConfig) (e : Env) (call : settled bool unit) : DropReport :=
  if negb linux then NotLinux
  else match call with
       | Resolved success => if negb success && isProduction c e then DropFailed else Dropped
       | Rejected _ => DropFailed
       end.

(** ** Facts *)

Lemma letters_split c : (is_digit c || nonWord c || (c =? 95)) = negb (is_letter c).
Proof.
  unfold nonWord, is_letter, is_lowercase, is_uppercase, is_digit.
  repeat match goal with |- context [?a <=? ?b] => destruct (Z.leb_spec a b) | |- context [?a =? ?b] => destruct (Z.eqb_spec a b) end;
    simpl; try done; lia.
Qed.

Lemma existsb_same {A} (f g : A -> bool) l : (forall x, f x = g x) -> existsb f l = existsb g l.
Proof. intros Hfg. induction l as [|x l IH]; simpl; [done|]. by rewrite Hfg, IH. Qed.

Lemma digits_or_special s :
  existsb is_digit s || existsb (fun c => negb (is_letter c || is_digit c)) s = existsb (fun c => negb (is_letter c)) s.
Proof.
  induction s as [|c s IH]; [done|]. simpl. rewrite <-IH.
  assert (is_digit c = true -> is_letter c = false) as Hd.
  { unfold is_digit, is_letter, is_lowercase, is_uppercase. rewrite andb_true_iff, !Z.leb_le, orb_false_iff, !andb_false_iff, !Z.leb_gt. lia. }
  destruct (is_digit c); [rewrite (Hd eq_refl)|]; destruct (is_letter c), (existsb is_digit s); simpl; auto using orb_true_r.
Qed.

(** The two checks of a secret, in the schema and in the validator, accept the
    same texts. *)
Theorem secret_checks_agree s : complexEnough s = refineSecret s.
Proof.
  unfold complexEnough, refineSecret. rewrite <-andb_orb_distrib_r, digits_or_special.
  rewrite (existsb_same (fun c => is_digit c || nonWord c || (c =? 95)) (fun c => negb (is_letter c))) by apply letters_split.
  by rewrite (andb_comm (existsb is_uppercase s)).
Qed.

(** *** What loading keeps *)

Lemma parse_get fs e c k : NoDup fs.*1 -> parseFields fs e = Some c ->
  field c k = match JsMap.get fs k with
              | Some f => default None (readField f (env_get e k))
              | None => None
              end /\ (forall f, JsMap.get fs k = Some f -> is_Some (readField f (env_get e k))).
Proof.
  unfold field. revert c. induction fs as [|[k' f] fs IH]; intros c Hnd; [by intros [= <-]|].
  cbn [parseFields]. apply NoDup_cons in Hnd as [Hk Hnd].
  destruct (readField f (env_get e k')) as [v|] eqn:Er; [|done].
  destruct (parseFields fs e) as [c'|] eqn:Ep; [|done]. intros [= <-].
  destruct (IH c' Hnd eq_refl) as [IHg IHs]. cbn [JsMap.get]. case_decide as Hd.
  - subst k'. rewrite Er. split; [|by intros f' [= <-]].
    destruct v as [v|]; cbn [JsMap.get default]; [by rewrite decide_True|].
    rewrite IHg. destruct (JsMap.get fs k) as [f'|] eqn:Ef; [|done].
    exfalso. apply Hk. apply JsMap.get_Some_elem in Ef. apply list_elem_of_fmap. by exists (k, f').
  - destruct v as [v|]; cbn [JsMap.get]; [by rewrite decide_False|]. done.
Qed.

Lemma schema_nodup : NoDup ConfigSchema.*1.
Proof. apply (bool_decide_unpack _). vm_compute. exact I. Qed.

(** The value of a field that always has one. *)
Definition settledField (f : Field) : bool := match f with OptionalText | OptionalUrl => false | _ => true end.

Lemma read_settled f raw : settledField f = true -> forall v, readField f raw = Some v -> is_Some v.
Proof. destruct f, raw; simpl; intros; simplify_option_eq; try case_match; simplify_eq; eauto; by destruct (EnvBoolean _ _); simplify_eq/=. Qed.

Lemma loaded_field e c k f : loadConfig e = Some c -> JsMap.get ConfigSchema k = Some f -> settledField f = true ->
  exists v, readField f (env_get e k) = Some (Some v) /\ field c k = Some v.
Proof.
  intros Hl Hf Hs. destruct (parse_get _ _ _ k schema_nodup Hl) as [Hg Hr]. rewrite Hf in Hg.
  destruct (Hr f Hf) as [v Hv]. destruct (read_settled _ _ Hs _ Hv) as [w ->]. exists w. by rewrite Hg, Hv.
Qed.

Lemma loaded_frozen e c e1 e2 k f : loadConfig e = Some c -> JsMap.get ConfigSchema k = Some f -> settledField f = true ->
  getEnv c e1 k = getEnv c e2 k.
Proof. intros Hl Hf Hs. unfold getEnv. by destruct (loaded_field _ _ _ _ Hl Hf Hs) as (v & _ & ->). Qed.

Lemma loaded_switch e c k d : loadConfig e = Some c -> JsMap.get ConfigSchema k = Some (Switch d) ->
  exists b, EnvBoolean d (env_get e k) = Some b /\ field c k = Some (CBool b).
Proof.
  intros Hl Hf. destruct (loaded_field _ _ _ _ Hl Hf eq_refl) as (v & Hr & Hv). simpl in Hr.
  destruct (EnvBoolean d (env_get e k)) as [b|]; simplify_eq/=. eauto.
Qed.

Lemma loaded_secret e c k : loadConfig e = Some c -> JsMap.get ConfigSchema k = Some Secret ->
  exists s, field c k = Some (CStr s) /\ SecuritySecret s = true /\ env_get e k = Some s.
Proof.
  intros Hl Hf. destruct (loaded_field _ _ _ _ Hl Hf eq_refl) as (v & Hr & Hv). simpl in Hr.
  destruct (env_get e k) as [s|]; [|done]. destruct (SecuritySecret s) eqn:Es; simplify_eq. eauto.
Qed.

(** A secret that the schema accepted has no fault. *)
Lemma secret_faultless c e k s : getEnv c e k = Some s -> SecuritySecret s = true -> validateSecret c e k = [] /\ absent (getEnv c e k) = false.
Proof.
  unfold SecuritySecret, validateSecret. rewrite andb_true_iff, Z.leb_le. intros -> [Hlen Hr].
  rewrite secret_checks_agree, Hr. destruct s as [|x s]; [simpl in Hlen; lia|].
  by rewrite (proj2 (Z.ltb_ge _ _)) by lia.
Qed.

Definition strong (o : option jsstr) : Prop := exists s, o = Some s /\ SecuritySecret s = true.

Lemma strong_some s : strong (Some s) <-> SecuritySecret s = true.
Proof. unfold strong. naive_solver. Qed.

Lemma validateSecret_strong c e k : absent (getEnv c e k) = false -> validateSecret c e k = [] <-> strong (getEnv c e k).
Proof.
  intros Ha. unfold validateSecret. destruct (getEnv c e k) as [[|x s]|]; [done| |done]. rewrite strong_some.
  unfold SecuritySecret. rewrite <-secret_checks_agree. generalize (Z.of_nat (length (x :: s))). intros n.
  destruct (Z.ltb_spec n 32), (Z.leb_spec 32 n), (complexEnough (x :: s)); simpl; done || lia.
Qed.

(** *** The gate in production *)

Definition present (o : option jsstr) : Prop := absent o = false.

Definition switched (e : Env) (k : string) (d b : bool) : Prop := EnvBoolean d (env_get e k) = Some b.

Lemma env_bool c e k b : field c k = Some (CBool b) -> getEnv c e k = Some (js "true") <-> b = true.
Proof. unfold getEnv. intros ->. destruct b; simpl; split; done || (intros [= ]). Qed.

Lemma if_nil {A} (b : bool) (x : A) : (if b then [] else [x]) = [] <-> b = true.
Proof. by destruct b. Qed.

Lemma missing_nil c e : flat_map (fun k => if absent (getEnv c e k) then [Missing k] else []) requiredVars = [] <->
  Forall (fun k => present (getEnv c e k)) requiredVars.
Proof.
  induction requiredVars as [|k l IH]; simpl; [done|]. rewrite Forall_cons, <-IH. unfold present.
  destruct (absent (getEnv c e k)); simpl; [|naive_solver]. split; [done|]. intros [? _]. done.
Qed.

(** In production the node starts with exactly the configurations that are
    safe: beside the secrets of the schema, a strong [PKI_SECRET], both
    environment tokens, hardware attestation on, no bypass and no developer
    mode, each switch read from the text of its variable. *)
Lemma gate_exact e c e' : loadConfig e = Some c -> isProduction c e' = true ->
  (validate c e' = [] /\ applyProductionHardening c e' = true) <->
  strong (getEnv c e' "PKI_SECRET") /\ present (getEnv c e' "SECURE_BYPASS_TOKEN") /\
  present (getEnv c e' "SECURE_ENVIRONMENT_TOKEN") /\
  switched e "STRICT_HARDWARE_INTEGRITY" true true /\ switched e "ALLOW_HARDWARE_BYPASS" false false /\
  switched e "CTS_DEV_MODE" false false.
Proof.
  intros Hl Hp.
  destruct (loaded_secret _ _ "API_TOKEN" Hl eq_refl) as (tok & Ht & Hts & _).
  destruct (loaded_secret _ _ "MESH_SECRET" Hl eq_refl) as (mesh & Hm & Hms & _).
  destruct (loaded_switch _ _ "STRICT_HARDWARE_INTEGRITY" _ Hl eq_refl) as (st & Hst & Hstf).
  destruct (loaded_switch _ _ "ALLOW_HARDWARE_BYPASS" _ Hl eq_refl) as (by_ & Hby & Hbyf).
  destruct (loaded_switch _ _ "CTS_DEV_MODE" _ Hl eq_refl) as (dev & Hdev & Hdevf).
  assert (getEnv c e' "API_TOKEN" = Some tok) as Ht' by (unfold getEnv; by rewrite Ht).
  assert (getEnv c e' "MESH_SECRET" = Some mesh) as Hm' by (unfold getEnv; by rewrite Hm).
  destruct (secret_faultless _ _ _ _ Ht' Hts) as [Hvt Hat]. destruct (secret_faultless _ _ _ _ Hm' Hms) as [Hvm Ham].
  assert (present (getEnv c e' "ENVIRONMENT")) as Hen.
  { unfold isProduction in Hp. apply bool_decide_eq_true in Hp. unfold present. by rewrite Hp. }
  assert (getEnv c e' "STRICT_HARDWARE_INTEGRITY" = Some (ToString (CBool st))) as Hgs by (unfold getEnv; by rewrite Hstf).
  assert (getEnv c e' "ALLOW_HARDWARE_BYPASS" = Some (ToString (CBool by_))) as Hgb by (unfold getEnv; by rewrite Hbyf).
  unfold validate, applyProductionHardening, getBoolean, switched. rewrite Hp, Hvt, Hvm, Hstf, Hbyf, Hdevf, Hst, Hby, Hdev.
  rewrite Hgs, Hgb, !app_nil_l.
  rewrite !app_nil, missing_nil. unfold requiredVars. rewrite !Forall_cons, Forall_nil.
  assert (present (getEnv c e' "API_TOKEN") /\ present (getEnv c e' "MESH_SECRET")) as [Hpt Hpm] by done.
  assert (present (getEnv c e' "PKI_SECRET") -> validateSecret c e' "PKI_SECRET" = [] <-> strong (getEnv c e' "PKI_SECRET")) as Hpki
    by apply validateSecret_strong.
  assert (strong (getEnv c e' "PKI_SECRET") -> present (getEnv c e' "PKI_SECRET")) as Hsp.
  { intros (s & Hs & Hss). destruct (secret_faultless _ _ _ _ Hs Hss) as [_ ?]. done. }
  destruct st, by_, dev; simpl; naive_solver.
Qed.
End config.
End Config.

(** ** A concrete environment *)

Module ConfigExample.
Import Config JsString.

#[export] Instance decimals : Numbers := {|
  Num := Z;
  ofZ := fun z => z;
  coerceNumber := fun s => if forallb is_digit s then Some (parse_base 10 s) else None;
  toNumber := fun s => parse_base 10 s;
  numString := decimal;
  isOne := fun z => z =? 1;
|}.

Definition secret0 : jsstr := js "Abcdefghijklmnopqrstuvwxyz012345".

Definition env0 : Env := map (fun e => (js e.1, js e.2))
  [("API_TOKEN", "Abcdefghijklmnopqrstuvwxyz012345"); ("MESH_SECRET", "Abcdefghijklmnopqrstuvwxyz012345");
   ("PKI_SECRET", "Abcdefghijklmnopqrstuvwxyz012345"); ("SECURE_BYPASS_TOKEN", "x"); ("SECURE_ENVIRONMENT_TOKEN", "x");
   ("ENVIRONMENT", "production"); ("PORT", "8443"); ("AUTO_RESTORE_LKG", "yes"); ("ALLOW_HARDWARE_BYPASS", " Off ")]%string.

Definition config0 : AppConfig := default [] (loadConfig (fun _ => false) env0).

Example config0_loads : loadConfig (fun _ => false) env0 = Some config0 /\ validate config0 env0 = [] /\
  applyProductionHardening config0 env0 = true /\ getNumber config0 "PORT" 8000 = 8443 /\
  getBoolean config0 "AUTO_RESTORE_LKG" false = true.
Proof. split_and!; vm_compute; reflexivity. Qed.

(** A text that is neither is refused. *)
Example odd_switch_refused : loadConfig (fun _ => false) (env0 ++ [(js "PILOT_MODE", js "maybe")]) = None.
Proof. vm_compute. reflexivity. Qed.

(** Developer mode is caught by the hardening and not by the validator. *)
Example dev_mode_refused : let e := env0 ++ [(js "CTS_DEV_MODE", js "1")] in let c := default [] (loadConfig (fun _ => false) e) in
  loadConfig (fun _ => false) e = Some c /\ validate c e = [] /\ applyProductionHardening c e = false.
Proof. split_and!; vm_compute; reflexivity. Qed.
End ConfigExample.
