(* ===== verification/Boot.v ===== *)
(** * Start-up and the life cycle of the node

    Models [src/orchestrator/domain/analysis/system_lifecycle_service.ts]
    (crash loops, the hardware gate, signals, the "last known good" copy of the
    store), [lifecycle_service.ts] beside it (periodic tasks),
    [src/orchestrator/app/lifecycle_manager.ts],
    [src/orchestrator/app/application_manager.ts] and the sequence of
    [SovereignApp.boot].  [Lkg] is the copy of the store, [Tasks] the periodic
    tasks, [Boot] the rest.  The modelled [Config], [Tpm], [Policy], [Schemas]
    and [Launch] are the parts it composes; [Deno.Kv] gives its entries in an
    order that is a parameter, and what it refuses is an input.  Log lines are
    left out. *)

From S2P Require Import Prelude Result Effects JsMap JsString Paths Schemas Policy Canonical Cidr Launch Tpm Config.
Open Scope Z_scope.

(** ** The last known good copy *)

Module Lkg.

(** [Deno.KvKeyPart] *)
Inductive Part := PText (s : jsstr) | PNumber (z : Z) | PBool (b : bool) | PBytes (l : list Z).

#[export] Instance Part_eq : EqDecision Part.
Proof. solve_decision. Defined.

#[export] Instance Part_countable : Countable Part.
Proof.
  refine (inj_countable' (fun p => match p with PText s => inl (inl s) | PNumber z => inl (inr z) | PBool b => inr (inl b) | PBytes l => inr (inr l) end)
    (fun p => match p with inl (inl s) => PText s | inl (inr z) => PNumber z | inr (inl b) => PBool b | inr (inr l) => PBytes l end) _).
  by intros [].
Defined.

Abbreviation Key := (list Part).

Definition lkg : Part := PText (js "lkg").

Definition isCopy (k : Key) : bool := match k with p :: _ => bool_decide (p = lkg) | [] => false end.

Section lkg.
Context {V : Type}.
Implicit Types (db : gmap Key V) (entries batch : list (Key * V)).

Definition applyBatch batch db : gmap Key V := fold_left (fun m e => <[e.1 := e.2]> m) batch db.

(** The loop over the entries the iterator yields, with the open batch, the
    number of entries copied and the number of commits; [commits i] is whether
    the [i]-th commit goes through. *)
Fixpoint copyLoop (size : nat) (commits : nat -> bool) entries batch (count i : nat) db : gmap Key V * settled nat unit :=
  match entries with
  | [] => if commits i then (applyBatch batch db, Resolved count) else (db, Rejected tt)
  | (k, v) :: entries =>
      if isCopy k then copyLoop size commits entries batch count i db
      else
        let batch := batch ++ [(lkg :: k, v)] in
        let count := S count in
        if (count mod size =? 0)%nat then
          if commits i then copyLoop size commits entries [] count (S i) (applyBatch batch db) else (db, Rejected tt)
        else copyLoop size commits entries batch count i db
  end.

(** [LifecycleService]: batches of 100. *)
Definition lkgSnapshot (commits : nat -> bool) entries db : gmap Key V * settled nat unit := copyLoop 100 commits entries [] 0 0 db.

Definition BATCH_SIZE : nat := 20.

(** [SystemLifecycleService.createLkgSnapshot]; the exception is logged. *)
Definition createLkgSnapshot (commits : nat -> bool) (marked : bool) (now : V) entries db : gmap Key V :=
  let '(db', r) := copyLoop BATCH_SIZE commits entries [] 0 0 db in
  match r with
  | Resolved _ => if marked then <[[PText (js "lkg_metadata"); PText (js "last_snapshot")] := now]> db' else db'
  | Rejected _ => db'
  end.

(** [list({ prefix: ["lkg"] })] *)
Definition underLkg (e : Key * V) : bool := match e.1 with p :: _ :: _ => bool_decide (p = lkg) | _ => false end.

Fixpoint restoreLoop (sets : nat -> bool) entries (i : nat) db : gmap Key V :=
  match entries with
  | [] => db
  | (k, v) :: entries => if sets i then restoreLoop sets entries (S i) (<[tail k := v]> db) else db
  end.

Definition tryRestoreLkg (sets : nat -> bool) (listed : list (Key * V)) db : gmap Key V :=
  restoreLoop sets (List.filter underLkg listed) 0 db.

(** *** Facts *)

(** The copies of the entries seen. *)
Definition copies entries : list (Key * V) := map (fun e => (lkg :: e.1, e.2)) (List.filter (fun e => negb (isCopy e.1)) entries).

Lemma applyBatch_app b b' db : applyBatch (b ++ b') db = applyBatch b' (applyBatch b db).
Proof. apply fold_left_app. Qed.

(** When every commit goes through, all copies are written. *)
Lemma copyLoop_all size commits entries : (forall i, commits i = true) -> forall batch count i db,
  copyLoop size commits entries batch count i db =
    (applyBatch (batch ++ copies entries) db, Resolved (count + length (copies entries))%nat).
Proof.
  intros Hc. induction entries as [|[k v] entries IH]; intros batch count i db; cbn [copyLoop].
  - rewrite Hc. unfold copies. simpl. by rewrite app_nil_r, Nat.add_0_r.
  - unfold copies. cbn [List.filter fst]. destruct (isCopy k); cbn [negb]; [apply IH|].
    cbn [map fst snd length]. fold (copies entries). rewrite Hc.
    case_match; rewrite IH; simpl; rewrite <-?applyBatch_app, <-?app_assoc; do 2 f_equal; lia.
Qed.

Lemma applyBatch_lookup b db k : NoDup b.*1 ->
  applyBatch b db !! k = match JsMap.get b k with Some v => Some v | None => db !! k end.
Proof.
  revert db. induction b as [|[k' v] b IH]; intros db Hnd; [done|]. apply NoDup_cons in Hnd as [Hk Hnd]. simpl.
  rewrite IH by done. destruct (decide (k' = k)) as [->|Hne]; [|by rewrite lookup_insert_ne].
  rewrite (proj2 (JsMap.get_None b k)), lookup_insert_eq; done.
Qed.

(** A store listed in any order. *)
Definition lists (l : list (Key * V)) db : Prop := l ≡ₚ map_to_list db.

Lemma lists_nodup l db : lists l db -> NoDup l.*1.
Proof. intros Hl. rewrite Hl. apply NoDup_fst_map_to_list. Qed.

Lemma lists_get l db k : lists l db -> JsMap.get l k = db !! k.
Proof.
  intros Hl. apply option_eq. intros v. rewrite <-elem_of_map_to_list, <-Hl. split; [apply JsMap.get_Some_elem|].
  apply JsMap.elem_get. by apply (lists_nodup l db).
Qed.

Lemma filter_nodup (f : Key * V -> bool) l : NoDup l.*1 -> NoDup (List.filter f l).*1.
Proof.
  induction l as [|e l IH]; simpl; [done|]. intros [Hk Hnd]%NoDup_cons. destruct (f e); [|auto]. simpl. apply NoDup_cons.
  split; [|auto]. intros (e' & He & Hin)%list_elem_of_fmap. apply Hk. rewrite He. apply list_elem_of_fmap.
  exists e'. split; [done|]. apply list_elem_of_In in Hin. apply filter_In in Hin as [Hin _]. by apply list_elem_of_In.
Qed.

Lemma lkg_filter_get (f : Key -> bool) (l : list (Key * V)) k : JsMap.get (List.filter (fun e => f e.1) l) k = if f k then JsMap.get l k else None.
Proof.
  induction l as [|[k' v] l IH]; simpl; [by destruct (f k)|]. destruct (f k') eqn:E; simpl; case_decide as Hd; subst; rewrite ?E; try done.
  by rewrite IH, E.
Qed.

Lemma prefixed_nodup l : NoDup l.*1 -> NoDup ((map (fun e : Key * V => (lkg :: e.1, e.2)) l).*1).
Proof.
  intros Hnd. replace ((map _ l).*1) with (cons lkg <$> l.*1) by (rewrite <-!list_fmap_compose; done).
  by apply NoDup_fmap_2; [intros ?? [= ]|].
Qed.

Lemma prefixed_get l k : JsMap.get (map (fun e : Key * V => (lkg :: e.1, e.2)) l) (lkg :: k) = JsMap.get l k.
Proof. induction l as [|[k' v] l IH]; simpl; [done|]. do 2 case_decide; simplify_eq; done. Qed.

(** What a complete copy leaves under a key. *)
Lemma copied_lookup l db k : lists l db ->
  applyBatch (copies l) db !! (lkg :: k) = match db !! k with Some v => if isCopy k then db !! (lkg :: k) else Some v | None => db !! (lkg :: k) end.
Proof.
  intros Hl. unfold copies. rewrite applyBatch_lookup by (apply prefixed_nodup, filter_nodup; by eapply lists_nodup).
  rewrite prefixed_get, (lkg_filter_get (fun k => negb (isCopy k))), (lists_get l db) by done.
  by destruct (isCopy k), (db !! k).
Qed.

Lemma restoreLoop_lookup sets entries : (forall i, sets i = true) -> Forall (fun e => underLkg e = true) entries -> NoDup entries.*1 ->
  forall i db k, restoreLoop sets entries i db !! k = match JsMap.get entries (lkg :: k) with Some v => Some v | None => db !! k end.
Proof.
  intros Hs. induction entries as [|[k' v] entries IH]; intros Hu Hnd i db k; [done|]. cbn [restoreLoop]. rewrite Hs.
  apply Forall_cons in Hu as [Hk' Hu]. apply NoDup_cons in Hnd as [Hn Hnd]. rewrite IH by done. cbn [JsMap.get].
  unfold underLkg in Hk'. simpl in Hk'. destruct k' as [|p [|q r]]; try done. apply bool_decide_eq_true in Hk' as ->. cbn [tail].
  case_decide as Hd; simplify_eq.
  - rewrite (proj2 (JsMap.get_None entries _) Hn). by rewrite lookup_insert_eq.
  - rewrite lookup_insert_ne; [done|congruence].
Qed.

(** Restoring brings back exactly the copies. *)
Lemma restored_lookup sets l db k : (forall i, sets i = true) -> lists l db -> k <> [] ->
  tryRestoreLkg sets l db !! k = match db !! (lkg :: k) with Some v => Some v | None => db !! k end.
Proof.
  intros Hs Hl Hk. unfold tryRestoreLkg. rewrite restoreLoop_lookup; [|done| |].
  - unfold underLkg. rewrite (lkg_filter_get (fun k => match k with p :: _ :: _ => bool_decide (p = lkg) | _ => false end)).
    destruct k as [|p k]; [done|]. rewrite bool_decide_eq_true_2, (lists_get l db) by done. done.
  - apply Forall_forall. intros e He%list_elem_of_In. by apply filter_In in He as [_ ?].
  - apply filter_nodup. by eapply lists_nodup.
Qed.

(** Restoring the last known good copy: after a snapshot whose commits all go through and
    any changes outside the copies, a restore whose writes all go through
    brings back every entry the store had at the snapshot, also the ones
    deleted since, such as a revoked session or key; an entry that was already
    gone at the snapshot but is still in an older copy comes back too, and only
    the rest keeps its present state. *)
Theorem restored_exactly commits sets l l' db db1 n db2 k :
  (forall i, commits i = true) -> (forall i, sets i = true) -> lists l db -> lkgSnapshot commits l db = (db1, Resolved n) ->
  (forall k, db2 !! (lkg :: k) = db1 !! (lkg :: k)) -> lists l' db2 -> k <> [] -> isCopy k = false ->
  tryRestoreLkg sets l' db2 !! k =
    match db !! k, db !! (lkg :: k) with
    | Some v, _ => Some v
    | None, Some old => Some old
    | None, None => db2 !! k
    end.
Proof.
  intros Hc Hs Hl Hsnap Hd Hl' Hk Hcp. rewrite restored_lookup by done. rewrite Hd.
  unfold lkgSnapshot in Hsnap. rewrite copyLoop_all in Hsnap by done. simpl in Hsnap. injection Hsnap as <- _.
  rewrite copied_lookup by done. rewrite Hcp. by destruct (db !! k), (db !! (lkg :: k)).
Qed.
End lkg.

(** *** A revoked session *)

Definition session : list Part := [PText (js "sessions"); PText (js "a")].
Definition before : gmap Key Z := {[session := 1; [PText (js "x")] := 2]}.
Definition revoked : gmap Key Z := delete session (lkgSnapshot (fun _ => true) (map_to_list before) before).1.

Lemma restored_exactly_witness : revoked !! session = None /\ tryRestoreLkg (fun _ => true) (map_to_list revoked) revoked !! session = Some 1.
Proof.
  split; [by vm_compute|].
  rewrite (restored_exactly (fun _ => true) (fun _ => true) (map_to_list before) (map_to_list revoked) before
    (lkgSnapshot (fun _ => true) (map_to_list before) before).1 2%nat revoked session); try done.
  - by vm_compute.
  - intros k. unfold revoked. by rewrite lookup_delete_ne.
  - by vm_compute.
Defined.

(** A commit that fails in the middle leaves a copy of two states. *)
Example torn_copy :
  let old : gmap Key Z := {[[PText (js "a")] := 2; [PText (js "b")] := 2; [lkg; PText (js "a")] := 1; [lkg; PText (js "b")] := 1]} in
  let '(db, r) := copyLoop 1 (fun i => (i =? 0)%nat) [([PText (js "a")], 2); ([PText (js "b")], 2)] [] 0 0 old in
  r = Rejected tt /\ db !! [lkg; PText (js "a")] = Some 2 /\ db !! [lkg; PText (js "b")] = Some 1.
Proof. by vm_compute. Qed.
End Lkg.

(** ** Periodic tasks *)

Module Tasks.
Import Schemas.

Record ScheduledTask := mkTask {
  t_id : string; t_agent : string; t_command : string; intervalMs : Z; jitterMs : Z; lastRun : option Z }.

Definition defaultTasks : list ScheduledTask :=
  [mkTask "kernel-attestation" "analyzer" "ATTEST_KERNEL" 300000 30000 None;
   mkTask "file-integrity-baseline" "watchfile" "GetStatus" 600000 0 None;
   mkTask "pcap-health-check" "netcap" "GetStatus" 60000 0 None]%string.

(** [random] is the secure random number for the task. *)
Definition jitterOf (t : ScheduledTask) (random : Z) : Z := if jitterMs t =? 0 then 0 else random.

Definition isDue (now random : Z) (t : ScheduledTask) : bool := intervalMs t + jitterOf t random <=? now - default 0 (lastRun t).

Definition ranAt (now : Z) (t : ScheduledTask) : ScheduledTask :=
  mkTask (t_id t) (t_agent t) (t_command t) (intervalMs t) (jitterMs t) (Some now).

(** One turn of the loop of [tick], up to its [await]: the [i]-th task, the time
    the tick began and the random number.  Ticks are not guarded against each
    other, so their turns interleave in any order. *)
Record Turn := mkTurn { turn_task : nat; turn_now : Z; turn_random : Z }.

Definition turn (ts : list ScheduledTask) (v : Turn) : list ScheduledTask * option (nat * Z) :=
  match ts !! turn_task v with
  | Some t => if isDue (turn_now v) (turn_random v) t
              then (<[turn_task v := ranAt (turn_now v) t]> ts, Some (turn_task v, turn_now v)) else (ts, None)
  | None => (ts, None)
  end.

Fixpoint turns (ts : list ScheduledTask) (vs : list Turn) : list ScheduledTask * list (nat * Z) :=
  match vs with
  | [] => (ts, [])
  | v :: vs => let '(ts1, r) := turn ts v in let '(ts2, log) := turns ts1 vs in (ts2, option_list r ++ log)
  end.

(** A tick on its own. *)
Definition tick (now : Z) (randoms : list Z) (ts : list ScheduledTask) : list ScheduledTask * list (nat * Z) :=
  turns ts (imap (fun i r => mkTurn i now r) randoms).

(** [sendCommand(task.agent, { type, payload: {}, id })] *)
Definition request (t : ScheduledTask) (id : jsstr) : Json :=
  JObj [("type", JStr (js (t_command t))); ("payload", JObj []); ("id", JStr id)]%string.

(** *** Facts *)

Definition runsOf (i : nat) (log : list (nat * Z)) : list Z := map snd (List.filter (fun r => (r.1 =? i)%nat) log).

(** Nothing comes sooner than the interval after its predecessor. *)
Fixpoint paced (d : Z) (last : option Z) (l : list Z) : Prop :=
  match l with
  | [] => True
  | x :: l => match last with Some p => p + d <= x | None => True end /\ paced d (Some x) l
  end.

Lemma turns_paced i d vs : Forall (fun v => 0 <= turn_random v) vs -> forall ts t, ts !! i = Some t -> intervalMs t = d ->
  paced d (lastRun t) (runsOf i (turns ts vs).2).
Proof.
  induction vs as [|[j now r] vs IH]; intros Hr ts t Ht Hd; [done|]. apply Forall_cons in Hr as [Hr0 Hr]. cbn [turns turn].
  unfold turn. cbn [turn_task turn_now turn_random] in *. destruct (ts !! j) as [t'|] eqn:Ej.
  - destruct (isDue now r t') eqn:Edue.
    + specialize (IH Hr (<[j:=ranAt now t']> ts)). destruct (turns _ vs) as [ts2 log]. cbn [snd option_list app].
      unfold runsOf in *. simpl. destruct (Nat.eqb_spec j i) as [->|Hne].
      * rewrite Ht in Ej. injection Ej as <-. simpl. split.
        -- unfold isDue, jitterOf in Edue. apply Z.leb_le in Edue. destruct (lastRun t) as [p|]; [|done]. simpl in Edue. case_match; lia.
        -- apply (IH (ranAt now t)); [|done]. apply list_lookup_insert_eq. by eapply lookup_lt_Some.
      * apply IH; [|done]. by rewrite list_lookup_insert_ne.
    + specialize (IH Hr ts t Ht Hd). by destruct (turns ts vs).
  - specialize (IH Hr ts t Ht Hd). by destruct (turns ts vs).
Qed.

(** However ticks overlap, two runs of a periodic task are at least its
    interval apart. *)
Theorem tasks_paced i t vs : defaultTasks !! i = Some t -> Forall (fun v => 0 <= turn_random v) vs ->
  paced (intervalMs t) None (runsOf i (turns defaultTasks vs).2).
Proof.
  intros Ht Hr. assert (lastRun t = None) as <- by (unfold defaultTasks in Ht; destruct i as [|[|[|]]]; simpl in Ht; by simplify_eq).
  by apply (turns_paced i _ vs Hr defaultTasks t).
Qed.

Lemma tasks_paced_witness :
  let vs := [mkTurn 2 60000 0; mkTurn 2 70000 0; mkTurn 0 300000 5; mkTurn 2 120000 0; mkTurn 0 310000 0] in
  runsOf 2 (turns defaultTasks vs).2 = [60000; 120000] /\ paced 60000 None (runsOf 2 (turns defaultTasks vs).2).
Proof.
  split; [by vm_compute|]. apply (tasks_paced 2 (mkTask "pcap-health-check" "netcap" "GetStatus" 60000 0 None)); [done|].
  repeat constructor; done.
Defined.

Section requests.
Context `{Paths.StdPath} `{Zod} (gateway : option jsstr).

Lemma refused_type id : validateRequest gateway "analyzer" (request (mkTask "kernel-attestation" "analyzer" "ATTEST_KERNEL" 300000 30000 None) id) = false.
Proof.
  apply not_true_is_false. intros Hv. change (validateRequest gateway "analyzer") with (fun r => safeParse (AnalyzerRequestSchema) (Some r)) in Hv.
  eapply (object_field _ _ "type") in Hv; [|simpl; tauto]. rewrite zod_enum in Hv. by vm_compute in Hv.
Qed.

Lemma watch_accepted id : validateRequest gateway "watchfile" (request (mkTask "file-integrity-baseline" "watchfile" "GetStatus" 600000 0 None) id) = true.
Proof.
  change (validateRequest gateway "watchfile") with (fun r => safeParse (WatchfileRequestSchema) (Some r)). cbv beta.
  unfold WatchfileRequestSchema, IdSchema, request. rewrite zod_object. read_fields. by rewrite !zod_optional, zod_nullable, zod_string, zod_enum.
Qed.

Lemma netcap_accepted id : validateRequest gateway "netcap" (request (mkTask "pcap-health-check" "netcap" "GetStatus" 60000 0 None) id) = true.
Proof.
  change (validateRequest gateway "netcap") with (fun r => safeParse NetcapRequestSchema (Some r)). cbv beta.
  unfold NetcapRequestSchema, IdSchema, request. rewrite zod_object. read_fields.
  rewrite !zod_optional, zod_nullable, zod_string, zod_enum, zod_object. read_fields. by rewrite !zod_optional.
Qed.

(** Which periodic requests reach their agent: the status requests do, whatever
    their id, and the kernel attestation never does, because the analyzer's
    schema has no such command. *)
Theorem attestation_never_requested i t id : defaultTasks !! i = Some t ->
  validateRequest gateway (t_agent t) (request t id) = negb (i =? 0)%nat.
Proof.
  intros Ht. destruct i as [|[|[|]]]; simpl in Ht; simplify_eq; [apply refused_type|apply watch_accepted|apply netcap_accepted].
Qed.
End requests.

#[local] Instance plain_paths : Paths.StdPath :=
  {| Paths.normalize := fun p => p; Paths.join_path := fun a b => a ++ js "/" ++ b; Paths.resolve := fun p => p;
     Paths.dirname := fun p => p; Paths.realPathSync := fun p => Some p |}.

Lemma attestation_never_requested_witness :
  validateRequest None "analyzer" (request (mkTask "kernel-attestation" "analyzer" "ATTEST_KERNEL" 300000 30000 None) (js "7")) = false.
Proof. apply (attestation_never_requested None 0 (mkTask _ _ _ _ _ _)). reflexivity. Defined.
End Tasks.

(** ** Boot *)

Module Boot.
Import JsString Config.

(** *** Crash loops *)

(** [["boot", "last_attempt"]] in the store of its own *)
Record BootCounter := mkCounter { count : Z; timestamp : Z }.

Definition CRASH_WINDOW : Z := 300000.

(** [readable] and [writable]: the store opens and can be read, and the write
    goes through. *)
Definition checkCrashLoop (readable writable : bool) (now : Z) (stored : option BootCounter) : option BootCounter * bool :=
  if negb readable then (stored, false)
  else
    let n := match stored with Some e => if now - timestamp e <? CRASH_WINDOW then count e + 1 else 1 | None => 1 end in
    if writable then (Some (mkCounter n now), 3 <=? n) else (stored, false).

(** Starts at the times given, on a store that works. *)
Definition starts (ts : list Z) (stored : option BootCounter) : option BootCounter :=
  fold_left (fun s t => (checkCrashLoop true true t s).1) ts stored.

Lemma starts_counted ts s : (match s with Some e => 1 <= count e | None => True end) ->
  match starts ts s with Some e => 1 <= count e | None => True end.
Proof.
  revert s. induction ts as [|t ts IH]; intros s Hs; [done|]. simpl. apply IH. unfold checkCrashLoop. simpl.
  destruct s as [[c t']|]; simpl in *; [case_match; simpl; lia|lia].
Qed.

(** Safe mode is entered exactly when the start follows the previous one within
    five minutes and that one its own predecessor, whatever happened before. *)
Theorem safe_mode_exact ts a b c : let s := starts (ts ++ [a; b]) None in
  (checkCrashLoop true true c s).2 = (b - a <? CRASH_WINDOW) && (c - b <? CRASH_WINDOW).
Proof.
  unfold starts. rewrite fold_left_app. fold (starts ts None). pose proof (starts_counted ts None I) as Hn.
  destruct (starts ts None) as [[n t]|]; cbn in Hn |- *; unfold CRASH_WINDOW;
    repeat match goal with |- context [?x <? ?y] => destruct (Z.ltb_spec x y) | |- context [?x <=? ?y] => destruct (Z.leb_spec x y) end; simpl; try done; lia.
Qed.

(** *** Signals *)

Record Signals := mkSignals { isShuttingDown : bool; listeners : list string }.
Inductive signalEffect := ECleanup.

(** [registerSignalHandlers]: [accepts] is whether the runtime takes the listener. *)
Definition registerSignalHandlers (accepts : string -> bool) (s : Signals) : Signals :=
  mkSignals (isShuttingDown s) (fold_left (fun l x => if accepts x && negb (bool_decide (x ∈ l)) then l ++ [x] else l) ["SIGINT"; "SIGTERM"]%string (listeners s)).

Definition unregisterSignalHandlers (s : Signals) : Signals := mkSignals (isShuttingDown s) [].

Definition onSignal (x : string) (s : Signals) : Signals * list signalEffect :=
  if bool_decide (x ∈ listeners s) && negb (isShuttingDown s) then (mkSignals true (listeners s), [ECleanup]) else (s, []).

(** *** The hardware gate *)

(** [parseInt(s)] with no radix: a hexadecimal prefix counts. *)
Fixpoint hexPrefix (s : jsstr) : jsstr := match s with c :: t => if is_hex c then c :: hexPrefix t else [] | [] => [] end.
Definition parseIntAuto (s : jsstr) : option Z :=
  let '(sign, t) := match Cidr.trimStart s with 45 :: t => (-1, t) | 43 :: t => (1, t) | t => (1, t) end in
  match t with
  | 48 :: x :: t' => if (x =? 120) || (x =? 88) then match hexPrefix t' with [] => None | ds => Some (sign * parse_base 16 ds) end
                     else Cidr.parseInt s
  | _ => Cidr.parseInt s
  end.

Definition goldenPrefix : jsstr := js "TPM_GOLDEN_PCR_".

Definition goldenPcrs (e : Env) : Tpm.Pcrs :=
  fold_left (fun m kv => if startsWith kv.1 goldenPrefix
                         then match parseIntAuto (drop (length goldenPrefix) kv.1) with Some i => JsMap.set m i kv.2 | None => m end
                         else m) e [].

Section boot.
Context `{Numbers} (isUrl : jsstr -> bool) `{Canonical.JsNumber} (sha256 : jsstr -> jsstr).
Context (trust : list Tpm.effect -> Tpm.effect -> settled Tpm.Answer unit) (hmac : jsstr -> list Z).

(** [isValidBypass] *)
Definition validBypass (c : AppConfig) (e : Env) : bool :=
  match getEnv c e "SECURE_BYPASS_TOKEN" with
  | None | Some [] => false
  | Some t => (32 <=? Z.of_nat (length t)) && Compare.secureCompare hmac (getEnv c e "SECURE_ENVIRONMENT_TOKEN") (Some t)
              && negb (isProduction c e)
  end.

(** What the trust root says of the machine, with the switches the manager reads. *)
Definition attested (c : AppConfig) (e : Env) : settled bool unit :=
  (Tpm.verifyIntegrity sha256 trust (isProduction c e)
     (getBoolean c "ALLOW_HARDWARE_BYPASS" false) (Some (goldenPcrs e)) []).2.

Definition verifyHardware (c : AppConfig) (e : Env) : settled bool unit :=
  match attested c e with
  | Rejected x => Rejected x
  | Resolved isHardwareSecure => Resolved (isHardwareSecure || validBypass c e)
  end.

(** *** The life-cycle manager *)

(** [setupSafetyAndErrorHandlers] with the configuration the manager was given,
    if any: the environment it leaves and whether it restores the copy. *)
Definition setupSafety (config : option AppConfig) (safe : bool) (e : Env) : Env * bool :=
  if safe then
    let e := JsMap.set (JsMap.set e (js "SHADOW_MODE") (js "true")) (js "STRICT_POLICY_ENFORCEMENT") (js "false") in
    (e, match config with Some c => bool_decide (getEnv c e "AUTO_RESTORE_LKG" = Some (js "true")) | None => false end)
  else (e, false).

(** The variables as [PolicyEngine] compares them. *)
Definition flagText (v : option jsstr) : option string :=
  match v with
  | None => None
  | Some s => Some (if bool_decide (s = js "true") then "true" else if bool_decide (s = js "false") then "false" else "")%string
  end.

Definition policyFor (c : AppConfig) (e : Env) : PolicyEngine.SecurityPolicy :=
  PolicyEngine.new (flagText (getEnv c e "STRICT_POLICY_ENFORCEMENT")) (flagText (getEnv c e "SHADOW_MODE")) None.

(** *** The sequence *)

Inductive Stop := BadConfiguration | InvalidConfiguration (fs : list Fault) | Unhardened | AuditBroken | HardwareBroken.

Record Node := mkNode { n_config : AppConfig; n_counter : option BootCounter; n_env : Env; n_safe : bool; n_restored : bool;
                        n_policy : PolicyEngine.SecurityPolicy }.

(** [initializeInfrastructure]: the chain of the ledger must verify, joining the
    mesh may fail, the hardware must pass. *)
Definition initializeInfrastructure (auditOk : bool) (c : AppConfig) (e : Env) : settled unit Stop :=
  if negb auditOk then Rejected AuditBroken
  else match verifyHardware c e with Resolved true => Resolved tt | _ => Rejected HardwareBroken end.

(** [boot] up to the services: the environment, the crash counter and its
    store, the time, and the result of starting the ledger. *)
Definition boot (e : Env) (stored : option BootCounter) (readable writable : bool) (now : Z) (auditOk : bool) : settled Node Stop :=
  match loadConfig isUrl e with
  | None => Rejected BadConfiguration
  | Some c =>
      match validate c e with
      | f :: fs => Rejected (InvalidConfiguration (f :: fs))
      | [] =>
          if negb (applyProductionHardening c e) then Rejected Unhardened
          else
            let '(counter, safe) := checkCrashLoop readable writable now stored in
            (* the manager is constructed without the configuration *)
            let '(e', restored) := setupSafety None safe e in
            match initializeInfrastructure auditOk c e' with
            | Rejected x => Rejected x
            | Resolved _ => Resolved (mkNode c counter e' safe restored (policyFor c e'))
            end
      end
  end.

(** *** Facts *)

Lemma bypass_production c e : isProduction c e = true -> validBypass c e = false.
Proof. intros Hp. unfold validBypass. rewrite Hp. repeat case_match; try done. by rewrite andb_false_r. Qed.

(** What a start went through. *)
Lemma boot_inv e stored r w now auditOk n : boot e stored r w now auditOk = Resolved n ->
  exists c, loadConfig isUrl e = Some c /\ validate c e = [] /\ applyProductionHardening c e = true /\ auditOk = true /\
    let s := checkCrashLoop r w now stored in
    let e' := (setupSafety None s.2 e).1 in
    verifyHardware c e' = Resolved true /\ n = mkNode c s.1 e' s.2 false (policyFor c e').
Proof.
  unfold boot. destruct (loadConfig isUrl e) as [c|]; [|done]. destruct (validate c e) as [|f fs] eqn:Ev; [|done].
  destruct (applyProductionHardening c e) eqn:Eg; [|done]. destruct (checkCrashLoop r w now stored) as [counter safe].
  cbn [negb]. destruct (setupSafety None safe e) as [e' restored] eqn:Es. unfold initializeInfrastructure.
  destruct auditOk; [|done]. cbn [negb]. destruct (verifyHardware c e') as [[]|] eqn:Eh; try done. intros [= <-].
  assert (restored = false) as -> by (unfold setupSafety in Es; by destruct safe; simplify_eq).
  exists c. cbn [fst snd]. rewrite Es. by split_and!.
Qed.

(** *** What a production start went through *)

Lemma production_kept c config safe e : loadConfig isUrl e = Some c -> isProduction c (setupSafety config safe e).1 = isProduction c e.
Proof.
  intros Hl. unfold isProduction. by rewrite (loaded_frozen isUrl e c _ e "ENVIRONMENT" _ Hl eq_refl eq_refl).
Qed.

(** A node in production starts exactly when its configuration is safe, the chain
    of the ledger verifies and the hardware attests the machine: no bypass token
    replaces the attestation, whatever the environment holds. *)
Theorem production_boot_exact e stored r w now auditOk c : loadConfig isUrl e = Some c -> isProduction c e = true ->
  (exists n, boot e stored r w now auditOk = Resolved n) <->
  (strong (getEnv c e "PKI_SECRET") /\ present (getEnv c e "SECURE_BYPASS_TOKEN") /\
   present (getEnv c e "SECURE_ENVIRONMENT_TOKEN") /\
   switched e "STRICT_HARDWARE_INTEGRITY" true true /\ switched e "ALLOW_HARDWARE_BYPASS" false false /\
   switched e "CTS_DEV_MODE" false false) /\ auditOk = true /\
  attested c (setupSafety None (checkCrashLoop r w now stored).2 e).1 = Resolved true.
Proof.
  intros Hl Hp. rewrite <-(gate_exact isUrl e c e Hl Hp).
  set (e' := (setupSafety None (checkCrashLoop r w now stored).2 e).1).
  assert (verifyHardware c e' = Resolved true <-> attested c e' = Resolved true) as Hv.
  { unfold verifyHardware. rewrite bypass_production by (subst e'; by rewrite production_kept).
    destruct (attested c e') as [[]|]; simpl; split; done. }
  split.
  - intros (n & (c' & Hl' & Hval & Hh & Ha & Hhw & _)%boot_inv). rewrite Hl in Hl'. injection Hl' as <-. by rewrite <-Hv.
  - intros ([Hval Hh] & -> & Hat%Hv). unfold boot. rewrite Hl, Hval, Hh. cbn [negb]. subst e'.
    destruct (checkCrashLoop r w now stored) as [counter safe]. cbn [snd] in Hat.
    destruct (setupSafety None safe e) as [e' restored]. cbn [fst] in Hat. unfold initializeInfrastructure. rewrite Hat. simpl. eauto.
Qed.

(** Safe mode does nothing: however often the node crashed, the policy it starts
    with is the one of its configuration before the safe mode was declared, and
    the last known good copy is never restored, even with AUTO_RESTORE_LKG set,
    because the provider answers from the configuration already loaded and
    the manager has none. *)
Theorem safe_mode_without_effect e stored r w now auditOk n : boot e stored r w now auditOk = Resolved n ->
  n_policy n = policyFor (n_config n) e /\ n_restored n = false.
Proof.
  intros (c & Hl & _ & _ & _ & _ & ->)%boot_inv. simpl. split; [|done]. unfold policyFor.
  by rewrite (loaded_frozen isUrl e c _ e "STRICT_POLICY_ENFORCEMENT" _ Hl eq_refl eq_refl),
    (loaded_frozen isUrl e c _ e "SHADOW_MODE" _ Hl eq_refl eq_refl).
Qed.

(** *** Daemons *)

Inductive Platform := linuxHost | ubuntu | macos | windowsHost | otherHost.

Definition daemons (p : Platform) : list string :=
  ["decoy"; "watchfile"; "netcap"; "analyzer"; "tunnel"]%string ++
  match p with
  | linuxHost | ubuntu => ["enforcer"]
  | macos => ["sentinel-darwin"]
  | windowsHost => ["telemetry-win"; "enforcer-win"]
  | otherHost => []
  end%string.

Definition isCritical (name : string) : bool := match Launch.registered name with Some c => Launch.critical c | None => false end.

(** The loop: [spawns name] is whether the agent runs, an exception included.
    The agents asked for, and whether it ended without an exception. *)
Fixpoint startEach (spawns : string -> settled bool unit) (l : list string) : list string * bool :=
  match l with
  | [] => ([], true)
  | s :: l =>
      let started := match spawns s with Resolved b => b | Rejected _ => false end in
      if negb started && isCritical s then ([s], false)
      else let '(asked, done_) := startEach spawns l in (s :: asked, done_)
  end.

(** The agents asked for, and whether the sentinel is told to hide the process. *)
Definition startDaemons (spawns : string -> settled bool unit) (p : Platform) : list string * bool * bool :=
  let '(asked, done_) := startEach spawns (daemons p) in
  if done_ then (asked ++ ["sentinel"%string], match spawns "sentinel"%string with Resolved true => true | _ => false end, true)
  else (asked, false, false).

Definition isStarted (spawns : string -> settled bool unit) (s : string) : bool := match spawns s with Resolved b => b | Rejected _ => false end.

Lemma startEach_spec spawns l : (startEach spawns l).1 ⊆ l /\
  (startEach spawns l).2 = forallb (fun s => isStarted spawns s || negb (isCritical s)) l.
Proof.
  induction l as [|s l [IH1 IH2]]; [done|]. cbn [startEach forallb]. fold (isStarted spawns s). destruct (startEach spawns l) as [asked b].
  simpl in *. rewrite <-IH2. destruct (isStarted spawns s), (isCritical s); simpl; (split; [set_solver|done]).
Qed.

(** The sentinel is started exactly when every critical agent of the host was:
    one that fails keeps it from being asked for at all, while the node itself
    goes on. *)
Theorem sentinel_last spawns p : "sentinel"%string ∈ (startDaemons spawns p).1.1 <->
  forall s, s ∈ daemons p -> isCritical s = true -> isStarted spawns s = true.
Proof.
  assert ("sentinel"%string ∉ daemons p) as Hn by (destruct p; apply (bool_decide_unpack _); by vm_compute).
  unfold startDaemons. generalize dependent (daemons p). intros ds Hn. destruct (startEach_spec spawns ds) as [Hsub Hb].
  destruct (startEach spawns ds) as [asked b]. simpl in Hsub, Hb.
  destruct b; symmetry in Hb; rename Hb into Ef; simpl.
  - rewrite forallb_forall in Ef. split; [|intros _; apply elem_of_app; right; by left]. intros _ s Hs Hc. specialize (Ef s (proj1 (list_elem_of_In _ _) Hs)).
    by rewrite Hc, orb_false_r in Ef.
  - split; [by intros ?%Hsub|]. intros Hall. exfalso. apply not_true_iff_false in Ef. apply Ef, forallb_forall. intros s Hs%list_elem_of_In.
    specialize (Hall s Hs). destruct (isCritical s); [by rewrite Hall|by rewrite orb_true_r].
Qed.
End boot.

(** However many signals arrive, the clean-up runs once. *)
Theorem shutdown_once xs s : Forall (fun x => x ∈ listeners s) xs -> isShuttingDown s = false -> xs <> [] ->
  (fold_left (fun '(s, fx) x => let '(s', fx') := onSignal x s in (s', fx ++ fx')) xs (s, [])).2 = [ECleanup].
Proof.
  assert (forall xs fx l, (fold_left (fun '(s, fx) x => let '(s', fx') := onSignal x s in (s', fx ++ fx')) xs (mkSignals true l, fx)).2 = fx) as Hdone.
  { intros ys. induction ys as [|x ys IH]; intros fx l; [done|]. cbn [fold_left]. unfold onSignal at 2. cbn [isShuttingDown negb]. rewrite andb_false_r, app_nil_r. apply IH. }
  destruct s as [b l], xs as [|x xs]; [done|]. simpl. intros [Hx _]%Forall_cons -> _. cbn [fold_left]. unfold onSignal at 2. simpl.
  rewrite bool_decide_eq_true_2 by done. simpl. apply Hdone.
Qed.

(** *** Concrete starts *)

Import ConfigExample.
#[local] Existing Instance CanonicalInt.int_number.

Definition hmac0 (s : jsstr) : list Z := s.
Definition crashed : option BootCounter := Some (mkCounter 2 1000).
Definition boot0 := boot (fun _ => false) Tpm.digest0 (Tpm.agent0 Tpm.good0) hmac0.

(** Third start within the window, with AUTO_RESTORE_LKG set. *)
Definition node0 : settled Node Stop := boot0 env0 crashed true true 2000 true.

Definition booted (s : settled Node Stop) (test : Node -> bool) : bool := match s with Resolved n => test n | Rejected _ => false end.

Lemma production_boot_exact_witness : exists n, boot0 env0 crashed true true 2000 true = Resolved n.
Proof.
  apply (proj2 (production_boot_exact (fun _ => false) Tpm.digest0 (Tpm.agent0 Tpm.good0) hmac0 env0 crashed true true 2000 true config0
    ltac:(vm_compute; reflexivity) ltac:(vm_compute; reflexivity))).
  split_and!; try (vm_compute; reflexivity). exists secret0. split; vm_compute; reflexivity.
Defined.

Lemma safe_mode_without_effect_witness : exists n, node0 = Resolved n /\ n_safe n = true /\
  PolicyEngine.isShadowMode (n_policy n) = false /\ n_restored n = false.
Proof.
  assert (booted node0 (fun n => n_safe n) = true) as Hb by (vm_compute; reflexivity).
  unfold node0, boot0 in *. match goal with |- context [?b = Resolved _] => destruct b as [n|x] eqn:E end; [|discriminate Hb]. exists n. split; [done|]. split; [exact Hb|].
  destruct (safe_mode_without_effect (fun _ => false) Tpm.digest0 (Tpm.agent0 Tpm.good0) hmac0 env0 crashed true true 2000 true n E) as [Hp ->].
  split; [|done]. rewrite Hp. assert (n_config n = config0) as ->; [|vm_compute; reflexivity].
  destruct (boot_inv (fun _ => false) Tpm.digest0 (Tpm.agent0 Tpm.good0) hmac0 _ _ _ _ _ _ _ E) as (c & Hc & _ & _ & _ & _ & ->).
  cbn [n_config]. unfold config0. by rewrite Hc.
Defined.

(** A machine whose registers changed does not start. *)
Example changed_machine_stops : match boot (fun _ => false) Tpm.digest0 (Tpm.agent0 Tpm.bad0) hmac0 env0 None true true 2000 true with
  Rejected HardwareBroken => True | _ => False end.
Proof. vm_compute. exact I. Qed.

Example failed_watchfile : let spawns s := Resolved (negb (bool_decide (s = "watchfile"%string))) in
  startDaemons spawns ubuntu = (["decoy"; "watchfile"]%string, false, false).
Proof. by vm_compute. Qed.

Lemma shutdown_once_witness :
  (fold_left (fun '(s, fx) x => let '(s', fx') := onSignal x s in (s', fx ++ fx')) ["SIGTERM"; "SIGINT"]%string
     (registerSignalHandlers (fun _ => true) (mkSignals false []), [])).2 = [ECleanup].
Proof. apply shutdown_once; [|reflexivity|discriminate]. apply (bool_decide_unpack _). vm_compute. exact I. Defined.
End Boot.
