(* ===== verification/Anonymizer.v ===== *)
(** * Exit-node rotation

    Models [src/orchestrator/domain/protection/anonymization_service.ts], class
    [AnonymizationService], with the VPN it drives:
    [src/orchestrator/infrastructure/system/protection/vpn/vpn.ts] and its three
    providers.  An operation runs to its [await] and resumes when the tunnel
    agent has answered, so operations interleave: the state keeps the rotations
    under way and the timers alive.  A request reaches the agent manager when
    the modelled [Schemas] accept it; [sendCommand] never rejects and its answer
    is looked at by nobody but the kill switch, where it is an input.
    [fetchDynamicNodes] is the empty list, as written.  Log lines and
    announcements are left out. *)

From S2P Require Import Prelude Result JsString Regex Paths Schemas.
Open Scope Z_scope.

Module Anonymizer.
Import JsString Regex Paths Schemas.

(** ** The VPN *)

Inductive Os := ubuntu | macos | windows.

Definition request (type : string) (payload : list (string * Json)) (id : jsstr) : Json :=
  JObj [("type", JStr (js type)); ("payload", JObj payload); ("id", JStr id)]%string.

Definition connectRequest (iface id : jsstr) : Json := request "CONNECT" [("interface"%string, JStr iface)] id.
Definition disconnectRequest (iface id : jsstr) : Json := request "DISCONNECT" [("interface"%string, JStr iface)] id.

(** [disconnect()] without an argument. *)
Definition defaultDisconnect (os : Os) : jsstr := match os with ubuntu => js "wg0" | macos => js "all" | windows => js "MeshVPN" end.

(** What the agent answers to [GET_STATUS]. *)
Record TunnelStatus := mkStatus { success : bool; active : option Json; active_interfaces : option (list jsstr) }.

Definition isActive (s : TunnelStatus) : bool := match active s with Some (JBool true) => true | _ => false end.

(** [isConnected()] without an argument: Ubuntu defaults to [wg0], the others
    ask for no interface. *)
Definition isConnected (os : Os) (s : TunnelStatus) : bool :=
  match os with
  | ubuntu => success s && (isActive s || bool_decide (js "wg0" ∈ default [] (active_interfaces s)))
  | _ => success s && isActive s
  end.

(** ** Data *)

Inductive StealthMode := TRADITIONAL | VPNGATE | TOR | OFF.

#[export] Instance StealthMode_eq : EqDecision StealthMode.
Proof. solve_decision. Defined.

Record AnonymizationNode := mkNode { country : string; ip : string; ping : Z }.

Definition nodePool : list AnonymizationNode :=
  [mkNode "Japan" "210.140.10.42" 42; mkNode "Germany" "85.214.132.11" 12; mkNode "Switzerland" "179.43.155.201" 18;
   mkNode "Sweden" "193.180.164.21" 22; mkNode "Netherlands" "45.129.2.14" 15; mkNode "Iceland" "31.209.137.10" 35]%string.

(** What resumes after a rotation: the rest of [start], of [setMode], or
    nothing for the timer's own. *)
Inductive Rest := ofStart | ofSwitch | ofTimer.

(** [rotationInterval] is the timer the service remembers, [timers] the ones
    that run; [killSwitch] is whether the remembered timer of the kill switch
    runs, which a shutdown stops and no later start sets anew; [pending] are
    the rotations waiting for the tunnel. *)
Record Service := mkService {
  rotationCount : Z; lastRotationTime : option jsstr; mode : StealthMode; currentNode : option AnonymizationNode;
  rotationInterval : option nat; timers : list (nat * Z); fresh : nat; killSwitch : option bool;
  pending : list (AnonymizationNode * Rest) }.

Definition new : Service := mkService 0 None OFF None None [] 0 None [].

Definition with_mode (m : StealthMode) (s : Service) : Service :=
  mkService (rotationCount s) (lastRotationTime s) m (currentNode s) (rotationInterval s) (timers s) (fresh s) (killSwitch s) (pending s).
Definition with_timers (r : option nat) (t : list (nat * Z)) (f : nat) (s : Service) : Service :=
  mkService (rotationCount s) (lastRotationTime s) (mode s) (currentNode s) r t f (killSwitch s) (pending s).
Definition with_killSwitch (b : option bool) (s : Service) : Service :=
  mkService (rotationCount s) (lastRotationTime s) (mode s) (currentNode s) (rotationInterval s) (timers s) (fresh s) b (pending s).
Definition with_pending (p : list (AnonymizationNode * Rest)) (s : Service) : Service :=
  mkService (rotationCount s) (lastRotationTime s) (mode s) (currentNode s) (rotationInterval s) (timers s) (fresh s) (killSwitch s) p.

Inductive effect := ETunnel (request : Json) | ELockdown.

(** ** Operations *)

Definition intervalMs (m : StealthMode) : Z := match m with TOR => 4 * 60 * 60 * 1000 | _ => 12 * 60 * 60 * 1000 end.

Definition isNot (n : option AnonymizationNode) (x : AnonymizationNode) : bool := negb (bool_decide (Some (ip x) = (ip <$> n))).

(** The pool to choose from; [random] is the index drawn from it. *)
Definition targetPool (current : option AnonymizationNode) : list AnonymizationNode :=
  match List.filter (isNot current) nodePool with [] => nodePool | l => l end.
Definition selectNode (current : option AnonymizationNode) (random : nat) : option AnonymizationNode := targetPool current !! random.

Definition vpnGateInterface (n : AnonymizationNode) : jsstr := js "vpngate-" ++ toLowerCase (js (country n)).
Definition traditionalInterface : jsstr := js "sovereign-exit-alpha".

Section service.
Context `{StdPath} `{Zod} (gateway : option jsstr) (os : Os) (hasFirewall : bool).

Definition send (r : Json) : list effect := if validateRequest gateway "tunnel" r then [ETunnel r] else [].

(** The [switch] of [rotate]. *)
Definition deploy (m : StealthMode) (n : AnonymizationNode) (id : jsstr) : list effect :=
  match m with
  | VPNGATE => send (connectRequest (vpnGateInterface n) id)
  | TRADITIONAL => send (connectRequest traditionalInterface id)
  | TOR | OFF => []
  end.

(** [rotate] up to its [await]; [random] is in the range of the pool. *)
Definition rotateBegin (random : nat) (id : jsstr) (rest : Rest) (s : Service) : Service * list effect :=
  match selectNode (currentNode s) random with
  | Some n => (with_pending (pending s ++ [(n, rest)]) s, deploy (mode s) n id)
  | None => (s, [])
  end.

Definition setTimer (s : Service) : Service :=
  with_timers (Some (fresh s)) (timers s ++ [(fresh s, intervalMs (mode s))]) (S (fresh s)) s.

Definition clearTimer (s : Service) : Service :=
  match rotationInterval s with
  | Some t => with_timers (rotationInterval s) (List.filter (fun x => negb (x.1 =? t)%nat) (timers s)) (fresh s) s
  | None => s
  end.

(** The end of a rotation, and of the operation that asked for it. *)
Definition rotated (n : AnonymizationNode) (now : jsstr) (s : Service) : Service :=
  mkService (rotationCount s + 1) (Some now) (mode s) (Some n) (rotationInterval s) (timers s) (fresh s) (killSwitch s) (pending s).

Definition rotateEnd (i : nat) (now : jsstr) (s : Service) : Service :=
  match pending s !! i with
  | Some (n, rest) =>
      let s := rotated n now (with_pending (take i (pending s) ++ drop (S i) (pending s)) s) in
      match rest with
      | ofStart => let s := setTimer s in with_killSwitch (Some (default true (killSwitch s))) s
      | ofSwitch => setTimer s
      | ofTimer => s
      end
  | None => s
  end.

Definition start (m : StealthMode) (random : nat) (id : jsstr) (s : Service) : Service * list effect :=
  let s := with_mode m s in
  if bool_decide (m = OFF) then (s, []) else rotateBegin random id ofStart s.

Definition setMode (m : StealthMode) (random : nat) (id : jsstr) (s : Service) : Service * list effect :=
  if bool_decide (mode s = m) then (s, [])
  else
    let s := clearTimer (with_mode m s) in
    if bool_decide (m = OFF) then (s, send (disconnectRequest (defaultDisconnect os) id)) else rotateBegin random id ofSwitch s.

(** A check of the kill switch that saw the status. *)
Definition checkTunnel (st : TunnelStatus) (s : Service) : list effect :=
  match mode s with
  | OFF | TOR => []
  | _ => if isConnected os st then [] else if hasFirewall then [ELockdown] else []
  end.

Definition onShutdown (s : Service) : Service :=
  let s := clearTimer s in with_mode OFF (with_killSwitch ((fun _ => false) <$> killSwitch s) s).

Definition getMode (s : Service) : StealthMode := mode s.

Record Telemetry := mkTelemetry { tm_mode : StealthMode; rotations : Z; lastRotation : jsstr; status : string; tm_node : option AnonymizationNode }.

Definition getTelemetry (s : Service) : Telemetry :=
  mkTelemetry (mode s) (rotationCount s) (default (js "NEVER") (lastRotationTime s))
    (if bool_decide (mode s = OFF) then "INACTIVE" else "ACTIVE") (currentNode s).

(** ** Steps *)

Inductive input :=
| IStart (m : StealthMode) (random : nat) (id : jsstr)
| ISetMode (m : StealthMode) (random : nat) (id : jsstr)
| IDeployed (i : nat) (now : jsstr)
| ITimer (t : nat) (random : nat) (id : jsstr)
| ICheck (st : TunnelStatus)
| IShutdown.

Definition step (s : Service) (i : input) : Service * list effect :=
  match i with
  | IStart m r id => start m r id s
  | ISetMode m r id => setMode m r id s
  | IDeployed i now => (rotateEnd i now s, [])
  | ITimer t r id => if existsb (fun x => (x.1 =? t)%nat) (timers s) then rotateBegin r id ofTimer s else (s, [])
  | ICheck st => (s, match killSwitch s with Some true => checkTunnel st s | _ => [] end)
  | IShutdown => (onShutdown s, [])
  end.

Fixpoint run (s : Service) (ins : list input) : Service * list effect :=
  match ins with
  | [] => (s, [])
  | i :: ins => let '(s1, fx1) := step s i in let '(s2, fx2) := run s1 ins in (s2, fx1 ++ fx2)
  end.

(** ** Which interfaces the policy admits *)

Lemma connect_valid iface id : validateRequest gateway "tunnel" (connectRequest iface id) = matches INTERFACE_NAME_REGEX iface && (length iface <=? 15)%nat.
Proof.
  change (validateRequest gateway "tunnel") with (fun r => safeParse TunnelRequestSchema (Some r)). cbv beta.
  unfold TunnelRequestSchema, IdSchema, InterfaceSchema, connectRequest, request. rewrite zod_object. read_fields.
  rewrite !zod_optional, zod_nullable, zod_string, zod_enum, zod_object. read_fields.
  rewrite !zod_optional, !zod_check, zod_string. cbn [check_ok]. by rewrite !andb_true_r.
Qed.

Definition tooLong : list string := ["Switzerland"; "Netherlands"]%string.

(** Names of more than fifteen characters are refused: two of the six exit
    nodes and the only traditional one. *)
Lemma gate_valid n id : n ∈ nodePool -> validateRequest gateway "tunnel" (connectRequest (vpnGateInterface n) id) = negb (bool_decide (country n ∈ tooLong)).
Proof.
  rewrite connect_valid. intros Hn. assert (Forall (fun n => matches INTERFACE_NAME_REGEX (vpnGateInterface n) && (length (vpnGateInterface n) <=? 15)%nat
    = negb (bool_decide (country n ∈ tooLong))) nodePool) as Hall by (apply (bool_decide_unpack _); vm_compute; exact I).
  rewrite Forall_forall in Hall. by apply Hall.
Qed.

Lemma traditional_invalid id : validateRequest gateway "tunnel" (connectRequest traditionalInterface id) = false.
Proof. rewrite connect_valid. by vm_compute. Qed.

(** ** Choosing a node *)

Lemma filter_pool current : List.filter (isNot current) nodePool <> [].
Proof.
  intros E. assert (forall x, In x nodePool -> Some (ip x) = (ip <$> current)) as Hx.
  { intros x Hx. destruct (isNot current x) eqn:En.
    - assert (In x (List.filter (isNot current) nodePool)) as Hi by (by apply filter_In). by rewrite E in Hi.
    - unfold isNot in En. apply negb_false_iff, bool_decide_eq_true in En. done. }
  pose proof (Hx (mkNode "Japan" "210.140.10.42" 42) ltac:(by left)) as H1. pose proof (Hx (mkNode "Germany" "85.214.132.11" 12) ltac:(by right; left)) as H2.
  rewrite <-H1 in H2. simpl in H2. discriminate H2.
Qed.

Lemma select_spec current r n : selectNode current r = Some n -> n ∈ nodePool /\ Some (ip n) <> (ip <$> current).
Proof.
  unfold selectNode, targetPool. pose proof (filter_pool current) as Hne.
  destruct (List.filter (isNot current) nodePool) as [|x l] eqn:E; [done|]. intros Hin%list_elem_of_lookup_2.
  rewrite <-E in Hin. apply list_elem_of_In, filter_In in Hin as [Hin Hn]. split; [by apply list_elem_of_In|].
  unfold isNot in Hn. by apply negb_true_iff, bool_decide_eq_false in Hn.
Qed.

(** A rotation that opens no tunnel counts as one: in traditional mode always, and
    with two of the six public nodes, the request is refused by the schema of
    the agent for the length of its name, nothing is sent, and when the
    rotation ends the node is the current one and the rotation is counted. *)
Theorem rotation_without_tunnel r id rest now s n : selectNode (currentNode s) r = Some n ->
  mode s = TRADITIONAL \/ mode s = VPNGATE /\ country n ∈ tooLong ->
  let '(s1, fx) := rotateBegin r id rest s in
  let s2 := rotateEnd (length (pending s)) now s1 in
  fx = [] /\ currentNode s2 = Some n /\ rotationCount s2 = rotationCount s + 1.
Proof.
  intros Hn Hm. unfold rotateBegin. rewrite Hn. split.
  - destruct (select_spec _ _ _ Hn) as [Hp _]. unfold deploy, send. destruct Hm as [->|[-> Hc]]; [by rewrite traditional_invalid|].
    rewrite gate_valid by done. by rewrite bool_decide_eq_true_2.
  - unfold rotateEnd. cbn [pending with_pending]. rewrite lookup_app_r, Nat.sub_diag by done. cbn. by destruct rest.
Qed.

(** Every rotation changes the exit: the new node is of the pool and not at the
    address of the present one. *)
Theorem exit_changes r id rest s n : selectNode (currentNode s) r = Some n ->
  pending (rotateBegin r id rest s).1 = pending s ++ [(n, rest)] /\ n ∈ nodePool /\ Some (ip n) <> (ip <$> currentNode s).
Proof. intros Hn. unfold rotateBegin. rewrite Hn. split; [done|]. by apply select_spec in Hn. Qed.

(** ** Tunnels are not closed *)

Definition asked (r : Json) : Prop :=
  (exists n id, n ∈ nodePool /\ r = connectRequest (vpnGateInterface n) id) \/
  (exists id, r = disconnectRequest (defaultDisconnect os) id).

Definition allowed (e : effect) : Prop := match e with ETunnel r => asked r | ELockdown => True end.

Lemma send_allowed r : (validateRequest gateway "tunnel" r = true -> asked r) -> Forall allowed (send r).
Proof. intros Hr. unfold send. destruct (validateRequest gateway "tunnel" r); [constructor; [by apply Hr|constructor]|constructor]. Qed.

Lemma rotate_allowed r id rest s : Forall allowed (rotateBegin r id rest s).2.
Proof.
  unfold rotateBegin. destruct (selectNode (currentNode s) r) as [n|] eqn:En; [|constructor]. apply select_spec in En as [Hn _].
  unfold deploy. simpl. destruct (mode s); try constructor; apply send_allowed.
  - by rewrite traditional_invalid.
  - intros _. left. eauto.
Qed.

Lemma step_allowed s i : Forall allowed (step s i).2.
Proof.
  destruct i; simpl; try constructor; unfold start, setMode, checkTunnel; repeat case_match; try apply rotate_allowed; repeat constructor.
  apply send_allowed. intros _. right. eauto.
Qed.

Lemma run_allowed ins : forall s, Forall allowed (run s ins).2.
Proof.
  induction ins as [|i ins IH]; intros s; [constructor|]. simpl. pose proof (step_allowed s i) as Hs. destruct (step s i) as [s1 fx1].
  specialize (IH s1). destruct (run s1 ins) as [s2 fx2]. by apply Forall_app.
Qed.

(** A tunnel that was opened is never closed: in any sequence of operations, an
    interface the agent was asked to connect is not one it is asked to
    disconnect, on any platform; switching the anonymization off and shutting
    down leave it up. *)
Theorem tunnels_stay_open ins s iface id id' :
  ETunnel (connectRequest iface id) ∈ (run s ins).2 -> ETunnel (disconnectRequest iface id') ∉ (run s ins).2.
Proof.
  intros Hc Hd. pose proof (run_allowed ins s) as Hall. rewrite Forall_forall in Hall.
  apply Hall in Hc as [(n & i & Hn & E)|(i & E)]; [|discriminate E]. apply Hall in Hd as [(n' & i' & _ & E')|(i' & E')]; [discriminate E'|].
  injection E as -> _. injection E' as E' _. unfold vpnGateInterface in E'. destruct os; discriminate E'.
Qed.

(** ** Interleavings *)

Lemma clearTimer_frame s : pending (clearTimer s) = pending s /\ currentNode (clearTimer s) = currentNode s /\ mode (clearTimer s) = mode s.
Proof. unfold clearTimer. by case_match. Qed.

Lemma setMode_on m r id s n : mode s <> m -> m <> OFF -> selectNode (currentNode s) r = Some n ->
  setMode m r id s = (with_pending (pending s ++ [(n, ofSwitch)]) (clearTimer (with_mode m s)), deploy m n id).
Proof.
  intros Hs Hm Hn. unfold setMode. rewrite !bool_decide_eq_false_2 by done. unfold rotateBegin.
  destruct (clearTimer_frame (with_mode m s)) as (-> & -> & ->). simpl. by rewrite Hn.
Qed.

Lemma setMode_off r id s : mode s <> OFF -> setMode OFF r id s = (clearTimer (with_mode OFF s), send (disconnectRequest (defaultDisconnect os) id)).
Proof. intros Hs. unfold setMode. rewrite bool_decide_eq_false_2, bool_decide_eq_true_2 by done. done. Qed.

(** Switching off while a rotation is under way: when that rotation ends it
    starts a timer, which then rotates a service that is off. *)
Theorem late_switch_survives_off m r r' id id' now s n : m <> OFF -> mode s <> m -> pending s = [] -> selectNode (currentNode s) r = Some n ->
  let s' := (run s [ISetMode m r id; ISetMode OFF r' id'; IDeployed 0 now]).1 in
  mode s' = OFF /\ exists t, rotationInterval s' = Some t /\ (t, intervalMs OFF) ∈ timers s'.
Proof.
  intros Hm Hs Hp Hn. cbn [run step]. rewrite (setMode_on m r id s n) by done. rewrite setMode_off, Hp.
  2:{ simpl. by rewrite (proj2 (proj2 (clearTimer_frame _))). }
  unfold rotateEnd. rewrite (proj1 (clearTimer_frame _)). simpl. rewrite (proj2 (proj2 (clearTimer_frame _))). simpl.
  split; [done|]. eexists. split; [done|]. apply elem_of_app. right. by left.
Qed.

(** ** The kill switch *)

(** What the tunnel agent answers to [GET_STATUS], whatever [wg show] says. *)
Definition agentStatus (wg : option jsstr) : TunnelStatus := mkStatus true (Some (JBool true)) None.

(** While the tunnel agent answers at all, the kill switch never fires, on any platform. *)
Theorem kill_switch_mute wg s : checkTunnel (agentStatus wg) s = [].
Proof. unfold checkTunnel. by destruct (mode s), os. Qed.

End service.

(** ** Concrete runs *)

#[local] Instance plain_paths : StdPath :=
  {| normalize := fun p => p; join_path := fun a b => a ++ js "/" ++ b; resolve := fun p => p;
     dirname := fun p => p; realPathSync := fun p => Some p |}.

Definition public : Service := with_mode VPNGATE new.

Lemma rotation_without_tunnel_witness : let '(s1, fx) := rotateBegin None 2 (js "1") ofTimer public in
  let s2 := rotateEnd 0 (js "t") s1 in
  fx = [] /\ currentNode s2 = Some (mkNode "Switzerland" "179.43.155.201" 18) /\ rotationCount s2 = 1.
Proof. apply (rotation_without_tunnel None 2 (js "1") ofTimer (js "t") public); [reflexivity|]. right. split; [reflexivity|]. by left. Defined.

Lemma exit_changes_witness : (mkNode "Germany" "85.214.132.11" 12) ∈ nodePool.
Proof.
  apply (exit_changes None 0 (js "1") ofTimer (rotated (mkNode "Japan" "210.140.10.42" 42) (js "t") public)). reflexivity.
Defined.

Lemma tunnels_stay_open_witness : let fx := (run None ubuntu true new [IStart VPNGATE 0 (js "1"); IDeployed 0 (js "t"); ISetMode OFF 0 (js "2"); IShutdown]).2 in
  fx = [ETunnel (connectRequest (js "vpngate-japan") (js "1")); ETunnel (disconnectRequest (js "wg0") (js "2"))] /\
  ETunnel (disconnectRequest (js "vpngate-japan") (js "2")) ∉ fx.
Proof.
  split; [vm_compute; reflexivity|].
  apply (tunnels_stay_open None ubuntu true [IStart VPNGATE 0 (js "1"); IDeployed 0 (js "t"); ISetMode OFF 0 (js "2"); IShutdown] new (js "vpngate-japan") (js "1")).
  vm_compute. by left.
Defined.

Lemma late_switch_survives_off_witness :
  let s' := (run None ubuntu true public [ISetMode TOR 0 (js "1"); ISetMode OFF 0 (js "2"); IDeployed 0 (js "t")]).1 in
  mode s' = OFF /\ exists t, rotationInterval s' = Some t /\ (t, intervalMs OFF) ∈ timers s'.
Proof. apply (late_switch_survives_off None ubuntu true TOR 0 0 (js "1") (js "2") (js "t") public (mkNode "Japan" "210.140.10.42" 42)); done. Defined.
End Anonymizer.
