(* ===== verification/Provisioning.v ===== *)
(** * Expansion of the mesh and the dead man's switch

    Models [src/orchestrator/domain/orchestration/provisioning_service.ts]
    ([Provisioning]), with [SidecarManager.runSidecar], and
    [src/orchestrator/domain/analysis/integrity_service.ts] ([Integrity]).
    Commands go through the modelled [Executor]; what processes, files and
    agents answer is a parameter that may depend on everything done before.
    Log lines are left out. *)

From S2P Require Import Prelude Result Effects JsMap JsString Paths Schemas ExecPolicy Executor Launch Mesh.
Open Scope Z_scope.

Module Provisioning.
Import JsString Paths Schemas ExecPolicy Effects.

(** ** Data *)

Inductive Os := linux | windows.
Inductive Status := DISCOVERED | PROVISIONING | ACTIVE | FAILED.

#[export] Instance Status_eq : EqDecision Status.
Proof. solve_decision. Defined.

Record ProvisioningTarget := mkTarget { address : jsstr; os : Os; status : Status }.

Definition with_status (st : Status) (t : ProvisioningTarget) : ProvisioningTarget := mkTarget (address t) (os t) st.

Definition Targets : Type := list (jsstr * ProvisioningTarget).

Record Host := mkHost { h_ip : jsstr; h_port : Z }.

Inductive effect :=
| EMakeTemp | EChmod (path : jsstr) (mode : Z) | EToken (ip token : jsstr) | EWrite (path content : jsstr)
| ESpawn (program : jsstr) (args : list jsstr) | ERemove (path : jsstr).

(** ** Commands *)

Definition binaryPath : jsstr := js "./target/ubuntu_2606/build/counter-terrorist".
Definition meshKnownHosts : jsstr := js "./volume/storage/mesh_known_hosts".

Definition installCmd : jsstr :=
  js "sudo mv /tmp/counter-terrorist /usr/local/bin/counter-terrorist && sudo mv /tmp/cts.env /etc/cts.env && sudo chmod 600 /etc/cts.env && sudo chown root:root /etc/cts.env /usr/local/bin/counter-terrorist".
(** The backslash is one unit of the template literal. *)
Definition startCmd : jsstr :=
  js "export $(sudo grep -v '^#' /etc/cts.env | xargs -d '" ++ [92] ++ js "n') && sudo /usr/local/bin/counter-terrorist > /var/log/cts.log 2>&1 &".

Definition sshOptions (isProd : bool) : list jsstr :=
  [js "-o"; js "StrictHostKeyChecking=" ++ (if isProd then js "yes" else js "accept-new");
   js "-o"; js "UserKnownHostsFile=" ++ meshKnownHosts; js "-o"; js "BatchMode=yes"; js "-o"; js "ConnectTimeout=10"].

Definition envContent (token apiToken : jsstr) : jsstr :=
  js "ENVIRONMENT=production" ++ [10] ++ js "PROVISIONING_TOKEN=" ++ token ++ [10] ++ js "API_TOKEN=" ++ apiToken ++ [10].

Section provisioning.
Context `{StdPath} `{Zod} (gateway : option jsstr) (basename : jsstr -> jsstr) (JSON_parse : jsstr -> option Json) (root : bool).
(** [MESH_SECRET], [API_TOKEN], [PROVISIONING_USER], [ENVIRONMENT]. *)
Context (meshSecret apiToken provisioningUser : option jsstr) (isProd : bool).
(** The answers of the file system, the temporary file's name, and whether a
    process ended well. *)
Context (files : list effect -> effect -> settled unit unit) (tempFile : list effect -> settled jsstr unit) (runs : list effect -> effect -> bool).

#[local] Open Scope act_scope.
#[local] Notation act := (Effects.act effect).

Definition execute (cmd : jsstr) (args : list jsstr) : act bool :=
  match Executor.spawned basename JSON_parse root cmd args with
  | None => ret false
  | Some (p, a) => ask (fun h e => Resolved (runs h e)) (ESpawn p a)
  end.

(** [try { m } finally { f }] *)
Definition finally {A} (m : act A) (f : act unit) : act A := fun h =>
  let '(fx, r) := m h in
  match f (h ++ fx) with
  | (fx', Resolved _) => (fx ++ fx', r)
  | (fx', Rejected e) => (fx ++ fx', Rejected e)
  end.

Definition provisionUser : jsstr := match provisioningUser with Some (c :: u) => c :: u | _ => js "cts-deploy" end.

Definition copyTo (ip file target : jsstr) : act bool :=
  execute (js "scp") (sshOptions isProd ++ [file; provisionUser ++ js "@" ++ ip ++ js ":" ++ target]).

Definition sshArgs (ip : jsstr) : list jsstr := sshOptions isProd ++ [provisionUser ++ js "@" ++ ip; installCmd ++ js " && " ++ startCmd].

(** The mode is 0o600. *)
Definition provisionLinux (ip token : jsstr) : act unit :=
  let! envPath := (fun h => ([EMakeTemp], tempFile h)) in
  let! _ := ask files (EChmod envPath 384) in
  let! _ := emit (EToken ip token) in
  let! _ := ask files (EWrite envPath (envContent token (default [] apiToken))) in
  finally
    (let! _ := copyTo ip binaryPath (js "/tmp/counter-terrorist") in
     let! _ := copyTo ip envPath (js "/tmp/cts.env") in
     let! _ := execute (js "ssh") (sshArgs ip) in
     ret tt)
    (ask files (ERemove envPath)).

(** Only a log line. *)
Definition provisionWindows (ip : jsstr) : act unit := ret tt.

(** [!value] *)
Definition missing_ (v : option jsstr) : bool := match v with None | Some [] => true | _ => false end.

Definition setStatus (ip : jsstr) (st : Status) (ts : Targets) : Targets :=
  match JsMap.get ts ip with Some t => JsMap.set ts ip (with_status st t) | None => ts end.

(** The target is a shared object: its status changes in the table. *)
Definition provisionTarget (ip token : jsstr) (ts : Targets) : act Targets := fun h =>
  match JsMap.get ts ip with
  | None => ([], Resolved ts)
  | Some t =>
      if bool_decide (status t = ACTIVE) then ([], Resolved ts)
      else if missing_ meshSecret || missing_ apiToken then ([], Resolved (setStatus ip FAILED ts))
      else
        let '(fx, r) := (match os t with linux => provisionLinux ip token | windows => provisionWindows ip end) h in
        (fx, Resolved (setStatus ip (match r with Resolved _ => ACTIVE | Rejected _ => FAILED end) ts))
  end.

(** ** Discovery *)

(** [SidecarManager.runSidecar(name, args)]: what the executor is asked to run;
    no value is a failed result. *)
Definition runSidecar (configured : bool) (findBinary : string -> option jsstr) (name : string) (args : list jsstr) : option (jsstr * list jsstr) :=
  if negb configured then None
  else if negb (isAllowedSidecar name) then None
  else if existsb (fun x => bool_decide (x = name)) Launch.PERSISTENT_SIDECARS then None
  else
    match findBinary name with
    | None => None
    | Some binPath =>
        let valid := match args with
                     | a :: _ => match JSON_parse a with Some payload => validateRequest gateway name payload | None => true end
                     | [] => true
                     end in
        if valid then Executor.spawned basename JSON_parse root binPath args else None
    end.

(** [JSON.stringify] of the request. *)
Definition scanRequest : jsstr :=
  js "{" ++ [34] ++ js "type" ++ [34] ++ js ":" ++ [34] ++ js "ScanNetwork" ++ [34] ++ js "," ++ [34] ++ js "payload" ++ [34] ++
  js ":{" ++ [34] ++ js "ports" ++ [34] ++ js ":[22,5985]}}".

Definition addHost (ts : Targets) (h : Host) : Targets :=
  if JsMap.has ts (h_ip h) then ts
  else JsMap.set ts (h_ip h) (mkTarget (h_ip h) (if h_port h =? 22 then linux else windows) DISCOVERED).

(** [scan] is what a successful run reports, if it brings data. *)
Definition discoverTargets (configured : bool) (findBinary : string -> option jsstr) (scan : list effect -> option (list Host)) (ts : Targets) : act Targets := fun h =>
  match runSidecar configured findBinary "analyzer" [scanRequest] with
  | None => ([], Resolved ts)
  | Some (p, a) =>
      ([ESpawn p a], Resolved (if runs h (ESpawn p a) then match scan (h ++ [ESpawn p a]) with Some hs => fold_left addHost hs ts | None => ts end else ts))
  end.

(** A round of the loop: the targets found and not tried yet, each if the
    service still runs when its turn comes. *)
Fixpoint provisionAll (running : list effect -> bool) (tokens : list effect -> jsstr) (l : list jsstr) (ts : Targets) : act Targets :=
  match l with
  | [] => ret ts
  | ip :: l => fun h => if running h then (let! ts := provisionTarget ip (tokens h) ts in provisionAll running tokens l ts) h else ([], Resolved ts)
  end.

Definition discovered (ts : Targets) : list jsstr := map (fun e => address e.2) (List.filter (fun e => bool_decide (status e.2 = DISCOVERED)) ts).

Definition round (configured : bool) (findBinary : string -> option jsstr) (scan : list effect -> option (list Host))
    (running : list effect -> bool) (tokens : list effect -> jsstr) (ts : Targets) : act Targets :=
  let! ts := discoverTargets configured findBinary scan ts in
  provisionAll running tokens (discovered ts) ts.

Fixpoint rounds (n : nat) (configured : bool) (findBinary : string -> option jsstr) (scan : list effect -> option (list Host))
    (running : list effect -> bool) (tokens : list effect -> jsstr) (ts : Targets) : act Targets :=
  match n with
  | O => ret ts
  | S n => let! ts := round configured findBinary scan running tokens ts in rounds n configured findBinary scan running tokens ts
  end.

(** ** Facts *)

Lemma analyzer_refused configured findBinary args : runSidecar configured findBinary "analyzer" args = None.
Proof. unfold runSidecar. destruct configured; [|done]. vm_compute. reflexivity. Qed.

(** The mesh never expands: the scan for targets is always refused, because it is
    started as a one-off run and the analyzer is a resident agent, so however
    long the loop runs no target is found and nothing is started, written or
    registered. *)
Theorem expansion_never_happens n configured findBinary scan running tokens h :
  rounds n configured findBinary scan running tokens [] h = ([], Resolved []).
Proof.
  revert h. induction n as [|n IH]; intros h; [done|]. cbn [rounds]. unfold round, discoverTargets, bind.
  rewrite analyzer_refused. simpl. by rewrite !app_nil_r, IH.
Qed.

(** *** A target that is known *)

Lemma install_refused ip : Executor.spawned basename JSON_parse root (js "ssh") (sshArgs ip) = None.
Proof.
  destruct (Executor.ssh_policy JSON_parse) as (p & Hp & Hb).
  apply (Executor.blocked_refused basename JSON_parse root _ p (sshArgs ip) (installCmd ++ js " && " ++ startCmd) (js "&&")); [done..| |].
  - unfold sshArgs. apply elem_of_app. right. right. by left.
  - apply includes_spec. exists (installCmd ++ js " "), (js " " ++ startCmd). by rewrite <-!app_assoc.
Qed.

(** Not the command that installs and starts the node. *)
Definition notSsh (e : effect) : Prop := forall a, e <> ESpawn (js "ssh") a /\ e <> ESpawn (js "sudo") (js "-n" :: js "ssh" :: a).

Lemma provisioning_within cmd args : cmd <> js "ssh" -> cmd <> js "sudo" -> within notSsh (execute cmd args).
Proof.
  intros H1 H2. unfold execute. destruct (Executor.spawned _ _ _ _ _) as [[p a]|] eqn:E; [|apply within_ret].
  apply within_ask. apply Executor.spawned_valid in E as (_ & _ & [[-> ->]|[-> ->]]); intros b; split; try congruence; intros [= E]; by vm_compute in E.
Qed.

Lemma within_ssh ip : within notSsh (execute (js "ssh") (sshArgs ip)).
Proof. unfold execute. rewrite install_refused. apply within_ret. Qed.

Lemma within_finally {A} (P : effect -> Prop) (m : act A) f : within P m -> within P f -> within P (finally m f).
Proof.
  intros Hm Hf h. specialize (Hm h). unfold finally. destruct (m h) as [fx r]. specialize (Hf (h ++ fx)).
  destruct (f (h ++ fx)) as [fx' [u|e]]; by apply Forall_app.
Qed.

Lemma linux_never_installs ip token : within notSsh (provisionLinux ip token).
Proof.
  assert (forall e, (forall p a, e <> ESpawn p a) -> notSsh e) as Hq by (intros e He a; split; apply He).
  unfold provisionLinux, copyTo. apply within_bind; [intros h; constructor; [by apply Hq|constructor]|]. intros envPath.
  apply within_bind; [by apply within_ask, Hq|intros _]. apply within_bind; [by apply within_emit, Hq|intros _].
  apply within_bind; [by apply within_ask, Hq|intros _]. apply within_finally; [|by apply within_ask, Hq].
  do 2 (apply within_bind; [apply provisioning_within; intros E; by vm_compute in E|intros _]).
  apply within_bind; [apply within_ssh|intros _]. apply within_ret.
Qed.

Lemma execute_resolves cmd args h : exists fx b, execute cmd args h = (fx, Resolved b).
Proof. unfold execute. destruct (Executor.spawned _ _ _ _ _) as [[p a]|]; eauto. Qed.

(** When no file operation fails the Linux branch resolves. *)
Lemma linux_resolves ip token h : (forall h, exists p, tempFile h = Resolved p) -> (forall h e, files h e = Resolved tt) ->
  exists fx, provisionLinux ip token h = (fx, Resolved tt).
Proof.
  intros Ht Hf. unfold provisionLinux, bind, ask, emit, finally, copyTo. destruct (Ht h) as [p ->]. rewrite !Hf.
  repeat match goal with |- context [execute ?c ?a ?k] => let fx := fresh in let b := fresh in destruct (execute_resolves c a k) as (fx & b & ->) end.
  unfold ret. rewrite Hf. eauto.
Qed.

Lemma get_setStatus ts ip st t : JsMap.get ts ip = Some t -> JsMap.get (setStatus ip st ts) ip = Some (with_status st t).
Proof. intros Hg. unfold setStatus. rewrite Hg. apply JsMap.get_set_eq. Qed.

(** A target counts as an active node although nothing was installed on it: with
    the secrets set and no file error, a Linux target ends ACTIVE while the
    command that installs and starts the node is refused by the execution
    policy and never runs, and a Windows target ends ACTIVE without anything
    done. *)
Theorem active_without_install ip token ts t h : JsMap.get ts ip = Some t -> status t <> ACTIVE ->
  missing_ meshSecret = false -> missing_ apiToken = false ->
  (forall h, exists p, tempFile h = Resolved p) -> (forall h e, files h e = Resolved tt) ->
  exists fx ts', provisionTarget ip token ts h = (fx, Resolved ts') /\ JsMap.get ts' ip = Some (with_status ACTIVE t) /\
    Forall notSsh fx /\ (os t = windows -> fx = []).
Proof.
  intros Hg Hs Hm Ha Ht Hf. unfold provisionTarget. rewrite Hg, bool_decide_eq_false_2, Hm, Ha by done. cbn [orb].
  destruct (os t) eqn:Eo.
  - destruct (linux_resolves ip token h Ht Hf) as [fx E]. pose proof (linux_never_installs ip token h) as Hw. rewrite E in *.
    exists fx, (setStatus ip ACTIVE ts). split_and!; [done|by apply get_setStatus|done|done].
  - exists [], (setStatus ip ACTIVE ts). split_and!; [done|by apply get_setStatus|constructor|done].
Qed.

(** Without the secrets nothing is done and the target fails for good: a later
    round takes only targets that were never tried. *)
Theorem failed_never_retried ip token ts t h : JsMap.get ts ip = Some t -> status t <> ACTIVE -> address t = ip -> JsMap.wf ts ->
  Forall (fun e => address e.2 = e.1) ts -> missing_ meshSecret || missing_ apiToken = true ->
  exists ts', provisionTarget ip token ts h = ([], Resolved ts') /\ ip ∉ discovered ts'.
Proof.
  intros Hg Hs Hip Hwf Hk Hm. unfold provisionTarget. rewrite Hg, bool_decide_eq_false_2, Hm by done.
  eexists. split; [done|]. unfold discovered, setStatus. rewrite Hg. intros (e & He & Hin)%list_elem_of_In%in_map_iff.
  apply filter_In in Hin as [Hin Hst%bool_decide_eq_true]. apply list_elem_of_In in Hin. destruct e as [k t']. simpl in *.
  assert (JsMap.get (JsMap.set ts ip (with_status FAILED t)) k = Some t') as Hget by (apply JsMap.elem_get; [by apply JsMap.wf_set|done]).
  destruct (decide (ip = k)) as [<-|Hne]; [rewrite JsMap.get_set_eq in Hget; by simplify_eq|].
  rewrite JsMap.get_set_ne in Hget by done. apply JsMap.get_Some_elem in Hget. rewrite Forall_forall in Hk. specialize (Hk _ Hget). simpl in Hk. congruence.
Qed.
End provisioning.

(** ** A concrete target *)

#[local] Existing Instance Executor.plain_paths.

Definition target0 : ProvisioningTarget := mkTarget (js "10.0.0.7") linux DISCOVERED.

Lemma active_without_install_witness : exists fx ts',
  provisionTarget Executor.base0 Executor.json0 true (Some (js "m")) (Some (js "a")) None true (fun _ _ => Resolved tt) (fun _ => Resolved (js "/tmp/e"))
    (fun _ _ => true) (js "10.0.0.7") (js "tok") [(js "10.0.0.7", target0)] [] = (fx, Resolved ts') /\
  JsMap.get ts' (js "10.0.0.7") = Some (with_status ACTIVE target0) /\ Forall notSsh fx /\ (os target0 = windows -> fx = []).
Proof.
  apply (active_without_install Executor.base0 Executor.json0 true (Some (js "m")) (Some (js "a")) None true (fun _ _ => Resolved tt)
    (fun _ => Resolved (js "/tmp/e")) (fun _ _ => true)); try reflexivity; [discriminate|].
  intros _. eexists. reflexivity.
Defined.

Lemma failed_never_retried_witness : exists ts',
  provisionTarget Executor.base0 Executor.json0 true None (Some (js "a")) None true (fun _ _ => Resolved tt) (fun _ => Resolved (js "/tmp/e"))
    (fun _ _ => true) (js "10.0.0.7") (js "tok") [(js "10.0.0.7", target0)] [] = ([], Resolved ts') /\ js "10.0.0.7" ∉ discovered ts'.
Proof.
  apply (failed_never_retried Executor.base0 Executor.json0 true None (Some (js "a")) None true (fun _ _ => Resolved tt)
    (fun _ => Resolved (js "/tmp/e")) (fun _ _ => true) (js "10.0.0.7") (js "tok") [(js "10.0.0.7", target0)] target0); try reflexivity; [discriminate| |].
  - apply NoDup_singleton.
  - repeat constructor.
Defined.
End Provisioning.

Module Integrity.
Import JsString Effects.

Inductive effect :=
| EHeal (agent : string) | ERemove (path : jsstr) (recursive : bool) | ERename (from to : jsstr) | EWipeSecrets | EExit (code : Z).

Definition sidecars : list string := ["analyzer"; "sentinel"; "netcap"; "enforcer"; "watchfile"]%string.

Definition isThreat (type : string) : bool := bool_decide (type = "THREAT"%string) || bool_decide (type = "CRITICAL"%string).

Definition WINDOW : nat := 50.
Definition THRESHOLD : nat := 10.

Section integrity.
(** What [triggerHeal], the file system and the trust root answer. *)
Context (heals : list effect -> effect -> settled bool unit) (device : list effect -> effect -> settled unit unit).

#[local] Open Scope act_scope.
#[local] Notation act := (Effects.act effect).

(** [.catch(() => {})] *)
Definition ignoring (e : effect) : act unit := attempt (ask device e) tt.

(** [production] is [this.config?.getEnv("ENVIRONMENT") === "production"]. *)
Definition initiateSelfDestruct (production : bool) (now : jsstr) : act unit :=
  let! _ := (if production then
               let! _ := ignoring (ERemove (js "./.env") false) in ignoring (ERemove (js "./volume/pki") true)
             else
               let backup := js "./volume/pki_backup_" ++ now in
               let! _ := ignoring (ERename (js "./volume/pki") backup) in ignoring (ERename (js "./.env") (backup ++ js "/.env"))) in
  let! _ := ignoring EWipeSecrets in
  emit (EExit 1).

Definition healAll (l : list string) : act unit := foldr (fun s k => let! _ := ask heals (EHeal s) in k) (ret tt) l.

(** The configuration is optional, as is the agent manager; [recent] is what the
    ledger gives of its last [WINDOW] events. *)
Definition checkIntegrity (manager : bool) (config : option (string -> option jsstr)) (activeNodes : Z)
    (recent : nat -> settled (list string) unit) (now : jsstr) : act unit :=
  let! _ := if manager then healAll sidecars else ret tt in
  match recent WINDOW with
  | Rejected _ => raise
  | Resolved events =>
      let recentThreats := List.filter isThreat events in
      if (activeNodes =? 0) && (THRESHOLD <=? length recentThreats)%nat then
        initiateSelfDestruct (match config with Some c => bool_decide (c "ENVIRONMENT"%string = Some (js "production")) | None => false end) now
      else ret tt
  end.

(** As the factory builds it: with the agent manager and no configuration. *)
Definition built (activeNodes : Z) (recent : nat -> settled (list string) unit) (now : jsstr) : act unit :=
  checkIntegrity true None activeNodes recent now.

(** ** Facts *)

Definition healing (e : effect) : Prop := match e with EHeal _ => True | _ => False end.

Lemma heal_only l : within healing (healAll l).
Proof. induction l as [|s l IH]; simpl; [apply within_ret|]. apply within_bind; [by apply within_ask|done]. Qed.

Lemma heal_resolves l h : (forall h e, exists b, heals h e = Resolved b) -> exists fx, healAll l h = (fx, Resolved tt).
Proof.
  intros Hh. revert h. induction l as [|s l IH]; intros h; simpl; [by exists []|]. unfold bind, ask.
  destruct (Hh h (EHeal s)) as [b ->]. destruct (IH (h ++ [EHeal s])) as [fx ->]. eauto.
Qed.

Lemma ignoring_eq e h : ignoring e h = ([e], Resolved tt).
Proof. unfold ignoring, attempt, ask. by destruct (device h e) as [[]|[]]. Qed.

Lemma destruct_exits production now h : EExit 1 ∈ (initiateSelfDestruct production now h).1.
Proof.
  unfold initiateSelfDestruct, bind, emit. destruct production; rewrite !ignoring_eq; cbn -[js]; rewrite ?ignoring_eq; cbn -[js]; set_solver.
Qed.

(** The dead man's switch: with the agents' checks answered, the node destroys its
    secrets and stops exactly when no other node is active and at least ten of
    the last fifty events are threats. *)
Theorem destruct_exact config activeNodes events recent now h : (forall h e, exists b, heals h e = Resolved b) -> recent WINDOW = Resolved events ->
  EExit 1 ∈ (checkIntegrity true config activeNodes recent now h).1 <-> activeNodes = 0 /\ (10 <= length (List.filter isThreat events))%nat.
Proof.
  intros Hh Hr. unfold checkIntegrity, bind. destruct (heal_resolves sidecars h Hh) as [fx E]. pose proof (heal_only sidecars h) as Ho.
  rewrite E in *. rewrite Hr. assert (EExit 1 ∉ fx) as Hn by (intros Hin; rewrite Forall_forall in Ho; by apply Ho in Hin).
  destruct (Z.eqb_spec activeNodes 0) as [->|Hne]; cbn [andb].
  - destruct (Nat.leb_spec THRESHOLD (length (List.filter isThreat events))) as [Hle|Hgt].
    + match goal with |- context [initiateSelfDestruct ?b now ?k] => pose proof (destruct_exits b now k) as Hx; destruct (initiateSelfDestruct b now k) as [fx' r] end.
      simpl in Hx |- *. split; [done|]. intros _. apply elem_of_app. by right.
    + simpl. rewrite app_nil_r. unfold THRESHOLD in Hgt. split; [done|]. intros [_ ?]. lia.
  - simpl. rewrite app_nil_r. split; [done|]. by intros [? _].
Qed.

(** Self-destruction destroys nothing in production: the service as the factory
    builds it has no configuration, so whatever the environment, it moves the
    keys and the environment file to a backup beside them and removes neither. *)
Theorem secrets_survive activeNodes recent now h path b : ERemove path b ∉ (built activeNodes recent now h).1.
Proof.
  intros Hin. assert (within (fun e => match e with ERemove _ _ => False | _ => True end) (built activeNodes recent now)) as Hw.
  { unfold built, checkIntegrity. apply within_bind; [eapply within_mono; [|apply heal_only]; by intros []|]. intros _.
    destruct (recent WINDOW) as [ev|]; [|apply within_raise]. apply within_if; intros _; [|apply within_ret].
    unfold initiateSelfDestruct, ignoring. repeat (apply within_bind; [|intros _]); repeat apply within_attempt; by (apply within_ask || apply within_emit). }
  specialize (Hw h). rewrite Forall_forall in Hw. exact (Hw _ Hin).
Qed.

(** A check of an agent that rejects ends the round before the switch is looked at. *)
Theorem failed_heal_disarms config activeNodes recent now h e : heals h (EHeal "analyzer") = Rejected e ->
  checkIntegrity true config activeNodes recent now h = ([EHeal "analyzer"], Rejected e).
Proof. intros Hh. unfold checkIntegrity, healAll, sidecars, bind, ask. simpl. by rewrite Hh. Qed.
End integrity.

Lemma destruct_exact_witness : EExit 1 ∈ (checkIntegrity (fun _ _ => Resolved true) (fun _ _ => Rejected tt) true None 0
  (fun _ => Resolved (repeat "THREAT"%string 9 ++ ["INFO"; "CRITICAL"]%string)) (js "7") []).1.
Proof.
  apply (proj2 (destruct_exact (fun _ _ => Resolved true) (fun _ _ => Rejected tt) None 0 (repeat "THREAT"%string 9 ++ ["INFO"; "CRITICAL"]%string)
    (fun _ => Resolved (repeat "THREAT"%string 9 ++ ["INFO"; "CRITICAL"]%string)) (js "7") [] ltac:(intros; eexists; reflexivity) eq_refl)).
  split; [reflexivity|]. vm_compute. lia.
Defined.

Lemma failed_heal_disarms_witness : checkIntegrity (fun _ _ => Rejected tt) (fun _ _ => Resolved tt) true None 0 (fun _ => Resolved (repeat "THREAT"%string 50)) (js "7") [] =
  ([EHeal "analyzer"], Rejected tt).
Proof. apply failed_heal_disarms. reflexivity. Defined.
End Integrity.
