(* ===== verification/Sockets.v ===== *)
(** * Active connections

    Models [src/orchestrator/domain/analysis/active_socket_service.ts], class
    [ActiveSocketService]: the tables of [/proc/net] and the output of netstat,
    the owners of the sockets, and the threat scores from the modelled [Intel].
    The numbers of the tables have at most thirteen hexadecimal digits, so they
    are exact.  The location of an address is left out, and log lines are. *)

From S2P Require Import Prelude JsMap JsString Cidr Net Launch Baseline Health Intel.
From Stdlib Require Import QArith.
Open Scope Z_scope.

Module Sockets.
Import JsString.

(** ** Data *)

Inductive Protocol := tcp | udp.
Inductive State := ESTABLISHED | SYN_SENT | SYN_RECV | TIME_WAIT | CLOSE_WAIT | LISTEN | UNKNOWN.

#[export] Instance State_eq : EqDecision State.
Proof. solve_decision. Defined.

(** A port that is no value is [NaN]. *)
Record ActiveSocket := mkSocket {
  localIp : jsstr; localPort : option Z; remoteIp : jsstr; remotePort : option Z; protocol : Protocol; state : State;
  pid : option Z; process : option jsstr; threatScore : option Q; isThreat : option bool }.

(** ** Addresses *)

Fixpoint hexPrefix (s : jsstr) : jsstr := match s with c :: t => if is_hex c then c :: hexPrefix t else [] | [] => [] end.

(** [parseInt(s, 16)] *)
Definition parseInt16 (s : jsstr) : option Z :=
  let '(sign, t) := match Cidr.trimStart s with 45 :: t => (-1, t) | 43 :: t => (1, t) | t => (1, t) end in
  let t := match t with 48 :: x :: t' => if (x =? 120) || (x =? 88) then t' else t | _ => t end in
  match hexPrefix t with [] => None | ds => Some (sign * parse_base 16 ds) end.

(** [s || "0"] *)
Definition orZero (s : option jsstr) : jsstr := match s with Some (c :: t) => c :: t | _ => js "0" end.

(** [(num >> k) & 0xff] *)
Definition byteAt (num k : Z) : Z := Z.land (Z.shiftr (Cidr.toInt32 num) k) 0xff.

Definition parseHexAddr (hexStr : jsstr) (isV6 : bool) : jsstr * option Z :=
  let parts := split hexStr (js ":") in
  let port := parseInt16 (orZero (parts !! 1%nat)) in
  if negb isV6 then
    let num := default 0 (parseInt16 (orZero (parts !! 0%nat))) in
    (join (js ".") [decimal (byteAt num 0); decimal (byteAt num 8); decimal (byteAt num 16); decimal (byteAt num 24)], port)
  else (js "IPv6", port).

(** [parseInt(s, 10) || 0] *)
Definition portOf (s : jsstr) : Z := default 0 (Cidr.parseInt s).

Definition parseHostPort (str : jsstr) : jsstr * Z :=
  match str with
  | [] => ([], 0)
  | _ =>
      let idx := Health.lastIndexOf str 58 in
      if idx =? -1 then (str, 0)
      else (Baseline.stripBrackets (take (Z.to_nat idx) str), portOf (drop (Z.to_nat (idx + 1)) str))
  end.

(** ** Owners *)

(** A directory of [/proc]: its name, whether it is a directory, [comm] and the
    links of [fd], each unless it cannot be read. *)
Record ProcEntry := mkProc { p_name : jsstr; isDirectory : bool; p_comm : option jsstr; p_fds : option (list (option jsstr)) }.

Definition inodeOf (link : jsstr) : option jsstr :=
  if startsWith link (js "socket:[") then Some (take (length link - 9) (drop 8 link)) else None.

Definition addProc (m : list (jsstr * (Z * jsstr))) (e : ProcEntry) : list (jsstr * (Z * jsstr)) :=
  if negb (isDirectory e) || negb (Net.all_digits (p_name e)) then m
  else
    match p_comm e, p_fds e with
    | Some comm, Some fds =>
        fold_left (fun m l => match l ≫= inodeOf with Some i => JsMap.set m i (parse_base 10 (p_name e), Cidr.trim comm) | None => m end) fds m
    | _, _ => m
    end.

(** No list is an unreadable [/proc]. *)
Definition getInodeProcMap (proc : option (list ProcEntry)) : list (jsstr * (Z * jsstr)) := fold_left addProc (default [] proc) [].

(** ** The tables of the kernel *)

Definition STATE_MAP : list (string * State) :=
  [("01", ESTABLISHED); ("02", SYN_SENT); ("03", SYN_RECV); ("06", TIME_WAIT); ("08", CLOSE_WAIT); ("0A", LISTEN)]%string.
Definition stateOf (hex : jsstr) : State := default UNKNOWN (snd <$> List.find (fun e => bool_decide (js e.1 = hex)) STATE_MAP).

Definition parseLine (inodes : list (jsstr * (Z * jsstr))) (isV6 : bool) (line : jsstr) : option ActiveSocket :=
  let parts := Baseline.words line in
  if (length parts <? 10)%nat then None
  else
    let at_ i := default [] (parts !! i) in
    let '(lip, lport) := parseHexAddr (at_ 1%nat) isV6 in
    let '(rip, rport) := parseHexAddr (at_ 2%nat) isV6 in
    let st := stateOf (at_ 3%nat) in
    if bool_decide (st = LISTEN) || bool_decide (rip = []) || bool_decide (rip = js "0.0.0.0") || bool_decide (rip = js "::") then None
    else
      let info := match at_ 9%nat with [] => None | i => JsMap.get inodes i end in
      Some (mkSocket lip lport rip rport tcp st (fst <$> info) (snd <$> info) None None).

Definition parseTable (inodes : list (jsstr * (Z * jsstr))) (isV6 : bool) (content : jsstr) : list ActiveSocket :=
  omap (parseLine inodes isV6) (drop 1 (split content [10])).

(** The contents are empty when the file cannot be read. *)
Definition parseProcNetSockets (tcpContent tcp6Content : jsstr) (proc : option (list ProcEntry)) : list ActiveSocket :=
  let inodes := getInodeProcMap proc in
  (match tcpContent with [] => [] | c => parseTable inodes false c end) ++
  (match tcp6Content with [] => [] | c => parseTable inodes true c end).

(** ** netstat *)

Definition toUpperCase (s : jsstr) : jsstr := map Launch.upper s.

Definition parseNetstatLine (line : jsstr) : option ActiveSocket :=
  if negb (includes line (js "ESTABLISHED")) && negb (includes line (js "SYN_SENT")) && negb (includes line (js "TIME_WAIT")) then None
  else
    let parts := Baseline.words line in
    if (length parts <? 4)%nat then None
    else
      let or_ i j := match parts !! i with Some (c :: w) => c :: w | _ => default [] (parts !! j) end in
      let proto := if includes (toLowerCase (default [] (parts !! 0%nat))) (js "udp") then udp else tcp in
      let '(lip, lport) := parseHostPort (or_ 3%nat 1%nat) in
      let '(rip, rport) := parseHostPort (or_ 4%nat 2%nat) in
      let rawState := toUpperCase (or_ 5%nat 3%nat) in
      let st := if includes rawState (js "ESTAB") then ESTABLISHED
                else if includes rawState (js "SYN") then SYN_SENT
                else if includes rawState (js "TIME") then TIME_WAIT else UNKNOWN in
      if negb (bool_decide (rip = [])) && negb (bool_decide (rip = js "0.0.0.0")) && negb (bool_decide (rip = js "*"))
      then Some (mkSocket lip (Some lport) rip (Some rport) proto st None None None None) else None.

Definition parseNetstatSockets (stdout : jsstr) : list ActiveSocket := omap parseNetstatLine (split stdout [10]).

(** ** Threats *)

Definition isPlain (ip : jsstr) : bool :=
  bool_decide (ip = []) || bool_decide (ip = js "0.0.0.0") || bool_decide (ip = js "127.0.0.1") || bool_decide (ip = js "::") || bool_decide (ip = js "::1").

Definition with_threat (q : Q) (s : ActiveSocket) : ActiveSocket :=
  mkSocket (localIp s) (localPort s) (remoteIp s) (remotePort s) (protocol s) (state s) (pid s) (process s) (Some q) (Some (Qle_bool 70 q)).

Section threats.
Context (order : list Intel.IntelIndicator -> list Intel.IntelIndicator).

Definition query (ip : jsstr) : Intel.Options := Intel.mkOptions None None 1 (Some ip).

Definition enrich (intel : Intel.Service) (s : ActiveSocket) : ActiveSocket :=
  if isPlain (remoteIp s) then s
  else match Intel.getThreats order (query (remoteIp s)) intel with t :: _ => with_threat (Intel.score t) s | [] => s end.

(** [linux]: the tables of the kernel, else netstat. *)
Definition listActiveSockets (intel : Intel.Service) (linux : bool) (tcpContent tcp6Content : jsstr) (proc : option (list ProcEntry)) (stdout : jsstr) : list ActiveSocket :=
  map (enrich intel) (if linux then parseProcNetSockets tcpContent tcp6Content proc else parseNetstatSockets stdout).

(** ** Facts *)

(** The query is answered by the first record that contains the address. *)
Lemma page_first o l : Intel.o_limit o = 1%nat -> Intel.page o 0 l = option_list (List.find (Intel.matches o) l).
Proof.
  intros Ho. induction l as [|t l IH]; [done|]. simpl. rewrite Ho. destruct (Intel.matches o t); [done|]. exact IH.
Qed.

(** A connection is scored by the first record of the intelligence that contains
    its address as text, in the order of the store, whatever the record is
    about: a record of another address can flag it, and can hide the record of
    its own address. *)
Theorem scored_by_substring intel s t : isPlain (remoteIp s) = false ->
  List.find (fun t => includes (Intel.indicator t) (remoteIp s)) (Intel.listAll order intel) = Some t ->
  isThreat (enrich intel s) = Some (Qle_bool 70 (Intel.score t)) /\ threatScore (enrich intel s) = Some (Intel.score t).
Proof.
  intros Hp Hf. unfold enrich. rewrite Hp. unfold Intel.getThreats, query. cbn [Intel.o_kind]. rewrite page_first by done.
  unfold Intel.matches. cbn [Intel.o_kind Intel.o_provider Intel.o_search]. cbn [andb]. by rewrite Hf.
Qed.
End threats.

(** *** Addresses of the kernel *)

(** The kernel's [%0wX]. *)
Definition hexDigit (d : Z) : Z := if d <? 10 then 48 + d else 55 + d.
Fixpoint hexFixed (w : nat) (n : Z) : jsstr := match w with O => [] | S w => hexFixed w (n / 16) ++ [hexDigit (n mod 16)] end.

(** What the kernel prints for the address [a.b.c.d] in network order, and a port. *)
Definition hexAddr (a b c d port : Z) : jsstr := hexFixed 8 (a + 256 * b + 65536 * c + 16777216 * d) ++ js ":" ++ hexFixed 4 port.

Definition byte (n : Z) : Prop := 0 <= n < 256.

Lemma hexDigit_ok d : 0 <= d < 16 -> is_hex (hexDigit d) = true /\ digit_val (hexDigit d) = d /\ 48 <= hexDigit d <= 70 /\ hexDigit d <> 58.
Proof.
  intros Hd. unfold hexDigit, is_hex, digit_val, is_digit. destruct (Z.ltb_spec d 10);
    repeat match goal with |- context [?x <=? ?y] => destruct (Z.leb_spec x y) end; simpl; split_and!; try lia; done.
Qed.

Lemma hexFixed_ok w : forall n, Forall (fun c => is_hex c = true /\ 48 <= c <= 70 /\ c <> 58) (hexFixed w n) /\ length (hexFixed w n) = w.
Proof.
  induction w as [|w IH]; intros n; [done|]. cbn [hexFixed]. destruct (IH (n / 16)) as [Hf Hl]. rewrite length_app, Hl, Forall_app. simpl.
  destruct (hexDigit_ok (n mod 16)) as (H1 & _ & H2 & H3); [by apply Z.mod_pos_bound|]. split; [|lia]. split; [done|]. constructor; [done|constructor].
Qed.

Lemma hexFixed_parse w : forall n, 0 <= n < 16 ^ Z.of_nat w -> parse_base 16 (hexFixed w n) = n.
Proof.
  induction w as [|w IH]; intros n Hn; [simpl in *; unfold parse_base; simpl; lia|]. cbn [hexFixed]. rewrite parse_base_app. simpl.
  rewrite Nat2Z.inj_succ, Z.pow_succ_r in Hn by lia.
  rewrite IH by (split; [apply Z.div_pos; lia|apply Z.div_lt_upper_bound; lia]).
  destruct (hexDigit_ok (n mod 16)) as (_ & -> & _); [by apply Z.mod_pos_bound|]. pose proof (Z.div_mod n 16). lia.
Qed.

Lemma hexPrefix_all s : Forall (fun c => is_hex c = true) s -> hexPrefix s = s.
Proof. induction 1 as [|c s Hc _ IH]; simpl; [done|]. by rewrite Hc, IH. Qed.

Lemma parseInt16_fixed w n : 0 <= n < 16 ^ Z.of_nat (S w) -> parseInt16 (hexFixed (S w) n) = Some n.
Proof.
  intros Hn. destruct (hexFixed_ok (S w) n) as [Hf Hl]. pose proof (hexFixed_parse (S w) n Hn) as Hp. unfold parseInt16.
  destruct (hexFixed (S w) n) as [|c s] eqn:E; [done|]. apply Forall_cons in Hf as [(Hh & Hb & _) Hf].
  assert (Cidr.trimStart (c :: s) = c :: s) as ->.
  { simpl. unfold Cidr.is_space. repeat match goal with |- context [?x <=? ?y] => destruct (Z.leb_spec x y); try lia | |- context [?x =? ?y] => destruct (Z.eqb_spec x y); try lia end; done. }
  assert ((match c :: s with 45 :: t => (-1, t) | 43 :: t => (1, t) | t => (1, t) end) = (1, c :: s)) as ->.
  { destruct c as [|p|p]; try done. do 6 (destruct p as [p|p|]; try done); lia. }
  assert ((match c :: s with 48 :: x :: t' => if (x =? 120) || (x =? 88) then t' else c :: s | _ => c :: s end) = c :: s) as ->.
  { assert (forall x t, s = x :: t -> (x =? 120) || (x =? 88) = false) as Hx.
    { intros x t ->. apply Forall_cons in Hf as [(_ & Hx & _) _]. apply orb_false_iff. split; apply Z.eqb_neq; lia. }
    destruct s as [|x t]; repeat (case_match; try done); by rewrite (Hx x t eq_refl) in *. }
  rewrite hexPrefix_all; [|constructor; [done|by eapply Forall_impl; [exact Hf|]; intros ? (? & _)]].
  rewrite Hp. f_equal. lia.
Qed.

(** A byte of the 32-bit number, although the shift is of a signed one. *)
Lemma byteAt_div num k : 0 <= num -> 0 <= k <= 24 -> byteAt num k = (num / 2 ^ k) mod 256.
Proof.
  intros Hn Hk. unfold byteAt, Cidr.toInt32. change 255 with (Z.ones 8). rewrite Z.land_ones, Z.shiftr_div_pow2 by lia. change (2 ^ 8) with 256.
  set (q := (num + 2 ^ 31) / 2 ^ 32).
  assert ((num + 2 ^ 31) mod 2 ^ 32 - 2 ^ 31 = num + (- (2 ^ (24 - k) * q)) * 256 * 2 ^ k) as ->.
  { rewrite Z.mod_eq by lia. fold q. assert (2 ^ 32 = 2 ^ (24 - k) * 256 * 2 ^ k) as Hp by (change 256 with (2 ^ 8); rewrite <-!Z.pow_add_r by lia; f_equal; lia).
    rewrite Hp. ring. }
  rewrite Z.div_add by (apply Z.pow_nonzero; lia). apply Z.mod_add. lia.
Qed.

Section quad.
Context (a b c d : Z) (Ha : byte a) (Hb : byte b) (Hc : byte c) (Hd : byte d).

Lemma quad_bytes : let num := a + 256 * b + 65536 * c + 16777216 * d in
  byteAt num 0 = a /\ byteAt num 8 = b /\ byteAt num 16 = c /\ byteAt num 24 = d.
Proof.
  unfold byte in *. cbv zeta. rewrite !byteAt_div by lia. change (2 ^ 0) with 1. change (2 ^ 8) with 256. change (2 ^ 16) with 65536. change (2 ^ 24) with 16777216.
  rewrite Z.div_1_r. split_and!.
  - replace (a + 256 * b + 65536 * c + 16777216 * d) with (a + (b + 256 * c + 65536 * d) * 256) by ring. rewrite Z.mod_add by lia. by apply Z.mod_small.
  - replace (a + 256 * b + 65536 * c + 16777216 * d) with (a + (b + (c + 256 * d) * 256) * 256) by ring.
    rewrite Z.div_add, (Z.div_small a), Z.add_0_l, Z.mod_add by lia. by apply Z.mod_small.
  - replace (a + 256 * b + 65536 * c + 16777216 * d) with ((a + 256 * b) + (c + d * 256) * 65536) by ring.
    rewrite Z.div_add, (Z.div_small (a + 256 * b)), Z.add_0_l, Z.mod_add by lia. by apply Z.mod_small.
  - replace (a + 256 * b + 65536 * c + 16777216 * d) with ((a + 256 * b + 65536 * c) + d * 16777216) by ring.
    rewrite Z.div_add, (Z.div_small (a + 256 * b + 65536 * c)), Z.add_0_l by lia. by apply Z.mod_small.
Qed.

Lemma hex_no_colon w n : 58 ∉ hexFixed w n.
Proof. intros Hin. destruct (hexFixed_ok w n) as [Hf _]. rewrite Forall_forall in Hf. by apply Hf in Hin as (_ & _ & ?). Qed.

(** Reading an address of the kernel's table gives it back. *)
Lemma hexAddr_read port : 0 <= port < 65536 -> parseHexAddr (hexAddr a b c d port) false = (Net.decimal_quad a b c d, Some port).
Proof.
  intros Hp. unfold parseHexAddr, hexAddr. set (num := a + 256 * b + 65536 * c + 16777216 * d).
  assert (0 <= num < 16 ^ Z.of_nat 8) as Hn by (unfold byte in *; subst num; simpl; lia).
  pose proof (parseInt16_fixed 7 num Hn) as H8. pose proof (parseInt16_fixed 3 port ltac:(simpl; lia)) as H4.
  assert (forall w n, orZero (Some (hexFixed (S w) n)) = hexFixed (S w) n) as Hz.
  { intros w n. pose proof (proj2 (hexFixed_ok (S w) n)) as Hl. by destruct (hexFixed (S w) n). }
  pose proof (Hz 7%nat num) as Z8. pose proof (Hz 3%nat port) as Z4. pose proof (hex_no_colon 8 num) as N8. pose proof (hex_no_colon 4 port) as N4.
  generalize dependent (hexFixed 4 port). intros q H4 Z4 N4. generalize dependent (hexFixed 8 num). intros p H8 Z8 N8.
  change (p ++ js ":" ++ q) with (join [58] [p; q]). change (js ":") with [58].
  rewrite split_join_char; [|done|by rewrite !Forall_cons]. cbn [lookup list_lookup]. rewrite Z4, Z8, H4, H8. cbn [negb]. change (default 0 (Some num)) with num.
  destruct quad_bytes as (E1 & E2 & E3 & E4). fold num in E1, E2, E3, E4. by rewrite E1, E2, E3, E4.
Qed.
End quad.

(** *** Lines *)

Definition isWord (w : jsstr) : Prop := w <> [] /\ Forall (fun c => Cidr.is_space c = false) w.

Lemma wordsFrom_word w : Forall (fun c => Cidr.is_space c = false) w -> forall acc s, Baseline.wordsFrom acc (w ++ s) = Baseline.wordsFrom (rev w ++ acc) s.
Proof. induction 1 as [|c w Hc _ IH]; intros acc s; simpl; [done|]. by rewrite Hc, IH, <-app_assoc. Qed.

Lemma wordsFrom_join ws : Forall isWord ws -> ws <> [] -> Baseline.wordsFrom [] (join [32] ws) = ws.
Proof.
  induction 1 as [|w ws [Hw Hs] Hws IH]; [done|]. intros _. destruct ws as [|w' ws].
  - simpl. rewrite <-(app_nil_r w) at 1. rewrite wordsFrom_word by done. simpl. by rewrite app_nil_r, rev_involutive.
  - rewrite join_cons by done. rewrite wordsFrom_word by done. simpl app. cbn [Baseline.wordsFrom]. rewrite app_nil_r.
    change (Cidr.is_space 32) with true. cbn match. destruct (rev w) as [|x r] eqn:E; [apply (f_equal (@rev Z)) in E; by rewrite rev_involutive in E|].
    rewrite <-E, rev_involutive. f_equal. by apply IH.
Qed.

Lemma trimStart_word c s : Cidr.is_space c = false -> Cidr.trimStart (c :: s) = c :: s.
Proof. simpl. by intros ->. Qed.

Lemma join_ends ws : Forall isWord ws -> ws <> [] ->
  (exists c s, join [32] ws = c :: s /\ Cidr.is_space c = false) /\ (exists c s, rev (join [32] ws) = c :: s /\ Cidr.is_space c = false).
Proof.
  induction 1 as [|w ws [Hw Hs] Hws IH]; [done|]. intros _.
  assert ((exists c s, w = c :: s /\ Cidr.is_space c = false) /\ (exists c s, rev w = c :: s /\ Cidr.is_space c = false)) as [(c & s & Ec & Hc) (c' & s' & Ec' & Hc')].
  { split; [destruct w as [|c s]; [done|]; apply Forall_cons in Hs as [? _]; eauto|].
    assert (Forall (fun c => Cidr.is_space c = false) (rev w)) as Hr by (by apply Forall_rev). destruct (rev w) as [|c s] eqn:E.
    - apply (f_equal (@rev Z)) in E. by rewrite rev_involutive in E.
    - apply Forall_cons in Hr as [? _]. eauto. }
  destruct ws as [|w' ws]; [simpl; eauto 10|]. rewrite join_cons by done. destruct (IH ltac:(done)) as [_ (x & t & Ex & Hx)]. split.
  - rewrite Ec. simpl. eauto.
  - rewrite !rev_app_distr, Ex. simpl. eauto.
Qed.

(** The words of a line, whatever blanks precede them. *)
Lemma words_line k ws : Forall isWord ws -> ws <> [] -> Baseline.words (repeat 32 k ++ join [32] ws) = ws.
Proof.
  intros Hws Hne. unfold Baseline.words, Cidr.trim. destruct (join_ends ws Hws Hne) as [(c & s & E & Hc) (c' & s' & E' & Hc')].
  assert (Cidr.trimStart (repeat 32 k ++ join [32] ws) = join [32] ws) as ->.
  { induction k as [|k IH]; simpl; [|done]. rewrite E. by apply trimStart_word. }
  rewrite E', trimStart_word, <-E', rev_involutive by done. by apply wordsFrom_join.
Qed.

Lemma hexFixed_space w n : Forall (fun c => Cidr.is_space c = false) (hexFixed w n).
Proof.
  eapply Forall_impl; [apply hexFixed_ok|]. intros c (_ & Hc & _). unfold Cidr.is_space.
  repeat match goal with |- context [?x <=? ?y] => destruct (Z.leb_spec x y); try lia | |- context [?x =? ?y] => destruct (Z.eqb_spec x y); try lia end; done.
Qed.

Lemma hexAddr_word a b c d port : isWord (hexAddr a b c d port).
Proof.
  unfold hexAddr. split; [intros E; apply app_eq_nil in E as [E _]; apply (f_equal length) in E; by rewrite (proj2 (hexFixed_ok 8 _)) in E|].
  apply Forall_app. split; [apply hexFixed_space|]. apply (Forall_app _ (js ":")). split; [by repeat constructor|apply hexFixed_space].
Qed.

Lemma quad_dotted a b c d : 46 ∈ Net.decimal_quad a b c d.
Proof. unfold Net.decimal_quad, Net.quad. simpl. apply elem_of_app. right. by left. Qed.

(** A connection of the kernel's table is listed as it is: its line, whatever its
    other columns, is read back as the same two addresses and ports, with the
    state and the owner of its inode, unless it listens or has no peer. *)
Theorem connection_listed inodes k sl a b c d port a' b' c' d' port' st q tr re uid to inode rest :
  byte a -> byte b -> byte c -> byte d -> byte a' -> byte b' -> byte c' -> byte d' -> 0 <= port < 65536 -> 0 <= port' < 65536 ->
  Forall isWord [sl; st; q; tr; re; uid; to; inode] -> Forall isWord rest ->
  let line := repeat 32 k ++ join [32] ([sl; hexAddr a b c d port; hexAddr a' b' c' d' port'; st; q; tr; re; uid; to; inode] ++ rest) in
  parseLine inodes false line =
    if bool_decide (stateOf st = LISTEN) || bool_decide (Net.decimal_quad a' b' c' d' = js "0.0.0.0") then None
    else let info := JsMap.get inodes inode in
         Some (mkSocket (Net.decimal_quad a b c d) (Some port) (Net.decimal_quad a' b' c' d') (Some port') tcp (stateOf st) (fst <$> info) (snd <$> info) None None).
Proof.
  intros Ha Hb Hc Hd Ha' Hb' Hc' Hd' Hp Hp' Hws Hrest line. unfold parseLine. subst line.
  rewrite !Forall_cons in Hws. destruct Hws as (W1 & W2 & W3 & W4 & W5 & W6 & W7 & W8 & _).
  rewrite words_line; [|apply Forall_app; split; [rewrite !Forall_cons; split_and!; try done; apply hexAddr_word|done]|done].
  rewrite (proj2 (Nat.ltb_ge _ _)) by (rewrite length_app; simpl; lia). cbn [app lookup list_lookup].
  change (default [] (Some ?x)) with x. rewrite !hexAddr_read by done.
  pose proof (quad_dotted a' b' c' d') as Hdot. destruct (bool_decide (stateOf st = LISTEN)); [done|]. cbn [orb].
  rewrite (bool_decide_eq_false_2 (Net.decimal_quad a' b' c' d' = [])) by (intros E; rewrite E in Hdot; set_solver).
  rewrite (bool_decide_eq_false_2 (Net.decimal_quad a' b' c' d' = js "::")) by (intros E; rewrite E in Hdot; set_solver).
  rewrite orb_false_r. cbn [orb]. destruct W8 as [W8 _]. by destruct inode.
Qed.

(** Every peer of an IPv6 connection has the same text for an address. *)
Theorem v6_peers_alike inodes line s : parseLine inodes true line = Some s -> remoteIp s = js "IPv6" /\ localIp s = js "IPv6".
Proof. unfold parseLine, parseHexAddr. cbn [negb]. repeat case_match; intros; by simplify_eq/=. Qed.

(** On Windows, where netstat prints four columns, the state is taken for the
    local address. *)
Theorem windows_local_lost proto l r s : Forall isWord [proto; l; r] ->
  parseNetstatLine (join [32] [proto; l; r; js "ESTABLISHED"]) = Some s -> localIp s = js "ESTABLISHED" /\ localPort s = Some 0.
Proof.
  intros Hw. unfold parseNetstatLine. assert (Baseline.words (join [32] [proto; l; r; js "ESTABLISHED"]) = [proto; l; r; js "ESTABLISHED"]) as ->.
  { change (join [32] [proto; l; r; js "ESTABLISHED"]) with (repeat 32 0 ++ join [32] [proto; l; r; js "ESTABLISHED"]). apply words_line; [|done]. rewrite !Forall_cons in Hw |- *. destruct Hw as (? & ? & ? & _). split_and!; try done. by repeat constructor. }
  case_match; [done|]. cbn [length lookup list_lookup Nat.ltb Nat.leb]. change (default [] (Some ?x)) with x.
  assert (parseHostPort (js "ESTABLISHED") = (js "ESTABLISHED", 0)) as E by (vm_compute; reflexivity).
  change (match js "ESTABLISHED" with [] => _ | c :: w => c :: w end) with (js "ESTABLISHED"). rewrite E.
  destruct (parseHostPort r) as [rip rport]. repeat case_match; intros; by simplify_eq/=.
Qed.

(** ** Concrete tables *)

Definition line0 : jsstr := repeat 32 3 ++ join [32] ([js "1:"; hexAddr 10 0 0 5 43210; hexAddr 203 0 113 9 443; js "01"; js "00000000:00000000";
  js "00:00000000"; js "00000000"; js "1000"; js "0"; js "4711"] ++ [js "2"; js "0000000000000000"]).

Example line0_text : hexAddr 10 0 0 5 43210 = js "0500000A:A8CA".
Proof. by vm_compute. Qed.

Definition inodes0 : list (jsstr * (Z * jsstr)) :=
  getInodeProcMap (Some [mkProc (js "self") true None None; mkProc (js "812") true (Some (js "curl" ++ [10])) (Some [None; Some (js "socket:[4711]")])]).

Ltac words_by_computation := apply Forall_cons; split; [split; [discriminate|apply (bool_decide_unpack _); vm_compute; exact I]|].

Lemma connection_listed_witness : parseLine inodes0 false line0 =
  Some (mkSocket (js "10.0.0.5") (Some 43210) (js "203.0.113.9") (Some 443) tcp ESTABLISHED (Some 812) (Some (js "curl")) None None).
Proof.
  unfold line0. rewrite (connection_listed inodes0 3 (js "1:") 10 0 0 5 43210 203 0 113 9 443 (js "01") (js "00000000:00000000") (js "00:00000000") (js "00000000")
    (js "1000") (js "0") (js "4711") [js "2"; js "0000000000000000"]); try (unfold byte; lia).
  - vm_compute. reflexivity.
  - repeat words_by_computation. constructor.
  - repeat words_by_computation. constructor.
Defined.

Lemma windows_local_lost_witness : exists s, parseNetstatLine (join [32] [js "TCP"; js "10.0.0.5:43210"; js "203.0.113.9:443"; js "ESTABLISHED"]) = Some s /\
  localIp s = js "ESTABLISHED".
Proof.
  eexists. split; [vm_compute; reflexivity|].
  refine (proj1 (windows_local_lost (js "TCP") (js "10.0.0.5:43210") (js "203.0.113.9:443") _ _ _)); [|vm_compute; reflexivity].
  repeat words_by_computation. constructor.
Defined.

Lemma v6_peers_alike_witness : exists s, parseLine [] true (js "0: 00000000000000000000000001000000:1F90 00000000000000000000000002000000:D431 01 a b c d e f") = Some s /\ remoteIp s = js "IPv6".
Proof. eexists. split; [vm_compute; reflexivity|]. refine (proj1 (v6_peers_alike [] (js "0: 00000000000000000000000001000000:1F90 00000000000000000000000002000000:D431 01 a b c d e f") _ _)). vm_compute. reflexivity. Defined.

(** Records of two addresses, in the order of the store. *)
Definition record0 (ip : string) (score : Q) : Intel.IntelIndicator :=
  Intel.mkIndicator (js ip) Intel.IP "Spamhaus" 1 (js "botnet") (js "t") (js "t") score 3600 None.
Definition intel0 : Intel.Service := Intel.mkService [] [] []
  [(js "12.2.3.4", record0 "12.2.3.4" 10); (js "2.2.3.4", record0 "2.2.3.4" 95)] [] [] [].
Definition peer0 : ActiveSocket := mkSocket (js "10.0.0.5") (Some 43210) (js "2.2.3.4") (Some 443) tcp ESTABLISHED None None None None.

(** The harmless neighbour hides the listed address. *)
Lemma scored_by_substring_witness : isThreat (enrich (fun l => l) intel0 peer0) = Some false /\ threatScore (enrich (fun l => l) intel0 peer0) = Some (inject_Z 10).
Proof. apply (scored_by_substring (fun l => l) intel0 peer0 (record0 "12.2.3.4" 10)); vm_compute; reflexivity. Defined.
End Sockets.
