(* ===== verification/Attempts.v ===== *)
(** * Contacts with the decoys

    Models [src/orchestrator/domain/analysis/behavioral_service.ts], class
    [BehavioralService]: the history of contacts by address and the verdict on
    their rhythm, and the check of system calls over the modelled [Behavior].
    The histories are in a [BoundedMap], by the contract that [Collections]
    proves of it; a history is a shared object, which the service changes in
    place right after it was looked up.

    The entropy of [n] intervals in buckets of sizes [c] is below one exactly
    when [n^n < 2^n * prod c^c], which is how it is decided here; for the 8 to
    10 intervals it is computed of, the floating-point value is on the same side
    of one for every partition.  The texts of messages are left out. *)

From S2P Require Import Prelude Result JsMap JsString Collections Behavior.
From Stdlib Require Import QArith Qminmax Lqa.
Open Scope Z_scope.

Module Attempts.
Import JsString.

(** ** Data *)

Record IpHistory := mkHistory { timestamps : list Z; intervals : list Z }.

Record Service := mkService { history : LruSpec.t jsstr IpHistory; analyzer : Behavior.Analyzer }.

Definition new : Service := mkService {| LruSpec.entries := []; LruSpec.order := []; LruSpec.cap := 1000 |} Behavior.new.

Definition MAX_HISTORY : nat := 10.

Inductive Verdict := PENDING | BLOCK | SHADOW_BAN.

Inductive effect := EAudit (type severity : string) | EBroadcast (type severity : string) | EBlockIp (ip : jsstr) | EShadowBan (ip : jsstr).

(** ** Entropy *)

Definition bucketOf (interval : Z) : Z := (interval + 50) / 100 * 100.

Definition buckets (l : list Z) : list (Z * Z) :=
  fold_left (fun m i => JsMap.set m (bucketOf i) (default 0 (JsMap.get m (bucketOf i)) + 1)) l [].

(** [calculateEntropy(l) < 1.0] *)
Definition entropyBelowOne (l : list Z) : bool :=
  let n := Z.of_nat (length l) in n ^ n <? 2 ^ n * foldr (fun e p => e.2 ^ e.2 * p) 1 (buckets l).

(** ** Contacts *)

Definition record (now : Z) (h : IpHistory) : IpHistory :=
  mkHistory (Behavior.bounded_push MAX_HISTORY (timestamps h) now)
    (match last (timestamps h) with Some t => Behavior.bounded_push MAX_HISTORY (intervals h) (now - t) | None => intervals h end).

Definition verdictOf (h : IpHistory) : Verdict :=
  if (8 <=? length (intervals h))%nat then if entropyBelowOne (intervals h) then BLOCK else SHADOW_BAN else PENDING.

Section service.
(** Whether the ledger and the bus are there. *)
Context (audit eventBus : bool).

Definition report (type severity : string) : list effect :=
  (if audit then [EAudit type severity] else []) ++ (if eventBus then [EBroadcast type severity] else []).

Definition effectsOf (ip : jsstr) (v : Verdict) : list effect :=
  match v with
  | PENDING => []
  | BLOCK => report "activity" "info" ++ [EBlockIp ip]
  | SHADOW_BAN => report "activity" "info" ++ [EShadowBan ip]
  end.

(** [analyze]; a service that is not ready throws, which is [None]. *)
Definition analyze (ready : bool) (ip : jsstr) (now : Z) (s : Service) : option (Service * Verdict * list effect) :=
  if negb ready then None
  else
    let '(h, found) := LruSpec.get ip (history s) in
    let stats := default (mkHistory [] []) found in
    let h := match found with Some _ => h | None => LruSpec.set ip stats h end in
    let stats := record now stats in
    let s := mkService (LruSpec.touch ip stats h) (analyzer s) in
    Some (s, verdictOf stats, effectsOf ip (verdictOf stats)).

(** The handler of HONEYPOT events. *)
Definition onHoneypot (ready : bool) (source : option jsstr) (now : Z) (s : Service) : Service * list effect :=
  match source with
  | Some (c :: ip) => match analyze ready (c :: ip) now s with Some (s', _, fx) => (s', fx) | None => (s, []) end
  | _ => (s, [])
  end.

Record SuspiciousIp := mkSuspicious { sip : jsstr; attempts : nat; lastSeen : option Z }.

(** The first of the map, in the order of insertion. *)
Definition getSuspiciousIps (limit : nat) (s : Service) : list SuspiciousIp :=
  omap (fun ip => (fun h => mkSuspicious ip (length (timestamps h)) (last (timestamps h))) <$> JsMap.get (LruSpec.entries (history s)) ip)
    (take limit (LruSpec.order (history s))).

(** [emitMetrics]: the fields of the payload. *)
Definition emitMetrics (s : Service) : list (nat * jsstr * nat) := imap (fun i x => (i, sip x, attempts x)) (getSuspiciousIps 10 s).

(** ** System calls *)

Inductive CallVerdict := ALERT | BLOCK_SYSCALL | PASS.

Definition suspiciousCommands : list string := ["curl"; "wget"; "chmod"; "chown"; "nc"; "netcat"]%string.
Definition sensitiveDirs : list string := ["/etc"; "/var/run"; "/boot"; "/root"]%string.

Definition isCall (syscall : jsstr) (name : string) : bool := bool_decide (syscall = js name).

Definition isSensitive (path : jsstr) : bool := existsb (fun d => startsWith path (js d)) sensitiveDirs.

Definition checkSyscallAnomalies (ready : bool) (pid : Z) (comm syscall : jsstr) (args : list jsstr) (now : Z) (s : Service)
    : option (Service * CallVerdict * list effect) :=
  if negb ready then None
  else
    let a := Behavior.trackSyscall pid comm syscall now (analyzer s) in
    let s := mkService (history s) a in
    if negb (Qle_bool (Behavior.getSyscallAnomalyScore comm syscall a) (8 # 10)) then
      Some (s, ALERT, if audit then [EAudit "THREAT" "warning"] else [])
    else if existsb (fun c => bool_decide (comm = js c)) suspiciousCommands && isCall syscall "execve" then
      Some (s, ALERT, report "security" "warning")
    else if (isCall syscall "openat" || isCall syscall "open") && isSensitive (default [] (args !! 0%nat)) && negb (includes comm (js "systemd")) then
      Some (s, BLOCK_SYSCALL, report "forensic" "critical")
    else Some (s, PASS, []).

(** ** Runs *)

(** Contacts one after the other, with the verdicts. *)
Fixpoint contacts (l : list (jsstr * Z)) (s : Service) : Service * list Verdict :=
  match l with
  | [] => (s, [])
  | (ip, now) :: l =>
      match analyze true ip now s with
      | Some (s', v, _) => let '(s'', vs) := contacts l s' in (s'', v :: vs)
      | None => (s, [])
      end
  end.

Definition after (l : list (jsstr * Z)) : Service := (contacts l new).1.

Definition timesOf (ip : jsstr) (l : list (jsstr * Z)) : list Z := map snd (List.filter (fun c => bool_decide (c.1 = ip)) l).

Fixpoint diffs (l : list Z) : list Z := match l with a :: ((b :: _) as t) => (b - a) :: diffs t | _ => [] end.

Definition lastn {A} (n : nat) (l : list A) : list A := drop (length l - n) l.

(** ** Facts *)

Lemma bounded_lastn {A} n (l : list A) x : (0 < n)%nat -> Behavior.bounded_push n (lastn n l) x = lastn n (l ++ [x]).
Proof.
  intros Hn. unfold Behavior.bounded_push, lastn. rewrite !length_app, length_drop. simpl.
  destruct (Nat.ltb_spec n (length l - (length l - n) + 1)) as [Hlt|Hge].
  - assert (n <= length l)%nat as Hl by lia. rewrite drop_app_le by lia.
    replace (length l + 1 - n)%nat with (S (length l - n)) by lia.
    destruct (drop (length l - n) l) as [|y t] eqn:E.
    + apply (f_equal length) in E. rewrite length_drop in E. simpl in E. lia.
    + simpl. f_equal. replace (S (length l - n)) with (length l - n + 1)%nat by lia. by rewrite <-drop_drop, E.
  - replace (length l + 1 - n)%nat with 0%nat by lia. replace (length l - n)%nat with 0%nat by lia. done.
Qed.

Lemma diffs_snoc l x : diffs (l ++ [x]) = diffs l ++ match last l with Some t => [x - t] | None => [] end.
Proof.
  induction l as [|a [|b l] IH]; [done|done|]. change (diffs ((a :: b :: l) ++ [x])) with ((b - a) :: diffs ((b :: l) ++ [x])).
  rewrite IH. done.
Qed.

Lemma last_lastn {A} n (l : list A) : (0 < n)%nat -> last (lastn n l) = last l.
Proof.
  intros Hn. unfold lastn. destruct (decide (l = [])) as [->|Hne]; [done|]. rewrite <-(take_drop (length l - n) l) at 3. rewrite last_app.
  destruct (last (drop (length l - n) l)) eqn:E; [done|]. apply last_None in E. apply (f_equal length) in E. rewrite length_drop in E.
  simpl in E. destruct l; [done|]. simpl in E. lia.
Qed.

(** The history of contacts at the times given. *)
Definition historyOf (ts : list Z) : IpHistory := mkHistory (lastn MAX_HISTORY ts) (lastn MAX_HISTORY (diffs ts)).

Lemma record_history ts now : record now (historyOf ts) = historyOf (ts ++ [now]).
Proof.
  unfold record, historyOf. cbn [timestamps intervals]. rewrite bounded_lastn, last_lastn, diffs_snoc by (unfold MAX_HISTORY; lia).
  destruct (last ts); [by rewrite bounded_lastn by (unfold MAX_HISTORY; lia)|by rewrite app_nil_r].
Qed.

(** The map after a contact, when it need not make room. *)
Definition updated (ip : jsstr) (now : Z) (e : list (jsstr * IpHistory)) : list (jsstr * IpHistory) :=
  (ip, record now (default (mkHistory [] []) (JsMap.get e ip))) :: JsMap.delete e ip.

Lemma delete_idem (e : list (jsstr * IpHistory)) ip : JsMap.delete (JsMap.delete e ip) ip = JsMap.delete e ip.
Proof. apply JsMap.delete_notin. rewrite JsMap.keys_delete, list_elem_of_filter. naive_solver. Qed.

Lemma analyze_entries ip now s : let e := LruSpec.entries (history s) in let cap := LruSpec.cap (history s) in
  (JsMap.get e ip = None -> Z.of_nat (length e) < cap) ->
  exists s' v fx, analyze true ip now s = Some (s', v, fx) /\ LruSpec.entries (history s') = updated ip now e /\ LruSpec.cap (history s') = cap /\
    v = verdictOf (record now (default (mkHistory [] []) (JsMap.get e ip))) /\ fx = effectsOf ip v.
Proof.
  intros e cap Hroom. subst e cap. unfold analyze, LruSpec.get, updated. cbn [negb].
  destruct (JsMap.get (LruSpec.entries (history s)) ip) as [h|] eqn:E.
  - do 3 eexists. split; [reflexivity|]. cbn [history LruSpec.touch LruSpec.entries LruSpec.cap default]. split_and!; try done.
    cbn [JsMap.delete]. rewrite decide_True by done. by rewrite delete_idem.
  - do 3 eexists. split; [reflexivity|]. cbn [history default]. unfold LruSpec.set. rewrite E.
    rewrite (proj2 (Z.leb_gt _ _)) by auto. cbn [LruSpec.touch LruSpec.entries LruSpec.cap JsMap.delete]. by rewrite decide_True.
Qed.

Lemma contacts_snoc l ip now s : contacts (l ++ [(ip, now)]) s =
  let '(s1, vs) := contacts l s in
  match analyze true ip now s1 with Some (s2, v, _) => (s2, vs ++ [v]) | None => (s1, vs) end.
Proof.
  revert s. induction l as [|[ip' now'] l IH]; intros s; cbn [contacts app].
  - by destruct (analyze true ip now s) as [[[s' v] fx]|].
  - destruct (analyze true ip' now' s) as [[[s' v] fx]|] eqn:E; [|unfold analyze in E; by destruct (LruSpec.get ip' (history s))].
    rewrite IH. destruct (contacts l s') as [s1 vs].
    by destruct (analyze true ip now s1) as [[[s2 w] fx']|].
Qed.

Lemma timesOf_snoc ip l ip' now : timesOf ip (l ++ [(ip', now)]) = timesOf ip l ++ if bool_decide (ip' = ip) then [now] else [].
Proof. unfold timesOf. rewrite List.filter_app, map_app. simpl. by destruct (bool_decide (ip' = ip)). Qed.

(** The addresses that made contact. *)
Definition sources (l : list (jsstr * Z)) : list jsstr := remove_dups l.*1.

Lemma sources_mono l l' : (length (sources l) <= length (sources (l ++ l')))%nat.
Proof.
  apply submseteq_length, NoDup_submseteq; [apply NoDup_remove_dups|]. intros x. unfold sources.
  rewrite !elem_of_remove_dups, fmap_app, elem_of_app. auto.
Qed.

Definition remembered (ts : list Z) : option IpHistory := match ts with [] => None | _ => Some (historyOf ts) end.

Definition good (l : list (jsstr * Z)) (s : Service) : Prop :=
  LruSpec.cap (history s) = 1000 /\ NoDup (JsMap.keys (LruSpec.entries (history s))) /\ JsMap.keys (LruSpec.entries (history s)) ⊆ l.*1 /\
  forall ip, JsMap.get (LruSpec.entries (history s)) ip = remembered (timesOf ip l).

Lemma remembered_default ts : default (mkHistory [] []) (remembered ts) = historyOf ts.
Proof. by destruct ts. Qed.

Lemma good_snoc l ip now s : good l s -> (length (sources (l ++ [(ip, now)])) <= 1000)%nat ->
  exists s' fx, analyze true ip now s = Some (s', verdictOf (historyOf (timesOf ip l ++ [now])), fx) /\
    good (l ++ [(ip, now)]) s' /\ fx = effectsOf ip (verdictOf (historyOf (timesOf ip l ++ [now]))).
Proof.
  intros (Hcap & Hnd & Hsub & Hget) Hlen. destruct (analyze_entries ip now s) as (s' & v & fx & Ea & He & Hc & -> & ->).
  - intros Hnone. rewrite Hcap. apply JsMap.get_None in Hnone.
    assert (length (ip :: JsMap.keys (LruSpec.entries (history s))) <= length (sources (l ++ [(ip, now)])))%nat as Hle.
    { apply submseteq_length, NoDup_submseteq; [by apply NoDup_cons|]. intros x Hx. apply elem_of_remove_dups. rewrite fmap_app, elem_of_app.
      apply elem_of_cons in Hx as [->|Hx]; [right; by left|left; by apply Hsub]. }
    simpl in Hle. unfold JsMap.keys in Hle. rewrite length_fmap in Hle. lia.
  - rewrite Hget, remembered_default, record_history in *. exists s', (effectsOf ip (verdictOf (historyOf (timesOf ip l ++ [now])))). split; [done|]. split; [|done].
    unfold good. rewrite Hc, He. unfold updated. rewrite Hget, remembered_default, record_history. split_and!; [done| | |].
    + cbn [JsMap.keys fmap list_fmap fst]. apply NoDup_cons. fold (JsMap.keys (JsMap.delete (LruSpec.entries (history s)) ip)).
      rewrite JsMap.keys_delete. split; [rewrite list_elem_of_filter; naive_solver|by apply NoDup_filter].
    + intros x Hx. rewrite fmap_app, elem_of_app. apply elem_of_cons in Hx as [->|Hx]; [right; by left|]. left. apply Hsub.
      change (x ∈ JsMap.keys (JsMap.delete (LruSpec.entries (history s)) ip)) in Hx. rewrite JsMap.keys_delete in Hx. by apply list_elem_of_filter in Hx as [_ ?].
    + intros x. rewrite timesOf_snoc. cbn [JsMap.get]. case_decide as Hd.
      * subst x. rewrite bool_decide_eq_true_2 by done. unfold remembered. by destruct (timesOf ip l ++ [now]) eqn:E; [apply app_eq_nil in E as [_ ?]|].
      * rewrite bool_decide_eq_false_2, app_nil_r, JsMap.get_delete_ne by done. apply Hget.
Qed.

Lemma good_run l : (length (sources l) <= 1000)%nat -> good l (after l).
Proof.
  induction l as [|[ip now] l IH] using rev_ind; intros Hlen.
  - unfold good, after. simpl. split_and!; [done|constructor|done|done].
  - assert (length (sources l) <= 1000)%nat as Hl by (etransitivity; [apply (sources_mono l [(ip, now)])|done]).
    destruct (good_snoc l ip now (after l) (IH Hl) Hlen) as (s' & fx & Ea & Hg & _). unfold after in *. rewrite contacts_snoc.
    destruct (contacts l new) as [s1 vs]. cbn [fst] in *. by rewrite Ea.
Qed.

(** The verdict on a contact, whatever other addresses made contact in between, up
    to a thousand of them: it is pending until the ninth contact of the address;
    then it is blocked when the entropy of its last ten intervals is below one,
    and diverted otherwise. *)
Theorem verdict_exact l ip now : (length (sources (l ++ [(ip, now)])) <= 1000)%nat ->
  exists s fx, let ds := lastn 10 (diffs (timesOf ip l ++ [now])) in
  let v := if (length (timesOf ip l) <? 8)%nat then PENDING else if entropyBelowOne ds then BLOCK else SHADOW_BAN in
  analyze true ip now (after l) = Some (s, v, fx) /\ fx = effectsOf ip v.
Proof.
  intros Hlen. assert (length (sources l) <= 1000)%nat as Hl by (etransitivity; [apply (sources_mono l [(ip, now)])|done]).
  destruct (good_snoc l ip now (after l) (good_run l Hl) Hlen) as (s' & fx & Ea & _ & Hfx). exists s', fx. cbv zeta.
  assert (verdictOf (historyOf (timesOf ip l ++ [now])) =
    if (length (timesOf ip l) <? 8)%nat then PENDING else if entropyBelowOne (lastn 10 (diffs (timesOf ip l ++ [now]))) then BLOCK else SHADOW_BAN) as <-; [|done].
  unfold verdictOf, historyOf. cbn [intervals]. unfold MAX_HISTORY.
  assert (forall l x, length (diffs (l ++ [x])) = length l) as Hd.
  { intros k x. induction k as [|a [|b k] IH]; [done|done|]. change (diffs ((a :: b :: k) ++ [x])) with ((b - a) :: diffs ((b :: k) ++ [x])). simpl length in *. lia. }
  assert (length (lastn 10 (diffs (timesOf ip l ++ [now]))) = Nat.min 10 (length (timesOf ip l))) as -> by (unfold lastn; rewrite length_drop, Hd; lia).
  destruct (Nat.ltb_spec (length (timesOf ip l)) 8), (Nat.leb_spec 8 (Nat.min 10 (length (timesOf ip l)))); done || lia.
Qed.

(** *** Rhythms *)

Lemma buckets_same b l n : Forall (fun d => bucketOf d = b) l ->
  fold_left (fun m i => JsMap.set m (bucketOf i) (default 0 (JsMap.get m (bucketOf i)) + 1)) l [(b, n)] = [(b, n + Z.of_nat (length l))].
Proof.
  intros Hl. revert n. induction Hl as [|d l Hd _ IH]; intros n; [simpl; by rewrite Z.add_0_r|]. cbn [fold_left]. rewrite Hd. simpl.
  rewrite !decide_True by done. cbn [default]. rewrite IH. f_equal. f_equal. cbn [length]. unfold id. lia.
Qed.

(** A caller that keeps one rhythm, to the tenth of a second, is blocked and not
    diverted. *)
Theorem metronome_blocked b ds : Forall (fun d => bucketOf d = b) ds -> ds <> [] -> entropyBelowOne ds = true.
Proof.
  intros Hf Hne. destruct ds as [|d ds]; [done|]. apply Forall_cons in Hf as [Hd Hf]. unfold entropyBelowOne, buckets. cbn [fold_left].
  rewrite Hd. simpl JsMap.set. rewrite buckets_same by done. cbn [foldr snd]. set (n := Z.of_nat (length (d :: ds))).
  assert (0 + 1 + Z.of_nat (length ds) = n) as -> by (subst n; simpl length; lia). assert (1 <= n) as Hn by (subst n; simpl length; lia).
  rewrite Z.mul_1_r. apply Z.ltb_lt. assert (0 < n ^ n) by (apply Z.pow_pos_nonneg; lia).
  assert (2 ^ 1 <= 2 ^ n) by (apply Z.pow_le_mono_r; lia). change (2 ^ 1) with 2 in *. nia.
Qed.

(** *** Calls *)

Lemma score_exact c t : 0 < t -> 0 <= c ->
  negb (Qle_bool (Qmin (Qmax 0 (1 - inject_Z (c + 1) / inject_Z (t + 10) * 5)) 1) (8 # 10)) = (25 * (c + 1) <? t + 10).
Proof.
  intros Ht Hc. assert (0 < inject_Z (t + 10))%Q as Hpos by (change 0%Q with (inject_Z 0); rewrite <-Zlt_Qlt; lia).
  set (x := (inject_Z (c + 1) / inject_Z (t + 10))%Q). assert (x * inject_Z (t + 10) == inject_Z (c + 1))%Q as Hx by (unfold x; field; lra).
  assert (0 <= inject_Z (c + 1))%Q as Hc' by (change 0%Q with (inject_Z 0); rewrite <-Zle_Qle; lia).
  assert (0 <= x)%Q as Hx0 by (apply Qle_shift_div_l; lra).
  assert ((25 * (c + 1) < t + 10)%Z <-> (x < 1 # 25)%Q) as Hiff.
  { rewrite Zlt_Qlt, inject_Z_mult. change (inject_Z 25) with (25 # 1). split; intros Hlt; [apply Qnot_le_lt; intros Hle|]; nra. }
  apply eq_true_iff_eq. rewrite negb_true_iff, Z.ltb_lt, Hiff.
  destruct (Qle_bool (Qmin (Qmax 0 (1 - x * 5)) 1) (8 # 10)) eqn:E; [apply Qle_bool_iff in E|].
  - split; [done|]. intros Hlt. exfalso. destruct (Q.min_spec (Qmax 0 (1 - x * 5)) 1) as [[_ Hm]|[_ Hm]]; rewrite Hm in E; [|lra].
    destruct (Q.max_spec 0 (1 - x * 5)) as [[Hy Hm']|[Hy Hm']]; rewrite Hm' in E; lra.
  - split; [|done]. intros _. apply Qnot_le_lt. intros Hle. assert (Qmin (Qmax 0 (1 - x * 5)) 1 <= 8 # 10)%Q as Hq; [|apply Qle_bool_iff in Hq; congruence].
    eapply Qle_trans; [apply Q.le_min_l|]. apply Q.max_lub; lra.
Qed.

(** A system call raises the alarm for its rarity exactly when the call,
    itself counted, is less than a twenty-fifth of what the program did before:
    [25 * (count + 1) < total + 10]; so no program of fewer than forty-one calls
    ever does. *)
Theorem rarity_exact pid comm syscall args now s m : let a := Behavior.trackSyscall pid comm syscall now (analyzer s) in
  let total := fold_left Z.add (map snd m) 0 in let count := default 0 (JsMap.get m syscall) in
  JsMap.get (Behavior.syscallFrequencies a) comm = Some m -> Behavior.isLearningMode (analyzer s) = false -> 0 < total -> 1 <= count ->
  existsb (fun c => bool_decide (comm = js c)) suspiciousCommands = false ->
  (exists fx, checkSyscallAnomalies true pid comm syscall args now s = Some (mkService (history s) a, ALERT, fx)) <-> 25 * (count + 1) < total + 10.
Proof.
  intros a total count Hm Hl Ht Hc Es. unfold checkSyscallAnomalies. fold a. cbn [negb]. rewrite Es. cbn [andb].
  assert (Behavior.getSyscallAnomalyScore comm syscall a = Qmin (Qmax 0 (1 - inject_Z (count + 1) / inject_Z (total + 10) * 5)) 1) as ->.
  { unfold Behavior.getSyscallAnomalyScore. rewrite Hm. replace (Behavior.isLearningMode a) with false by (symmetry; exact Hl).
    fold total count. by rewrite (proj2 (Z.eqb_neq total 0)) by lia. }
  rewrite score_exact by lia. destruct (Z.ltb_spec (25 * (count + 1)) (total + 10)) as [Hlt|Hge]; [by split; eauto|].
  split; [|lia]. intros [fx E]. by repeat case_match.
Qed.

(** A program with "systemd" in its name opens what it likes. *)
Theorem masquerade_passes pid comm syscall args now s s' v fx : includes comm (js "systemd") = true ->
  checkSyscallAnomalies true pid comm syscall args now s = Some (s', v, fx) -> v <> BLOCK_SYSCALL.
Proof. intros Hc. unfold checkSyscallAnomalies. rewrite Hc, andb_false_r. cbn [negb]. repeat case_match; intros; by simplify_eq. Qed.
End service.

(** ** Concrete contacts *)

Definition knocks : list (jsstr * Z) :=
  map (fun i => (js "6.6.6.6", 1000 * Z.of_nat i)) (seq 0 8) ++ [(js "7.7.7.7", 7500)].

Lemma verdict_exact_witness : exists s fx, analyze true true true (js "6.6.6.6") 8010 (after true true knocks) = Some (s, BLOCK, fx) /\
  fx = [EAudit "activity" "info"; EBroadcast "activity" "info"; EBlockIp (js "6.6.6.6")].
Proof.
  destruct (verdict_exact true true knocks (js "6.6.6.6") 8010) as (s & fx & E & Hfx).
  - apply Nat.leb_le. vm_compute. reflexivity.
  - exists s, fx. rewrite E, Hfx. vm_compute. split; reflexivity.
Defined.

Lemma metronome_blocked_witness : entropyBelowOne [1000; 1010; 990; 1049; 951] = true.
Proof. apply (metronome_blocked 1000); [|discriminate]. repeat constructor. Defined.

(** Forty reads, then a first ptrace. *)
Definition reader : Service :=
  mkService (history new) (Behavior.run Behavior.new (map (fun i => Behavior.ISyscall 7 (js "app") (js "read") (Z.of_nat i)) (seq 0 40))).

Lemma rarity_exact_witness : exists fx, checkSyscallAnomalies true true true 7 (js "app") (js "ptrace") [] 41 reader =
  Some (mkService (history reader) (Behavior.trackSyscall 7 (js "app") (js "ptrace") 41 (analyzer reader)), ALERT, fx).
Proof.
  apply (proj2 (rarity_exact true true 7 (js "app") (js "ptrace") [] 41 reader [(js "read", 40); (js "ptrace", 1)]
    ltac:(vm_compute; reflexivity) ltac:(vm_compute; reflexivity) ltac:(vm_compute; reflexivity) ltac:(vm_compute; discriminate) ltac:(vm_compute; reflexivity))).
  vm_compute. reflexivity.
Defined.

Lemma masquerade_passes_witness : checkSyscallAnomalies true true true 7 (js "systemd-miner") (js "openat") [js "/etc/shadow"] 0 new <> None /\
  forall s' v fx, checkSyscallAnomalies true true true 7 (js "systemd-miner") (js "openat") [js "/etc/shadow"] 0 new = Some (s', v, fx) -> v <> BLOCK_SYSCALL.
Proof. split; [vm_compute; discriminate|]. intros s' v fx. apply masquerade_passes. vm_compute. reflexivity. Defined.
End Attempts.
